(* ===== verification/_CoqProject ===== *)
-Q . S2P
Prelude.v
Radix.v
Mem.v
Cbs.v
CString.v
Cbb.v
CbbSpec.v
CbbFlush.v
CbbOps.v
CbbAsn1.v
CbbPartial.v
CbbTheorems.v
CbbSetOf.v
DerDocument.v
Ber.v
Unicode.v
PosixTime.v
CbsTime.v
OidText.v
ConstTime.v
Words.v
Keccak.v
Bits.v
Des.v
DesSpec.v
DesLinear.v
DesProof.v
DesModes.v
Blake2.v
Poly1305.v
Chacha.v
Rc4.v
Siphash.v
Base64.v
Stack.v
StackTheorems.v
HeapSort.v
State.v
Buf.v
Refcount.v
Lhash.v
LhashMap.v
Pool.v
PoolSpec.v
PoolRun.v
Bio.v
BioMem.v
BioRead.v
BioPair.v
BioPairSpec.v
BioPairRun.v
Kyber.v
KyberRing.v
KyberNtt.v
KyberPoly.v
KyberCode.v
KyberSample.v
KyberCpa.v
KyberNoise.v
KyberKeys.v
KyberKem.v
Aead.v
ChachaPoly.v
ChachaAead.v
Md32.v
ShaSpec.v
Sha1.v
Sha256.v
