(* ===== verification/Prelude.v ===== *)
(** * The C core of SkillTalk's cryptographic library, verified

    SkillTalk (the repository ST_Cursor_Modular) is a Swift application; the C
    code it ships is in its pods, and the pod whose own logic is C is
    BoringSSL, under src/SkillTalk/Pods/BoringSSL-GRPC/src/.  This library
    models the layers of its [crypto/] directory on which everything else
    stands: byte strings and DER, allocation and C strings, containers, time,
    text encodings, I/O objects, small ciphers and hash functions, and one
    public-key mechanism, Kyber768.  Paths below are relative to [crypto/].

    ** Parts

    - [Prelude]: machine words as [Z] with their wrap-around ([⊞[64]], [≪[32]],
      [.&], [≫]), bytes, the parser monad [M], the lemmas on bits.
    - [Radix]: digit lists in any base; DER lengths (256), tags and OID
      components (128) and decimal numbers (10) are instances.
    - [Mem], [CString]: mem.c.  [Allocator] is the C library's malloc, a
      parameter: it may fail at any call and fresh blocks hold arbitrary bytes.
    - [Cbs]: the parser CBS (bytestring/cbs.c).  A CBS is the list of bytes it
      covers; a function [int f(CBS *cbs, T *out)] is an [M CBS T], which
      returns [None] for 0 and always yields the CBS as the code leaves it.
      [CbsTime] has the time parsers of the same file, [PosixTime] the calendar
      of asn1/posix_time.c, [Unicode] the codecs of bytestring/unicode.c,
      [OidText] the OBJECT IDENTIFIER printer of cbs.c and reader of cbb.c.
    - [Cbb]: the builder CBB (bytestring/cbb.c) over an explicit store: the
      structs by address, the buffer of each root, the allocation clock.
      Children alias the buffer of their root through [base]; a bad
      dereference or an access out of a block is the outcome [UB].
      [CbbSpec] is the abstract builder, a stack of frames (the kind of the
      pending length prefix and the contents written so far), and [rep], which
      relates a store to it.  [CbbFlush] proves [CBB_flush] against [close],
      [CbbOps] and [CbbAsn1] the writers against [appends]/[opens],
      [CbbTheorems] states the results, [CbbSetOf] those on SET OF.
      [CbbPartial] has the rules for operations that may refuse their input.
    - [DerDocument]: a client of both, trees of DER values.  [Ber]:
      bytestring/ber.c, which reads BER with CBS and writes DER with CBB.
    - [ConstTime]: the branch-free primitives of internal.h; [Words]: its
      loads, stores and rotations; [Base64]: base64/base64.c.
    - [Keccak], [Poly1305], [Chacha], [Rc4], [Siphash]: keccak/keccak.c,
      poly1305/poly1305.c, chacha/chacha.c, rc4/rc4.c and siphash/siphash.c.
      [Blake2]: blake2/blake2.c, with RFC 7693 on rows and diagonals.
    - [Md32]: the collector of fipsmodule/digest/md32_common.h, which cuts a
      stream into blocks and pads it; [Sha1] and [Sha256]: its clients
      sha1.c.inc and sha256.c.inc of fipsmodule/sha, in the portable form.
      [ShaSpec] is FIPS 180-4, with the constants computed from the primes.
    - [Des]: des/des.c, single and triple DES in ECB and CBC mode.  [DesSpec]
      is FIPS 46-3 and FIPS 81, on lists of bits, with the tables of the
      standard.  The code permutes bits with xors and shifts of words:
      [Bits] evaluates such code on symbolic words, each bit a linear form of
      the input bits, and [DesLinear] compares the result with the permutations
      of the standard; the tables are compared entry by entry.  [DesProof] has
      the rounds and the key schedule, [DesModes] the keys, modes and results.
    - [Aead]: the AEAD interface of fipsmodule/cipher/aead.c.inc, which
      dispatches through the table of an algorithm and checks lengths and
      aliasing; the class [AeadLaws] is what an algorithm promises it.
      [ChachaPoly]: cipher_extra/e_chacha20poly1305.c over [Chacha] and
      [Poly1305]; [ChachaAead] has its instances of the class.
    - [Stack], [StackTheorems], [HeapSort]: stack/stack.c.
    - [State]: the monad [ST] of the stateful C code that follows, whose [None]
      is undefined behaviour, with its rules [wp_...].
    - [Lhash], [LhashMap]: lhash/lhash.c.  The chains are linked items in a
      store by address, a pointer to a pointer is a [link], freed items are
      gone from the store.  [LhashCallbacks] is the contract of the hash and
      comparison callbacks.
    - [Refcount]: refcount.c as the atomic steps of several threads.
    - [Pool], [PoolSpec], [PoolRun]: pool/pool.c, the pool of shared buffers:
      a client of the hash table, whose callbacks read the store of buffers,
      of the reference counts and of SipHash.  [PoolSpec] has the rules of its
      operations, [PoolRun] the threads that use it.
    - [Buf]: the growing buffer of buf/buf.c.
    - [Bio]: bio/bio.c.  BIOs live in a store by address, and a BIO dispatches
      through its method table.  [BioPair], [BioPairSpec], [BioPairRun]:
      bio/pair.c, where each end of a pair reads the ring buffer of its peer.
      [BioMem]: bio/bio_mem.c, a BIO over a [BUF_MEM] or over bytes of the
      caller.  [BioRead]: [BIO_read_asn1] of bio/bio.c, against the class
      [ByteSource] of the BIOs that deliver a byte string in pieces of their
      choice; a memory BIO is an instance.
    - [Kyber]: kyber/kyber.c, a client of the Keccak sponge, of CBS and of CBB.
      A [scalar] is the list of its coefficients, a loop over them a [foldl] or
      a map over the indices.  [KyberRing] has the reductions modulo 3329 and
      polynomials modulo X^2 - z, [KyberNtt] the number theoretic transform
      layer by layer, [KyberPoly] the schoolbook ring
      Z_3329[X]/(X^256 + 1) and the transform as its isomorphism, [KyberCode]
      the packing of coefficients and their compression, [KyberSample] the
      hashes and samplers, [KyberCpa] encryption and decryption as equations
      in the ring, [KyberNoise] the noise of a decryption, [KyberKeys] the
      encodings of keys, [KyberKem] key generation, encapsulation and
      decapsulation.

    ** What the theorems show

    - Parsers ([..._iff]): each reader accepts exactly the strings of an
      independent definition of the encoding, the canonical DER TLVs, minimal
      INTEGERs, shortest UTF-8, RFC 5280 times, dotted decimal OIDs, returns
      the value they encode and consumes exactly their bytes.
    - Builder: no operation on a represented document has undefined behaviour;
      each does to the frames what its name says; it fails exactly when a
      length does not fit its prefix or there is no room, with the error bit
      set, and then the structs can still be cleaned up.  [CBB_finish] returns
      the closed document.  What is written parses back.
    - BER: the grammar [ber] of the elements that the lenient reader takes, the
      DER [der_of] of the values they encode; [CBS_asn1_ber_to_der] terminates
      and computes the second from the first, to the depth [kMaxDepth].
    - Stack: well-formedness and the truth of the sorted flag are invariants,
      the heap sort leaves a sorted permutation, the search returns the first
      match.
    - Hash table: it implements a finite map under any sequence of operations,
      without leaks and with short chains, and the iteration survives the
      deletion of the current element.  The store has the items: the arrays
      of buckets and the struct are not blocks of it, so the absence of leaks
      is that of items.
    - Reference counts: under every interleaving the object is released at most
      once and never too early; without spurious failures every run ends with all
      calls returned, and with the release if all references are dropped and
      the word has not saturated.
    - Buffer pool: under every interleaving a reference leads to a live buffer
      with the bytes asked for, equal bytes are shared, no buffer leaks (the
      bytes are a part of the record of a buffer, not a block of their own).
    - BIO pair: it refines two bounded FIFO channels; no byte is lost or
      reordered, and transfers complete whatever the size of the buffers.
    - Memory BIO: it refines a byte queue.  [BIO_read_asn1] over any source of
      bytes that ends with 0 or -1 returns, with exactly the first element of
      definite length and the rest unread, or with all bytes when a constructed
      tag has an indefinite length.  In this last case, if the source ends with
      another negative value, it does not return ([BIO_read_asn1_spins]).
    - DES: each block function is that of the standard for all keys and blocks;
      CBC is the mode of FIPS 81 with zero padding, and decrypts to the message.
      [cbc_decrypt_over_read] shows how many bytes a decryption reads.
    - Base64, Keccak, Poly1305, RC4, ChaCha20, BLAKE2b, SHA-1, SHA-2: the streaming
      interfaces do not depend on how the data is cut, and agree with the textbook definitions of
      the encoding, the sponge, the authenticator and the ciphers.  For
      Poly1305 there is an exception, a carry that is lost for a few values of
      the accumulator ([poly1305_dropped_carry]).
    - AEAD: sealing is that of RFC 8439 whatever the stack held; through the
      interface, opening inverts sealing and accepts nothing else, and failures
      leave zeros.  [EVP_AEAD_CTX_new_no_memory]: a failed allocation is not
      checked.
    - Kyber: the transform is the isomorphism of the ring that its comment
      says; for keys generated from any entropy, t = A^T s + e with small s and
      e; a decryption yields the message plus an explicit noise, and
      decapsulation recovers the secret when every coefficient of the noise is
      between -832 and 831 (always so for zero secrets, [zero_key_quiet]; for
      random ones the probability of the contrary is negligible, which is not
      proved); any other ciphertext is rejected by the hash of the failure
      secret; the encodings of keys are read back, and nothing else is.
    - Time: POSIX time and calendar date are inverse, defined for exactly the
      valid dates of the years 0 to 9999.  The parsers add the offset of a
      string to its time, where the UTC time is the time minus the offset
      ([parse_utc_time_offset_sign]).

    ** Loops and fuel

    A C loop is a [Fixpoint] on what it consumes (bytes of the input, an index)
    or has fuel that the caller computes: the length of the input where each
    turn consumes a byte or more, the number of elements for the heap and the
    binary search, the number of structs for the recursion of [CBB_flush], the
    number of items in the store for a hash chain, two for the loops of a ring
    buffer, [kMaxDepth] for nested BER.  [BIO_read_asn1] is the exception: how
    often it reads depends on the source, so its fuel is an argument, and one
    more than the bytes of the source is enough.  So is the rejection sampler of
    Kyber, which may read any number of blocks: [expand_cell_samples] says for
    each number whether it is enough, and that more change nothing.
    Running out is [None] or [UB], and the theorems show that this does not
    happen.

    ** What is not modelled

    - [assert]s (the release build), the weak-symbol memory hooks, the error
      queue ([OPENSSL_PUT_ERROR]), locks, and the freeing of memory beyond its
      effect on the buffer of a CBB and on the stores of hash items, shared
      buffers and BIOs.
    - [snprintf] of a number is its decimal digits, [qsort] a merge sort,
      [memcpy] of an integer its little-endian bytes: the targets are 64-bit
      and little-endian.
    - [abort()] of a sequential caller of a reference count is the outcome of
      undefined behaviour in [Bio].
    - The assembly and vector forms of ChaCha20, Poly1305 and SHA; the routine that
      chacha.c calls is a parameter with the contract of its header; those of
      the AEAD are dead code, the build setting OPENSSL_NO_ASM.
    - The other algorithms behind the AEAD interface (AES), SHA-384, SHA-512 and
      the generator of FIPS 186-2 in sha1.c.inc.
    - The buffer of a memory BIO when it is shared with the caller
      ([BIO_get_mem_ptr], [BIO_set_mem_buf]), and the data that callers attach
      to a BIO (ex_data.c).
    - The generator [RAND_bytes] is a parameter of Kyber.
    - The printf family of mem.c; the file and socket BIOs, bignum and the
      other public-key code, X.509, and the pods in other languages. *)
From stdpp Require Export prelude list gmap.
From Stdlib Require Export ZArith Lia Btauto.
#[global] Open Scope Z_scope.

(** * Machine words

    An unsigned w-bit integer of the C code is a [Z] in [0, 2^w); [wrap w]
    is the conversion to that type. *)
Definition wrap (w x : Z) : Z := x mod 2 ^ w.

Declare Scope word_scope.
Delimit Scope word_scope with word.
Abbreviation u8 := (wrap 8).
Abbreviation u16 := (wrap 16).
Abbreviation u32 := (wrap 32).
Abbreviation u64 := (wrap 64).
Notation "x ≪[ w ] n" := (wrap w (Z.shiftl x n)) (at level 40, w at level 0, n at next level) : word_scope.
Notation "x ⊞[ w ] y" := (wrap w (x + y)) (at level 50, w at level 0, y at next level) : word_scope.
Notation "x ⊟[ w ] y" := (wrap w (x - y)) (at level 50, w at level 0, y at next level) : word_scope.
Notation "x ⊠[ w ] y" := (wrap w (x * y)) (at level 40, w at level 0, y at next level) : word_scope.
Notation "x .| y" := (Z.lor x y) (at level 50, left associativity) : word_scope.
Notation "x .& y" := (Z.land x y) (at level 45, left associativity) : word_scope.
Notation "x .^ y" := (Z.lxor x y) (at level 48, left associativity) : word_scope.
#[global] Open Scope word_scope.

Definition UINT64_MAX : Z := 2 ^ 64 - 1.
Definition INT_MAX : Z := 2 ^ 31 - 1.

(** [in_range w x]: x is a value of the unsigned w-bit type. *)
Abbreviation in_range w x := (0 <= x < 2 ^ w).
(** A [uint8_t] and a buffer of them. *)
Abbreviation is_byte b := (0 <= b < 256).
Definition bytes_ok (l : list Z) : Prop := Forall (λ b, is_byte b) l.

Definition byte_ok_b (b : Z) : bool := (0 <=? b) && (b <? 256).
#[export] Instance bytes_ok_dec l : Decision (bytes_ok l).
Proof. unfold bytes_ok. apply _. Defined.

(** [data[i]] for an index inside the range. *)
Definition byte_at (data : list Z) (i : Z) : Z := nth (Z.to_nat i) data 0.

Create HintDb words.
Create Rewrite HintDb bits.

(** ** Generic integer lemmas *)
Lemma wrap_range w x : 0 <= w → in_range w (wrap w x).
Proof. intros. apply Z.mod_pos_bound. lia. Qed.

Lemma wrap_small w x : in_range w x → wrap w x = x.
Proof. apply Z.mod_small. Qed.

Lemma wrap_land w x : 0 <= w → wrap w x = Z.land x (Z.ones w).
Proof. intros. by rewrite Z.land_ones. Qed.

Lemma wrap_wrap w x : 0 <= w → wrap w (wrap w x) = wrap w x.
Proof. intros. apply wrap_small. by apply wrap_range. Qed.

Lemma land_range_l w x y : 0 <= w → in_range w x → 0 <= y → in_range w (Z.land x y).
Proof.
  intros Hw Hx Hy. split; [apply Z.land_nonneg; lia|].
  destruct (decide (x .& y = 0)) as [->|Hn]; [lia|].
  assert (Hp : 0 < x .& y) by (assert (0 <= x .& y) by (apply Z.land_nonneg; lia); lia).
  destruct (decide (x = 0)) as [->|]; [by rewrite Z.land_0_l in Hn|].
  apply Z.log2_lt_pow2; [done|].
  pose proof (Z.log2_land x y ltac:(lia) ltac:(lia)).
  assert (Z.log2 x < w) by (apply Z.log2_lt_pow2; lia). lia.
Qed.

Lemma lor_range w x y : 0 <= w → in_range w x → in_range w y → in_range w (Z.lor x y).
Proof.
  intros Hw Hx Hy. split; [apply Z.lor_nonneg; lia|].
  destruct (decide (x = 0)) as [->|]; [rewrite Z.lor_0_l; lia|].
  destruct (decide (y = 0)) as [->|]; [rewrite Z.lor_0_r; lia|].
  assert (0 <= Z.lor x y) by (apply Z.lor_nonneg; lia).
  assert (Z.lor x y ≠ 0) by (intros [??]%Z.lor_eq_0_iff; done).
  apply Z.log2_lt_pow2; [lia|]. rewrite Z.log2_lor by lia.
  apply Z.max_lub_lt; apply Z.log2_lt_pow2; lia.
Qed.

Lemma shiftr_range w x n : 0 <= n → 0 <= w → in_range w x → in_range w (Z.shiftr x n).
Proof.
  intros. rewrite Z.shiftr_div_pow2 by done. split.
  - apply Z.div_pos; lia.
  - apply Z.div_lt_upper_bound; nia.
Qed.

Lemma testbit_range w x i : 0 <= x < 2 ^ w → 0 <= w → w <= i → Z.testbit x i = false.
Proof.
  intros Hx Hw Hi. rewrite <- (Z.mod_small x (2 ^ w)) by done.
  by apply Z.mod_pow2_bits_high.
Qed.

(** Disjoint [|] is addition: the form every byte assembly of the code has. *)
Lemma lor_shiftl_add a b n :
  0 <= n → in_range n b → Z.lor (Z.shiftl a n) b = a * 2 ^ n + b.
Proof.
  intros Hn Hb. rewrite <- Z.shiftl_mul_pow2 by done.
  assert (Hd : Z.land (Z.shiftl a n) b = 0).
  { apply Z.bits_inj'. intros i Hi. rewrite Z.land_spec, Z.bits_0.
    destruct (Z.lt_ge_cases i n).
    - by rewrite Z.shiftl_spec_low.
    - by rewrite (testbit_range n b), andb_false_r by lia. }
  rewrite <- Z.lxor_lor by done. symmetry. by apply Z.add_nocarry_lxor.
Qed.

Lemma lor_mul_add a b n :
  0 <= n → in_range n b → Z.lor (a * 2 ^ n) b = a * 2 ^ n + b.
Proof. intros. rewrite <- lor_shiftl_add by done. by rewrite Z.shiftl_mul_pow2. Qed.

Lemma shiftr_range_div w x n k :
  0 <= n → 0 <= x < 2 ^ w → w = n + k → 0 <= k → in_range k (Z.shiftr x n).
Proof.
  intros ? ? -> ?. rewrite Z.shiftr_div_pow2 by done. rewrite Z.pow_add_r in * by lia.
  split; [apply Z.div_pos; lia|]. apply Z.div_lt_upper_bound; lia.
Qed.

#[export] Hint Resolve wrap_range land_range_l lor_range shiftr_range : words.

(** ** Bit-level reasoning

    [bit_enum i n] splits on the value of the bit index [i < n]; [bit_blast]
    then decides an equality of bits of byte-sized variables. *)
Lemma testbit_wrap w x i : 0 <= w → Z.testbit (wrap w x) i = (i <? w) && Z.testbit x i.
Proof.
  intros. unfold wrap. destruct (Z.lt_ge_cases i 0); [by rewrite !Z.testbit_neg_r, andb_false_r|].
  destruct (Z.ltb_spec i w).
  - by rewrite Z.mod_pow2_bits_low by lia.
  - by rewrite Z.mod_pow2_bits_high by lia.
Qed.

Lemma testbit_byte b i : is_byte b → 8 <= i → Z.testbit b i = false.
Proof. intros. apply (testbit_range 8); lia. Qed.

Lemma testbit_shiftl a n m : Z.testbit (Z.shiftl a n) m = (0 <=? m) && Z.testbit a (m - n).
Proof. destruct (Z.leb_spec 0 m); [by rewrite Z.shiftl_spec|by rewrite Z.testbit_neg_r]. Qed.

Lemma testbit_shiftr a n m : Z.testbit (Z.shiftr a n) m = (0 <=? m) && Z.testbit a (m + n).
Proof. destruct (Z.leb_spec 0 m); [by rewrite Z.shiftr_spec|by rewrite Z.testbit_neg_r]. Qed.

#[export] Hint Rewrite Z.lor_spec Z.land_spec Z.lxor_spec testbit_shiftl testbit_shiftr Z.bits_0 : bits.
#[export] Hint Rewrite testbit_wrap using lia : bits.

Ltac bit_lit :=
  repeat match goal with
  | |- context [Z.testbit ?x (?i - ?n)] =>
      let r := eval vm_compute in (i - n) in change (i - n) with r
  | |- context [Z.testbit ?x (?i + ?n)] =>
      let r := eval vm_compute in (i + n) in change (i + n) with r
  | |- context [Z.testbit ?x (Zneg ?i)] => rewrite (Z.testbit_neg_r x (Zneg i)) by lia
  | H : is_byte ?x |- context [Z.testbit ?x (Zpos ?i)] => rewrite (testbit_byte x (Zpos i)) by lia
  | |- context [Z.testbit (Zpos ?x) ?i] =>
      let r := eval vm_compute in (Z.testbit (Zpos x) i) in change (Z.testbit (Zpos x) i) with r
  end.
Ltac bit_enum i n :=
  match n with
  | 0%nat => exfalso; lia
  | S ?n => let k := eval vm_compute in (Z.of_nat n) in
            destruct (decide (i = k)) as [->|]; [|bit_enum i n]
  end.
Ltac bit_blast := autorewrite with bits; bit_lit; cbn -[Z.testbit]; try btauto.

(** ** Exhaustive checking over a finite range *)
Lemma forallb_seqZ (P : Z → bool) n m :
  forallb P (seqZ n m) = true → ∀ x, n <= x < n + m → P x = true.
Proof.
  intros H x Hx. rewrite forallb_forall in H. apply H, list_elem_of_In, elem_of_seqZ. lia.
Qed.

(** ** Fallible state passing

    A C function that returns 1 or 0 and updates an object through a pointer
    is a [M S A]: the object's new state is kept when the call fails, as it
    is in the C code; the output parameter is present exactly on success. *)
Definition M (S A : Type) : Type := S → option A * S.

#[export] Instance M_ret {S} : MRet (M S) := λ A a s, (Some a, s).
#[export] Instance M_bind {S} : MBind (M S) := λ A B f m s,
  match m s with
  | (Some a, s') => f a s'
  | (None, s') => (None, s')
  end.

Definition fail {S A} : M S A := λ s, (None, s).
(** [if (!b) return 0;] *)
Definition require {S} (b : bool) : M S unit := if b then mret () else fail.
(** Run [m] on a copy of the object: [CBS copy = *cbs; ...]. *)
Definition on_copy {S A} (m : M S A) : M S (option A) := λ s, (Some (m s).1, s).
Definition get_state {S} : M S S := λ s, (Some s, s).

Lemma M_bind_Some {S A B} (m : M S A) (f : A → M S B) s a s' :
  m s = (Some a, s') → (m ≫= f) s = f a s'.
Proof. intros E. unfold mbind, M_bind. by rewrite E. Qed.

Lemma M_bind_None {S A B} (m : M S A) (f : A → M S B) s s' :
  m s = (None, s') → (m ≫= f) s = (None, s').
Proof. intros E. unfold mbind, M_bind. by rewrite E. Qed.

Lemma M_bind_inv {S A B} (m : M S A) (f : A → M S B) s b s'' :
  (m ≫= f) s = (Some b, s'') → ∃ a s', m s = (Some a, s') ∧ f a s' = (Some b, s'').
Proof.
  unfold mbind, M_bind. destruct (m s) as [[a|] s']; [|done]. eauto.
Qed.

(** Writing [d] into [l] at [i], where it fits. *)
Lemma list_inserts_fit (i : nat) (d l : list Z) :
  (i + length d ≤ length l)%nat → list_inserts i d l = take i l ++ d ++ drop (i + length d) l.
Proof.
  intros H. rewrite <- (take_drop i l) at 1. rewrite <- (take_drop (length d) (drop i l)), drop_drop.
  pose proof (list_inserts_app_r d (take i l) (take (length d) (drop i l) ++ drop (i + length d) l) 0) as E.
  rewrite length_take, Nat.min_l, Nat.add_0_r in E by lia. rewrite E, list_inserts_0_r; [done|].
  rewrite length_take, length_drop. lia.
Qed.

Lemma require_inv {S} (b : bool) (s s' : S) u : require b s = (Some u, s') → b = true ∧ s' = s.
Proof. destruct b; cbn; intros [=]; subst; done. Qed.

Lemma require_true {S} (b : bool) (s : S) : b = true → require b s = (Some (), s).
Proof. by intros ->. Qed.

Lemma require_false {S} (b : bool) (s : S) : b = false → require b s = (None, s).
Proof. by intros ->. Qed.

(** Reduce a run whose calls have been rewritten to their results. *)
Ltac run_step := unfold require, mbind, M_bind, mret, M_ret, fail; cbn beta iota zeta delta [negb orb fst snd].

(** Equality of two results, component by component. *)
Ltac out_eq :=
  repeat match goal with
  | |- (_, _) = (_, _) => apply f_equal2
  | |- Some _ = Some _ => apply f_equal
  end; try done; try lia.

(** Invert a successful run through binds and checks. *)
Ltac run_inv :=
  repeat match goal with
  | H : (_ ≫= _) _ = (Some _, _) |- _ => apply M_bind_inv in H as (?&?&?&?)
  | H : require _ _ = (Some _, _) |- _ => apply require_inv in H as [? ->]
  | H : mret _ _ = (Some _, _) |- _ => injection H as ??
  | H : fail _ = (Some _, _) |- _ => discriminate H
  | x : unit |- _ => destruct x
  end.
