(* ===== verification/Radix.v ===== *)
(** Positional notation: big-endian digit lists in any base, shared by the
    fixed-width integers, DER lengths, base-128 components and decimals. *)
From S2P Require Import Prelude.

Section radix.
Context (B : Z) (HB : 1 < B).

Definition is_digit (d : Z) : Prop := 0 <= d < B.

(** Value of a big-endian digit list. *)
Definition val_be (l : list Z) : Z := foldl (λ acc d, acc * B + d) 0 l.

(** The [n] low digits of [v], most significant first. *)
Fixpoint digits_be (n : nat) (v : Z) : list Z :=
  match n with
  | O => []
  | S n => digits_be n (v / B) ++ [v mod B]
  end.

(** Number of digits of [v] ([fuel] bounds it), 0 for [v = 0]. *)
Fixpoint ndigits (fuel : nat) (v : Z) : nat :=
  match fuel with
  | O => O
  | S fuel => if v >? 0 then S (ndigits fuel (v / B)) else O
  end.

Lemma val_be_acc l a :
  foldl (λ acc d, acc * B + d) a l = a * B ^ Z.of_nat (length l) + val_be l.
Proof using HB.
  unfold val_be. revert a. induction l as [|d l IH]; intros a; cbn [foldl length]; [lia|].
  rewrite IH, (IH (0 * B + d)), Nat2Z.inj_succ, Z.pow_succ_r by lia. lia.
Qed.

Lemma val_be_cons d l : val_be (d :: l) = d * B ^ Z.of_nat (length l) + val_be l.
Proof using HB. unfold val_be at 1. cbn [foldl]. rewrite val_be_acc. lia. Qed.

Lemma val_be_app l1 l2 :
  val_be (l1 ++ l2) = val_be l1 * B ^ Z.of_nat (length l2) + val_be l2.
Proof using HB. unfold val_be at 1. rewrite foldl_app. apply val_be_acc. Qed.

Lemma val_be_snoc l d : val_be (l ++ [d]) = val_be l * B + d.
Proof using HB. rewrite val_be_app. cbn. lia. Qed.

Lemma pow_B_pos n : 0 < B ^ Z.of_nat n.
Proof using HB. apply Z.pow_pos_nonneg; lia. Qed.

Lemma val_be_range l :
  Forall is_digit l → 0 <= val_be l < B ^ Z.of_nat (length l).
Proof using HB.
  induction l as [|d l IH] using rev_ind; [done|].
  intros [Hl [Hd _]%Forall_cons]%Forall_app. specialize (IH Hl). unfold is_digit in Hd.
  rewrite val_be_snoc, length_app, Nat.add_1_r, Nat2Z.inj_succ, Z.pow_succ_r by lia.
  split; nia.
Qed.

Lemma length_digits_be n v : length (digits_be n v) = n.
Proof. revert v. induction n; intros v; cbn; [done|]. rewrite length_app, IHn. cbn. lia. Qed.

Lemma digits_be_ok n v : Forall is_digit (digits_be n v).
Proof using HB.
  revert v. induction n; intros v; cbn; [done|]. apply Forall_app. split; [done|].
  apply Forall_singleton. apply Z.mod_pos_bound. lia.
Qed.

Lemma val_digits_be n v : val_be (digits_be n v) = v mod B ^ Z.of_nat n.
Proof using HB.
  revert v. induction n as [|n IH]; intros v; cbn [digits_be]; [by rewrite Z.mod_1_r|].
  rewrite val_be_snoc, IH, Nat2Z.inj_succ, Z.pow_succ_r by lia.
  pose proof (pow_B_pos n). rewrite (Z.rem_mul_r v) by lia. lia.
Qed.

Lemma val_digits_be_small n v : 0 <= v < B ^ Z.of_nat n → val_be (digits_be n v) = v.
Proof using HB. intros. rewrite val_digits_be. by apply Z.mod_small. Qed.

Lemma digits_val_be l : Forall is_digit l → digits_be (length l) (val_be l) = l.
Proof using HB.
  induction l as [|d l IH] using rev_ind; [done|].
  intros [Hl [Hd _]%Forall_cons]%Forall_app. unfold is_digit in Hd.
  rewrite length_app, Nat.add_1_r, val_be_snoc. cbn [digits_be].
  rewrite Z.div_add_l, Z.div_small, Z.add_0_r, IH by (done || lia).
  by rewrite Z.add_comm, Z.mod_add, Z.mod_small by lia.
Qed.

Lemma digits_be_cons n v :
  digits_be (S n) v = (v / B ^ Z.of_nat n) mod B :: digits_be n v.
Proof using HB.
  revert v. induction n as [|n IH]; intros v; [by cbn; rewrite Z.div_1_r|].
  change (digits_be (S (S n)) v) with (digits_be (S n) (v / B) ++ [v mod B]).
  rewrite IH. cbn [app digits_be]. f_equal.
  rewrite Z.div_div, <- Z.pow_succ_r, Nat2Z.inj_succ by (try apply pow_B_pos; lia). done.
Qed.

Lemma ndigits_bound fuel v :
  0 < v < B ^ Z.of_nat fuel →
  B ^ (Z.of_nat (ndigits fuel v) - 1) <= v < B ^ Z.of_nat (ndigits fuel v) ∧
  (0 < ndigits fuel v ≤ fuel)%nat.
Proof using HB.
  revert v. induction fuel as [|f IH]; intros v Hv; [cbn in Hv; lia|].
  cbn [ndigits]. destruct (Z.gtb_spec v 0); [|lia].
  rewrite Nat2Z.inj_succ, Z.pow_succ_r in Hv by lia.
  rewrite Nat2Z.inj_succ. replace (Z.succ _ - 1) with (Z.of_nat (ndigits f (v / B))) by lia.
  rewrite Z.pow_succ_r by lia.
  pose proof (Z.div_mod v B ltac:(lia)). pose proof (Z.mod_pos_bound v B ltac:(lia)).
  destruct (decide (v / B = 0)) as [E|Hne].
  - rewrite E. destruct f; cbn; lia.
  - assert (0 < v / B) by (assert (0 <= v / B) by (apply Z.div_pos; lia); lia).
    destruct (IH (v / B)) as [[Hlo Hhi] Hn].
    { split; [done|]. apply Z.div_lt_upper_bound; lia. }
    replace (Z.of_nat (ndigits f (v / B))) with
      (Z.succ (Z.of_nat (ndigits f (v / B)) - 1)) at 1 by lia.
    rewrite Z.pow_succ_r by lia. split; [nia|lia].
Qed.

(** A digit list without a leading zero is the one of its value. *)
Lemma ndigits_unique fuel n v :
  0 < v < B ^ Z.of_nat fuel → B ^ (Z.of_nat n - 1) <= v < B ^ Z.of_nat n → (0 < n)%nat →
  ndigits fuel v = n.
Proof using HB.
  intros Hf Hn Hpos. destruct (ndigits_bound fuel v Hf) as [Hb ?].
  destruct (lt_eq_lt_dec (ndigits fuel v) n) as [[Hlt|]|Hlt]; [|done|]; exfalso.
  - assert (B ^ Z.of_nat (ndigits fuel v) <= B ^ (Z.of_nat n - 1)) by (apply Z.pow_le_mono_r; lia). lia.
  - assert (B ^ Z.of_nat n <= B ^ (Z.of_nat (ndigits fuel v) - 1)) by (apply Z.pow_le_mono_r; lia). lia.
Qed.

Lemma canonical_digits fuel d l :
  Forall is_digit (d :: l) → d ≠ 0 → val_be (d :: l) < B ^ Z.of_nat fuel →
  ndigits fuel (val_be (d :: l)) = length (d :: l).
Proof using HB.
  intros Hl Hd Hf. pose proof (val_be_range _ Hl) as Hr.
  apply Forall_cons in Hl as [Hdr Hl]. pose proof (val_be_range _ Hl) as Hr'.
  unfold is_digit in Hdr. pose proof (pow_B_pos (length l)).
  assert (B ^ Z.of_nat (length l) <= val_be (d :: l)) by (rewrite val_be_cons; nia).
  apply ndigits_unique; [lia| |cbn; lia].
  replace (Z.of_nat (length (d :: l)) - 1) with (Z.of_nat (length l)) by (cbn; lia). lia.
Qed.

(** The leading digit of a minimal-length rendering is not zero. *)
Lemma digits_be_hd fuel v :
  0 < v < B ^ Z.of_nat fuel →
  ∃ d l, digits_be (ndigits fuel v) v = d :: l ∧ 0 < d < B.
Proof using HB.
  intros Hv. destruct (ndigits_bound fuel v Hv) as [Hb Hn].
  destruct (ndigits fuel v) as [|n]; [lia|]. rewrite digits_be_cons.
  eexists _, _; split; [done|].
  replace (Z.of_nat (S n) - 1) with (Z.of_nat n) in Hb by lia.
  rewrite Nat2Z.inj_succ, Z.pow_succ_r in Hb by lia. pose proof (pow_B_pos n).
  rewrite Z.mod_small.
  - split; [|apply Z.div_lt_upper_bound; lia].
    apply Z.div_str_pos. lia.
  - split; [apply Z.div_pos; lia|apply Z.div_lt_upper_bound; lia].
Qed.
End radix.

(** Fixed-width big-endian and little-endian byte strings. *)
Abbreviation be_val := (val_be 256).
Abbreviation be_bytes := (digits_be 256).
