(* ===== verification/Mem.v ===== *)
(** The allocation layer of [crypto/mem.c]. The C library's [malloc] is a
    parameter: it may fail at any call, and the contents of a fresh block are
    arbitrary. *)
From S2P Require Import Prelude.

(** [malloc t n] is the result of the [t]-th allocation of the run, for [n]
    bytes: [None] is NULL, [Some block] a block of [n] bytes. *)
Class Allocator := {
  malloc : nat → Z → option (list Z);
  malloc_length t n block : 0 <= n → malloc t n = Some block → Z.of_nat (length block) = n;
  malloc_bytes t n block : malloc t n = Some block → bytes_ok block;
}.

(** An allocator that always finds memory: what the success theorems assume. *)
Class NeverFails (A : Allocator) : Prop :=
  malloc_succeeds t n : 0 <= n < 2 ^ 64 → is_Some (malloc t n).

Definition OPENSSL_MALLOC_PREFIX : Z := 8.

(** [for (i = 0; i < len; i++) x |= a[i] ^ b[i];] *)
Definition CRYPTO_memcmp (in_a in_b : list Z) (len : Z) : Z :=
  foldl (λ x i, x .| (byte_at in_a i .^ byte_at in_b i)) 0 (seqZ 0 len).

(** [memcmp]: the sign of the first difference. *)
Fixpoint memcmp (a b : list Z) : Z :=
  match a, b with
  | x :: a, y :: b => if x =? y then memcmp a b else if x <? y then -1 else 1
  | _, _ => 0
  end.

Lemma memcmp_eq a b : length a = length b → memcmp a b = 0 ↔ a = b.
Proof.
  revert b. induction a as [|x a IH]; intros [|y b] Hl; try done. injection Hl as Hl. cbn [memcmp].
  destruct (Z.eqb_spec x y) as [->|Hne]; [rewrite IH by done; split; congruence|].
  destruct (x <? y); split; congruence.
Qed.

(** [OPENSSL_memcpy] from and to a range of a buffer. *)
Definition read_range (bs : list Z) (off n : Z) : option (list Z) :=
  if (0 <=? off) && (0 <=? n) && (off + n <=? Z.of_nat (length bs)) then Some (take (Z.to_nat n) (drop (Z.to_nat off) bs)) else None.
Definition write_range (bs : list Z) (off : Z) (d : list Z) : option (list Z) :=
  if (0 <=? off) && (off + Z.of_nat (length d) <=? Z.of_nat (length bs)) then
    Some (take (Z.to_nat off) bs ++ d ++ drop (Z.to_nat off + length d) bs) else None.

Section mem.
Context {A : Allocator}.

(** The bytes after the size prefix of the block. *)
Definition OPENSSL_malloc (t : nat) (size : Z) : option (list Z) :=
  if size ⊞[64] OPENSSL_MALLOC_PREFIX <? size then None
  else drop (Z.to_nat OPENSSL_MALLOC_PREFIX) <$> malloc t (size ⊞[64] OPENSSL_MALLOC_PREFIX).

(** [orig] is the whole original block (NULL is the empty block, whose
    reallocation is a plain allocation). *)
Definition OPENSSL_realloc (t : nat) (orig : list Z) (new_size : Z) : option (list Z) :=
  match OPENSSL_malloc t new_size with
  | None => None
  | Some ret =>
      let to_copy := Nat.min (length orig) (Z.to_nat new_size) in
      Some (take to_copy orig ++ drop to_copy ret)
  end.

Definition OPENSSL_memdup (t : nat) (data : list Z) : option (list Z) :=
  if Z.of_nat (length data) =? 0 then None
  else match OPENSSL_malloc t (Z.of_nat (length data)) with
       | None => None
       | Some ret => Some (data ++ drop (length data) ret)
       end.

Definition OPENSSL_zalloc (t : nat) (size : Z) : option (list Z) :=
  (λ ret, replicate (length ret) 0) <$> OPENSSL_malloc t size.

Definition OPENSSL_calloc (t : nat) (num size : Z) : option (list Z) :=
  if negb (size =? 0) && (num >? (2 ^ 64 - 1) / size) then None
  else OPENSSL_zalloc t (num ⊠[64] size).

Lemma OPENSSL_malloc_length t n block :
  0 <= n < 2 ^ 64 → OPENSSL_malloc t n = Some block → Z.of_nat (length block) = n.
Proof.
  unfold OPENSSL_malloc. intros Hn. change OPENSSL_MALLOC_PREFIX with 8.
  destruct (Z.ltb_spec (n ⊞[64] 8) n) as [|Hge]; [done|].
  destruct (malloc t (n ⊞[64] 8)) as [b|] eqn:E; [|done]. intros [= <-].
  apply malloc_length in E; [|apply wrap_range; lia]. rewrite length_drop.
  assert (n ⊞[64] 8 = n + 8); [|lia].
  unfold wrap in *. destruct (Z.lt_ge_cases (n + 8) (2 ^ 64)); [by apply Z.mod_small; lia|].
  assert ((n + 8) mod 2 ^ 64 = n + 8 - 2 ^ 64); [|lia]. symmetry. apply (Z.mod_unique _ _ 1); lia.
Qed.

Lemma OPENSSL_malloc_bytes t n block : OPENSSL_malloc t n = Some block → bytes_ok block.
Proof.
  unfold OPENSSL_malloc. destruct (_ <? _); [done|].
  destruct (malloc _ _) eqn:E; [|done]. intros [= <-]. apply Forall_drop. by eapply malloc_bytes.
Qed.

Lemma OPENSSL_realloc_spec t orig n block :
  0 <= n < 2 ^ 64 → Z.of_nat (length orig) <= n → OPENSSL_realloc t orig n = Some block →
  Z.of_nat (length block) = n ∧ take (length orig) block = orig ∧ (bytes_ok orig → bytes_ok block).
Proof.
  unfold OPENSSL_realloc. intros Hn Ho.
  destruct (OPENSSL_malloc t n) as [r|] eqn:E; [|done]. intros [= <-].
  pose proof (OPENSSL_malloc_bytes _ _ _ E). apply OPENSSL_malloc_length in E; [|done].
  rewrite Nat.min_l, take_ge by lia. split_and!.
  - rewrite length_app, length_drop. lia.
  - apply take_app_length.
  - intros. apply Forall_app. split; [done|by apply Forall_drop].
Qed.

Lemma OPENSSL_malloc_succeeds `{!NeverFails A} t n : 0 <= n < 2 ^ 64 - 8 → is_Some (OPENSSL_malloc t n).
Proof.
  intros Hn. unfold OPENSSL_malloc. change OPENSSL_MALLOC_PREFIX with 8.
  rewrite wrap_small by lia. destruct (Z.ltb_spec (n + 8) n); [lia|].
  destruct (malloc_succeeds t (n + 8)) as [b ->]; [lia|]. done.
Qed.

Lemma OPENSSL_realloc_succeeds `{!NeverFails A} t orig n :
  0 <= n < 2 ^ 64 - 8 → is_Some (OPENSSL_realloc t orig n).
Proof.
  intros Hn. unfold OPENSSL_realloc. by destruct (OPENSSL_malloc_succeeds t n Hn) as [b ->].
Qed.
End mem.

(** A concrete allocator: blocks of zeros, used by the witnesses. *)
Definition zero_allocator : Allocator.
Proof.
  refine {| malloc _ n := Some (replicate (Z.to_nat n) 0) |}.
  - intros _ n b ? [= <-]. rewrite length_replicate. lia.
  - intros _ n b [= <-]. apply Forall_replicate. lia.
Defined.

#[export] Instance zero_allocator_never_fails : NeverFails zero_allocator.
Proof. intros t n _. by eexists. Qed.
