(* ===== verification/Cbs.v ===== *)
(** CBS: the BoringSSL byte-string parser, [crypto/bytestring/cbs.c].

    A [CBS] is the pair (data, len) of a pointer into immutable memory and a
    length; it is modelled by the list of the [len] bytes it covers, the only
    memory the code reads through it.  A function [int f(CBS *cbs, T *out)]
    is an [M CBS T]: it returns the new value of [*cbs] on success and on
    failure, and [*out] on success. *)
From S2P Require Import Prelude Radix Mem.

Abbreviation CBS := (list Z).

Definition CBS_len (cbs : CBS) : Z := Z.of_nat (length cbs).
Definition CBS_data (cbs : CBS) : list Z := cbs.

Definition cbs_get (n : Z) : M CBS (list Z) := λ cbs,
  if CBS_len cbs <? n then (None, cbs)
  else (Some (take (Z.to_nat n) cbs), drop (Z.to_nat n) cbs).

Definition CBS_skip (len : Z) : M CBS unit := cbs_get len ≫= λ _, mret ().

Definition CBS_contains_zero_byte (cbs : CBS) : bool := existsb (λ b, b =? 0) (CBS_data cbs).

Definition CBS_mem_equal (cbs : CBS) (data : list Z) (len : Z) : bool :=
  if negb (len =? CBS_len cbs) then false
  else CRYPTO_memcmp (CBS_data cbs) data len =? 0.

(** The loop [result <<= 8; result |= data[i]] on a [uint64_t]. *)
Definition cbs_get_u (len : Z) : M CBS Z :=
  data ← cbs_get len;
  mret (foldl (λ result b, result ≪[64] 8 .| b) 0 data).

Definition CRYPTO_bswap2 (x : Z) : Z := u16 (x ≫ 8 .| (x ≪ 8)).
Definition CRYPTO_bswap4 (x : Z) : Z :=
  let x := u32 (x ≫ 16 .| (x ≪ 16)) in
  u32 ((x .& 0xff00ff00) ≫ 8 .| ((x .& 0x00ff00ff) ≪ 8)).
Definition CRYPTO_bswap8 (x : Z) : Z :=
  CRYPTO_bswap4 (u32 (x ≫ 32)) .| u64 (CRYPTO_bswap4 (u32 x) ≪ 32).

Definition CBS_get_u8 : M CBS Z := v ← cbs_get 1; mret (byte_at v 0).
Definition CBS_get_u16 : M CBS Z := v ← cbs_get_u 2; mret (u16 v).
Definition CBS_get_u16le : M CBS Z := out ← CBS_get_u16; mret (CRYPTO_bswap2 out).
Definition CBS_get_u24 : M CBS Z := v ← cbs_get_u 3; mret (u32 v).
Definition CBS_get_u32 : M CBS Z := v ← cbs_get_u 4; mret (u32 v).
Definition CBS_get_u32le : M CBS Z := out ← CBS_get_u32; mret (CRYPTO_bswap4 out).
Definition CBS_get_u64 : M CBS Z := cbs_get_u 8.
Definition CBS_get_u64le : M CBS Z := out ← cbs_get_u 8; mret (CRYPTO_bswap8 out).

Definition CBS_get_last_u8 : M CBS Z := λ cbs,
  if CBS_len cbs =? 0 then (None, cbs)
  else (Some (byte_at cbs (CBS_len cbs - 1)), take (Z.to_nat (CBS_len cbs - 1)) cbs).

Definition CBS_get_bytes (len : Z) : M CBS CBS := cbs_get len.
Definition CBS_copy_bytes (len : Z) : M CBS (list Z) := cbs_get len.

Definition cbs_get_length_prefixed (len_len : Z) : M CBS CBS :=
  len ← cbs_get_u len_len; CBS_get_bytes len.
Definition CBS_get_u8_length_prefixed : M CBS CBS := cbs_get_length_prefixed 1.
Definition CBS_get_u16_length_prefixed : M CBS CBS := cbs_get_length_prefixed 2.
Definition CBS_get_u24_length_prefixed : M CBS CBS := cbs_get_length_prefixed 3.

(** [memchr]: index of the first occurrence. *)
Fixpoint memchr (data : list Z) (c : Z) : option Z :=
  match data with
  | [] => None
  | b :: data => if b =? c then Some 0 else Z.succ <$> memchr data c
  end.

Definition CBS_get_until_first (c : Z) : M CBS CBS := λ cbs,
  match memchr (CBS_data cbs) c with
  | None => (None, cbs)
  | Some split => CBS_get_bytes split cbs
  end.

Definition OPENSSL_isdigit (c : Z) : bool := (48 <=? c) && (c <=? 57).

(** The loop of [CBS_get_u64_decimal]: [v] and [seen_digit] are its locals. *)
Fixpoint get_u64_decimal_loop (v : Z) (seen_digit : bool) (cbs : CBS) : option (Z * bool) * CBS :=
  match cbs with
  | [] => (Some (v, seen_digit), cbs)
  | c :: rest =>
      if negb (OPENSSL_isdigit c) then (Some (v, seen_digit), cbs)
      else if ((v =? 0) && seen_digit) || (v >? UINT64_MAX / 10)
              || (u64 (v * 10) >? UINT64_MAX - (c - 48))
      then (None, rest)
      else get_u64_decimal_loop (u64 (v * 10 + (c - 48))) true rest
  end.

Definition CBS_get_u64_decimal : M CBS Z :=
  r ← get_u64_decimal_loop 0 false;
  _ ← require r.2;
  mret r.1.

Fixpoint parse_base128_loop (v : Z) (cbs : CBS) : option Z * CBS :=
  match cbs with
  | [] => (None, [])
  | b :: rest =>
      if negb (v ≫ (64 - 7) =? 0) then (None, rest)
      else if (v =? 0) && (b =? 0x80) then (None, rest)
      else
        let v := v ≪[64] 7 .| (b .& 0x7f) in
        if negb (b .& 0x80 =? 0) then parse_base128_loop v rest
        else (Some v, rest)
  end.
Definition parse_base128_integer : M CBS Z := parse_base128_loop 0.

(** ** ASN.1 tags (bytestring.h) *)
Definition CBS_ASN1_TAG_SHIFT : Z := 24.
Definition CBS_ASN1_CONSTRUCTED : Z := 0x20 ≪ CBS_ASN1_TAG_SHIFT.
Definition CBS_ASN1_TAG_NUMBER_MASK : Z := 1 ≪ (5 + CBS_ASN1_TAG_SHIFT) - 1.
(** [~CBS_ASN1_CONSTRUCTED] as a [uint32_t]. *)
Definition NOT_CONSTRUCTED : Z := 2 ^ 32 - 1 - CBS_ASN1_CONSTRUCTED.
Definition CBS_ASN1_BOOLEAN : Z := 0x1.
Definition CBS_ASN1_INTEGER : Z := 0x2.
Definition CBS_ASN1_BITSTRING : Z := 0x3.
Definition CBS_ASN1_OCTETSTRING : Z := 0x4.
Definition CBS_ASN1_UTF8STRING : Z := 0xc.
Definition CBS_ASN1_NUMERICSTRING : Z := 0x12.
Definition CBS_ASN1_PRINTABLESTRING : Z := 0x13.
Definition CBS_ASN1_T61STRING : Z := 0x14.
Definition CBS_ASN1_VIDEOTEXSTRING : Z := 0x15.
Definition CBS_ASN1_IA5STRING : Z := 0x16.
Definition CBS_ASN1_GRAPHICSTRING : Z := 0x19.
Definition CBS_ASN1_VISIBLESTRING : Z := 0x1a.
Definition CBS_ASN1_GENERALSTRING : Z := 0x1b.
Definition CBS_ASN1_UNIVERSALSTRING : Z := 0x1c.
Definition CBS_ASN1_BMPSTRING : Z := 0x1e.

Definition parse_asn1_tag : M CBS Z :=
  tag_byte ← CBS_get_u8;
  let tag := u32 ((tag_byte .& 0xe0) ≪ CBS_ASN1_TAG_SHIFT) in
  tag_number ←
    (if tag_byte .& 0x1f =? 0x1f then
       v ← parse_base128_integer;
       _ ← require (negb (v >? CBS_ASN1_TAG_NUMBER_MASK));
       _ ← require (negb (v <? 0x1f));
       mret (u32 v)
     else mret (tag_byte .& 0x1f));
  let tag := tag .| tag_number in
  _ ← require (negb (tag .& NOT_CONSTRUCTED =? 0));
  mret tag.

(** The outputs of [cbs_get_any_asn1_element]. *)
Record asn1_element := mkElement {
  el_out : CBS;
  el_tag : Z;
  el_header_len : Z;
  el_ber_found : bool;
  el_indefinite : bool;
}.

(** The header part, run on the local copy [header]: the tag, then the length
    octets.  It yields the tag, the header length, the length of the whole
    element, and the two BER flags. *)
Definition asn1_header (total : Z) (ber_ok : bool) : M CBS (Z * Z * Z * bool * bool) :=
  tag ← parse_asn1_tag;
  length_byte ← CBS_get_u8;
  header ← get_state;
  let header_len := total - CBS_len header in
  if length_byte .& 0x80 =? 0 then
    mret (tag, header_len, length_byte ⊞[64] header_len, false, false)
  else
    let num_bytes := length_byte .& 0x7f in
    if ber_ok && negb (tag .& CBS_ASN1_CONSTRUCTED =? 0) && (num_bytes =? 0) then
      mret (tag, header_len, header_len, true, true)
    else
      _ ← require (negb ((num_bytes =? 0) || (num_bytes >? 4)));
      len64 ← cbs_get_u num_bytes;
      _ ← require (negb (len64 <? 128) || ber_ok);
      let long_for_short := len64 ≫ ((num_bytes - 1) * 8) =? 0 in
      _ ← require (negb long_for_short || ber_ok);
      let len := len64 in
      _ ← require (negb ((u64 (len + header_len) ⊞[64] num_bytes) <? len));
      mret (tag, header_len + num_bytes, len ⊞[64] (header_len + num_bytes),
            (len64 <? 128) || long_for_short, false).

Definition cbs_get_any_asn1_element (ber_ok : bool) : M CBS asn1_element := λ cbs,
  match (asn1_header (CBS_len cbs) ber_ok cbs).1 with
  | None => (None, cbs)
  | Some (tag, header_len, len, ber_found, indefinite) =>
      (out ← CBS_get_bytes len;
       mret (mkElement out tag header_len ber_found indefinite)) cbs
  end.

Definition CBS_get_any_asn1_element : M CBS asn1_element := cbs_get_any_asn1_element false.

Definition CBS_get_any_asn1 : M CBS (CBS * Z) :=
  e ← CBS_get_any_asn1_element;
  match CBS_skip (el_header_len e) (el_out e) with
  | (None, _) => fail
  | (Some _, out) => mret (out, el_tag e)
  end.

Definition CBS_get_any_ber_asn1_element : M CBS asn1_element := cbs_get_any_asn1_element true.

Definition cbs_get_asn1 (tag_value : Z) (skip_header : bool) : M CBS CBS :=
  e ← CBS_get_any_asn1_element;
  _ ← require (el_tag e =? tag_value);
  if skip_header then
    match CBS_skip (el_header_len e) (el_out e) with
    | (None, _) => fail
    | (Some _, out) => mret out
    end
  else mret (el_out e).

Definition CBS_get_asn1 (tag_value : Z) : M CBS CBS := cbs_get_asn1 tag_value true.
Definition CBS_get_asn1_element (tag_value : Z) : M CBS CBS := cbs_get_asn1 tag_value false.

Definition CBS_peek_asn1_tag (cbs : CBS) (tag_value : Z) : bool :=
  match (parse_asn1_tag cbs).1 with
  | Some actual_tag => tag_value =? actual_tag
  | None => false
  end.

(** ** Typed ASN.1 values *)

Definition CBS_is_valid_asn1_integer (cbs : CBS) : option bool :=
  match CBS_get_u8 cbs with
  | (None, _) => None                          (* INTEGERs may not be empty. *)
  | (Some first_byte, copy) =>
      let is_negative := negb (first_byte .& 0x80 =? 0) in
      match CBS_get_u8 copy with
      | (None, _) => Some is_negative          (* one byte is always minimal *)
      | (Some second_byte, _) =>
          if ((first_byte =? 0x00) && (second_byte .& 0x80 =? 0))
             || ((first_byte =? 0xff) && negb (second_byte .& 0x80 =? 0))
          then None
          else Some is_negative
      end
  end.

Definition CBS_is_unsigned_asn1_integer (cbs : CBS) : bool :=
  match CBS_is_valid_asn1_integer cbs with
  | Some is_negative => negb is_negative
  | None => false
  end.

(** The accumulation loop of [CBS_get_asn1_uint64]. *)
Fixpoint asn1_uint64_loop (out : Z) (data : list Z) : option Z :=
  match data with
  | [] => Some out
  | b :: data =>
      if negb (out ≫ 56 =? 0) then None
      else asn1_uint64_loop (out ≪[64] 8 .| b) data
  end.

Definition CBS_get_asn1_uint64 : M CBS Z :=
  bytes ← CBS_get_asn1 CBS_ASN1_INTEGER;
  _ ← require (CBS_is_unsigned_asn1_integer bytes);
  match asn1_uint64_loop 0 (CBS_data bytes) with
  | Some out => mret out
  | None => fail
  end.

(** [CRYPTO_load_u64_be]: memcpy of 8 bytes on a little-endian machine, then
    a byte swap.  The conversion to [int64_t] is two's complement. *)
Definition load_u64_le (bytes : list Z) : Z := foldr (λ b acc, b .| (acc ≪ 8)) 0 bytes.
Definition CRYPTO_load_u64_be (bytes : list Z) : Z := CRYPTO_bswap8 (load_u64_le bytes).
Definition int64_of (x : Z) : Z := if x <? 2 ^ 63 then x else x - 2 ^ 64.

Definition CBS_get_asn1_int64 : M CBS Z :=
  bytes ← CBS_get_asn1 CBS_ASN1_INTEGER;
  match CBS_is_valid_asn1_integer bytes with
  | None => fail
  | Some is_negative =>
      let len := CBS_len bytes in
      _ ← require (negb (len >? 8));
      let sign_extend := replicate 8 (if is_negative then 0xff else 0) in
      let sign_extend := take (Z.to_nat (8 - len)) sign_extend ++ CBS_data bytes in
      mret (int64_of (CRYPTO_load_u64_be sign_extend))
  end.

Definition CBS_get_asn1_bool : M CBS bool :=
  bytes ← CBS_get_asn1 CBS_ASN1_BOOLEAN;
  _ ← require (CBS_len bytes =? 1);
  let value := byte_at (CBS_data bytes) 0 in
  _ ← require (negb (negb (value =? 0) && negb (value =? 0xff)));
  mret (negb (value =? 0)).

(** [None] is [*out_present = 0]. *)
Definition CBS_get_optional_asn1 (tag : Z) : M CBS (option CBS) := λ cbs,
  if CBS_peek_asn1_tag cbs tag then (Some <$> (CBS_get_asn1 tag cbs).1, (CBS_get_asn1 tag cbs).2)
  else (Some None, cbs).

Definition CBS_get_optional_asn1_octet_string (tag : Z) : M CBS (CBS * bool) :=
  o ← CBS_get_optional_asn1 tag;
  match o with
  | Some child =>
      match CBS_get_asn1 CBS_ASN1_OCTETSTRING child with
      | (Some out, child) => if CBS_len child =? 0 then mret (out, true) else fail
      | (None, _) => fail
      end
  | None => mret ([], false)
  end.

Definition CBS_get_optional_asn1_uint64 (tag default_value : Z) : M CBS Z :=
  o ← CBS_get_optional_asn1 tag;
  match o with
  | Some child =>
      match CBS_get_asn1_uint64 child with
      | (Some out, child) => if CBS_len child =? 0 then mret out else fail
      | (None, _) => fail
      end
  | None => mret default_value
  end.

Definition CBS_get_optional_asn1_bool (tag : Z) (default_value : bool) : M CBS bool :=
  o ← CBS_get_optional_asn1 tag;
  match o with
  | Some child =>
      match CBS_get_asn1 CBS_ASN1_BOOLEAN child with
      | (Some child2, child) =>
          if negb (CBS_len child2 =? 1) || negb (CBS_len child =? 0) then fail
          else
            let boolean := byte_at (CBS_data child2) 0 in
            if boolean =? 0 then mret false
            else if boolean =? 0xff then mret true
            else fail
      | (None, _) => fail
      end
  | None => mret default_value
  end.

Definition CBS_is_valid_asn1_bitstring (cbs : CBS) : bool :=
  match CBS_get_u8 cbs with
  | (None, _) => false
  | (Some num_unused_bits, rest) =>
      if num_unused_bits >? 7 then false
      else if num_unused_bits =? 0 then true
      else match CBS_get_last_u8 rest with
           | (None, _) => false
           | (Some last, _) => last .& (1 ≪ num_unused_bits - 1) =? 0
           end
  end.

Definition CBS_asn1_bitstring_has_bit (cbs : CBS) (bit : Z) : bool :=
  if negb (CBS_is_valid_asn1_bitstring cbs) then false
  else
    let byte_num := u32 (bit ≫ 3 + 1) in
    let bit_num := 7 - (bit .& 7) in
    (byte_num <? CBS_len cbs) && negb (byte_at (CBS_data cbs) byte_num .& (1 ≪ bit_num) =? 0).

Fixpoint valid_oid_loop (prev : Z) (cbs : CBS) : bool :=
  match cbs with
  | [] => prev .& 0x80 =? 0
  | v :: rest =>
      if (prev .& 0x80 =? 0) && (v =? 0x80) then false else valid_oid_loop v rest
  end.
Definition CBS_is_valid_asn1_oid (cbs : CBS) : bool :=
  if CBS_len cbs =? 0 then false else valid_oid_loop 0 cbs.

(** ** Theorems: reading fixed-width values *)

Lemma CBS_len_nonneg cbs : 0 <= CBS_len cbs.
Proof. unfold CBS_len. lia. Qed.
Lemma CBS_len_app c1 c2 : CBS_len (c1 ++ c2) = CBS_len c1 + CBS_len c2.
Proof. unfold CBS_len. rewrite length_app. lia. Qed.

Lemma cbs_get_app n l rest : n = CBS_len l → cbs_get n (l ++ rest) = (Some l, rest).
Proof.
  intros ->. unfold cbs_get. rewrite CBS_len_app. pose proof (CBS_len_nonneg rest).
  destruct (Z.ltb_spec (CBS_len l + CBS_len rest) (CBS_len l)); [lia|].
  unfold CBS_len. by rewrite Nat2Z.id, take_app_length, drop_app_length.
Qed.

Lemma cbs_get_inv n cbs l rest :
  0 <= n → cbs_get n cbs = (Some l, rest) → cbs = l ++ rest ∧ CBS_len l = n.
Proof.
  unfold cbs_get, CBS_len. intros Hn.
  destruct (Z.ltb_spec (Z.of_nat (length cbs)) n); [done|]. intros [= <- <-].
  rewrite take_drop, length_take. split; [done|lia].
Qed.

Lemma cbs_get_short n cbs : CBS_len cbs < n → cbs_get n cbs = (None, cbs).
Proof. unfold cbs_get. intros. by destruct (Z.ltb_spec (CBS_len cbs) n); [|lia]. Qed.

(** The accumulation loop never overflows on at most eight bytes. *)
Lemma lor_shl8 a b : is_byte b → a ≪ 8 .| b = a * 256 + b.
Proof. intros. by rewrite lor_shiftl_add by lia. Qed.

Lemma u64_shift_or r b : 0 <= r < 2 ^ 56 → is_byte b → r ≪[64] 8 .| b = r * 256 + b.
Proof.
  intros. rewrite wrap_small by (rewrite Z.shiftl_mul_pow2; lia). by apply lor_shl8.
Qed.

Lemma pow256_mono n m : (n ≤ m)%nat → 256 ^ Z.of_nat n <= 256 ^ Z.of_nat m.
Proof. intros. apply Z.pow_le_mono_r; lia. Qed.

Lemma u64_loop data r :
  bytes_ok data → 0 <= r → (r + 1) * 256 ^ CBS_len data <= 2 ^ 64 →
  foldl (λ result b, result ≪[64] 8 .| b) r data = r * 256 ^ CBS_len data + be_val data.
Proof.
  unfold CBS_len. revert r. induction data as [|b data IH]; intros r Hb Hr Hlim; [cbn; lia|].
  apply Forall_cons in Hb as [Hb Hd]. cbn [foldl length] in *.
  rewrite Nat2Z.inj_succ, Z.pow_succ_r in * by lia.
  pose proof (pow_B_pos 256 ltac:(lia) (length data)).
  rewrite val_be_cons by lia. rewrite u64_shift_or, IH by (done || nia). lia.
Qed.

Lemma cbs_get_u_app l rest :
  bytes_ok l → (length l ≤ 8)%nat → cbs_get_u (CBS_len l) (l ++ rest) = (Some (be_val l), rest).
Proof.
  intros Hl Hn. unfold cbs_get_u. erewrite M_bind_Some by (by apply cbs_get_app).
  cbn. unfold mret, M_ret. rewrite u64_loop; [f_equal; f_equal; lia|done|lia|].
  pose proof (pow256_mono (length l) 8 ltac:(lia)). unfold CBS_len. lia.
Qed.

Lemma cbs_get_u_inv n cbs v rest :
  bytes_ok cbs → 0 <= n <= 8 → cbs_get_u n cbs = (Some v, rest) →
  ∃ l, cbs = l ++ rest ∧ CBS_len l = n ∧ bytes_ok l ∧ v = be_val l ∧ bytes_ok rest.
Proof.
  intros Hb Hn H. pose proof H as H'. unfold cbs_get_u in H'. run_inv.
  apply cbs_get_inv in H0 as [-> Hl]; [|lia]. subst.
  apply Forall_app in Hb as [Hb1 Hb2]. exists x. split_and!; try done.
  rewrite cbs_get_u_app in H by (done || (unfold CBS_len in *; lia)). congruence.
Qed.

Lemma CBS_get_u8_cons b rest : CBS_get_u8 (b :: rest) = (Some b, rest).
Proof.
  unfold CBS_get_u8. erewrite M_bind_Some; [|by apply (cbs_get_app 1 [b])]. done.
Qed.

Lemma CBS_get_u8_nil : CBS_get_u8 [] = (None, []).
Proof. done. Qed.

(** ** Base-128 integers *)

(** Every octet but the last has its high bit set. *)
Fixpoint with_more (ds : list Z) : list Z :=
  match ds with
  | [] => []
  | [d] => [d]
  | d :: ds => (d + 128) :: with_more ds
  end.

Definition base128_len (v : Z) : nat := Nat.max 1 (ndigits 128 10 v).
(** The minimal base-128 encoding of a [uint64_t]. *)
Definition base128_bytes (v : Z) : list Z := with_more (digits_be 128 (base128_len v) v).

Lemma byte_low7_b : forallb (λ b, (b .& 0x7f =? b mod 128) && Bool.eqb (b .& 0x80 =? 0) (b <? 128))
  (seqZ 0 256) = true.
Proof. vm_compute. reflexivity. Qed.

Lemma byte_low7 b : is_byte b → b .& 0x7f = b mod 128 ∧ (b .& 0x80 =? 0) = (b <? 128).
Proof.
  intros Hb. pose proof (forallb_seqZ _ _ _ byte_low7_b b ltac:(lia)) as H.
  apply andb_true_iff in H as [H1%Z.eqb_eq H2%Bool.eqb_prop]. done.
Qed.

Lemma shiftr57 v : 0 <= v → (v ≫ (64 - 7) =? 0) = (v <? 2 ^ 57).
Proof.
  intros. rewrite Z.shiftr_div_pow2 by lia. change (64 - 7) with 57.
  apply Bool.eq_iff_eq_true. rewrite Z.eqb_eq, Z.ltb_lt. split; intros.
  - pose proof (Z.div_mod v (2 ^ 57)). pose proof (Z.mod_pos_bound v (2 ^ 57)). lia.
  - apply Z.div_small; lia.
Qed.

Lemma base128_step v b : 0 <= v < 2 ^ 57 → is_byte b →
  v ≪[64] 7 .| (b .& 0x7f) = v * 128 + b mod 128.
Proof.
  intros. destruct (byte_low7 b) as [-> _]; [done|].
  pose proof (Z.mod_pos_bound b 128 ltac:(lia)).
  rewrite wrap_small by (rewrite Z.shiftl_mul_pow2; lia).
  by rewrite lor_shiftl_add by lia.
Qed.

Lemma parse_base128_loop_digits ds v0 rest :
  Forall (is_digit 128) ds → ds ≠ [] → 0 <= v0 →
  v0 * 128 ^ Z.of_nat (length ds) + val_be 128 ds < 2 ^ 64 →
  (v0 ≠ 0 ∨ hd 0 ds ≠ 0 ∨ length ds = 1%nat) →
  parse_base128_loop v0 (with_more ds ++ rest) =
    (Some (v0 * 128 ^ Z.of_nat (length ds) + val_be 128 ds), rest).
Proof.
  revert v0. induction ds as [|d ds IH]; intros v0 Hds Hne Hv0 Hlim Hmin; [done|]. clear Hne.
  apply Forall_cons in Hds as [Hd Hds]. unfold is_digit in Hd.
  pose proof (val_be_range 128 ltac:(lia) ds Hds).
  rewrite val_be_cons in * by lia. cbn [length] in *.
  rewrite Nat2Z.inj_succ, Z.pow_succ_r in * by lia.
  pose proof (pow_B_pos 128 ltac:(lia) (length ds)).
  assert (v0 < 2 ^ 57).
  { assert (0 <= d * 128 ^ Z.of_nat (length ds)) by nia.
    assert (v0 * 128 <= v0 * (128 * 128 ^ Z.of_nat (length ds))) by nia. lia. }
  destruct ds as [|d' ds].
  - cbn [with_more app parse_base128_loop]. rewrite shiftr57 by lia.
    destruct (Z.ltb_spec v0 (2 ^ 57)); [|lia]. cbn [negb].
    destruct (Z.eqb_spec d 128); [lia|]. rewrite andb_false_r, base128_step by lia.
    destruct (byte_low7 d) as [_ ->]; [lia|]. destruct (Z.ltb_spec d 128); [|lia].
    cbn. rewrite Z.mod_small by lia. f_equal. f_equal. lia.
  - change (with_more (d :: d' :: ds) ++ rest) with ((d + 128) :: with_more (d' :: ds) ++ rest).
    cbn [parse_base128_loop]. rewrite shiftr57 by lia.
    destruct (Z.ltb_spec v0 (2 ^ 57)); [|lia]. cbn [negb].
    destruct (Z.eqb_spec v0 0), (Z.eqb_spec (d + 128) 128); cbn [andb];
      try (exfalso; cbn in Hmin; lia).
    all: rewrite base128_step by lia; destruct (byte_low7 (d + 128)) as [_ ->]; [lia|].
    all: destruct (Z.ltb_spec (d + 128) 128); [lia|]; cbn [negb].
    all: replace ((d + 128) mod 128) with d by (rewrite Z.add_mod, Z.mod_same, Z.add_0_r, Z.mod_mod, Z.mod_small; lia).
    all: rewrite IH by (done || (cbn in *; nia)); f_equal; f_equal; lia.
Qed.

Lemma parse_base128_loop_inv cbs v0 v rest :
  bytes_ok cbs → 0 <= v0 < 2 ^ 64 → parse_base128_loop v0 cbs = (Some v, rest) →
  ∃ ds, cbs = with_more ds ++ rest ∧ ds ≠ [] ∧ Forall (is_digit 128) ds ∧
        v = v0 * 128 ^ Z.of_nat (length ds) + val_be 128 ds ∧ v < 2 ^ 64 ∧
        (v0 ≠ 0 ∨ hd 0 ds ≠ 0 ∨ length ds = 1%nat).
Proof.
  revert v0. induction cbs as [|b cbs IH]; intros v0 Hb Hv0; [done|].
  apply Forall_cons in Hb as [Hb Hc]. cbn [parse_base128_loop].
  rewrite shiftr57 by lia. destruct (Z.ltb_spec v0 (2 ^ 57)); [|done]. cbn [negb].
  destruct ((v0 =? 0) && (b =? 128)) eqn:Emin; [done|].
  rewrite base128_step by lia. destruct (byte_low7 b Hb) as [_ ->].
  pose proof (Z.mod_pos_bound b 128 ltac:(lia)).
  destruct (Z.ltb_spec b 128); cbn [negb].
  - intros [= <- <-]. exists [b]. rewrite Z.mod_small by lia. cbn.
    split_and!; [done|done|apply Forall_cons; split; [unfold is_digit; lia|done]|lia|lia|lia].
  - intros H'. apply IH in H' as (ds & -> & Hne & Hds & Hv & Hlt & Hmin); [|done|lia].
    exists (b - 128 :: ds).
    assert (Eb : b mod 128 = b - 128).
    { symmetry. apply (Z.mod_unique b 128 1); lia. }
    rewrite Eb in *. split_and!.
    + destruct ds; [done|]. cbn. f_equal. lia.
    + done.
    + apply Forall_cons. split; [unfold is_digit; lia|done].
    + rewrite Hv, val_be_cons by lia. cbn [length]. rewrite Nat2Z.inj_succ, Z.pow_succ_r by lia. lia.
    + done.
    + destruct (Z.eqb_spec v0 0); [|by left]. right. left. cbn.
      intros ?. assert (b = 128) as -> by lia. by rewrite Z.eqb_refl in Emin.
Qed.

Lemma base128_len_bound v : in_range 64 v → 0 <= v < 128 ^ Z.of_nat (base128_len v).
Proof.
  intros Hv. unfold base128_len. destruct (decide (v = 0)) as [->|].
  - cbn. lia.
  - destruct (ndigits_bound 128 ltac:(lia) 10 v ltac:(lia)) as [? ?].
    rewrite Nat.max_r by lia. lia.
Qed.

Lemma base128_digits v :
  in_range 64 v →
  let ds := digits_be 128 (base128_len v) v in
  Forall (is_digit 128) ds ∧ ds ≠ [] ∧ val_be 128 ds = v ∧ (hd 0 ds ≠ 0 ∨ length ds = 1%nat).
Proof.
  intros Hv. cbn zeta. pose proof (base128_len_bound v Hv). split_and!.
  - apply digits_be_ok. lia.
  - intros E%(f_equal length). rewrite length_digits_be in E. unfold base128_len in E. cbn in E. lia.
  - apply val_digits_be_small; lia.
  - unfold base128_len in *. destruct (decide (v = 0)) as [->|]; [by right|].
    destruct (ndigits_bound 128 ltac:(lia) 10 v ltac:(lia)) as [? ?].
    rewrite Nat.max_r by lia. left.
    destruct (digits_be_hd 128 ltac:(lia) 10 v ltac:(lia)) as (d & l & -> & ?). cbn. lia.
Qed.

(** The parser inverts the minimal encoding ... *)
Lemma parse_base128_bytes v rest :
  in_range 64 v → parse_base128_integer (base128_bytes v ++ rest) = (Some v, rest).
Proof.
  intros Hv. destruct (base128_digits v Hv) as (H1 & H2 & H3 & H4).
  unfold parse_base128_integer, base128_bytes.
  rewrite parse_base128_loop_digits; [|done|done|lia|lia|tauto].
  f_equal. f_equal. lia.
Qed.

(** ... and accepts nothing else. *)
Lemma parse_base128_canonical cbs v rest :
  bytes_ok cbs → parse_base128_integer cbs = (Some v, rest) →
  in_range 64 v ∧ cbs = base128_bytes v ++ rest.
Proof.
  intros Hb H. apply parse_base128_loop_inv in H as (ds & -> & Hne & Hds & Hv & Hlt & Hmin); [|done|lia].
  pose proof (val_be_range 128 ltac:(lia) ds Hds).
  replace v with (val_be 128 ds) in * by lia.
  split; [lia|]. unfold base128_bytes. f_equal. f_equal. symmetry.
  assert (base128_len (val_be 128 ds) = length ds) as ->; [|apply digits_val_be; [lia|done]].
  unfold base128_len. destruct ds as [|d ds]; [done|].
  destruct (decide (d = 0)) as [->|].
  - destruct Hmin as [?|[?|Hl]]; [done|done|]. destruct ds; [done|done].
  - rewrite canonical_digits by (lia || done). cbn. lia.
Qed.

(** ** Tags *)

(** The identifier octets of [tag]: class and constructed bits, then the tag
    number in low or high form. *)
Definition asn1_tag_bytes (tag : Z) : list Z :=
  let cls := tag / 2 ^ 29 * 32 in
  let num := tag mod 2 ^ 29 in
  if num <? 31 then [cls + num] else (cls + 31) :: base128_bytes num.

(** A [CBS_ASN1_TAG] that is not [UNIVERSAL 0]. *)
Definition valid_tag (tag : Z) : Prop := in_range 32 tag ∧ tag ≠ 0 ∧ tag ≠ CBS_ASN1_CONSTRUCTED.

Lemma byte_tag_b : forallb (λ b, (u32 ((b .& 0xe0) ≪ 24) =? b / 32 * 2 ^ 29) && (b .& 0x1f =? b mod 32))
  (seqZ 0 256) = true.
Proof. vm_compute. reflexivity. Qed.

Lemma byte_tag b : is_byte b → u32 ((b .& 0xe0) ≪ 24) = b / 32 * 2 ^ 29 ∧ b .& 0x1f = b mod 32.
Proof.
  intros Hb. pose proof (forallb_seqZ _ _ _ byte_tag_b b ltac:(lia)) as H.
  by apply andb_true_iff in H as [H1%Z.eqb_eq H2%Z.eqb_eq].
Qed.

Lemma not_constructed_zero tag : in_range 32 tag →
  (tag .& NOT_CONSTRUCTED =? 0) = (tag =? 0) || (tag =? CBS_ASN1_CONSTRUCTED).
Proof.
  intros Ht. apply Bool.eq_iff_eq_true. rewrite orb_true_iff, !Z.eqb_eq. split.
  - intros Hz.
    assert (Hbit : ∀ i, 0 <= i → i ≠ 29 → Z.testbit tag i = false).
    { intros i Hi Hne. destruct (Z.lt_ge_cases i 32); [|by apply (testbit_range 32)].
      assert (Hl : Z.testbit (tag .& NOT_CONSTRUCTED) i = false) by by rewrite Hz, Z.bits_0.
      rewrite Z.land_spec in Hl.
      assert (Hn : Z.testbit NOT_CONSTRUCTED i = true); [|by rewrite Hn, andb_true_r in Hl].
      assert (∀ k, 0 <= k < 0 + 32 → (k =? 29) || Z.testbit NOT_CONSTRUCTED k = true) as Hk
        by (apply (forallb_seqZ (λ k, (k =? 29) || Z.testbit NOT_CONSTRUCTED k)); vm_compute; done).
      specialize (Hk i ltac:(lia)). destruct (Z.eqb_spec i 29); [done|done]. }
    destruct (Z.testbit tag 29) eqn:E29; [right|left]; apply Z.bits_inj'; intros i Hi.
    + destruct (decide (i = 29)) as [->|]; [by rewrite E29|]. rewrite Hbit by done.
      symmetry. change CBS_ASN1_CONSTRUCTED with (2 ^ 29). by rewrite Z.pow2_bits_false by lia.
    + rewrite Z.bits_0. destruct (decide (i = 29)) as [->|]; [done|]. by apply Hbit.
  - intros [->| ->]; done.
Qed.

Lemma tag_split tag : in_range 32 tag →
  0 <= tag / 2 ^ 29 < 8 ∧ 0 <= tag mod 2 ^ 29 < 2 ^ 29 ∧ tag = tag / 2 ^ 29 * 2 ^ 29 + tag mod 2 ^ 29.
Proof.
  intros. pose proof (Z.div_mod tag (2 ^ 29)). pose proof (Z.mod_pos_bound tag (2 ^ 29)).
  split_and!; lia || (apply Z.div_lt_upper_bound; lia).
Qed.

Lemma parse_asn1_tag_bytes tag rest :
  valid_tag tag → parse_asn1_tag (asn1_tag_bytes tag ++ rest) = (Some tag, rest).
Proof.
  intros (Hr & Hz & Hc). destruct (tag_split tag Hr) as (Hcls & Hnum & Htag).
  assert (Hnc : (tag .& NOT_CONSTRUCTED =? 0) = false).
  { rewrite not_constructed_zero by done. apply orb_false_iff. by rewrite !Z.eqb_neq. }
  unfold asn1_tag_bytes, parse_asn1_tag.
  set (cls := tag / 2 ^ 29) in *. set (num := tag mod 2 ^ 29) in *.
  assert (Hlor : cls * 2 ^ 29 .| num = tag) by (rewrite lor_mul_add by lia; lia).
  destruct (Z.ltb_spec num 31); cbn [app];
    (erewrite M_bind_Some by apply CBS_get_u8_cons); cbn zeta.
  - destruct (byte_tag (cls * 32 + num)) as [E1 E2]; [lia|].
    change CBS_ASN1_TAG_SHIFT with 24. rewrite E1, E2.
    rewrite (Z.add_comm (cls * 32)), Z.mod_add, Z.mod_small, Z.div_add, Z.div_small, Z.add_0_l by lia.
    destruct (Z.eqb_spec num 31); [lia|]. run_step. by rewrite Hlor, Hnc.
  - destruct (byte_tag (cls * 32 + 31)) as [E1 E2]; [lia|].
    change CBS_ASN1_TAG_SHIFT with 24. rewrite E1, E2.
    rewrite (Z.add_comm (cls * 32)), Z.mod_add, Z.mod_small, Z.div_add, Z.div_small, Z.add_0_l by lia.
    rewrite Z.eqb_refl. erewrite M_bind_Some; [|erewrite M_bind_Some by (apply parse_base128_bytes; lia)].
    2: { change CBS_ASN1_TAG_NUMBER_MASK with (2 ^ 29 - 1).
         destruct (Z.gtb_spec num (2 ^ 29 - 1)); [lia|]. destruct (Z.ltb_spec num 31); [lia|].
         run_step. by rewrite wrap_small by lia. }
    run_step. by rewrite Hlor, Hnc.
Qed.

Lemma CBS_get_u8_inv cbs b rest : CBS_get_u8 cbs = (Some b, rest) → cbs = b :: rest.
Proof. destruct cbs as [|c cbs]; [done|]. rewrite CBS_get_u8_cons. by intros [= -> ->]. Qed.

Lemma asn1_tag_bytes_assemble b num :
  is_byte b → 0 <= num < 2 ^ 29 →
  asn1_tag_bytes (b / 32 * 2 ^ 29 + num) =
    if num <? 31 then [b / 32 * 32 + num] else (b / 32 * 32 + 31) :: base128_bytes num.
Proof.
  intros Hb Hn. unfold asn1_tag_bytes.
  by rewrite Z.div_add_l, (Z.div_small num), Z.add_0_r, Z.add_comm, Z.mod_add, (Z.mod_small num) by lia.
Qed.

Lemma parse_asn1_tag_canonical cbs tag rest :
  bytes_ok cbs → parse_asn1_tag cbs = (Some tag, rest) →
  valid_tag tag ∧ cbs = asn1_tag_bytes tag ++ rest.
Proof.
  intros Hb H. unfold parse_asn1_tag in H.
  apply M_bind_inv in H as (b & c1 & Hb1 & H). apply CBS_get_u8_inv in Hb1 as ->.
  apply Forall_cons in Hb as [Hbyte Hc]. destruct (byte_tag b Hbyte) as [E1 E2].
  change CBS_ASN1_TAG_SHIFT with 24 in H. rewrite E1, E2 in H.
  pose proof (Z.div_mod b 32 ltac:(lia)). pose proof (Z.mod_pos_bound b 32 ltac:(lia)).
  assert (0 <= b / 32 < 8) by lia.
  apply M_bind_inv in H as (num & c2 & Hnum & H). run_inv. subst.
  assert (Hspec : 0 <= num < 2 ^ 29 ∧ b :: c1 = asn1_tag_bytes (b / 32 * 2 ^ 29 + num) ++ rest).
  { destruct (Z.eqb_spec (b mod 32) 31) as [E31|Hne].
    - apply M_bind_inv in Hnum as (v & c3 & Hv & Hnum). run_inv. subst.
      apply parse_base128_canonical in Hv as [Hv ->]; [|done].
      repeat match goal with E : negb _ = true |- _ => apply negb_true_iff in E end.
      change CBS_ASN1_TAG_NUMBER_MASK with (2 ^ 29 - 1) in *.
      rewrite Z.gtb_ltb, Z.ltb_ge in *. rewrite wrap_small by lia. split; [lia|].
      rewrite asn1_tag_bytes_assemble by lia. destruct (Z.ltb_spec v 31); [lia|].
      cbn [app]. f_equal. lia.
    - run_inv. subst. split; [lia|]. rewrite asn1_tag_bytes_assemble by lia.
      destruct (Z.ltb_spec (b mod 32) 31); [|lia]. cbn [app]. f_equal. lia. }
  destruct Hspec as [Hn Hs]. rewrite lor_mul_add in * by lia. split; [|done].
  assert (Hrange : in_range 32 (b / 32 * 2 ^ 29 + num)) by lia.
  split; [done|]. select (negb _ = true) (fun E => apply negb_true_iff in E;
    rewrite not_constructed_zero in E by done; apply orb_false_iff in E as [?%Z.eqb_neq ?%Z.eqb_neq]). done.
Qed.

(** ** DER elements *)

Definition der_len_bytes (n : Z) : list Z :=
  if n <? 128 then [n]
  else let k := ndigits 256 8 n in (128 + Z.of_nat k) :: be_bytes k n.

Definition der_header (tag n : Z) : list Z := asn1_tag_bytes tag ++ der_len_bytes n.
(** The DER encoding of a TLV. *)
Definition der_element (tag : Z) (contents : list Z) : list Z :=
  der_header tag (CBS_len contents) ++ contents.

Lemma base128_bytes_ok v : in_range 64 v → bytes_ok (base128_bytes v).
Proof.
  intros Hv. destruct (base128_digits v Hv) as (H & _). unfold base128_bytes.
  revert H. generalize (digits_be 128 (base128_len v) v) as ds.
  induction ds as [|d [|d' ds] IH]; intros Hds; [constructor| |].
  - apply Forall_cons in Hds as [? _]. unfold is_digit in *. apply Forall_cons. split; [lia|done].
  - apply Forall_cons in Hds as [Hd Hds]. unfold is_digit in Hd.
    change (bytes_ok ((d + 128) :: with_more (d' :: ds))). apply Forall_cons. split; [lia|by apply IH].
Qed.

Lemma length_with_more ds : length (with_more ds) = length ds.
Proof. induction ds as [|d [|d' ds] IH]; [done..|]. cbn in *. by rewrite IH. Qed.

Lemma length_base128_bytes v : in_range 64 v → (1 ≤ length (base128_bytes v) ≤ 10)%nat.
Proof.
  intros Hv. unfold base128_bytes. rewrite length_with_more, length_digits_be. unfold base128_len.
  destruct (decide (v = 0)) as [->|]; [cbn; lia|].
  destruct (ndigits_bound 128 ltac:(lia) 10 v ltac:(lia)) as [? ?]. lia.
Qed.

Lemma asn1_tag_bytes_length tag : in_range 32 tag → (1 ≤ length (asn1_tag_bytes tag) ≤ 11)%nat.
Proof.
  intros Ht. destruct (tag_split tag Ht) as (?&?&?). unfold asn1_tag_bytes.
  destruct (_ <? _); cbn [length]; [lia|].
  pose proof (length_base128_bytes (tag mod 2 ^ 29) ltac:(lia)). lia.
Qed.

Lemma asn1_tag_bytes_ok tag : in_range 32 tag → bytes_ok (asn1_tag_bytes tag).
Proof.
  intros Ht. destruct (tag_split tag Ht) as (?&?&?). unfold asn1_tag_bytes.
  destruct (Z.ltb_spec (tag mod 2 ^ 29) 31); apply Forall_cons; (split; [lia|]); [done|].
  apply base128_bytes_ok. lia.
Qed.

Lemma der_len_digits n :
  128 <= n < 2 ^ 32 →
  let k := ndigits 256 8 n in
  (1 ≤ k ≤ 4)%nat ∧ 256 ^ (Z.of_nat k - 1) <= n < 256 ^ Z.of_nat k ∧ be_val (be_bytes k n) = n.
Proof.
  intros Hn. cbn zeta. destruct (ndigits_bound 256 ltac:(lia) 8 n ltac:(lia)) as [Hb ?].
  set (k := ndigits 256 8 n) in *. split_and!; try lia.
  - destruct (le_lt_dec k 4); [done|].
    assert (256 ^ 4 <= 256 ^ (Z.of_nat k - 1)) by (apply Z.pow_le_mono_r; lia). lia.
  - apply val_digits_be_small; lia.
Qed.

Lemma length_der_len_bytes n : 0 <= n < 2 ^ 32 → (1 ≤ length (der_len_bytes n) ≤ 5)%nat.
Proof.
  intros Hn. unfold der_len_bytes. destruct (Z.ltb_spec n 128); cbn [length]; [lia|].
  rewrite length_digits_be. destruct (der_len_digits n ltac:(lia)) as [? _]. lia.
Qed.

Lemma der_len_bytes_ok n : 0 <= n < 2 ^ 32 → bytes_ok (der_len_bytes n).
Proof.
  intros Hn. unfold der_len_bytes. destruct (Z.ltb_spec n 128).
  - apply Forall_cons. split; [lia|done].
  - destruct (der_len_digits n ltac:(lia)) as [? _]. apply Forall_cons. split; [lia|].
    apply (digits_be_ok 256). lia.
Qed.

Lemma length_octet_b : forallb (λ b, (b .& 0x80 =? 0) && (b <? 128)
  || negb (b .& 0x80 =? 0) && (128 <=? b) && (b .& 0x7f =? b - 128)) (seqZ 0 256) = true.
Proof. vm_compute. reflexivity. Qed.

Lemma length_octet b : is_byte b →
  (b .& 0x80 =? 0) = (b <? 128) ∧ (128 <= b → b .& 0x7f = b - 128).
Proof.
  intros Hb. pose proof (forallb_seqZ _ _ _ length_octet_b b ltac:(lia)) as H. cbn beta in H.
  destruct (b .& 128 =? 0), (Z.ltb_spec b 128), (Z.leb_spec 128 b); cbn in H; try done; try lia.
Qed.

Lemma be_val_shift_zero l : bytes_ok l → l ≠ [] →
  (be_val l ≫ ((CBS_len l - 1) * 8) =? 0) = (be_val l <? 256 ^ (CBS_len l - 1)).
Proof.
  intros Hl Hne. unfold CBS_len. destruct l as [|b l]; [done|].
  pose proof (val_be_range 256 ltac:(lia) _ Hl).
  replace (Z.of_nat (length (b :: l)) - 1) with (Z.of_nat (length l)) by (cbn; lia).
  rewrite Z.shiftr_div_pow2, Z.mul_comm, Z.pow_mul_r by lia. change (2 ^ 8) with 256.
  pose proof (pow_B_pos 256 ltac:(lia) (length l)).
  apply Bool.eq_iff_eq_true. rewrite Z.eqb_eq, Z.ltb_lt. split; intros.
  - pose proof (Z.div_mod (be_val (b :: l)) (256 ^ Z.of_nat (length l))).
    pose proof (Z.mod_pos_bound (be_val (b :: l)) (256 ^ Z.of_nat (length l))). lia.
  - apply Z.div_small. lia.
Qed.

(** The header parser on the encoding of a header. *)
Lemma asn1_header_der tag n rest total ber_ok :
  valid_tag tag → 0 <= n < 2 ^ 32 →
  total = CBS_len (der_header tag n ++ rest) →
  asn1_header total ber_ok (der_header tag n ++ rest) =
    (Some (tag, CBS_len (der_header tag n), CBS_len (der_header tag n) + n, false, false), rest).
Proof.
  intros Ht Hn Htot. pose proof (asn1_tag_bytes_length tag (proj1 Ht)).
  unfold asn1_header. subst total. unfold der_header. rewrite <- !app_assoc.
  erewrite M_bind_Some by (by apply parse_asn1_tag_bytes).
  rewrite !CBS_len_app. unfold der_len_bytes.
  destruct (Z.ltb_spec n 128) as [Hs|Hl]; cbn [app];
    (erewrite M_bind_Some by apply CBS_get_u8_cons).
  - destruct (length_octet n) as [E _]; [lia|]. unfold get_state. run_step. rewrite E.
    destruct (Z.ltb_spec n 128); [|lia]. run_step.
    replace (CBS_len [n]) with 1 by done. unfold CBS_len in *.
    rewrite wrap_small by (cbn [length]; lia). cbn [length]. out_eq.
  - destruct (der_len_digits n ltac:(lia)) as (Hk & Hb & Hv).
    set (k := ndigits 256 8 n) in *.
    destruct (length_octet (128 + Z.of_nat k)) as [E1 E2]; [lia|].
    unfold get_state. unfold mbind at 1, M_bind at 1. rewrite E1, E2 by lia.
    destruct (Z.ltb_spec (128 + Z.of_nat k) 128); [lia|].
    replace (128 + Z.of_nat k - 128) with (Z.of_nat k) by lia.
    destruct (Z.eqb_spec (Z.of_nat k) 0); [lia|].
    rewrite andb_false_r. unfold mbind at 1, M_bind at 1. 
    destruct (Z.gtb_spec (Z.of_nat k) 4); [lia|]. cbn [orb negb require].
    unfold mret at 1, M_ret at 1.
    assert (Hlen : CBS_len (be_bytes k n) = Z.of_nat k)
      by (unfold CBS_len; by rewrite length_digits_be).
    erewrite M_bind_Some; [|rewrite <- Hlen; apply cbs_get_u_app;
      [apply (digits_be_ok 256); lia|rewrite length_digits_be; lia]].
    rewrite Hv. 
    destruct (Z.ltb_spec n 128); [lia|].
    assert (Hsh : (n ≫ ((Z.of_nat k - 1) * 8) =? 0) = false).
    { rewrite <- Hv at 1. rewrite <- Hlen, be_val_shift_zero, Hlen, Hv.
      - apply Z.ltb_ge. lia.
      - apply (digits_be_ok 256). lia.
      - intros Hnil%(f_equal length). rewrite length_digits_be in Hnil. cbn [length] in Hnil. lia. }
    rewrite Hsh. run_step. unfold CBS_len in *. rewrite !length_cons, length_app, length_digits_be in *.
    replace (Z.of_nat (length (asn1_tag_bytes tag)) + (Z.of_nat (S k) + Z.of_nat (length rest)) -
      Z.of_nat (k + length rest)) with (Z.of_nat (length (asn1_tag_bytes tag)) + 1) by lia.
    rewrite (wrap_small 64 (n + (Z.of_nat (length (asn1_tag_bytes tag)) + 1))) by lia.
    rewrite !wrap_small by lia.
    destruct (Z.ltb_spec (n + (Z.of_nat (length (asn1_tag_bytes tag)) + 1) + Z.of_nat k) n); [lia|].
    cbn [orb negb]. out_eq.
Qed.

(** DER headers have one encoding: what the strict parser accepts is
    [der_header tag n] for the tag and length it reports. *)
Lemma asn1_header_canonical cbs out rest :
  bytes_ok cbs → asn1_header (CBS_len cbs) false cbs = (Some out, rest) →
  ∃ tag n, valid_tag tag ∧ 0 <= n < 2 ^ 32 ∧ cbs = der_header tag n ++ rest.
Proof.
  intros Hb H. unfold asn1_header in H.
  apply M_bind_inv in H as (tag & c1 & Ht & H).
  apply parse_asn1_tag_canonical in Ht as [Ht ->]; [|done].
  apply Forall_app in Hb as [_ Hb].
  apply M_bind_inv in H as (b & c2 & Hb2 & H). apply CBS_get_u8_inv in Hb2 as ->.
  apply Forall_cons in Hb as [Hbyte Hc]. destruct (length_octet b Hbyte) as [E1 E2].
  apply M_bind_inv in H as (? & ? & [= <- <-] & H). rewrite E1 in H.
  destruct (Z.ltb_spec b 128) as [Hs|Hl].
  - injection H as _ <-. exists tag, b. split_and!; [done|lia|lia|].
    unfold der_header, der_len_bytes. destruct (Z.ltb_spec b 128); [|lia]. by rewrite <- app_assoc.
  - rewrite E2 in H by done. cbn [andb] in H.
    apply M_bind_inv in H as (? & ? & Hreq & H). apply require_inv in Hreq as [Hk ->].
    apply negb_true_iff, orb_false_iff in Hk as [Hk0%Z.eqb_neq Hk4].
    rewrite Z.gtb_ltb, Z.ltb_ge in Hk4.
    apply M_bind_inv in H as (len64 & c3 & Hlen & H).
    apply cbs_get_u_inv in Hlen as (l & -> & Hl' & Hlb & -> & _); [|done|lia].
    apply M_bind_inv in H as (? & ? & Hreq1 & H). apply require_inv in Hreq1 as [Hge ->].
    apply M_bind_inv in H as (? & ? & Hreq2 & H). apply require_inv in Hreq2 as [Hmin ->].
    apply M_bind_inv in H as (? & ? & Hreq3 & H). apply require_inv in Hreq3 as [_ ->].
    injection H as _ <-. rewrite orb_false_r, negb_true_iff, Z.ltb_ge in Hge.
    assert (Hne : l ≠ []) by (intros ->; unfold CBS_len in Hl'; cbn [length] in Hl'; lia).
    rewrite <- Hl', be_val_shift_zero, orb_false_r, negb_true_iff, Z.ltb_ge in Hmin by done.
    pose proof (val_be_range 256 ltac:(lia) l Hlb) as Hr.
    assert (256 ^ Z.of_nat (length l) <= 256 ^ 4)
      by (apply Z.pow_le_mono_r; unfold CBS_len in Hl'; lia).
    exists tag, (be_val l). split_and!; [done|lia|lia|].
    unfold der_header, der_len_bytes. destruct (Z.ltb_spec (be_val l) 128); [lia|].
    assert (ndigits 256 8 (be_val l) = length l) as ->.
    { apply ndigits_unique; try lia; [|destruct l; [done|cbn; lia]]. unfold CBS_len in *. lia. }
    rewrite digits_val_be by (lia || done). rewrite <- !app_assoc. cbn [app]. f_equal. f_equal.
    unfold CBS_len in Hl'. lia.
Qed.

Lemma der_header_length tag n :
  valid_tag tag → 0 <= n < 2 ^ 32 → 2 <= CBS_len (der_header tag n) <= 16.
Proof.
  intros [Ht _] Hn. unfold der_header. rewrite CBS_len_app. unfold CBS_len.
  pose proof (asn1_tag_bytes_length tag Ht). pose proof (length_der_len_bytes n Hn). lia.
Qed.

Lemma get_element_der tag contents rest ber_ok :
  valid_tag tag → CBS_len contents < 2 ^ 32 →
  cbs_get_any_asn1_element ber_ok (der_element tag contents ++ rest) =
    (Some (mkElement (der_element tag contents) tag
             (CBS_len (der_header tag (CBS_len contents))) false false), rest).
Proof.
  intros Ht Hc. pose proof (CBS_len_nonneg contents).
  unfold cbs_get_any_asn1_element, der_element. rewrite <- (app_assoc (der_header _ _)).
  rewrite asn1_header_der by (done || lia). cbn [fst].
  rewrite app_assoc. erewrite M_bind_Some; [|apply cbs_get_app; by rewrite CBS_len_app]. done.
Qed.

Lemma get_element_canonical cbs e rest :
  bytes_ok cbs → CBS_get_any_asn1_element cbs = (Some e, rest) →
  ∃ tag contents,
    valid_tag tag ∧ CBS_len contents < 2 ^ 32 ∧
    cbs = der_element tag contents ++ rest ∧
    e = mkElement (der_element tag contents) tag
          (CBS_len (der_header tag (CBS_len contents))) false false.
Proof.
  unfold CBS_get_any_asn1_element, cbs_get_any_asn1_element. intros Hb H.
  destruct (asn1_header _ _ _) as [[out|] c] eqn:Eh; [|done].
  destruct (asn1_header_canonical cbs out c Hb Eh) as (tag & n & Ht & Hn & ->).
  rewrite asn1_header_der in Eh by done. injection Eh as <-. cbn [fst] in H.
  apply M_bind_inv in H as (o & c' & Hg & [= <- <-]).
  pose proof (der_header_length tag n Ht Hn).
  apply cbs_get_inv in Hg as [Heq Hlen]; [|lia].
  assert (∃ contents, o = der_header tag n ++ contents) as [contents ->].
  { exists (drop (length (der_header tag n)) o). rewrite <- (take_drop (length (der_header tag n)) o) at 1.
    f_equal. apply (f_equal (take (length (der_header tag n)))) in Heq.
    rewrite take_app_length, take_app_le in Heq; [done|]. unfold CBS_len in *. lia. }
  rewrite CBS_len_app in Hlen. assert (CBS_len contents = n) as <- by lia.
  exists tag, contents. split_and!; done || lia.
Qed.

(** C6: the strict (DER) element parser accepts exactly the canonical
    encodings.  [CBS_get_any_asn1_element] succeeds on [cbs] with element [e]
    and remainder [rest] if and only if [cbs] is, for one valid tag and one
    contents of less than 2^32 bytes, their DER encoding followed by [rest],
    and [e] reports that tag, that encoding and its header length.  Every
    non-minimal length or tag form is refused. *)
Theorem CBS_get_any_asn1_element_iff (cbs : CBS) (e : asn1_element) (rest : CBS)
    (Hb : bytes_ok cbs) :
  CBS_get_any_asn1_element cbs = (Some e, rest) ↔
  ∃ tag contents,
    valid_tag tag ∧ CBS_len contents < 2 ^ 32 ∧
    cbs = der_element tag contents ++ rest ∧
    e = mkElement (der_element tag contents) tag
          (CBS_len (der_header tag (CBS_len contents))) false false.
Proof.
  split; [by apply get_element_canonical|].
  intros (tag & contents & Ht & Hc & -> & ->). by apply get_element_der.
Qed.

(** A failed element read leaves the input where it was. *)
Lemma get_element_fail ber_ok cbs s :
  cbs_get_any_asn1_element ber_ok cbs = (None, s) → s = cbs.
Proof.
  unfold cbs_get_any_asn1_element. destruct (asn1_header _ _ _).1 as [[[[[??]?]?]?]|]; [|congruence].
  unfold CBS_get_bytes, cbs_get. run_step. destruct (_ <? _); congruence.
Qed.

Lemma CBS_skip_header tag contents :
  CBS_skip (CBS_len (der_header tag (CBS_len contents))) (der_element tag contents) = (Some (), contents).
Proof. unfold CBS_skip, der_element. erewrite M_bind_Some by (by apply cbs_get_app). done. Qed.

Lemma get_asn1_der tag contents rest :
  valid_tag tag → CBS_len contents < 2 ^ 32 →
  CBS_get_asn1 tag (der_element tag contents ++ rest) = (Some contents, rest).
Proof.
  intros. unfold CBS_get_asn1, cbs_get_asn1. erewrite M_bind_Some by (by apply get_element_der).
  cbn [el_tag el_header_len el_out]. rewrite Z.eqb_refl, CBS_skip_header. done.
Qed.

Lemma get_asn1_inv tag cbs contents rest :
  bytes_ok cbs → CBS_get_asn1 tag cbs = (Some contents, rest) →
  valid_tag tag ∧ CBS_len contents < 2 ^ 32 ∧ cbs = der_element tag contents ++ rest ∧
  bytes_ok contents ∧ bytes_ok rest.
Proof.
  unfold CBS_get_asn1, cbs_get_asn1. intros Hb H.
  apply M_bind_inv in H as (e & c & He & H).
  apply get_element_canonical in He as (t & cs & Ht & Hc & -> & ->); [|done].
  cbn [el_tag el_header_len el_out] in H. rewrite CBS_skip_header in H.
  apply M_bind_inv in H as (? & ? & Hr & H). apply require_inv in Hr as [->%Z.eqb_eq ->].
  injection H as -> ->. apply Forall_app in Hb as [[_ Hb1]%Forall_app Hb2]. done.
Qed.

(** Reading an expected tag.  [CBS_get_asn1 tag] succeeds exactly on the
    DER encodings of that tag, yields the contents and leaves the remainder. *)
Theorem CBS_get_asn1_iff (cbs : CBS) (tag : Z) (contents : CBS) (rest : CBS) (Hb : bytes_ok cbs) :
  CBS_get_asn1 tag cbs = (Some contents, rest) ↔
  valid_tag tag ∧ CBS_len contents < 2 ^ 32 ∧ cbs = der_element tag contents ++ rest.
Proof.
  split.
  - intros H. by destruct (get_asn1_inv _ _ _ _ Hb H) as (?&?&?&_).
  - intros (Ht & Hc & ->). by apply get_asn1_der.
Qed.

(** ** INTEGER contents *)

(** Value of a big-endian two's complement string. *)
Definition twos_complement (l : list Z) : Z :=
  be_val l - (if 128 <=? hd 0 l then 256 ^ CBS_len l else 0).

(** [k] bytes are enough for [v]. *)
Definition fits (k : nat) (v : Z) : bool :=
  (- 2 ^ (8 * Z.of_nat k - 1) <=? v) && (v <? 2 ^ (8 * Z.of_nat k - 1)).

Fixpoint int_len_from (fuel k : nat) (v : Z) : nat :=
  match fuel with
  | O => k
  | S fuel => if fits k v then k else int_len_from fuel (S k) v
  end.
(** The least number of bytes for [v] (9 are enough for 64-bit values). *)
Definition int_len (v : Z) : nat := int_len_from 9 1 v.
(** The contents of the DER INTEGER [v]. *)
Definition int_bytes (v : Z) : list Z := be_bytes (int_len v) (v mod 256 ^ Z.of_nat (int_len v)).

Lemma fits_iff k v : fits k v = true ↔ - 2 ^ (8 * Z.of_nat k - 1) <= v < 2 ^ (8 * Z.of_nat k - 1).
Proof. unfold fits. rewrite andb_true_iff, Z.leb_le, Z.ltb_lt. done. Qed.

Lemma fits_mono k k' v : (1 ≤ k ≤ k')%nat → fits k v = true → fits k' v = true.
Proof.
  rewrite !fits_iff. intros Hk Hv.
  assert (2 ^ (8 * Z.of_nat k - 1) <= 2 ^ (8 * Z.of_nat k' - 1)) by (apply Z.pow_le_mono_r; lia). lia.
Qed.

Lemma int_len_from_least fuel k n v :
  (1 ≤ k ≤ n)%nat → (n < k + fuel)%nat → fits n v = true →
  (∀ m, (k ≤ m < n)%nat → fits m v = false) → int_len_from fuel k v = n.
Proof.
  revert k. induction fuel as [|f IH]; intros k Hk Hn Hf Hm; [lia|]. cbn [int_len_from].
  destruct (decide (k = n)) as [->|]; [by rewrite Hf|].
  rewrite Hm by lia. apply IH; try lia; [done|]. intros m ?. apply Hm. lia.
Qed.

Lemma int_len_unique n v :
  (1 ≤ n ≤ 9)%nat → fits n v = true → (n = 1%nat ∨ fits (n - 1) v = false) → int_len v = n.
Proof.
  intros Hn Hf Hm. apply int_len_from_least; try lia; [done|]. intros m ?.
  destruct (fits m v) eqn:E; [|done]. destruct Hm as [->|Hm]; [lia|].
  rewrite (fits_mono m (n - 1)) in Hm; [done|lia|done].
Qed.

Lemma int_len_from_spec fuel k n v :
  (1 ≤ k ≤ n)%nat → (n < k + fuel)%nat → fits n v = true →
  (k ≤ int_len_from fuel k v ≤ n)%nat ∧ fits (int_len_from fuel k v) v = true ∧
  (int_len_from fuel k v = k ∨ fits (int_len_from fuel k v - 1) v = false).
Proof.
  revert k. induction fuel as [|f IH]; intros k Hk Hn Hf; [lia|]. cbn [int_len_from].
  destruct (fits k v) eqn:E; [split_and!; solve [lia | done | by left]|].
  destruct (decide (k = n)) as [->|]; [congruence|].
  destruct (IH (S k)) as (H1 & H2 & H3); [lia..|done|]. split_and!; [lia..|done|].
  right. destruct H3 as [->|]; [by rewrite Nat.sub_1_r|done].
Qed.

(** 64-bit values, signed or unsigned, take at most nine bytes. *)
Lemma int_len_spec n v : (1 ≤ n ≤ 9)%nat → fits n v = true →
  (1 ≤ int_len v ≤ n)%nat ∧ fits (int_len v) v = true ∧
  (int_len v = 1%nat ∨ fits (int_len v - 1) v = false).
Proof. intros. apply int_len_from_spec; done || lia. Qed.

Lemma pow2_8k1 k : 2 ^ (8 * Z.of_nat (S k) - 1) = 128 * 256 ^ Z.of_nat k.
Proof.
  replace (8 * Z.of_nat (S k) - 1) with (7 + 8 * Z.of_nat k) by lia.
  rewrite Z.pow_add_r, Z.pow_mul_r by lia. done.
Qed.

Lemma twos_cons b l : is_byte b → bytes_ok l →
  twos_complement (b :: l) = (if 128 <=? b then b - 256 else b) * 256 ^ Z.of_nat (length l) + be_val l
  ∧ 0 <= be_val l < 256 ^ Z.of_nat (length l).
Proof.
  intros Hb Hl. split; [|by apply val_be_range; lia || done].
  unfold twos_complement, CBS_len. cbn [hd length]. rewrite val_be_cons by lia.
  rewrite Nat2Z.inj_succ, Z.pow_succ_r by lia. destruct (128 <=? b); lia.
Qed.

Lemma twos_fits l : bytes_ok l → l ≠ [] → fits (length l) (twos_complement l) = true.
Proof.
  intros Hl Hne. destruct l as [|b l]; [done|]. apply Forall_cons in Hl as [Hb Hl].
  destruct (twos_cons b l Hb Hl) as [-> ?]. apply fits_iff. cbn [length]. rewrite pow2_8k1.
  destruct (Z.leb_spec 128 b); nia.
Qed.

Lemma high_bit_zero b : is_byte b → (b .& 0x80 =? 0) = (b <? 128).
Proof. apply length_octet. Qed.

(** The minimality test of the first nine bits. *)
Lemma twos_fits_pred b1 b2 l :
  is_byte b1 → is_byte b2 → bytes_ok l →
  fits (length (b2 :: l)) (twos_complement (b1 :: b2 :: l)) =
    ((b1 =? 0) && (b2 <? 128)) || ((b1 =? 255) && (128 <=? b2)).
Proof.
  intros H1 H2 Hl. destruct (twos_cons b1 (b2 :: l)) as [-> _]; [done|by apply Forall_cons|].
  rewrite val_be_cons by lia. pose proof (val_be_range 256 ltac:(lia) l Hl).
  pose proof (pow_B_pos 256 ltac:(lia) (length l)).
  apply Bool.eq_iff_eq_true. rewrite fits_iff. cbn [length]. rewrite pow2_8k1.
  rewrite Nat2Z.inj_succ, Z.pow_succ_r by lia.
  rewrite orb_true_iff, !andb_true_iff, !Z.eqb_eq, Z.ltb_lt, Z.leb_le.
  set (P := 256 ^ Z.of_nat (length l)) in *. set (V := be_val l) in *. clearbody P V.
  destruct (Z.leb_spec 128 b1).
  - split.
    + intros [Hlo Hhi]. right. assert (-128 * P < (b1 - 256) * (256 * P) + (b2 + 1) * P) by lia.
      assert (-128 < (b1 - 256) * 256 + b2 + 1) by nia. lia.
    + intros [[-> ?]|[-> ?]]; [lia|]. nia.
  - split.
    + intros [Hlo Hhi]. left. assert (b1 * (256 * P) + b2 * P < 128 * P) by lia.
      assert (b1 * 256 + b2 < 128) by nia. lia.
    + intros [[-> ?]|[-> ?]]; [|lia]. nia.
Qed.

Lemma valid_integer_inv l neg :
  bytes_ok l → CBS_is_valid_asn1_integer l = Some neg →
  l ≠ [] ∧ neg = (twos_complement l <? 0) ∧
  (length l = 1%nat ∨ fits (length l - 1) (twos_complement l) = false).
Proof.
  intros Hb. destruct l as [|b1 l]; [done|]. unfold CBS_is_valid_asn1_integer.
  rewrite CBS_get_u8_cons. apply Forall_cons in Hb as [H1 Hl]. rewrite high_bit_zero by done.
  assert (Hneg : negb (b1 <? 128) = (twos_complement (b1 :: l) <? 0)).
  { destruct (twos_cons b1 l H1 Hl) as [-> ?].
    destruct (Z.ltb_spec b1 128), (Z.leb_spec 128 b1), (Z.ltb_spec ((if true then b1 - 256 else b1) * 256 ^ Z.of_nat (length l) + be_val l) 0); cbn [negb]; try lia; symmetry; rewrite ?Z.ltb_lt, ?Z.ltb_ge; nia. }
  destruct l as [|b2 l].
  - rewrite CBS_get_u8_nil. intros [= <-]. split_and!; [done|exact Hneg|by left].
  - rewrite CBS_get_u8_cons. apply Forall_cons in Hl as [H2 Hl]. rewrite high_bit_zero by done.
    destruct (_ || _) eqn:E; [done|]. intros [= <-]. split_and!; [done|exact Hneg|right].
    replace (length (b1 :: b2 :: l) - 1)%nat with (length (b2 :: l)) by (cbn; lia).
    rewrite twos_fits_pred by done. by rewrite Z.leb_antisym.
Qed.

Lemma twos_of_mod l : bytes_ok l → l ≠ [] → be_val l = twos_complement l mod 256 ^ Z.of_nat (length l).
Proof.
  intros Hl Hne. pose proof (val_be_range 256 ltac:(lia) l Hl). unfold twos_complement, CBS_len.
  destruct (128 <=? hd 0 l).
  - apply (Z.mod_unique _ _ (-1)); lia.
  - rewrite Z.sub_0_r, Z.mod_small; lia.
Qed.

Lemma valid_integer_bytes l neg :
  bytes_ok l → (length l ≤ 9)%nat → CBS_is_valid_asn1_integer l = Some neg →
  l = int_bytes (twos_complement l) ∧ neg = (twos_complement l <? 0).
Proof.
  intros Hb Hn H. destruct (valid_integer_inv l neg Hb H) as (Hne & -> & Hmin). split; [|done].
  assert (int_len (twos_complement l) = length l) as Hlen.
  { apply int_len_unique; [destruct l; [done|cbn in *; lia]|by apply twos_fits|].
    destruct Hmin as [->|]; [by left|by right]. }
  unfold int_bytes. rewrite Hlen, <- twos_of_mod by done. symmetry. by apply digits_val_be; lia || done.
Qed.

Lemma twos_of_digits k v :
  (1 ≤ k)%nat → fits k v = true → twos_complement (be_bytes k (v mod 256 ^ Z.of_nat k)) = v.
Proof.
  intros Hk Hf. set (l := be_bytes k (v mod 256 ^ Z.of_nat k)).
  pose proof (pow_B_pos 256 ltac:(lia) k) as HP.
  assert (Hb : bytes_ok l) by (apply (digits_be_ok 256); lia).
  assert (Hl : length l = k) by apply length_digits_be.
  assert (Hne : l ≠ []) by (intros E; rewrite E in Hl; cbn in Hl; lia).
  pose proof (twos_of_mod l Hb Hne) as Hv. pose proof (twos_fits l Hb Hne) as Hft.
  rewrite Hl in *. unfold l in Hv at 1. rewrite val_digits_be_small in Hv by (lia || apply Z.mod_pos_bound; lia).
  apply fits_iff in Hf, Hft. destruct k as [|k]; [lia|]. rewrite pow2_8k1 in Hf, Hft.
  rewrite Nat2Z.inj_succ, Z.pow_succ_r in * by lia.
  set (P := 256 ^ Z.of_nat k) in *. set (t := twos_complement l) in *. clearbody P t.
  rewrite (Z.mod_eq v), (Z.mod_eq t) in Hv by lia.
  generalize dependent (v / (256 * P)). generalize dependent (t / (256 * P)). intros y x Hv.
  assert (Hd : v - t = 256 * P * (x - y)) by (rewrite Z.mul_sub_distr_l; clear - Hv; lia).
  assert (x - y = 0) by nia. nia.
Qed.

Lemma int_bytes_spec n v : (1 ≤ n ≤ 9)%nat → fits n v = true →
  let l := int_bytes v in
  bytes_ok l ∧ (1 ≤ length l ≤ n)%nat ∧ twos_complement l = v ∧
  CBS_is_valid_asn1_integer l = Some (v <? 0).
Proof.
  intros Hn Hf. cbn zeta. destruct (int_len_spec n v Hn Hf) as (Hl & Hfl & Hmin).
  assert (Hb : bytes_ok (int_bytes v)) by (apply (digits_be_ok 256); lia).
  assert (Hlen : length (int_bytes v) = int_len v) by apply length_digits_be.
  assert (Ht : twos_complement (int_bytes v) = v) by (apply twos_of_digits; lia || done).
  split_and!; [done|lia|lia|done|].
  destruct (int_bytes v) as [|b1 l] eqn:E; [cbn [length] in Hlen; lia|].
  apply Forall_cons in Hb as [H1 Hb]. unfold CBS_is_valid_asn1_integer. rewrite CBS_get_u8_cons.
  rewrite high_bit_zero by done.
  assert (Hneg : negb (b1 <? 128) = (v <? 0)).
  { rewrite <- Ht. destruct (twos_cons b1 l H1 Hb) as [-> ?].
    destruct (Z.ltb_spec b1 128), (Z.leb_spec 128 b1); try lia; symmetry; cbn [negb];
      rewrite ?Z.ltb_lt, ?Z.ltb_ge; nia. }
  rewrite Hneg. destruct l as [|b2 l]; [by rewrite CBS_get_u8_nil|]. rewrite CBS_get_u8_cons.
  apply Forall_cons in Hb as [H2 Hb]. rewrite high_bit_zero by done.
  destruct Hmin as [Hone|Hmin]; [cbn [length] in Hlen; lia|].
  replace (int_len v - 1)%nat with (length (b2 :: l)) in Hmin by (cbn [length] in *; lia).
  rewrite <- Ht, twos_fits_pred, Z.leb_antisym in Hmin by done. by rewrite Hmin.
Qed.

Lemma asn1_uint64_loop_spec l out :
  bytes_ok l → in_range 64 out →
  asn1_uint64_loop out l =
    (let v := out * 256 ^ Z.of_nat (length l) + be_val l in
     if v <? 2 ^ 64 then Some v else None).
Proof.
  revert out. induction l as [|b l IH]; intros out Hb Ho.
  - cbn. rewrite Z.mul_1_r, Z.add_0_r. by destruct (Z.ltb_spec out (2 ^ 64)); [|lia].
  - apply Forall_cons in Hb as [Hb Hl]. cbn [asn1_uint64_loop]. cbn zeta.
    pose proof (val_be_range 256 ltac:(lia) l Hl). pose proof (pow_B_pos 256 ltac:(lia) (length l)).
    rewrite val_be_cons by lia. cbn [length]. rewrite Nat2Z.inj_succ, Z.pow_succ_r by lia.
    rewrite Z.shiftr_div_pow2 by lia.
    destruct (Z.eqb_spec (out / 2 ^ 56) 0) as [E|E]; cbn [negb].
    + assert (out < 2 ^ 56) by (pose proof (Z.div_mod out (2 ^ 56)); pose proof (Z.mod_pos_bound out (2 ^ 56)); lia).
      rewrite u64_shift_or, IH by (done || lia). cbn zeta.
      replace ((out * 256 + b) * 256 ^ Z.of_nat (length l) + be_val l) with
        (out * (256 * 256 ^ Z.of_nat (length l)) + (b * 256 ^ Z.of_nat (length l) + be_val l)) by lia. done.
    + assert (2 ^ 56 <= out) by (destruct (Z.lt_ge_cases out (2 ^ 56)); [rewrite Z.div_small in E by lia|]; lia).
      destruct (Z.ltb_spec (out * (256 * 256 ^ Z.of_nat (length l)) + (b * 256 ^ Z.of_nat (length l) + be_val l)) (2 ^ 64)); [|done].
      assert (2 ^ 64 <= out * 256 * 256 ^ Z.of_nat (length l)) by nia. nia.
Qed.

Lemma INTEGER_valid : valid_tag CBS_ASN1_INTEGER.
Proof. by vm_compute. Qed.
Lemma OCTETSTRING_valid : valid_tag CBS_ASN1_OCTETSTRING.
Proof. by vm_compute. Qed.
Lemma BOOLEAN_valid : valid_tag CBS_ASN1_BOOLEAN.
Proof. by vm_compute. Qed.
#[export] Hint Resolve INTEGER_valid OCTETSTRING_valid BOOLEAN_valid : words.

(** Reading an unsigned INTEGER.  [CBS_get_asn1_uint64] accepts exactly
    the DER INTEGERs of the values of a [uint64_t], in their unique minimal
    two's complement form, and returns the value: negative numbers, padded
    encodings and values of 2^64 or more are refused. *)
Theorem CBS_get_asn1_uint64_iff (cbs : CBS) (v : Z) (rest : CBS) (Hb : bytes_ok cbs) :
  CBS_get_asn1_uint64 cbs = (Some v, rest) ↔
  in_range 64 v ∧ cbs = der_element CBS_ASN1_INTEGER (int_bytes v) ++ rest.
Proof.
  unfold CBS_get_asn1_uint64, CBS_data. split.
  - intros H. apply M_bind_inv in H as (l & c & Hg & H).
    apply get_asn1_inv in Hg as (_ & _ & -> & Hl & _); [|done].
    apply M_bind_inv in H as (? & ? & Hr & H). apply require_inv in Hr as [Hu ->].
    unfold CBS_is_unsigned_asn1_integer in Hu.
    destruct (CBS_is_valid_asn1_integer l) as [neg|] eqn:Ev; [|done].
    destruct (valid_integer_inv l neg Hl Ev) as (Hne & -> & Hmin).
    apply negb_true_iff, Z.ltb_ge in Hu.
    rewrite asn1_uint64_loop_spec in H by (done || lia). cbn zeta in H. rewrite Z.mul_0_l, Z.add_0_l in H.
    destruct (Z.ltb_spec (be_val l) (2 ^ 64)) as [Hlt|]; [|done]. injection H as <- <-.
    assert (Ht : twos_complement l = be_val l).
    { destruct l as [|b l]; [done|]. unfold twos_complement, CBS_len in *. pose proof (val_be_range 256 ltac:(lia) _ Hl).
      destruct (128 <=? _); lia. }
    assert (length l ≤ 9)%nat as Hlen.
    { destruct Hmin as [->|Hf]; [lia|]. destruct (le_lt_dec (length l) 9) as [|Hlt9]; [done|]. exfalso.
      rewrite (fits_mono 9) in Hf; [done|lia|]. apply fits_iff. rewrite Ht.
      pose proof (val_be_range 256 ltac:(lia) _ Hl). lia. }
    destruct (valid_integer_bytes l _ Hl Hlen Ev) as [El _]. rewrite Ht in El.
    pose proof (val_be_range 256 ltac:(lia) _ Hl). split; [lia|]. by rewrite <- El.
  - intros [Hv ->]. destruct (int_bytes_spec 9 v) as (Hok & Hlen & Ht & Hvalid); [lia|by apply fits_iff; lia|].
    erewrite M_bind_Some by (apply get_asn1_der; [apply INTEGER_valid|unfold CBS_len; lia]).
    unfold CBS_is_unsigned_asn1_integer. rewrite Hvalid. destruct (Z.ltb_spec v 0); [lia|].
    rewrite asn1_uint64_loop_spec by (done || lia). run_step. rewrite Z.mul_0_l, Z.add_0_l.
    assert (be_val (int_bytes v) = v) as ->; [|by destruct (Z.ltb_spec v (2 ^ 64)); [|lia]].
    unfold twos_complement in Ht. destruct (128 <=? _); [|lia].
    pose proof (val_be_range 256 ltac:(lia) _ Hok). unfold CBS_len in Ht. lia.
Qed.

(** ** Byte swaps *)
Lemma be_val4 a b c d : is_byte a → is_byte b → is_byte c → is_byte d →
  be_val [a; b; c; d] = ((a ≪ 8 .| b) ≪ 8 .| c) ≪ 8 .| d ∧ in_range 32 (be_val [a; b; c; d]).
Proof. intros. rewrite !lor_shl8 by done. unfold val_be. cbn [foldl]. lia. Qed.

Lemma bswap4_bytes a b c d :
  is_byte a → is_byte b → is_byte c → is_byte d →
  CRYPTO_bswap4 (be_val [a; b; c; d]) = be_val [d; c; b; a].
Proof.
  intros. destruct (be_val4 a b c d) as [-> Ha]; [done..|].
  destruct (be_val4 d c b a) as [E Hd]; [done..|].
  unfold CRYPTO_bswap4. apply Z.bits_inj'. intros i Hi. destruct (decide (i < 32)).
  - rewrite E. autorewrite with bits. bit_enum i 32%nat.
    all: bit_lit; cbn -[Z.testbit]; try btauto.
  - rewrite !(testbit_range 32) by (try apply wrap_range; lia). done.
Qed.

Lemma bswap2_bytes a b : is_byte a → is_byte b → CRYPTO_bswap2 (be_val [a; b]) = be_val [b; a].
Proof.
  intros. unfold val_be. cbn [foldl]. rewrite !Z.mul_0_l, !Z.add_0_l.
  unfold CRYPTO_bswap2, wrap.
  rewrite Z.shiftr_div_pow2, Z.shiftl_mul_pow2 by lia. change (2 ^ 8) with 256.
  rewrite Z.div_add_l, Z.div_small, Z.add_0_r by lia.
  replace ((a * 256 + b) * 256) with ((a * 256 + b) * 2 ^ 8) by lia.
  rewrite Z.lor_comm, lor_mul_add by lia. symmetry. apply (Z.mod_unique _ _ a); lia.
Qed.

Lemma bswap8_bytes a b c d e f g h :
  is_byte a → is_byte b → is_byte c → is_byte d → is_byte e → is_byte f → is_byte g → is_byte h →
  CRYPTO_bswap8 (be_val [a; b; c; d; e; f; g; h]) = be_val [h; g; f; e; d; c; b; a].
Proof.
  intros. change [a; b; c; d; e; f; g; h] with ([a; b; c; d] ++ [e; f; g; h]).
  change [h; g; f; e; d; c; b; a] with ([h; g; f; e] ++ [d; c; b; a]).
  rewrite !val_be_app by lia. cbn [length]. change (256 ^ Z.of_nat 4) with (2 ^ 32).
  destruct (be_val4 a b c d) as [_ R1]; [done..|]. destruct (be_val4 e f g h) as [_ R2]; [done..|].
  destruct (be_val4 h g f e) as [_ R3]; [done..|]. destruct (be_val4 d c b a) as [_ R4]; [done..|].
  unfold CRYPTO_bswap8. rewrite Z.shiftr_div_pow2, Z.div_add_l, Z.div_small, Z.add_0_r by lia.
  rewrite (wrap_small 32 (be_val [a; b; c; d])) by lia.
  replace (u32 (be_val [a; b; c; d] * 2 ^ 32 + be_val [e; f; g; h])) with (be_val [e; f; g; h])
    by (apply (Z.mod_unique _ _ (be_val [a; b; c; d])); lia).
  rewrite !bswap4_bytes by done.
  rewrite wrap_small by (rewrite Z.shiftl_mul_pow2; lia).
  by rewrite Z.lor_comm, lor_shiftl_add by lia.
Qed.

Ltac bytes_of_length :=
  repeat match goal with
  | H : length ?l = S _ |- _ => destruct l; [discriminate H|cbn [length] in H; injection H as H]
  | H : length ?l = O |- _ => destruct l; [clear H|discriminate H]
  | H : Forall _ (_ :: _) |- _ => apply Forall_cons in H as [? H]
  | H : Forall _ [] |- _ => clear H
  end.

Lemma load_u64_be_val l : bytes_ok l → length l = 8%nat → CRYPTO_load_u64_be l = be_val l.
Proof.
  unfold bytes_ok. intros Hb Hl. bytes_of_length. unfold CRYPTO_load_u64_be.
  rewrite <- bswap8_bytes by done. f_equal. unfold load_u64_le, val_be. cbn [foldr foldl].
  rewrite Z.shiftl_0_l, Z.lor_0_r.
  repeat (rewrite (Z.lor_comm _ (_ ≪ 8)), lor_shl8 by done). lia.
Qed.

Lemma bytes2_swap v : in_range 16 v → CRYPTO_bswap2 (be_val (rev (be_bytes 2 v))) = v.
Proof.
  intros Hv. pose proof (digits_be_ok 256 ltac:(lia) 2 v) as Hb.
  pose proof (val_digits_be_small 256 ltac:(lia) 2 v ltac:(lia)) as E. revert Hb E.
  generalize (length_digits_be 256 2 v). generalize (be_bytes 2 v). intros l Hl Hb <-. bytes_of_length.
  cbn [rev app]. by apply bswap2_bytes.
Qed.

Lemma bytes4_swap v : in_range 32 v → CRYPTO_bswap4 (be_val (rev (be_bytes 4 v))) = v.
Proof.
  intros Hv. pose proof (digits_be_ok 256 ltac:(lia) 4 v) as Hb.
  pose proof (val_digits_be_small 256 ltac:(lia) 4 v ltac:(lia)) as E. revert Hb E.
  generalize (length_digits_be 256 4 v). generalize (be_bytes 4 v). intros l Hl Hb <-. bytes_of_length.
  cbn [rev app]. by apply bswap4_bytes.
Qed.

Lemma bytes8_swap v : in_range 64 v → CRYPTO_bswap8 (be_val (rev (be_bytes 8 v))) = v.
Proof.
  intros Hv. pose proof (digits_be_ok 256 ltac:(lia) 8 v) as Hb.
  pose proof (val_digits_be_small 256 ltac:(lia) 8 v ltac:(lia)) as E. revert Hb E.
  generalize (length_digits_be 256 8 v). generalize (be_bytes 8 v). intros l Hl Hb <-. bytes_of_length.
  cbn [rev app]. by apply bswap8_bytes.
Qed.

Lemma bytes_swap2 v : in_range 16 v → be_bytes 2 (CRYPTO_bswap2 v) = rev (be_bytes 2 v).
Proof.
  intros Hv. pose proof (digits_be_ok 256 ltac:(lia) 2 v) as Hb. rewrite <- (val_digits_be_small 256 ltac:(lia) 2 v) at 1 by done.
  pose proof (length_digits_be 256 2 v) as Hl. destruct (be_bytes 2 v) as [|a [|b [|? ?]]]; try done.
  do 2 (apply Forall_cons in Hb as [? Hb]). rewrite bswap2_bytes by done.
  apply (digits_val_be 256 ltac:(lia) [b; a]). repeat (apply Forall_cons_2; [assumption|]). constructor.
Qed.

Lemma bytes_swap4 v : in_range 32 v → be_bytes 4 (CRYPTO_bswap4 v) = rev (be_bytes 4 v).
Proof.
  intros Hv. pose proof (digits_be_ok 256 ltac:(lia) 4 v) as Hb. rewrite <- (val_digits_be_small 256 ltac:(lia) 4 v) at 1 by done.
  pose proof (length_digits_be 256 4 v) as Hl. destruct (be_bytes 4 v) as [|a [|b [|c [|d [|? ?]]]]]; try done.
  do 4 (apply Forall_cons in Hb as [? Hb]). rewrite bswap4_bytes by done.
  apply (digits_val_be 256 ltac:(lia) [d; c; b; a]). repeat (apply Forall_cons_2; [assumption|]). constructor.
Qed.

Lemma bytes_swap8 v : in_range 64 v → be_bytes 8 (CRYPTO_bswap8 v) = rev (be_bytes 8 v).
Proof.
  intros Hv. pose proof (digits_be_ok 256 ltac:(lia) 8 v) as Hb. rewrite <- (val_digits_be_small 256 ltac:(lia) 8 v) at 1 by done.
  pose proof (length_digits_be 256 8 v) as Hl.
  destruct (be_bytes 8 v) as [|a [|b [|c [|d [|e [|f [|g [|h [|? ?]]]]]]]]]; try done.
  do 8 (apply Forall_cons in Hb as [? Hb]). rewrite bswap8_bytes by done.
  apply (digits_val_be 256 ltac:(lia) [h; g; f; e; d; c; b; a]). repeat (apply Forall_cons_2; [assumption|]). constructor.
Qed.

Lemma get_u_be_bytes n v rest : (n ≤ 8)%nat → 0 <= v < 256 ^ Z.of_nat n →
  cbs_get_u (Z.of_nat n) (be_bytes n v ++ rest) = (Some v, rest).
Proof.
  intros Hn Hv. rewrite <- (val_digits_be_small 256 ltac:(lia) n v Hv) at 2.
  rewrite <- (length_digits_be 256 n v) at 1. apply cbs_get_u_app.
  - apply (digits_be_ok 256). lia.
  - by rewrite length_digits_be.
Qed.

Lemma get_u_le_bytes n v rest : (n ≤ 8)%nat →
  cbs_get_u (Z.of_nat n) (rev (be_bytes n v) ++ rest) = (Some (be_val (rev (be_bytes n v))), rest)
  ∧ 0 <= be_val (rev (be_bytes n v)) < 256 ^ Z.of_nat n.
Proof.
  intros Hn. pose proof (digits_be_ok 256 ltac:(lia) n v) as Hb.
  assert (Hr : bytes_ok (rev (be_bytes n v))) by (by apply Forall_rev).
  assert (Hl : length (rev (be_bytes n v)) = n) by (by rewrite length_rev, length_digits_be).
  split.
  - rewrite <- Hl at 1. by apply cbs_get_u_app; [|lia].
  - rewrite <- Hl at 3. by apply val_be_range; [lia|].
Qed.

(** Fixed-width reads.  Every getter returns the integer whose big-endian
    (or, for the [le] variants, little-endian) bytes start the input, consumes
    exactly those bytes, and on a short input fails without moving. *)
Theorem CBS_get_uint_roundtrip (v : Z) (rest : CBS) :
  (in_range 8 v → CBS_get_u8 (be_bytes 1 v ++ rest) = (Some v, rest)) ∧
  (in_range 16 v → CBS_get_u16 (be_bytes 2 v ++ rest) = (Some v, rest) ∧
                   CBS_get_u16le (rev (be_bytes 2 v) ++ rest) = (Some v, rest)) ∧
  (in_range 24 v → CBS_get_u24 (be_bytes 3 v ++ rest) = (Some v, rest)) ∧
  (in_range 32 v → CBS_get_u32 (be_bytes 4 v ++ rest) = (Some v, rest) ∧
                   CBS_get_u32le (rev (be_bytes 4 v) ++ rest) = (Some v, rest)) ∧
  (in_range 64 v → CBS_get_u64 (be_bytes 8 v ++ rest) = (Some v, rest) ∧
                   CBS_get_u64le (rev (be_bytes 8 v) ++ rest) = (Some v, rest)) ∧
  (∀ n cbs, CBS_len cbs < n → cbs_get_u n cbs = (None, cbs)).
Proof.
  split_and!; intros.
  - cbn [digits_be app]. rewrite Z.mod_small by lia. apply CBS_get_u8_cons.
  - unfold CBS_get_u16le, CBS_get_u16. split.
    + erewrite M_bind_Some by (apply (get_u_be_bytes 2); lia). run_step. by rewrite wrap_small by lia.
    + destruct (get_u_le_bytes 2 v rest) as [E ?]; [lia|].
      unfold mbind, M_bind. change 2 with (Z.of_nat 2) at 1. rewrite E. run_step.
      by rewrite wrap_small, bytes2_swap by lia.
  - unfold CBS_get_u24. erewrite M_bind_Some by (apply (get_u_be_bytes 3); lia). run_step.
    by rewrite wrap_small by lia.
  - unfold CBS_get_u32le, CBS_get_u32. split.
    + erewrite M_bind_Some by (apply (get_u_be_bytes 4); lia). run_step. by rewrite wrap_small by lia.
    + destruct (get_u_le_bytes 4 v rest) as [E ?]; [lia|].
      unfold mbind, M_bind. change 4 with (Z.of_nat 4) at 1. rewrite E. run_step.
      by rewrite wrap_small, bytes4_swap by lia.
  - unfold CBS_get_u64le, CBS_get_u64. split.
    + apply (get_u_be_bytes 8); lia.
    + destruct (get_u_le_bytes 8 v rest) as [E ?]; [lia|].
      change 8 with (Z.of_nat 8) at 1. unfold mbind, M_bind. rewrite E. run_step.
      by rewrite bytes8_swap by lia.
  - unfold cbs_get_u. erewrite M_bind_None; [done|]. by apply cbs_get_short.
Qed.

Lemma be_val_replicate_ff n l :
  be_val (replicate n 255 ++ l) = (256 ^ Z.of_nat n - 1) * 256 ^ CBS_len l + be_val l.
Proof.
  rewrite val_be_app by lia. f_equal. f_equal.
  induction n as [|n IH]; [done|]. cbn [replicate]. rewrite val_be_cons, IH, length_replicate by lia.
  rewrite Nat2Z.inj_succ, Z.pow_succ_r by lia. lia.
Qed.

Lemma be_val_replicate_0 n l : be_val (replicate n 0 ++ l) = be_val l.
Proof.
  rewrite val_be_app by lia. replace (be_val (replicate n 0)) with 0; [lia|].
  induction n as [|n IH]; [done|]. cbn [replicate]. rewrite val_be_cons, <- IH by lia. lia.
Qed.

(** Sign extension to eight bytes and the load give the two's complement value. *)
Lemma sign_extended_value l :
  bytes_ok l → l ≠ [] → (length l ≤ 8)%nat →
  int64_of (CRYPTO_load_u64_be
    (take (Z.to_nat (8 - CBS_len l)) (replicate 8 (if twos_complement l <? 0 then 0xff else 0)) ++ l))
  = twos_complement l.
Proof.
  intros Hl Hne Hlen. pose proof (twos_fits l Hl Hne) as Hf. apply fits_iff in Hf.
  pose proof (val_be_range 256 ltac:(lia) l Hl).
  rewrite take_replicate, Nat.min_l by (unfold CBS_len; lia).
  set (n := Z.to_nat (8 - CBS_len l)).
  assert (Hn : 256 ^ Z.of_nat n * 256 ^ CBS_len l = 2 ^ 64).
  { rewrite <- Z.pow_add_r by (unfold CBS_len; lia). subst n.
    replace (Z.of_nat (Z.to_nat (8 - CBS_len l)) + CBS_len l) with 8 by (unfold CBS_len; lia). done. }
  rewrite load_u64_be_val.
  2: { apply Forall_app; split; [|done]. apply Forall_replicate. destruct (_ <? 0); lia. }
  2: { rewrite length_app, length_replicate. subst n. unfold CBS_len. lia. }
  assert (2 ^ (8 * Z.of_nat (length l) - 1) <= 2 ^ 63) by (apply Z.pow_le_mono_r; lia).
  unfold twos_complement in *. unfold CBS_len in *.
  destruct (128 <=? hd 0 l).
  - destruct (Z.ltb_spec (be_val l - 256 ^ Z.of_nat (length l)) 0); [|lia].
    rewrite be_val_replicate_ff. unfold int64_of, CBS_len.
    match goal with |- context [?x <? 2 ^ 63] => destruct (Z.ltb_spec x (2 ^ 63)) end; lia.
  - destruct (Z.ltb_spec (be_val l - 0) 0); [lia|]. rewrite be_val_replicate_0. unfold int64_of.
    destruct (Z.ltb_spec (be_val l) (2 ^ 63)); lia.
Qed.

(** Reading a signed INTEGER.  [CBS_get_asn1_int64] accepts exactly the
    minimal DER INTEGERs of the values of an [int64_t]; the sign extension
    through an 8-byte buffer and a byte-swapped load recovers the value. *)
Theorem CBS_get_asn1_int64_iff (cbs : CBS) (v : Z) (rest : CBS) (Hb : bytes_ok cbs) :
  CBS_get_asn1_int64 cbs = (Some v, rest) ↔
  - 2 ^ 63 <= v < 2 ^ 63 ∧ cbs = der_element CBS_ASN1_INTEGER (int_bytes v) ++ rest.
Proof.
  unfold CBS_get_asn1_int64, CBS_data. split.
  - intros H. apply M_bind_inv in H as (l & c & Hg & H).
    apply get_asn1_inv in Hg as (_ & _ & -> & Hl & _); [|done].
    destruct (CBS_is_valid_asn1_integer l) as [neg|] eqn:Ev; [|done].
    destruct (valid_integer_inv l neg Hl Ev) as (Hne & -> & _).
    apply M_bind_inv in H as (? & ? & Hr & H). apply require_inv in Hr as [Hlen ->].
    apply negb_true_iff in Hlen. rewrite Z.gtb_ltb, Z.ltb_ge in Hlen.
    assert (length l ≤ 8)%nat by (unfold CBS_len in Hlen; lia).
    rewrite sign_extended_value in H by done. injection H as <- <-.
    destruct (valid_integer_bytes l _ Hl ltac:(lia) Ev) as [El _]. rewrite <- El. split; [|done].
    pose proof (twos_fits l Hl Hne) as Hf. apply (fits_mono _ 8) in Hf; [by apply fits_iff in Hf|].
    destruct l; [done|cbn [length] in *; lia].
  - intros [Hv ->]. destruct (int_bytes_spec 8 v) as (Hok & Hlen & Ht & Hvalid); [lia|by apply fits_iff|].
    erewrite M_bind_Some by (apply get_asn1_der; [apply INTEGER_valid|unfold CBS_len; lia]).
    rewrite Hvalid. erewrite M_bind_Some.
    2: { apply require_true. apply negb_true_iff. rewrite Z.gtb_ltb. apply Z.ltb_ge. unfold CBS_len. lia. }
    assert (Hne : int_bytes v ≠ []) by (intros E; rewrite E in Hlen; cbn [length] in Hlen; lia).
    pose proof (sign_extended_value (int_bytes v) Hok Hne ltac:(lia)) as E. rewrite Ht in E.
    by rewrite E.
Qed.

(** ** Witnesses *)
Lemma CBS_get_any_asn1_element_witness :
  CBS_get_any_asn1_element [0x30; 0x03; 0x02; 0x01; 0x05; 0xff] =
    (Some (mkElement [0x30; 0x03; 0x02; 0x01; 0x05] 0x20000010 2 false false), [0xff]).
Proof.
  apply CBS_get_any_asn1_element_iff; [by apply (bool_decide_unpack _)|].
  exists 0x20000010, [0x02; 0x01; 0x05]. split_and!; by vm_compute.
Defined.

Lemma CBS_get_asn1_witness : CBS_get_asn1 CBS_ASN1_OCTETSTRING [0x04; 0x02; 0xaa; 0xbb; 0xcc] = (Some [0xaa; 0xbb], [0xcc]).
Proof.
  apply CBS_get_asn1_iff; [by apply (bool_decide_unpack _)|]. split_and!; by vm_compute.
Defined.

Lemma CBS_get_asn1_uint64_witness : CBS_get_asn1_uint64 [0x02; 0x02; 0x00; 0x80; 0x99] = (Some 128, [0x99]).
Proof.
  apply CBS_get_asn1_uint64_iff; [by apply (bool_decide_unpack _)|]. split; [lia|by vm_compute].
Defined.

Lemma CBS_get_asn1_int64_witness : CBS_get_asn1_int64 [0x02; 0x02; 0xff; 0x7f; 0x99] = (Some (-129), [0x99]).
Proof.
  apply CBS_get_asn1_int64_iff; [by apply (bool_decide_unpack _)|]. split; [lia|by vm_compute].
Defined.

Lemma CBS_get_uint_witness : CBS_get_u16le [0x34; 0x12; 0x56] = (Some 0x1234, [0x56]).
Proof. exact (proj2 (proj1 (proj2 (CBS_get_uint_roundtrip 0x1234 [0x56])) ltac:(lia))). Defined.
