(* ===== verification/CString.v ===== *)
(** The string helpers of [crypto/mem.c], and the CBS operations that allocate.

    A C string is a list of [char] values in which the code must meet a NUL
    before the end; reading or writing past the end is [None]. *)
From S2P Require Import Prelude Radix Mem Cbs.

(** ** Constant-time comparison and hashing *)
Definition kPrime : Z := 16777619.
Definition kOffsetBasis : Z := 2166136261.
Definition OPENSSL_hash32 (data : list Z) : Z :=
  foldl (λ h b, (h .^ b) ⊠[32] kPrime) kOffsetBasis data.

Lemma memcmp_zero a b n x :
  foldl (λ x i, x .| (byte_at a i .^ byte_at b i)) x (seqZ 0 (Z.of_nat n)) = 0 ↔
  x = 0 ∧ ∀ i, (i < n)%nat → byte_at a (Z.of_nat i) = byte_at b (Z.of_nat i).
Proof.
  induction n as [|n IH]; [change (seqZ 0 (Z.of_nat 0)) with (@nil Z); cbn; split; [intros ->; split; [done|lia]|by intros [-> _]]|].
  rewrite Nat2Z.inj_succ, <- Z.add_1_r, (seqZ_app 0 (Z.of_nat n) 1), foldl_app by lia.
  change (seqZ (0 + Z.of_nat n) 1) with [0 + Z.of_nat n]. rewrite Z.add_0_l. cbn [foldl].
  rewrite Z.lor_eq_0_iff, IH, Z.lxor_eq_0_iff. split.
  - intros [[-> H] E]. split; [done|]. intros i Hi. destruct (decide (i = n)) as [->|]; [done|]. apply H. lia.
  - intros [-> H]. split_and!; [done| |by apply H; lia]. intros i Hi. apply H. lia.
Qed.

Lemma byte_at_ext a b :
  length a = length b → (∀ i, (i < length a)%nat → byte_at a (Z.of_nat i) = byte_at b (Z.of_nat i)) → a = b.
Proof.
  intros Hlen H. apply (nth_ext _ _ 0 0); [done|]. intros i Hi. specialize (H i Hi).
  unfold byte_at in H. by rewrite Nat2Z.id in H.
Qed.

(** [CRYPTO_memcmp] looks at every byte and returns 0 exactly when the two
    buffers are equal. *)
Theorem CRYPTO_memcmp_zero_iff (a b : list Z) (Hlen : length a = length b) :
  CRYPTO_memcmp a b (Z.of_nat (length a)) = 0 ↔ a = b.
Proof.
  unfold CRYPTO_memcmp. rewrite memcmp_zero. split; [|by intros ->].
  intros [_ H]. by apply byte_at_ext.
Qed.

Lemma CRYPTO_memcmp_zero_iff_witness : CRYPTO_memcmp [1; 2] [1; 2] (Z.of_nat (length [1; 2])) = 0 ↔ [1; 2] = [1; 2].
Proof. exact (CRYPTO_memcmp_zero_iff [1; 2] [1; 2] eq_refl). Defined.

(** ** Characters *)
Definition OPENSSL_isalpha (c : Z) : bool := ((97 <=? c) && (c <=? 122)) || ((65 <=? c) && (c <=? 90)).
Definition OPENSSL_isxdigit (c : Z) : bool :=
  OPENSSL_isdigit c || ((97 <=? c) && (c <=? 102)) || ((65 <=? c) && (c <=? 70)).
Definition OPENSSL_fromxdigit (c : Z) : option Z :=
  if OPENSSL_isdigit c then Some (u8 (c - 48))
  else if (97 <=? c) && (c <=? 102) then Some (u8 (c - 97 + 10))
  else if (65 <=? c) && (c <=? 70) then Some (u8 (c - 65 + 10))
  else None.
Definition OPENSSL_isalnum (c : Z) : bool := OPENSSL_isalpha c || OPENSSL_isdigit c.
Definition OPENSSL_tolower (c : Z) : Z := if (65 <=? c) && (c <=? 90) then c + (97 - 65) else c.
Definition OPENSSL_isspace (c : Z) : bool :=
  (c =? 9) || (c =? 10) || (c =? 11) || (c =? 12) || (c =? 13) || (c =? 32).

(** ** Strings *)
Fixpoint strlen (s : list Z) : option Z :=
  match s with
  | [] => None
  | c :: s => if c =? 0 then Some 0 else n ← strlen s; Some (n + 1)
  end.

Fixpoint OPENSSL_strnlen (s : list Z) (len : nat) : option Z :=
  match len with
  | O => Some 0
  | S len =>
      match s with
      | [] => None
      | c :: s => if c =? 0 then Some 0 else n ← OPENSSL_strnlen s len; Some (n + 1)
      end
  end.

Definition OPENSSL_strhash (s : list Z) : option Z :=
  n ← strlen s; Some (OPENSSL_hash32 (take (Z.to_nat n) s)).

Fixpoint OPENSSL_strcasecmp (a b : list Z) : option Z :=
  match a, b with
  | x :: a, y :: b =>
      let aa := OPENSSL_tolower x in
      let bb := OPENSSL_tolower y in
      if aa <? bb then Some (-1)
      else if aa >? bb then Some 1
      else if aa =? 0 then Some 0
      else OPENSSL_strcasecmp a b
  | _, _ => None
  end.

Fixpoint OPENSSL_strncasecmp (a b : list Z) (n : nat) : option Z :=
  match n with
  | O => Some 0
  | S n =>
      match a, b with
      | x :: a, y :: b =>
          let aa := OPENSSL_tolower x in
          let bb := OPENSSL_tolower y in
          if aa <? bb then Some (-1)
          else if aa >? bb then Some 1
          else if aa =? 0 then Some 0
          else OPENSSL_strncasecmp a b n
      | _, _ => None
      end
  end.

(** The copy loop of [OPENSSL_strlcpy]: the new [dst], the characters copied,
    and what [src] points to after it.  [dst] is the memory from [dst] on. *)
Fixpoint strlcpy_loop (dst src : list Z) (dst_size : Z) {struct src} : option (list Z * Z * list Z) :=
  match src with
  | c :: src' =>
      if (dst_size >? 1) && negb (c =? 0) then
        match dst with
        | _ :: dst => '(d, l, rest) ← strlcpy_loop dst src' (dst_size - 1); Some (c :: d, l + 1, rest)
        | [] => None
        end
      else if negb (dst_size =? 0) then
        match dst with _ :: dst => Some (0 :: dst, 0, src) | [] => None end
      else Some (dst, 0, src)
  | [] => None
  end.

Definition OPENSSL_strlcpy (dst src : list Z) (dst_size : Z) : option (list Z * Z) :=
  '(d, l, rest) ← strlcpy_loop dst src dst_size;
  n ← strlen rest;
  Some (d, l + n).

Fixpoint OPENSSL_strlcat (dst src : list Z) (dst_size : Z) : option (list Z * Z) :=
  match dst with
  | c :: dst' =>
      if (dst_size >? 0) && negb (c =? 0) then
        '(d, l) ← OPENSSL_strlcat dst' src (dst_size - 1); Some (c :: d, l + 1)
      else OPENSSL_strlcpy dst src dst_size
  | [] => if dst_size >? 0 then None else OPENSSL_strlcpy [] src dst_size
  end.

Section alloc.
Context {A : Allocator}.

Definition OPENSSL_strdup (t : nat) (s : list Z) : option (option (list Z)) :=
  n ← strlen s; Some (OPENSSL_memdup t (take (Z.to_nat (n + 1)) s)).

(** [None] is undefined behaviour, [Some None] is NULL. *)
Definition OPENSSL_strndup (t : nat) (str : list Z) (size : Z) : option (option (list Z)) :=
  size ← OPENSSL_strnlen str (Z.to_nat size);
  let alloc_size := size ⊞[64] 1 in
  if alloc_size <? size then Some None
  else
    match OPENSSL_malloc t alloc_size with
    | None => Some None
    | Some ret => Some (Some (take (Z.to_nat size) str ++ [0] ++ drop (Z.to_nat size + 1) ret))
    end.

(** The new [*out_ptr], [*out_len] and the return value. *)
Definition CBS_stow (t : nat) (cbs : CBS) : option (list Z) * Z * bool :=
  if CBS_len cbs =? 0 then (None, 0, true)
  else
    match OPENSSL_memdup t (CBS_data cbs) with
    | None => (None, 0, false)
    | Some ptr => (Some ptr, CBS_len cbs, true)
    end.

Definition CBS_strdup (t : nat) (cbs : CBS) : option (option (list Z)) :=
  OPENSSL_strndup t (CBS_data cbs) (CBS_len cbs).
End alloc.

(** ** Properties *)
Definition no_nul (s : list Z) : Prop := Forall (λ c, c ≠ 0) s.

Lemma strlen_nul s tail : no_nul s → strlen (s ++ 0 :: tail) = Some (Z.of_nat (length s)).
Proof.
  induction 1 as [|c s Hc Hs IH]; [done|]. cbn [app strlen]. destruct (Z.eqb_spec c 0); [done|].
  rewrite IH. cbn [mbind option_bind length]. f_equal. lia.
Qed.

Lemma strnlen_all s : no_nul s → OPENSSL_strnlen s (length s) = Some (Z.of_nat (length s)).
Proof.
  induction 1 as [|c s Hc Hs IH]; [done|]. cbn [length OPENSSL_strnlen]. destruct (Z.eqb_spec c 0); [done|].
  rewrite IH. cbn [mbind option_bind]. f_equal. lia.
Qed.

Section alloc_spec.
Context {A : Allocator}.

Lemma memdup_spec t data :
  CBS_len data < 2 ^ 64 → OPENSSL_memdup t data = None ∨ OPENSSL_memdup t data = Some data.
Proof.
  intros Hn. unfold OPENSSL_memdup. destruct (_ =? 0); [by left|].
  destruct (OPENSSL_malloc t _) as [ret|] eqn:E; [right|by left].
  apply OPENSSL_malloc_length in E; [|unfold CBS_len in Hn; lia]. f_equal. rewrite drop_ge by lia. apply app_nil_r.
Qed.

(** [CBS_stow] hands out an exact copy of the bytes (or an empty pair for
    no bytes) or reports failure with an empty pair; [CBS_strdup] of bytes
    without NUL is the NUL-terminated copy or NULL.  Neither reads outside the
    CBS. *)
Theorem CBS_stow_strdup_copy (t : nat) (cbs : CBS) (Hlen : CBS_len cbs < 2 ^ 64 - 1) (Hnul : no_nul cbs) :
  ((∃ ptr, CBS_stow t cbs = (ptr, CBS_len cbs, true) ∧ default [] ptr = cbs) ∨ CBS_stow t cbs = (None, 0, false)) ∧
  (CBS_strdup t cbs = Some None ∨ CBS_strdup t cbs = Some (Some (cbs ++ [0]))).
Proof.
  pose proof (CBS_len_nonneg cbs) as Hpos. split.
  - unfold CBS_stow. destruct (Z.eqb_spec (CBS_len cbs) 0) as [E|E].
    + left. exists None. rewrite E. split; [done|]. by destruct cbs; [|unfold CBS_len in E; cbn in E; lia].
    + destruct (memdup_spec t cbs ltac:(lia)) as [H|H]; unfold CBS_data; rewrite H; [by right|left; by eexists].
  - unfold CBS_strdup, OPENSSL_strndup, CBS_data, CBS_len. rewrite Nat2Z.id, strnlen_all by done.
    cbn [mbind option_bind]. unfold CBS_len in *. rewrite wrap_small by lia.
    destruct (Z.ltb_spec (Z.of_nat (length cbs) + 1) (Z.of_nat (length cbs))); [lia|].
    destruct (OPENSSL_malloc t _) as [ret|] eqn:E; [right|by left].
    apply OPENSSL_malloc_length in E; [|lia]. rewrite Nat2Z.id, take_ge, drop_ge by lia. done.
Qed.
End alloc_spec.

Lemma CBS_stow_strdup_copy_witness :
  ((∃ ptr, CBS_stow (A := zero_allocator) 0 [104; 105] = (ptr, CBS_len [104; 105], true) ∧ default [] ptr = [104; 105]) ∨
   CBS_stow (A := zero_allocator) 0 [104; 105] = (None, 0, false)) ∧
  (CBS_strdup (A := zero_allocator) 0 [104; 105] = Some None ∨
   CBS_strdup (A := zero_allocator) 0 [104; 105] = Some (Some ([104; 105] ++ [0]))).
Proof. apply (CBS_stow_strdup_copy (A := zero_allocator) 0 [104; 105]); [by vm_compute|repeat constructor; lia]. Defined.

Lemma tolower_zero c : OPENSSL_tolower c = 0 ↔ c = 0.
Proof. unfold OPENSSL_tolower. destruct (Z.leb_spec 65 c), (Z.leb_spec c 90); cbn [andb]; lia. Qed.

(** Lexicographic comparison of lowered strings, NUL-terminated. *)
Fixpoint compare_lower (a b : list Z) : Z :=
  match a, b with
  | [], [] => 0
  | [], y :: _ => if 0 <? OPENSSL_tolower y then -1 else 1
  | x :: _, [] => if OPENSSL_tolower x <? 0 then -1 else 1
  | x :: a, y :: b =>
      if OPENSSL_tolower x <? OPENSSL_tolower y then -1
      else if OPENSSL_tolower x >? OPENSSL_tolower y then 1
      else compare_lower a b
  end.

Lemma strcasecmp_compare a b ta tb :
  no_nul a → no_nul b → OPENSSL_strcasecmp (a ++ 0 :: ta) (b ++ 0 :: tb) = Some (compare_lower a b).
Proof.
  intros Ha. revert b. induction Ha as [|x a Hx Ha IH]; intros b Hb.
  - destruct Hb as [|y b Hy Hb]; [done|]. cbn. rewrite <- tolower_zero in Hy. change (OPENSSL_tolower 0) with 0.
    destruct (Z.ltb_spec 0 (OPENSSL_tolower y)); [done|]. rewrite Z.gtb_ltb.
    by destruct (Z.ltb_spec (OPENSSL_tolower y) 0); [|lia].
  - rewrite <- tolower_zero in Hx. destruct Hb as [|y b Hy Hb]; cbn.
    + change (OPENSSL_tolower 0) with 0. rewrite Z.gtb_ltb.
      destruct (Z.ltb_spec (OPENSSL_tolower x) 0); [done|].
      by destruct (Z.ltb_spec 0 (OPENSSL_tolower x)); [|lia].
    + destruct (_ <? _) eqn:E1; [done|]. destruct (_ >? _) eqn:E2; [done|].
      destruct (Z.eqb_spec (OPENSSL_tolower x) 0); [done|]. by apply IH.
Qed.

Lemma compare_lower_zero a b : compare_lower a b = 0 ↔ map OPENSSL_tolower a = map OPENSSL_tolower b.
Proof.
  revert b. induction a as [|x a IH]; intros [|y b]; cbn; try (split; [done|done]).
  - destruct (_ <? _); by split.
  - destruct (_ <? _); by split.
  - rewrite Z.gtb_ltb. destruct (Z.ltb_spec (OPENSSL_tolower x) (OPENSSL_tolower y)); [split; [done|intros [= ]; lia]|].
    destruct (Z.ltb_spec (OPENSSL_tolower y) (OPENSSL_tolower x)); [split; [done|intros [= ]; lia]|].
    rewrite IH. split; [intros ->; f_equal; lia|by intros [= _ ->]].
Qed.

(** on NUL-terminated strings [OPENSSL_strcasecmp] terminates without
    reading past either NUL, and returns 0 exactly when the strings are equal
    up to the case of ASCII letters; exchanging the strings negates the
    result. *)
Theorem OPENSSL_strcasecmp_spec (a b ta tb : list Z) (Ha : no_nul a) (Hb : no_nul b) :
  ∃ r, OPENSSL_strcasecmp (a ++ 0 :: ta) (b ++ 0 :: tb) = Some r ∧
    OPENSSL_strcasecmp (b ++ 0 :: tb) (a ++ 0 :: ta) = Some (- r) ∧
    (r = 0 ↔ map OPENSSL_tolower a = map OPENSSL_tolower b).
Proof.
  exists (compare_lower a b). rewrite !strcasecmp_compare by done.
  split_and!; [done| |apply compare_lower_zero]. f_equal.
  clear ta tb. revert b Hb. induction Ha as [|x a Hx Ha IH]; intros b Hb; destruct Hb as [|y b Hy Hb]; cbn; [done|..].
  - rewrite <- tolower_zero in Hy. destruct (Z.ltb_spec (OPENSSL_tolower y) 0), (Z.ltb_spec 0 (OPENSSL_tolower y)); lia.
  - rewrite <- tolower_zero in Hx. destruct (Z.ltb_spec (OPENSSL_tolower x) 0), (Z.ltb_spec 0 (OPENSSL_tolower x)); lia.
  - rewrite !Z.gtb_ltb. destruct (Z.ltb_spec (OPENSSL_tolower x) (OPENSSL_tolower y)),
      (Z.ltb_spec (OPENSSL_tolower y) (OPENSSL_tolower x)); try lia. by apply IH.
Qed.

Lemma OPENSSL_strcasecmp_spec_witness :
  ∃ r, OPENSSL_strcasecmp ([72; 105] ++ [0]) ([104; 73] ++ [0]) = Some r ∧
    OPENSSL_strcasecmp ([104; 73] ++ [0]) ([72; 105] ++ [0]) = Some (- r) ∧
    (r = 0 ↔ map OPENSSL_tolower [72; 105] = map OPENSSL_tolower [104; 73]).
Proof. apply (OPENSSL_strcasecmp_spec [72; 105] [104; 73] [] []); repeat constructor; lia. Defined.

Lemma strlcpy_loop_spec dst s tail n :
  no_nul s → 0 < n <= Z.of_nat (length dst) →
  let k := Nat.min (length s) (Z.to_nat (n - 1)) in
  strlcpy_loop dst (s ++ 0 :: tail) n =
    Some (take k s ++ 0 :: drop (S k) dst, Z.of_nat k, drop k (s ++ 0 :: tail)).
Proof.
  intros Hs. revert dst n. induction Hs as [|c s Hc Hs IH]; intros dst n Hn; cbn zeta.
  - cbn [app strlcpy_loop length Nat.min]. destruct dst as [|d dst]; [cbn in Hn; lia|].
    change (negb (0 =? 0)) with false. rewrite andb_false_r. by destruct (Z.eqb_spec n 0); [lia|].
  - destruct dst as [|d dst]; [cbn in Hn; lia|]. cbn [app strlcpy_loop]. rewrite Z.gtb_ltb.
    destruct (Z.eqb_spec c 0); [done|]. destruct (Z.ltb_spec 1 n); cbn [andb negb].
    + rewrite IH by (cbn [length] in Hn; lia). cbn zeta. cbn [mbind option_bind length].
      replace (Z.to_nat (n - 1)) with (S (Z.to_nat (n - 1 - 1))) by lia. rewrite <- Nat.succ_min_distr.
      cbn [take drop app]. repeat f_equal; lia.
    + destruct (Z.eqb_spec n 0); [lia|]. cbn [negb]. replace (Z.to_nat (n - 1)) with 0%nat by lia.
      by rewrite Nat.min_0_r.
Qed.

Lemma strlcpy_spec dst s tail n :
  no_nul s → 0 < n <= Z.of_nat (length dst) →
  let k := Nat.min (length s) (Z.to_nat (n - 1)) in
  OPENSSL_strlcpy dst (s ++ 0 :: tail) n =
    Some (take k s ++ 0 :: drop (S k) dst, Z.of_nat (length s)).
Proof.
  intros Hs Hn. cbn zeta. unfold OPENSSL_strlcpy. rewrite strlcpy_loop_spec by done. cbn [mbind option_bind].
  set (k := Nat.min _ _). rewrite (drop_app_le s) by (subst k; lia).
  rewrite strlen_nul by by apply Forall_drop. cbn [mbind option_bind]. do 2 f_equal. rewrite length_drop. lia.
Qed.

Lemma strlcat_spec d pad s tail n :
  no_nul d → no_nul s → Z.of_nat (length d) < n <= Z.of_nat (length (d ++ 0 :: pad)) →
  let k := Nat.min (length s) (Z.to_nat (n - 1) - length d) in
  OPENSSL_strlcat (d ++ 0 :: pad) (s ++ 0 :: tail) n =
    Some (d ++ take k s ++ 0 :: drop k pad, Z.of_nat (length d) + Z.of_nat (length s)).
Proof.
  intros Hd Hs. revert n. induction Hd as [|c d Hc Hd IH]; intros n Hn; cbn zeta.
  - cbn [app OPENSSL_strlcat]. rewrite Z.gtb_ltb. cbn in Hn. destruct (Z.ltb_spec 0 n); [|lia]. cbn [negb andb Z.eqb].
    rewrite strlcpy_spec by (done || (cbn [length]; lia)). cbn zeta. cbn [length]. by rewrite Nat.sub_0_r.
  - cbn [app OPENSSL_strlcat]. rewrite Z.gtb_ltb. cbn [app length] in Hn.
    destruct (Z.ltb_spec 0 n); [|lia]. destruct (Z.eqb_spec c 0); [done|]. cbn [negb andb].
    rewrite IH by lia. cbn zeta. cbn [mbind option_bind length].
    replace (Z.to_nat (n - 1 - 1) - length d)%nat with (Z.to_nat (n - 1) - S (length d))%nat by lia.
    do 2 f_equal. lia.
Qed.

(** [OPENSSL_strlcpy] and [OPENSSL_strlcat] never write outside the
    [dst_size] characters of the destination, always NUL-terminate, keep as
    much of the source as fits, and return the length of the string they tried
    to make. *)
Theorem OPENSSL_strlcpy_strlcat_spec (dst d pad s tail : list Z) (n : Z) (Hd : no_nul d) (Hs : no_nul s)
    (Hn : 0 < n <= Z.of_nat (length dst)) (Hpad : Z.of_nat (length d) < n <= Z.of_nat (length (d ++ 0 :: pad))) :
  (let k := Nat.min (length s) (Z.to_nat (n - 1)) in
   OPENSSL_strlcpy dst (s ++ 0 :: tail) n = Some (take k s ++ 0 :: drop (S k) dst, Z.of_nat (length s))) ∧
  (let k := Nat.min (length s) (Z.to_nat (n - 1) - length d) in
   OPENSSL_strlcat (d ++ 0 :: pad) (s ++ 0 :: tail) n =
     Some (d ++ take k s ++ 0 :: drop k pad, Z.of_nat (length d) + Z.of_nat (length s))).
Proof. split; [by apply strlcpy_spec|by apply strlcat_spec]. Qed.

Lemma OPENSSL_strlcpy_strlcat_spec_witness :
  (let k := Nat.min (length [97; 98; 99]) (Z.to_nat (3 - 1)) in
   OPENSSL_strlcpy [1; 1; 1] ([97; 98; 99] ++ [0]) 3 =
     Some (take k [97; 98; 99] ++ 0 :: drop (S k) [1; 1; 1], Z.of_nat (length [97; 98; 99]))) ∧
  (let k := Nat.min (length [97; 98; 99]) (Z.to_nat (3 - 1) - length [120]) in
   OPENSSL_strlcat ([120] ++ [0; 7]) ([97; 98; 99] ++ [0]) 3 =
     Some ([120] ++ take k [97; 98; 99] ++ 0 :: drop k [7], Z.of_nat (length [120]) + Z.of_nat (length [97; 98; 99]))).
Proof. apply (OPENSSL_strlcpy_strlcat_spec [1; 1; 1] [120] [7] [97; 98; 99] [] 3); repeat constructor; cbn; lia. Defined.
