(* ===== verification/Cbb.v ===== *)
(** CBB: the BoringSSL byte-string builder, [crypto/bytestring/cbb.c].

    A [CBB] is a struct in memory that points to its pending child and, when
    it is a child itself, to the [cbb_buffer_st] of its root.  The model is an
    explicit store: [cbbs] maps the address of each [CBB] to its fields,
    [bufs] maps the address of a root [CBB] to the [cbb_buffer_st] in its
    union.  Children alias the root's buffer through [base], as in the code.
    Dereferencing NULL, a missing struct or the wrong union arm, and reading or
    writing outside a buffer, is the outcome [UB]. *)
From stdpp Require Import sorting.
From S2P Require Import Prelude Radix Mem Cbs.

Abbreviation loc := nat.

Record cbb_buffer_st := mkBuffer {
  buf : list Z;             (* the whole allocation *)
  len : Z;
  cap : Z;
  can_resize : bool;
  error : bool;
}.

Record cbb_child_st := mkChild {
  base : option loc;
  offset : Z;
  pending_len_len : Z;
  pending_is_asn1 : bool;
}.

(** The union [u] with its discriminant [is_child]; the base arm is in [bufs]. *)
Inductive cbb_union := UBase | UChild (c : cbb_child_st).
Record CBB := mkCBB { child : option loc; u : cbb_union }.

Record world := mkWorld {
  cbbs : gmap loc CBB;
  bufs : gmap loc cbb_buffer_st;
  clock : nat;              (* number of allocations so far *)
}.

Inductive res (A : Type) :=
  | Ok (a : A) (w : world)
  | Fail (w : world)
  | UB.
Arguments Ok {A}. Arguments Fail {A}. Arguments UB {A}.

(** An operation on the store: returns 1 ([Ok]), returns 0 ([Fail]), or has
    undefined behaviour. *)
Definition B (A : Type) : Type := world → res A.
#[export] Instance B_ret : MRet B := λ A a w, Ok a w.
#[export] Instance B_bind : MBind B := λ A C f m w,
  match m w with Ok a w' => f a w' | Fail w' => Fail w' | UB => UB end.

Definition return0 {A} : B A := λ w, Fail w.
Definition undefined {A} : B A := λ _, UB.
Definition B_require (b : bool) : B unit := if b then mret () else return0.
(** [goto err] with the handler [h], then [return 0]. *)
Definition on_error {A} (m : B A) (h : B unit) : B A := λ w,
  match m w with
  | Fail w' => match h w' with Ok _ w'' => Fail w'' | Fail w'' => Fail w'' | UB => UB end
  | r => r
  end.

Definition set_cbbs (f : gmap loc CBB → gmap loc CBB) (w : world) : world :=
  mkWorld (f (cbbs w)) (bufs w) (clock w).
Definition set_bufs (f : gmap loc cbb_buffer_st → gmap loc cbb_buffer_st) (w : world) : world :=
  mkWorld (cbbs w) (f (bufs w)) (clock w).

Definition deref_cbb (l : loc) : B CBB := λ w,
  match cbbs w !! l with Some c => Ok c w | None => UB end.
Definition deref_buf (l : loc) : B cbb_buffer_st := λ w,
  match bufs w !! l with Some b => Ok b w | None => UB end.
Definition store_cbb (l : loc) (c : CBB) : B unit := λ w, Ok () (set_cbbs <[l := c]> w).
Definition store_buf (l : loc) (b : cbb_buffer_st) : B unit := λ w, Ok () (set_bufs <[l := b]> w).

Definition deref_child (l : loc) : B cbb_child_st :=
  c ← deref_cbb l;
  match u c with UChild ch => mret ch | UBase => undefined end.
Definition store_child (l : loc) (ch : cbb_child_st) : B unit :=
  c ← deref_cbb l; store_cbb l (mkCBB (child c) (UChild ch)).

Definition with_buf (b : cbb_buffer_st) (x : list Z) := mkBuffer x (len b) (cap b) (can_resize b) (error b).
Definition with_len (b : cbb_buffer_st) (n : Z) := mkBuffer (buf b) n (cap b) (can_resize b) (error b).
Definition with_error (b : cbb_buffer_st) := mkBuffer (buf b) (len b) (cap b) (can_resize b) true.

(** Store [bytes] at [off] of a block; [None] when out of bounds. *)
Definition write_at (block : list Z) (off : Z) (bytes : list Z) : option (list Z) :=
  if (off <? 0) || (Z.of_nat (length block) <? off + Z.of_nat (length bytes)) then None
  else Some (take (Z.to_nat off) block ++ bytes ++ drop (Z.to_nat off + length bytes) block).

Definition write_buf (l : loc) (off : Z) (bytes : list Z) : B unit :=
  b ← deref_buf l;
  match write_at (buf b) off bytes with
  | Some x => store_buf l (with_buf b x)
  | None => undefined
  end.

(** [n] bytes from [off]. *)
Definition read_buf (l : loc) (off n : Z) : B (list Z) :=
  b ← deref_buf l;
  if (off <? 0) || (n <? 0) || (Z.of_nat (length (buf b)) <? off + n) then undefined
  else mret (take (Z.to_nat n) (drop (Z.to_nat off) (buf b))).

Section cbb.
Context {A : Allocator}.

Definition CBB_zero (cbb : loc) : B unit := λ w,
  Ok () (mkWorld (<[cbb := mkCBB None UBase]> (cbbs w)) (<[cbb := mkBuffer [] 0 0 false false]> (bufs w)) (clock w)).

Definition cbb_init (cbb : loc) (block : list Z) (capacity : Z) (resize : bool) : B unit :=
  _ ← store_cbb cbb (mkCBB None UBase);
  store_buf cbb (mkBuffer block 0 capacity resize false).

Definition B_malloc (n : Z) : B (option (list Z)) := λ w,
  Ok (OPENSSL_malloc (clock w) n) (mkWorld (cbbs w) (bufs w) (S (clock w))).
Definition B_realloc (orig : list Z) (n : Z) : B (option (list Z)) := λ w,
  Ok (OPENSSL_realloc (clock w) orig n) (mkWorld (cbbs w) (bufs w) (S (clock w))).

Definition CBB_init (cbb : loc) (initial_capacity : Z) : B unit :=
  _ ← CBB_zero cbb;
  block ← B_malloc initial_capacity;
  match block with
  | None => if initial_capacity >? 0 then return0 else cbb_init cbb [] initial_capacity true
  | Some block => cbb_init cbb block initial_capacity true
  end.

(** [block] is the caller's array. *)
Definition CBB_init_fixed (cbb : loc) (block : list Z) : B unit :=
  _ ← CBB_zero cbb;
  cbb_init cbb block (Z.of_nat (length block)) false.

(** Freeing the buffer: the struct is left as it is, the block is gone. *)
Definition CBB_cleanup (cbb : loc) : B unit :=
  c ← deref_cbb cbb;
  match u c with
  | UChild _ => mret ()
  | UBase =>
      b ← deref_buf cbb;
      if can_resize b then store_buf cbb (with_buf b []) else mret ()
  end.

Definition buffer_fail {A} (base : loc) : B A :=
  b ← deref_buf base; _ ← store_buf base (with_error b); return0.

(** Yields the offset of the reserved space, [*out - base->buf]. *)
Definition cbb_buffer_reserve (base : option loc) (n : Z) : B Z :=
  match base with
  | None => return0
  | Some base =>
      b ← deref_buf base;
      let newlen := len b ⊞[64] n in
      if newlen <? len b then buffer_fail base
      else if newlen >? cap b then
        if negb (can_resize b) then buffer_fail base
        else
          let newcap := cap b ⊠[64] 2 in
          let newcap := if (newcap <? cap b) || (newcap <? newlen) then newlen else newcap in
          newbuf ← B_realloc (buf b) newcap;
          match newbuf with
          | None => buffer_fail base
          | Some newbuf =>
              _ ← store_buf base (mkBuffer newbuf (len b) newcap (can_resize b) (error b));
              mret (len b)
          end
      else mret (len b)
  end.

Definition cbb_buffer_add (base : option loc) (n : Z) : B Z :=
  out ← cbb_buffer_reserve base n;
  match base with
  | None => undefined
  | Some base =>
      b ← deref_buf base;
      _ ← store_buf base (with_len b (len b + n));
      mret out
  end.

Definition cbb_get_base (cbb : loc) : B (option loc) :=
  c ← deref_cbb cbb;
  mret (match u c with UChild ch => base ch | UBase => Some cbb end).

Definition deref_opt (l : option loc) : B loc :=
  match l with Some l => mret l | None => undefined end.

Definition cbb_on_error (cbb : loc) : B unit :=
  ob ← cbb_get_base cbb;
  base ← deref_opt ob;
  b ← deref_buf base;
  _ ← store_buf base (with_error b);
  c ← deref_cbb cbb;
  store_cbb cbb (mkCBB None (u c)).

(** [for (i = n - 1; i < n; i--) { base->buf[off + i] = v; v >>= 8; }] *)
Fixpoint store_be_loop (base : loc) (off : Z) (i : nat) (v : Z) : B Z :=
  match i with
  | O => mret v
  | S i =>
      _ ← write_buf base (off + Z.of_nat i) [u8 v];
      store_be_loop base off i (v ≫ 8)
  end.

(** The length form for [n] bytes of contents: the number of length octets, the
    first of them, and what is left for the octet loop. *)
Definition flush_length_form (n : Z) : Z * Z * Z :=
  if n >? 0xffffff then (5, 0x80 .| 4, n)
  else if n >? 0xffff then (4, 0x80 .| 3, n)
  else if n >? 0xff then (3, 0x80 .| 2, n)
  else if n >? 0x7f then (2, 0x80 .| 1, n)
  else (1, u8 n, 0).

(** The ASN.1 branch of [CBB_flush]: choose the length form, make room, write
    the first length octet.  Yields the length left for the octet loop. *)
Definition flush_asn1_prefix (root cl : loc) (child_start n : Z) : B Z :=
  if n >? 0xfffffffe then return0
  else
    let '(len_len, initial_length_byte, n') := flush_length_form n in
    _ ← (if negb (len_len =? 1) then
           let extra_bytes := len_len - 1 in
           _ ← cbb_buffer_add (Some root) extra_bytes;
           moved ← read_buf root child_start n';
           write_buf root (child_start + extra_bytes) moved
         else mret ());
    ch ← deref_child cl;
    _ ← write_buf root (offset ch) [initial_length_byte];
    _ ← store_child cl (mkChild (base ch) (offset ch + 1) (len_len - 1) (pending_is_asn1 ch));
    mret n'.

Fixpoint CBB_flush_rec (fuel : nat) (cbb : loc) : B unit :=
  match fuel with
  | O => undefined
  | S fuel =>
      ob ← cbb_get_base cbb;
      match ob with
      | None => return0
      | Some base =>
          b ← deref_buf base;
          if error b then return0
          else
            c ← deref_cbb cbb;
            match child c with
            | None => mret ()
            | Some cl =>
                ch ← deref_child cl;
                let child_start := offset ch ⊞[64] pending_len_len ch in
                on_error
                  (_ ← CBB_flush_rec fuel cl;
                   _ ← B_require (negb (child_start <? offset ch));
                   b ← deref_buf base;
                   _ ← B_require (negb (len b <? child_start));
                   let n := len b - child_start in
                   n ← (if pending_is_asn1 ch then flush_asn1_prefix base cl child_start n else mret n);
                   ch ← deref_child cl;
                   n ← store_be_loop base (offset ch) (Z.to_nat (pending_len_len ch)) n;
                   _ ← B_require (n =? 0);
                   _ ← store_child cl (mkChild None (offset ch) (pending_len_len ch) (pending_is_asn1 ch));
                   c ← deref_cbb cbb;
                   store_cbb cbb (mkCBB None (u c)))
                  (cbb_on_error cbb)
            end
      end
  end.

(** The recursion follows [child] pointers: the number of structs bounds it. *)
Definition CBB_flush (cbb : loc) : B unit := λ w, CBB_flush_rec (S (size (cbbs w))) cbb w.

(** [out_data] and [out_len]: whether these pointers are not NULL.  The result
    is what they receive: the bytes of the buffer, whose ownership goes to the
    caller if it can be resized. *)
Definition CBB_finish_to (out_data out_len : bool) (cbb : loc) : B (list Z) :=
  c ← deref_cbb cbb;
  match u c with
  | UChild _ => return0
  | UBase =>
      _ ← CBB_flush cbb;
      b ← deref_buf cbb;
      if can_resize b && (negb out_data || negb out_len) then return0
      else
        out ← read_buf cbb 0 (len b);
        _ ← store_buf cbb (with_buf b []);
        _ ← CBB_cleanup cbb;
        mret out
  end.

(** With both outputs, as all callers modelled here pass them. *)
Definition CBB_finish : loc → B (list Z) := CBB_finish_to true true.

(** [CBB_data] and [CBB_len]: where the contents of [cbb] start in the
    buffer of its root, and how many bytes they have. *)
Definition CBB_data (cbb : loc) : B (loc * Z) :=
  c ← deref_cbb cbb;
  match u c with
  | UChild ch => root ← deref_opt (base ch); mret (root, offset ch + pending_len_len ch)
  | UBase => mret (cbb, 0)
  end.
Definition CBB_len (cbb : loc) : B Z :=
  c ← deref_cbb cbb;
  match u c with
  | UChild ch =>
      root ← deref_opt (base ch);
      b ← deref_buf root;
      mret (len b - offset ch - pending_len_len ch)
  | UBase => b ← deref_buf cbb; mret (len b)
  end.

Definition cbb_add_child (cbb out_child : loc) (len_len : Z) (is_asn1 : bool) : B unit :=
  ob ← cbb_get_base cbb;
  root ← deref_opt ob;
  b ← deref_buf root;
  let off := len b in
  prefix_bytes ← cbb_buffer_add (Some root) len_len;
  _ ← write_buf root prefix_bytes (replicate (Z.to_nat len_len) 0);
  _ ← CBB_zero out_child;
  _ ← (λ w, Ok () (set_bufs (delete out_child) w));   (* the union holds the child arm *)
  _ ← store_cbb out_child (mkCBB None (UChild (mkChild (Some root) off len_len is_asn1)));
  c ← deref_cbb cbb;
  store_cbb cbb (mkCBB (Some out_child) (u c)).

Definition cbb_add_length_prefixed (cbb out_contents : loc) (len_len : Z) : B unit :=
  _ ← CBB_flush cbb; cbb_add_child cbb out_contents len_len false.
Definition CBB_add_u8_length_prefixed (cbb out_contents : loc) : B unit :=
  cbb_add_length_prefixed cbb out_contents 1.
Definition CBB_add_u16_length_prefixed (cbb out_contents : loc) : B unit :=
  cbb_add_length_prefixed cbb out_contents 2.
Definition CBB_add_u24_length_prefixed (cbb out_contents : loc) : B unit :=
  cbb_add_length_prefixed cbb out_contents 3.

(** Yields the offset of the new space. *)
Definition CBB_add_space (cbb : loc) (n : Z) : B Z :=
  _ ← CBB_flush cbb;
  ob ← cbb_get_base cbb;
  cbb_buffer_add ob n.

Definition CBB_reserve (cbb : loc) (n : Z) : B Z :=
  _ ← CBB_flush cbb;
  ob ← cbb_get_base cbb;
  cbb_buffer_reserve ob n.

Definition CBB_did_write (cbb : loc) (n : Z) : B unit :=
  ob ← cbb_get_base cbb;
  root ← deref_opt ob;
  b ← deref_buf root;
  let newlen := len b ⊞[64] n in
  c ← deref_cbb cbb;
  if bool_decide (child c ≠ None) || (newlen <? len b) || (newlen >? cap b) then return0
  else store_buf root (with_len b newlen).

(** Write to the space returned by [CBB_add_space cbb]. *)
Definition write_space (cbb : loc) (off : Z) (bytes : list Z) : B unit :=
  ob ← cbb_get_base cbb;
  root ← deref_opt ob;
  write_buf root off bytes.

Definition CBB_add_bytes (cbb : loc) (data : list Z) : B unit :=
  out ← CBB_add_space cbb (CBS_len data);
  write_space cbb out data.

Definition CBB_add_zeros (cbb : loc) (n : Z) : B unit :=
  out ← CBB_add_space cbb n;
  write_space cbb out (replicate (Z.to_nat n) 0).

Definition cbb_add_u (cbb : loc) (v len_len : Z) : B unit :=
  off ← CBB_add_space cbb len_len;
  ob ← cbb_get_base cbb;
  root ← deref_opt ob;
  v ← store_be_loop root off (Z.to_nat len_len) v;
  if negb (v =? 0) then _ ← cbb_on_error cbb; return0 else mret ().

Definition CBB_add_u8 (cbb : loc) (value : Z) : B unit := cbb_add_u cbb value 1.
Definition CBB_add_u16 (cbb : loc) (value : Z) : B unit := cbb_add_u cbb value 2.
Definition CBB_add_u16le (cbb : loc) (value : Z) : B unit := CBB_add_u16 cbb (CRYPTO_bswap2 value).
Definition CBB_add_u24 (cbb : loc) (value : Z) : B unit := cbb_add_u cbb value 3.
Definition CBB_add_u32 (cbb : loc) (value : Z) : B unit := cbb_add_u cbb value 4.
Definition CBB_add_u32le (cbb : loc) (value : Z) : B unit := CBB_add_u32 cbb (CRYPTO_bswap4 value).
Definition CBB_add_u64 (cbb : loc) (value : Z) : B unit := cbb_add_u cbb value 8.
Definition CBB_add_u64le (cbb : loc) (value : Z) : B unit := CBB_add_u64 cbb (CRYPTO_bswap8 value).

Definition CBB_discard_child (cbb : loc) : B unit :=
  c ← deref_cbb cbb;
  match child c with
  | None => mret ()
  | Some cl =>
      ob ← cbb_get_base cbb;
      root ← deref_opt ob;
      ch ← deref_child cl;
      b ← deref_buf root;
      _ ← store_buf root (with_len b (offset ch));
      _ ← store_child cl (mkChild None (offset ch) (pending_len_len ch) (pending_is_asn1 ch));
      c ← deref_cbb cbb;
      store_cbb cbb (mkCBB None (u c))
  end.

(** [while (copy > 0) { len_len++; copy >>= 7; }] on a [uint64_t]. *)
Fixpoint base128_count (fuel : nat) (copy : Z) : Z :=
  match fuel with
  | O => 0
  | S fuel => if copy >? 0 then base128_count fuel (copy ≫ 7) + 1 else 0
  end.

(** The descending loop: [n] is [i + 1]. *)
Fixpoint add_base128_loop (cbb : loc) (n : nat) (v : Z) : B unit :=
  match n with
  | O => mret ()
  | S i =>
      let byte := (v ≫ (7 * Z.of_nat i)) .& 0x7f in
      let byte := if negb (Z.of_nat i =? 0) then byte .| 0x80 else byte in
      _ ← CBB_add_u8 cbb byte;
      add_base128_loop cbb i v
  end.

Definition add_base128_integer (cbb : loc) (v : Z) : B unit :=
  let len_len := base128_count 64 v in
  let len_len := if len_len =? 0 then 1 else len_len in
  add_base128_loop cbb (Z.to_nat len_len) v.

Definition CBB_add_asn1 (cbb out_contents : loc) (tag : Z) : B unit :=
  _ ← CBB_flush cbb;
  let tag_bits := (tag ≫ CBS_ASN1_TAG_SHIFT) .& 0xe0 in
  let tag_number := tag .& CBS_ASN1_TAG_NUMBER_MASK in
  _ ← (if tag_number >=? 0x1f then
         _ ← CBB_add_u8 cbb (tag_bits .| 0x1f);
         add_base128_integer cbb tag_number
       else CBB_add_u8 cbb (u8 (tag_bits .| tag_number)));
  cbb_add_child cbb out_contents 1 true.

(** A local [CBB] of a C function: an address no struct has, gone when the
    function returns. *)
Definition max_loc {T} (m : gmap loc T) : loc := map_fold (λ l _ m, Nat.max (S l) m) 0%nat m.
Definition fresh_loc (w : world) : loc := Nat.max (max_loc (cbbs w)) (max_loc (bufs w)).
Definition free_local (l : loc) (w : world) : world :=
  mkWorld (delete l (cbbs w)) (delete l (bufs w)) (clock w).
Definition with_local {T} (f : loc → B T) : B T := λ w,
  let l := fresh_loc w in
  match f l w with
  | Ok a w' => Ok a (free_local l w')
  | Fail w' => Fail (free_local l w')
  | UB => UB
  end.

(** The bytes of [value] from the highest, [n] of them left. *)
Fixpoint asn1_uint64_add_loop (child : loc) (n : nat) (value : Z) (started : bool) : B bool :=
  match n with
  | O => mret started
  | S n =>
      let byte := u8 ((value ≫ (8 * Z.of_nat n)) .& 0xff) in
      if negb started && (byte =? 0) then asn1_uint64_add_loop child n value false
      else
        _ ← (if negb started && negb (byte .& 0x80 =? 0) then CBB_add_u8 child 0 else mret ());
        _ ← CBB_add_u8 child byte;
        asn1_uint64_add_loop child n value true
  end.

Definition CBB_add_asn1_uint64_with_tag (cbb : loc) (value tag : Z) : B unit :=
  with_local (λ child,
    _ ← on_error
      (_ ← CBB_add_asn1 cbb child tag;
       started ← asn1_uint64_add_loop child 8 value false;
       if negb started then CBB_add_u8 child 0 else mret ())
      (cbb_on_error cbb);
    CBB_flush cbb).
Definition CBB_add_asn1_uint64 (cbb : loc) (value : Z) : B unit :=
  CBB_add_asn1_uint64_with_tag cbb value CBS_ASN1_INTEGER.

(** [while (start > 0 && (bytes[start] == 0xff && (bytes[start - 1] & 0x80)))] *)
Fixpoint asn1_int64_start (bytes : list Z) (start : nat) : nat :=
  match start with
  | O => O
  | S s =>
      if (byte_at bytes (Z.of_nat start) =? 0xff) && negb (byte_at bytes (Z.of_nat s) .& 0x80 =? 0)
      then asn1_int64_start bytes s else start
  end.

(** [for (i = n - 1; i >= 0; i--)] *)
Fixpoint asn1_int64_add_loop (child : loc) (bytes : list Z) (n : nat) : B unit :=
  match n with
  | O => mret ()
  | S i => _ ← CBB_add_u8 child (byte_at bytes (Z.of_nat i)); asn1_int64_add_loop child bytes i
  end.

(** [memcpy] of an [int64_t] on a little-endian machine. *)
Definition int64_memory (value : Z) : list Z := rev (be_bytes 8 (u64 value)).

Definition CBB_add_asn1_int64_with_tag (cbb : loc) (value tag : Z) : B unit :=
  if value >=? 0 then CBB_add_asn1_uint64_with_tag cbb (u64 value) tag
  else
    let bytes := int64_memory value in
    let start := asn1_int64_start bytes 7 in
    with_local (λ child,
      _ ← on_error
        (_ ← CBB_add_asn1 cbb child tag; asn1_int64_add_loop child bytes (S start))
        (cbb_on_error cbb);
      CBB_flush cbb).
Definition CBB_add_asn1_int64 (cbb : loc) (value : Z) : B unit :=
  CBB_add_asn1_int64_with_tag cbb value CBS_ASN1_INTEGER.

Definition CBB_add_asn1_octet_string (cbb : loc) (data : list Z) : B unit :=
  with_local (λ child,
    on_error
      (_ ← CBB_add_asn1 cbb child CBS_ASN1_OCTETSTRING;
       _ ← CBB_add_bytes child data;
       CBB_flush cbb)
      (cbb_on_error cbb)).

Definition CBB_add_asn1_bool (cbb : loc) (value : Z) : B unit :=
  with_local (λ child,
    on_error
      (_ ← CBB_add_asn1 cbb child CBS_ASN1_BOOLEAN;
       _ ← CBB_add_u8 child (if negb (value =? 0) then 0xff else 0);
       CBB_flush cbb)
      (cbb_on_error cbb)).

Definition DOT : Z := 46.

Definition parse_dotted_decimal : M CBS Z :=
  out ← CBS_get_u64_decimal;
  ((λ cbs,
     match CBS_get_u8 cbs with
     | (None, cbs) => (Some out, cbs)
     | (Some dot, cbs) => (if (dot =? DOT) && (CBS_len cbs >? 0) then Some out else None, cbs)
     end) : M CBS Z).

(** Run a step of a local [CBS] parser. *)
Definition with_cbs {T} (m : M CBS T) (cbs : CBS) : B (T * CBS) :=
  match m cbs with (Some a, cbs) => mret (a, cbs) | (None, _) => return0 end.

(** Each component consumes a byte, so the length of the text is enough fuel. *)
Fixpoint oid_text_loop (fuel : nat) (cbb : loc) (cbs : CBS) : B unit :=
  if CBS_len cbs >? 0 then
    match fuel with
    | O => undefined
    | S fuel =>
        '(a, cbs) ← with_cbs parse_dotted_decimal cbs;
        _ ← add_base128_integer cbb a;
        oid_text_loop fuel cbb cbs
    end
  else mret ().

Definition CBB_add_asn1_oid_from_text (cbb : loc) (text : list Z) : B unit :=
  _ ← CBB_flush cbb;
  '(a, cbs) ← with_cbs parse_dotted_decimal text;
  '(b, cbs) ← with_cbs parse_dotted_decimal cbs;
  _ ← B_require (negb ((a >? 2) || ((a <? 2) && (b >? 39)) || (b >? UINT64_MAX - 80)));
  _ ← add_base128_integer cbb ((40 ⊠[64] a) ⊞[64] b);
  oid_text_loop (length text) cbb cbs.

Definition compare_set_of_element (a b : CBS) : Z :=
  let a_len := CBS_len a in
  let b_len := CBS_len b in
  let min_len := if a_len <? b_len then a_len else b_len in
  let ret := memcmp (take (Z.to_nat min_len) a) (take (Z.to_nat min_len) b) in
  if negb (ret =? 0) then ret
  else if a_len =? b_len then 0
  else if a_len <? b_len then -1 else 1.

(** The order [qsort] sorts by, and [qsort]. *)
Definition set_of_le (a b : CBS) : Prop := compare_set_of_element a b <= 0.
#[export] Instance set_of_le_dec : RelDecision set_of_le := λ a b, decide (compare_set_of_element a b <= 0).
Definition qsort_set_of (children : list CBS) : list CBS := merge_sort set_of_le children.

(** [while (CBS_len(&cbs) != 0)]: every element has at least two bytes. *)
Fixpoint set_of_count (fuel : nat) (cbs : CBS) : option Z :=
  if negb (CBS_len cbs =? 0) then
    match fuel with
    | O => None
    | S fuel =>
        match CBS_get_any_asn1_element cbs with
        | (Some _, cbs) => n ← set_of_count fuel cbs; Some (n + 1)
        | (None, _) => None
        end
    end
  else Some 0.

Fixpoint set_of_children (n : nat) (cbs : CBS) : option (list CBS) :=
  match n with
  | O => Some []
  | S n =>
      match CBS_get_any_asn1_element cbs with
      | (Some e, cbs) => es ← set_of_children n cbs; Some (el_out e :: es)
      | (None, _) => None
      end
  end.

(** [for (i = 0; i < num_children; i++) memcpy(out + offset, ...)] *)
Fixpoint set_of_write (root : loc) (out offset : Z) (children : list CBS) : B unit :=
  match children with
  | [] => mret ()
  | c :: cs => _ ← write_buf root (out + offset) c; set_of_write root out (offset + CBS_len c) cs
  end.

Definition B_memdup (data : list Z) : B (option (list Z)) := λ w,
  Ok (OPENSSL_memdup (clock w) data) (mkWorld (cbbs w) (bufs w) (S (clock w))).
Definition B_calloc (num size : Z) : B (option (list Z)) := λ w,
  Ok (OPENSSL_calloc (clock w) num size) (mkWorld (cbbs w) (bufs w) (S (clock w))).
Definition sizeof_CBS : Z := 16.

Definition CBB_flush_asn1_set_of (cbb : loc) : B unit :=
  _ ← CBB_flush cbb;
  '(root, data) ← CBB_data cbb;
  n ← CBB_len cbb;
  cbs ← read_buf root data n;
  match set_of_count (length cbs) cbs with
  | None => return0
  | Some num_children =>
      if num_children <? 2 then mret ()
      else
        buf_len ← CBB_len cbb;
        cbs ← read_buf root data buf_len;
        buf ← B_memdup cbs;
        children ← B_calloc num_children sizeof_CBS;
        match buf, children with
        | Some buf, Some _ =>
            match set_of_children (Z.to_nat num_children) (take (Z.to_nat buf_len) buf) with
            | None => return0
            | Some children => set_of_write root data 0 (qsort_set_of children)
            end
        | _, _ => return0
        end
  end.
End cbb.
