(* ===== verification/CbbSpec.v ===== *)
(** The abstract builder that [CBB] implements, and the refinement proof.

    An open document is a stack of frames, one per CBB from the root to the
    deepest pending child: the kind of its pending length prefix and the bytes
    written to it so far.  [close] is what a prefix becomes when the frame is
    flushed.  [rep w L F] says that the structs at the addresses [L] and the
    buffer of their root represent the frames [F]; every operation of cbb.c is
    then specified by what it does to the frames. *)
From S2P Require Import Prelude Radix Mem Cbs Cbb.

(** ** Weakest preconditions for the store *)
Definition wp {A} (m : B A) (w : world) (Q : A → world → Prop) (E : world → Prop) : Prop :=
  match m w with Ok a w' => Q a w' | Fail w' => E w' | UB => False end.

Lemma wp_bind {A C} (m : B A) (f : A → B C) w Q E :
  wp m w (λ a w', wp (f a) w' Q E) E → wp (m ≫= f) w Q E.
Proof. unfold wp, mbind, B_bind. by destruct (m w). Qed.

Lemma wp_mono {A} (m : B A) w (Q Q' : A → world → Prop) (E E' : world → Prop) :
  wp m w Q E → (∀ a w', Q a w' → Q' a w') → (∀ w', E w' → E' w') → wp m w Q' E'.
Proof. unfold wp. destruct (m w); eauto. Qed.

Lemma wp_ret {A} (a : A) w (Q : A → world → Prop) E : Q a w → wp (mret a) w Q E.
Proof. done. Qed.
Lemma wp_return0 {A} w (Q : A → world → Prop) (E : world → Prop) : E w → wp return0 w Q E.
Proof. done. Qed.
Lemma wp_require b w (Q : unit → world → Prop) (E : world → Prop) :
  (b = true → Q () w) → (b = false → E w) → wp (B_require b) w Q E.
Proof. destruct b; cbn; auto. Qed.
Lemma wp_deref_cbb l c w (Q : CBB → world → Prop) E : cbbs w !! l = Some c → Q c w → wp (deref_cbb l) w Q E.
Proof. unfold wp, deref_cbb. by intros ->. Qed.
Lemma wp_deref_buf l b w (Q : cbb_buffer_st → world → Prop) E : bufs w !! l = Some b → Q b w → wp (deref_buf l) w Q E.
Proof. unfold wp, deref_buf. by intros ->. Qed.
Lemma wp_store_cbb l c w (Q : unit → world → Prop) E : Q () (set_cbbs <[l := c]> w) → wp (store_cbb l c) w Q E.
Proof. done. Qed.
Lemma wp_store_buf l b w (Q : unit → world → Prop) E : Q () (set_bufs <[l := b]> w) → wp (store_buf l b) w Q E.
Proof. done. Qed.
Lemma wp_deref_child l n ch w (Q : cbb_child_st → world → Prop) E :
  cbbs w !! l = Some (mkCBB n (UChild ch)) → Q ch w → wp (deref_child l) w Q E.
Proof. intros H ?. unfold deref_child. apply wp_bind. eapply wp_deref_cbb; [done|]. done. Qed.
Lemma wp_store_child l n u0 ch w (Q : unit → world → Prop) E :
  cbbs w !! l = Some (mkCBB n u0) →
  Q () (set_cbbs <[l := mkCBB n (UChild ch)]> w) → wp (store_child l ch) w Q E.
Proof. intros H ?. unfold store_child. apply wp_bind. eapply wp_deref_cbb; [done|]. done. Qed.
Lemma wp_on_error {A} (m : B A) h w Q E :
  wp m w Q (λ w', wp h w' (λ _ w'', E w'') E) → wp (on_error m h) w Q E.
Proof. unfold wp, on_error. destruct (m w) as [| w'|]; [done| |done]. by destruct (h w'). Qed.

(** ** Buffers *)

(** The first bytes of the allocation of [b] are the document [x]. *)
Definition holds (b : cbb_buffer_st) (x : list Z) : Prop :=
  error b = false ∧ len b = CBS_len x ∧ len b <= cap b ∧ cap b = Z.of_nat (length (buf b)) ∧
  cap b < 2 ^ 64 ∧ take (length x) (buf b) = x ∧ bytes_ok (buf b).

(** [b'] is [b] after writes and reallocations. *)
Definition grows (b b' : cbb_buffer_st) : Prop := cap b <= cap b' ∧ can_resize b' = can_resize b.

#[export] Instance grows_preorder : PreOrder grows.
Proof. split; [by split|]. intros a b c [??] [??]. split; [lia|congruence]. Qed.

Section spec.
Context {A : Allocator}.

(** A document of [n] bytes fits: in the allocation, or in one that a
    reallocation, which does not fail, provides. *)
Definition room (b : cbb_buffer_st) (n : Z) : Prop :=
  n <= cap b ∨ (can_resize b = true ∧ n <= 2 ^ 62 ∧ NeverFails A).

Lemma room_grows b b' n n' : grows b b' → n' <= n → room b n → room b' n'.
Proof. intros [? Hr] ? [?|(?&?&?)]; [left; lia|right]. split_and!; [congruence|lia|done]. Qed.
End spec.

Lemma write_at_mid b X Y Z0 Y' :
  holds b (X ++ Y ++ Z0) → length Y' = length Y → bytes_ok Y' →
  ∃ x, write_at (buf b) (CBS_len X) Y' = Some x ∧ holds (with_buf b x) (X ++ Y' ++ Z0).
Proof.
  intros (He & Hl & Hc & Hcl & Hlim & Ht & Hb) HY HYb. unfold write_at, CBS_len in *.
  rewrite !length_app in *.
  destruct (Z.ltb_spec (Z.of_nat (length X)) 0); [lia|].
  destruct (Z.ltb_spec (Z.of_nat (length (buf b))) (Z.of_nat (length X) + Z.of_nat (length Y'))); [lia|].
  cbn [orb]. eexists; split; [done|]. rewrite Nat2Z.id.
  pose proof (take_drop (length X + (length Y + length Z0)) (buf b)) as Hbuf. rewrite Ht in Hbuf.
  set (R := drop (length X + (length Y + length Z0)) (buf b)) in *. rewrite <- Hbuf.
  assert (Hnew : take (length X) ((X ++ Y ++ Z0) ++ R) ++ Y' ++ drop (length X + length Y') ((X ++ Y ++ Z0) ++ R)
    = (X ++ Y' ++ Z0) ++ R).
  { rewrite <- !app_assoc, take_app_length, HY, <- drop_drop, drop_app_length, drop_app_length. done. }
  unfold holds, CBS_len. cbn [buf len cap error with_buf]. rewrite Hnew, !length_app, HY.
  rewrite <- Hbuf, !length_app in Hcl. split_and!; try done; try lia.
  - replace (length X + (length Y + length Z0))%nat with (length (X ++ Y' ++ Z0)) by (rewrite !length_app; lia).
    by rewrite take_app_length.
  - rewrite <- Hbuf in Hb. apply Forall_app in Hb as [[? [? ?]%Forall_app]%Forall_app ?].
    by repeat apply Forall_app_2.
Qed.

(** A write inside the document. *)
Lemma wp_write_mid w root b X Y Z0 Y' (Q : unit → world → Prop) E :
  bufs w !! root = Some b → holds b (X ++ Y ++ Z0) → length Y' = length Y → bytes_ok Y' →
  (∀ b', holds b' (X ++ Y' ++ Z0) → grows b b' → Q () (set_bufs <[root := b']> w)) →
  wp (write_buf root (CBS_len X) Y') w Q E.
Proof.
  intros Hb Hh HY HYb HQ. unfold write_buf. apply wp_bind. eapply wp_deref_buf; [done|].
  destruct (write_at_mid b X Y Z0 Y' Hh HY HYb) as (x & -> & Hx).
  apply wp_store_buf, HQ; [done|by split].
Qed.

Lemma wp_read_mid w root b X Y Z0 (Q : list Z → world → Prop) E :
  bufs w !! root = Some b → holds b (X ++ Y ++ Z0) → Q Y w →
  wp (read_buf root (CBS_len X) (CBS_len Y)) w Q E.
Proof.
  intros Hb (He & Hl & Hc & Hcl & Hlim & Ht & _) HQ. unfold read_buf. apply wp_bind.
  eapply wp_deref_buf; [done|]. unfold CBS_len in *. rewrite !length_app in *.
  destruct (Z.ltb_spec (Z.of_nat (length X)) 0); [lia|]. destruct (Z.ltb_spec (Z.of_nat (length Y)) 0); [lia|].
  destruct (Z.ltb_spec (Z.of_nat (length (buf b))) (Z.of_nat (length X) + Z.of_nat (length Y))); [lia|].
  cbn [orb]. apply wp_ret. rewrite !Nat2Z.id.
  rewrite <- (take_drop (length X + (length Y + length Z0)) (buf b)), Ht.
  by rewrite <- !app_assoc, drop_app_length, take_app_length.
Qed.

(** The error bit of the buffer at [root] is set; only that buffer and the
    allocator moved. *)
Definition failed (root : loc) (w w' : world) : Prop :=
  cbbs w' = cbbs w ∧ ∃ b', bufs w' = <[root := b']> (bufs w) ∧ error b' = true.

Section buffer.
Context {A : Allocator}.

Lemma wp_buffer_fail {T} root b w (Q : T → world → Prop) (E : world → Prop) :
  bufs w !! root = Some b → (∀ w', failed root w w' → E w') → wp (buffer_fail root) w Q E.
Proof.
  intros Hb HE. unfold buffer_fail. apply wp_bind. eapply wp_deref_buf; [done|].
  apply wp_bind, wp_store_buf. apply wp_return0, HE. split; [done|]. by eexists.
Qed.

Lemma wp_buffer_reserve root b x n w (Q : Z → world → Prop) (E : world → Prop) :
  bufs w !! root = Some b → holds b x → 0 <= n < 2 ^ 64 →
  (∀ b' w', holds b' x → CBS_len x + n <= cap b' → grows b b' →
     bufs w' = <[root := b']> (bufs w) → cbbs w' = cbbs w → Q (CBS_len x) w') →
  (¬ room b (CBS_len x + n) → ∀ w', failed root w w' → E w') →
  wp (cbb_buffer_reserve (Some root) n) w Q E.
Proof.
  intros Hb (He & Hl & Hc & Hcl & Hlim & Ht & Hbytes) Hn HQ HE. unfold cbb_buffer_reserve.
  apply wp_bind. eapply wp_deref_buf; [done|]. rewrite Hl in *. pose proof (CBS_len_nonneg x).
  destruct (Z.lt_ge_cases (CBS_len x + n) (2 ^ 64)) as [Hsum|Hsum].
  2: { assert (E64 : CBS_len x ⊞[64] n = CBS_len x + n - 2 ^ 64)
         by (symmetry; apply (Z.mod_unique _ _ 1); lia).
       rewrite E64. destruct (Z.ltb_spec (CBS_len x + n - 2 ^ 64) (CBS_len x)); [|lia].
       eapply wp_buffer_fail; [done|]. apply HE. intros [|(_ & ? & _)]; lia. }
  rewrite (wrap_small 64 (CBS_len x + n)) by lia.
  destruct (Z.ltb_spec (CBS_len x + n) (CBS_len x)); [lia|].
  destruct (Z.gtb_spec (CBS_len x + n) (cap b)) as [Hgt|Hle].
  2: { apply wp_ret. apply (HQ b); try done; [|by symmetry; apply insert_id]. split_and!; done || lia. }
  destruct (can_resize b) eqn:Er; cbn [negb].
  2: { eapply wp_buffer_fail; [done|]. apply HE. intros [|(? & _)]; [lia|congruence]. }
  set (newcap := if (cap b ⊠[64] 2 <? cap b) || (cap b ⊠[64] 2 <? CBS_len x + n)
                 then CBS_len x + n else cap b ⊠[64] 2).
  assert (Hnew : CBS_len x + n <= newcap < 2 ^ 64 ∧ newcap <= 2 * (CBS_len x + n)).
  { subst newcap. pose proof (wrap_range 64 (cap b * 2) ltac:(lia)).
    assert (cap b ⊠[64] 2 <= cap b * 2) by (apply Z.mod_le; lia).
    destruct (Z.ltb_spec (cap b ⊠[64] 2) (cap b)), (Z.ltb_spec (cap b ⊠[64] 2) (CBS_len x + n)); cbn; lia. }
  apply wp_bind. unfold B_realloc, wp at 1.
  destruct (OPENSSL_realloc (clock w) (buf b) newcap) as [nb|] eqn:Ea.
  - apply OPENSSL_realloc_spec in Ea as (Hlen & Htake & Hnb); [|lia..].
    apply wp_bind, wp_store_buf, wp_ret.
    apply (HQ (mkBuffer nb (CBS_len x) newcap true (error b))); cbn; try done; [|lia|split; [cbn; lia|by rewrite Er]].
    split_and!; cbn; try done; try lia; [|by apply Hnb].
    rewrite <- Ht at 2. rewrite <- Htake at 1. rewrite take_take, Nat.min_l; [done|].
    unfold CBS_len in *. lia.
  - assert (Hw : bufs (mkWorld (cbbs w) (bufs w) (S (clock w))) !! root = Some b) by done.
    eapply wp_buffer_fail; [done|]. intros w' Hf. apply HE; [|done].
    intros [|(_ & ? & Hnf)]; [lia|].
    destruct (OPENSSL_realloc_succeeds (clock w) (buf b) newcap) as [? ?]; [lia|]. congruence.
Qed.

Lemma wp_buffer_add root b x n w (Q : Z → world → Prop) (E : world → Prop) :
  bufs w !! root = Some b → holds b x → 0 <= n < 2 ^ 64 →
  (∀ b' pad w', holds b' (x ++ pad) → CBS_len pad = n → grows b b' →
     bufs w' = <[root := b']> (bufs w) → cbbs w' = cbbs w → Q (CBS_len x) w') →
  (¬ room b (CBS_len x + n) → ∀ w', failed root w w' → E w') →
  wp (cbb_buffer_add (Some root) n) w Q E.
Proof.
  intros Hb Hh Hn HQ HE. unfold cbb_buffer_add. apply wp_bind.
  eapply wp_buffer_reserve; [done|done|done| |done].
  intros b' w' (He & Hl & Hc & Hcl & Hlim & Ht & Hbytes) Hroom Hg Hw' Hc'.
  apply wp_bind. eapply (wp_deref_buf _ b'); [rewrite Hw'; apply lookup_insert_eq|].
  apply wp_bind, wp_store_buf, wp_ret.
  set (pad := take (Z.to_nat n) (drop (length x) (buf b'))).
  assert (Hpad : CBS_len pad = n).
  { unfold CBS_len, pad in *. rewrite length_take, length_drop. lia. }
  apply (HQ (with_len b' (len b' + n)) pad); try done.
  - split_and!; cbn; try done; rewrite ?CBS_len_app; try lia.
    rewrite length_app. rewrite <- (take_drop (length x) (buf b')) at 1. rewrite Ht.
    rewrite take_app_add. f_equal. subst pad. rewrite length_take, length_drop. f_equal.
    unfold CBS_len in *. lia.
  - cbn. rewrite Hw'. apply insert_insert_eq.
Qed.
End buffer.

(** ** The abstract document *)

Inductive pending := PAsn1 | PFixed (n : nat).
Abbreviation frame := (pending * list Z)%type.

Definition plen (k : pending) : nat := match k with PAsn1 => 1 | PFixed n => n end.
Definition is_asn1 (k : pending) : bool := match k with PAsn1 => true | PFixed _ => false end.

(** What flushing makes of a frame: its length prefix, then its contents. *)
Definition close (k : pending) (c : list Z) : option (list Z) :=
  match k with
  | PAsn1 => if CBS_len c <=? 0xfffffffe then Some (der_len_bytes (CBS_len c) ++ c) else None
  | PFixed n => if CBS_len c <? 256 ^ Z.of_nat n then Some (be_bytes n (CBS_len c) ++ c) else None
  end.

(** Close a stack of frames, the innermost first. *)
Fixpoint close_all (F : list frame) : option (list Z) :=
  match F with
  | [] => Some []
  | (k, c) :: F => inner ← close_all F; close k (c ++ inner)
  end.

(** The bytes in the buffer: each prefix is still a run of zeros. *)
Fixpoint flat (F : list frame) : list Z :=
  match F with
  | [] => []
  | (k, c) :: F => (replicate (plen k) 0 ++ c) ++ flat F
  end.

Lemma flat_app F1 F2 : flat (F1 ++ F2) = flat F1 ++ flat F2.
Proof. induction F1 as [|[k c] F1 IH]; [done|]. cbn [flat app]. by rewrite IH, app_assoc. Qed.

Lemma close_length k c x : close k c = Some x → CBS_len c + Z.of_nat (plen k) <= CBS_len x.
Proof.
  unfold close. destruct k as [|n].
  - destruct (Z.leb_spec (CBS_len c) 0xfffffffe); [|done]. intros [= <-]. rewrite CBS_len_app.
    pose proof (length_der_len_bytes (CBS_len c)). pose proof (CBS_len_nonneg c).
    unfold CBS_len at 2. cbn [plen]. lia.
  - destruct (_ <? _); [|done]. intros [= <-]. rewrite CBS_len_app. unfold CBS_len at 2.
    rewrite length_digits_be. cbn [plen]. lia.
Qed.

Lemma close_all_length F x : close_all F = Some x → CBS_len (flat F) <= CBS_len x.
Proof.
  revert x. induction F as [|[k c] F IH]; intros x; [by intros [= <-]|]. cbn [close_all flat].
  destruct (close_all F) as [inner|] eqn:E; [|done]. intros Hc%close_length.
  specialize (IH _ eq_refl). rewrite !CBS_len_app in *. unfold CBS_len at 1. rewrite length_replicate. lia.
Qed.

(** ** The store represents a stack of frames *)

(** The struct at [l] is the CBB of a frame whose prefix starts at [off]. *)
Definition struct_ok (root : loc) (off : Z) (k : pending) (next : option loc) (l : loc) (cbb : CBB) : Prop :=
  child cbb = next ∧
  match u cbb with
  | UBase => l = root
  | UChild ch => l ≠ root ∧ ch = mkChild (Some root) off (Z.of_nat (plen k)) (is_asn1 k)
  end.

Fixpoint chain (m : gmap loc CBB) (root : loc) (off : Z) (L : list loc) (F : list frame) : Prop :=
  match L, F with
  | [], [] => True
  | l :: L, (k, c) :: F =>
      (∃ cbb, m !! l = Some cbb ∧ struct_ok root off k (head L) l cbb) ∧
      chain m root (off + Z.of_nat (plen k) + CBS_len c) L F
  | _, _ => False
  end.

Definition rep (w : world) (root : loc) (L : list loc) (F : list frame) : Prop :=
  head L = Some root ∧ fst <$> head F = Some (PFixed 0) ∧ NoDup L ∧
  chain (cbbs w) root 0 L F ∧ ∃ b, bufs w !! root = Some b ∧ holds b (flat F).

Lemma chain_length m root off L F : chain m root off L F → length L = length F.
Proof.
  revert off F. induction L as [|l L IH]; intros off [|[k c] F]; try done.
  cbn [chain length]. intros [_ ?%IH]. lia.
Qed.

Lemma chain_frame m m' root off L F :
  (∀ l, l ∈ L → m' !! l = m !! l) → chain m root off L F → chain m' root off L F.
Proof.
  revert off F. induction L as [|l L IH]; intros off [|[k c] F] Hm; try done.
  cbn [chain]. intros [(cbb & Hl & Hs) Hc]. split.
  - exists cbb. split; [|done]. rewrite Hm; [done|]. left.
  - apply IH; [|done]. intros l' ?. apply Hm. by right.
Qed.

(** [close] on the buffer: the octet loop. *)
Lemma wp_store_be_loop root w b X Y Z0 v (Q : Z → world → Prop) E :
  bufs w !! root = Some b → holds b (X ++ Y ++ Z0) → 0 <= v →
  (∀ b' w', holds b' (X ++ be_bytes (length Y) v ++ Z0) → grows b b' →
     bufs w' = <[root := b']> (bufs w) → cbbs w' = cbbs w →
     Q (v / 256 ^ CBS_len Y) w') →
  wp (store_be_loop root (CBS_len X) (length Y) v) w Q E.
Proof.
  remember (length Y) as n eqn:HY. revert Y Z0 w b v HY Q.
  induction n as [|n IH]; intros Y Z0 w b v HY Q Hb Hh Hv HQ.
  - destruct Y; [|done]. cbn [store_be_loop]. apply wp_ret.
    replace v with (v / 256 ^ CBS_len []) at 1 by (cbn; apply Z.div_1_r).
    apply (HQ b); try done. by rewrite insert_id.
  - destruct (exists_last (l := Y)) as (Y0 & y & ->); [by intros ->|].
    rewrite length_app in HY. cbn in HY. assert (length Y0 = n) by lia. clear HY.
    cbn [store_be_loop]. apply wp_bind.
    replace (CBS_len X + Z.of_nat n) with (CBS_len (X ++ Y0)) by (rewrite CBS_len_app; unfold CBS_len; lia).
    eapply (wp_write_mid _ _ _ (X ++ Y0) [y] Z0); [done|by rewrite <- !app_assoc in *|done| |].
    { apply Forall_cons. split; [|done]. pose proof (wrap_range 8 v). lia. }
    intros b1 Hb1 Hg1. rewrite <- app_assoc in Hb1.
    eapply (IH Y0 ([u8 v] ++ Z0)); [done|apply lookup_insert_eq|done|apply Z.shiftr_nonneg; lia|].
    intros b2 w2 Hb2 Hg2 Hw2 Hc2. rewrite Z.shiftr_div_pow2 in * by lia. change (2 ^ 8) with 256 in *.
    replace (v / 256 / 256 ^ CBS_len Y0) with (v / 256 ^ CBS_len (Y0 ++ [y])).
    2: { rewrite CBS_len_app, Z.add_comm. unfold CBS_len. cbn [length].
         rewrite Z.pow_add_r, Z.pow_1_r, Z.div_div; lia || apply pow_B_pos; lia. }
    apply (HQ b2); [|by etrans| |by rewrite Hc2].
    + cbn [digits_be]. rewrite <- app_assoc. by change (v mod 256) with (u8 v).
    + rewrite Hw2. cbn. by rewrite insert_insert_eq.
Qed.
