(* ===== verification/CbbFlush.v ===== *)
(** [CBB_flush] refines [close_all]: closing the length prefix of one child,
    then the recursion over the pending children. *)
From S2P Require Import Prelude Radix Mem Cbs Cbb CbbSpec.

(** The length form chosen by the code is the DER length. *)
Lemma flush_length_form_spec n :
  0 <= n <= 0xfffffffe →
  ∃ ll init n', flush_length_form n = (Z.of_nat (S ll), init, n') ∧
    der_len_bytes n = init :: be_bytes ll n' ∧ is_byte init ∧ 0 <= n' ∧
    n' / 256 ^ Z.of_nat ll = 0 ∧ n' = (if (ll =? 0)%nat then 0 else n) ∧ (ll ≤ 4)%nat.
Proof.
  intros Hn. unfold flush_length_form, der_len_bytes.
  assert (Hk : ∀ ll, (1 ≤ ll ≤ 4)%nat → 256 ^ (Z.of_nat ll - 1) <= n < 256 ^ Z.of_nat ll →
    ndigits 256 8 n = ll ∧ n / 256 ^ Z.of_nat ll = 0).
  { intros ll Hl Hr. split; [|by apply Z.div_small; lia].
    assert (0 < 256 ^ (Z.of_nat ll - 1)) by (apply Z.pow_pos_nonneg; lia).
    apply ndigits_unique; lia. }
  destruct (Z.gtb_spec n 0xffffff); [exists 4%nat, 132, n|
    destruct (Z.gtb_spec n 0xffff); [exists 3%nat, 131, n|
    destruct (Z.gtb_spec n 0xff); [exists 2%nat, 130, n|
    destruct (Z.gtb_spec n 0x7f); [exists 1%nat, 129, n|exists 0%nat, n, 0]]]].
  1-4: match goal with |- context [be_bytes ?k _] => destruct (Hk k) as [E1 E2]; [lia|cbn; lia|rewrite E1, E2] end;
    destruct (Z.ltb_spec n 128); [lia|]; split_and!; done || lia.
  destruct (Z.ltb_spec n 128); [|lia]. rewrite wrap_small by lia. split_and!; done || lia.
Qed.

(** Split a list at a given length. *)
Lemma split_at {T} (l : list T) (n : nat) : (n ≤ length l)%nat → ∃ l1 l2, l = l1 ++ l2 ∧ length l1 = n.
Proof. intros. exists (take n l), (drop n l). rewrite take_drop, length_take. split; [done|lia]. Qed.

Lemma holds_bytes b x : holds b x → bytes_ok x.
Proof. intros (_&_&_&_&_&Ht&Hb). rewrite <- Ht. by apply Forall_take. Qed.

Lemma holds_len b x : holds b x → CBS_len x <= cap b ∧ cap b < 2 ^ 64 ∧ len b = CBS_len x ∧ error b = false.
Proof. intros (He&Hl&Hc&_&Hlim&_&_). split_and!; lia || done. Qed.

Lemma holds_prefix b P k c F : holds b (P ++ flat ((k, c) :: F)) → CBS_len P + Z.of_nat (plen k) < 2 ^ 64.
Proof.
  intros (? & ? & _)%holds_len. cbn [flat] in *. rewrite !CBS_len_app in *.
  pose proof (CBS_len_nonneg c). pose proof (CBS_len_nonneg (flat F)).
  unfold CBS_len at 2 in H. rewrite length_replicate in H. lia.
Qed.

Section flush.
Context {A : Allocator}.

Definition ghost_child root off ll asn1 nx : CBB := mkCBB nx (UChild (mkChild (Some root) off ll asn1)).

Lemma set_bufs_eq m w : bufs (set_bufs m w) = m (bufs w). Proof. done. Qed.

Lemma wp_flush_asn1_prefix root cl nx w b P d (Q : Z → world → Prop) (E : world → Prop) :
  bufs w !! root = Some b → holds b (P ++ [0] ++ d) →
  cbbs w !! cl = Some (ghost_child root (CBS_len P) 1 true nx) →
  (∀ b' init mid n' w', holds b' (P ++ [init] ++ mid ++ d) → grows b b' →
     bufs w' = <[root := b']> (bufs w) →
     cbbs w' = <[cl := ghost_child root (CBS_len P + 1) (CBS_len mid) true nx]> (cbbs w) →
     CBS_len d <= 0xfffffffe → der_len_bytes (CBS_len d) = init :: be_bytes (length mid) n' →
     0 <= n' → n' / 256 ^ CBS_len mid = 0 → Q n' w') →
  (∀ w' b', cbbs w' = cbbs w → bufs w' = <[root := b']> (bufs w) →
     (∀ x, close PAsn1 d = Some x → ¬ room b (CBS_len P + CBS_len x)) → E w') →
  wp (flush_asn1_prefix root cl (CBS_len P + 1) (CBS_len d)) w Q E.
Proof.
  intros Hb Hh Hcl HQ HE. unfold flush_asn1_prefix. pose proof (CBS_len_nonneg d).
  destruct (Z.gtb_spec (CBS_len d) 0xfffffffe).
  { apply wp_return0, (HE _ b); [done|by rewrite insert_id|]. intros x. unfold close.
    destruct (Z.leb_spec (CBS_len d) 0xfffffffe); [lia|done]. }
  destruct (flush_length_form_spec (CBS_len d)) as (ll & init & n' & -> & Hder & Hinit & Hn' & Hq & Hn'd & Hll); [lia|].
  assert (Hfinish : ∀ w1 b1 mid, length mid = ll → holds b1 (P ++ [0] ++ mid ++ d) → grows b b1 →
    bufs w1 = <[root := b1]> (bufs w) → cbbs w1 = cbbs w →
    wp (ch ← deref_child cl;
        _ ← write_buf root (offset ch) [init];
        _ ← store_child cl (mkChild (base ch) (offset ch + 1) (Z.of_nat (S ll) - 1) (pending_is_asn1 ch));
        mret n') w1 Q E).
  { intros w1 b1 mid Hmid Hh1 Hg1 Hw1 Hc1. apply wp_bind.
    eapply wp_deref_child; [by rewrite Hc1|]. cbn [offset base pending_is_asn1].
    apply wp_bind. eapply (wp_write_mid _ _ b1 P [0] (mid ++ d) [init]);
      [by rewrite Hw1, lookup_insert_eq|done|done|by apply Forall_cons|].
    intros b2 Hh2 Hg2. apply wp_bind. eapply wp_store_child; [cbn; by rewrite Hc1|]. apply wp_ret.
    apply (HQ b2 init mid); try done; [by etrans|..].
    - cbn. by rewrite Hw1, insert_insert_eq.
    - cbn -[Z.of_nat]. rewrite Hc1. unfold ghost_child, CBS_len. do 4 f_equal. lia.
    - by rewrite Hmid.
    - unfold CBS_len. by rewrite Hmid. }
  apply wp_bind. destruct (Z.eqb_spec (Z.of_nat (S ll)) 1) as [Hl1|Hl1]; cbn [negb].
  - apply wp_ret. apply (Hfinish _ b []); try done; [cbn; lia|by rewrite insert_id].
  - replace (ll =? 0)%nat with false in Hn'd by (symmetry; apply Nat.eqb_neq; lia). subst n'.
    apply wp_bind. pose proof (CBS_len_nonneg P).
    eapply (wp_buffer_add root b _ _ _ _ _ Hb Hh); [lia| |].
    2: { intros Hroom w' [Hc' (b' & Hw' & _)]. apply (HE _ b'); [done|done|].
         intros x. unfold close. destruct (_ <=? _); [|done]. intros [= <-] Hr. apply Hroom.
         eapply room_grows; [reflexivity| |exact Hr]. rewrite Hder, !CBS_len_app.
         unfold CBS_len. cbn [length]. rewrite length_digits_be. lia. }
    intros b1 pad w1 Hh1 Hpad Hg1 Hw1 Hc1.
    assert (Hb1 : bufs w1 !! root = Some b1) by by rewrite Hw1, lookup_insert_eq.
    apply wp_bind. replace (CBS_len P + 1) with (CBS_len (P ++ [0])) by (by rewrite CBS_len_app).
    eapply (wp_read_mid _ _ _ (P ++ [0]) d pad); [done|by rewrite <- !app_assoc in *|].
    destruct (split_at (d ++ pad) ll) as (mid & tl & Esp & Hmid).
    { rewrite length_app. unfold CBS_len in Hpad. lia. }
    assert (Htl : length tl = length d).
    { apply (f_equal length) in Esp. rewrite !length_app in Esp. unfold CBS_len in Hpad. lia. }
    replace (CBS_len (P ++ [0]) + (Z.of_nat (S ll) - 1)) with (CBS_len (P ++ [0] ++ mid)).
    2: { rewrite app_assoc, (CBS_len_app _ mid). unfold CBS_len at 2. lia. }
    assert (Hdoc : (P ++ [0] ++ d) ++ pad = (P ++ [0] ++ mid) ++ tl ++ []).
    { rewrite app_nil_r, <- !app_assoc. cbn. by rewrite Esp. }
    eapply (wp_write_mid _ _ b1 (P ++ [0] ++ mid) tl [] d); [done|by rewrite <- Hdoc|done| |].
    { apply holds_bytes in Hh. by apply Forall_app in Hh as [_ [_ ?]%Forall_app]. }
    intros b2 Hh2 Hg2. rewrite app_nil_r in Hh2.
    apply (Hfinish _ b2 mid); [done|by rewrite <- !app_assoc in *|by etrans| |done].
    cbn. by rewrite Hw1, insert_insert_eq.
Qed.

(** The part of [CBB_flush] after the recursive call: close the child [cl] of
    [l], whose contents start at [child_start]. *)
Definition flush_close (l root cl : loc) (child_start : Z) (ch : cbb_child_st) : B unit :=
  _ ← B_require (negb (child_start <? offset ch));
  b ← deref_buf root;
  _ ← B_require (negb (len b <? child_start));
  let n := len b - child_start in
  n ← (if pending_is_asn1 ch then flush_asn1_prefix root cl child_start n else mret n);
  ch ← deref_child cl;
  n ← store_be_loop root (offset ch) (Z.to_nat (pending_len_len ch)) n;
  _ ← B_require (n =? 0);
  _ ← store_child cl (mkChild None (offset ch) (pending_len_len ch) (pending_is_asn1 ch));
  c ← deref_cbb l;
  store_cbb l (mkCBB None (u c)).

(** A struct whose frame has been closed: its [base] is NULL. *)
Definition stale (c : CBB) : Prop := ∃ ch, u c = UChild ch ∧ base ch = None.

Definition closed_structs (l cl : loc) (m m' : gmap loc CBB) : Prop :=
  ∃ cx c', m !! l = Some cx ∧ stale c' ∧ m' = <[l := mkCBB None (u cx)]> (<[cl := c']> m).

(** The octet loop and what follows it. *)
Lemma wp_flush_tail l root cl nx w b P asn1 pre mid d n (Q : unit → world → Prop) (E : world → Prop) cx :
  bufs w !! root = Some b → holds b (P ++ pre ++ mid ++ d) → l ≠ cl → 0 <= n →
  cbbs w !! l = Some cx →
  cbbs w !! cl = Some (ghost_child root (CBS_len (P ++ pre)) (CBS_len mid) asn1 nx) →
  (∀ b' w' c', n / 256 ^ CBS_len mid = 0 → holds b' (P ++ pre ++ be_bytes (length mid) n ++ d) → grows b b' →
     bufs w' = <[root := b']> (bufs w) → stale c' →
     cbbs w' = <[l := mkCBB None (u cx)]> (<[cl := c']> (cbbs w)) → Q () w') →
  (∀ w' b', n / 256 ^ CBS_len mid ≠ 0 → cbbs w' = cbbs w → bufs w' = <[root := b']> (bufs w) → E w') →
  wp (ch ← deref_child cl;
      n ← store_be_loop root (offset ch) (Z.to_nat (pending_len_len ch)) n;
      _ ← B_require (n =? 0);
      _ ← store_child cl (mkChild None (offset ch) (pending_len_len ch) (pending_is_asn1 ch));
      c ← deref_cbb l;
      store_cbb l (mkCBB None (u c))) w Q E.
Proof.
  intros Hb Hh Hne Hn Hl Hcl HQ HE. apply wp_bind. eapply wp_deref_child; [done|].
  cbn [offset pending_len_len pending_is_asn1]. apply wp_bind.
  unfold CBS_len at 2. rewrite Nat2Z.id.
  eapply (wp_store_be_loop root w b (P ++ pre) mid d n); [done|by rewrite <- app_assoc|done|].
  intros b1 w1 Hh1 Hg1 Hw1 Hc1. apply wp_bind, wp_require; intros Hz.
  - apply wp_bind. eapply wp_store_child; [by rewrite Hc1|]. apply wp_bind.
    eapply wp_deref_cbb; [cbn; rewrite Hc1, lookup_insert_ne by done; exact Hl|].
    apply wp_store_cbb. eapply (HQ b1); [lia|by rewrite <- app_assoc in Hh1|done|done| |cbn; by rewrite Hc1].
    by eexists.
  - apply (HE _ b1); [lia|done|done].
Qed.

Lemma wp_flush_close l root cl nx k w b P d cx (Q : unit → world → Prop) (E : world → Prop) :
  bufs w !! root = Some b → holds b (P ++ replicate (plen k) 0 ++ d) → l ≠ cl → cbbs w !! l = Some cx →
  cbbs w !! cl = Some (ghost_child root (CBS_len P) (Z.of_nat (plen k)) (is_asn1 k) nx) →
  (∀ x b' w', close k d = Some x → holds b' (P ++ x) → grows b b' →
     bufs w' = <[root := b']> (bufs w) → closed_structs l cl (cbbs w) (cbbs w') → Q () w') →
  (∀ w' b', (∀ l', l' ≠ cl → cbbs w' !! l' = cbbs w !! l') → bufs w' = <[root := b']> (bufs w) →
     (∀ x, close k d = Some x → ¬ room b (CBS_len P + CBS_len x)) → E w') →
  wp (flush_close l root cl (CBS_len P + Z.of_nat (plen k))
        (mkChild (Some root) (CBS_len P) (Z.of_nat (plen k)) (is_asn1 k))) w Q E.
Proof.
  intros Hb Hh Hne Hl Hcl HQ HE. unfold flush_close. cbn [offset pending_is_asn1].
  destruct (holds_len _ _ Hh) as (_ & _ & Hlen & _). rewrite !CBS_len_app in Hlen.
  assert (Hz : CBS_len (replicate (plen k) 0) = Z.of_nat (plen k)) by (unfold CBS_len; by rewrite length_replicate).
  rewrite Hz in Hlen. pose proof (CBS_len_nonneg d). pose proof (CBS_len_nonneg P).
  apply wp_bind, wp_require; [intros _|lia]. apply wp_bind. eapply wp_deref_buf; [done|].
  apply wp_bind, wp_require; [intros _|lia]. rewrite Hlen.
  replace (CBS_len P + (Z.of_nat (plen k) + CBS_len d) - (CBS_len P + Z.of_nat (plen k))) with (CBS_len d) by lia.
  apply wp_bind. destruct k as [|n]; cbn [plen is_asn1] in *.
  - eapply (wp_flush_asn1_prefix root cl nx w b P d); [done..| |].
    + intros b1 init mid n' w1 Hh1 Hg1 Hw1 Hc1 Hd Hder Hn' Hq.
      eapply (wp_flush_tail l root cl nx w1 b1 P true [init] mid d); [by rewrite Hw1, lookup_insert_eq|done|done|done| | | |].
      * by rewrite Hc1, lookup_insert_ne.
      * rewrite Hc1, lookup_insert_eq. by rewrite CBS_len_app.
      * intros b2 w2 c' _ Hh2 Hg2 Hw2 Hs Hc2.
        apply (HQ (der_len_bytes (CBS_len d) ++ d) b2); [| |by etrans|..].
        -- unfold close. destruct (Z.leb_spec (CBS_len d) 0xfffffffe); [done|lia].
        -- by rewrite Hder.
        -- by rewrite Hw2, Hw1, insert_insert_eq.
        -- exists cx, c'. split_and!; [done|done|]. by rewrite Hc2, Hc1, insert_insert_eq.
      * done.
    + intros w1 b1 Hc1 Hw1 Hroom. apply (HE _ b1); [by intros; rewrite Hc1|done|done].
  - apply wp_ret. eapply (wp_flush_tail l root cl nx w b P false [] (replicate n 0) d); [done|done|done|done|done| | |].
    + by rewrite app_nil_r, Hz.
    + rewrite length_replicate, Hz. intros b2 w2 c' Hq Hh2 Hg2 Hw2 Hs Hc2.
      apply (HQ (be_bytes n (CBS_len d) ++ d) b2); [|done|done|done|by exists cx, c'].
      unfold close. destruct (Z.ltb_spec (CBS_len d) (256 ^ Z.of_nat n)) as [|Hge]; [done|].
      apply Z.div_small_iff in Hq; [lia|]. pose proof (pow_B_pos 256 ltac:(lia) n). lia.
    + rewrite Hz. intros w2 b2 Hq Hc2 Hw2. apply (HE _ b2); [by intros; rewrite Hc2|done|].
      intros x. unfold close. destruct (Z.ltb_spec (CBS_len d) (256 ^ Z.of_nat n)); [|done].
      rewrite Z.div_small in Hq; lia.
Qed.

Lemma CBB_flush_rec_unfold fuel cbb :
  CBB_flush_rec (S fuel) cbb =
  (ob ← cbb_get_base cbb;
   match ob with
   | None => return0
   | Some base =>
       b ← deref_buf base;
       if error b then return0
       else
         c ← deref_cbb cbb;
         match child c with
         | None => mret ()
         | Some cl =>
             ch ← deref_child cl;
             on_error (_ ← CBB_flush_rec fuel cl; flush_close cbb base cl (offset ch ⊞[64] pending_len_len ch) ch)
                      (cbb_on_error cbb)
         end
   end).
Proof. done. Qed.

Lemma wp_get_base root off k nx l cbb w (Q : option loc → world → Prop) (E : world → Prop) :
  cbbs w !! l = Some cbb → struct_ok root off k nx l cbb → Q (Some root) w → wp (cbb_get_base l) w Q E.
Proof.
  intros Hl [_ Hs] HQ. unfold cbb_get_base. apply wp_bind. eapply wp_deref_cbb; [done|]. apply wp_ret.
  destruct (u cbb); [by subst|]. by destruct Hs as [_ ->].
Qed.

Lemma struct_child root off k nx l cbb :
  struct_ok root off k nx l cbb → l ≠ root → ∃ nx', cbb = ghost_child root off (Z.of_nat (plen k)) (is_asn1 k) nx'.
Proof. intros [_ Hs] ?. destruct cbb as [x [|ch]]; cbn in Hs; [done|]. destruct Hs as [_ ->]. by exists x. Qed.

(** The error handler of a flush. *)
Lemma wp_flush_on_error root off k nx l cbb w b (Q : unit → world → Prop) (E : world → Prop) :
  cbbs w !! l = Some cbb → struct_ok root off k nx l cbb → bufs w !! root = Some b →
  Q () (mkWorld (<[l := mkCBB None (u cbb)]> (cbbs w)) (<[root := with_error b]> (bufs w)) (clock w)) →
  wp (cbb_on_error l) w Q E.
Proof.
  intros Hl Hs Hb HQ. unfold cbb_on_error. apply wp_bind. eapply wp_get_base; [done|done|].
  apply wp_bind, wp_ret, wp_bind. eapply wp_deref_buf; [done|]. apply wp_bind, wp_store_buf, wp_bind.
  eapply wp_deref_cbb; [done|]. by apply wp_store_cbb.
Qed.

(** The buffer at [root] has its error bit set; every other buffer, and every
    struct not in [L], is as it was. *)
Definition aborted (root : loc) (L : list loc) (w w' : world) : Prop :=
  (∀ l, l ∉ L → cbbs w' !! l = cbbs w !! l) ∧ ∃ b', bufs w' = <[root := b']> (bufs w) ∧ error b' = true.

Definition all_stale (m : gmap loc CBB) (L : list loc) : Prop := ∀ l, l ∈ L → ∃ c, m !! l = Some c ∧ stale c.

Lemma wp_flush_rec root fuel F L w b P l k c cbb (Q : unit → world → Prop) (E : world → Prop) :
  chain (cbbs w) root (CBS_len P) (l :: L) ((k, c) :: F) → NoDup (l :: L) → root ∉ L → cbbs w !! l = Some cbb →
  bufs w !! root = Some b → holds b (P ++ flat ((k, c) :: F)) → (length L < fuel)%nat →
  (∀ inner b' w', close_all F = Some inner → holds b' (P ++ (replicate (plen k) 0 ++ c) ++ inner) → grows b b' →
     bufs w' = <[root := b']> (bufs w) → cbbs w' !! l = Some (mkCBB None (u cbb)) →
     (∀ l', l' ∉ l :: L → cbbs w' !! l' = cbbs w !! l') → all_stale (cbbs w') L → Q () w') →
  (∀ w', aborted root (l :: L) w w' → cbbs w' !! l = Some (mkCBB None (u cbb)) →
     (∀ inner, close_all F = Some inner → ¬ room b (CBS_len (P ++ (replicate (plen k) 0 ++ c) ++ inner))) → E w') →
  wp (CBB_flush_rec fuel l) w Q E.
Proof.
  revert fuel L w b P l k c cbb Q E.
  induction F as [|[k1 c1] F IH]; intros fuel L w b P l k c cbb Q E Hch HL Hroot Hl Hb Hh Hfuel HQ HE;
    (destruct fuel as [|fuel]; [lia|]); rewrite CBB_flush_rec_unfold;
    cbn [chain] in Hch; destruct Hch as [(cbb' & Hl' & Hs) Hch];
    (assert (cbb' = cbb) as -> by congruence); clear Hl';
    apply wp_bind; (eapply wp_get_base; [done|done|]);
    apply wp_bind; (eapply wp_deref_buf; [done|]);
    (destruct (holds_len _ _ Hh) as (Hcap & Hlim & Hlen & ->));
    apply wp_bind; (eapply wp_deref_cbb; [done|]).
  - destruct L; [|done]. destruct Hs as [Hnone Hs]. rewrite Hnone. apply wp_ret.
    apply (HQ [] b); try done; [by rewrite insert_id| |].
    + rewrite Hl. destruct cbb as [x y]. cbn in Hnone. by subst.
    + by intros l' ?%elem_of_nil.
  - destruct L as [|l1 L]; [done|]. pose proof Hch as Hch0. cbn [chain] in Hch0.
    destruct Hch0 as [(cbb1 & Hl1 & Hs1) _].
    assert (Hchild : child cbb = Some l1) by apply Hs. rewrite Hchild.
    apply NoDup_cons in HL as [HlL HL]. apply not_elem_of_cons in HlL as [Hne HlL].
    apply not_elem_of_cons in Hroot as [Hr1 Hroot].
    destruct (struct_child _ _ _ _ _ _ Hs1 (not_eq_sym Hr1)) as [nx ->].
    set (X := replicate (plen k) 0 ++ c) in *.
    replace (CBS_len P + Z.of_nat (plen k) + CBS_len c) with (CBS_len (P ++ X)) in *.
    2: { subst X. rewrite !CBS_len_app. unfold CBS_len at 2. rewrite length_replicate. lia. }
    change (flat ((k, c) :: (k1, c1) :: F)) with (X ++ flat ((k1, c1) :: F)) in Hh.
    rewrite app_assoc in Hh.
    apply wp_bind. eapply wp_deref_child; [done|]. cbn [offset pending_len_len].
    rewrite wrap_small by (apply holds_prefix in Hh; pose proof (CBS_len_nonneg (P ++ X)); lia).
    apply wp_on_error, wp_bind.
    eapply (IH fuel L w b (P ++ X) l1 k1 c1); [done..|cbn in Hfuel; lia| |].
    + intros inner1 b1 w1 Hin Hh1 Hg1 Hw1 Hc1 Hframe Hst. rewrite <- (app_assoc _ c1) in Hh1.
      assert (Hlk : cbbs w1 !! l = Some cbb) by (rewrite Hframe; [done|by apply not_elem_of_cons]).
      eapply (wp_flush_close l root l1 None k1 w1 b1 (P ++ X) (c1 ++ inner1) cbb);
        [by rewrite Hw1, lookup_insert_eq|done|done|done|done| |].
      * intros x b2 w2 Hx Hh2 Hg2 Hw2 (cx & c' & Hcx & Hst' & Hc2). simplify_eq.
        apply (HQ x b2); [by cbn [close_all]; rewrite Hin|by rewrite <- app_assoc in Hh2|by etrans| | | |].
        -- by rewrite Hw2, Hw1, insert_insert_eq.
        -- by rewrite Hc2, lookup_insert_eq.
        -- intros l' [? [? ?]%not_elem_of_cons]%not_elem_of_cons. rewrite Hc2, !lookup_insert_ne by done.
           apply Hframe. by apply not_elem_of_cons.
        -- intros l' [->|Hin']%elem_of_cons; rewrite Hc2.
           ++ rewrite lookup_insert_ne, lookup_insert_eq by done. by eexists.
           ++ apply NoDup_cons in HL as [Hl1L _].
              rewrite !lookup_insert_ne; [by apply Hst|by intros ->..].
      * intros w2 b2 Hc2 Hw2 Hroom.
        eapply (wp_flush_on_error root); [by rewrite Hc2|done|by rewrite Hw2, lookup_insert_eq|].
        apply HE.
        -- split; [intros l' [? [? ?]%not_elem_of_cons]%not_elem_of_cons; cbn; rewrite lookup_insert_ne by done;
             rewrite Hc2 by done; apply Hframe; by apply not_elem_of_cons|].
           exists (with_error b2). split; [cbn|done]. by rewrite Hw2, Hw1, !insert_insert_eq.
        -- apply lookup_insert_eq.
        -- intros inner. cbn [close_all]. rewrite Hin. intros Hx Hr. apply (Hroom inner Hx).
           eapply room_grows; [done| |exact Hr]. fold X. rewrite !CBS_len_app. lia.
    + intros w1 [Hframe (b1 & Hw1 & He1)] _ Hroom.
      assert (Hlk : cbbs w1 !! l = Some cbb) by (rewrite Hframe; [done|by apply not_elem_of_cons]).
      eapply (wp_flush_on_error root); [done|done|by rewrite Hw1, lookup_insert_eq|].
      apply HE.
      * split; [intros l' [? ?]%not_elem_of_cons; cbn; rewrite lookup_insert_ne by done; by apply Hframe|].
        exists (with_error b1). split; [cbn|done]. by rewrite Hw1, !insert_insert_eq.
      * apply lookup_insert_eq.
      * intros inner. cbn [close_all]. destruct (close_all F) as [inner1|] eqn:Hin; [|done].
        intros Hx%close_length Hr. apply (Hroom inner1 eq_refl).
        eapply room_grows; [reflexivity| |exact Hr]. fold X. rewrite !CBS_len_app in *.
        unfold CBS_len at 3. rewrite length_replicate. lia.
Qed.
End flush.
