(* ===== verification/CbbOps.v ===== *)
(** The operations of cbb.c as operations on the abstract document: flushing,
    appending bytes, opening children. *)
From S2P Require Import Prelude Radix Mem Cbs Cbb CbbSpec CbbFlush.

Lemma CBS_len_replicate n x : CBS_len (replicate n x) = Z.of_nat n.
Proof. unfold CBS_len. by rewrite length_replicate. Qed.

Section ops.
Context {A : Allocator}.

(** The document of [root] may grow to [n] bytes. *)
Definition room_at (root : loc) (w : world) (n : Z) : Prop := ∃ b, bufs w !! root = Some b ∧ room b n.
Definition broken (root : loc) (w : world) : Prop := ∃ b, bufs w !! root = Some b ∧ error b = true.
(** The struct at [l] belongs to the document of [root]. *)
Definition base_is (root : loc) (w : world) (l : loc) : Prop :=
  ∃ cbb, cbbs w !! l = Some cbb ∧
    match u cbb with UBase => l = root | UChild ch => base ch = Some root end.
(** Nothing outside the structs [L] and their buffers changes. *)
Definition frame_ok (L : list loc) (w w' : world) : Prop :=
  ∀ l, l ∉ L → cbbs w' !! l = cbbs w !! l ∧ bufs w' !! l = bufs w !! l.

(** [m] takes the document at [L] to the frames [oF] at [L'].  It fails
    exactly when there is no such document or no room for it; then the error
    bit is set and the structs in [tips] are still usable. *)
Definition builds {T} (X : list loc) (m : B T) (w : world) (root : loc) (L tips L' : list loc)
    (oF : option (list frame)) : Prop :=
  wp m w
    (λ _ w', ∃ F, oF = Some F ∧ rep w' root L' F ∧ frame_ok (X ++ L) w w' ∧
       ∀ n, room_at root w n → room_at root w' n)
    (λ w', broken root w' ∧ (∀ l, l ∈ tips → base_is root w' l) ∧ frame_ok (X ++ L) w w' ∧
       ∀ F, oF = Some F → ¬ room_at root w (CBS_len (flat F))).

Lemma frame_ok_refl L w : frame_ok L w w. Proof. by split. Qed.
Lemma frame_ok_trans L L1 w w1 w2 : frame_ok L w w1 → frame_ok L1 w1 w2 → (∀ l, l ∈ L1 → l ∈ L) → frame_ok L w w2.
Proof.
  intros H1 H2 Hs l Hl. destruct (H1 l Hl) as [<- <-]. apply H2. naive_solver.
Qed.

Lemma room_at_le root w n n' : n' <= n → room_at root w n → room_at root w n'.
Proof. intros ? (b & ? & ?). exists b. split; [done|]. by eapply room_grows. Qed.

Lemma builds_bind {T S} X X' (m1 : B T) (m2 : T → B S) w root L tips L1 L2 oF1 oF2 :
  builds X m1 w root L tips L1 oF1 →
  (∀ a F1 w1, oF1 = Some F1 → rep w1 root L1 F1 → frame_ok (X ++ L) w w1 → builds X' (m2 a) w1 root L1 tips L2 oF2) →
  (∀ l, l ∈ X' ++ L1 → l ∈ X ++ L) →
  (∀ F2, oF2 = Some F2 → ∃ F1, oF1 = Some F1 ∧ CBS_len (flat F1) <= CBS_len (flat F2)) →
  builds X (m1 ≫= m2) w root L tips L2 oF2.
Proof.
  intros H1 H2 HX Hle. apply wp_bind. eapply wp_mono; [exact H1| |].
  - intros a w1 (F1 & HF1 & Hrep & Hfr & Hroom). eapply wp_mono; [by eapply H2| |].
    + intros b w2 (F2 & HF2 & Hrep2 & Hfr2 & Hroom2). exists F2. split_and!; try done.
      * by eapply frame_ok_trans.
      * auto.
    + intros w2 (Hbr & Htips & Hfr2 & Hno). split_and!; [done|done|by eapply frame_ok_trans|].
      intros F2 HF2 Hr. by apply (Hno F2 HF2), Hroom.
  - intros w1 (Hbr & Htips & Hfr & Hno). split_and!; [done..|].
    intros F2 HF2 Hr. destruct (Hle F2 HF2) as (F1 & HF1 & ?). apply (Hno F1 HF1).
    by eapply room_at_le.
Qed.

(** [m] appends [ox] to the contents of the CBB at [l], closing its children. *)
Definition appends {T} (X : list loc) (m : B T) (l : loc) (ox : option (list Z)) : Prop :=
  ∀ w root L1 F1 k c L2 F2,
    rep w root (L1 ++ l :: L2) (F1 ++ (k, c) :: F2) → length L1 = length F1 →
    (∀ x, x ∈ X → x ∉ L1 ++ l :: L2) →
    builds X m w root (L1 ++ l :: L2) (L1 ++ [l]) (L1 ++ [l])
      (inner ← close_all F2; x ← ox; Some (F1 ++ [(k, c ++ inner ++ x)])).

Lemma flat_len_snoc F1 k c : CBS_len (flat (F1 ++ [(k, c)])) = CBS_len (flat F1) + Z.of_nat (plen k) + CBS_len c.
Proof.
  rewrite flat_app, CBS_len_app. cbn [flat]. rewrite app_nil_r, CBS_len_app, CBS_len_replicate. lia.
Qed.

Lemma appends_seq {T S} X (m1 : B T) (m2 : T → B S) l x1 ox2 :
  appends X m1 l (Some x1) → (∀ a, appends X (m2 a) l ox2) → appends X (m1 ≫= m2) l (x2 ← ox2; Some (x1 ++ x2)).
Proof.
  intros H1 H2 w root L1 F1 k c L2 F2 Hrep HL HX.
  eapply (builds_bind X X); [by apply H1| | |].
  - intros a F w1 HF Hrep1 Hfr. destruct (close_all F2) as [inner|] eqn:Hin; [|done].
    injection HF as <-.
    specialize (H2 a w1 root L1 F1 k (c ++ inner ++ x1) [] [] Hrep1 HL).
    cbn [close_all] in H2. destruct ox2 as [x2|]; cbn -[flat] in *.
    + replace (c ++ inner ++ x1 ++ x2) with ((c ++ inner ++ x1) ++ x2) by by rewrite <- !app_assoc.
      apply H2. intros x Hx. specialize (HX x Hx). set_solver.
    + apply H2. intros x Hx. specialize (HX x Hx). set_solver.
  - set_solver.
  - intros F HF. destruct (close_all F2) as [inner|]; [|done]. destruct ox2 as [x2|]; [|done].
    cbn in *. injection HF as <-. eexists. split; [done|].
    rewrite !flat_len_snoc, !CBS_len_app. pose proof (CBS_len_nonneg x2). lia.
Qed.

(** ** Taking the representation apart *)
Lemma chain_split m root off L1 F1 l L2 f F2 :
  length L1 = length F1 → chain m root off (L1 ++ l :: L2) (F1 ++ f :: F2) →
  chain m root (off + CBS_len (flat F1)) (l :: L2) (f :: F2).
Proof.
  revert off F1. induction L1 as [|l1 L1 IH]; intros off [|[k1 c1] F1] Hlen; try done.
  - intros H. by rewrite Z.add_0_r.
  - cbn [app chain]. intros [_ H]. cbn [flat]. rewrite !CBS_len_app, CBS_len_replicate, Z.add_assoc, Z.add_assoc.
    apply IH; [|done]. by injection Hlen.
Qed.

Lemma chain_update m m' root off L1 F1 l L2 f F2 L2' f' F2' :
  length L1 = length F1 → (∀ l', l' ∈ L1 → m' !! l' = m !! l') →
  chain m root off (L1 ++ l :: L2) (F1 ++ f :: F2) →
  chain m' root (off + CBS_len (flat F1)) (l :: L2') (f' :: F2') →
  chain m' root off (L1 ++ l :: L2') (F1 ++ f' :: F2').
Proof.
  revert off F1. induction L1 as [|l1 L1 IH]; intros off [|[k1 c1] F1] Hlen Hm; try done.
  - intros _ H. by rewrite Z.add_0_r in H.
  - cbn [app]. intros [(cbb & Hl & Hs) H] H'. split.
    + exists cbb. split; [by rewrite Hm; [|left]|]. by destruct L1.
    + apply IH; [by injection Hlen| |done|].
      * intros. apply Hm. by right.
      * cbn [flat] in H'. by rewrite !CBS_len_app, CBS_len_replicate, Z.add_assoc, Z.add_assoc in H'.
Qed.

Lemma rep_update w w' root L1 F1 l k c L2 F2 L2' c' F2' b :
  rep w root (L1 ++ l :: L2) (F1 ++ (k, c) :: F2) → length L1 = length F1 →
  (∀ l', l' ∈ L1 → cbbs w' !! l' = cbbs w !! l') → NoDup (L1 ++ l :: L2') →
  chain (cbbs w') root (CBS_len (flat F1)) (l :: L2') ((k, c') :: F2') →
  bufs w' !! root = Some b → holds b (flat (F1 ++ (k, c') :: F2')) →
  rep w' root (L1 ++ l :: L2') (F1 ++ (k, c') :: F2').
Proof.
  intros (Hh & Hk & _ & Hch & _) Hlen Hm Hnd Hch' Hb Hhold.
  split_and!; [by destruct L1|by destruct F1| |by eapply (chain_update (cbbs w))|by exists b].
  done.
Qed.

Lemma rep_base w root L F l : rep w root L F → l ∈ L → base_is root w l.
Proof.
  intros (_ & _ & _ & Hch & _) Hl. revert Hch. generalize 0. revert F.
  induction L as [|l1 L IH]; intros [|[k c] F] off; [by apply elem_of_nil in Hl|done|done|].
  intros [(cbb & Hcbb & Hs) Hch]. apply elem_of_cons in Hl as [->|Hl]; [|by eapply IH].
  exists cbb. split; [done|]. destruct Hs as [_ Hs]. destruct (u cbb); [done|]. by destruct Hs as [_ ->].
Qed.

Lemma rep_root w root L F : rep w root L F → root ∈ L.
Proof. intros (Hh & _). destruct L; [done|]. injection Hh as ->. left. Qed.

(** The struct at the focus of the zipper. *)
Lemma rep_focus w root L1 F1 l k c L2 F2 :
  rep w root (L1 ++ l :: L2) (F1 ++ (k, c) :: F2) → length L1 = length F1 →
  chain (cbbs w) root (CBS_len (flat F1)) (l :: L2) ((k, c) :: F2) ∧ NoDup (l :: L2) ∧ root ∉ L2 ∧
  (∀ l', l' ∈ L1 → l' ∉ l :: L2) ∧
  (∃ cbb, cbbs w !! l = Some cbb ∧ struct_ok root (CBS_len (flat F1)) k (head L2) l cbb) ∧
  ∃ b, bufs w !! root = Some b ∧ holds b (flat F1 ++ flat ((k, c) :: F2)).
Proof.
  intros (Hh & _ & Hnd & Hch & b & Hb & Hhold) Hlen. apply chain_split in Hch; [|done].
  rewrite Z.add_0_l in Hch. apply NoDup_app in Hnd as (_ & Hdis & Hnd). rewrite flat_app in Hhold.
  split_and!; [done|done| |done|by apply Hch|by exists b].
  apply NoDup_cons in Hnd as [Hl Hnd]. destruct L1; cbn in Hh; injection Hh as ->; [done|].
  intros ?. apply (Hdis root); [left|by right].
Qed.

Lemma NoDup_take L1 (l : loc) L2 : NoDup (L1 ++ l :: L2) → NoDup (L1 ++ [l]).
Proof.
  intros (? & Hd & _)%NoDup_app. apply NoDup_app. split_and!; [done| |apply NoDup_singleton].
  intros l' Hl' ->%list_elem_of_singleton. apply (Hd l Hl'). left.
Qed.

(** The number of structs bounds the depth of the document. *)
Lemma chain_size m root off L F : NoDup L → chain m root off L F → (length L ≤ size m)%nat.
Proof.
  intros Hnd Hch. rewrite <- (size_list_to_set (C := gset loc) L) by done.
  rewrite <- size_dom. apply subseteq_size. intros l Hl%elem_of_list_to_set. apply elem_of_dom.
  revert off F Hch. clear Hnd. induction Hl as [l L|l l1 L _ IH]; intros off [|[k c] F]; try done.
  - intros [(cbb & -> & _) _]. done.
  - intros [_ H]. by eapply IH.
Qed.

Lemma appends_flush X l : appends X (CBB_flush l) l (Some []).
Proof.
  intros w root L1 F1 k c L2 F2 Hrep Hlen HX.
  destruct (rep_focus _ _ _ _ _ _ _ _ _ Hrep Hlen) as (Hch & Hnd & Hroot & Hdis & (cbb & Hl & Hs) & b & Hb & Hh).
  assert (Hroot' : root ∈ L1 ++ l :: L2) by by eapply rep_root.
  assert (Hsize : (length (l :: L2) ≤ size (cbbs w))%nat) by by eapply chain_size.
  unfold builds, CBB_flush.
  eapply (wp_flush_rec root _ F2 L2 w b (flat F1) l k c cbb); [done..| | |].
  - cbn in Hsize. lia.
  - intros inner b' w' Hin Hh' Hg Hw' Hl' Hfr Hst. rewrite Hin. eexists. split; [done|].
    cbn -[flat]. rewrite app_nil_r. split_and!.
    + eapply rep_update; [done|done| |eapply NoDup_take, Hrep| |by rewrite Hw', lookup_insert_eq|].
      * intros l' H'. apply Hfr. by apply Hdis.
      * split; [|done]. exists (mkCBB None (u cbb)). split; [done|]. by destruct Hs.
      * rewrite flat_app. cbn [flat]. by rewrite app_nil_r, <- app_assoc in *.
    + intros l' Hl1. split; [apply Hfr|]; [set_solver|].
      rewrite Hw', lookup_insert_ne; [done|]. set_solver.
    + intros n (b0 & Hb0 & Hr). exists b'. split; [by rewrite Hw', lookup_insert_eq|].
      assert (b0 = b) as -> by congruence. by eapply room_grows.
  - intros w' [Hfr (b' & Hw' & He)] Hl' Hno. split_and!.
    + exists b'. by rewrite Hw', lookup_insert_eq.
    + intros l' [H'| ->%list_elem_of_singleton]%elem_of_app.
      * destruct (rep_base _ _ _ _ l' Hrep) as (c' & ? & ?); [set_solver|]. exists c'. split; [|done].
        rewrite Hfr; [done|]. by apply Hdis.
      * exists (mkCBB None (u cbb)). split; [done|]. destruct (rep_base _ _ _ _ l Hrep) as (c' & ? & ?); [set_solver|].
        by simplify_eq.
    + intros l' Hl1. split; [apply Hfr|]; [set_solver|].
      rewrite Hw', lookup_insert_ne; [done|]. set_solver.
    + intros F HF (b0 & Hb0 & Hr). destruct (close_all F2) as [inner|]; [|done]. injection HF as <-.
      assert (b0 = b) as -> by congruence. apply (Hno inner eq_refl).
      eapply room_grows; [done| |exact Hr]. rewrite flat_len_snoc, app_nil_r, !CBS_len_app, CBS_len_replicate. lia.
Qed.

(** ** Appending at the tip *)

Lemma B_assoc {T S R} (m : B T) (f : T → B S) (g : S → B R) w : ((m ≫= f) ≫= g) w = (m ≫= (λ x, f x ≫= g)) w.
Proof. unfold mbind, B_bind. by destruct (m w). Qed.

Lemma builds_eq {T} X (m m' : B T) w root L tips L' oF :
  m w = m' w → builds X m w root L tips L' oF → builds X m' w root L tips L' oF.
Proof. unfold builds, wp. by intros ->. Qed.

(** [m] appends [ox] to a CBB without a pending child. *)
Definition tip_appends {T} (X : list loc) (m : B T) (l : loc) (ox : option (list Z)) : Prop :=
  ∀ w root L1 F1 k c,
    rep w root (L1 ++ [l]) (F1 ++ [(k, c)]) → length L1 = length F1 → (∀ x, x ∈ X → x ∉ L1 ++ [l]) →
    builds X m w root (L1 ++ [l]) (L1 ++ [l]) (L1 ++ [l]) (x ← ox; Some (F1 ++ [(k, c ++ x)])).

(** Run [CBB_flush], then a step at the tip that leaves the frames [G c]. *)
Lemma builds_after_flush {T} X (m : B T) l w root L1 F1 k c L2 F2 L' (G : list Z → option (list frame)) :
  rep w root (L1 ++ l :: L2) (F1 ++ (k, c) :: F2) → length L1 = length F1 →
  (∀ x, x ∈ X → x ∉ L1 ++ l :: L2) →
  (∀ c' F, G c' = Some F → CBS_len (flat (F1 ++ [(k, c')])) <= CBS_len (flat F)) →
  (∀ c' w1, rep w1 root (L1 ++ [l]) (F1 ++ [(k, c')]) → frame_ok (X ++ L1 ++ l :: L2) w w1 →
     builds X m w1 root (L1 ++ [l]) (L1 ++ [l]) L' (G c')) →
  builds X (_ ← CBB_flush l; m) w root (L1 ++ l :: L2) (L1 ++ [l]) L' (inner ← close_all F2; G (c ++ inner)).
Proof.
  intros Hrep Hlen HX HG Hm. eapply (builds_bind X X); [by apply appends_flush| | |].
  - intros _ F w1 HF Hrep1 Hfr. destruct (close_all F2) as [inner|]; [|done]. cbn in HF. injection HF as <-.
    rewrite app_nil_r in Hrep1. by apply Hm.
  - set_solver.
  - intros F HF. destruct (close_all F2) as [inner|]; [|done]. cbn in HF |- *. eexists. split; [done|].
    rewrite app_nil_r. by apply HG.
Qed.

Lemma appends_after_flush {T} X (m : B T) l ox :
  tip_appends X m l ox → appends X (_ ← CBB_flush l; m) l ox.
Proof.
  intros Hm w root L1 F1 k c L2 F2 Hrep Hlen HX.
  assert (E : (inner ← close_all F2; x ← ox; Some (F1 ++ [(k, c ++ inner ++ x)])) =
              (inner ← close_all F2; x ← ox; Some (F1 ++ [(k, (c ++ inner) ++ x)]))).
  { destruct (close_all F2) as [inner|]; [|done]. destruct ox as [x|]; [|done]. cbn. by rewrite <- app_assoc. }
  rewrite E. apply (builds_after_flush X m l w root L1 F1 k c L2 F2 _ (λ c', x ← ox; Some (F1 ++ [(k, c' ++ x)])));
    [done..| |].
  - intros c' F HF. destruct ox as [x|]; [|done]. injection HF as <-.
    rewrite !flat_len_snoc, CBS_len_app. pose proof (CBS_len_nonneg x). lia.
  - intros c' w1 Hrep1 Hfr. apply Hm; [done|done|]. intros x Hx. specialize (HX x Hx). set_solver.
Qed.

(** What holds after the buffer of a document has grown by [x]. *)
Lemma tip_post w root L1 F1 l k c x X b b' w' :
  rep w root (L1 ++ [l]) (F1 ++ [(k, c)]) → length L1 = length F1 → bufs w !! root = Some b →
  holds b' (flat (F1 ++ [(k, c)]) ++ x) → grows b b' →
  bufs w' = <[root := b']> (bufs w) → cbbs w' = cbbs w →
  rep w' root (L1 ++ [l]) (F1 ++ [(k, c ++ x)]) ∧ frame_ok (X ++ L1 ++ [l]) w w' ∧
  ∀ n, room_at root w n → room_at root w' n.
Proof.
  intros Hrep Hlen Hb Hh Hg Hw' Hc'. pose proof (rep_root _ _ _ _ Hrep) as Hroot.
  destruct (rep_focus _ _ _ _ _ _ _ _ _ Hrep Hlen) as (Hch & _).
  split_and!.
  - eapply rep_update; [done|done|by intros; rewrite Hc'|by destruct Hrep as (_&_&?&_)| |by rewrite Hw', lookup_insert_eq|].
    + rewrite Hc'. cbn [chain] in *. naive_solver.
    + rewrite flat_app in *. cbn [flat] in *. by rewrite app_nil_r in *; rewrite <- !app_assoc in *.
  - intros l' Hl'. rewrite Hc', Hw', lookup_insert_ne; [done|]. intros <-. set_solver.
  - intros n (b0 & Hb0 & Hr). exists b'. rewrite Hw', lookup_insert_eq. split; [done|].
    assert (b0 = b) as -> by congruence. by eapply room_grows.
Qed.

Lemma tip_fail w root L F X w' :
  rep w root L F → failed root w w' →
  broken root w' ∧ (∀ l, l ∈ L → base_is root w' l) ∧ frame_ok (X ++ L) w w'.
Proof.
  intros Hrep [Hc' (b' & Hw' & He)]. pose proof (rep_root _ _ _ _ Hrep) as Hroot. split_and!.
  - exists b'. by rewrite Hw', lookup_insert_eq.
  - intros l Hl. unfold base_is. rewrite Hc'. by apply (rep_base _ _ _ _ _ Hrep).
  - intros l' Hl'. rewrite Hc', Hw', lookup_insert_ne; [done|]. intros <-. set_solver.
Qed.

Lemma wp_tip_base w root L1 F1 l k c L2 F2 (Q : option loc → world → Prop) (E : world → Prop) :
  rep w root (L1 ++ l :: L2) (F1 ++ (k, c) :: F2) → length L1 = length F1 →
  Q (Some root) w → wp (cbb_get_base l) w Q E.
Proof.
  intros Hrep Hlen HQ. destruct (rep_focus _ _ _ _ _ _ _ _ _ Hrep Hlen) as (_ & _ & _ & _ & (cbb & ? & ?) & _).
  by eapply wp_get_base.
Qed.

(** Make room for [n] bytes at the tip, then continue with [g], which writes
    [x] there and leaves everything else alone. *)
Lemma builds_add_space {T} X l n x (g : Z → B T) w root L1 F1 k c oF :
  rep w root (L1 ++ [l]) (F1 ++ [(k, c)]) → length L1 = length F1 → 0 <= n < 2 ^ 64 →
  (∀ b b' pad w1, bufs w !! root = Some b → holds b' (flat (F1 ++ [(k, c)]) ++ pad) → CBS_len pad = n → grows b b' →
     bufs w1 = <[root := b']> (bufs w) → cbbs w1 = cbbs w →
     rep w1 root (L1 ++ [l]) (F1 ++ [(k, c ++ pad)]) →
     wp (g (CBS_len (flat (F1 ++ [(k, c)])))) w1
       (λ _ w', ∃ b'', oF = Some (F1 ++ [(k, c ++ x)]) ∧ holds b'' (flat (F1 ++ [(k, c)]) ++ x) ∧ grows b' b'' ∧
          bufs w' = <[root := b'']> (bufs w1) ∧ cbbs w' = cbbs w1)
       (λ w', oF = None ∧ broken root w' ∧ cbbs w' = cbbs w1 ∧ ∀ r, r ≠ root → bufs w' !! r = bufs w1 !! r)) →
  (∀ F, oF = Some F → CBS_len (flat (F1 ++ [(k, c)])) + n <= CBS_len (flat F)) →
  builds X (ob ← cbb_get_base l; off ← cbb_buffer_add ob n; g off) w root (L1 ++ [l]) (L1 ++ [l]) (L1 ++ [l]) oF.
Proof.
  intros Hrep Hlen Hn Hg HF. unfold builds. apply wp_bind. eapply wp_tip_base; [done..|].
  pose proof (rep_root _ _ _ _ Hrep) as Hroot.
  assert (exists b, bufs w !! root = Some b ∧ holds b (flat (F1 ++ [(k, c)]))) as (b & Hb & Hh)
    by (destruct Hrep as (_&_&_&_&b&?&?); by exists b).
  apply wp_bind. eapply (wp_buffer_add root b); [done..| |].
  - intros b' pad w1 Hh1 Hpad Hg1 Hw1 Hc1.
    destruct (tip_post w root L1 F1 l k c pad [] b b' w1 Hrep Hlen Hb Hh1 Hg1 Hw1 Hc1) as (Hrep1 & _ & _).
    eapply wp_mono; [by eapply Hg| |].
    + intros a w' (b'' & -> & Hh2 & Hg2 & Hw2 & Hc2). eexists. split; [done|].
      eapply (tip_post w root L1 F1 l k c x X b b'' w'); try done; [by etrans|..].
      * by rewrite Hw2, Hw1, insert_insert_eq.
      * by rewrite Hc2, Hc1.
    + intros w' (-> & Hbr & Hc2 & Hw2). split_and!; [done| | |done].
      * intros l' Hl'. unfold base_is. rewrite Hc2, Hc1. by apply (rep_base _ _ _ _ _ Hrep).
      * intros l' Hl'. rewrite Hc2, Hc1. split; [done|].
        assert (l' ≠ root) by (intros ->; set_solver). by rewrite Hw2, Hw1, lookup_insert_ne by done.
  - intros Hno w' Hf. destruct (tip_fail w root _ _ X w' Hrep Hf) as (? & ? & ?). split_and!; [done..|].
    intros F HF' (b0 & Hb0 & Hr). apply Hno. assert (b0 = b) as -> by congruence.
    eapply room_grows; [done|by apply HF|done].
Qed.

Lemma appends_eq {T} X (m m' : B T) l ox : (∀ w, m w = m' w) → appends X m l ox → appends X m' l ox.
Proof. intros E H w root L1 F1 k c L2 F2 ???. eapply builds_eq; [apply E|]. by apply H. Qed.

Lemma CBB_add_space_bind {T} l n (g : Z → B T) w :
  (CBB_add_space l n ≫= g) w =
  (_ ← CBB_flush l; ob ← cbb_get_base l; off ← cbb_buffer_add ob n; g off) w.
Proof.
  unfold CBB_add_space, mbind, B_bind. destruct (CBB_flush l w) as [? w'| |]; [|done..].
  by destruct (cbb_get_base l w').
Qed.

(** Fill the new space with [data]. *)
Lemma appends_space_write X l data :
  bytes_ok data → CBS_len data < 2 ^ 64 →
  appends X (off ← CBB_add_space l (CBS_len data); write_space l off data) l (Some data).
Proof.
  intros Hd Hlen. eapply appends_eq; [intros; symmetry; apply CBB_add_space_bind|].
  apply appends_after_flush. intros w root L1 F1 k c Hrep HL _. cbn.
  pose proof (CBS_len_nonneg data).
  eapply (builds_add_space X l (CBS_len data) data (λ off, write_space l off data)); [done|done|lia| |].
  - intros b b' pad w1 Hb Hh Hpad Hg Hw1 Hc1 Hrep1. unfold write_space.
    apply wp_bind. eapply wp_tip_base; [done..|]. apply wp_bind, wp_ret.
    eapply (wp_write_mid w1 root b' _ pad [] data); [by rewrite Hw1, lookup_insert_eq| |unfold CBS_len in Hpad; lia|done|].
    { by rewrite app_nil_r. }
    intros b2 Hh2 Hg2. rewrite app_nil_r in Hh2. exists b2. done.
  - intros F [= <-]. rewrite !flat_len_snoc, CBS_len_app. lia.
Qed.

Lemma appends_add_bytes X l data :
  bytes_ok data → CBS_len data < 2 ^ 64 → appends X (CBB_add_bytes l data) l (Some data).
Proof. apply appends_space_write. Qed.

Lemma appends_add_zeros X l n :
  0 <= n < 2 ^ 64 → appends X (CBB_add_zeros l n) l (Some (replicate (Z.to_nat n) 0)).
Proof.
  intros Hn. unfold CBB_add_zeros.
  assert (E : n = CBS_len (replicate (Z.to_nat n) 0)) by (rewrite CBS_len_replicate; lia).
  rewrite E at 1. apply appends_space_write; [apply Forall_replicate; lia|lia].
Qed.

(** A big-endian integer of [n] bytes; a value that does not fit is an error. *)
Lemma appends_add_u X l v n :
  (n ≤ 8)%nat → 0 <= v →
  appends X (cbb_add_u l v (Z.of_nat n)) l (if v <? 256 ^ Z.of_nat n then Some (be_bytes n v) else None).
Proof.
  intros Hn Hv. unfold cbb_add_u. eapply appends_eq; [intros; symmetry; apply CBB_add_space_bind|].
  apply appends_after_flush. intros w root L1 F1 k c Hrep HL _.
  assert (Hok : bytes_ok (be_bytes n v)) by (apply (digits_be_ok 256); lia).
  eapply (builds_add_space X l (Z.of_nat n) (be_bytes n v)); [done|done|lia| |].
  - intros b b' pad w1 Hb Hh Hpad Hg Hw1 Hc1 Hrep1. apply wp_bind. eapply wp_tip_base; [done..|].
    apply wp_bind, wp_ret, wp_bind. assert (Hpl : length pad = n) by (unfold CBS_len in Hpad; lia).
    rewrite Nat2Z.id, <- Hpl at 1.
    eapply (wp_store_be_loop root w1 b' _ pad []); [by rewrite Hw1, lookup_insert_eq|by rewrite app_nil_r|done|].
    intros b2 w2 Hh2 Hg2 Hw2 Hc2. rewrite Hpad. rewrite app_nil_r, Hpl in Hh2.
    pose proof (pow_B_pos 256 ltac:(lia) n) as Hpos.
    destruct (Z.ltb_spec v (256 ^ Z.of_nat n)) as [Hlt|Hge].
    + rewrite Z.div_small by lia. cbn [negb Z.eqb]. apply wp_ret. by exists b2.
    + destruct (Z.eqb_spec (v / 256 ^ Z.of_nat n) 0) as [E%Z.div_small_iff|]; [lia..|]. cbn [negb].
      apply wp_bind. destruct (rep_focus _ _ _ _ _ _ _ _ _ Hrep1 HL) as (_&_&_&_&(cbb & Hl & Hs)&_).
      rewrite <- Hc2 in Hl.
      eapply (wp_flush_on_error root); [done|done|by rewrite Hw2, lookup_insert_eq|]. apply wp_return0.
      split_and!; [done|eexists; split; [apply lookup_insert_eq|done]| |].
      * cbn. rewrite <- Hc2. destruct cbb as [x y]. assert (x = None) as -> by apply Hs. by rewrite insert_id.
      * intros r ?. cbn. by rewrite lookup_insert_ne, Hw2, lookup_insert_ne.
  - intros F. destruct (v <? 256 ^ Z.of_nat n); [|done]. intros [= <-].
    rewrite !flat_len_snoc, CBS_len_app. assert (CBS_len (be_bytes n v) = Z.of_nat n); [|lia].
    unfold CBS_len. by rewrite length_digits_be.
Qed.

Lemma appends_add_u8 X l v : is_byte v → appends X (CBB_add_u8 l v) l (Some [v]).
Proof.
  intros Hv. pose proof (appends_add_u X l v 1 ltac:(lia) ltac:(lia)) as H.
  change (256 ^ Z.of_nat 1) with 256 in H. destruct (Z.ltb_spec v 256); [|lia].
  cbn [digits_be] in H. by rewrite Z.mod_small in H by lia.
Qed.

(** ** Sequences of steps at the tip *)

Lemma tip_of_appends {T} X (m : B T) l ox : appends X m l ox → tip_appends X m l ox.
Proof.
  intros H w root L1 F1 k c Hrep HL HX. specialize (H w root L1 F1 k c [] [] Hrep HL HX).
  cbn -[flat] in H. by destruct ox.
Qed.

Lemma tip_ret {T} X (a : T) l : tip_appends X (mret a) l (Some []).
Proof.
  intros w root L1 F1 k c Hrep HL HX. apply wp_ret. eexists. split; [done|].
  rewrite app_nil_r. by split_and!.
Qed.

Lemma tip_seq {T S} X (m1 : B T) (m2 : T → B S) l x1 ox2 :
  tip_appends X m1 l (Some x1) → (∀ a, tip_appends X (m2 a) l ox2) →
  tip_appends X (m1 ≫= m2) l (x2 ← ox2; Some (x1 ++ x2)).
Proof.
  intros H1 H2 w root L1 F1 k c Hrep HL HX.
  eapply (builds_bind X X); [by apply H1| |by set_solver|].
  - intros a F w1 HF Hrep1 Hfr. cbn in HF. injection HF as <-.
    specialize (H2 a w1 root L1 F1 k (c ++ x1) Hrep1 HL HX).
    destruct ox2 as [x2|]; cbn -[flat] in *; [|done]. by rewrite <- app_assoc in H2.
  - intros F HF. destruct ox2 as [x2|]; [|done]. cbn in *. injection HF as <-. eexists. split; [done|].
    rewrite !flat_len_snoc, !CBS_len_app. pose proof (CBS_len_nonneg x2). lia.
Qed.

Lemma tip_seq_Some {T S} X (m1 : B T) (m2 : T → B S) l x1 x2 x :
  x = x1 ++ x2 → tip_appends X m1 l (Some x1) → (∀ a, tip_appends X (m2 a) l (Some x2)) →
  tip_appends X (m1 ≫= m2) l (Some x).
Proof. intros ->. apply tip_seq. Qed.

(** ** Base-128 integers *)

Lemma base128_byte v i :
  0 <= v → (v ≫ (7 * Z.of_nat i)) .& 0x7f = (v / 128 ^ Z.of_nat i) mod 128.
Proof.
  intros Hv. change 0x7f with (Z.ones 7). rewrite Z.land_ones, Z.shiftr_div_pow2 by lia.
  by rewrite Z.pow_mul_r by lia.
Qed.

Lemma tip_base128_loop X l n v :
  0 <= v → tip_appends X (add_base128_loop l n v) l (Some (with_more (digits_be 128 n v))).
Proof.
  intros Hv. induction n as [|n IH]; [apply tip_ret|].
  rewrite digits_be_cons by lia. cbn [add_base128_loop]. rewrite base128_byte by done.
  pose proof (Z.mod_pos_bound (v / 128 ^ Z.of_nat n) 128 ltac:(lia)) as Hd.
  generalize dependent ((v / 128 ^ Z.of_nat n) mod 128). intros d Hd.
  assert (E : (if negb (Z.of_nat n =? 0) then d .| 0x80 else d) = match n with O => d | S _ => d + 128 end).
  { destruct n; [done|]. cbn [negb Z.of_nat Z.eqb]. rewrite Z.lor_comm.
    change 0x80 with (1 * 2 ^ 7) at 1. rewrite lor_mul_add by lia. change (negb _) with true. cbv iota. lia. }
  rewrite E. apply (tip_seq_Some X _ _ l [match n with O => d | S _ => d + 128 end] (with_more (digits_be 128 n v))).
  - destruct n; [done|]. by rewrite digits_be_cons by lia.
  - apply tip_of_appends, appends_add_u8. destruct n; lia.
  - intros _. exact IH.
Qed.

Lemma base128_count_ndigits fuel v : 0 <= v → base128_count fuel v = Z.of_nat (ndigits 128 fuel v).
Proof.
  revert v. induction fuel as [|fuel IH]; intros v Hv; [done|]. cbn [base128_count ndigits].
  destruct (Z.gtb_spec v 0); [|done]. rewrite IH by (apply Z.shiftr_nonneg; lia).
  rewrite Z.shiftr_div_pow2 by lia. change (2 ^ 7) with 128. lia.
Qed.

Lemma tip_base128_integer X l v :
  in_range 64 v → tip_appends X (add_base128_integer l v) l (Some (base128_bytes v)).
Proof.
  intros Hv. unfold add_base128_integer, base128_bytes, base128_len.
  rewrite base128_count_ndigits by lia.
  assert (E : ndigits 128 64 v = ndigits 128 10 v).
  { destruct (decide (v = 0)) as [->|]; [done|].
    destruct (ndigits_bound 128 ltac:(lia) 10 v ltac:(lia)) as [? ?].
    apply ndigits_unique; lia. }
  rewrite E. replace (Z.to_nat _) with (Nat.max 1 (ndigits 128 10 v)); [apply tip_base128_loop; lia|].
  destruct (Z.eqb_spec (Z.of_nat (ndigits 128 10 v)) 0); lia.
Qed.

(** The identifier octets. *)
Lemma tag_bits_b : forallb (λ b, (b .& 0xe0 =? b / 32 * 32) && (b / 32 * 32 .| 0x1f =? b / 32 * 32 + 31) &&
    forallb (λ n, b / 32 * 32 .| n =? b / 32 * 32 + n) (seqZ 0 32)) (seqZ 0 256) = true.
Proof. vm_compute. reflexivity. Qed.

Lemma tag_bits tag :
  in_range 32 tag →
  let bits := (tag ≫ CBS_ASN1_TAG_SHIFT) .& 0xe0 in
  bits = tag / 2 ^ 29 * 32 ∧ bits .| 0x1f = bits + 31 ∧ (∀ n, 0 <= n < 32 → bits .| n = bits + n) ∧
  0 <= bits <= 224.
Proof.
  intros Ht. cbn zeta. change CBS_ASN1_TAG_SHIFT with 24. rewrite Z.shiftr_div_pow2 by lia.
  assert (Hb : is_byte (tag / 2 ^ 24)) by (split; [apply Z.div_pos|apply Z.div_lt_upper_bound]; lia).
  pose proof (forallb_seqZ _ _ _ tag_bits_b _ Hb) as H. cbn beta in H.
  apply andb_true_iff in H as [[H1%Z.eqb_eq H2%Z.eqb_eq]%andb_true_iff H3].
  rewrite H1. assert (E : tag / 2 ^ 24 / 32 = tag / 2 ^ 29) by by rewrite Z.div_div by lia. rewrite E in *.
  assert (0 <= tag / 2 ^ 29 < 8) by (split; [apply Z.div_pos|apply Z.div_lt_upper_bound]; lia).
  split_and!; [done|done| |lia|lia]. intros n Hn. by apply Z.eqb_eq, (forallb_seqZ _ _ _ H3 n Hn).
Qed.

Lemma tip_asn1_tag X l tag :
  in_range 32 tag →
  tip_appends X
    (let tag_bits := (tag ≫ CBS_ASN1_TAG_SHIFT) .& 0xe0 in
     let tag_number := tag .& CBS_ASN1_TAG_NUMBER_MASK in
     if tag_number >=? 0x1f then
       _ ← CBB_add_u8 l (tag_bits .| 0x1f); add_base128_integer l tag_number
     else CBB_add_u8 l (u8 (tag_bits .| tag_number))) l (Some (asn1_tag_bytes tag)).
Proof.
  intros Ht. destruct (tag_bits tag Ht) as (H1 & H2 & H3 & H4). cbn zeta in *. unfold asn1_tag_bytes.
  set (bits := (tag ≫ CBS_ASN1_TAG_SHIFT) .& 0xe0) in *. rewrite <- H1, H2.
  change CBS_ASN1_TAG_NUMBER_MASK with (Z.ones 29). rewrite Z.land_ones by lia.
  pose proof (Z.mod_pos_bound tag (2 ^ 29) ltac:(lia)).
  rewrite Z.geb_leb. destruct (Z.leb_spec 31 (tag mod 2 ^ 29)), (Z.ltb_spec (tag mod 2 ^ 29) 31); try lia.
  - apply (tip_seq_Some X _ _ l [bits + 31] (base128_bytes (tag mod 2 ^ 29))); [done| |intros _].
    + apply tip_of_appends, appends_add_u8. lia.
    + apply tip_base128_integer. lia.
  - rewrite H3, wrap_small by lia. apply tip_of_appends, appends_add_u8. lia.
Qed.

(** ** Children *)

Lemma holds_children F1 k c : flat (F1 ++ [(k, c)]) = flat F1 ++ replicate (plen k) 0 ++ c.
Proof. rewrite flat_app. cbn [flat]. by rewrite app_nil_r. Qed.

(** Opening a child adds an empty frame. *)
Lemma builds_add_child l child k' w root L1 F1 k c :
  rep w root (L1 ++ [l]) (F1 ++ [(k, c)]) → length L1 = length F1 → child ∉ L1 ++ [l] →
  (plen k' ≤ 8)%nat →
  builds [child] (cbb_add_child l child (Z.of_nat (plen k')) (is_asn1 k')) w root
    (L1 ++ [l]) (L1 ++ [l]) (L1 ++ [l; child]) (Some (F1 ++ [(k, c); (k', [])])).
Proof.
  intros Hrep HL Hchild Hk'. pose proof (rep_root _ _ _ _ Hrep) as Hroot.
  destruct (rep_focus _ _ _ _ _ _ _ _ _ Hrep HL) as (_&_&_&_&(cbb & Hl & Hs)&b & Hb & Hh).
  cbn [flat] in Hh. rewrite app_nil_r, <- holds_children in Hh.
  assert (Hlen : len b = CBS_len (flat (F1 ++ [(k, c)]))) by by apply holds_len.
  assert (child ≠ root) by (intros ->; done). assert (child ≠ l) by set_solver.
  unfold builds, cbb_add_child. apply wp_bind. eapply wp_get_base; [done..|]. apply wp_bind, wp_ret, wp_bind.
  eapply wp_deref_buf; [done|]. apply wp_bind. eapply wp_buffer_add; [done|done|lia| |].
  2: { intros Hno w' Hf. destruct (tip_fail w root _ _ [child] w' Hrep Hf) as (? & ? & ?). split_and!; [done..|].
       intros F [= <-] (b0 & Hb0 & Hr). apply Hno. assert (b0 = b) as -> by congruence.
       eapply room_grows; [done| |exact Hr]. rewrite (cons_middle (k, c) F1 [(k', [])]), (app_assoc F1).
       rewrite !flat_len_snoc. change (CBS_len []) with 0. lia. }
  intros b1 pad w1 Hh1 Hpad Hg1 Hw1 Hc1. apply wp_bind.
  rewrite Nat2Z.id.
  eapply (wp_write_mid w1 root b1 _ pad [] (replicate (plen k') 0));
    [by rewrite Hw1, lookup_insert_eq|by rewrite app_nil_r|rewrite length_replicate; unfold CBS_len in Hpad; lia
    |apply Forall_replicate; lia|].
  intros b2 Hh2 Hg2. rewrite app_nil_r in Hh2.
  apply wp_bind. unfold CBB_zero, wp at 1. apply wp_bind. unfold wp at 1.
  apply wp_bind, wp_store_cbb, wp_bind. eapply wp_deref_cbb.
  { cbn. rewrite !lookup_insert_ne, Hc1 by done. exact Hl. }
  apply wp_store_cbb. eexists. split; [done|]. rewrite Hlen. split_and!.
  - replace (L1 ++ [l; child]) with (L1 ++ l :: [child]) by done.
    eapply (rep_update w _ root L1 F1 l k c [] [] [child] c [(k', [])] b2 Hrep HL).
    + intros l' Hl'. cbn. rewrite !lookup_insert_ne, Hc1; [done|..]; intros ->; [set_solver| set_solver|].
      destruct Hrep as (_&_&Hnd&_). apply NoDup_app in Hnd as (_ & Hd & _). apply (Hd l'); [done|left].
    + rewrite (cons_middle l L1 [child]), (app_assoc L1). apply NoDup_app. split_and!; [by destruct Hrep as (_&_&?&_)| |apply NoDup_singleton].
      intros l' ? ->%list_elem_of_singleton. done.
    + cbn -[flat]. split_and!; [|eexists; split; [by rewrite lookup_insert_ne, lookup_insert_eq by done|]|done].
      * eexists. split; [apply lookup_insert_eq|]. by destruct Hs.
      * split; [done|]. split; [done|]. cbn -[flat]. do 2 f_equal. rewrite holds_children, !CBS_len_app, CBS_len_replicate. lia.
    + cbn. by rewrite lookup_delete_ne, lookup_insert_ne, lookup_insert_eq by done.
    + rewrite (cons_middle (k, c) F1 [(k', [])]), (app_assoc F1), flat_app. cbn [flat]. by rewrite !app_nil_r.
  - intros l' Hl'. cbn. assert (l' ≠ l ∧ l' ≠ child ∧ l' ≠ root) as (? & ? & ?) by (split_and!; intros ->; set_solver).
    rewrite !lookup_insert_ne, lookup_delete_ne, !lookup_insert_ne, Hc1, Hw1, !lookup_insert_ne by done. done.
  - intros n (b0 & Hb0 & Hr). exists b2. cbn. rewrite lookup_delete_ne, lookup_insert_ne, lookup_insert_eq by done.
    split; [done|]. assert (b0 = b) as -> by congruence. eapply (room_grows b); [by transitivity b1|reflexivity|exact Hr].
Qed.

(** [m] writes [hd] to the CBB at [l] and opens [child] in it. *)
Definition opens (m : B unit) (l child : loc) (k' : pending) (hd : list Z) : Prop :=
  ∀ w root L1 F1 k c L2 F2,
    rep w root (L1 ++ l :: L2) (F1 ++ (k, c) :: F2) → length L1 = length F1 → child ∉ L1 ++ l :: L2 →
    builds [child] m w root (L1 ++ l :: L2) (L1 ++ [l]) (L1 ++ [l; child])
      (inner ← close_all F2; Some (F1 ++ [(k, c ++ inner ++ hd); (k', [])])).

Lemma flat_two F1 k c k' c' :
  CBS_len (flat (F1 ++ [(k, c); (k', c')])) = CBS_len (flat (F1 ++ [(k, c)])) + Z.of_nat (plen k') + CBS_len c'.
Proof. by rewrite (cons_middle (k, c) F1 [(k', c')]), (app_assoc F1), flat_len_snoc. Qed.

Lemma opens_add_child (h : B unit) l child k' hd :
  tip_appends [] h l (Some hd) → (plen k' ≤ 8)%nat →
  opens (_ ← CBB_flush l; _ ← h; cbb_add_child l child (Z.of_nat (plen k')) (is_asn1 k')) l child k' hd.
Proof.
  intros Hh Hk w root L1 F1 k c L2 F2 Hrep HL Hchild.
  assert (E : (inner ← close_all F2; Some (F1 ++ [(k, c ++ inner ++ hd); (k', [])])) =
              (inner ← close_all F2; Some (F1 ++ [(k, (c ++ inner) ++ hd); (k', [])]))).
  { destruct (close_all F2); [cbn; by rewrite <- app_assoc|done]. }
  rewrite E.
  apply (builds_after_flush [child] _ l w root L1 F1 k c L2 F2 _ (λ c', Some (F1 ++ [(k, c' ++ hd); (k', [])])));
    [done|done|set_solver| |].
  - intros c' F [= <-]. rewrite flat_two, !flat_len_snoc, CBS_len_app.
    pose proof (CBS_len_nonneg hd). pose proof (CBS_len_nonneg []). lia.
  - intros c' w1 Hrep1 Hfr.
    eapply (builds_bind [child] [child] _ _ _ _ _ _ (L1 ++ [l]) _ (Some (F1 ++ [(k, c' ++ hd)]))); [|intros [] F w2 HF Hrep2 _|set_solver|].
    + specialize (Hh w1 root L1 F1 k c' Hrep1 HL). cbn -[flat] in Hh.
      eapply wp_mono; [apply Hh; set_solver| |].
      * intros a w2 (F & ? & ? & Hfr2 & ?). exists F. split_and!; try done. intros x Hx. apply Hfr2. set_solver.
      * intros w2 (? & ? & Hfr2 & ?). split_and!; try done. intros x Hx. apply Hfr2. set_solver.
    + injection HF as <-. apply builds_add_child; [done|done|set_solver|done].
    + intros F [= <-]. eexists. split; [done|]. rewrite flat_two. pose proof (CBS_len_nonneg []). lia.
Qed.

Lemma opens_add_asn1 l child tag :
  in_range 32 tag → opens (CBB_add_asn1 l child tag) l child PAsn1 (asn1_tag_bytes tag).
Proof. intros Ht. apply (opens_add_child _ l child PAsn1); [by apply tip_asn1_tag|cbn; lia]. Qed.

Lemma opens_length_prefixed l child n :
  (n ≤ 8)%nat → opens (cbb_add_length_prefixed l child (Z.of_nat n)) l child (PFixed n) [].
Proof.
  intros Hn w root L1 F1 k c L2 F2 Hrep HL Hchild.
  eapply (builds_eq _ (_ ← CBB_flush l; _ ← mret (); cbb_add_child l child (Z.of_nat (plen (PFixed n))) (is_asn1 (PFixed n)))); [done|].
  by apply (opens_add_child (mret ()) l child (PFixed n) []); [apply tip_ret|..].
Qed.

(** Open a child, and fill it. *)
Lemma builds_child {T} (m1 : B unit) (m2 : B T) l child k' hd ox w root L1 F1 k c L2 F2 :
  opens m1 l child k' hd → tip_appends [] m2 child ox →
  rep w root (L1 ++ l :: L2) (F1 ++ (k, c) :: F2) → length L1 = length F1 → child ∉ L1 ++ l :: L2 →
  builds [child] (_ ← m1; m2) w root (L1 ++ l :: L2) (L1 ++ [l]) (L1 ++ [l; child])
    (inner ← close_all F2; x ← ox; Some (F1 ++ [(k, c ++ inner ++ hd); (k', x)])).
Proof.
  intros H1 H2 Hrep HL Hchild. eapply (builds_bind [child] []); [by apply H1| |set_solver|].
  - intros _ F w1 HF Hrep1 _. destruct (close_all F2) as [inner|]; [|done]. cbn in HF. injection HF as <-.
    rewrite (cons_middle l L1 [child]), (app_assoc L1) in *.
    rewrite (cons_middle _ F1 [(k', [])]), (app_assoc F1) in Hrep1.
    assert (HL' : length (L1 ++ [l]) = length (F1 ++ [(k, c ++ inner ++ hd)])) by (rewrite !length_app; cbn; lia).
    specialize (H2 w1 root _ _ k' [] Hrep1 HL' ltac:(set_solver)).
    eapply wp_mono; [exact H2| |].
    + intros a w2 (F & HF & ?). exists F. split; [|done]. destruct ox as [x|]; [|done]. cbn in *.
      injection HF as <-. f_equal. by rewrite <- app_assoc.
    + intros w2 (? & Htips & ? & Hno). split_and!; [done|intros; apply Htips; set_solver|done|].
      intros F HF. apply (Hno F). destruct ox as [x|]; [|done]. cbn in *. rewrite <- app_assoc. exact HF.
  - intros F HF. destruct (close_all F2) as [inner|]; [|done]. destruct ox as [x|]; [|done]. cbn in HF.
    injection HF as <-. eexists. split; [done|]. rewrite !flat_two. pose proof (CBS_len_nonneg x). change (CBS_len []) with 0. lia.
Qed.

End ops.
