(* ===== verification/CbbAsn1.v ===== *)
(** The composite writers of cbb.c: DER elements, INTEGERs, strings.  Each one
    appends the encoding that the CBS library defines, or fails. *)
From S2P Require Import Prelude Radix Mem Cbs Cbb CbbSpec CbbFlush CbbOps.

Section asn1.
Context {A : Allocator}.

(** ** Error handlers and local builders *)

Lemma wp_cbb_on_error root l w (Q : unit → world → Prop) (E : world → Prop) :
  base_is root w l → broken root w →
  (∀ w', broken root w' → (∀ l', base_is root w l' → base_is root w' l') →
     frame_ok [l; root] w w' → Q () w') →
  wp (cbb_on_error l) w Q E.
Proof.
  intros (cbb & Hl & Hu) (b & Hb & _) HQ. unfold cbb_on_error, cbb_get_base. apply wp_bind, wp_bind.
  eapply wp_deref_cbb; [done|]. apply wp_ret, wp_bind.
  assert (E0 : (match u cbb with UBase => Some l | UChild ch => base ch end) = Some root).
  { destruct (u cbb); [by rewrite Hu|done]. }
  rewrite E0. apply wp_ret, wp_bind. eapply wp_deref_buf; [done|]. apply wp_bind, wp_store_buf, wp_bind.
  eapply wp_deref_cbb; [done|]. apply wp_store_cbb, HQ.
  - exists (with_error b). split; [apply lookup_insert_eq|done].
  - intros l' (c' & Hl' & Hu'). destruct (decide (l' = l)) as [->|].
    + exists (mkCBB None (u cbb)). split; [apply lookup_insert_eq|done].
    + exists c'. split; [|done]. cbn. by rewrite lookup_insert_ne.
  - intros l' [? [? _]%not_elem_of_cons]%not_elem_of_cons. cbn. by rewrite !lookup_insert_ne by done.
Qed.

Lemma builds_on_error {T} X (m : B T) l w root L tips L' oF :
  l ∈ tips → l ∈ L → root ∈ L →
  builds X m w root L tips L' oF → builds X (on_error m (cbb_on_error l)) w root L tips L' oF.
Proof.
  intros Hl HlL Hroot H. apply wp_on_error. eapply wp_mono; [exact H|done|].
  intros w' (Hbr & Hbase & Hfr & Hno). eapply (wp_cbb_on_error root); [by apply Hbase|done|].
  intros w'' Hbr' Hbase' Hfr'. split_and!; [done|auto| |done].
  eapply frame_ok_trans; [done|done|]. intros l' [->| ->%list_elem_of_singleton]%elem_of_cons; apply elem_of_app; by right.
Qed.

Lemma max_loc_bound {T} (m : gmap loc T) l : (max_loc m ≤ l)%nat → m !! l = None.
Proof.
  unfold max_loc. apply (map_fold_weak_ind (λ r m, (r ≤ l)%nat → m !! l = None)); [done|].
  intros i x m' r Hi IH Hr. rewrite lookup_insert_ne by lia. apply IH. lia.
Qed.

Lemma fresh_loc_spec w : cbbs w !! fresh_loc w = None ∧ bufs w !! fresh_loc w = None.
Proof. split; apply max_loc_bound; unfold fresh_loc; lia. Qed.

Lemma rep_free w root L F l : rep w root L F → l ∉ L → rep (free_local l w) root L F.
Proof.
  intros (Hh & Hk & Hnd & Hch & b & Hb & Hhold) Hl. split_and!; try done.
  - eapply chain_frame; [|done]. intros l' Hl'. cbn. rewrite lookup_delete_ne; [done|]. by intros ->.
  - exists b. split; [|done]. cbn. rewrite lookup_delete_ne; [done|]. intros ->. apply Hl.
    destruct L; [done|]. injection Hh as ->. left.
Qed.

Lemma builds_local {T} (f : loc → B T) w root L tips L' F0 oF :
  rep w root L F0 → (∀ l, l ∈ L' → l ∈ L) → (∀ l, l ∈ tips → l ∈ L) →
  (∀ child, child ∉ L → builds [child] (f child) w root L tips L' oF) →
  builds [] (with_local f) w root L tips L' oF.
Proof.
  intros Hrep HL' Htips Hf. destruct (fresh_loc_spec w) as [Hc Hb].
  set (child := fresh_loc w) in *.
  assert (Hchild : child ∉ L).
  { intros Hin. destruct (rep_base _ _ _ _ _ Hrep Hin) as (c & ? & _). congruence. }
  assert (Hroot : root ∈ L) by by eapply rep_root. assert (child ≠ root) by by intros ->.
  assert (Hfree : ∀ w', frame_ok ([child] ++ L) w w' → frame_ok L w (free_local child w')).
  { intros w' Hfr l Hl. cbn. destruct (decide (l = child)) as [->|].
    - by rewrite !lookup_delete_eq.
    - rewrite !lookup_delete_ne by done. apply Hfr. by apply not_elem_of_cons. }
  specialize (Hf child Hchild). unfold builds, wp, with_local in *. fold child.
  destruct (f child w) as [a w'|w'|]; [| |done].
  - destruct Hf as (F & -> & Hrep' & Hfr & Hroom). exists F. split_and!; [done| |by apply Hfree|].
    + apply rep_free; [done|]. intros Hin. by apply Hchild, HL'.
    + intros n Hr. destruct (Hroom n Hr) as (b & Hb' & ?). exists b. cbn. by rewrite lookup_delete_ne.
  - destruct Hf as ((b & Hb' & He) & Hbase & Hfr & Hno). split_and!; [|intros l Hl|by apply Hfree|done].
    + exists b. cbn. by rewrite lookup_delete_ne.
    + destruct (Hbase l Hl) as (c & ? & ?). exists c. cbn. rewrite lookup_delete_ne; [done|].
      intros <-. by apply Hchild, Htips.
Qed.

(** ** Open, fill, close *)

Lemma builds_child_flush {T} (m : B T) l child k' hd ox w root L1 F1 k c L2 F2 :
  length L1 = length F1 → child ∉ L1 ++ l :: L2 → root ∈ L1 ++ l :: L2 →
  builds [child] m w root (L1 ++ l :: L2) (L1 ++ [l]) (L1 ++ [l; child])
    (inner ← close_all F2; x ← ox; Some (F1 ++ [(k, c ++ inner ++ hd); (k', x)])) →
  builds [child] (_ ← m; CBB_flush l) w root (L1 ++ l :: L2) (L1 ++ [l]) (L1 ++ [l])
    (inner ← close_all F2; y ← (x ← ox; close k' x); Some (F1 ++ [(k, c ++ inner ++ hd ++ y)])).
Proof.
  intros HL Hchild Hroot Hm. eapply (builds_bind [child] []); [exact Hm| |set_solver|].
  - intros a F w1 HF Hrep1 _. destruct (close_all F2) as [inner|]; [|done]. destruct ox as [x|]; [|done].
    cbn in HF |- *. injection HF as <-.
    pose proof (appends_flush [] l w1 root L1 F1 k _ [child] [(k', x)] Hrep1 HL ltac:(set_solver)) as Hf.
    cbn [close_all mbind option_bind] in Hf. rewrite app_nil_r in Hf. cbn -[flat] in Hf.
    destruct (close k' x) as [y|]; cbn -[flat] in *; [|done].
    rewrite app_nil_r, <- !app_assoc in Hf. exact Hf.
  - intros F HF. destruct (close_all F2) as [inner|]; [|done]. destruct ox as [x|]; [|done]. cbn in HF |- *.
    destruct (close k' x) as [y|] eqn:Hy; [|done]. cbn in HF. injection HF as <-. eexists. split; [done|].
    apply close_length in Hy. rewrite flat_two, !flat_len_snoc, !CBS_len_app. lia.
Qed.

(** What [CBB_add_asn1], filling the child with [ox], and flushing append. *)
Definition asn1_of (tag : Z) (ox : option (list Z)) : option (list Z) :=
  x ← ox; if CBS_len x <=? 0xfffffffe then Some (der_element tag x) else None.

Lemma asn1_of_close tag ox : (y ← (x ← ox; close PAsn1 x); Some (asn1_tag_bytes tag ++ y)) = asn1_of tag ox.
Proof.
  unfold asn1_of, close. destruct ox as [x|]; [|done]. cbn. destruct (_ <=? _); [|done]. cbn.
  unfold der_element, der_header. by rewrite <- app_assoc.
Qed.

Lemma asn1_of_frames (F1 : list frame) (k : pending) (c : list Z) (F2 : list frame) tag ox :
  (inner ← close_all F2; y ← (x ← ox; close PAsn1 x); Some (F1 ++ [(k, c ++ inner ++ asn1_tag_bytes tag ++ y)])) =
  (inner ← close_all F2; z ← asn1_of tag ox; Some (F1 ++ [(k, c ++ inner ++ z)])).
Proof.
  rewrite <- asn1_of_close. destruct (close_all F2); [|done]. destruct ox as [x|]; [|done].
  cbn [mbind option_bind]. by destruct (close PAsn1 x).
Qed.

Lemma appends_asn1_local {T} (m : loc → B T) l tag ox :
  in_range 32 tag → (∀ child, tip_appends [] (m child) child ox) →
  appends [] (with_local (λ child,
    _ ← on_error (_ ← CBB_add_asn1 l child tag; m child) (cbb_on_error l); CBB_flush l)) l (asn1_of tag ox).
Proof.
  intros Ht Hm w root L1 F1 k c L2 F2 Hrep HL _. rewrite <- asn1_of_frames.
  pose proof (rep_root _ _ _ _ Hrep) as Hroot.
  eapply builds_local; [done|set_solver|set_solver|]. intros child Hchild.
  eapply (builds_child_flush _ l child PAsn1); [done..|]. apply builds_on_error; [set_solver..|done|].
  eapply builds_child; [by apply opens_add_asn1|done..].
Qed.

Lemma on_error_eq {T} (m m' : B T) h w : m w = m' w → on_error m h w = on_error m' h w.
Proof. unfold on_error. by intros ->. Qed.

Lemma with_local_eq {T} (f f' : loc → B T) w : (∀ l, f l w = f' l w) → with_local f w = with_local f' w.
Proof. unfold with_local. by intros ->. Qed.

Lemma appends_asn1_on_error {T} (m : loc → B T) l tag ox :
  in_range 32 tag → (∀ child, tip_appends [] (m child) child ox) →
  appends [] (with_local (λ child,
    on_error (_ ← CBB_add_asn1 l child tag; _ ← m child; CBB_flush l) (cbb_on_error l))) l (asn1_of tag ox).
Proof.
  intros Ht Hm w root L1 F1 k c L2 F2 Hrep HL _. rewrite <- asn1_of_frames.
  pose proof (rep_root _ _ _ _ Hrep) as Hroot.
  eapply builds_local; [done|set_solver|set_solver|]. intros child Hchild.
  apply builds_on_error; [set_solver..|done|]. eapply builds_eq; [apply B_assoc|].
  eapply (builds_child_flush _ l child PAsn1); [done..|].
  eapply builds_child; [by apply opens_add_asn1|done..].
Qed.

(** ** Strings and booleans *)

Lemma appends_octet_string l data :
  bytes_ok data → CBS_len data < 2 ^ 64 →
  appends [] (CBB_add_asn1_octet_string l data) l (asn1_of CBS_ASN1_OCTETSTRING (Some data)).
Proof.
  intros Hd Hn. apply appends_asn1_on_error; [by vm_compute|].
  intros child. by apply tip_of_appends, appends_add_bytes.
Qed.

Lemma appends_bool l value :
  appends [] (CBB_add_asn1_bool l value) l
    (Some (der_element CBS_ASN1_BOOLEAN [if negb (value =? 0) then 0xff else 0])).
Proof.
  apply (appends_asn1_on_error _ l _ (Some [if negb (value =? 0) then 0xff else 0])); [by vm_compute|].
  intros child. apply tip_of_appends, appends_add_u8. destruct (value =? 0); cbn; lia.
Qed.

(** ** INTEGERs *)

Lemma byte_at_app l1 b l2 : byte_at (l1 ++ b :: l2) (CBS_len l1) = b.
Proof. unfold byte_at, CBS_len. rewrite Nat2Z.id, app_nth2, Nat.sub_diag by lia. done. Qed.

Lemma uint64_loop_byte v n : 0 <= v → u8 ((v ≫ (8 * Z.of_nat n)) .& 0xff) = (v / 256 ^ Z.of_nat n) mod 256.
Proof.
  intros Hv. change 0xff with (Z.ones 8). rewrite Z.land_ones, Z.shiftr_div_pow2 by lia.
  rewrite Z.pow_mul_r by lia. change (2 ^ 8) with 256. apply wrap_small, Z.mod_pos_bound. lia.
Qed.

(** What the loop writes for the [n] low bytes of [v]. *)
Fixpoint uint64_tail (n : nat) (v : Z) (started : bool) : list Z :=
  match n with
  | O => []
  | S n =>
      let b := (v / 256 ^ Z.of_nat n) mod 256 in
      if negb started && (b =? 0) then uint64_tail n v false
      else (if negb started && (128 <=? b) then [0] else []) ++ b :: uint64_tail n v true
  end.

Lemma uint64_tail_started n v : uint64_tail n v true = be_bytes n v.
Proof. induction n as [|n IH]; [done|]. rewrite digits_be_cons by lia. cbn [uint64_tail negb andb app]. by rewrite IH. Qed.

Lemma tip_uint64_loop l n v started :
  0 <= v → tip_appends [] (asn1_uint64_add_loop l n v started) l (Some (uint64_tail n v started)).
Proof.
  intros Hv. revert started. induction n as [|n IH]; intros started; [apply tip_ret|].
  cbn [asn1_uint64_add_loop uint64_tail]. rewrite uint64_loop_byte by done.
  pose proof (Z.mod_pos_bound (v / 256 ^ Z.of_nat n) 256 ltac:(lia)) as Hb.
  generalize dependent ((v / 256 ^ Z.of_nat n) mod 256). intros b Hb.
  destruct (negb started && (b =? 0)); [apply IH|].
  rewrite high_bit_zero by lia. rewrite Z.leb_antisym.
  eapply tip_seq_Some; [done| |intros _; eapply (tip_seq_Some _ _ _ _ [b]); [done| |intros _; apply IH]].
  - destruct (negb started && negb (b <? 128)); [|apply tip_ret]. apply tip_of_appends, appends_add_u8. lia.
  - apply tip_of_appends, appends_add_u8. lia.
Qed.

Lemma B_bind_Ok {T S} (m : B T) (f : T → B S) w b w' :
  (m ≫= f) w = Ok b w' → ∃ a w1, m w = Ok a w1 ∧ f a w1 = Ok b w'.
Proof. unfold mbind, B_bind. destruct (m w); [eauto|done..]. Qed.

Lemma uint64_loop_result l n v started w a w' :
  0 <= v → asn1_uint64_add_loop l n v started w = Ok a w' →
  a = started || negb (v mod 256 ^ Z.of_nat n =? 0).
Proof.
  intros Hv. revert started w. induction n as [|n IH]; intros started w.
  - cbn. intros [= <- _]. by rewrite Z.mod_1_r, orb_false_r.
  - cbn [asn1_uint64_add_loop]. rewrite uint64_loop_byte by done.
    pose proof (pow_B_pos 256 ltac:(lia) n).
    rewrite Nat2Z.inj_succ, Z.pow_succ_r, (Z.mul_comm 256), Z.rem_mul_r by lia.
    pose proof (Z.mod_pos_bound v (256 ^ Z.of_nat n) ltac:(lia)).
    pose proof (Z.mod_pos_bound (v / 256 ^ Z.of_nat n) 256 ltac:(lia)).
    generalize dependent ((v / 256 ^ Z.of_nat n) mod 256). intros b Hb.
    destruct (Z.eqb_spec b 0) as [->|Hne]; [rewrite Z.mul_0_r, Z.add_0_r|]; destruct started; cbn [negb andb];
      rewrite ?orb_true_l, ?orb_false_l; try apply IH;
      intros (? & ? & _ & (? & ? & _ & H1)%B_bind_Ok)%B_bind_Ok; apply IH in H1; subst; [done..|].
    cbn. symmetry. apply negb_true_iff, Z.eqb_neq. nia.
Qed.

Lemma uint64_tail_digits n v :
  0 < v < 256 ^ Z.of_nat n →
  ∃ b l, 0 < b < 256 ∧ bytes_ok l ∧ be_val (b :: l) = v ∧ (length l < n)%nat ∧
    uint64_tail n v false = (if 128 <=? b then [0] else []) ++ b :: l.
Proof.
  induction n as [|n IH]; intros Hv; [cbn in Hv; lia|]. cbn [uint64_tail negb].
  pose proof (pow_B_pos 256 ltac:(lia) n).
  rewrite Nat2Z.inj_succ, Z.pow_succ_r in Hv by lia.
  assert (Hq : 0 <= v / 256 ^ Z.of_nat n < 256) by (split; [apply Z.div_pos|apply Z.div_lt_upper_bound]; lia).
  rewrite Z.mod_small by lia. destruct (Z.eqb_spec (v / 256 ^ Z.of_nat n) 0) as [E|E]; cbn [andb].
  - destruct IH as (b & l & ? & ? & ? & ? & ->); [apply Z.div_small_iff in E; lia|].
    exists b, l. split_and!; done || lia.
  - exists (v / 256 ^ Z.of_nat n), (be_bytes n v). rewrite uint64_tail_started, length_digits_be.
    split_and!; [lia|lia|apply (digits_be_ok 256); lia| |lia|done].
    rewrite val_be_cons, length_digits_be, val_digits_be by lia.
    rewrite (Z.div_mod v (256 ^ Z.of_nat n)) at 3 by lia. lia.
Qed.

(** The code's minimal unsigned encoding is the minimal two's complement one. *)
Lemma uint64_tail_int_bytes v :
  in_range 64 v → (if v =? 0 then [0] else uint64_tail 8 v false) = int_bytes v.
Proof.
  intros Hv. destruct (Z.eqb_spec v 0) as [->|Hne]; [by vm_compute|].
  destruct (uint64_tail_digits 8 v) as (b & l & Hb & Hl & Hval & Hlen & ->); [cbn; lia|].
  set (r := (if 128 <=? b then [0] else []) ++ b :: l).
  assert (Hr : bytes_ok r).
  { apply Forall_app. split; [by destruct (_ <=? _); [apply Forall_cons; split; [lia|]|]|].
    apply Forall_cons. split; [lia|done]. }
  assert (Hvalid : CBS_is_valid_asn1_integer r = Some false ∧ twos_complement r = v ∧ (length r ≤ 9)%nat).
  { subst r. destruct (Z.leb_spec 128 b); cbn [app].
    - split_and!; [| |cbn [length]; lia].
      + unfold CBS_is_valid_asn1_integer. rewrite !CBS_get_u8_cons, !high_bit_zero by lia.
        by destruct (Z.ltb_spec b 128); [lia|].
      + rewrite <- Hval. unfold twos_complement. cbn [hd]. rewrite (val_be_cons 256 ltac:(lia) 0). cbn [length]. destruct (Z.leb_spec 128 0); lia.
    - split_and!; [| |cbn [length]; lia].
      + unfold CBS_is_valid_asn1_integer. rewrite CBS_get_u8_cons, high_bit_zero by lia.
        destruct (Z.ltb_spec b 128); [|lia]. cbn [negb].
        destruct l as [|b2 l]; [done|]. apply Forall_cons in Hl as [? _].
        rewrite CBS_get_u8_cons. destruct (Z.eqb_spec b 0), (Z.eqb_spec b 0xff); try lia; done.
      + unfold twos_complement. cbn [hd]. destruct (Z.leb_spec 128 b); [lia|]. lia. }
  destruct Hvalid as (Hvalid & Htw & Hln).
  destruct (valid_integer_bytes r false Hr Hln Hvalid) as [-> _]. by rewrite Htw.
Qed.

Lemma tip_seq_val {T S} X (m1 : B T) (m2 : T → B S) a0 l ox :
  (∀ w a w', m1 w = Ok a w' → a = a0) →
  tip_appends X (_ ← m1; m2 a0) l ox → tip_appends X (m1 ≫= m2) l ox.
Proof.
  intros Ha H w root L1 F1 k c Hrep HL HX. eapply builds_eq; [|by apply H].
  unfold mbind, B_bind. destruct (m1 w) eqn:E; [|done..]. by apply Ha in E as ->.
Qed.

Lemma int_bytes_short v : - 2 ^ 63 <= v < 2 ^ 64 → asn1_of CBS_ASN1_INTEGER (Some (int_bytes v)) =
  Some (der_element CBS_ASN1_INTEGER (int_bytes v)).
Proof.
  intros Hv. unfold asn1_of. cbn [mbind option_bind].
  destruct (int_bytes_spec 9 v) as (_ & Hlen & _); [lia|apply fits_iff; cbn; lia|].
  destruct (Z.leb_spec (CBS_len (int_bytes v)) 0xfffffffe); [done|unfold CBS_len in *; lia].
Qed.

Lemma appends_uint64_with_tag l v tag :
  in_range 64 v → in_range 32 tag →
  appends [] (CBB_add_asn1_uint64_with_tag l v tag) l (asn1_of tag (Some (int_bytes v))).
Proof.
  intros Hv Ht. unfold CBB_add_asn1_uint64_with_tag. apply appends_asn1_local; [done|]. intros child.
  eapply tip_seq_val; [intros w a w'; apply uint64_loop_result; lia|].
  rewrite Z.mod_small by (cbn; lia). rewrite orb_false_l, negb_involutive.
  rewrite <- uint64_tail_int_bytes by done.
  eapply (tip_seq_Some _ _ _ _ _ (if v =? 0 then [0] else [])); [|apply tip_uint64_loop; lia|intros _].
  - destruct (Z.eqb_spec v 0) as [->|]; [done|by rewrite app_nil_r].
  - destruct (v =? 0); [|apply tip_ret]. apply tip_of_appends, appends_add_u8. lia.
Qed.

(** Drop the redundant sign-extension bytes of a negative number. *)
Fixpoint strip_ff (l : list Z) : list Z :=
  match l with
  | b1 :: (b2 :: _) as l' => if (b1 =? 0xff) && (128 <=? b2) then strip_ff l' else l
  | _ => l
  end.

Lemma strip_ff_cons b b2 l :
  strip_ff (b :: b2 :: l) = if (b =? 0xff) && (128 <=? b2) then strip_ff (b2 :: l) else b :: b2 :: l.
Proof. done. Qed.

Lemma byte_at_rev l1 b l2 : byte_at (rev (b :: l1) ++ l2) (Z.of_nat (length l1)) = b.
Proof.
  cbn [rev]. rewrite <- app_assoc, <- length_rev. apply byte_at_app.
Qed.

Lemma int64_start_strip b l P :
  bytes_ok (b :: l) →
  ∃ pre, b :: l = pre ++ strip_ff (b :: l) ∧
    S (asn1_int64_start (rev (b :: l) ++ P) (length l)) = length (strip_ff (b :: l)).
Proof.
  revert b P. induction l as [|b2 l IH]; intros b P Hb; [by exists []|].
  cbn [length asn1_int64_start]. change (S (length l)) with (length (b2 :: l)).
  rewrite byte_at_rev. cbn [rev]. rewrite <- app_assoc.
  change (rev l ++ [b2]) with (rev (b2 :: l)). rewrite byte_at_rev.
  apply Forall_cons in Hb as [H1 Hb]. pose proof Hb as Hb'. apply Forall_cons in Hb' as [H2 _].
  rewrite high_bit_zero by done. rewrite strip_ff_cons, <- Z.leb_antisym.
  destruct ((b =? 0xff) && (128 <=? b2)); [|by exists []].
  destruct (IH b2 ([b] ++ P) Hb) as (pre & E & Hlen). exists (b :: pre).
  split; [by rewrite E at 1|]. exact Hlen.
Qed.

Lemma strip_ff_spec b l :
  bytes_ok (b :: l) → 128 <= b →
  CBS_is_valid_asn1_integer (strip_ff (b :: l)) = Some true ∧
  twos_complement (strip_ff (b :: l)) = twos_complement (b :: l).
Proof.
  revert b. induction l as [|b2 l IH]; intros b Hb Hn.
  - cbn [strip_ff]. split; [|done]. apply Forall_cons in Hb as [? _]. unfold CBS_is_valid_asn1_integer.
    rewrite CBS_get_u8_cons, high_bit_zero, CBS_get_u8_nil by done. by destruct (Z.ltb_spec b 128); [lia|].
  - apply Forall_cons in Hb as [H1 Hb]. pose proof Hb as Hb'. apply Forall_cons in Hb' as [H2 Hl].
    rewrite strip_ff_cons. destruct (Z.eqb_spec b 0xff) as [->|]; [destruct (Z.leb_spec 128 b2)|]; cbn [andb].
    + destruct (IH b2 Hb) as [? ->]; [done|]. split; [done|].
      destruct (twos_cons 255 (b2 :: l) ltac:(lia) Hb) as [-> _].
      unfold twos_complement, CBS_len. cbn [hd]. destruct (Z.leb_spec 128 b2); [|lia].
      destruct (Z.leb_spec 128 255); lia.
    + split; [|done]. unfold CBS_is_valid_asn1_integer.
      rewrite !CBS_get_u8_cons, !high_bit_zero by lia. destruct (Z.ltb_spec b2 128); [|lia]. done.
    + split; [|done]. unfold CBS_is_valid_asn1_integer.
      rewrite !CBS_get_u8_cons, !high_bit_zero by lia. destruct (Z.ltb_spec b 128); [lia|].
      destruct (Z.eqb_spec b 0), (Z.eqb_spec b 0xff); try lia. done.
Qed.

Lemma tip_int64_loop l r P :
  bytes_ok r → tip_appends [] (asn1_int64_add_loop l (rev r ++ P) (length r)) l (Some r).
Proof.
  revert P. induction r as [|b r IH]; intros P Hr; [apply tip_ret|].
  apply Forall_cons in Hr as [Hb Hr]. cbn [length asn1_int64_add_loop]. rewrite byte_at_rev.
  eapply (tip_seq_Some _ _ _ _ [b] r); [done|by apply tip_of_appends, appends_add_u8|intros _].
  cbn [rev]. rewrite <- app_assoc. by apply IH.
Qed.

Lemma appends_int64_with_tag l v tag :
  - 2 ^ 63 <= v < 2 ^ 63 → in_range 32 tag →
  appends [] (CBB_add_asn1_int64_with_tag l v tag) l (asn1_of tag (Some (int_bytes v))).
Proof.
  intros Hv Ht. unfold CBB_add_asn1_int64_with_tag. rewrite Z.geb_leb. destruct (Z.leb_spec 0 v).
  { rewrite wrap_small by lia. apply appends_uint64_with_tag; [lia|done]. }
  unfold int64_memory. set (L := be_bytes 8 (u64 v)).
  assert (HL : bytes_ok L) by (apply (digits_be_ok 256); lia).
  assert (Htw : twos_complement L = v) by (apply (twos_of_digits 8); [lia|apply fits_iff; cbn; lia]).
  assert (Hlen : length L = 8%nat) by apply length_digits_be.
  destruct L as [|b l0] eqn:EL; [done|].
  assert (Hb : 128 <= b).
  { apply Forall_cons in HL as [Hb Hl0]. destruct (twos_cons b l0 Hb Hl0) as [E ?].
    destruct (Z.leb_spec 128 b); [done|]. rewrite Htw in E. nia. }
  destruct (strip_ff_spec b l0 HL Hb) as [Hvalid Hstrip].
  destruct (int64_start_strip b l0 [] HL) as (pre & Epre & Hstart).
  set (r := strip_ff (b :: l0)) in *.
  assert (Hr : bytes_ok r) by (rewrite Epre in HL; by apply Forall_app in HL as [_ ?]).
  assert (Hrlen : (length r ≤ 9)%nat).
  { apply (f_equal length) in Epre. rewrite length_app, Hlen in Epre. lia. }
  destruct (valid_integer_bytes r true Hr Hrlen Hvalid) as [Er _]. rewrite Hstrip, Htw in Er.
  rewrite app_nil_r in Hstart. injection Hlen as Hlen. rewrite Hlen in Hstart.
  apply appends_asn1_local; [done|]. intros child. cbn zeta. rewrite Hstart, Epre, rev_app_distr, <- Er.
  by apply tip_int64_loop.
Qed.

End asn1.
