(* ===== verification/CbbPartial.v ===== *)
(** Sequences of writes to a CBB that may stop half-way.

    [builds] and [appends] describe an operation that sets the error bit when
    it fails.  A client that mixes parsing and writing may fail with the bit
    clear and a part of its output appended: what remains true is that the
    structs can still be used and cleaned up, and that a failure is due to the
    input or to a lack of room. *)
From S2P Require Import Prelude Radix Mem Cbs Cbb CbbSpec CbbFlush CbbOps CbbAsn1.

Section partial.
Context {A : Allocator}.

(** [m] appends to the CBB at [l], which has no pending child, and returns, as
    [ov] says; when it fails, [ov] is [None] or there is no room. *)
Definition produces {T} (m : B T) (l : loc) (ov : option (list Z * T)) : Prop :=
  ∀ w root L1 F1 k c,
    rep w root (L1 ++ [l]) (F1 ++ [(k, c)]) → length L1 = length F1 →
    wp m w
      (λ a w', ∃ x, ov = Some (x, a) ∧ rep w' root (L1 ++ [l]) (F1 ++ [(k, c ++ x)]) ∧ frame_ok (L1 ++ [l]) w w' ∧
         ∀ n, room_at root w n → room_at root w' n)
      (λ w', (is_Some (bufs w' !! root) ∧ ∀ l', l' ∈ L1 ++ [l] → base_is root w' l') ∧ frame_ok (L1 ++ [l]) w w' ∧
         ∀ x a, ov = Some (x, a) → ¬ room_at root w (CBS_len (flat (F1 ++ [(k, c ++ x)])))).

Lemma produces_eq {T} (m m' : B T) l ov : (∀ w, m w = m' w) → produces m l ov → produces m' l ov.
Proof. intros E H w root L1 F1 k c Hrep HL. unfold wp. rewrite <- E. by apply H. Qed.

Lemma B_bind_ext {T S} (m : B T) (f g : T → B S) w : (∀ a w, f a w = g a w) → (m ≫= f) w = (m ≫= g) w.
Proof. intros H. unfold mbind, B_bind. by destruct (m w). Qed.

Lemma rep_usable w root L F : rep w root L F → is_Some (bufs w !! root) ∧ ∀ l, l ∈ L → base_is root w l.
Proof. intros Hrep. split; [destruct Hrep as (_ & _ & _ & _ & b & ? & _); by eexists|intros l ?; by eapply rep_base]. Qed.

Lemma produces_return0 {T} l : produces (T := T) return0 l None.
Proof.
  intros w root L1 F1 k c Hrep HL. apply wp_return0. split_and!; [eapply rep_usable, Hrep..|apply frame_ok_refl|done].
Qed.

Lemma produces_ret {T} (a : T) l : produces (mret a) l (Some ([], a)).
Proof.
  intros w root L1 F1 k c Hrep HL. apply wp_ret. exists []. rewrite app_nil_r. by split_and!.
Qed.

Lemma produces_tip (m : B unit) l ox : tip_appends [] m l ox → produces m l (x ← ox; Some (x, ())).
Proof.
  intros H w root L1 F1 k c Hrep HL. eapply wp_mono; [apply (H w root L1 F1 k c Hrep HL); set_solver| |].
  - intros [] w' (F & HF & Hrep' & Hfr & Hroom). destruct ox as [x|]; [|done]. injection HF as <-. by exists x.
  - intros w' (Hbr & Htips & Hfr & Hno). split_and!; [by destruct Hbr as (b' & ? & _); eexists|done|done|].
    intros x a E. destruct ox as [x'|]; [|done]. injection E as -> _. by apply Hno.
Qed.

Lemma produces_bind {T S} (m1 : B T) (m2 : T → B S) l ov1 (ov2 : T → option (list Z * S)) :
  produces m1 l ov1 → (∀ x1 a, ov1 = Some (x1, a) → produces (m2 a) l (ov2 a)) →
  produces (m1 ≫= m2) l ('(x1, a) ← ov1; '(x2, b) ← ov2 a; Some (x1 ++ x2, b)).
Proof.
  intros H1 H2 w root L1 F1 k c Hrep HL. apply wp_bind. eapply wp_mono; [by apply H1| |].
  - intros a w1 (x1 & -> & Hrep1 & Hfr1 & Hroom1). eapply wp_mono; [by apply (H2 x1 a eq_refl w1)| |].
    + intros b w2 (x2 & E2 & Hrep2 & Hfr2 & Hroom2). exists (x1 ++ x2). rewrite <- app_assoc in Hrep2. cbn [mbind option_bind].
      rewrite E2. split_and!; [done|done|by eapply frame_ok_trans|auto].
    + intros w2 (Hcl & Hfr2 & Hno). split_and!; [apply Hcl|apply Hcl|by eapply frame_ok_trans|].
      intros x b. cbn [mbind option_bind]. destruct (ov2 a) as [[x2 b']|]; [|done]. intros [= <- <-] Hr. apply (Hno x2 b' eq_refl).
      rewrite <- app_assoc. auto.
  - intros w1 (Hcl & Hfr & Hno). split_and!; [apply Hcl|apply Hcl|done|]. intros x b. destruct ov1 as [[x1 a]|]; [|done].
    cbn [mbind option_bind]. destruct (ov2 a) as [[x2 b']|]; [|done]. intros [= <- _] Hr. apply (Hno x1 a eq_refl).
    eapply room_at_le; [|done]. rewrite !flat_len_snoc, !CBS_len_app. pose proof (CBS_len_nonneg x2). lia.
Qed.

(** Run a step of a local parser. *)
Lemma produces_with_cbs {T S} (p : M CBS T) cbs (f : T * CBS → B S) l (ov : T → CBS → option (list Z * S)) :
  (∀ a rest, p cbs = (Some a, rest) → produces (f (a, rest)) l (ov a rest)) →
  produces (with_cbs p cbs ≫= f) l (match p cbs with (Some a, rest) => ov a rest | _ => None end).
Proof.
  intros Hf. unfold with_cbs. destruct (p cbs) as [[a|] rest]; [by apply Hf|]. apply (produces_return0 l).
Qed.

Lemma produces_require {T} b (m : B T) l ov : (b = true → produces m l ov) →
  produces (_ ← B_require b; m) l (if b then ov else None).
Proof. intros Hm. destruct b; [exact (Hm eq_refl)|apply (produces_return0 l)]. Qed.

(** Closing the pending children, where there are none. *)
Lemma produces_flush {T} (m : B T) l ov : produces m l ov → produces (a ← m; _ ← CBB_flush l; mret a) l ov.
Proof.
  intros H. assert (E : ov = ('(x1, a) ← ov; '(x2, b) ← Some ([], a); Some (x1 ++ x2, b))).
  { destruct ov as [[x a]|]; [|done]. cbn. by rewrite app_nil_r. }
  rewrite E at 1. apply produces_bind; [done|]. intros x1 a _.
  assert (Hf : produces (CBB_flush l) l (Some ([], ()))).
  { apply (produces_tip (CBB_flush l) l (Some [])), tip_of_appends, appends_flush. }
  apply (produces_bind _ (λ _, mret a) l _ (λ _, Some ([], a)) Hf). intros. apply produces_ret.
Qed.

Lemma wp_with_local {T} (f : loc → B T) w (Q : T → Prop) (E : Prop) :
  (∀ l, wp (f l) w (λ a _, Q a) (λ _, E)) → wp (with_local f) w (λ a _, Q a) (λ _, E).
Proof. intros Hf. specialize (Hf (fresh_loc w)). unfold wp, with_local in *. by destruct (f _ w). Qed.

(** *** Children *)

(** The same on one document, with the locals [X] in use. *)
Definition partial {T} (X : list loc) (m : B T) (w : world) (root : loc) (L1 : list loc) (F1 : list frame) (l : loc)
    (k : pending) (c : list Z) (ov : option (list Z * T)) : Prop :=
  wp m w
    (λ a w', ∃ x, ov = Some (x, a) ∧ rep w' root (L1 ++ [l]) (F1 ++ [(k, c ++ x)]) ∧ frame_ok (X ++ L1 ++ [l]) w w' ∧
       ∀ n, room_at root w n → room_at root w' n)
    (λ w', (is_Some (bufs w' !! root) ∧ ∀ l', l' ∈ L1 ++ [l] → base_is root w' l') ∧ frame_ok (X ++ L1 ++ [l]) w w' ∧
       ∀ x a, ov = Some (x, a) → ¬ room_at root w (CBS_len (flat (F1 ++ [(k, c ++ x)])))).

Lemma partial_local {T} (f : loc → B T) w root L1 F1 l k c ov :
  rep w root (L1 ++ [l]) (F1 ++ [(k, c)]) →
  (∀ child, child ∉ L1 ++ [l] → partial [child] (f child) w root L1 F1 l k c ov) →
  partial [] (with_local f) w root L1 F1 l k c ov.
Proof.
  intros Hrep Hf. destruct (fresh_loc_spec w) as [Hc Hb]. set (child := fresh_loc w) in *.
  assert (Hchild : child ∉ L1 ++ [l]).
  { intros Hin. destruct (rep_base _ _ _ _ _ Hrep Hin) as (cb & ? & _). congruence. }
  pose proof (rep_root _ _ _ _ Hrep) as Hroot. assert (child ≠ root) by by intros ->.
  assert (Hfree : ∀ w', frame_ok ([child] ++ L1 ++ [l]) w w' → frame_ok (L1 ++ [l]) w (free_local child w')).
  { intros w' Hfr l' Hl'. cbn. destruct (decide (l' = child)) as [->|].
    - by rewrite !lookup_delete_eq.
    - rewrite !lookup_delete_ne by done. apply Hfr. by apply not_elem_of_cons. }
  specialize (Hf child Hchild). unfold partial, wp, with_local in *. fold child.
  destruct (f child w) as [a w'|w'|]; [| |done].
  - destruct Hf as (x & -> & Hrep' & Hfr & Hroom). exists x. split_and!; [done|by apply rep_free|by apply Hfree|].
    intros n Hr. destruct (Hroom n Hr) as (b & Hb' & ?). exists b. cbn. by rewrite lookup_delete_ne.
  - destruct Hf as ([[b Hb'] Hbase] & Hfr & Hno). split_and!; [exists b; cbn; by rewrite lookup_delete_ne| |by apply Hfree|done].
    intros l' Hl'. destruct (Hbase l' Hl') as (cb & ? & ?). exists cb. cbn. rewrite lookup_delete_ne; [done|].
    intros <-. by apply Hchild.
Qed.

(** Open a child, fill it, close it. *)
Lemma produces_child {T} (m : loc → B T) l tag ov :
  in_range 32 tag → (∀ child, produces (m child) child ov) →
  produces (with_local (λ child, _ ← CBB_add_asn1 l child tag; a ← m child; _ ← CBB_flush l; mret a)) l
    ('(x, a) ← ov; y ← asn1_of tag (Some x); Some (y, a)).
Proof.
  intros Ht Hm w root L1 F1 k c Hrep HL. apply partial_local; [done|]. intros child Hchild.
  pose proof (opens_add_asn1 l child tag Ht w root L1 F1 k c [] [] Hrep HL Hchild) as Ho.
  assert (Hsize : ∀ x y, asn1_of tag (Some x) = Some y →
    CBS_len (asn1_tag_bytes tag) + 1 + CBS_len x <= CBS_len y ∧ ∃ z, close PAsn1 x = Some z ∧ y = asn1_tag_bytes tag ++ z).
  { intros x y Hy. rewrite <- asn1_of_close in Hy. cbn [mbind option_bind] in Hy. destruct (close PAsn1 x) as [z|] eqn:Hz; [|done].
    injection Hy as <-. pose proof (close_length _ _ _ Hz). cbn [plen] in *. rewrite CBS_len_app. split; [lia|by exists z]. }
  apply wp_bind. eapply wp_mono; [exact Ho| |].
  2: { intros w1 (Hbr & Htips & Hfr & Hno). split_and!; [by destruct Hbr as (b & ? & _); eexists|done|done|].
       intros x a. destruct ov as [[x0 a0]|]; [|done]. cbn [mbind option_bind]. destruct (asn1_of tag (Some x0)) as [y|] eqn:Hy; [|done].
       cbn [mbind option_bind]. intros [= <- _] Hr. destruct (Hsize _ _ Hy) as [? _]. eapply Hno; [done|].
       eapply room_at_le; [|done]. rewrite flat_two, !flat_len_snoc, !CBS_len_app. cbn [plen]. change (CBS_len []) with 0.
       pose proof (CBS_len_nonneg x0). lia. }
  intros _ w1 (F & HF & Hrep1 & Hfr1 & Hroom1). cbn -[flat] in HF. injection HF as <-.
  rewrite (cons_middle l L1 [child]), (app_assoc L1), (cons_middle _ F1 [(PAsn1, [])]), (app_assoc F1) in Hrep1.
  set (hd := asn1_tag_bytes tag) in *.
  assert (HL1 : length (L1 ++ [l]) = length (F1 ++ [(k, c ++ hd)])) by (rewrite !length_app; cbn; lia).
  assert (Hfr' : ∀ w2, frame_ok ((L1 ++ [l]) ++ [child]) w1 w2 → frame_ok ([child] ++ L1 ++ [l]) w w2).
  { intros w2 Hf. eapply frame_ok_trans; [exact Hfr1|exact Hf|]. set_solver. }
  apply wp_bind. eapply wp_mono; [apply (Hm child w1 root _ _ PAsn1 [] Hrep1 HL1)| |].
  2: { intros w2 ([Hb2 Hbase2] & Hfr2 & Hno2). split_and!; [done|intros; apply Hbase2; set_solver|by apply Hfr'|].
       intros x a. destruct ov as [[x0 a0]|]; [|done]. cbn [mbind option_bind]. destruct (asn1_of tag (Some x0)) as [y|] eqn:Hy; [|done].
       cbn [mbind option_bind]. intros [= <- _] Hr. destruct (Hsize _ _ Hy) as [? _]. eapply (Hno2 x0); [done|]. apply Hroom1.
       eapply room_at_le; [|done]. rewrite <- app_assoc. cbn [app]. rewrite flat_two, !flat_len_snoc, !CBS_len_app. cbn [plen].
       subst hd. lia. }
  intros a w2 (x & -> & Hrep2 & Hfr2 & Hroom2). cbn [mbind option_bind].
  rewrite <- (app_assoc L1) in Hrep2. rewrite <- (app_assoc F1) in Hrep2. cbn [app] in Hrep2.
  apply wp_bind. eapply wp_mono; [apply (appends_flush [] l w2 root L1 F1 k (c ++ hd) [child] [(PAsn1, x)] Hrep2 HL); set_solver| |].
  - intros _ w3 (F & HF & Hrep3 & Hfr3 & Hroom3). cbn [close_all mbind option_bind] in HF. rewrite app_nil_r in HF.
    rewrite <- asn1_of_close. cbn [mbind option_bind]. destruct (close PAsn1 x) as [z|] eqn:Hz; [|done]. cbn -[flat] in HF.
    injection HF as <-. apply wp_ret. exists (hd ++ z). rewrite app_nil_r, <- app_assoc in Hrep3. split_and!; [done|done| |auto].
    apply Hfr'. eapply frame_ok_trans; [exact Hfr2|exact Hfr3|]. set_solver.
  - intros w3 (Hbr & Htips & Hfr3 & Hno3). split_and!; [by destruct Hbr as (b & ? & _); eexists|done| |].
    + apply Hfr'. eapply frame_ok_trans; [exact Hfr2|exact Hfr3|]. set_solver.
    + intros y a'. destruct (asn1_of tag (Some x)) as [y0|] eqn:Hy; [|done]. cbn [mbind option_bind]. intros [= <- _] Hr.
      destruct (Hsize _ _ Hy) as [_ (z & Hz & ->)]. cbn [close_all mbind option_bind] in Hno3. rewrite app_nil_r, Hz in Hno3.
      eapply Hno3; [done|]. rewrite app_nil_r, <- app_assoc. auto.
Qed.

(** *** Writers that return nothing *)
Lemma with_unit (ox : option (list Z)) x (a : unit) : (x ← ox; Some (x, ())) = Some (x, a) ↔ ox = Some x.
Proof. destruct ox, a; cbn; naive_solver. Qed.

Definition writes (m : B unit) (l : loc) (ox : option (list Z)) : Prop := produces m l (x ← ox; Some (x, ())).

Lemma writes_tip (m : B unit) l ox : tip_appends [] m l ox → writes m l ox.
Proof. apply produces_tip. Qed.

Lemma writes_ret l : writes (mret ()) l (Some []).
Proof. apply produces_ret. Qed.

Lemma writes_seq (m1 : B unit) (m2 : unit → B unit) l ox1 ox2 :
  writes m1 l ox1 → (∀ a, writes (m2 a) l ox2) → writes (m1 ≫= m2) l (x1 ← ox1; x2 ← ox2; Some (x1 ++ x2)).
Proof.
  intros H1 H2. unfold writes.
  replace (x ← (x1 ← ox1; x2 ← ox2; Some (x1 ++ x2)); Some (x, ()))
    with ('(x1, a) ← (x ← ox1; Some (x, ())); '(x2, b) ← (x ← ox2; Some (x, a)); Some (x1 ++ x2, b))
    by (destruct ox1; [|done]; cbn; by destruct ox2).
  apply produces_bind; [done|]. intros _ [] _. apply H2.
Qed.

Lemma writes_seq_Some (m1 : B unit) (m2 : unit → B unit) l x1 ox2 :
  writes m1 l (Some x1) → (∀ a, writes (m2 a) l ox2) → writes (m1 ≫= m2) l (x2 ← ox2; Some (x1 ++ x2)).
Proof. apply writes_seq. Qed.

(** *** Writers without children

    What a writer that opens no child appends, and whether it then succeeds, is
    told by a pair.  It has two ways to fail: it stops half-way, with the
    document still represented and the bytes of the pair appended, or there is
    no room for these bytes, and the error bit is set. *)
Definition emits (m : B unit) (l : loc) (r : list Z * bool) : Prop :=
  ∀ w root L1 F1 k c,
    rep w root (L1 ++ [l]) (F1 ++ [(k, c)]) → length L1 = length F1 →
    wp m w
      (λ _ w', r.2 = true ∧ rep w' root (L1 ++ [l]) (F1 ++ [(k, c ++ r.1)]) ∧ frame_ok (L1 ++ [l]) w w' ∧
         ∀ n, room_at root w n → room_at root w' n)
      (λ w', frame_ok (L1 ++ [l]) w w' ∧
         (r.2 = false ∧ rep w' root (L1 ++ [l]) (F1 ++ [(k, c ++ r.1)]) ∨
          broken root w' ∧ (∀ l', l' ∈ L1 ++ [l] → base_is root w' l') ∧
            ¬ room_at root w (CBS_len (flat (F1 ++ [(k, c ++ r.1)]))))).

Lemma emits_return0 l : emits return0 l ([], false).
Proof. intros w root L1 F1 k c Hrep HL. apply wp_return0. split; [done|]. left. cbn. by rewrite app_nil_r. Qed.

Lemma emits_ret l : emits (mret ()) l ([], true).
Proof. intros w root L1 F1 k c Hrep HL. apply wp_ret. cbn. rewrite app_nil_r. by split_and!. Qed.

Lemma emits_tip (m : B unit) l x : tip_appends [] m l (Some x) → emits m l (x, true).
Proof.
  intros H w root L1 F1 k c Hrep HL. eapply wp_mono; [apply (H w root L1 F1 k c Hrep HL); set_solver| |].
  - intros [] w' (F & [= <-] & Hrep' & Hfr & Hroom). done.
  - intros w' (Hbr & Htips & Hfr & Hno). split; [done|]. right. split_and!; [done..|]. by apply Hno.
Qed.

Lemma emits_seq (m1 : B unit) (m2 : unit → B unit) l x1 r2 :
  emits m1 l (x1, true) → (∀ a, emits (m2 a) l r2) → emits (m1 ≫= m2) l (x1 ++ r2.1, r2.2).
Proof.
  intros H1 H2 w root L1 F1 k c Hrep HL. apply wp_bind. eapply wp_mono; [by apply H1| |].
  - intros a w1 (_ & Hrep1 & Hfr1 & Hroom1). eapply wp_mono; [by apply (H2 a w1)| |]; cbn [fst snd] in *; rewrite app_assoc.
    + intros b w2 (E2 & Hrep2 & Hfr2 & Hroom2). split_and!; [done|done|by eapply frame_ok_trans|auto].
    + intros w2 [Hfr2 Hc]. split; [by eapply frame_ok_trans|]. destruct Hc as [?|(? & ? & ?)]; [by left|right]. split_and!; auto.
  - intros w1 [Hfr [[? _]|(Hbr & Htips & Hno)]]; [done|]. split; [done|]. right. split_and!; [done..|]. intros Hr. apply Hno.
    eapply room_at_le; [|done]. cbn [fst]. rewrite !flat_len_snoc, !CBS_len_app. pose proof (CBS_len_nonneg r2.1). lia.
Qed.

Lemma emits_with_cbs {T} (p : M CBS T) cbs (f : T * CBS → B unit) l (r : T → CBS → list Z * bool) :
  (∀ a rest, p cbs = (Some a, rest) → emits (f (a, rest)) l (r a rest)) →
  emits (with_cbs p cbs ≫= f) l (match p cbs with (Some a, rest) => r a rest | _ => ([], false) end).
Proof.
  intros Hf. unfold with_cbs. destruct (p cbs) as [[a|] rest]; [by apply Hf|]. apply (emits_return0 l).
Qed.
End partial.
