(* ===== verification/CbbTheorems.v ===== *)
(** What the CBB component promises: initialisation, flushing, every writer,
    and finishing, stated on the abstract document. *)
From S2P Require Import Prelude Radix Mem Cbs Cbb CbbSpec CbbFlush CbbOps CbbAsn1 CbbPartial.

(** A root CBB at 0 with one pending ASN.1 child at 1, used by the witnesses:
    the header octet of a SEQUENCE, a length to be filled in, one byte. *)
Definition example_world : world :=
  mkWorld {[0%nat := mkCBB (Some 1%nat) UBase; 1%nat := mkCBB None (UChild (mkChild (Some 0%nat) 1 1 true))]}
          {[0%nat := mkBuffer [48; 0; 5] 3 3 true false]} 0.

Lemma example_rep : rep example_world 0 [0%nat; 1%nat] [(PFixed 0, [48]); (PAsn1, [5])].
Proof.
  split_and!; [done|done|by apply (bool_decide_unpack _); vm_compute| |].
  - split; [eexists; split; [reflexivity|by split]|]. split; [|done].
    eexists. split; [reflexivity|]. by repeat split.
  - eexists. split; [reflexivity|]. split_and!; try done.
    by apply (bool_decide_unpack _); vm_compute.
Qed.

Section theorems.
Context {A : Allocator}.

(** C2: [CBB_flush] refines closing the document.  On a CBB at [l] whose
    pending descendants are the frames [F2], it never has undefined behaviour
    and terminates; if it returns 1, every pending length prefix has become the
    DER length (for ASN.1 children) or the big-endian length (for fixed
    prefixes), innermost first, the contents after it moved as needed, and [l]
    has no child any more; if it returns 0, the error bit of the buffer is set
    and either some length does not fit its prefix or the closed document does
    not fit the buffer.  Nothing but the document's own structs and buffer
    changes. *)
Theorem CBB_flush_refines (w : world) (root : loc) (L1 : list loc) (F1 : list frame) (l : loc)
    (k : pending) (c : list Z) (L2 : list loc) (F2 : list frame)
    (Hrep : rep w root (L1 ++ l :: L2) (F1 ++ (k, c) :: F2)) (Hlen : length L1 = length F1) :
  match CBB_flush l w with
  | Ok _ w' =>
      ∃ inner, close_all F2 = Some inner ∧ rep w' root (L1 ++ [l]) (F1 ++ [(k, c ++ inner)]) ∧
        frame_ok (L1 ++ l :: L2) w w'
  | Fail w' =>
      broken root w' ∧ frame_ok (L1 ++ l :: L2) w w' ∧
      ∀ inner, close_all F2 = Some inner →
        ¬ room_at root w (CBS_len (flat (F1 ++ [(k, c ++ inner)])))
  | UB => False
  end.
Proof.
  pose proof (appends_flush [] l w root L1 F1 k c L2 F2 Hrep Hlen ltac:(set_solver)) as H.
  unfold builds, wp in H. destruct (CBB_flush l w) as [[] w'|w'|]; [| |done].
  - destruct H as (F & HF & Hr & Hf & _). destruct (close_all F2) as [inner|]; [|done].
    exists inner. cbn in HF. injection HF as <-. by rewrite app_nil_r in Hr.
  - destruct H as (? & _ & ? & Hno). split_and!; [done..|]. intros inner Hin. rewrite Hin in Hno.
    apply Hno. cbn. by rewrite app_nil_r.
Qed.

(** The integer and string writers append exactly their bytes to the
    contents of the CBB, closing its pending children first, and fail (with
    the error bit set) exactly when that cannot be done: [CBB_add_u24] also
    refuses values of 2^24 and more. *)
Theorem CBB_add_bytes_append (l : loc) :
  (∀ data, bytes_ok data → CBS_len data < 2 ^ 64 → appends [] (CBB_add_bytes l data) l (Some data)) ∧
  (∀ n, in_range 64 n → appends [] (CBB_add_zeros l n) l (Some (replicate (Z.to_nat n) 0))) ∧
  (∀ v, in_range 8 v → appends [] (CBB_add_u8 l v) l (Some [v])) ∧
  (∀ v, in_range 16 v → appends [] (CBB_add_u16 l v) l (Some (be_bytes 2 v)) ∧
                        appends [] (CBB_add_u16le l v) l (Some (rev (be_bytes 2 v)))) ∧
  (∀ v, in_range 32 v → appends [] (CBB_add_u24 l v) l (if v <? 2 ^ 24 then Some (be_bytes 3 v) else None)) ∧
  (∀ v, in_range 32 v → appends [] (CBB_add_u32 l v) l (Some (be_bytes 4 v)) ∧
                        appends [] (CBB_add_u32le l v) l (Some (rev (be_bytes 4 v)))) ∧
  (∀ v, in_range 64 v → appends [] (CBB_add_u64 l v) l (Some (be_bytes 8 v)) ∧
                        appends [] (CBB_add_u64le l v) l (Some (rev (be_bytes 8 v)))).
Proof.
  assert (Hu : ∀ n v, (n ≤ 8)%nat → 0 <= v < 256 ^ Z.of_nat n →
    appends [] (cbb_add_u l v (Z.of_nat n)) l (Some (be_bytes n v))).
  { intros n v Hn Hv. pose proof (appends_add_u [] l v n Hn ltac:(lia)) as H.
    by destruct (Z.ltb_spec v (256 ^ Z.of_nat n)); [|lia]. }
  split_and!; [intros; by apply appends_add_bytes|intros; by apply appends_add_zeros|intros; by apply appends_add_u8
    |intros v Hv|intros v Hv; apply (appends_add_u [] l v 3); lia|intros v Hv|intros v Hv];
    [split; [by apply (Hu 2%nat); [lia|]|]|split; [by apply (Hu 4%nat); [lia|]|]|split; [by apply (Hu 8%nat); [lia|]|]].
  - rewrite <- bytes_swap2 by done. apply (Hu 2%nat); [lia|]. by apply wrap_range.
  - rewrite <- bytes_swap4 by done. apply (Hu 4%nat); [lia|]. by apply wrap_range.
  - rewrite <- bytes_swap8 by done. apply (Hu 8%nat); [lia|].
    apply (lor_range 64); [lia| |by apply wrap_range].
    pose proof (wrap_range 32) as Hr. unfold CRYPTO_bswap4. cbn zeta.
    pose proof (Hr (u32 (v ≫ 32) ≫ 16)). match goal with |- in_range 64 (u32 ?x) => specialize (Hr x ltac:(lia)) end. lia.
Qed.

(** The struct at [root] can be given to [CBB_cleanup]. *)
Definition cleanable (root : loc) (w : world) : Prop := is_Some (bufs w !! root) ∧ base_is root w root.

Lemma wp_cleanup root w (Q : unit → world → Prop) (E : world → Prop) :
  cleanable root w → (∀ w', Q () w') → wp (CBB_cleanup root) w Q E.
Proof.
  intros [[b Hb] (cbb & Hl & Hu)] HQ. unfold CBB_cleanup. apply wp_bind. eapply wp_deref_cbb; [done|].
  destruct (u cbb); [|by apply wp_ret]. apply wp_bind. eapply wp_deref_buf; [done|].
  destruct (can_resize b); [by apply wp_store_buf|by apply wp_ret].
Qed.

Lemma wp_finish w root c L2 F2 :
  rep w root (root :: L2) ((PFixed 0, c) :: F2) →
  wp (CBB_finish root) w
    (λ out _, ∃ inner, close_all F2 = Some inner ∧ out = c ++ inner)
    (λ w', (broken root w' ∧ ∀ inner, close_all F2 = Some inner → ¬ room_at root w (CBS_len (c ++ inner))) ∧ cleanable root w').
Proof.
  intros Hrep. destruct (rep_focus w root [] [] root _ c L2 F2 Hrep eq_refl) as (_&_&_&_&(cbb & Hl & Hs)&_).
  unfold CBB_finish, CBB_finish_to. apply wp_bind. eapply wp_deref_cbb; [done|].
  destruct (u cbb) as [|ch] eqn:Eu; [|by destruct Hs as [_ Hs]; rewrite Eu in Hs; destruct Hs].
  apply wp_bind. eapply wp_mono; [apply (appends_flush [] root w root [] [] _ c L2 F2 Hrep eq_refl); set_solver| |].
  - intros _ w1 (F & HF & Hrep1 & _). destruct (close_all F2) as [inner|]; [|done].
    cbn -[flat] in HF. injection HF as <-. rewrite app_nil_r in Hrep1.
    destruct Hrep1 as (_ & _ & _ & [(cbb1 & Hl1 & Hs1) _] & b & Hb & Hh).
    cbn in Hh. rewrite app_nil_r in Hh. destruct (holds_len _ _ Hh) as (_ & _ & Hlen & _).
    apply wp_bind. eapply wp_deref_buf; [done|]. cbn [negb orb]. rewrite andb_false_r. apply wp_bind. rewrite Hlen.
    eapply (wp_read_mid w1 root b [] (c ++ inner) []); [done|by rewrite app_nil_r|].
    apply wp_bind, wp_store_buf, wp_bind. unfold CBB_cleanup. apply wp_bind. eapply wp_deref_cbb; [done|].
    destruct (u cbb1) as [|ch] eqn:Eu1; [|by destruct Hs1 as [_ Hs1]; rewrite Eu1 in Hs1; destruct Hs1].
    apply wp_bind. eapply wp_deref_buf; [apply lookup_insert_eq|].
    destruct (can_resize _); [apply wp_store_buf|]; apply wp_ret; by exists inner.
  - intros w1 (Hbr & Htips & _ & Hno). split; [split; [done|]|].
    2: { split; [destruct Hbr as (b & ? & _); by eexists|]. apply Htips. left. }
    intros inner Hin Hr. rewrite Hin in Hno.
    eapply Hno; [done|]. cbn. by rewrite !app_nil_r.
Qed.

Lemma wp_init w root n :
  0 <= n < 2 ^ 64 →
  wp (CBB_init root n) w
    (λ _ w', rep w' root [root] [(PFixed 0, [])] ∧ (NeverFails A → ∀ m, m <= 2 ^ 62 → room_at root w' m))
    (λ w', OPENSSL_malloc (clock w) n = None ∧ cleanable root w').
Proof.
  intros Hn. unfold CBB_init. apply wp_bind. unfold CBB_zero, wp at 1. apply wp_bind.
  unfold B_malloc, wp at 1. cbn [clock].
  assert (Hok : ∀ block w1, Z.of_nat (length block) = n → bytes_ok block →
    wp (cbb_init root block n true) w1
      (λ _ w', rep w' root [root] [(PFixed 0, [])] ∧ (NeverFails A → ∀ m, m <= 2 ^ 62 → room_at root w' m))
      (λ w', OPENSSL_malloc (clock w) n = None ∧ cleanable root w')).
  { intros block w1 Hlen Hb. unfold cbb_init. apply wp_bind, wp_store_cbb, wp_store_buf. split.
    - split_and!; [done|done|apply NoDup_singleton| |].
      + split; [|done]. eexists. split; [apply lookup_insert_eq|by split].
      + eexists. split; [apply lookup_insert_eq|]. split_and!; cbn; try done; lia.
    - intros Hnf m Hm. eexists. split; [apply lookup_insert_eq|]. right. by split_and!. }
  destruct (OPENSSL_malloc (clock w) n) as [block|] eqn:Em.
  - apply Hok; [by eapply OPENSSL_malloc_length|by eapply OPENSSL_malloc_bytes].
  - destruct (Z.gtb_spec n 0).
    { apply wp_return0. split; [done|]. split; [eexists; apply lookup_insert_eq|].
      eexists. split; [apply lookup_insert_eq|done]. }
     apply Hok; [cbn; lia|constructor].
Qed.

(** A function that builds a document in a local CBB and returns it. *)
Lemma wp_build {T R} n (m : loc → B T) (g : T → list Z → R) w ov : 0 <= n < 2 ^ 64 - 8 → (∀ l, produces (m l) l ov) →
  wp (with_local (λ l, on_error (_ ← CBB_init l n; a ← m l; out ← CBB_finish l; mret (g a out)) (CBB_cleanup l))) w
    (λ r _, ∃ x a, ov = Some (x, a) ∧ r = g a x)
    (λ _, NeverFails A → ∀ x a, ov = Some (x, a) → 2 ^ 62 < CBS_len x).
Proof.
  intros Hn Hm. set (Q := λ r, ∃ x a, ov = Some (x, a) ∧ r = g a x).
  set (E := NeverFails A → ∀ x a, ov = Some (x, a) → 2 ^ 62 < CBS_len x). apply (wp_with_local _ w Q E). intros l.
  apply wp_on_error. apply (wp_mono _ _ (λ r _, Q r) _ (λ w', cleanable l w' ∧ E)); [|done|intros w' [? ?]; by apply wp_cleanup].
  apply wp_bind. eapply wp_mono; [apply wp_init; lia| |].
  2: { intros w' [Hf Hc]. split; [done|]. intros Hnf. destruct (OPENSSL_malloc_succeeds (clock w) n ltac:(lia)). congruence. }
  intros _ w1 [Hrep Hroom]. apply wp_bind. eapply wp_mono; [exact (Hm l w1 l [] [] (PFixed 0) [] Hrep eq_refl)| |].
  - intros a w2 (x & Hx & Hrep2 & _ & Hroom2). apply wp_bind. eapply wp_mono; [exact (wp_finish w2 l x [] [] Hrep2)| |].
    + intros out w3 (? & [= <-] & ->). apply wp_ret. rewrite app_nil_r. by exists x, a.
    + intros w3 [[_ Hno] Hc]. split; [done|]. intros Hnf x' a'. rewrite Hx. intros [= <- <-].
      destruct (Z.lt_ge_cases (2 ^ 62) (CBS_len x)) as [|Hle]; [done|]. exfalso. eapply Hno; [done|].
      apply Hroom2, Hroom; [done|]. by rewrite app_nil_r.
  - intros w2 ([Hb2 Hbase] & _ & Hno). split; [split; [done|apply Hbase; set_solver]|]. intros Hnf x a Hx.
    destruct (Z.lt_ge_cases (2 ^ 62) (CBS_len x)) as [|Hle]; [done|]. exfalso.
    apply (Hno x a Hx), Hroom; [done|]. cbn [flat app plen replicate]. by rewrite app_nil_r.
Qed.

(** Opening a child.  [CBB_add_asn1] closes the pending children of [l],
    appends the identifier octets of the tag (in low or high form) and opens
    [child] as an empty frame whose length is pending; the [uN]-length-prefixed
    variants open a frame with a fixed prefix of N/8 bytes.  They fail exactly
    when the children cannot be closed or there is no room. *)
Theorem CBB_add_children_open (l child : loc) (tag : Z) (Ht : in_range 32 tag) :
  opens (CBB_add_asn1 l child tag) l child PAsn1 (asn1_tag_bytes tag) ∧
  opens (CBB_add_u8_length_prefixed l child) l child (PFixed 1) [] ∧
  opens (CBB_add_u16_length_prefixed l child) l child (PFixed 2) [] ∧
  opens (CBB_add_u24_length_prefixed l child) l child (PFixed 3) [].
Proof.
  split_and!; [by apply opens_add_asn1|apply (opens_length_prefixed l child 1); lia
    |apply (opens_length_prefixed l child 2); lia|apply (opens_length_prefixed l child 3); lia].
Qed.

(** The INTEGER writers append the unique DER INTEGER of the value, for
    every [uint64_t] and every [int64_t], with no redundant sign octet and the
    padding octet where it is needed. *)
Theorem CBB_add_asn1_integer_appends (l : loc) :
  (∀ v, in_range 64 v →
     appends [] (CBB_add_asn1_uint64 l v) l (Some (der_element CBS_ASN1_INTEGER (int_bytes v)))) ∧
  (∀ v, - 2 ^ 63 <= v < 2 ^ 63 →
     appends [] (CBB_add_asn1_int64 l v) l (Some (der_element CBS_ASN1_INTEGER (int_bytes v)))).
Proof.
  split; intros v Hv; rewrite <- int_bytes_short by lia.
  - by apply appends_uint64_with_tag; [|vm_compute].
  - by apply appends_int64_with_tag; [|vm_compute].
Qed.

(** [CBB_add_asn1_octet_string] and [CBB_add_asn1_bool] append the DER
    OCTET STRING and BOOLEAN; an OCTET STRING of 2^32 - 1 bytes or more is
    refused. *)
Theorem CBB_add_asn1_strings_append (l : loc) :
  (∀ data, bytes_ok data → CBS_len data < 2 ^ 64 →
     appends [] (CBB_add_asn1_octet_string l data) l
       (if CBS_len data <=? 0xfffffffe then Some (der_element CBS_ASN1_OCTETSTRING data) else None)) ∧
  (∀ value, appends [] (CBB_add_asn1_bool l value) l
     (Some (der_element CBS_ASN1_BOOLEAN [if negb (value =? 0) then 0xff else 0]))).
Proof. split; [intros; by apply appends_octet_string|intros; apply appends_bool]. Qed.

(** C25: [CBB_finish] on a root CBB returns the document with every pending
    child closed, and fails exactly when some length does not fit its prefix
    or the document does not fit the buffer. *)
Theorem CBB_finish_returns (w : world) (root : loc) (c : list Z) (L2 : list loc) (F2 : list frame)
    (Hrep : rep w root (root :: L2) ((PFixed 0, c) :: F2)) :
  match CBB_finish root w with
  | Ok out _ => ∃ inner, close_all F2 = Some inner ∧ out = c ++ inner
  | Fail w' => broken root w' ∧
      ∀ inner, close_all F2 = Some inner → ¬ room_at root w (CBS_len (c ++ inner))
  | UB => False
  end.
Proof. pose proof (wp_finish w root c L2 F2 Hrep) as H. unfold wp in H. destruct (CBB_finish root w); [done|apply H|done]. Qed.

Lemma wp_discard w root L1 F1 l k c L2 F2 :
  rep w root (L1 ++ l :: L2) (F1 ++ (k, c) :: F2) → length L1 = length F1 →
  wp (CBB_discard_child l) w
    (λ _ w', rep w' root (L1 ++ [l]) (F1 ++ [(k, c)]) ∧ frame_ok (L1 ++ l :: L2) w w') (λ _, False).
Proof.
  intros Hrep Hlen. pose proof (rep_root _ _ _ _ Hrep) as Hroot0.
  destruct (rep_focus _ _ _ _ _ _ _ _ _ Hrep Hlen) as (Hch & Hnd & Hroot & Hdis & (cbb & Hl & Hs) & b & Hb & Hh).
  unfold CBB_discard_child. apply wp_bind. eapply wp_deref_cbb; [done|].
  destruct L2 as [|cl L2], F2 as [|[k' c'] F2]; cbn [chain] in Hch; try by destruct Hch.
  { assert (E : child cbb = None) by apply Hs. rewrite E. apply wp_ret. by split; [|apply frame_ok_refl]. }
  destruct Hch as (_ & (cbb' & Hcl & Hs') & _). assert (Ec : child cbb = Some cl) by apply Hs. rewrite Ec.
  apply not_elem_of_cons in Hroot as [Hne _]. apply NoDup_cons in Hnd as [Hnl Hnd].
  apply not_elem_of_cons in Hnl as [Hlcl _].
  destruct (struct_child _ _ _ _ _ _ Hs' (not_eq_sym Hne)) as [nx ->].
  apply wp_bind. eapply wp_get_base; [done..|]. apply wp_bind, wp_ret, wp_bind.
  eapply wp_deref_child; [done|]. apply wp_bind. eapply wp_deref_buf; [done|]. apply wp_bind, wp_store_buf, wp_bind.
  eapply wp_store_child; [done|]. apply wp_bind. eapply wp_deref_cbb; [cbn; by rewrite lookup_insert_ne|].
  apply wp_store_cbb. split.
  - eapply rep_update; [done|done| |by eapply NoDup_take, Hrep| |apply lookup_insert_eq|].
    + intros l' Hl'. specialize (Hdis l' Hl'). cbn. rewrite !lookup_insert_ne; [done|..]; intros <-; set_solver.
    + split; [|done]. eexists. split; [apply lookup_insert_eq|]. by destruct Hs.
    + destruct Hh as (He & Hln & Hc & Hcl' & Hlim & Ht & Hbytes).
      assert (Hf : flat (F1 ++ [(k, c)]) = flat F1 ++ replicate (plen k) 0 ++ c) by apply holds_children.
      assert (Eo : CBS_len (flat F1) + Z.of_nat (plen k) + CBS_len c = CBS_len (flat (F1 ++ [(k, c)]))).
      { rewrite Hf, !CBS_len_app, CBS_len_replicate. lia. }
      cbn [flat] in *. rewrite Hf in *.
      assert (Hpre : flat F1 ++ (replicate (plen k) 0 ++ c) ++ flat ((k', c') :: F2) =
                     (flat F1 ++ replicate (plen k) 0 ++ c) ++ flat ((k', c') :: F2)) by by rewrite <- !app_assoc.
      cbn [flat] in Hpre. rewrite Hpre in Hln, Ht. rewrite CBS_len_app in Hln.
      pose proof (CBS_len_nonneg ((replicate (plen k') 0 ++ c') ++ flat F2)).
      split_and!; cbn; try done; try lia.
      set (X := flat F1 ++ replicate (plen k) 0 ++ c) in *.
      rewrite <- (take_app_length X ((replicate (plen k') 0 ++ c') ++ flat F2)) at 2. rewrite <- Ht, take_take.
      f_equal. rewrite length_app. lia.
  - intros l' Hl'. cbn. rewrite !lookup_insert_ne; [done|..]; intros <-; set_solver.
Qed.

(** [CBB_discard_child] drops the pending child of [l] and everything in
    it, header octets of the parent excepted, and leaves [l] ready for more. *)
Theorem CBB_discard_child_drops (w : world) (root : loc) (L1 : list loc) (F1 : list frame) (l : loc)
    (k : pending) (c : list Z) (L2 : list loc) (F2 : list frame)
    (Hrep : rep w root (L1 ++ l :: L2) (F1 ++ (k, c) :: F2)) (Hlen : length L1 = length F1) :
  ∃ w', CBB_discard_child l w = Ok () w' ∧ rep w' root (L1 ++ [l]) (F1 ++ [(k, c)]) ∧
    frame_ok (L1 ++ l :: L2) w w'.
Proof.
  pose proof (wp_discard w root L1 F1 l k c L2 F2 Hrep Hlen) as H. unfold wp in H.
  destruct (CBB_discard_child l w) as [[] w'|w'|]; [by exists w'|done|done].
Qed.
End theorems.

Lemma CBB_flush_refines_witness :
  match CBB_flush (A := zero_allocator) 0%nat example_world with
  | Ok _ w' =>
      ∃ inner, close_all [(PAsn1, [5])] = Some inner ∧ rep w' 0 ([] ++ [0%nat]) ([] ++ [(PFixed 0, [48] ++ inner)]) ∧
        frame_ok [0%nat; 1%nat] example_world w'
  | Fail w' =>
      broken 0 w' ∧ frame_ok [0%nat; 1%nat] example_world w' ∧
      ∀ inner, close_all [(PAsn1, [5])] = Some inner →
        ¬ room_at (A := zero_allocator) 0 example_world (CBS_len (flat ([] ++ [(PFixed 0, [48] ++ inner)])))
  | UB => False
  end.
Proof. exact (CBB_flush_refines (A := zero_allocator) example_world 0 [] [] 0 (PFixed 0) [48] [1%nat] [(PAsn1, [5])] example_rep eq_refl). Defined.

Lemma CBB_add_children_open_witness :
  opens (A := zero_allocator) (CBB_add_asn1 (A := zero_allocator) 0%nat 1%nat 0x20000010) 0%nat 1%nat PAsn1 [48].
Proof. exact (proj1 (CBB_add_children_open (A := zero_allocator) 0%nat 1%nat 0x20000010 ltac:(lia))). Defined.

Lemma CBB_finish_returns_witness :
  match CBB_finish (A := zero_allocator) 0%nat example_world with
  | Ok out _ => ∃ inner, close_all [(PAsn1, [5])] = Some inner ∧ out = [48] ++ inner
  | Fail w' => broken 0 w' ∧
      ∀ inner, close_all [(PAsn1, [5])] = Some inner →
        ¬ room_at (A := zero_allocator) 0 example_world (CBS_len ([48] ++ inner))
  | UB => False
  end.
Proof. exact (CBB_finish_returns (A := zero_allocator) example_world 0 [48] [1%nat] [(PAsn1, [5])] example_rep). Defined.

Lemma CBB_discard_child_drops_witness :
  ∃ w', CBB_discard_child 0%nat example_world = Ok () w' ∧ rep w' 0 ([] ++ [0%nat]) ([] ++ [(PFixed 0, [48])]) ∧
    frame_ok ([] ++ [0%nat; 1%nat]) example_world w'.
Proof. exact (CBB_discard_child_drops example_world 0 [] [] 0 (PFixed 0) [48] [1%nat] [(PAsn1, [5])] example_rep eq_refl). Defined.
