(* ===== verification/CbbSetOf.v ===== *)
(** [CBB_flush_asn1_set_of]: the contents of a SET OF in DER order. *)
From stdpp Require Import sorting.
From S2P Require Import Prelude Radix Mem Cbs CString Cbb CbbSpec CbbFlush CbbOps CbbAsn1 CbbTheorems.

(** ** The order of X.690, section 11.6 *)

(** Lexicographic order on octet strings; a prefix comes first. *)
Inductive lex_le : list Z → list Z → Prop :=
  | lex_nil b : lex_le [] b
  | lex_lt x y a b : x < y → lex_le (x :: a) (y :: b)
  | lex_eq x a b : lex_le a b → lex_le (x :: a) (x :: b).

Lemma compare_cons x y a b :
  compare_set_of_element (x :: a) (y :: b) =
  if x =? y then compare_set_of_element a b else if x <? y then -1 else 1.
Proof.
  unfold compare_set_of_element, CBS_len. cbn [length]. cbv zeta.
  destruct (Z.ltb_spec (Z.of_nat (S (length a))) (Z.of_nat (S (length b)))),
    (Z.ltb_spec (Z.of_nat (length a)) (Z.of_nat (length b))); try lia; rewrite !Nat2Z.id; cbn [take memcmp];
    (destruct (Z.eqb_spec x y); [|by destruct (x <? y)]);
    destruct (Z.eqb_spec (Z.of_nat (S (length a))) (Z.of_nat (S (length b)))),
      (Z.eqb_spec (Z.of_nat (length a)) (Z.of_nat (length b))); done || lia.
Qed.

Lemma compare_lex a b : compare_set_of_element a b <= 0 ↔ lex_le a b.
Proof.
  revert b. induction a as [|x a IH]; intros b.
  - split; [constructor|]. intros _. by destruct b.
  - destruct b as [|y b]; [split; [|by inversion 1]|].
    { unfold compare_set_of_element, CBS_len. cbn [length]. cbv zeta. destruct (Z.ltb_spec (Z.of_nat (S (length a))) (Z.of_nat 0)); [lia|].
      cbn [Z.to_nat Z.of_nat take memcmp]. by destruct (Z.of_nat (S (length a)) =? 0) eqn:E; [apply Z.eqb_eq in E; lia|]. }
    rewrite compare_cons. destruct (Z.eqb_spec x y) as [->|].
    + rewrite IH. split; [apply lex_eq|]. inversion 1; subst; [lia|done].
    + destruct (Z.ltb_spec x y); split; try lia; [by constructor|inversion 1; subst; lia].
Qed.

Lemma lex_total a b : lex_le a b ∨ lex_le b a.
Proof.
  revert b. induction a as [|x a IH]; intros [|y b]; [left; constructor..|right; constructor|].
  destruct (Z.lt_trichotomy x y) as [?|[->|?]]; [left; by constructor| |right; by constructor].
  destruct (IH b); [left|right]; by apply lex_eq.
Qed.

Lemma lex_antisym a b : lex_le a b → lex_le b a → a = b.
Proof. induction 1; inversion 1; subst; try lia; [done|]. f_equal. auto. Qed.

Lemma lex_trans a b c : lex_le a b → lex_le b c → lex_le a c.
Proof.
  intros H. revert c. induction H as [|x y a b|x a b H IH]; intros c Hc; [constructor| |]; inversion Hc; subst;
    [apply lex_lt; lia|by apply lex_lt|by apply lex_lt|apply lex_eq; auto].
Qed.

#[export] Instance set_of_le_total : Total set_of_le.
Proof. intros a b. unfold set_of_le. rewrite !compare_lex. apply lex_total. Qed.

Lemma Sorted_mono {T} (R R' : T → T → Prop) l : (∀ x y, R x y → R' x y) → Sorted R l → Sorted R' l.
Proof. intros HR. induction 1 as [|x l ? ? Hd]; constructor; [done|]. destruct Hd; constructor. by apply HR. Qed.

Lemma qsort_sorted es : Permutation es (qsort_set_of es) ∧ Sorted lex_le (qsort_set_of es).
Proof.
  split; [symmetry; apply merge_sort_Permutation|].
  apply (Sorted_mono set_of_le); [intros x y; apply compare_lex|]. apply (Sorted_merge_sort set_of_le).
Qed.

(** ** Splitting the contents *)

(** A DER element as the strict reader accepts it. *)
Definition is_element (e : list Z) : Prop :=
  ∃ tag contents, valid_tag tag ∧ CBS_len contents < 2 ^ 32 ∧ e = der_element tag contents.

Lemma element_nonempty e : is_element e → e ≠ [].
Proof.
  intros (tag & contents & Ht & Hc & ->) E%(f_equal CBS_len). pose proof (CBS_len_nonneg contents).
  pose proof (der_header_length tag (CBS_len contents) Ht ltac:(lia)). unfold der_element in E.
  rewrite CBS_len_app in E. change (CBS_len []) with 0 in E. lia.
Qed.

Lemma get_element e rest : is_element e →
  ∃ a, CBS_get_any_asn1_element (e ++ rest) = (Some a, rest) ∧ el_out a = e.
Proof.
  intros (tag & contents & Ht & Hc & ->). eexists. split; [by apply (get_element_der tag contents rest false)|done].
Qed.

Lemma set_of_count_elements fuel cbs n : bytes_ok cbs → (length cbs ≤ fuel)%nat → set_of_count fuel cbs = Some n →
  ∃ es, Forall is_element es ∧ cbs = concat es ∧ n = Z.of_nat (length es).
Proof.
  revert cbs n. induction fuel as [|fuel IH]; intros cbs n Hb Hl; cbn [set_of_count].
  - destruct cbs; [|cbn in Hl; lia]. cbn. intros [= <-]. by exists [].
  - destruct (Z.eqb_spec (CBS_len cbs) 0) as [E|]; cbn [negb].
    { intros [= <-]. destruct cbs; [by exists []|]. unfold CBS_len in E. cbn in E. lia. }
    destruct (CBS_get_any_asn1_element cbs) as [[e|] rest] eqn:Eg; [|done].
    apply get_element_canonical in Eg as (tag & contents & Ht & Hc & -> & _); [|done].
    set (x := der_element tag contents) in *. assert (Hx : is_element x) by by exists tag, contents.
    pose proof (element_nonempty x Hx). apply Forall_app in Hb as [_ Hb]. rewrite length_app in Hl.
    destruct (set_of_count fuel rest) as [m|] eqn:Em; [|done]. intros [= <-].
    apply IH in Em as (es & Hes & -> & ->); [|done|destruct x; [done|cbn in Hl; lia]].
    exists (x :: es). split_and!; [by apply Forall_cons|done|cbn; lia].
Qed.

Lemma set_of_count_spec fuel es : Forall is_element es → (length (concat es) ≤ fuel)%nat →
  set_of_count fuel (concat es) = Some (Z.of_nat (length es)).
Proof.
  intros Hes. revert fuel. induction Hes as [|e es He Hes IH]; intros fuel Hl; [by destruct fuel|].
  pose proof (element_nonempty e He). cbn [concat] in *. rewrite length_app in Hl.
  destruct fuel as [|fuel]; [destruct e; [done|cbn in Hl; lia]|]. cbn [set_of_count].
  destruct (Z.eqb_spec (CBS_len (e ++ concat es)) 0) as [E|]; [destruct e; [done|unfold CBS_len in E; cbn in E; lia]|].
  cbn [negb]. destruct (get_element e (concat es) He) as (a & -> & _).
  rewrite IH by (destruct e; [done|cbn in Hl; lia]). cbn. f_equal. lia.
Qed.

Lemma set_of_children_spec es : Forall is_element es → set_of_children (length es) (concat es) = Some es.
Proof.
  induction 1 as [|e es He Hes IH]; [done|]. cbn [length concat set_of_children].
  destruct (get_element e (concat es) He) as (a & -> & ->). by rewrite IH.
Qed.

(** ** Rewriting the contents in place *)
Section set_of.
Context {A : Allocator}.

Lemma wp_set_of_write root P es old w b done_ (Q : unit → world → Prop) (E : world → Prop) :
  bufs w !! root = Some b → holds b (P ++ done_ ++ old) → length old = length (concat es) → bytes_ok (concat es) →
  (∀ b' w', holds b' (P ++ done_ ++ concat es) → grows b b' → bufs w' = <[root := b']> (bufs w) → cbbs w' = cbbs w → Q () w') →
  wp (set_of_write root (CBS_len P) (CBS_len done_) es) w Q E.
Proof.
  revert old w b done_. induction es as [|e es IH]; intros old w b done_ Hb Hh Hl Hes HQ.
  - apply wp_ret. destruct old; [|done]. apply (HQ b); [done|done|by rewrite insert_id|done].
  - cbn [concat set_of_write] in *. apply Forall_app in Hes as [He Hes]. rewrite length_app in Hl.
    rewrite <- (take_drop (length e) old) in Hh. rewrite <- (CBS_len_app P done_), <- (CBS_len_app done_ e). apply wp_bind.
    eapply (wp_write_mid w root b (P ++ done_) (take (length e) old) (drop (length e) old) e);
      [done|by rewrite <- app_assoc|rewrite length_take; lia|done|].
    intros b1 Hh1 Hg1.
    eapply (IH (drop (length e) old) _ b1 (done_ ++ e)); [apply lookup_insert_eq| |rewrite length_drop; lia|done|].
    + by rewrite <- !app_assoc in *.
    + intros b2 w2 Hh2 Hg2 Hw2 Hc2. apply (HQ b2); [by rewrite <- !app_assoc in *|by etrans| |done].
      rewrite Hw2. apply insert_insert_eq.
Qed.

(** Where the contents are. *)
Lemma wp_contents w root L1 F1 l k d :
  rep w root (L1 ++ [l]) (F1 ++ [(k, d)]) → length L1 = length F1 →
  let P := flat F1 ++ replicate (plen k) 0 in
  ∃ b, bufs w !! root = Some b ∧ holds b (P ++ d) ∧
    CBB_data l w = Ok (root, CBS_len P) w ∧ CBB_len l w = Ok (CBS_len d) w.
Proof.
  intros Hrep Hlen P. destruct (rep_focus w root L1 F1 l k d [] [] Hrep Hlen) as (_ & _ & _ & _ & (cbb & Hl & Hs) & b & Hb & Hh).
  cbn [flat] in Hh. rewrite app_nil_r in Hh. assert (Hh' : holds b (P ++ d)) by (subst P; by rewrite <- app_assoc).
  exists b. split_and!; [done..| |].
  - unfold CBB_data, mbind, B_bind, deref_cbb. rewrite Hl. destruct Hs as [_ Hs]. destruct (u cbb) as [|ch].
    + subst l. destruct Hrep as (Hr & Hk & Hnd & _). destruct L1 as [|l1 L1], F1 as [|f1 F1]; try done.
      * injection Hk as ->. done.
      * injection Hr as ->. apply NoDup_cons in Hnd as [Hnd _]. destruct Hnd. set_solver.
    + destruct Hs as [_ ->]. cbn. subst P. by rewrite CBS_len_app, CBS_len_replicate.
  - unfold CBB_len, mbind, B_bind, deref_cbb. rewrite Hl. destruct Hs as [_ Hs]. destruct (holds_len _ _ Hh') as (_ & _ & Hn & _).
    destruct (u cbb) as [|ch].
    + subst l. unfold deref_buf. rewrite Hb. cbn. destruct Hrep as (Hr & Hk & Hnd & _). destruct L1 as [|l1 L1], F1 as [|f1 F1]; try done.
      * injection Hk as ->. by rewrite Hn.
      * injection Hr as ->. apply NoDup_cons in Hnd as [Hnd _]. destruct Hnd. set_solver.
    + destruct Hs as [_ ->]. cbn. unfold deref_buf. rewrite Hb. cbn. subst P. rewrite Hn, !CBS_len_app, CBS_len_replicate. f_equal. lia.
Qed.

Lemma wp_Ok {T} (m : B T) w a w' (Q : T → world → Prop) (E : world → Prop) : m w = Ok a w' → Q a w' → wp m w Q E.
Proof. unfold wp. by intros ->. Qed.

Lemma elements_length es : Forall is_element es → Z.of_nat (length es) <= CBS_len (concat es).
Proof.
  induction 1 as [|e es He Hes IH]; [done|]. cbn [length concat]. rewrite CBS_len_app.
  pose proof (element_nonempty e He). destruct e; [done|]. unfold CBS_len at 1. cbn [length]. lia.
Qed.

Lemma concat_Permutation (l l' : list (list Z)) : l ≡ₚ l' → length (concat l) = length (concat l') ∧ (bytes_ok (concat l) → bytes_ok (concat l')).
Proof.
  induction 1 as [|x l l' _ [IH1 IH2]|x y l|l l1 l2 _ [IH1 IH2] _ [IH3 IH4]]; cbn [concat]; rewrite ?length_app; [done| | |].
  - split; [lia|]. intros [? ?]%Forall_app. apply Forall_app. by split; [|apply IH2].
  - split; [lia|]. intros [? [? ?]%Forall_app]%Forall_app. by repeat (apply Forall_app; split).
  - split; [lia|auto].
Qed.

(** The sort of the elements of a CBB without pending children. *)
Definition set_of_sorted (w w' : world) (root : loc) (L1 : list loc) (F1 : list frame) (l : loc) (k : pending) (d : list Z) : Prop :=
  ∃ es es', Forall is_element es ∧ d = concat es ∧ es ≡ₚ es' ∧ Sorted lex_le es' ∧
    rep w' root (L1 ++ [l]) (F1 ++ [(k, concat es')]) ∧ frame_ok (L1 ++ [l]) w w'.

(** An allocation that the sorting of the elements of [d] needs fails: the copy
    of the contents or the array of children. *)
Definition no_memory_to_sort (d : list Z) : Prop :=
  ∃ t es, Forall is_element es ∧ d = concat es ∧ (2 <= length es)%nat ∧
    (OPENSSL_memdup t d = None ∨ OPENSSL_calloc (S t) (Z.of_nat (length es)) sizeof_CBS = None).

Definition set_of_refused (w w' : world) (root : loc) (L1 : list loc) (F1 : list frame) (l : loc) (k : pending) (d : list Z) : Prop :=
  rep w' root (L1 ++ [l]) (F1 ++ [(k, d)]) ∧ frame_ok (L1 ++ [l]) w w' ∧
  ((¬ ∃ es, Forall is_element es ∧ d = concat es) ∨ no_memory_to_sort d).

Lemma alloc_elements t t' es : Forall is_element es → (2 <= length es)%nat → CBS_len (concat es) < 2 ^ 59 → NeverFails A →
  OPENSSL_memdup t (concat es) ≠ None ∧ OPENSSL_calloc t' (Z.of_nat (length es)) sizeof_CBS ≠ None.
Proof.
  intros Hes Hn Hlen Hnf. pose proof (elements_length es Hes). split.
  - unfold OPENSSL_memdup. unfold CBS_len in *. destruct (Z.eqb_spec (Z.of_nat (length (concat es))) 0); [lia|].
    by destruct (OPENSSL_malloc_succeeds t (Z.of_nat (length (concat es))) ltac:(lia)) as [? ->].
  - unfold OPENSSL_calloc, OPENSSL_zalloc, sizeof_CBS. change ((2 ^ 64 - 1) / 16) with 1152921504606846975.
    rewrite Z.gtb_ltb. destruct (Z.ltb_spec 1152921504606846975 (Z.of_nat (length es))); [lia|]. cbn [negb andb Z.eqb].
    rewrite wrap_small by lia. by destruct (OPENSSL_malloc_succeeds t' (Z.of_nat (length es) * 16) ltac:(lia)) as [? ->].
Qed.

Lemma no_memory_cause d : no_memory_to_sort d → NeverFails A → 2 ^ 59 <= CBS_len d.
Proof.
  intros (t & es & Hes & -> & Hn & Hno) Hnf. destruct (Z.lt_ge_cases (CBS_len (concat es)) (2 ^ 59)) as [Hlt|]; [|done].
  destruct (alloc_elements t (S t) es Hes Hn Hlt Hnf). by destruct Hno.
Qed.

Lemma wp_set_of_tip w root L1 F1 l k d :
  rep w root (L1 ++ [l]) (F1 ++ [(k, d)]) → length L1 = length F1 →
  wp ('(root, data) ← CBB_data l;
      n ← CBB_len l;
      cbs ← read_buf root data n;
      match set_of_count (length cbs) cbs with
      | None => return0
      | Some num_children =>
          if num_children <? 2 then mret ()
          else
            buf_len ← CBB_len l;
            cbs ← read_buf root data buf_len;
            buf ← B_memdup cbs;
            children ← B_calloc num_children sizeof_CBS;
            match buf, children with
            | Some buf, Some _ =>
                match set_of_children (Z.to_nat num_children) (take (Z.to_nat buf_len) buf) with
                | None => return0
                | Some children => set_of_write root data 0 (qsort_set_of children)
                end
            | _, _ => return0
            end
      end) w
    (λ _ w', set_of_sorted w w' root L1 F1 l k d) (λ w', set_of_refused w w' root L1 F1 l k d).
Proof.
  intros Hrep Hlen. destruct (wp_contents w root L1 F1 l k d Hrep Hlen) as (b & Hb & Hh & Hdata & Hn).
  set (P := flat F1 ++ replicate (plen k) 0) in *. pose proof (holds_bytes _ _ Hh) as Hbytes. apply Forall_app in Hbytes as [_ Hd].
  destruct (holds_len _ _ Hh) as (Hcap & Hlim & _). rewrite CBS_len_app in Hcap. pose proof (CBS_len_nonneg P).
  assert (Hread : ∀ Q E, Q d w → wp (read_buf root (CBS_len P) (CBS_len d)) w Q E).
  { intros Q E HQ. apply (wp_read_mid w root b P d []); [done|by rewrite app_nil_r|done]. }
  apply wp_bind. eapply wp_Ok; [exact Hdata|]. apply wp_bind. eapply wp_Ok; [exact Hn|]. apply wp_bind, Hread.
  destruct (set_of_count (length d) d) as [n|] eqn:Ec.
  2: { apply wp_return0. split; [done|]. split; [by apply frame_ok_refl|]. left. intros (es & Hes & ->). by rewrite set_of_count_spec in Ec. }
  apply set_of_count_elements in Ec as (es & Hes & -> & ->); [|done..].
  destruct (Z.ltb_spec (Z.of_nat (length es)) 2) as [Hlt|Hge].
  { apply wp_ret. exists es, es. split_and!; [done..| |done|by apply frame_ok_refl].
    destruct es as [|e1 [|e2 es]]; [constructor|repeat constructor|cbn in Hlt; lia]. }
  apply wp_bind. eapply wp_Ok; [exact Hn|]. apply wp_bind, Hread. apply wp_bind. eapply wp_Ok; [done|].
  apply wp_bind. eapply wp_Ok; [done|]. cbn [clock].
  set (w1 := mkWorld _ _ _). assert (Hrep1 : rep w1 root (L1 ++ [l]) (F1 ++ [(k, concat es)])) by exact Hrep.
  assert (Hfr1 : frame_ok (L1 ++ [l]) w w1) by by split.
  destruct (memdup_spec (clock w) (concat es) ltac:(lia)) as [Em|Em]; rewrite Em.
  { apply wp_return0. split_and!; [done..|]. right. exists (clock w), es. split_and!; [done..|lia|by left]. }
  destruct (OPENSSL_calloc _ _ _) eqn:Ea.
  2: { apply wp_return0. split_and!; [done..|]. right. exists (clock w), es. split_and!; [done..|lia|by right]. }
  rewrite take_ge, Nat2Z.id, set_of_children_spec by (done || unfold CBS_len; lia).
  destruct (qsort_sorted es) as [Hp Hs]. destruct (concat_Permutation _ _ Hp) as [Hcl Hcb].
  apply (wp_set_of_write root P (qsort_set_of es) (concat es) w1 b []); [done|done|done|auto|].
  intros b' w' Hh' Hg Hw' Hc'. exists es, (qsort_set_of es). split_and!; [done..| |].
  - eapply (rep_update w w'); [done|done|by intros; rewrite Hc'|by destruct Hrep as (_&_&?&_)| |by rewrite Hw', lookup_insert_eq|].
    + rewrite Hc'. destruct (rep_focus _ _ _ _ _ _ _ _ _ Hrep Hlen) as (Hch & _). cbn [chain] in *. naive_solver.
    + rewrite holds_children. subst P. by rewrite <- app_assoc in Hh'.
  - intros l' Hl'. rewrite Hc', Hw'. split; [done|]. rewrite lookup_insert_ne; [done|]. intros <-. pose proof (rep_root _ _ _ _ Hrep). set_solver.
Qed.

(** How [CBB_flush_asn1_set_of] leaves the document when it fails.  Either a
    child could not be closed, for its length or for lack of room: the error bit
    is set and every struct can still be used.  Or the children were closed and
    the document is represented with the contents as they were, because they
    are not a sequence of DER elements, or there was no memory to sort them. *)
Definition set_of_failed (w w' : world) (root : loc) (L1 : list loc) (F1 : list frame) (l : loc)
    (k : pending) (c : list Z) (F2 : list frame) : Prop :=
  (broken root w' ∧ (∀ l', l' ∈ L1 ++ [l] → base_is root w' l') ∧
     ∀ inner, close_all F2 = Some inner → ¬ room_at root w (CBS_len (flat (F1 ++ [(k, c ++ inner)])))) ∨
  (∃ inner, close_all F2 = Some inner ∧ rep w' root (L1 ++ [l]) (F1 ++ [(k, c ++ inner)]) ∧
     ((¬ ∃ es, Forall is_element es ∧ c ++ inner = concat es) ∨ no_memory_to_sort (c ++ inner))).

(** C34: [CBB_flush_asn1_set_of] closes the pending children of a CBB whose
    contents are DER elements and leaves the same elements in the ascending
    lexicographic order that DER prescribes for a SET OF, whatever order they
    were written in.  It fails only when a child cannot be closed, the contents
    are not a sequence of DER elements, or memory runs out (for contents of
    less than 2^59 bytes, only if the allocator fails).  The error bit is set
    only in the first case; in the others the children are closed and the
    contents are as they were. *)
Theorem CBB_flush_asn1_set_of_sorts (w : world) (root : loc) (L1 : list loc) (F1 : list frame) (l : loc)
    (k : pending) (c : list Z) (L2 : list loc) (F2 : list frame)
    (Hrep : rep w root (L1 ++ l :: L2) (F1 ++ (k, c) :: F2)) (Hlen : length L1 = length F1) :
  match CBB_flush_asn1_set_of l w with
  | Ok _ w' => ∃ inner es es', close_all F2 = Some inner ∧ Forall is_element es ∧ c ++ inner = concat es ∧
      es ≡ₚ es' ∧ Sorted lex_le es' ∧ rep w' root (L1 ++ [l]) (F1 ++ [(k, concat es')]) ∧ frame_ok (L1 ++ l :: L2) w w'
  | Fail w' => frame_ok (L1 ++ l :: L2) w w' ∧ set_of_failed w w' root L1 F1 l k c F2 ∧
      ∀ inner es, close_all F2 = Some inner → Forall is_element es → c ++ inner = concat es → NeverFails A →
        CBS_len (c ++ inner) < 2 ^ 59 → ¬ room_at root w (CBS_len (flat (F1 ++ [(k, c ++ inner)])))
  | UB => False
  end.
Proof.
  pose proof (appends_flush [] l w root L1 F1 k c L2 F2 Hrep Hlen ltac:(set_solver)) as Hf.
  unfold builds, wp in Hf. unfold CBB_flush_asn1_set_of, mbind at 1, B_bind at 1.
  destruct (CBB_flush l w) as [[] w1|w1|]; [| |done].
  - destruct Hf as (F & HF & Hrep1 & Hfr1 & Hroom). destruct (close_all F2) as [inner|] eqn:Hin; [|done].
    cbn -[flat] in HF. injection HF as <-. rewrite app_nil_r in Hrep1.
    assert (Hsub : ∀ w2, frame_ok (L1 ++ [l]) w1 w2 → frame_ok (L1 ++ l :: L2) w w2).
    { intros w2 Hf. eapply frame_ok_trans; [exact Hfr1|exact Hf|]. set_solver. }
    pose proof (wp_set_of_tip w1 root L1 F1 l k (c ++ inner) Hrep1 Hlen) as Hw. unfold wp in Hw.
    match type of Hw with match ?r with _ => _ end => destruct r as [[] w2|w2|]; [| |done] end.
    + destruct Hw as (es & es' & ? & ? & ? & ? & ? & ?). exists inner, es, es'. by split_and!; auto.
    + destruct Hw as (Hrep2 & Hfr2 & Hno). split; [auto|]. split.
      { right. exists inner. split; [exact Hin|]. split; [exact Hrep2|exact Hno]. }
      intros ? es [= <-] Hes E Hnf Hlt. destruct Hno as [Hno|Hno]; [destruct Hno; by exists es|].
      pose proof (no_memory_cause _ Hno Hnf). lia.
  - destruct Hf as (Hbr & Htips & Hfr & Hno). split; [done|].
    assert (Hclose : ∀ inner, close_all F2 = Some inner → ¬ room_at root w (CBS_len (flat (F1 ++ [(k, c ++ inner)])))).
    { intros inner Hin Hr. rewrite Hin in Hno. eapply Hno; [done|]. cbn -[flat]. by rewrite app_nil_r. }
    split; [left; split_and!; [done|intros; apply Htips; set_solver|done]|eauto].
Qed.
End set_of.

(** A SET OF with the INTEGERs 2 and 1, in that order. *)
Definition set_world : world :=
  mkWorld {[0%nat := mkCBB (Some 1%nat) UBase; 1%nat := mkCBB None (UChild (mkChild (Some 0%nat) 1 1 true))]}
          {[0%nat := mkBuffer [49; 0; 2; 1; 2; 2; 1; 1] 8 8 true false]} 0.

Lemma set_rep : rep set_world 0 [0%nat; 1%nat] [(PFixed 0, [49]); (PAsn1, [2; 1; 2; 2; 1; 1])].
Proof.
  split_and!; [done|done|by apply (bool_decide_unpack _); vm_compute| |].
  - split; [eexists; split; [reflexivity|by split]|]. split; [|done].
    eexists. split; [reflexivity|]. by repeat split.
  - eexists. split; [reflexivity|]. split_and!; try done.
    by apply (bool_decide_unpack _); vm_compute.
Qed.

Lemma set_sorted : ∃ w', CBB_flush_asn1_set_of (A := zero_allocator) 1%nat set_world = Ok () w' ∧
  buf <$> bufs w' !! 0%nat = Some [49; 0; 2; 1; 1; 2; 1; 2].
Proof. eexists. split; [by vm_compute|]. by vm_compute. Qed.

Lemma CBB_flush_asn1_set_of_witness :
  match CBB_flush_asn1_set_of (A := zero_allocator) 1%nat set_world with
  | Ok _ w' => ∃ inner es es', close_all [] = Some inner ∧ Forall is_element es ∧ [2; 1; 2; 2; 1; 1] ++ inner = concat es ∧
      es ≡ₚ es' ∧ Sorted lex_le es' ∧ rep w' 0 ([0%nat] ++ [1%nat]) ([(PFixed 0, [49])] ++ [(PAsn1, concat es')]) ∧
      frame_ok ([0%nat] ++ [1%nat]) set_world w'
  | Fail w' => frame_ok ([0%nat] ++ [1%nat]) set_world w' ∧
      set_of_failed (A := zero_allocator) set_world w' 0 [0%nat] [(PFixed 0, [49])] 1 PAsn1 [2; 1; 2; 2; 1; 1] [] ∧
      ∀ inner es, close_all [] = Some inner → Forall is_element es → [2; 1; 2; 2; 1; 1] ++ inner = concat es → NeverFails zero_allocator →
        CBS_len ([2; 1; 2; 2; 1; 1] ++ inner) < 2 ^ 59 →
        ¬ room_at (A := zero_allocator) 0 set_world (CBS_len (flat ([(PFixed 0, [49])] ++ [(PAsn1, [2; 1; 2; 2; 1; 1] ++ inner)])))
  | UB => False
  end.
Proof.
  exact (CBB_flush_asn1_set_of_sorts (A := zero_allocator) set_world 0 [0%nat] [(PFixed 0, [49])] 1 PAsn1 [2; 1; 2; 2; 1; 1] [] []
    set_rep eq_refl).
Defined.
