(* ===== verification/DerDocument.v ===== *)
(** A client of the two libraries: trees of DER values, written with CBB and
    read back with CBS. *)
From S2P Require Import Prelude Radix Mem Cbs Cbb CbbSpec CbbFlush CbbOps CbbAsn1 CbbTheorems.

Inductive der_value :=
  | Primitive (tag : Z) (contents : list Z)
  | Constructed (tag : Z) (items : list der_value).

Lemma der_value_nested_ind (P : der_value → Prop) :
  (∀ tag contents, P (Primitive tag contents)) →
  (∀ tag items, Forall P items → P (Constructed tag items)) → ∀ d, P d.
Proof.
  intros HP HC. fix IH 1. intros [tag contents|tag items]; [apply HP|].
  apply HC. induction items; constructor; auto.
Qed.

(** The encoding of a tree; [None] when some contents are too long. *)
Fixpoint encode_der (d : der_value) : option (list Z) :=
  match d with
  | Primitive tag contents => asn1_of tag (Some contents)
  | Constructed tag items =>
      asn1_of tag
        ((fix go ds := match ds with
                       | [] => Some []
                       | d :: ds => x ← encode_der d; y ← go ds; Some (x ++ y)
                       end) items)
  end.
Fixpoint encode_ders (ds : list der_value) : option (list Z) :=
  match ds with
  | [] => Some []
  | d :: ds => x ← encode_der d; y ← encode_ders ds; Some (x ++ y)
  end.

Definition is_constructed (tag : Z) : bool := negb (tag .& CBS_ASN1_CONSTRUCTED =? 0).

(** Tags are valid and say whether the value is constructed. *)
Fixpoint well_formed (d : der_value) : Prop :=
  match d with
  | Primitive tag contents =>
      valid_tag tag ∧ is_constructed tag = false ∧ bytes_ok contents ∧ CBS_len contents < 2 ^ 64
  | Constructed tag items =>
      valid_tag tag ∧ is_constructed tag = true ∧
      (fix go ds := match ds with [] => True | d :: ds => well_formed d ∧ go ds end) items
  end.

Lemma encode_constructed tag items : encode_der (Constructed tag items) = asn1_of tag (encode_ders items).
Proof. cbn [encode_der]. f_equal. Qed.

Lemma well_formed_constructed tag items :
  well_formed (Constructed tag items) ↔ valid_tag tag ∧ is_constructed tag = true ∧ Forall well_formed items.
Proof.
  cbn [well_formed]. do 2 f_equiv. induction items as [|d ds IH]; [by split|].
  rewrite Forall_cons, IH. done.
Qed.

(** Read a sequence of values; the fuel bounds the number of bytes. *)
Fixpoint read_ders (fuel : nat) (cbs : CBS) : option (list der_value) :=
  if CBS_len cbs =? 0 then Some []
  else
    match fuel with
    | O => None
    | S fuel =>
        match CBS_get_any_asn1 cbs with
        | (Some (contents, tag), rest) =>
            d ← (if is_constructed tag then Constructed tag <$> read_ders fuel contents
                 else Some (Primitive tag contents));
            ds ← read_ders fuel rest;
            Some (d :: ds)
        | (None, _) => None
        end
    end.

Section write.
Context {A : Allocator}.

(** Write a tree through the API of cbb.c. *)
Fixpoint write_der (cbb : loc) (d : der_value) : B unit :=
  match d with
  | Primitive tag contents =>
      with_local (λ child, on_error
        (_ ← CBB_add_asn1 cbb child tag; _ ← CBB_add_bytes child contents; CBB_flush cbb) (cbb_on_error cbb))
  | Constructed tag items =>
      with_local (λ child, on_error
        (_ ← CBB_add_asn1 cbb child tag;
         _ ← (fix go ds := match ds with
                           | [] => mret ()
                           | d :: ds => _ ← write_der child d; go ds
                           end) items;
         CBB_flush cbb) (cbb_on_error cbb))
  end.

Lemma tip_None {T S} X (m : B T) (f : T → B S) l : tip_appends X m l None → tip_appends X (m ≫= f) l None.
Proof.
  intros H w root L1 F1 k c Hrep HL HX. specialize (H w root L1 F1 k c Hrep HL HX).
  apply wp_bind. eapply wp_mono; [exact H| |done]. by intros a w' (F & [=] & _).
Qed.

Lemma tip_bind {T S} X (m1 : B T) (m2 : B S) l ox1 ox2 :
  tip_appends X m1 l ox1 → tip_appends X m2 l ox2 →
  tip_appends X (_ ← m1; m2) l (x ← ox1; y ← ox2; Some (x ++ y)).
Proof. destruct ox1 as [x|]; [intros; by apply tip_seq|]. intros. by apply tip_None. Qed.

Lemma appends_write_der d : well_formed d → ∀ l, appends [] (write_der l d) l (encode_der d).
Proof.
  induction d as [tag contents|tag items IH] using der_value_nested_ind; intros Hwf l.
  - destruct Hwf as ([Ht _] & _ & Hb & Hlen). cbn [write_der encode_der].
    apply appends_asn1_on_error; [done|]. intros child. by apply tip_of_appends, appends_add_bytes.
  - apply well_formed_constructed in Hwf as ([Ht _] & _ & Hwf). rewrite encode_constructed. cbn [write_der].
    apply appends_asn1_on_error; [done|]. intros child.
    induction items as [|d ds IHds]; [apply tip_ret|].
    apply Forall_cons in IH as [IHd IH], Hwf as [Hd Hwf]. cbn [encode_ders].
    apply tip_bind; [by apply tip_of_appends, IHd|by apply IHds].
Qed.
End write.

(** ** Reading *)
Lemma asn1_of_Some tag ox x :
  asn1_of tag ox = Some x → ∃ c, ox = Some c ∧ CBS_len c <= 0xfffffffe ∧ x = der_element tag c.
Proof.
  unfold asn1_of. destruct ox as [c|]; [|done]. cbn. destruct (Z.leb_spec (CBS_len c) 0xfffffffe); [|done].
  intros [= <-]. by exists c.
Qed.

Lemma get_any_asn1_der tag c rest :
  valid_tag tag → CBS_len c < 2 ^ 32 → CBS_get_any_asn1 (der_element tag c ++ rest) = (Some (c, tag), rest).
Proof.
  intros. unfold CBS_get_any_asn1. erewrite M_bind_Some by (by apply get_element_der).
  cbn [el_tag el_header_len el_out]. by rewrite CBS_skip_header.
Qed.

Definition reads (d : der_value) : Prop :=
  ∀ x rest fuel, well_formed d → encode_der d = Some x → (length x ≤ fuel)%nat →
    read_ders (S fuel) (x ++ rest) = (ds ← read_ders fuel rest; Some (d :: ds)) ∧ (2 ≤ length x)%nat.

Lemma read_ders_nil fuel : read_ders fuel [] = Some [].
Proof. by destruct fuel. Qed.

Lemma reads_list ds x fuel :
  Forall reads ds → Forall well_formed ds → encode_ders ds = Some x → (length x ≤ fuel)%nat →
  read_ders (S fuel) x = Some ds.
Proof.
  revert x fuel. induction ds as [|d ds IH]; intros x fuel Hr Hwf; [by intros [= <-]|].
  apply Forall_cons in Hr as [Hd Hr], Hwf as [Hwd Hwf]. cbn [encode_ders].
  destruct (encode_der d) as [x1|] eqn:E1; [|done]. destruct (encode_ders ds) as [x2|] eqn:E2; [|done].
  cbn [mbind option_bind]. intros [= <-]. rewrite length_app. intros Hf.
  destruct (Hd x1 x2 fuel Hwd E1) as [-> ?]; [lia|]. destruct fuel as [|fuel]; [lia|].
  rewrite (IH x2 fuel) by (done || lia). done.
Qed.

Lemma read_element tag c rest d fuel :
  valid_tag tag → CBS_len c < 2 ^ 32 → (if is_constructed tag then Constructed tag <$> read_ders fuel c
    else Some (Primitive tag c)) = Some d →
  read_ders (S fuel) (der_element tag c ++ rest) = (ds ← read_ders fuel rest; Some (d :: ds)) ∧
  CBS_len c + 2 <= CBS_len (der_element tag c).
Proof.
  intros Ht Hc Hd. pose proof (CBS_len_nonneg c). pose proof (CBS_len_nonneg rest).
  assert (Hlen : CBS_len c + 2 <= CBS_len (der_element tag c)).
  { unfold der_element. rewrite CBS_len_app. pose proof (der_header_length tag (CBS_len c) Ht ltac:(lia)). lia. }
  split; [|done]. cbn [read_ders].
  destruct (Z.eqb_spec (CBS_len (der_element tag c ++ rest)) 0) as [E|_]; [rewrite CBS_len_app in E; lia|].
  by rewrite get_any_asn1_der, Hd.
Qed.

Lemma reads_all d : reads d.
Proof.
  induction d as [tag c|tag items IH] using der_value_nested_ind; intros x rest fuel Hwf Hx Hf.
  - destruct Hwf as (Ht & Hcon & _). cbn [encode_der] in Hx. apply asn1_of_Some in Hx as (c' & [= <-] & Hlen & ->).
    destruct (read_element tag c rest (Primitive tag c) fuel) as [-> ?]; [done|lia|by rewrite Hcon|].
    split; [done|]. pose proof (CBS_len_nonneg c). unfold CBS_len in *. lia.
  - apply well_formed_constructed in Hwf as (Ht & Hcon & Hwf). rewrite encode_constructed in Hx.
    apply asn1_of_Some in Hx as (c & Hc & Hlen & ->).
    assert (Hlc : CBS_len c + 2 <= CBS_len (der_element tag c)).
    { unfold der_element. rewrite CBS_len_app. pose proof (CBS_len_nonneg c).
      pose proof (der_header_length tag (CBS_len c) Ht ltac:(lia)). lia. }
    pose proof (CBS_len_nonneg c). unfold CBS_len in Hlc, H. destruct fuel as [|fuel]; [lia|].
    destruct (read_element tag c rest (Constructed tag items) (S fuel)) as [-> ?]; [done|lia| |split; [done|lia]].
    rewrite Hcon, (reads_list items c fuel) by (done || lia). done.
Qed.

Section document.
Context {A : Allocator} {Hnf : NeverFails A}.

Lemma write_document w root n d x :
  0 <= n < 2 ^ 64 - 8 → well_formed d → encode_der d = Some x → CBS_len x <= 2 ^ 62 →
  ∃ w', (_ ← CBB_init root n; _ ← write_der root d; CBB_finish root) w = Ok x w'.
Proof.
  intros Hn Hwf Hx Hlen.
  assert (H : wp (_ ← CBB_init root n; _ ← write_der root d; CBB_finish root) w (λ out _, out = x) (λ _, False)).
  { apply wp_bind. eapply wp_mono; [apply wp_init; lia| |].
    2: { intros w2 [E _]. destruct (OPENSSL_malloc_succeeds (clock w) n Hn). congruence. }
    intros _ w1 [Hrep Hroom]. specialize (Hroom Hnf). apply wp_bind.
    eapply wp_mono; [apply (appends_write_der d Hwf root w1 root [] [] (PFixed 0) [] [] [] Hrep eq_refl); set_solver| |];
      rewrite Hx; cbn -[flat].
    - intros _ w2 (F & HF & Hrep2 & _ & Hroom2). injection HF as <-.
      eapply wp_mono; [apply (wp_finish w2 root x [] [] Hrep2)| |].
      + intros out _ (inner & [= <-] & ->). apply app_nil_r.
      + intros w3 [[_ Hno] _]. eapply Hno; [done|]. rewrite app_nil_r. by apply Hroom2, Hroom.
    - intros w2 (_ & _ & _ & Hno). eapply Hno; [done|]. apply Hroom. cbn. by rewrite app_nil_r. }
  unfold wp in H. revert H. destruct ((_ ← CBB_init root n; _ ← write_der root d; CBB_finish root) w) as [out w'| |]; [|done..].
  intros <-. by exists w'.
Qed.

(** C5: a tree of DER values written through CBB and finished is its DER
    encoding, whatever the initial capacity and whatever the buffer's
    reallocations, and reading it back with CBS gives the tree. *)
Theorem der_document_roundtrip (w : world) (root : loc) (n : Z) (d : der_value) (x : list Z)
    (Hn : 0 <= n < 2 ^ 64 - 8) (Hwf : well_formed d) (Hx : encode_der d = Some x) (Hlen : CBS_len x <= 2 ^ 62) :
  (∃ w', (_ ← CBB_init root n; _ ← write_der root d; CBB_finish root) w = Ok x w') ∧
  read_ders (S (length x)) x = Some [d].
Proof.
  split; [by eapply write_document|].
  destruct (reads_all d x [] (length x) Hwf Hx (Nat.le_refl _)) as [H _].
  by rewrite app_nil_r, read_ders_nil in H.
Qed.
End document.

(** SEQUENCE { OCTET STRING 01 02, SEQUENCE {}, \[1000\] 07 } from an empty buffer. *)
Definition example_document : der_value :=
  Constructed 0x20000010
    [Primitive CBS_ASN1_OCTETSTRING [1; 2]; Constructed 0x20000010 []; Primitive 0x800003e8 [7]].

Lemma der_document_roundtrip_witness :
  let x := [48; 11; 4; 2; 1; 2; 48; 0; 159; 135; 104; 1; 7] in
  (∃ w', (_ ← CBB_init (A := zero_allocator) 0%nat 0; _ ← write_der (A := zero_allocator) 0%nat example_document;
          CBB_finish (A := zero_allocator) 0%nat) (mkWorld ∅ ∅ 0) = Ok x w') ∧
  read_ders (S (length x)) x = Some [example_document].
Proof.
  apply (der_document_roundtrip (A := zero_allocator) (mkWorld ∅ ∅ 0) 0 0 example_document);
    [lia|repeat split; vm_compute; congruence || (repeat constructor; congruence)|by vm_compute|by vm_compute].
Defined.
