(* ===== verification/Ber.v ===== *)
(** BER: the lenient element reader of cbs.c, and its clients in
    [crypto/bytestring/ber.c], which turn BER into DER. *)
From S2P Require Import Prelude Radix Mem Cbs Cbb CbbSpec CbbFlush CbbOps CbbAsn1 CbbPartial CbbTheorems DerDocument.

(** ** ber.c *)

Definition kMaxDepth : Z := 128.

Definition is_string_type (tag : Z) : bool :=
  let t := tag .& NOT_CONSTRUCTED in
  (t =? CBS_ASN1_OCTETSTRING) || (t =? CBS_ASN1_UTF8STRING) || (t =? CBS_ASN1_NUMERICSTRING) ||
  (t =? CBS_ASN1_PRINTABLESTRING) || (t =? CBS_ASN1_T61STRING) || (t =? CBS_ASN1_VIDEOTEXSTRING) ||
  (t =? CBS_ASN1_IA5STRING) || (t =? CBS_ASN1_GRAPHICSTRING) || (t =? CBS_ASN1_VISIBLESTRING) ||
  (t =? CBS_ASN1_GENERALSTRING) || (t =? CBS_ASN1_UNIVERSALSTRING) || (t =? CBS_ASN1_BMPSTRING).

(** [while (CBS_len(&in) > 0)] of [cbs_find_ber]: an element has a byte or
    more.  [rec] is the recursive call; [None] is [return 0]. *)
Fixpoint find_ber_loop (rec : CBS → option bool) (n : nat) (inp : CBS) : option bool :=
  if CBS_len inp >? 0 then
    match n with
    | O => None
    | S n =>
        match CBS_get_any_ber_asn1_element inp with
        | (None, _) => None
        | (Some e, inp) =>
            if el_ber_found e then Some true
            else if is_constructed (el_tag e) then
              if is_string_type (el_tag e) then Some true
              else
                match CBS_skip (el_header_len e) (el_out e) with
                | (None, _) => None
                | (Some _, contents) =>
                    match rec contents with
                    | None => None
                    | Some true => Some true
                    | Some false => find_ber_loop rec n inp
                    end
                end
            else find_ber_loop rec n inp
        end
    end
  else Some false.

(** The recursion stops at [kMaxDepth]: [kMaxDepth + 1 - depth] levels are
    enough fuel. *)
Fixpoint cbs_find_ber (fuel : nat) (orig_in : CBS) (depth : Z) : option bool :=
  if depth >? kMaxDepth then None
  else
    match fuel with
    | O => None
    | S fuel => find_ber_loop (λ contents, cbs_find_ber fuel contents (depth + 1)) (length orig_in) orig_in
    end.
Definition max_levels : nat := S (Z.to_nat kMaxDepth).

Definition cbs_get_eoc : M CBS unit := λ cbs,
  if (CBS_len cbs >=? 2) && (byte_at (CBS_data cbs) 0 =? 0) && (byte_at (CBS_data cbs) 1 =? 0) then CBS_skip 2 cbs
  else (None, cbs).

Section ber.
Context {A : Allocator}.

(** The recursive call of [cbs_convert_ber]: [in], [out], [string_tag] and
    [looking_for_eoc]; it yields [*in] after the call. *)
Abbreviation conversion := (CBS → loc → Z → bool → B CBS).

(** What follows the choice of [out_contents] in an iteration. *)
Definition convert_contents (rec : conversion) (e : asn1_element) (inp : CBS) (out out_contents : loc) (child_string_tag : Z) : B CBS :=
  if el_indefinite e then
    inp ← rec inp out_contents child_string_tag true;
    _ ← CBB_flush out;
    mret inp
  else
    '(_, contents) ← with_cbs (CBS_skip (el_header_len e)) (el_out e);
    _ ← (if is_constructed (el_tag e) then
           _ ← rec contents out_contents child_string_tag false; mret ()
         else CBB_add_bytes out_contents (CBS_data contents));
    _ ← CBB_flush out;
    mret inp.

(** An iteration, after the element has been read. *)
Definition convert_element (rec : conversion) (e : asn1_element) (inp : CBS) (out : loc) (string_tag : Z) : B CBS :=
  let tag := el_tag e in
  if negb (string_tag =? 0) then
    _ ← B_require (tag .& NOT_CONSTRUCTED =? string_tag);
    convert_contents rec e inp out out string_tag
  else
    let '(out_tag, child_string_tag) :=
      if is_constructed tag && is_string_type tag then (tag .& NOT_CONSTRUCTED, tag .& NOT_CONSTRUCTED)
      else (tag, string_tag) in
    with_local (λ out_contents_storage,
      _ ← CBB_add_asn1 out out_contents_storage out_tag;
      convert_contents rec e inp out out_contents_storage child_string_tag).

Fixpoint convert_loop (rec : conversion) (n : nat) (inp : CBS) (out : loc) (string_tag : Z) (looking_for_eoc : bool) : B CBS :=
  if CBS_len inp >? 0 then
    match n with
    | O => undefined
    | S n =>
        match (if looking_for_eoc then cbs_get_eoc inp else (None, inp)) with
        | (Some _, inp) => mret inp
        | (None, _) =>
            '(e, inp) ← with_cbs CBS_get_any_ber_asn1_element inp;
            inp ← convert_element rec e inp out string_tag;
            convert_loop rec n inp out string_tag looking_for_eoc
        end
    end
  else if looking_for_eoc then return0 else mret inp.

Fixpoint cbs_convert_ber (fuel : nat) (inp : CBS) (out : loc) (string_tag : Z) (looking_for_eoc : bool) (depth : Z) : B CBS :=
  if depth >? kMaxDepth then return0
  else
    match fuel with
    | O => undefined
    | S fuel =>
        convert_loop (λ inp out string_tag eoc, cbs_convert_ber fuel inp out string_tag eoc (depth + 1))
          (length inp) inp out string_tag looking_for_eoc
    end.

(** Yields [*out], [*out_storage] and [*in]. *)
Definition CBS_asn1_ber_to_der (inp : CBS) : B (CBS * option (list Z) * CBS) :=
  match cbs_find_ber max_levels inp 0 with
  | None => return0
  | Some false =>
      '(e, inp) ← with_cbs CBS_get_any_asn1_element inp;
      mret (el_out e, None, inp)
  | Some true =>
      with_local (λ cbb, on_error
        (_ ← CBB_init cbb (CBS_len inp);
         inp ← cbs_convert_ber max_levels inp cbb 0 false 0;
         out_storage ← CBB_finish cbb;
         mret (out_storage, Some out_storage, inp))
        (CBB_cleanup cbb))
  end.

(** [while (CBS_len(&child) > 0)] *)
Fixpoint implicit_string_loop (n : nat) (child : CBS) (result : loc) (inner_tag : Z) : B unit :=
  if CBS_len child >? 0 then
    match n with
    | O => undefined
    | S n =>
        '(chunk, child) ← with_cbs (CBS_get_asn1 inner_tag) child;
        _ ← CBB_add_bytes result (CBS_data chunk);
        implicit_string_loop n child result inner_tag
    end
  else mret ().

Definition CBS_get_asn1_implicit_string (inp : CBS) (outer_tag inner_tag : Z) : B (CBS * option (list Z) * CBS) :=
  if CBS_peek_asn1_tag inp outer_tag then
    '(out, inp) ← with_cbs (CBS_get_asn1 outer_tag) inp;
    mret (out, None, inp)
  else
    with_local (λ result, on_error
      (_ ← CBB_init result (CBS_len inp);
       '(child, inp) ← with_cbs (CBS_get_asn1 (outer_tag .| CBS_ASN1_CONSTRUCTED)) inp;
       _ ← implicit_string_loop (length child) child result inner_tag;
       data ← CBB_finish result;
       mret (data, Some data, inp))
      (CBB_cleanup result)).
End ber.

(** SEQUENCE { [OCTET STRING] in two pieces }, indefinite lengths. *)
Lemma ber_example :
  match CBS_asn1_ber_to_der (A := zero_allocator)
    [0x30; 0x80; 0x24; 0x80; 4; 1; 7; 4; 0x81; 1; 8; 0; 0; 0; 0] (mkWorld ∅ ∅ 0) with
  | Ok (out, _, inp) _ => out = [0x30; 4; 4; 2; 7; 8] ∧ inp = []
  | _ => False
  end.
Proof. by vm_compute. Qed.

(** Only the first of these two elements needs converting; both are consumed. *)
Lemma ber_to_der_two_elements :
  match CBS_asn1_ber_to_der (A := zero_allocator) [0x24; 0x80; 4; 1; 7; 0; 0; 2; 1; 5] (mkWorld ∅ ∅ 0) with
  | Ok (out, _, inp) _ => out = [4; 1; 7; 2; 1; 5] ∧ inp = []
  | _ => False
  end.
Proof. by vm_compute. Qed.

(** ** BER headers *)

(** The length octets of a definite length, in any of the forms that the code
    reads: up to four octets, not necessarily the fewest. *)
Inductive ber_length : list Z → Z → Prop :=
  | ber_short n : 0 <= n < 128 → ber_length [n] n
  | ber_long l : (1 ≤ length l ≤ 4)%nat → bytes_ok l → ber_length (128 + CBS_len l :: l) (be_val l).

Lemma ber_length_range lb n : ber_length lb n → 0 <= n < 2 ^ 32 ∧ (1 ≤ length lb ≤ 5)%nat ∧ bytes_ok lb.
Proof.
  intros [m Hm|l Hl Hb]; [split_and!; [lia|lia|cbn; lia..|]; by apply Forall_cons; split; [lia|]|].
  pose proof (val_be_range 256 ltac:(lia) l Hb). assert (256 ^ Z.of_nat (length l) <= 256 ^ 4) by (apply Z.pow_le_mono_r; lia).
  split_and!; [lia|lia|cbn; lia..|]. apply Forall_cons. split; [unfold CBS_len; lia|done].
Qed.

(** DER allows one of them. *)
Lemma der_ber_length n : 0 <= n < 2 ^ 32 → ber_length (der_len_bytes n) n.
Proof.
  intros Hn. unfold der_len_bytes. destruct (Z.ltb_spec n 128); [apply ber_short; lia|].
  destruct (der_len_digits n ltac:(lia)) as (Hk & Hb & Hv).
  replace (128 + Z.of_nat (ndigits 256 8 n)) with (128 + CBS_len (be_bytes (ndigits 256 8 n) n))
    by (unfold CBS_len; by rewrite length_digits_be).
  pose proof (ber_long (be_bytes (ndigits 256 8 n) n)) as H'. rewrite Hv in H'.
  apply H'; [rewrite length_digits_be; lia|apply (digits_be_ok 256); lia].
Qed.

(** The test of the code for the fewest octets. *)
Lemma ber_long_minimal l : (1 ≤ length l ≤ 4)%nat → bytes_ok l →
  bool_decide (128 + CBS_len l :: l ≠ der_len_bytes (be_val l)) =
  (be_val l <? 128) || (be_val l ≫ ((CBS_len l - 1) * 8) =? 0).
Proof.
  intros Hl Hb. pose proof (val_be_range 256 ltac:(lia) l Hb) as Hr.
  rewrite be_val_shift_zero by (done || by destruct l; [cbn in Hl; lia|]). unfold der_len_bytes.
  assert (256 ^ Z.of_nat (length l) <= 256 ^ 4) by (apply Z.pow_le_mono_r; lia).
  destruct (Z.ltb_spec (be_val l) 128).
  - apply bool_decide_eq_true. intros E%(f_equal length). destruct l; [cbn in Hl; lia|done].
  - cbn [orb]. destruct (Z.ltb_spec (be_val l) (256 ^ (CBS_len l - 1))) as [Hlt|Hge].
    + apply bool_decide_eq_true. intros E%(f_equal length). cbn [length] in E. rewrite length_digits_be in E.
      destruct (ndigits_bound 256 ltac:(lia) 8 (be_val l) ltac:(lia)) as [Hk _].
      apply Nat.succ_inj in E. unfold CBS_len in Hlt. rewrite E in Hlt. lia.
    + apply bool_decide_eq_false. intros Hne. apply Hne.
      assert (ndigits 256 8 (be_val l) = length l) as ->.
      { apply ndigits_unique; unfold CBS_len in *; lia. }
      by rewrite digits_val_be by (lia || done).
Qed.

Definition ber_header (tag : Z) (lb : list Z) : list Z := asn1_tag_bytes tag ++ lb.

Lemma ber_header_length tag lb n : valid_tag tag → ber_length lb n → 2 <= CBS_len (ber_header tag lb) <= 16.
Proof.
  intros [Ht _] Hl. unfold ber_header. rewrite CBS_len_app. unfold CBS_len.
  pose proof (asn1_tag_bytes_length tag Ht). pose proof (ber_length_range lb n Hl). lia.
Qed.

Lemma asn1_header_ber tag lb n rest : valid_tag tag → ber_length lb n →
  asn1_header (CBS_len (ber_header tag lb ++ rest)) true (ber_header tag lb ++ rest) =
    (Some (tag, CBS_len (ber_header tag lb), CBS_len (ber_header tag lb) + n, bool_decide (lb ≠ der_len_bytes n), false), rest).
Proof.
  intros Ht Hl. pose proof (ber_header_length tag lb n Ht Hl) as Hhl. pose proof (asn1_tag_bytes_length tag (proj1 Ht)).
  destruct (ber_length_range lb n Hl) as (Hn & _). unfold asn1_header, ber_header in *. rewrite <- !app_assoc.
  erewrite M_bind_Some by (by apply parse_asn1_tag_bytes). rewrite !CBS_len_app in *.
  destruct Hl as [m Hm|l Hl Hb]; cbn [app]; (erewrite M_bind_Some by apply CBS_get_u8_cons); unfold get_state; run_step.
  - destruct (length_octet m) as [-> _]; [lia|]. destruct (Z.ltb_spec m 128); [|lia].
    unfold der_len_bytes. destruct (Z.ltb_spec m 128); [|lia]. rewrite bool_decide_eq_false_2 by tauto.
    replace (CBS_len [m]) with 1 by done. unfold CBS_len in *. rewrite wrap_small by (cbn [length]; lia). cbn [length]. out_eq.
  - destruct (length_octet (128 + CBS_len l)) as [-> E2]; [unfold CBS_len; lia|]. rewrite E2 by (unfold CBS_len; lia).
    destruct (Z.ltb_spec (128 + CBS_len l) 128); [unfold CBS_len in *; lia|].
    replace (128 + CBS_len l - 128) with (CBS_len l) by lia.
    destruct (Z.eqb_spec (CBS_len l) 0); [unfold CBS_len in *; lia|]. rewrite andb_false_r.
    destruct (Z.gtb_spec (CBS_len l) 4); [unfold CBS_len in *; lia|]. cbn [orb negb].
    pose proof (cbs_get_u_app l rest Hb ltac:(lia)) as E. rewrite E. rewrite !orb_true_r.
    rewrite ber_long_minimal by done. unfold CBS_len in *. rewrite !length_cons, !length_app in *.
    replace (Z.of_nat (length (asn1_tag_bytes tag)) + (Z.of_nat (S (length l)) + Z.of_nat (length rest)) - Z.of_nat (length l + length rest))
      with (Z.of_nat (length (asn1_tag_bytes tag)) + 1) by lia.
    rewrite (wrap_small 64 (be_val l + (Z.of_nat (length (asn1_tag_bytes tag)) + 1))) by lia. rewrite !wrap_small by lia.
    destruct (Z.ltb_spec (be_val l + (Z.of_nat (length (asn1_tag_bytes tag)) + 1) + Z.of_nat (length l)) (be_val l)); [lia|].
    cbn [negb]. out_eq.
Qed.

(** The indefinite form. *)
Lemma asn1_header_indefinite tag rest : valid_tag tag → is_constructed tag = true →
  asn1_header (CBS_len (ber_header tag [0x80] ++ rest)) true (ber_header tag [0x80] ++ rest) =
    (Some (tag, CBS_len (ber_header tag [0x80]), CBS_len (ber_header tag [0x80]), true, true), rest).
Proof.
  intros Ht Hc. unfold is_constructed in Hc. unfold asn1_header, ber_header in *. rewrite <- !app_assoc.
  erewrite M_bind_Some by (by apply parse_asn1_tag_bytes). rewrite !CBS_len_app. cbn [app].
  erewrite M_bind_Some by apply CBS_get_u8_cons. unfold get_state. run_step. change (0x80 .& 0x80 =? 0) with false.
  change (0x80 .& 0x7f =? 0) with true. rewrite Hc. cbn [andb]. unfold CBS_len. cbn [length]. out_eq.
Qed.

(** Nothing else is read. *)
Lemma asn1_header_ber_inv cbs out rest : bytes_ok cbs → asn1_header (CBS_len cbs) true cbs = (Some out, rest) →
  ∃ tag, valid_tag tag ∧
    ((∃ lb n, ber_length lb n ∧ cbs = ber_header tag lb ++ rest) ∨
     (is_constructed tag = true ∧ cbs = ber_header tag [0x80] ++ rest)).
Proof.
  intros Hb H. unfold asn1_header in H.
  apply M_bind_inv in H as (tag & c1 & Ht & H). apply parse_asn1_tag_canonical in Ht as [Ht ->]; [|done].
  apply Forall_app in Hb as [_ Hb]. exists tag. split; [done|]. unfold ber_header.
  apply M_bind_inv in H as (b & c2 & Hb2 & H). apply CBS_get_u8_inv in Hb2 as ->.
  apply Forall_cons in Hb as [Hbyte Hc]. destruct (length_octet b Hbyte) as [E1 E2].
  apply M_bind_inv in H as (? & ? & [= <- <-] & H). rewrite E1 in H.
  destruct (Z.ltb_spec b 128) as [Hs|Hl].
  - injection H as _ <-. left. exists [b], b. split; [constructor; lia|]. by rewrite <- app_assoc.
  - rewrite E2 in H by done. change (true && negb (tag .& CBS_ASN1_CONSTRUCTED =? 0)) with (is_constructed tag) in H.
    destruct (is_constructed tag && (b - 128 =? 0)) eqn:Ei.
    { apply andb_true_iff in Ei as [Ec E0%Z.eqb_eq]. injection H as _ <-. right. split; [done|].
      rewrite <- app_assoc. cbn [app]. do 2 f_equal. lia. }
    left. apply M_bind_inv in H as (? & ? & Hreq & H). apply require_inv in Hreq as [Hk ->].
    apply negb_true_iff, orb_false_iff in Hk as [Hk0%Z.eqb_neq Hk4]. rewrite Z.gtb_ltb, Z.ltb_ge in Hk4.
    apply M_bind_inv in H as (len64 & c3 & Hlen & H).
    apply cbs_get_u_inv in Hlen as (l & -> & Hl' & Hlb & -> & _); [|done|lia]. run_inv.
    exists (128 + CBS_len l :: l), (be_val l). split; [constructor; [unfold CBS_len in *; lia|done]|].
    rewrite <- app_assoc. cbn [app]. do 2 f_equal; [lia|congruence].
Qed.

(** ** BER elements *)
Lemma get_ber_definite tag lb c rest : valid_tag tag → ber_length lb (CBS_len c) →
  CBS_get_any_ber_asn1_element (ber_header tag lb ++ c ++ rest) =
    (Some (mkElement (ber_header tag lb ++ c) tag (CBS_len (ber_header tag lb)) (bool_decide (lb ≠ der_len_bytes (CBS_len c))) false), rest).
Proof.
  intros Ht Hl. unfold CBS_get_any_ber_asn1_element, cbs_get_any_asn1_element. rewrite (asn1_header_ber tag lb (CBS_len c)) by done.
  cbn [fst]. rewrite app_assoc. erewrite M_bind_Some; [|apply cbs_get_app; by rewrite CBS_len_app]. done.
Qed.

Lemma get_ber_indefinite tag rest : valid_tag tag → is_constructed tag = true →
  CBS_get_any_ber_asn1_element (ber_header tag [0x80] ++ rest) =
    (Some (mkElement (ber_header tag [0x80]) tag (CBS_len (ber_header tag [0x80])) true true), rest).
Proof.
  intros Ht Hc. unfold CBS_get_any_ber_asn1_element, cbs_get_any_asn1_element. rewrite asn1_header_indefinite by done.
  cbn [fst]. by erewrite M_bind_Some by by apply cbs_get_app.
Qed.

Lemma get_ber_inv cbs e rest : bytes_ok cbs → CBS_get_any_ber_asn1_element cbs = (Some e, rest) →
  ∃ tag, valid_tag tag ∧
    ((∃ lb c, ber_length lb (CBS_len c) ∧ cbs = ber_header tag lb ++ c ++ rest ∧
       e = mkElement (ber_header tag lb ++ c) tag (CBS_len (ber_header tag lb)) (bool_decide (lb ≠ der_len_bytes (CBS_len c))) false) ∨
     (is_constructed tag = true ∧ cbs = ber_header tag [0x80] ++ rest ∧
       e = mkElement (ber_header tag [0x80]) tag (CBS_len (ber_header tag [0x80])) true true)).
Proof.
  unfold CBS_get_any_ber_asn1_element, cbs_get_any_asn1_element. intros Hb H.
  destruct (asn1_header _ _ _) as [[out|] c] eqn:Eh; [|done].
  destruct (asn1_header_ber_inv cbs out c Hb Eh) as (tag & Ht & Hcases). exists tag. split; [done|].
  destruct Hcases as [(lb & n & Hl & ->)|[Hc ->]].
  - rewrite (asn1_header_ber tag lb n) in Eh by done. injection Eh as <-. cbn [fst] in H.
    apply M_bind_inv in H as (o & c' & Hg & [= <- <-]). pose proof (ber_header_length tag lb n Ht Hl).
    destruct (ber_length_range lb n Hl) as (Hn & _). apply cbs_get_inv in Hg as [Heq Hlen]; [|lia]. left.
    assert (∃ contents, o = ber_header tag lb ++ contents) as [contents ->].
    { exists (drop (length (ber_header tag lb)) o). rewrite <- (take_drop (length (ber_header tag lb)) o) at 1.
      f_equal. apply (f_equal (take (length (ber_header tag lb)))) in Heq.
      rewrite take_app_length, take_app_le in Heq; [done|]. unfold CBS_len in *. lia. }
    rewrite CBS_len_app in Hlen. assert (CBS_len contents = n) as <- by lia.
    exists lb, contents. split_and!; [done|by rewrite <- app_assoc in Heq|done].
  - right. rewrite asn1_header_indefinite in Eh by done. injection Eh as <-. cbn [fst] in H.
    apply M_bind_inv in H as (o & c' & Hg & [= <- <-]).
    assert (E : (o, c') = (ber_header tag [0x80], c)).
    { unfold CBS_get_bytes in Hg. rewrite cbs_get_app in Hg by done. by injection Hg as <- <-. }
    by injection E as -> ->.
Qed.

Lemma skip_ber_header tag lb c : CBS_skip (CBS_len (ber_header tag lb)) (ber_header tag lb ++ c) = (Some (), c).
Proof. unfold CBS_skip. by erewrite M_bind_Some by by apply cbs_get_app. Qed.

(** The identifier octets never look like an end of contents. *)
Lemma tag_bytes_hd tag : valid_tag tag → ∃ b l, asn1_tag_bytes tag = b :: l ∧ b ≠ 0.
Proof.
  intros [Ht [Hz Hc]]. unfold asn1_tag_bytes. pose proof (Z.div_mod tag (2 ^ 29) ltac:(lia)).
  pose proof (Z.mod_pos_bound tag (2 ^ 29) ltac:(lia)). assert (0 <= tag / 2 ^ 29) by (apply Z.div_pos; lia).
  destruct (Z.ltb_spec (tag mod 2 ^ 29) 31); eexists _, _; (split; [done|]); lia.
Qed.

Lemma no_eoc tag lb rest : valid_tag tag → cbs_get_eoc (ber_header tag lb ++ rest) = (None, ber_header tag lb ++ rest).
Proof.
  intros Ht. destruct (tag_bytes_hd tag Ht) as (b & l & E & Hb). unfold cbs_get_eoc, ber_header, CBS_data, byte_at. rewrite E. change (Z.to_nat 0) with O. cbn [app nth].
  destruct (Z.eqb_spec b 0); [done|]. by rewrite andb_false_r.
Qed.

Lemma eoc_bytes rest : cbs_get_eoc (0 :: 0 :: rest) = (Some (), rest).
Proof.
  unfold cbs_get_eoc, CBS_data. cbn [byte_at nth Z.to_nat Pos.to_nat]. rewrite Z.geb_leb.
  destruct (Z.leb_spec 2 (CBS_len (0 :: 0 :: rest))) as [|Hl]; [|unfold CBS_len in Hl; cbn in Hl; lia].
  change (0 :: 0 :: rest) with ([0; 0] ++ rest). unfold CBS_skip.
  change ((true && (byte_at ([0; 0] ++ rest) 0 =? 0) && (byte_at ([0; 0] ++ rest) 1 =? 0))) with true. cbv iota.
  by erewrite M_bind_Some by by apply cbs_get_app.
Qed.

Lemma get_eoc_inv cbs rest : cbs_get_eoc cbs = (Some (), rest) → cbs = 0 :: 0 :: rest.
Proof.
  unfold cbs_get_eoc, CBS_data, byte_at. destruct cbs as [|a [|b cbs]]; [done..|].
  destruct (_ && _ && _) eqn:E; [|done]. apply andb_true_iff in E as [[_ Ea%Z.eqb_eq]%andb_true_iff Eb%Z.eqb_eq].
  change (a = 0) in Ea. change (b = 0) in Eb. subst. change (0 :: 0 :: cbs) with ([0; 0] ++ cbs). unfold CBS_skip.
  erewrite M_bind_Some by by apply cbs_get_app. by intros [= <-].
Qed.

(** ** What BER means *)

(** [ber n cbs vs]: the bytes are BER encodings of the values [vs], with any
    length forms, nested at most [n] deep. *)
Inductive ber : nat → CBS → list der_value → Prop :=
  | ber_nil n : ber n [] []
  | ber_primitive n tag lb c rest vs :
      valid_tag tag → is_constructed tag = false → ber_length lb (CBS_len c) → ber n rest vs →
      ber n (ber_header tag lb ++ c ++ rest) (Primitive tag c :: vs)
  | ber_definite n tag lb c us rest vs :
      valid_tag tag → is_constructed tag = true → ber_length lb (CBS_len c) → ber n c us → ber (S n) rest vs →
      ber (S n) (ber_header tag lb ++ c ++ rest) (Constructed tag us :: vs)
  | ber_indefinite n tag c us rest vs :
      valid_tag tag → is_constructed tag = true → ber n c us → ber (S n) rest vs →
      ber (S n) (ber_header tag [0x80] ++ c ++ [0; 0] ++ rest) (Constructed tag us :: vs).

(** The pieces of a constructed string whose primitive tag is [st]. *)
Fixpoint flatten (st : Z) (v : der_value) : option (list Z) :=
  match v with
  | Primitive tag c => if tag .& NOT_CONSTRUCTED =? st then Some c else None
  | Constructed tag us =>
      if tag .& NOT_CONSTRUCTED =? st then
        (fix go us := match us with [] => Some [] | u :: us => x ← flatten st u; y ← go us; Some (x ++ y) end) us
      else None
  end.
Definition flatten_all (st : Z) : list der_value → option (list Z) :=
  fix go us := match us with [] => Some [] | u :: us => x ← flatten st u; y ← go us; Some (x ++ y) end.

(** The DER encoding of a value: definite lengths of the fewest octets, and
    constructed strings in one piece. *)
Fixpoint der_of (v : der_value) : option (list Z) :=
  match v with
  | Primitive tag c => asn1_of tag (Some c)
  | Constructed tag us =>
      if is_string_type tag then asn1_of (tag .& NOT_CONSTRUCTED) (flatten_all (tag .& NOT_CONSTRUCTED) us)
      else asn1_of tag ((fix go us := match us with [] => Some [] | u :: us => x ← der_of u; y ← go us; Some (x ++ y) end) us)
  end.
Definition der_of_all : list der_value → option (list Z) :=
  fix go us := match us with [] => Some [] | u :: us => x ← der_of u; y ← go us; Some (x ++ y) end.

(** By the [string_tag] of the code: 0 outside of a constructed string. *)
Definition conv (st : Z) (v : der_value) : option (list Z) := if negb (st =? 0) then flatten st v else der_of v.
Fixpoint conv_all (st : Z) (vs : list der_value) : option (list Z) :=
  match vs with [] => Some [] | v :: vs => x ← conv st v; y ← conv_all st vs; Some (x ++ y) end.

Lemma conv_all_flatten st vs : negb (st =? 0) = true → conv_all st vs = flatten_all st vs.
Proof. intros H. induction vs as [|v vs IH]; [done|]. cbn [conv_all flatten_all]. unfold conv. by rewrite H, <- IH. Qed.
Lemma conv_all_der vs : conv_all 0 vs = der_of_all vs.
Proof. induction vs as [|v vs IH]; [done|]. cbn [conv_all der_of_all]. by rewrite <- IH. Qed.

(** ** The conversion as a function *)
Abbreviation pure_conversion := (CBS → Z → bool → option (list Z * CBS)).

Definition p_contents (rec : pure_conversion) (e : asn1_element) (inp : CBS) (cst : Z) : option (list Z * CBS) :=
  if el_indefinite e then rec inp cst true
  else
    match CBS_skip (el_header_len e) (el_out e) with
    | (Some _, contents) =>
        if is_constructed (el_tag e) then '(x, _) ← rec contents cst false; Some (x, inp) else Some (contents, inp)
    | (None, _) => None
    end.

Definition p_element (rec : pure_conversion) (e : asn1_element) (inp : CBS) (st : Z) : option (list Z * CBS) :=
  let tag := el_tag e in
  if negb (st =? 0) then
    if tag .& NOT_CONSTRUCTED =? st then p_contents rec e inp st else None
  else
    let '(out_tag, cst) :=
      if is_constructed tag && is_string_type tag then (tag .& NOT_CONSTRUCTED, tag .& NOT_CONSTRUCTED) else (tag, st) in
    '(x, inp) ← p_contents rec e inp cst; y ← asn1_of out_tag (Some x); Some (y, inp).

Fixpoint p_loop (rec : pure_conversion) (n : nat) (inp : CBS) (st : Z) (eoc : bool) : option (list Z * CBS) :=
  if CBS_len inp >? 0 then
    match n with
    | O => None
    | S n =>
        match (if eoc then cbs_get_eoc inp else (None, inp)) with
        | (Some _, inp) => Some ([], inp)
        | (None, _) =>
            match CBS_get_any_ber_asn1_element inp with
            | (Some e, inp) => '(x, inp) ← p_element rec e inp st; '(y, inp) ← p_loop rec n inp st eoc; Some (x ++ y, inp)
            | _ => None
            end
        end
    end
  else if eoc then None else Some ([], inp).

Fixpoint p_convert (fuel : nat) (inp : CBS) (st : Z) (eoc : bool) : option (list Z * CBS) :=
  match fuel with
  | O => None
  | S fuel => p_loop (p_convert fuel) (length inp) inp st eoc
  end.

(** What [rec] does on the contents of a level. *)
Definition eoc_octets (eoc : bool) : list Z := if eoc then [0; 0] else [].
Definition sound (n : nat) (rec : pure_conversion) : Prop :=
  ∀ inp st eoc x rest, bytes_ok inp → rec inp st eoc = Some (x, rest) →
    ∃ body vs, inp = body ++ eoc_octets eoc ++ rest ∧ (eoc = false → rest = []) ∧ ber n body vs ∧ conv_all st vs = Some x.
Definition complete (n : nat) (rec : pure_conversion) : Prop :=
  ∀ body vs st eoc x rest, ber n body vs → conv_all st vs = Some x → (eoc = false → rest = []) →
    rec (body ++ eoc_octets eoc ++ rest) st eoc = Some (x, rest).

(** The tag of the pieces below an element, and what becomes of its contents. *)
Definition child_tag (st tag : Z) : Z :=
  if negb (st =? 0) then st else if is_constructed tag && is_string_type tag then tag .& NOT_CONSTRUCTED else st.
Definition finish (st tag : Z) (ox : option (list Z)) : option (list Z) :=
  if negb (st =? 0) then if tag .& NOT_CONSTRUCTED =? st then ox else None
  else asn1_of (if is_constructed tag && is_string_type tag then tag .& NOT_CONSTRUCTED else tag) ox.

Lemma p_element_finish rec e inp st :
  p_element rec e inp st =
    ('(x, i) ← p_contents rec e inp (child_tag st (el_tag e)); y ← finish st (el_tag e) (Some x); Some (y, i)).
Proof.
  unfold p_element, finish, child_tag. destruct (negb (st =? 0)).
  - destruct (_ =? st); destruct (p_contents _ _ _ _) as [[x i]|]; done.
  - by destruct (is_constructed _ && is_string_type _).
Qed.

Lemma string_tag_nonzero tag : is_string_type tag = true → negb (tag .& NOT_CONSTRUCTED =? 0) = true.
Proof. unfold is_string_type. destruct (Z.eqb_spec (tag .& NOT_CONSTRUCTED) 0) as [->|]; [by vm_compute|done]. Qed.

Lemma conv_constructed st tag us : is_constructed tag = true →
  conv st (Constructed tag us) = (x ← conv_all (child_tag st tag) us; finish st tag (Some x)).
Proof.
  intros Hc. unfold conv, finish, child_tag. destruct (negb (st =? 0)) eqn:Hst.
  - rewrite conv_all_flatten by done. cbn [flatten]. fold (flatten_all st). destruct (_ =? st); by destruct (flatten_all st us).
  - rewrite Hc. cbn [andb der_of]. fold der_of_all. destruct (is_string_type tag) eqn:Es.
    + rewrite conv_all_flatten by by apply string_tag_nonzero. by destruct (flatten_all _ us).
    + apply negb_false_iff, Z.eqb_eq in Hst as ->. rewrite conv_all_der. by destruct (der_of_all us).
Qed.

Lemma conv_primitive st tag c : is_constructed tag = false → conv st (Primitive tag c) = finish st tag (Some c).
Proof. intros Hc. unfold conv, finish. destruct (negb (st =? 0)); [done|]. by rewrite Hc. Qed.

(** One level of nesting: [rec] handles the level below, if there is one. *)
Definition below (P : nat → pure_conversion → Prop) (n : nat) (rec : pure_conversion) : Prop :=
  match n with O => ∀ inp st eoc, rec inp st eoc = None | S n => P n rec end.

Lemma p_loop_sound n rec m inp st eoc x rest : below sound n rec → bytes_ok inp → p_loop rec m inp st eoc = Some (x, rest) →
  ∃ body vs, inp = body ++ eoc_octets eoc ++ rest ∧ (eoc = false → rest = []) ∧ ber n body vs ∧ conv_all st vs = Some x.
Proof.
  intros Hrec. revert inp x rest. induction m as [|m IH]; intros inp x rest Hb; cbn [p_loop].
  { destruct (CBS_len inp >? 0) eqn:E; [done|]. destruct inp; [|done]. destruct eoc; [done|]. intros [= <- <-].
    exists [], []. split_and!; [done|done|constructor|done]. }
  destruct (CBS_len inp >? 0) eqn:E.
  2: { destruct inp; [|done]. destruct eoc; [done|]. intros [= <- <-]. exists [], []. split_and!; [done|done|constructor|done]. }
  destruct (if eoc then cbs_get_eoc inp else (None, inp)) as [[[]|] inp'] eqn:Eeoc.
  { destruct eoc; [|done]. apply get_eoc_inv in Eeoc as ->. intros [= <- <-]. exists [], []. split_and!; [done|done|constructor|done]. }
  destruct (CBS_get_any_ber_asn1_element inp) as [[e|] inp1] eqn:Ee; [|done]. rewrite p_element_finish.
  destruct (get_ber_inv _ _ _ Hb Ee) as (tag & Ht & [(lb & c & Hl & -> & ->)|(Hc & -> & ->)]); cbn [el_tag];
    unfold p_contents; cbn [el_indefinite el_header_len el_out el_tag].
  - apply Forall_app in Hb as [_ [Hbc Hb1]%Forall_app]. rewrite skip_ber_header.
    destruct (is_constructed tag) eqn:Hc.
    + destruct (rec c (child_tag st tag) false) as [[y r]|] eqn:Er; [|done]. cbn [mbind option_bind].
      destruct (finish st tag (Some y)) as [z|] eqn:Ef; [|done]. cbn [mbind option_bind].
      destruct (p_loop rec m inp1 st eoc) as [[x2 r2]|] eqn:E2; [|done]. intros [= <- <-].
      destruct (IH _ _ _ Hb1 E2) as (body & vs & -> & Hr & Hber & Hconv).
      destruct n as [|n]; [cbn in Hrec; by rewrite Hrec in Er|].
      destruct (Hrec _ _ _ _ _ Hbc Er) as (cbody & us & Ec & Hr' & Hus & Hcus). rewrite Hr' in Ec by done. cbn in Ec.
      rewrite app_nil_r in Ec. subst cbody.
      exists (ber_header tag lb ++ c ++ body), (Constructed tag us :: vs). split_and!;
        [by rewrite <- !app_assoc|done|by constructor|]. cbn [conv_all]. rewrite conv_constructed, Hcus by done. cbn [mbind option_bind].
      by rewrite Ef, Hconv.
    + cbn [mbind option_bind]. destruct (finish st tag (Some c)) as [z|] eqn:Ef; [|done]. cbn [mbind option_bind].
      destruct (p_loop rec m inp1 st eoc) as [[x2 r2]|] eqn:E2; [|done]. intros [= <- <-].
      destruct (IH _ _ _ Hb1 E2) as (body & vs & -> & Hr & Hber & Hconv).
      exists (ber_header tag lb ++ c ++ body), (Primitive tag c :: vs). split_and!;
        [by rewrite <- !app_assoc|done|by constructor|]. cbn [conv_all]. rewrite conv_primitive by done. by rewrite Ef, Hconv.
  - apply Forall_app in Hb as [_ Hb1].
    destruct (rec inp1 (child_tag st tag) true) as [[y r]|] eqn:Er; [|done]. cbn [mbind option_bind].
    destruct (finish st tag (Some y)) as [z|] eqn:Ef; [|done]. cbn [mbind option_bind].
    destruct (p_loop rec m r st eoc) as [[x2 r2]|] eqn:E2; [|done]. intros [= <- <-].
    destruct n as [|n]; [cbn in Hrec; by rewrite Hrec in Er|].
    destruct (Hrec _ _ _ _ _ Hb1 Er) as (c & us & -> & _ & Hus & Hcus). cbn [eoc_octets] in *.
    apply Forall_app in Hb1 as [_ [_ Hb2]%Forall_app].
    destruct (IH _ _ _ Hb2 E2) as (body & vs & -> & Hr & Hber & Hconv).
    exists (ber_header tag [0x80] ++ c ++ [0; 0] ++ body), (Constructed tag us :: vs). split_and!;
      [by rewrite <- !app_assoc|done|by constructor|]. cbn [conv_all]. rewrite conv_constructed, Hcus by done. cbn [mbind option_bind].
    by rewrite Ef, Hconv.
Qed.

Lemma p_convert_sound n : sound n (p_convert (S n)).
Proof.
  induction n as [|n IH]; intros inp st eoc x rest Hb H; (eapply p_loop_sound; [|done|exact H]); [done|exact IH].
Qed.

Lemma loop_head tag lb l : valid_tag tag → (CBS_len (ber_header tag lb ++ l) >? 0) = true.
Proof.
  intros Ht. destruct (tag_bytes_hd tag Ht) as (b & l' & E & _). unfold ber_header. rewrite E, Z.gtb_ltb. apply Z.ltb_lt.
  unfold CBS_len. cbn [app length]. lia.
Qed.

Lemma loop_eoc tag lb l (eoc : bool) : valid_tag tag →
  (if eoc then cbs_get_eoc (ber_header tag lb ++ l) else (None, ber_header tag lb ++ l)) = (None, ber_header tag lb ++ l).
Proof. intros. destruct eoc; [by apply no_eoc|done]. Qed.

Lemma loop_fuel tag lb l m : valid_tag tag → (length (ber_header tag lb ++ l) ≤ m)%nat → ∃ m', m = S m' ∧ (length l ≤ m')%nat.
Proof.
  intros Ht. destruct (tag_bytes_hd tag Ht) as (b & l' & E & _). unfold ber_header. rewrite E. cbn [app length].
  rewrite !length_app. destruct m as [|m]; [lia|]. intros ?. exists m. split; [done|lia].
Qed.

Lemma p_loop_end rec m st eoc rest : (eoc = false → rest = []) → (length (eoc_octets eoc ++ rest) ≤ m)%nat →
  p_loop rec m (eoc_octets eoc ++ rest) st eoc = Some ([], rest).
Proof.
  intros Hr Hm. destruct eoc; [|rewrite Hr by done; by destruct m].
  destruct m as [|m]; [cbn in Hm; lia|]. cbn [p_loop eoc_octets app]. rewrite eoc_bytes. by destruct rest.
Qed.

Lemma p_loop_complete n body vs : ber n body vs → ∀ rec m st eoc x rest, below complete n rec → conv_all st vs = Some x →
  (eoc = false → rest = []) → (length (body ++ eoc_octets eoc ++ rest) ≤ m)%nat →
  p_loop rec m (body ++ eoc_octets eoc ++ rest) st eoc = Some (x, rest).
Proof.
  induction 1 as [n|n tag lb c rst vs Ht Hc Hl Hrst IH|n tag lb c us rst vs Ht Hc Hl Hus _ Hrst IH|n tag c us rst vs Ht Hc Hus _ Hrst IH];
    intros rec m st eoc x rest Hrec Hx Hr Hm; [injection Hx as <-; by apply p_loop_end|..];
    rewrite <- !app_assoc in *; destruct (loop_fuel _ _ _ _ Ht Hm) as (m' & -> & Hm'); clear Hm;
    cbn [p_loop conv_all] in *; rewrite loop_head, loop_eoc by done;
    match type of Hx with (x0 ← conv st ?v; _) = _ => destruct (conv st v) as [z|] eqn:Ez; [|done] end;
    (destruct (conv_all st vs) as [y|] eqn:Ey; [|done]); injection Hx as <-.
  - rewrite get_ber_definite, p_element_finish by done. unfold p_contents. cbn [el_indefinite el_header_len el_out el_tag].
    rewrite skip_ber_header, Hc. cbn [mbind option_bind]. rewrite conv_primitive in Ez by done. rewrite Ez. cbn [mbind option_bind].
    rewrite (IH rec m' st eoc y rest) by (done || rewrite !length_app in *; lia). done.
  - rewrite get_ber_definite, p_element_finish by done. unfold p_contents. cbn [el_indefinite el_header_len el_out el_tag].
    rewrite skip_ber_header, Hc. rewrite conv_constructed in Ez by done.
    destruct (conv_all (child_tag st tag) us) as [u|] eqn:Eu; [|done]. cbn [mbind option_bind] in Ez.
    pose proof (Hrec c us (child_tag st tag) false u [] Hus Eu ltac:(done)) as Er. cbn [eoc_octets app] in Er. rewrite app_nil_r in Er.
    rewrite Er. cbn [mbind option_bind]. rewrite Ez. cbn [mbind option_bind].
    rewrite (IH rec m' st eoc y rest) by (done || rewrite !length_app in *; lia). done.
  - rewrite get_ber_indefinite, p_element_finish by done. unfold p_contents. cbn [el_indefinite el_header_len el_out el_tag].
    rewrite conv_constructed in Ez by done.
    destruct (conv_all (child_tag st tag) us) as [u|] eqn:Eu; [|done]. cbn [mbind option_bind] in Ez.
    pose proof (Hrec c us (child_tag st tag) true u (rst ++ eoc_octets eoc ++ rest) Hus Eu ltac:(done)) as Er.
    cbn [eoc_octets] in Er. rewrite Er.
    cbn [mbind option_bind]. rewrite Ez. cbn [mbind option_bind].
    rewrite (IH rec m' st eoc y rest) by (done || rewrite !length_app in *; lia). done.
Qed.

Lemma p_convert_complete n : complete n (p_convert (S n)).
Proof.
  induction n as [|n IH]; intros body vs st eoc x rest Hber Hx Hr; cbn [p_convert]; (eapply p_loop_complete; [done| |done..|lia]);
    [done|exact IH].
Qed.

(** ** The code computes that function *)
Section refinement.
Context {A : Allocator}.

Definition refines (rec : CBS → loc → Z → bool → B CBS) (prec : pure_conversion) : Prop :=
  ∀ inp l st eoc, bytes_ok inp → CBS_len inp < 2 ^ 64 → produces (rec inp l st eoc) l (prec inp st eoc).
Definition keeps_suffix (prec : pure_conversion) : Prop :=
  ∀ inp st eoc x rest, bytes_ok inp → prec inp st eoc = Some (x, rest) → ∃ pre, inp = pre ++ rest.

(** [convert_contents] without the final flush. *)
Definition inner_contents (rec : CBS → loc → Z → bool → B CBS) (e : asn1_element) (inp : CBS) (oc : loc) (cst : Z) : B CBS :=
  if el_indefinite e then rec inp oc cst true
  else
    '(_, contents) ← with_cbs (CBS_skip (el_header_len e)) (el_out e);
    _ ← (if is_constructed (el_tag e) then _ ← rec contents oc cst false; mret () else CBB_add_bytes oc (CBS_data contents));
    mret inp.

Lemma convert_contents_eq rec e inp out oc cst w :
  (a ← inner_contents rec e inp oc cst; _ ← CBB_flush out; mret a) w = convert_contents rec e inp out oc cst w.
Proof.
  unfold inner_contents, convert_contents. destruct (el_indefinite e); [done|]. unfold mbind, B_bind.
  destruct (with_cbs _ _ w) as [[u contents] w1|w1|]; [|done..].
  destruct (is_constructed (el_tag e)); [by destruct (rec contents oc cst false w1)|by destruct (CBB_add_bytes oc (CBS_data contents) w1)].
Qed.

Lemma produces_inner rec prec e inp oc cst : refines rec prec → bytes_ok inp → CBS_len inp < 2 ^ 64 → bytes_ok (el_out e) →
  CBS_len (el_out e) < 2 ^ 64 → produces (inner_contents rec e inp oc cst) oc (p_contents prec e inp cst).
Proof.
  intros Hrec Hb Hl Hbo Hlo. unfold inner_contents, p_contents. destruct (el_indefinite e); [by apply Hrec|].
  apply (produces_with_cbs (CBS_skip (el_header_len e)) (el_out e) (λ '(_, contents), _ ← _; mret inp) oc
    (λ _ contents, if is_constructed (el_tag e) then '(x, _) ← prec contents cst false; Some (x, inp) else Some (contents, inp))).
  intros u contents Hs. assert (Hc : bytes_ok contents ∧ CBS_len contents < 2 ^ 64).
  { unfold CBS_skip, cbs_get in Hs. revert Hs. run_step. destruct (CBS_len (el_out e) <? el_header_len e); [done|]. intros [= _ <-].
    split; [by apply Forall_drop|]. unfold CBS_len in *. rewrite length_drop. lia. }
  destruct Hc as [Hcb Hcl]. destruct (is_constructed (el_tag e)).
  - apply (produces_eq (a ← rec contents oc cst false; mret inp)).
    { intros w. unfold mbind, B_bind. by destruct (rec contents oc cst false w). }
    replace ('(x, _) ← prec contents cst false; Some (x, inp))
      with ('(x1, _) ← prec contents cst false; '(x2, b) ← Some ([], inp); Some (x1 ++ x2, b)).
    2: { destruct (prec contents cst false) as [[x r]|]; [|done]. cbn. by rewrite app_nil_r. }
    apply produces_bind; [by apply Hrec|]. intros. apply produces_ret.
  - replace (Some (contents, inp)) with ('(x1, _) ← (x ← Some contents; Some (x, ())); '(x2, b) ← Some ([], inp); Some (x1 ++ x2, b)).
    2: { cbn. by rewrite app_nil_r. }
    apply produces_bind; [by apply produces_tip, tip_of_appends, appends_add_bytes|]. intros. apply produces_ret.
Qed.

Lemma produces_element rec prec e inp out st : refines rec prec → bytes_ok inp → CBS_len inp < 2 ^ 64 → bytes_ok (el_out e) →
  CBS_len (el_out e) < 2 ^ 64 → in_range 32 (el_tag e) → produces (convert_element rec e inp out st) out (p_element prec e inp st).
Proof.
  intros Hrec Hb Hl Hbo Hlo Ht. unfold convert_element, p_element. destruct (negb (st =? 0)).
  - apply produces_require. intros _. eapply produces_eq; [intros w; apply convert_contents_eq|]. by apply produces_flush, produces_inner.
  - assert (Hout : ∀ out_tag cst, in_range 32 out_tag →
      produces (with_local (λ s, _ ← CBB_add_asn1 out s out_tag; convert_contents rec e inp out s cst)) out
        ('(x, inp) ← p_contents prec e inp cst; y ← asn1_of out_tag (Some x); Some (y, inp))).
    { intros out_tag cst Ht'. eapply produces_eq; [|apply (produces_child (λ s, inner_contents rec e inp s cst)); [done|]].
      - intros w. apply with_local_eq. intros s. apply B_bind_ext. intros _ w1. apply convert_contents_eq.
      - intros child. by apply produces_inner. }
    destruct (is_constructed (el_tag e) && is_string_type (el_tag e)); apply Hout; [|done].
    apply land_range_l; [lia|done|by vm_compute].
Qed.

Lemma produces_loop rec prec m inp out st eoc : refines rec prec → keeps_suffix prec → bytes_ok inp → CBS_len inp < 2 ^ 64 →
  (length inp ≤ m)%nat → produces (convert_loop rec m inp out st eoc) out (p_loop prec m inp st eoc).
Proof.
  intros Hrec Hsuf. revert inp. induction m as [|m IH]; intros inp Hb Hl Hm; cbn [convert_loop p_loop].
  { destruct inp; [|cbn in Hm; lia]. destruct eoc; [apply produces_return0|apply produces_ret]. }
  destruct (CBS_len inp >? 0) eqn:E; [|destruct inp; [destruct eoc; [apply produces_return0|apply produces_ret]|done]].
  destruct (if eoc then cbs_get_eoc inp else (None, inp)) as [[[]|] inp'] eqn:Eeoc; [apply produces_ret|].
  apply (produces_with_cbs CBS_get_any_ber_asn1_element inp (λ '(e, inp), _) out
    (λ e inp, '(x, inp) ← p_element prec e inp st; '(y, inp) ← p_loop prec m inp st eoc; Some (x ++ y, inp))).
  intros e inp1 Ee. assert (He : bytes_ok (el_out e) ∧ CBS_len (el_out e) < 2 ^ 64 ∧ in_range 32 (el_tag e) ∧ bytes_ok inp1 ∧ (length inp1 ≤ m)%nat).
  { destruct (get_ber_inv _ _ _ Hb Ee) as (tag & [Ht ?] & [(lb & c & Hlb & -> & ->)|(Hc & -> & ->)]); cbn [el_out el_tag].
    - destruct (loop_fuel tag lb (c ++ inp1) (S m)) as (? & [= <-] & Hm'); [done..|]. rewrite app_assoc in Hb.
      apply Forall_app in Hb as [? ?]. rewrite length_app in Hm'. rewrite !CBS_len_app in *. pose proof (CBS_len_nonneg inp1).
      split_and!; done || lia.
    - destruct (loop_fuel tag [0x80] inp1 (S m)) as (? & [= <-] & Hm'); [done..|].
      apply Forall_app in Hb as [? ?]. rewrite !CBS_len_app in *. pose proof (CBS_len_nonneg inp1). split_and!; done || lia. }
  destruct He as (Hbo & Hlo & Ht & Hb1 & Hm1). assert (Hl1 : CBS_len inp1 < 2 ^ 64).
  { destruct (get_ber_inv _ _ _ Hb Ee) as (tag & ? & [(lb & c & ? & -> & _)|(_ & -> & _)]); rewrite !CBS_len_app in Hl;
      pose proof (CBS_len_nonneg (ber_header tag [0x80])); [pose proof (CBS_len_nonneg (ber_header tag lb)); pose proof (CBS_len_nonneg c)|]; lia. }
  apply (produces_bind _ (λ inp, convert_loop rec m inp out st eoc) out (p_element prec e inp1 st) (λ inp, p_loop prec m inp st eoc));
    [by apply produces_element|]. intros x1 inp2 E2.
  assert (∃ pre, inp1 = pre ++ inp2) as [pre ->].
  { rewrite p_element_finish in E2. destruct (p_contents prec e inp1 _) as [[y i]|] eqn:Ec; [|done]. cbn [mbind option_bind] in E2.
    destruct (finish _ _ _); [|done]. injection E2 as _ ->. unfold p_contents in Ec. destruct (el_indefinite e); [by eapply Hsuf|].
    destruct (CBS_skip _ _) as [[]]; [|done]. destruct (is_constructed _).
    - destruct (prec _ _ _) as [[??]|]; [|done]. injection Ec as _ <-. by exists [].
    - injection Ec as _ <-. by exists []. }
  apply Forall_app in Hb1 as [_ Hb2]. rewrite length_app in Hm1. rewrite CBS_len_app in Hl1. pose proof (CBS_len_nonneg pre).
  apply IH; [done|lia|lia].
Qed.

Lemma convert_refines fuel depth : Z.of_nat fuel + depth = kMaxDepth + 1 →
  refines (λ inp l st eoc, cbs_convert_ber fuel inp l st eoc depth) (p_convert fuel).
Proof.
  revert depth. induction fuel as [|fuel IH]; intros depth Hd inp l st eoc Hb Hl; cbn [cbs_convert_ber p_convert];
    destruct (Z.gtb_spec depth kMaxDepth); try lia; [apply produces_return0|].
  apply produces_loop; [apply IH; lia| |done..]. intros inp' st' eoc' x rest Hb' H'. destruct fuel as [|fuel]; [done|].
  destruct (p_convert_sound fuel _ _ _ _ _ Hb' H') as (body & vs & -> & _). exists (body ++ eoc_octets eoc'). by rewrite app_assoc.
Qed.
End refinement.

(** ** When no conversion is needed *)

(** DER as far as the code cares: definite lengths of the fewest octets, no
    constructed strings, nested at most [n] deep. *)
Inductive der_only : nat → CBS → Prop :=
  | only_nil n : der_only n []
  | only_primitive n tag c rest :
      valid_tag tag → is_constructed tag = false → CBS_len c < 2 ^ 32 → der_only n rest → der_only n (der_element tag c ++ rest)
  | only_constructed n tag c rest :
      valid_tag tag → is_constructed tag = true → is_string_type tag = false → CBS_len c < 2 ^ 32 →
      der_only n c → der_only (S n) rest → der_only (S n) (der_element tag c ++ rest).

Lemma der_element_ber tag c rest :
  der_element tag c ++ rest = ber_header tag (der_len_bytes (CBS_len c)) ++ c ++ rest.
Proof. unfold der_element, der_header, ber_header. by rewrite <- !app_assoc. Qed.

Lemma get_ber_der tag c rest : valid_tag tag → CBS_len c < 2 ^ 32 →
  CBS_get_any_ber_asn1_element (der_element tag c ++ rest) =
    (Some (mkElement (der_element tag c) tag (CBS_len (der_header tag (CBS_len c))) false false), rest).
Proof. by apply get_element_der. Qed.

Lemma only_false n inp : der_only n inp → ∀ rec m,
  (∀ n' c, n = S n' → der_only n' c → rec c = Some false) → (length inp ≤ m)%nat → find_ber_loop rec m inp = Some false.
Proof.
  induction 1 as [n|n tag c rest Ht Hc Hl Hrest IH|n tag c rest Ht Hc Hs Hl Hcs _ Hrest IH]; intros rec m Hrec Hm;
    [by destruct m|..]; pose proof (der_element_ber tag c rest) as E; rewrite E in Hm;
    destruct (loop_fuel _ _ _ _ Ht Hm) as (m' & -> & Hm'); rewrite length_app in Hm'; cbn [find_ber_loop];
    assert (Hg : (CBS_len (der_element tag c ++ rest) >? 0) = true) by (rewrite E; by apply loop_head); rewrite Hg, get_ber_der by done;
    cbn [el_ber_found el_tag el_header_len el_out]; rewrite Hc.
  - apply IH; [done|lia].
  - rewrite Hs, CBS_skip_header, (Hrec n c) by done. apply IH; [done|lia].
Qed.

Lemma false_only n rec m inp : (∀ c, bytes_ok c → rec c = Some false → ∃ n', n = S n' ∧ der_only n' c) → bytes_ok inp →
  find_ber_loop rec m inp = Some false → der_only n inp.
Proof.
  intros Hrec. revert inp. induction m as [|m IH]; intros inp Hb; cbn [find_ber_loop].
  { destruct (CBS_len inp >? 0) eqn:E; [done|]. destruct inp; [constructor|done]. }
  destruct (CBS_len inp >? 0) eqn:E; [|destruct inp; [constructor|done]].
  destruct (CBS_get_any_ber_asn1_element inp) as [[e|] rest] eqn:Ee; [|done].
  destruct (get_ber_inv _ _ _ Hb Ee) as (tag & Ht & [(lb & c & Hl & -> & ->)|(Hc & -> & ->)]); cbn [el_ber_found]; [|done].
  destruct (bool_decide_reflect (lb ≠ der_len_bytes (CBS_len c))) as [|Hlb]; [done|]. apply dec_stable in Hlb as ->.
  destruct (ber_length_range _ _ Hl) as (Hn & _). cbn [el_tag el_header_len el_out]. rewrite skip_ber_header.
  apply Forall_app in Hb as [_ [Hbc Hbr]%Forall_app]. rewrite <- der_element_ber.
  destruct (is_constructed tag) eqn:Hc; [destruct (is_string_type tag) eqn:Hs; [done|]|].
  - destruct (rec c) as [[]|] eqn:Er; [done| |done]. intros Hloop. destruct (Hrec c Hbc Er) as (n' & -> & ?).
    apply only_constructed; auto; lia.
  - intros Hloop. apply only_primitive; auto; lia.
Qed.

Lemma find_ber_unfold n depth inp : depth <= kMaxDepth →
  cbs_find_ber (S n) inp depth = find_ber_loop (λ contents, cbs_find_ber n contents (depth + 1)) (length inp) inp.
Proof. intros Hd. cbn [cbs_find_ber]. destruct (Z.gtb_spec depth kMaxDepth); [lia|done]. Qed.

Lemma only_find_ber n depth inp : Z.of_nat n + depth = kMaxDepth → der_only n inp → cbs_find_ber (S n) inp depth = Some false.
Proof.
  revert depth inp. induction n as [|n IH]; intros depth inp Hd H; rewrite find_ber_unfold by lia;
    (eapply only_false; [done| |lia]); intros n' c [=]. subst n'. intros. apply IH; [lia|done].
Qed.

Lemma find_ber_only n depth inp : Z.of_nat n + depth = kMaxDepth → bytes_ok inp →
  cbs_find_ber (S n) inp depth = Some false → der_only n inp.
Proof.
  revert depth inp. induction n as [|n IH]; intros depth inp Hd Hb H; rewrite find_ber_unfold in H by lia;
    (eapply false_only; [|done|exact H]); intros c Hbc Hc.
  - cbn in Hc. destruct (Z.gtb_spec (depth + 1) kMaxDepth); [done|lia].
  - exists n. split; [done|]. by apply (IH (depth + 1)); [lia|..].
Qed.

(** A valid input is not refused by the walk. *)
Lemma ber_loop_some n inp vs : ber n inp vs → ∀ rec m,
  (∀ n' c us, n = S n' → ber n' c us → rec c ≠ None) → (length inp ≤ m)%nat → find_ber_loop rec m inp ≠ None.
Proof.
  induction 1 as [n|n tag lb c rst vs Ht Hc Hl Hrst IH|n tag lb c us rst vs Ht Hc Hl Hus _ Hrst IH|n tag c us rst vs Ht Hc Hus _ Hrst IH];
    intros rec m Hrec Hm; [by destruct m|..]; destruct (loop_fuel _ _ _ _ Ht Hm) as (m' & -> & Hm'); rewrite !length_app in Hm';
    cbn [find_ber_loop]; rewrite loop_head by done; [rewrite get_ber_definite by done..|by rewrite get_ber_indefinite];
    cbn [el_ber_found el_tag el_header_len el_out]; (case_bool_decide; [done|]); rewrite Hc.
  - apply IH; [done|lia].
  - destruct (is_string_type tag); [done|]. rewrite skip_ber_header. pose proof (Hrec n c us eq_refl Hus).
    destruct (rec c) as [[]|]; [done| |done]. apply IH; [done|lia].
Qed.

Lemma ber_find_some n depth inp vs : Z.of_nat n + depth = kMaxDepth → ber n inp vs → cbs_find_ber (S n) inp depth ≠ None.
Proof.
  revert depth inp vs. induction n as [|n IH]; intros depth inp vs Hd H; rewrite find_ber_unfold by lia;
    (eapply ber_loop_some; [done| |lia]); intros n' c us [=]. subst n'. eapply IH. lia.
Qed.

(** ** The output is DER *)
Lemma not_constructed_primitive tag : is_constructed (tag .& NOT_CONSTRUCTED) = false.
Proof. unfold is_constructed. rewrite <- Z.land_assoc. change (NOT_CONSTRUCTED .& CBS_ASN1_CONSTRUCTED) with 0. by rewrite Z.land_0_r. Qed.

Lemma string_tag_valid tag : in_range 32 tag → is_string_type tag = true → valid_tag (tag .& NOT_CONSTRUCTED).
Proof.
  intros Ht Hs. split; [apply land_range_l; [lia|done|by vm_compute]|split].
  - pose proof (string_tag_nonzero tag Hs) as H. by destruct (Z.eqb_spec (tag .& NOT_CONSTRUCTED) 0).
  - intros E. pose proof (not_constructed_primitive tag) as H. rewrite E in H. by vm_compute in H.
Qed.

Lemma conv_der_only n inp vs : ber n inp vs → ∀ x, der_of_all vs = Some x → der_only n x.
Proof.
  assert (Hcons : ∀ n tag us x1 x2, valid_tag tag → is_constructed tag = true → der_of (Constructed tag us) = Some x1 →
    (∀ x, der_of_all us = Some x → der_only n x) → der_only (S n) x2 → der_only (S n) (x1 ++ x2)).
  { intros n0 tag us x1 x2 Ht Hc E1 Hus H2. cbn [der_of] in E1. destruct (is_string_type tag) eqn:Hs.
    - apply asn1_of_Some in E1 as (c & _ & Hl & ->). apply only_primitive; [by apply string_tag_valid; [apply Ht|]|
        apply not_constructed_primitive|lia|done].
    - apply asn1_of_Some in E1 as (c & Ec & Hl & ->). apply only_constructed; [done..|lia|by apply Hus|done]. }
  induction 1 as [n|n tag lb c rst vs Ht Hc Hl Hrst IH|n tag lb c us rst vs Ht Hc Hl Hus IHus Hrst IH|n tag c us rst vs Ht Hc Hus IHus Hrst IH];
    intros x Hx; [injection Hx as <-; constructor|..]; cbn [der_of_all] in Hx;
    match type of Hx with (x0 ← der_of ?v; _) = _ => destruct (der_of v) as [x1|] eqn:E1; [|done] end;
    fold der_of_all in Hx; (destruct (der_of_all vs) as [x2|] eqn:E2; [|done]); injection Hx as <-.
  - cbn [der_of] in E1. apply asn1_of_Some in E1 as (c' & [= <-] & Hl' & ->). apply only_primitive; [done..|lia|auto].
  - eapply Hcons; eauto.
  - eapply Hcons; eauto.
Qed.

Lemma der_only_element n inp : der_only n inp → inp ≠ [] →
  ∃ tag c rest, valid_tag tag ∧ CBS_len c < 2 ^ 32 ∧ inp = der_element tag c ++ rest.
Proof. intros [] Hne; [done|by eexists _, _, _..]. Qed.

Lemma ber_empty n vs : ber n [] vs → vs = [].
Proof.
  intros H. remember [] as l eqn:El. destruct H as [n|n tag lb c rst vs Ht|n tag lb c us rst vs Ht|n tag c us rst vs Ht]; [done|..];
    exfalso; destruct (tag_bytes_hd tag Ht) as (b & l & E & _); unfold ber_header in El; by rewrite E in El.
Qed.

Section ber_to_der.
Context {A : Allocator}.

(** The conversion into a fresh CBB. *)
Lemma wp_convert_fresh inp w : bytes_ok inp → CBS_len inp < 2 ^ 62 →
  let depth := Z.to_nat kMaxDepth in
  wp (with_local (λ cbb, on_error
        (_ ← CBB_init cbb (CBS_len inp);
         inp ← cbs_convert_ber (S depth) inp cbb 0 false 0;
         out_storage ← CBB_finish cbb;
         mret (out_storage, Some out_storage, inp))
        (CBB_cleanup cbb))) w
    (λ r _, ∃ out vs, r = (out, Some out, []) ∧ ber depth inp vs ∧ der_of_all vs = Some out)
    (λ _, NeverFails A → ∀ vs x, ber depth inp vs → der_of_all vs = Some x → 2 ^ 62 < CBS_len x).
Proof.
  intros Hb Hlen depth. pose proof (CBS_len_nonneg inp).
  eapply wp_mono; [apply (wp_build (CBS_len inp) (λ cbb, cbs_convert_ber (S depth) inp cbb 0 false 0)
    (λ inp out, (out, Some out, inp)) w (p_convert (S depth) inp 0 false)); [lia|]| |].
  - intros l. apply (convert_refines (S depth) 0); [by vm_compute|done|lia].
  - intros r _ (x & rest & Hx & ->). destruct (p_convert_sound depth _ _ _ _ _ Hb Hx) as (body & vs & Ei & Hr & Hvs & Hconv).
    specialize (Hr eq_refl). subst rest. cbn [eoc_octets app] in Ei. rewrite app_nil_r in Ei. subst body. rewrite conv_all_der in Hconv.
    by exists x, vs.
  - intros ? Hno Hnf vs x Hvs Hx. rewrite <- conv_all_der in Hx.
    pose proof (p_convert_complete depth inp vs 0 false x [] Hvs Hx ltac:(done)) as Hp.
    cbn [eoc_octets app] in Hp. rewrite app_nil_r in Hp. by eapply Hno.
Qed.

(** C17: [CBS_asn1_ber_to_der] converts BER to DER.  If the input is DER
    already (definite minimal lengths, no constructed string, nested at most
    128 deep) it returns its first element, in place.  Otherwise it reads the
    whole input as BER elements, whatever their length forms and the cutting
    of their strings, and returns their DER encoding, which needs no further
    conversion.  Both walks terminate.  It accepts every BER input of one
    element or more within the nesting limit; it fails on such an input only
    if a length exceeds what CBB can write or memory runs out. *)
Theorem CBS_asn1_ber_to_der_spec (inp : CBS) (w : world) (Hb : bytes_ok inp) (Hlen : CBS_len inp < 2 ^ 62) :
  let depth := Z.to_nat kMaxDepth in
  match CBS_asn1_ber_to_der inp w with
  | Ok (out, None, rest) _ => der_only depth inp ∧ inp = out ++ rest ∧
      ∃ tag c, valid_tag tag ∧ CBS_len c < 2 ^ 32 ∧ out = der_element tag c
  | Ok (out, Some storage, rest) _ => ¬ der_only depth inp ∧ storage = out ∧ rest = [] ∧
      ∃ vs, ber depth inp vs ∧ der_of_all vs = Some out ∧ der_only depth out
  | Fail _ => NeverFails A → ∀ vs x, ber depth inp vs → vs ≠ [] → der_of_all vs = Some x → 2 ^ 62 < CBS_len x
  | UB => False
  end.
Proof.
  intros depth. assert (Hd : Z.of_nat depth + 0 = kMaxDepth) by by vm_compute.
  unfold CBS_asn1_ber_to_der. change max_levels with (S depth).
  destruct (cbs_find_ber (S depth) inp 0) as [[]|] eqn:Ef.
  - pose proof (wp_convert_fresh inp w Hb Hlen) as Hw. cbv zeta in Hw. fold depth in Hw. unfold wp in Hw.
    match goal with |- context [with_local ?f w] => destruct (with_local f w) as [[[out st] rest] w'|w'|] end; [| |done].
    + destruct Hw as (out' & vs & [= -> -> ->] & Hvs & Hx). split; [|split_and!; [done..|exists vs; split_and!; [done..|by eapply conv_der_only]]].
      intros Hder. apply (only_find_ber depth 0 inp Hd) in Hder. congruence.
    + intros Hnf vs x Hvs _. by apply Hw.
  - apply find_ber_only in Ef; [|done..]. unfold with_cbs. destruct (CBS_get_any_asn1_element inp) as [[e|] rest] eqn:Ee.
    + apply get_element_canonical in Ee as (tag & c & Ht & Hc & -> & ->); [|done]. cbn. split_and!; [done..|by exists tag, c].
    + cbn. intros Hnf vs x Hvs Hne _. destruct (decide (inp = [])) as [->|Hi].
      * by apply ber_empty in Hvs.
      * exfalso. destruct (der_only_element _ _ Ef Hi) as (tag & c & rst & Ht & Hc & ->). 
        pose proof (get_element_der tag c rst false Ht Hc) as E. unfold CBS_get_any_asn1_element in Ee. congruence.
  - cbn. intros Hnf vs x Hvs _ _. by apply (ber_find_some depth 0 inp vs Hd) in Hvs.
Qed.

(** *** Implicitly tagged strings *)

(** The chunks of a constructed string, read the way the code reads them. *)
Fixpoint chunks_of (n : nat) (child : CBS) (inner_tag : Z) : option (list (list Z)) :=
  if CBS_len child >? 0 then
    match n with
    | O => None
    | S n =>
        match CBS_get_asn1 inner_tag child with
        | (Some chunk, child) => l ← chunks_of n child inner_tag; Some (chunk :: l)
        | _ => None
        end
    end
  else Some [].

Definition chunks_ok (chunks : list (list Z)) : Prop := Forall (λ c, CBS_len c < 2 ^ 32) chunks.
Definition chunks_der (tag : Z) (chunks : list (list Z)) : list Z := concat (der_element tag <$> chunks).

Lemma der_element_length tag c : valid_tag tag → CBS_len c < 2 ^ 32 → CBS_len c + 2 <= CBS_len (der_element tag c).
Proof.
  intros Ht Hc. pose proof (CBS_len_nonneg c). pose proof (der_header_length tag (CBS_len c) Ht ltac:(lia)).
  unfold der_element. rewrite CBS_len_app. lia.
Qed.

Lemma chunks_of_iff n child tag l : valid_tag tag → bytes_ok child → (length child ≤ n)%nat →
  chunks_of n child tag = Some l ↔ chunks_ok l ∧ child = chunks_der tag l.
Proof.
  intros Ht. revert child l. assert (Hnil : ∀ l, Some [] = Some l ↔ chunks_ok l ∧ [] = chunks_der tag l).
  { intros l. split; [intros [= <-]; by split; [constructor|]|]. intros [Hl E]. destruct l as [|c l]; [done|]. apply Forall_cons in Hl as [Hc _].
    apply (f_equal CBS_len) in E. unfold chunks_der in E. cbn [fmap list_fmap concat] in E. rewrite CBS_len_app in E.
    pose proof (der_element_length tag c Ht Hc). pose proof (CBS_len_nonneg c). pose proof (CBS_len_nonneg (chunks_der tag l)).
    unfold chunks_der in *. change (CBS_len []) with 0 in E. lia. }
  induction n as [|n IH]; intros child l Hb Hl; (destruct child as [|b child']; [apply Hnil|]); [cbn in Hl; lia|].
  cbn [chunks_of]. set (child := b :: child') in *. destruct (CBS_len child >? 0) eqn:E.
  2: { rewrite Z.gtb_ltb in E. apply Z.ltb_ge in E. unfold CBS_len in E. cbn in E. lia. }
  split.
  - destruct (CBS_get_asn1 tag child) as [[c|] rest] eqn:Eg; [|done]. apply get_asn1_inv in Eg as (_ & Hc & Ec & _ & Hbr); [|done].
    destruct (chunks_of n rest tag) as [l'|] eqn:El; [|done]. intros [= <-]. rewrite Ec in Hl.
    pose proof (der_element_length tag c Ht Hc). pose proof (CBS_len_nonneg c). rewrite length_app in Hl.
    apply IH in El as [Hl' ->]; [|done|unfold CBS_len in *; lia]. split; [by apply Forall_cons|]. exact Ec.
  - intros [Hok Ec]. destruct l as [|c l]; [done|]. apply Forall_cons in Hok as [Hc Hok].
    unfold chunks_der in Ec. cbn [fmap list_fmap concat] in Ec. fold (chunks_der tag l) in Ec. rewrite Ec in *.
    rewrite get_asn1_der by done. pose proof (der_element_length tag c Ht Hc). pose proof (CBS_len_nonneg c).
    rewrite length_app in Hl. apply Forall_app in Hb as [_ Hbr].
    by rewrite (proj2 (IH (chunks_der tag l) l Hbr ltac:(unfold CBS_len in *; lia)) (conj Hok eq_refl)).
Qed.

Lemma writes_implicit n child result tag : valid_tag tag → bytes_ok child → CBS_len child < 2 ^ 64 → (length child ≤ n)%nat →
  writes (implicit_string_loop n child result tag) result (@concat Z <$> chunks_of n child tag).
Proof.
  intros Ht. revert child. induction n as [|n IH]; intros child Hb Hl Hn; cbn [implicit_string_loop chunks_of].
  { destruct child; [apply writes_ret|cbn in Hn; lia]. }
  destruct (CBS_len child >? 0); [|apply writes_ret].
  pose proof (produces_with_cbs (CBS_get_asn1 tag) child
    (λ '(chunk, child), _ ← CBB_add_bytes result (CBS_data chunk); implicit_string_loop n child result tag) result
    (λ chunk child, x ← (x2 ← (@concat Z <$> chunks_of n child tag); Some (chunk ++ x2)); Some (x, ()))) as H.
  unfold writes. destruct (CBS_get_asn1 tag child) as [[c|] rest] eqn:Eg; [|by apply H].
  replace (@concat Z <$> (l ← chunks_of n rest tag; Some (c :: l))) with (x2 ← (@concat Z <$> chunks_of n rest tag); Some (c ++ x2))
    by by destruct (chunks_of n rest tag).
  apply H. intros a r [= <- <-]. apply get_asn1_inv in Eg as (_ & Hc & -> & Hbc & Hbr); [|done].
  pose proof (der_element_length tag c Ht Hc). pose proof (CBS_len_nonneg c). rewrite CBS_len_app in Hl. rewrite length_app in Hn.
  pose proof (CBS_len_nonneg rest).
  apply writes_seq_Some; [apply writes_tip, tip_of_appends, appends_add_bytes; [done|lia]|]. intros _.
  apply IH; [done|lia|unfold CBS_len in *; lia].
Qed.

Lemma peek_iff inp tag : bytes_ok inp →
  CBS_peek_asn1_tag inp tag = true ↔ valid_tag tag ∧ ∃ rest, inp = asn1_tag_bytes tag ++ rest.
Proof.
  intros Hb. unfold CBS_peek_asn1_tag. split.
  - destruct (parse_asn1_tag inp) as [[t|] rest] eqn:E; [|done]. cbn [fst]. intros ->%Z.eqb_eq.
    apply parse_asn1_tag_canonical in E as [? ->]; [|done]. split; [done|by exists rest].
  - intros [Ht [rest ->]]. rewrite parse_asn1_tag_bytes by done. apply Z.eqb_refl.
Qed.

(** The fresh builder of [CBS_get_asn1_implicit_string]. *)
Lemma wp_implicit inp outer inner w : valid_tag inner → bytes_ok inp → CBS_len inp < 2 ^ 62 →
  let tag := outer .| CBS_ASN1_CONSTRUCTED in
  wp (with_local (λ result, on_error
      (_ ← CBB_init result (CBS_len inp);
       '(child, inp) ← with_cbs (CBS_get_asn1 tag) inp;
       _ ← implicit_string_loop (length child) child result inner;
       data ← CBB_finish result;
       mret (data, Some data, inp))
      (CBB_cleanup result))) w
    (λ r _, ∃ chunks rest, r = (concat chunks, Some (concat chunks), rest) ∧ valid_tag tag ∧ chunks_ok chunks ∧
      CBS_len (chunks_der inner chunks) < 2 ^ 32 ∧ inp = der_element tag (chunks_der inner chunks) ++ rest)
    (λ _, NeverFails A → ∀ chunks rest, valid_tag tag → chunks_ok chunks → CBS_len (chunks_der inner chunks) < 2 ^ 32 →
      inp = der_element tag (chunks_der inner chunks) ++ rest → 2 ^ 62 < CBS_len (concat chunks)).
Proof.
  intros Hi Hb Hlen tag. pose proof (CBS_len_nonneg inp).
  set (m := λ result, '(child, inp) ← with_cbs (CBS_get_asn1 tag) inp; _ ← implicit_string_loop (length child) child result inner; mret inp).
  set (ov := match CBS_get_asn1 tag inp with
             | (Some child, rest) => x ← (@concat Z <$> chunks_of (length child) child inner); Some (x, rest) | _ => None end).
  assert (Hm : ∀ l, produces (m l) l ov).
  { intros l. apply (produces_with_cbs (CBS_get_asn1 tag) inp (λ '(child, inp), _ ← implicit_string_loop (length child) child l inner; mret inp) l
      (λ child rest, x ← (@concat Z <$> chunks_of (length child) child inner); Some (x, rest))).
    intros child rest (_ & Hc & Ei & Hbc & _)%get_asn1_inv; [|done].
    pose proof (writes_implicit (length child) child l inner Hi Hbc ltac:(lia) (Nat.le_refl _)) as Hw.
    pose proof (produces_bind _ (λ _, mret rest) l _ (λ _ : unit, Some ([], rest)) Hw (λ _ _ _, produces_ret rest l)) as Hp.
    destruct (chunks_of (length child) child inner) as [l'|]; [|done]. cbn in Hp |- *. by rewrite app_nil_r in Hp. }
  eapply wp_mono with (Q := λ r _, ∃ x a, ov = Some (x, a) ∧ r = (x, Some x, a)) (E := λ _, NeverFails A → ∀ x a, ov = Some (x, a) → 2 ^ 62 < CBS_len x).
  - pose proof (wp_build (CBS_len inp) m (λ inp out, (out, Some out, inp)) w ov ltac:(lia) Hm) as Hw. unfold wp in *.
    erewrite with_local_eq; [exact Hw|]. intros l. apply on_error_eq. apply B_bind_ext. intros _ w1. subst m. cbn beta.
    unfold mbind, B_bind. destruct (with_cbs _ _ w1) as [[child inp'] w2|w2|]; [|done..].
    by destruct (implicit_string_loop (length child) child l inner w2).
  - intros r _ (x & rest & Hov & ->). subst ov. destruct (CBS_get_asn1 tag inp) as [[child|] rest'] eqn:Eg; [|done].
    apply get_asn1_inv in Eg as (Ht & Hc & Ei & Hbc & _); [|done].
    destruct (chunks_of (length child) child inner) as [chunks|] eqn:Ec; [|done]. cbn in Hov. injection Hov as <- <-.
    apply chunks_of_iff in Ec as [Hok ->]; [|done..]. by exists chunks, rest'.
  - intros w' Hno Hnf chunks rest Ht Hok Hl Ei. apply (Hno Hnf _ rest). subst ov.
    assert (Hbc : bytes_ok (chunks_der inner chunks)).
    { rewrite Ei in Hb. unfold der_element in Hb. apply Forall_app in Hb as [Hb _]. by apply Forall_app in Hb as [_ ?]. }
    rewrite Ei, get_asn1_der by done. by rewrite (proj2 (chunks_of_iff _ _ inner chunks Hi Hbc (Nat.le_refl _)) (conj Hok eq_refl)).
Qed.

Lemma constructed_valid tag : valid_tag tag → is_constructed tag = false →
  valid_tag (tag .| CBS_ASN1_CONSTRUCTED) ∧ tag ≠ tag .| CBS_ASN1_CONSTRUCTED.
Proof.
  intros [Ht [Hz _]] Hc. unfold is_constructed in Hc. apply negb_false_iff, Z.eqb_eq in Hc.
  assert (Hne : ∀ x, x .& CBS_ASN1_CONSTRUCTED = 0 → x ≠ 0 → x .| CBS_ASN1_CONSTRUCTED ≠ CBS_ASN1_CONSTRUCTED).
  { intros x Hx Hx0 E. apply Hx0. apply (f_equal (Z.land x)) in E.
    by rewrite Z.land_lor_distr_r, Hx, Z.lor_0_r, Z.land_diag in E. }
  split; [split; [apply lor_range; [lia|done|by vm_compute]|split; [|by apply Hne]]|].
  - intros E%Z.lor_eq_0_iff. lia.
  - intros E. apply (f_equal (λ x, x .& CBS_ASN1_CONSTRUCTED)) in E. rewrite Hc, Z.land_lor_distr_l, Hc, Z.land_diag in E. by vm_compute in E.
Qed.

Lemma der_element_tag tag c rest : der_element tag c ++ rest = asn1_tag_bytes tag ++ der_len_bytes (CBS_len c) ++ c ++ rest.
Proof. unfold der_element, der_header. by rewrite <- !app_assoc. Qed.

(** [CBS_get_asn1_implicit_string] reads an implicitly tagged string: a
    primitive element of the outer tag, whose contents it returns in place, or
    a constructed one made of primitive pieces of the inner tag, whose
    contents it concatenates.  It accepts nothing else, and fails on such an
    input only when memory runs out. *)
Theorem CBS_get_asn1_implicit_string_spec (inp : CBS) (outer inner : Z) (w : world)
    (Ho : valid_tag outer) (Hop : is_constructed outer = false) (Hi : valid_tag inner) (Hb : bytes_ok inp) (Hlen : CBS_len inp < 2 ^ 62) :
  let constructed := outer .| CBS_ASN1_CONSTRUCTED in
  match CBS_get_asn1_implicit_string inp outer inner w with
  | Ok (out, None, rest) _ => CBS_len out < 2 ^ 32 ∧ inp = der_element outer out ++ rest
  | Ok (out, Some storage, rest) _ => storage = out ∧ ∃ chunks, out = concat chunks ∧ chunks_ok chunks ∧
      CBS_len (chunks_der inner chunks) < 2 ^ 32 ∧ inp = der_element constructed (chunks_der inner chunks) ++ rest
  | Fail _ => (∀ out rest, CBS_len out < 2 ^ 32 → inp ≠ der_element outer out ++ rest) ∧
      (NeverFails A → ∀ chunks rest, chunks_ok chunks → CBS_len (chunks_der inner chunks) < 2 ^ 32 →
         inp = der_element constructed (chunks_der inner chunks) ++ rest → 2 ^ 62 < CBS_len (concat chunks))
  | UB => False
  end.
Proof.
  intros constructed. destruct (constructed_valid outer Ho Hop) as [Hcv Hne]. fold constructed in Hcv, Hne.
  unfold CBS_get_asn1_implicit_string. fold constructed. destruct (CBS_peek_asn1_tag inp outer) eqn:Ep.
  - apply peek_iff in Ep as [_ [r Er]]; [|done]. unfold with_cbs. destruct (CBS_get_asn1 outer inp) as [[out|] rest] eqn:Eg.
    + apply get_asn1_inv in Eg as (_ & ? & ? & _); [|done]. done.
    + split.
      * intros out rest' Hl E. rewrite E, get_asn1_der in Eg by done. done.
      * intros _ chunks rest' _ _ E. exfalso. apply Hne. rewrite der_element_tag, Er in E.
        apply (f_equal parse_asn1_tag) in E. rewrite !parse_asn1_tag_bytes in E by done. by injection E.
  - pose proof (wp_implicit inp outer inner w Hi Hb Hlen) as Hw. cbv zeta in Hw. fold constructed in Hw. unfold wp in Hw.
    match type of Hw with match ?x with _ => _ end => destruct x as [[[out st] rest] w'|w'|] end; [| |done].
    + destruct Hw as (chunks & rest' & [= -> -> ->] & _ & ? & ? & ?). split; [done|]. by exists chunks.
    + split.
      * intros out rest Hl E. apply not_true_iff_false in Ep. apply Ep, peek_iff; [done|]. split; [done|].
        rewrite E, der_element_tag. by eexists.
      * intros Hnf chunks rest Hok Hl E. by eapply Hw.
Qed.
End ber_to_der.

(** SEQUENCE { [OCTET STRING] 07 08 in two pieces } with indefinite lengths. *)
Lemma CBS_asn1_ber_to_der_witness :
  let inp := [0x30; 0x80; 0x24; 0x80; 4; 1; 7; 4; 0x81; 1; 8; 0; 0; 0; 0] in
  let depth := Z.to_nat kMaxDepth in
  match CBS_asn1_ber_to_der (A := zero_allocator) inp (mkWorld ∅ ∅ 0) with
  | Ok (out, None, rest) _ => der_only depth inp ∧ inp = out ++ rest ∧
      ∃ tag c, valid_tag tag ∧ CBS_len c < 2 ^ 32 ∧ out = der_element tag c
  | Ok (out, Some storage, rest) _ => ¬ der_only depth inp ∧ storage = out ∧ rest = [] ∧
      ∃ vs, ber depth inp vs ∧ der_of_all vs = Some out ∧ der_only depth out
  | Fail _ => NeverFails zero_allocator → ∀ vs x, ber depth inp vs → vs ≠ [] → der_of_all vs = Some x → 2 ^ 62 < CBS_len x
  | UB => False
  end.
Proof.
  apply (CBS_asn1_ber_to_der_spec (A := zero_allocator) [0x30; 0x80; 0x24; 0x80; 4; 1; 7; 4; 0x81; 1; 8; 0; 0; 0; 0] (mkWorld ∅ ∅ 0)).
  - repeat (apply Forall_cons_2; [lia|]). constructor.
  - by vm_compute.
Defined.

(** [\[0\]] holding an OCTET STRING in two pieces. *)
Lemma CBS_get_asn1_implicit_string_witness :
  let inp := [0xa0; 6; 4; 1; 7; 4; 1; 8] in
  match CBS_get_asn1_implicit_string (A := zero_allocator) inp 0x80000000 CBS_ASN1_OCTETSTRING (mkWorld ∅ ∅ 0) with
  | Ok (out, None, rest) _ => CBS_len out < 2 ^ 32 ∧ inp = der_element 0x80000000 out ++ rest
  | Ok (out, Some storage, rest) _ => storage = out ∧ ∃ chunks, out = concat chunks ∧ chunks_ok chunks ∧
      CBS_len (chunks_der CBS_ASN1_OCTETSTRING chunks) < 2 ^ 32 ∧
      inp = der_element (0x80000000 .| CBS_ASN1_CONSTRUCTED) (chunks_der CBS_ASN1_OCTETSTRING chunks) ++ rest
  | Fail _ => (∀ out rest, CBS_len out < 2 ^ 32 → inp ≠ der_element 0x80000000 out ++ rest) ∧
      (NeverFails zero_allocator → ∀ chunks rest, chunks_ok chunks → CBS_len (chunks_der CBS_ASN1_OCTETSTRING chunks) < 2 ^ 32 →
         inp = der_element (0x80000000 .| CBS_ASN1_CONSTRUCTED) (chunks_der CBS_ASN1_OCTETSTRING chunks) ++ rest → 2 ^ 62 < CBS_len (concat chunks))
  | UB => False
  end.
Proof.
  apply (CBS_get_asn1_implicit_string_spec (A := zero_allocator) [0xa0; 6; 4; 1; 7; 4; 1; 8] 0x80000000 CBS_ASN1_OCTETSTRING (mkWorld ∅ ∅ 0)).
  - split; [by vm_compute|split; by vm_compute].
  - by vm_compute.
  - split; [by vm_compute|split; by vm_compute].
  - repeat (apply Forall_cons_2; [lia|]). constructor.
  - by vm_compute.
Defined.
