(* ===== verification/Unicode.v ===== *)
(** The string codecs of [crypto/bytestring/unicode.c]: UTF-8, Latin-1, UCS-2
    and UTF-32, read from a CBS and written to a CBB. *)
From S2P Require Import Prelude Radix Mem Cbs Cbb CbbSpec CbbFlush CbbOps.

Definition is_valid_code_point (v : Z) : bool :=
  negb ((v >? 0x10ffff) || (v .& 0xfffe =? 0xfffe) || ((v >=? 0xfdd0) && (v <=? 0xfdef)) ||
        ((v >=? 0xd800) && (v <=? 0xdfff))).

Definition BOTTOM_BITS (n : Z) : Z := u8 (1 ≪ n - 1).
Definition TOP_BITS (n : Z) : Z := u8 (Z.lnot (BOTTOM_BITS (8 - n))).

(** The continuation bytes: [for (i = 0; i < len; i++)]. *)
Fixpoint utf8_continuation (len : nat) (v : Z) : M CBS Z :=
  match len with
  | O => mret v
  | S len =>
      c ← CBS_get_u8;
      _ ← require (c .& TOP_BITS 2 =? TOP_BITS 1);
      utf8_continuation len (v ≪[32] 6 .| (c .& BOTTOM_BITS 6))
  end.

Definition CBS_get_utf8 : M CBS Z :=
  c ← CBS_get_u8;
  if c <=? 0x7f then mret c
  else
    '(v, len, lower_bound) ←
      (if c .& TOP_BITS 3 =? TOP_BITS 2 then mret (c .& BOTTOM_BITS 5, 1%nat, 0x80)
       else if c .& TOP_BITS 4 =? TOP_BITS 3 then mret (c .& BOTTOM_BITS 4, 2%nat, 0x800)
       else if c .& TOP_BITS 5 =? TOP_BITS 4 then mret (c .& BOTTOM_BITS 3, 3%nat, 0x10000)
       else fail);
    v ← utf8_continuation len v;
    _ ← require (negb (negb (is_valid_code_point v) || (v <? lower_bound)));
    mret v.

Definition CBS_get_latin1 : M CBS Z := CBS_get_u8.

Definition CBS_get_ucs2_be : M CBS Z :=
  c ← CBS_get_u16;
  _ ← require (is_valid_code_point c);
  mret c.

Definition CBS_get_utf32_be : M CBS Z :=
  out ← CBS_get_u32;
  _ ← require (is_valid_code_point out);
  mret out.

Definition CBB_get_utf8_len (u : Z) : Z :=
  if u <=? 0x7f then 1 else if u <=? 0x7ff then 2 else if u <=? 0xffff then 3 else 4.

Section write.
Context {A : Allocator}.

Definition CBB_add_utf8 (cbb : loc) (u : Z) : B unit :=
  if negb (is_valid_code_point u) then return0
  else if u <=? 0x7f then CBB_add_u8 cbb (u8 u)
  else if u <=? 0x7ff then
    _ ← CBB_add_u8 cbb (u8 (TOP_BITS 2 .| (u ≫ 6)));
    CBB_add_u8 cbb (u8 (TOP_BITS 1 .| (u .& BOTTOM_BITS 6)))
  else if u <=? 0xffff then
    _ ← CBB_add_u8 cbb (u8 (TOP_BITS 3 .| (u ≫ 12)));
    _ ← CBB_add_u8 cbb (u8 (TOP_BITS 1 .| (u ≫ 6 .& BOTTOM_BITS 6)));
    CBB_add_u8 cbb (u8 (TOP_BITS 1 .| (u .& BOTTOM_BITS 6)))
  else if u <=? 0x10ffff then
    _ ← CBB_add_u8 cbb (u8 (TOP_BITS 4 .| (u ≫ 18)));
    _ ← CBB_add_u8 cbb (u8 (TOP_BITS 1 .| (u ≫ 12 .& BOTTOM_BITS 6)));
    _ ← CBB_add_u8 cbb (u8 (TOP_BITS 1 .| (u ≫ 6 .& BOTTOM_BITS 6)));
    CBB_add_u8 cbb (u8 (TOP_BITS 1 .| (u .& BOTTOM_BITS 6)))
  else return0.

Definition CBB_add_latin1 (cbb : loc) (u : Z) : B unit :=
  _ ← B_require (u <=? 0xff); CBB_add_u8 cbb (u8 u).

Definition CBB_add_ucs2_be (cbb : loc) (u : Z) : B unit :=
  _ ← B_require ((u <=? 0xffff) && is_valid_code_point u); CBB_add_u16 cbb (u16 u).

Definition CBB_add_utf32_be (cbb : loc) (u : Z) : B unit :=
  _ ← B_require (is_valid_code_point u); CBB_add_u32 cbb u.
End write.

Ltac Zify.zify_post_hook ::= Z.to_euclidean_division_equations.

(** ** The encodings, by arithmetic *)

(** [n] continuation bytes hold the [n] low base-64 digits. *)
Definition continuation (n : nat) (v : Z) : list Z := (λ d, 0x80 + d) <$> digits_be 64 n v.

Definition utf8_bytes (u : Z) : list Z :=
  if u <=? 0x7f then [u]
  else if u <=? 0x7ff then 0xc0 + u / 64 :: continuation 1 u
  else if u <=? 0xffff then 0xe0 + u / 64 ^ 2 :: continuation 2 u
  else 0xf0 + u / 64 ^ 3 :: continuation 3 u.

(** Unicode scalar values that are not noncharacters. *)
Definition code_point (v : Z) : Prop :=
  0 <= v <= 0x10ffff ∧ ¬ (0xd800 <= v <= 0xdfff) ∧ ¬ (0xfdd0 <= v <= 0xfdef) ∧ v mod 0x10000 < 0xfffe.

Lemma nonchar_mask v : 0 <= v → (v .& 0xfffe =? 0xfffe) = (0xfffe <=? v mod 0x10000).
Proof.
  intros Hv. assert (E : v .& 0xfffe = (v mod 0x10000) / 2 * 2).
  { apply Z.bits_inj'. intros i Hi. rewrite Z.land_spec. change 2 with (2 ^ 1) at 2. rewrite <- Z.shiftl_mul_pow2 by lia.
    change 2 with (2 ^ 1). rewrite <- Z.shiftr_div_pow2 by lia.
    change (v mod 0x10000) with (wrap 16 v). autorewrite with bits. destruct (Z.leb_spec 0 i); [|lia].
    change 0xfffe with (Z.ones 15 * 2 ^ 1). rewrite Z.mul_pow2_bits by lia. cbn [andb].
    destruct (Z.leb_spec 0 (i - 1)); cbn [andb].
    - replace (i - 1 + 1) with i by lia. rewrite Z.testbit_ones_nonneg by lia.
      rewrite andb_comm. f_equal. destruct (Z.ltb_spec (i - 1) 15), (Z.ltb_spec i 16); lia.
    - rewrite (Z.testbit_neg_r _ (i - 1)) by lia. apply andb_false_r. }
  rewrite E. pose proof (Z.mod_pos_bound v 0x10000 ltac:(lia)).
  generalize dependent (v mod 0x10000). intros m _ Hm. pose proof (Z.div_mod m 2 ltac:(lia)). pose proof (Z.mod_pos_bound m 2 ltac:(lia)).
  destruct (Z.eqb_spec (m / 2 * 2) 0xfffe), (Z.leb_spec 0xfffe m); try done; exfalso; lia.
Qed.

Lemma is_valid_code_point_iff v : 0 <= v → is_valid_code_point v = true ↔ code_point v.
Proof.
  intros Hv. unfold is_valid_code_point, code_point. rewrite nonchar_mask by done.
  rewrite negb_true_iff, !orb_false_iff, !andb_false_iff, Z.gtb_ltb, !Z.geb_leb, !Z.leb_gt, Z.ltb_ge. lia.
Qed.

Lemma byte_classes c : is_byte c →
  (c .& TOP_BITS 3 =? TOP_BITS 2) = ((192 <=? c) && (c <? 224)) ∧
  (c .& TOP_BITS 4 =? TOP_BITS 3) = ((224 <=? c) && (c <? 240)) ∧
  (c .& TOP_BITS 5 =? TOP_BITS 4) = ((240 <=? c) && (c <? 248)) ∧
  (c .& TOP_BITS 2 =? TOP_BITS 1) = ((128 <=? c) && (c <? 192)) ∧
  c .& BOTTOM_BITS 5 = c mod 32 ∧ c .& BOTTOM_BITS 4 = c mod 16 ∧ c .& BOTTOM_BITS 3 = c mod 8 ∧
  c .& BOTTOM_BITS 6 = c mod 64.
Proof.
  intros Hc. split_and!; [apply eqb_prop..|apply (Z.land_ones c 5); lia|apply (Z.land_ones c 4); lia
    |apply (Z.land_ones c 3); lia|apply (Z.land_ones c 6); lia];
    revert c Hc; apply (forallb_seqZ (λ c, eqb _ _) 0 256); by vm_compute.
Qed.

Lemma continuation_cons n v :
  continuation (S n) v = 0x80 + (v / 64 ^ Z.of_nat n) mod 64 :: continuation n v.
Proof. unfold continuation. by rewrite digits_be_cons by lia. Qed.

Lemma utf8_continuation_iff n v cbs r rest :
  bytes_ok cbs → 0 <= v → (v + 1) * 64 ^ Z.of_nat n <= 2 ^ 32 →
  utf8_continuation n v cbs = (Some r, rest) ↔
  r / 64 ^ Z.of_nat n = v ∧ 0 <= r ∧ cbs = continuation n r ++ rest.
Proof.
  revert v cbs. induction n as [|n IH]; intros v cbs Hb Hv Hlim.
  - rewrite Z.pow_0_r, Z.div_1_r. split; [by intros [= -> ->]|by intros (-> & _ & ->)].
  - cbn [utf8_continuation]. pose proof (pow_B_pos 64 ltac:(lia) n) as Hp.
    rewrite Nat2Z.inj_succ, Z.pow_succ_r in * by lia.
    destruct cbs as [|c cbs]; [rewrite continuation_cons; by split; [|intros (_ & _ & ?)]|].
    apply Forall_cons in Hb as [Hc Hb]. erewrite M_bind_Some by apply CBS_get_u8_cons.
    destruct (byte_classes c Hc) as (_ & _ & _ & -> & _ & _ & _ & ->).
    assert (E : v ≪[32] 6 .| c mod 64 = v * 64 + c mod 64).
    { rewrite wrap_small by (rewrite Z.shiftl_mul_pow2; nia). apply lor_shiftl_add; [lia|]. apply Z.mod_pos_bound; lia. }
    rewrite E, continuation_cons. pose proof (Z.mod_pos_bound c 64 ltac:(lia)).
    assert (IH' := IH (v * 64 + c mod 64) cbs Hb ltac:(lia) ltac:(nia)).
    rewrite (Z.mul_comm 64), <- Z.div_div by lia. pose proof (Z.mod_pos_bound (r / 64 ^ Z.of_nat n) 64 ltac:(lia)).
    pose proof (Z.div_mod (r / 64 ^ Z.of_nat n) 64 ltac:(lia)).
    destruct (Z.leb_spec 128 c), (Z.ltb_spec c 192); cbn [andb]; run_step;
      [|split; [done|intros (? & ? & [= ? ?]); lia]..].
    rewrite IH'. clear IH IH' Hlim Hp E. split.
    + intros (Hr & ? & ->). rewrite Hr in *. split_and!; [lia|done|]. cbn [app]. f_equal. lia.
    + intros (Hr & ? & [= Hc' ->]). split_and!; [|done|done]. lia.
Qed.

Lemma get_utf8_iff cbs u rest :
  bytes_ok cbs → CBS_get_utf8 cbs = (Some u, rest) ↔ code_point u ∧ cbs = utf8_bytes u ++ rest.
Proof.
  intros Hb. unfold CBS_get_utf8. destruct cbs as [|c cbs].
  { split; [done|]. intros [_ H]. unfold utf8_bytes in H. by repeat case_match. }
  apply Forall_cons in Hb as [Hc Hb]. erewrite M_bind_Some by apply CBS_get_u8_cons.
  destruct (byte_classes c Hc) as (-> & -> & -> & _ & -> & -> & -> & _).
  assert (Hfin : ∀ v n lb, 0 <= v → (v + 1) * 64 ^ Z.of_nat n <= 2 ^ 32 →
    (x ← utf8_continuation n v; _ ← require (negb (negb (is_valid_code_point x) || (x <? lb))); mret x) cbs = (Some u, rest) ↔
    code_point u ∧ lb <= u ∧ u / 64 ^ Z.of_nat n = v ∧ cbs = continuation n u ++ rest).
  { intros v n lb Hv Hlim. split.
    - intros (x & s & H & H')%M_bind_inv. apply M_bind_inv in H' as ([] & s' & [Hr ->]%require_inv & H'). injection H' as -> ->.
      apply utf8_continuation_iff in H as (? & ? & ?); [|done..].
      apply negb_true_iff, orb_false_iff in Hr as [Hcp%negb_false_iff ?%Z.ltb_ge].
      apply is_valid_code_point_iff in Hcp; done.
    - intros (Hcp & Hlb & Hu & Hcbs). erewrite M_bind_Some.
      2: { apply utf8_continuation_iff; [done..|]. split_and!; [done|apply Hcp|done]. }
      apply is_valid_code_point_iff in Hcp as ->; [|apply Hcp]. destruct (Z.ltb_spec u lb); [lia|]. done. }
  unfold utf8_bytes, code_point in *.
  destruct (Z.leb_spec c 0x7f); [|destruct (Z.leb_spec 192 c), (Z.ltb_spec c 224), (Z.leb_spec 224 c), (Z.ltb_spec c 240),
    (Z.leb_spec 240 c), (Z.ltb_spec c 248); try lia; cbn [andb]]; run_step.
  - split; [intros [= -> ->]|intros (Hu & Heq)].
    + split; [|destruct (Z.leb_spec u 0x7f); [done|lia]]. rewrite Z.mod_small by lia. lia.
    + repeat case_match; injection Heq as -> ->; try done; exfalso; lia.
  - etrans; [apply (Hfin (c mod 32) 1%nat); lia|]. split.
    + intros (? & ? & ? & ->). split; [done|]. destruct (Z.leb_spec u 0x7f); [lia|]. destruct (Z.leb_spec u 0x7ff); [|lia].
      cbn [app]. f_equal. lia.
    + intros (? & Heq). destruct (Z.leb_spec u 0x7f); [injection Heq; lia|]. destruct (Z.leb_spec u 0x7ff).
      * injection Heq as ? ->. split_and!; done || lia.
      * exfalso. repeat case_match; injection Heq as ? ?; lia.
  - etrans; [apply (Hfin (c mod 16) 2%nat); lia|]. change (64 ^ Z.of_nat 2) with 4096. change (64 ^ 2) with 4096. split.
    + intros (? & ? & ? & ->). split; [done|]. destruct (Z.leb_spec u 0x7f); [lia|]. destruct (Z.leb_spec u 0x7ff); [lia|].
      destruct (Z.leb_spec u 0xffff); [|lia]. cbn [app]. f_equal. lia.
    + intros (? & Heq). destruct (Z.leb_spec u 0x7f); [injection Heq; lia|]. destruct (Z.leb_spec u 0x7ff).
      * exfalso. injection Heq as ? ?; lia.
      * destruct (Z.leb_spec u 0xffff); [injection Heq as ? ->; split_and!; done || lia|].
        exfalso. change (64 ^ 3) with 262144 in Heq. injection Heq as ? ?; lia.
  - etrans; [apply (Hfin (c mod 8) 3%nat); lia|]. change (64 ^ Z.of_nat 3) with 262144. change (64 ^ 3) with 262144. change (64 ^ 2) with 4096. split.
    + intros (? & ? & ? & ->). split; [done|]. destruct (Z.leb_spec u 0x7f); [lia|]. destruct (Z.leb_spec u 0x7ff); [lia|].
      destruct (Z.leb_spec u 0xffff); [lia|]. cbn [app]. f_equal. lia.
    + intros (? & Heq). destruct (Z.leb_spec u 0x7f); [injection Heq; lia|]. destruct (Z.leb_spec u 0x7ff).
      * exfalso. injection Heq as ? ?; lia.
      * destruct (Z.leb_spec u 0xffff); [exfalso; injection Heq as ? ?; lia|].
        injection Heq as ? ->. split_and!; done || lia.
  - split; [done|]. intros (? & Heq). exfalso. change (64 ^ 3) with 262144 in Heq. change (64 ^ 2) with 4096 in Heq.
    repeat case_match; injection Heq as ? ?; lia.
  - split; [done|]. intros (? & Heq). exfalso. change (64 ^ 3) with 262144 in Heq. change (64 ^ 2) with 4096 in Heq.
    repeat (match goal with H : context [if ?a <=? ?b then _ else _] |- _ => destruct (Z.leb_spec a b) end); injection Heq as ? ?; lia.
Qed.

(** ** Writing *)
Lemma continuation_byte u k : 0 <= u → 0 <= k → u8 (TOP_BITS 1 .| (u ≫ k .& BOTTOM_BITS 6)) = 0x80 + (u / 2 ^ k) mod 64.
Proof.
  intros Hu Hk. change (BOTTOM_BITS 6) with (Z.ones 6). change (TOP_BITS 1) with (2 * 2 ^ 6).
  rewrite Z.land_ones, Z.shiftr_div_pow2 by lia. pose proof (Z.mod_pos_bound (u / 2 ^ k) (2 ^ 6) ltac:(lia)).
  rewrite lor_mul_add, wrap_small by lia. done.
Qed.

Lemma lead_byte u t x k : 0 <= u → 0 <= t → 0 <= k → u / 2 ^ k < 2 ^ t → (x + 1) * 2 ^ t <= 2 ^ 8 → 0 <= x →
  u8 (x * 2 ^ t .| (u ≫ k)) = x * 2 ^ t + u / 2 ^ k.
Proof.
  intros Hu Ht Hk Hlt Hx H0. rewrite Z.shiftr_div_pow2 by lia.
  assert (0 <= u / 2 ^ k) by (apply Z.div_pos; [lia|apply Z.pow_pos_nonneg; lia]).
  rewrite lor_mul_add by lia. apply wrap_small. split; [nia|]. change (2 ^ 8) with 256 in *. nia.
Qed.

Lemma continuation_ok n v : Forall (λ b, 128 <= b < 192) (continuation n v).
Proof.
  unfold continuation. apply Forall_fmap. eapply Forall_impl; [apply (digits_be_ok 64); lia|].
  unfold is_digit. cbn. lia.
Qed.

Lemma CBB_get_utf8_len_spec u : CBS_len (utf8_bytes u) = CBB_get_utf8_len u.
Proof. unfold utf8_bytes, CBB_get_utf8_len. by repeat case_match. Qed.

Section theorems.
Context {A : Allocator}.

Lemma appends_u8s X l a b xs m :
  is_byte a → appends (T := unit) X m l (Some xs) → b = a → appends X (_ ← CBB_add_u8 l b; m) l (Some (a :: xs)).
Proof. intros Ha Hm ->. exact (appends_seq X _ _ l [a] (Some xs) (appends_add_u8 X l a Ha) (λ _, Hm)). Qed.

Lemma appends_u8_last X l a b : is_byte a → b = a → appends X (CBB_add_u8 l b) l (Some [a]).
Proof. intros Ha ->. by apply appends_add_u8. Qed.

Lemma appends_add_utf8 X l u : code_point u → appends X (CBB_add_utf8 l u) l (Some (utf8_bytes u)).
Proof.
  intros Hu. unfold CBB_add_utf8, utf8_bytes. pose proof (proj1 Hu) as Hr.
  apply is_valid_code_point_iff in Hu; [|lia]. rewrite Hu. cbn [negb].
  pose proof (λ n, continuation_ok n u) as Hok.
  destruct (Z.leb_spec u 0x7f); [apply appends_u8_last; [lia|apply wrap_small; lia]|].
  destruct (Z.leb_spec u 0x7ff); [|destruct (Z.leb_spec u 0xffff)].
  - specialize (Hok 1%nat). rewrite continuation_cons in *. apply Forall_cons in Hok as [Hb0 _]. cbn -[Z.div Z.modulo Z.pow Z.add] in *.
    apply appends_u8s; [lia|apply appends_u8_last; [lia|]|].
    + rewrite <- (Z.shiftr_0_r u) at 1. by rewrite continuation_byte by lia.
    + change (TOP_BITS 2) with (6 * 2 ^ 5). by rewrite lead_byte by lia.
  - specialize (Hok 2%nat). rewrite !continuation_cons in *. do 2 (apply Forall_cons in Hok as [? Hok]).
    apply appends_u8s; [|apply appends_u8s; [lia|apply appends_u8_last; [lia|]|]|].
    + lia.
    + rewrite <- (Z.shiftr_0_r u) at 1. by rewrite continuation_byte by lia.
    + by rewrite continuation_byte by lia.
    + change (TOP_BITS 3) with (14 * 2 ^ 4). by rewrite lead_byte by lia.
  - specialize (Hok 3%nat). rewrite !continuation_cons in *. do 3 (apply Forall_cons in Hok as [? Hok]).
    destruct (Z.leb_spec u 0x10ffff); [|lia].
    apply appends_u8s; [|apply appends_u8s; [lia|apply appends_u8s; [lia|apply appends_u8_last; [lia|]|]|]|].
    + lia.
    + rewrite <- (Z.shiftr_0_r u) at 1. by rewrite continuation_byte by lia.
    + by rewrite continuation_byte by lia.
    + by rewrite continuation_byte by lia.
    + change (TOP_BITS 4) with (30 * 2 ^ 3). by rewrite lead_byte by lia.
Qed.

(** C30: reading UTF-8.  [CBS_get_utf8] accepts exactly the shortest-form UTF-8
    encodings of the Unicode scalar values that are not noncharacters, and
    consumes exactly the encoding. *)
Theorem CBS_get_utf8_iff (cbs : CBS) (u : Z) (rest : CBS) (Hb : bytes_ok cbs) :
  CBS_get_utf8 cbs = (Some u, rest) ↔ code_point u ∧ cbs = utf8_bytes u ++ rest.
Proof. by apply get_utf8_iff. Qed.

Lemma require_eq {T} b (m : B T) w : b = true → m w = (_ ← B_require b; m) w.
Proof. by intros ->. Qed.
Lemma require_fail {T} b (m : B T) w : b = false → (_ ← B_require b; m) w = Fail w.
Proof. by intros ->. Qed.

(** The string writers.  Each appends exactly the encoding of the code
    point ([CBB_get_utf8_len] bytes for UTF-8); a value that is no code point,
    or is outside the encoding's range, is refused before anything is
    touched. *)
Theorem unicode_writers (l : loc) (u : Z) (Hu : in_range 32 u) :
  (code_point u → appends [] (CBB_add_utf8 l u) l (Some (utf8_bytes u)) ∧
                  CBS_len (utf8_bytes u) = CBB_get_utf8_len u ∧
                  appends [] (CBB_add_utf32_be l u) l (Some (be_bytes 4 u)) ∧
                  (u <= 0xffff → appends [] (CBB_add_ucs2_be l u) l (Some (be_bytes 2 u)))) ∧
  (u <= 0xff → appends [] (CBB_add_latin1 l u) l (Some [u])) ∧
  (∀ w, ¬ code_point u → CBB_add_utf8 l u w = Fail w ∧ CBB_add_utf32_be l u w = Fail w ∧
                         CBB_add_ucs2_be l u w = Fail w) ∧
  (∀ w, 0xffff < u → CBB_add_ucs2_be l u w = Fail w) ∧
  (∀ w, 0xff < u → CBB_add_latin1 l u w = Fail w).
Proof.
  assert (Hadd : ∀ n, (n ≤ 8)%nat → u < 256 ^ Z.of_nat n → appends [] (cbb_add_u l u (Z.of_nat n)) l (Some (be_bytes n u))).
  { intros n Hn Hv. pose proof (appends_add_u [] l u n Hn ltac:(lia)) as H.
    by destruct (Z.ltb_spec u (256 ^ Z.of_nat n)); [|lia]. }
  split_and!.
  - intros Hc. pose proof (proj2 (is_valid_code_point_iff u ltac:(lia)) Hc) as E.
    split_and!; [by apply appends_add_utf8|apply CBB_get_utf8_len_spec| |].
    + eapply appends_eq; [intros; by apply require_eq|]. apply (Hadd 4%nat); lia.
    + intros. eapply appends_eq; [intros; apply require_eq; rewrite E, andb_true_r; apply Z.leb_le; lia|].
      rewrite wrap_small by lia. apply (Hadd 2%nat); lia.
  - intros. eapply appends_eq; [intros; apply require_eq; apply Z.leb_le; lia|].
    rewrite wrap_small by lia. apply appends_add_u8. lia.
  - intros w Hc. assert (E : is_valid_code_point u = false).
    { apply not_true_is_false. intros E. by apply Hc, is_valid_code_point_iff; [lia|]. }
    split_and!; [by unfold CBB_add_utf8; rewrite E|by apply require_fail|].
    apply require_fail. by rewrite E, andb_false_r.
  - intros w ?. apply require_fail. apply andb_false_intro1, Z.leb_gt. lia.
  - intros w ?. apply require_fail, Z.leb_gt. lia.
Qed.
End theorems.

(** Reading Latin-1, UCS-2 and UTF-32.  Latin-1 takes any byte; the other
    two accept exactly the big-endian code points of two and four bytes (so
    UCS-2 refuses surrogates). *)
Theorem unicode_fixed_width_iff (cbs : CBS) (u : Z) (rest : CBS) (Hb : bytes_ok cbs) :
  (CBS_get_latin1 cbs = (Some u, rest) ↔ cbs = u :: rest) ∧
  (CBS_get_ucs2_be cbs = (Some u, rest) ↔ code_point u ∧ u <= 0xffff ∧ cbs = be_bytes 2 u ++ rest) ∧
  (CBS_get_utf32_be cbs = (Some u, rest) ↔ code_point u ∧ cbs = be_bytes 4 u ++ rest).
Proof.
  split_and!.
  - unfold CBS_get_latin1. destruct cbs as [|c cbs]; [by split|]. rewrite CBS_get_u8_cons. split; congruence.
  - unfold CBS_get_ucs2_be, CBS_get_u16. split.
    + intros (x & s & H & H')%M_bind_inv. apply M_bind_inv in H' as ([] & s' & [Hr ->]%require_inv & H'). injection H' as -> ->.
      apply M_bind_inv in H as (v & s & H & H'). injection H' as <- ->.
      apply cbs_get_u_inv in H as (l & -> & Hl & Hlb & -> & _); [|done|lia].
      pose proof (val_be_range 256 ltac:(lia) l Hlb) as Hv. assert (length l = 2%nat) as E by (unfold CBS_len in Hl; lia).
      rewrite E in Hv. rewrite wrap_small in * by lia. apply is_valid_code_point_iff in Hr; [|lia].
      split_and!; [done|lia|]. rewrite <- E, digits_val_be by (done || lia). done.
    + intros (Hc & Hle & ->). pose proof (proj1 Hc). erewrite M_bind_Some.
      2: { erewrite M_bind_Some by (apply (get_u_be_bytes 2); lia). reflexivity. }
      rewrite wrap_small by lia. apply is_valid_code_point_iff in Hc as ->; [done|lia].
  - unfold CBS_get_utf32_be, CBS_get_u32. split.
    + intros (x & s & H & H')%M_bind_inv. apply M_bind_inv in H' as ([] & s' & [Hr ->]%require_inv & H'). injection H' as -> ->.
      apply M_bind_inv in H as (v & s & H & H'). injection H' as <- ->.
      apply cbs_get_u_inv in H as (l & -> & Hl & Hlb & -> & _); [|done|lia].
      pose proof (val_be_range 256 ltac:(lia) l Hlb) as Hv. assert (length l = 4%nat) as E by (unfold CBS_len in Hl; lia).
      rewrite E in Hv. rewrite wrap_small in * by lia. apply is_valid_code_point_iff in Hr; [|lia].
      split_and!; [done|]. rewrite <- E, digits_val_be by (done || lia). done.
    + intros (Hc & ->). pose proof (proj1 Hc). erewrite M_bind_Some.
      2: { erewrite M_bind_Some by (apply (get_u_be_bytes 4); lia). reflexivity. }
      rewrite wrap_small by lia. apply is_valid_code_point_iff in Hc as ->; [done|lia].
Qed.

(** U+20AC in UTF-8, and U+20AC in UCS-2. *)
Lemma CBS_get_utf8_iff_witness : CBS_get_utf8 [0xe2; 0x82; 0xac; 0x41] = (Some 0x20ac, [0x41]).
Proof.
  apply CBS_get_utf8_iff; [by apply (bool_decide_unpack _)|]. split; [unfold code_point; lia|by vm_compute].
Defined.

Lemma unicode_writers_witness : appends (A := zero_allocator) [] (CBB_add_utf8 (A := zero_allocator) 0%nat 0x1f600) 0%nat (Some [0xf0; 0x9f; 0x98; 0x80]).
Proof.
  exact (proj1 (proj1 (unicode_writers (A := zero_allocator) 0%nat 0x1f600 ltac:(lia))
    (proj1 (is_valid_code_point_iff 0x1f600 ltac:(lia)) eq_refl))).
Defined.

Lemma unicode_fixed_width_iff_witness : CBS_get_ucs2_be [0x20; 0xac; 0x41] = (Some 0x20ac, [0x41]).
Proof.
  apply (unicode_fixed_width_iff [0x20; 0xac; 0x41] 0x20ac [0x41]); [by apply (bool_decide_unpack _)|].
  split_and!; [unfold code_point; lia|lia|by vm_compute].
Defined.
