(* ===== verification/PosixTime.v ===== *)
(** Calendar arithmetic of [crypto/asn1/posix_time.c]: between the seconds of
    POSIX time and the fields of [struct tm], in UTC, for the years 0 to
    9999.  C division truncates: [Z.quot] and [Z.rem]. *)
From S2P Require Import Prelude.

Ltac Zify.zify_post_hook ::= Z.to_euclidean_division_equations.

Definition INT64_MAX : Z := 2 ^ 63 - 1.
Definition INT64_MIN : Z := - 2 ^ 63.
(** A value of [int64_t]; [None] is signed overflow (undefined behaviour). *)
Definition i64 (x : Z) : option Z := if (INT64_MIN <=? x) && (x <=? INT64_MAX) then Some x else None.
(** The conversion [(int)x]. *)
Definition int_of (x : Z) : Z := (x + 2 ^ 31) mod 2 ^ 32 - 2 ^ 31.

Definition SECS_PER_HOUR : Z := 60 * 60.
Definition SECS_PER_DAY : Z := 24 * SECS_PER_HOUR.

Record tm := mkTm {
  tm_sec : Z; tm_min : Z; tm_hour : Z; tm_mday : Z; tm_mon : Z; tm_year : Z;
  tm_wday : Z; tm_yday : Z; tm_isdst : Z;
}.

Definition is_valid_date (year month day : Z) : bool :=
  if (day <? 1) || (month <? 1) || (year <? 0) || (year >? 9999) then false
  else if (month =? 1) || (month =? 3) || (month =? 5) || (month =? 7) || (month =? 8) || (month =? 10) || (month =? 12)
    then (day >? 0) && (day <=? 31)
  else if (month =? 4) || (month =? 6) || (month =? 9) || (month =? 11) then (day >? 0) && (day <=? 30)
  else if month =? 2 then
    if ((Z.rem year 4 =? 0) && negb (Z.rem year 100 =? 0)) || (Z.rem year 400 =? 0) then (day >? 0) && (day <=? 29)
    else (day >? 0) && (day <=? 28)
  else false.

Definition is_valid_time (hours minutes seconds : Z) : bool :=
  if (hours <? 0) || (minutes <? 0) || (seconds <? 0) || (hours >? 23) || (minutes >? 59) || (seconds >? 59)
  then false else true.

Definition MIN_POSIX_TIME : Z := -62167219200.
Definition MAX_POSIX_TIME : Z := 253402300799.

Definition is_valid_posix_time (time : Z) : bool := (MIN_POSIX_TIME <=? time) && (time <=? MAX_POSIX_TIME).

Definition posix_time_from_utc (year month day hours minutes seconds : Z) : option Z :=
  if negb (is_valid_date year month day) || negb (is_valid_time hours minutes seconds) then None
  else
    let year := if month <=? 2 then year - 1 else year in
    let era := Z.quot (if year >=? 0 then year else year - 399) 400 in
    let year_of_era := year - era * 400 in
    let day_of_year := Z.quot (153 * (if month >? 2 then month - 3 else month + 9) + 2) 5 + day - 1 in
    let day_of_era := year_of_era * 365 + Z.quot year_of_era 4 - Z.quot year_of_era 100 + day_of_year in
    let posix_days := era * 146097 + day_of_era - 719468 in
    Some (posix_days * SECS_PER_DAY + hours * SECS_PER_HOUR + minutes * 60 + seconds).

(** [*out_year], [*out_month], [*out_day], [*out_hours], [*out_minutes],
    [*out_seconds]. *)
Definition utc_from_posix_time (time : Z) : option (Z * Z * Z * Z * Z * Z) :=
  if negb (is_valid_posix_time time) then None
  else
    let days := Z.quot time SECS_PER_DAY in
    let leftover_seconds := Z.rem time SECS_PER_DAY in
    let '(days, leftover_seconds) :=
      if leftover_seconds <? 0 then (days - 1, leftover_seconds + SECS_PER_DAY) else (days, leftover_seconds) in
    let days := days + 719468 in
    let era := Z.quot (if days >? 0 then days else days - 146096) 146097 in
    let day_of_era := days - era * 146097 in
    let year_of_era := Z.quot (day_of_era - Z.quot day_of_era 1460 + Z.quot day_of_era 36524 -
                               Z.quot day_of_era 146096) 365 in
    let year := int_of (year_of_era + era * 400) in
    let day_of_year := day_of_era - (365 * year_of_era + Z.quot year_of_era 4 - Z.quot year_of_era 100) in
    let month_of_year := Z.quot (5 * day_of_year + 2) 153 in
    let month := int_of (if month_of_year <? 10 then month_of_year + 3 else month_of_year - 9) in
    let year := if month <=? 2 then year + 1 else year in
    let day := int_of (day_of_year - Z.quot (153 * month_of_year + 2) 5 + 1) in
    let hours := int_of (Z.quot leftover_seconds SECS_PER_HOUR) in
    let leftover_seconds := Z.rem leftover_seconds SECS_PER_HOUR in
    Some (year, month, day, hours, int_of (Z.quot leftover_seconds 60), int_of (Z.rem leftover_seconds 60)).

Definition OPENSSL_tm_to_posix (t : tm) : option Z :=
  posix_time_from_utc (tm_year t + 1900) (tm_mon t + 1) (tm_mday t) (tm_hour t) (tm_min t) (tm_sec t).

Definition OPENSSL_posix_to_tm (time : Z) : option tm :=
  '(year, month, day, hours, minutes, seconds) ← utc_from_posix_time time;
  Some (mkTm seconds minutes hours day (month - 1) (year - 1900) 0 0 0).

(** [sizeof_time_t] is 4 or 8. *)
Definition OPENSSL_timegm (sizeof_time_t : Z) (t : tm) : option Z :=
  posix_time ← OPENSSL_tm_to_posix t;
  if (sizeof_time_t =? 4) && ((posix_time >? 2 ^ 31 - 1) || (posix_time <? - 2 ^ 31)) then None
  else Some posix_time.

Definition OPENSSL_gmtime (time : Z) : option tm := OPENSSL_posix_to_tm time.

(** [None] is undefined behaviour; [Some None] returns 0 and leaves [*tm];
    [Some (Some t)] returns 1 with [*tm] set to [t]. *)
Definition OPENSSL_gmtime_adj (t : tm) (offset_day offset_sec : Z) : option (option tm) :=
  match OPENSSL_tm_to_posix t with
  | None => Some None
  | Some posix_time =>
      offset ← i64 (offset_day * SECS_PER_DAY);
      posix_time ← i64 (posix_time + offset);
      if (posix_time >? 0) && (offset_sec >? INT64_MAX - posix_time) then Some None
      else if (posix_time <? 0) && (offset_sec <? INT64_MIN - posix_time) then Some None
      else posix_time ← i64 (posix_time + offset_sec); Some (OPENSSL_posix_to_tm posix_time)
  end.

(** [*out_days] and [*out_secs]. *)
Definition OPENSSL_gmtime_diff (from to : tm) : option (Z * Z) :=
  time_to ← OPENSSL_tm_to_posix to;
  time_from ← OPENSSL_tm_to_posix from;
  let timediff := time_to - time_from in
  let daydiff := Z.quot timediff SECS_PER_DAY in
  let timediff := Z.rem timediff SECS_PER_DAY in
  Some (int_of daydiff, int_of timediff).

(** ** The proleptic Gregorian calendar *)
Definition leap (y : Z) : bool := ((y mod 4 =? 0) && negb (y mod 100 =? 0)) || (y mod 400 =? 0).

(** The lengths of the months. *)
Definition months (y : Z) : list Z := [31; if leap y then 29 else 28; 31; 30; 31; 30; 31; 31; 30; 31; 30; 31].
Definition sum (l : list Z) : Z := foldr Z.add 0 l.
(** The days of the years 0, ..., [n - 1]. *)
Fixpoint days_of_years (n : nat) : Z :=
  match n with O => 0 | S n => days_of_years n + sum (months (Z.of_nat n)) end.

Definition civil_date (y m d : Z) : Prop :=
  0 <= y <= 9999 ∧ 1 <= m <= 12 ∧ 1 <= d <= nth (Z.to_nat (m - 1)) (months y) 0.
Definition clock_time (h mi s : Z) : Prop := 0 <= h <= 23 ∧ 0 <= mi <= 59 ∧ 0 <= s <= 59.

(** Days since 0000-01-01; 1970-01-01 is day 719528. *)
Definition day_number (y m d : Z) : Z :=
  days_of_years (Z.to_nat y) + sum (take (Z.to_nat (m - 1)) (months y)) + (d - 1).
Definition posix_seconds (y m d h mi s : Z) : Z :=
  (day_number y m d - day_number 1970 1 1) * 86400 + h * 3600 + mi * 60 + s.

(** The leap years 1, ..., [y]. *)
Definition leaps (y : Z) : Z := y / 4 - y / 100 + y / 400.

Lemma leaps_step y : leaps y = leaps (y - 1) + (if leap y then 1 else 0).
Proof.
  unfold leaps, leap.
  destruct (Z.eqb_spec (y mod 4) 0), (Z.eqb_spec (y mod 100) 0), (Z.eqb_spec (y mod 400) 0); cbn [andb orb negb]; lia.
Qed.

Lemma days_of_years_closed n : days_of_years n = 365 * Z.of_nat n + leaps (Z.of_nat n - 1) + 1.
Proof.
  induction n as [|n IH]; [done|]. cbn [days_of_years] in *. rewrite IH.
  assert (E : sum (months (Z.of_nat n)) = if leap (Z.of_nat n) then 366 else 365) by (unfold months; by destruct (leap _)).
  rewrite E, Nat2Z.inj_succ. replace (Z.succ (Z.of_nat n) - 1) with (Z.of_nat n) by lia.
  rewrite (leaps_step (Z.of_nat n)). destruct (leap _); lia.
Qed.

Lemma rem_leap y : 0 <= y → ((Z.rem y 4 =? 0) && negb (Z.rem y 100 =? 0)) || (Z.rem y 400 =? 0) = leap y.
Proof. intros. unfold leap. by rewrite !Z.rem_mod_nonneg by lia. Qed.

Ltac lit_to_nat :=
  match goal with |- context [Z.to_nat ?e] => let k := eval vm_compute in (Z.to_nat e) in change (Z.to_nat e) with k end.

(** Case analysis on the month. *)
Lemma month_cases (P : Z → Prop) :
  P 1 → P 2 → P 3 → P 4 → P 5 → P 6 → P 7 → P 8 → P 9 → P 10 → P 11 → P 12 → ∀ m, 1 <= m <= 12 → P m.
Proof.
  intros. assert (m = 1 ∨ m = 2 ∨ m = 3 ∨ m = 4 ∨ m = 5 ∨ m = 6 ∨ m = 7 ∨ m = 8 ∨ m = 9 ∨ m = 10 ∨ m = 11 ∨ m = 12) as Hm by lia.
  naive_solver.
Qed.

Lemma is_valid_date_iff y m d : is_valid_date y m d = true ↔ civil_date y m d.
Proof.
  unfold is_valid_date, civil_date.
  destruct (Z.ltb_spec d 1), (Z.ltb_spec m 1), (Z.ltb_spec y 0), (Z.gtb_spec y 9999); cbn [orb];
    try (split; [done|intros (? & ? & ?); lia]).
  rewrite rem_leap by lia. destruct (Z.le_gt_cases m 12).
  - assert (Hm : 1 <= m <= 12) by lia. clear H0 H3. revert m Hm. apply month_cases;
      lit_to_nat;
      cbn [nth months Z.eqb Pos.eqb orb andb]; try destruct (leap y); rewrite andb_true_iff, Z.gtb_lt, Z.leb_le; lia.
  - repeat match goal with |- context [m =? ?k] => destruct (Z.eqb_spec m k); [lia|] end. cbn [orb].
    split; [done|intros (? & ? & ?); lia].
Qed.

Lemma is_valid_time_iff h mi s : is_valid_time h mi s = true ↔ clock_time h mi s.
Proof.
  unfold is_valid_time, clock_time.
  destruct (Z.ltb_spec h 0), (Z.ltb_spec mi 0), (Z.ltb_spec s 0), (Z.gtb_spec h 23), (Z.gtb_spec mi 59), (Z.gtb_spec s 59);
    cbn [orb]; split; (done || lia).
Qed.

(** ** Years that start on March 1

    The code counts days from 0000-03-01.  [march_year], [march_month] and
    [march_day] are the date in that calendar. *)
Definition march_year (y m : Z) : Z := if m <=? 2 then y - 1 else y.
Definition march_month (m : Z) : Z := if m >? 2 then m - 3 else m + 9.
Definition march_day (m d : Z) : Z := (153 * march_month m + 2) / 5 + d - 1.
(** The days before March 1 of [y]. *)
Definition march_start (y : Z) : Z := 365 * y + leaps y.

Lemma day_number_march y m d : civil_date y m d →
  day_number y m d = march_start (march_year y m) + march_day m d + 60 ∧
  -1 <= march_year y m ∧ 0 <= march_day m d ∧ march_start (march_year y m) + march_day m d < march_start (march_year y m + 1).
Proof.
  intros (Hy & Hm & Hd). unfold day_number. rewrite days_of_years_closed, Z2Nat.id by lia.
  pose proof (leaps_step y) as Hleap. pose proof (leaps_step (y + 1)) as Hnext. rewrite Z.add_simpl_r in Hnext.
  unfold march_start, march_year, march_day, march_month in *.
  revert m Hm Hd. refine (month_cases _ _ _ _ _ _ _ _ _ _ _ _ _); lit_to_nat; cbn [nth months take sum foldr Z.leb Z.gtb Z.compare Pos.compare Pos.compare_cont];
    intros Hd; rewrite ?Z.sub_add; destruct (leap y), (leap (y + 1)); lia.
Qed.

Lemma day_number_epoch : day_number 1970 1 1 = 719528.
Proof. unfold day_number. rewrite days_of_years_closed. done. Qed.

(** A 400-year era is 146097 days. *)
Lemma march_start_era y : march_start y = 146097 * (y / 400) + march_start (y mod 400).
Proof. unfold march_start, leaps. lia. Qed.

Lemma march_start_mono a b : a <= b → march_start a <= march_start b.
Proof. unfold march_start, leaps. lia. Qed.

(** The expression that recovers the year of an era from its day. *)
Definition era_year (doe : Z) : Z := (doe - doe / 1460 + doe / 36524 - doe / 146096) / 365.

Lemma era_year_mono a b : 0 <= a <= b → b <= 146096 → era_year a <= era_year b.
Proof. intros. unfold era_year. apply Z.div_le_mono; lia. Qed.

Lemma era_year_spec k doe : 0 <= k < 400 → march_start k <= doe < march_start (k + 1) → era_year doe = k.
Proof.
  intros Hk Hd.
  assert (H : (era_year (march_start k) =? k) && (era_year (march_start (k + 1) - 1) =? k) && (march_start (k + 1) <=? 146097) &&
              (0 <=? march_start k) = true).
  { revert k Hk Hd. intros k Hk _. revert k Hk.
    apply (forallb_seqZ (λ k, (era_year (march_start k) =? k) && (era_year (march_start (k + 1) - 1) =? k) &&
      (march_start (k + 1) <=? 146097) && (0 <=? march_start k)) 0 400). by vm_compute. }
  rewrite !andb_true_iff, !Z.eqb_eq, !Z.leb_le in H. destruct H as [[[H1 H2] H3] H4].
  pose proof (era_year_mono (march_start k) doe ltac:(lia) ltac:(lia)).
  pose proof (era_year_mono doe (march_start (k + 1) - 1) ltac:(lia) ltac:(lia)). lia.
Qed.

Lemma int_of_small x : - 2 ^ 31 <= x < 2 ^ 31 → int_of x = x.
Proof. intros. unfold int_of. rewrite Z.mod_small; lia. Qed.

Lemma posix_time_from_utc_spec y m d h mi s :
  civil_date y m d → clock_time h mi s → posix_time_from_utc y m d h mi s = Some (posix_seconds y m d h mi s).
Proof.
  intros Hd Ht. unfold posix_time_from_utc.
  rewrite (proj2 (is_valid_date_iff y m d) Hd), (proj2 (is_valid_time_iff h mi s) Ht). cbn [negb orb].
  unfold posix_seconds. rewrite day_number_epoch. destruct (day_number_march y m d Hd) as (-> & Hy & Hdoy & _).
  f_equal. fold (march_year y m). fold (march_month m). unfold SECS_PER_DAY, SECS_PER_HOUR, march_day in *.
  assert (Hm : 0 <= march_month m). { unfold march_month. destruct Hd as (_ & ? & _). destruct (Z.gtb_spec m 2); lia. }
  rewrite (Z.quot_div_nonneg (153 * march_month m + 2)) by lia.
  assert (E : Z.quot (if march_year y m >=? 0 then march_year y m else march_year y m - 399) 400 = march_year y m / 400).
  { destruct (Z.geb_spec (march_year y m) 0); lia. }
  rewrite E. assert (Hyoe : march_year y m - march_year y m / 400 * 400 = march_year y m mod 400) by lia. rewrite Hyoe.
  pose proof (Z.mod_pos_bound (march_year y m) 400 ltac:(lia)) as Hb.
  rewrite (Z.quot_div_nonneg _ 4), (Z.quot_div_nonneg _ 100) by lia.
  rewrite march_start_era. unfold march_start, leaps. rewrite (Z.div_small (march_year y m mod 400) 400) by lia. lia.
Qed.

Lemma march_inverse m d y mp : civil_date y m d → mp = (5 * march_day m d + 2) / 153 →
  mp = march_month m ∧ (if mp <? 10 then mp + 3 else mp - 9) = m ∧ march_day m d - (153 * mp + 2) / 5 + 1 = d.
Proof.
  intros (_ & Hm & Hd). unfold march_day, march_month. revert m Hm Hd.
  refine (month_cases _ _ _ _ _ _ _ _ _ _ _ _ _); lit_to_nat;
    cbn [nth months Z.gtb Z.compare Pos.compare Pos.compare_cont]; intros Hd Emp;
    try destruct (leap y); destruct (Z.ltb_spec mp 10); lia.
Qed.

Lemma utc_from_posix_time_spec y m d h mi s :
  civil_date y m d → clock_time h mi s →
  is_valid_posix_time (posix_seconds y m d h mi s) = true →
  utc_from_posix_time (posix_seconds y m d h mi s) = Some (y, m, d, h, mi, s).
Proof.
  intros Hd Ht Hv. unfold utc_from_posix_time. rewrite Hv. cbn [negb].
  unfold posix_seconds. rewrite day_number_epoch. destruct (day_number_march y m d Hd) as (-> & Hy & Hdoy & Hnext).
  destruct (march_inverse m d y _ Hd eq_refl) as (Hmp & Hm & Hmd).
  set (D := march_start (march_year y m) + march_day m d) in *. replace (D + 60 - 719528) with (D - 719468) by lia.
  unfold clock_time, SECS_PER_DAY, SECS_PER_HOUR in *. change (24 * (60 * 60)) with 86400.
  set (sod := h * 3600 + mi * 60 + s). replace ((D - 719468) * 86400 + h * 3600 + mi * 60 + s) with ((D - 719468) * 86400 + sod) by lia.
  assert (Hsod : 0 <= sod < 86400) by (subst sod; lia).
  assert (Edays : (if Z.rem ((D - 719468) * 86400 + sod) 86400 <? 0
     then (Z.quot ((D - 719468) * 86400 + sod) 86400 - 1, Z.rem ((D - 719468) * 86400 + sod) 86400 + 86400)
     else (Z.quot ((D - 719468) * 86400 + sod) 86400, Z.rem ((D - 719468) * 86400 + sod) 86400)) = (D - 719468, sod)).
  { clearbody D sod. destruct (Z.ltb_spec (Z.rem ((D - 719468) * 86400 + sod) 86400) 0); f_equal; lia. }
  rewrite Edays. clear Edays. cbv zeta. rewrite Z.sub_add.
  assert (Eera : Z.quot (if D >? 0 then D else D - 146096) 146097 = D / 146097).
  { clearbody D. destruct (Z.gtb_spec D 0); lia. }
  rewrite Eera.
  pose proof (march_start_era (march_year y m)) as Hera. pose proof (Z.mod_pos_bound (march_year y m) 400 ltac:(lia)) as Hk.
  set (k := march_year y m mod 400) in *. set (era := march_year y m / 400) in *.
  assert (Hy' : march_year y m = 400 * era + k) by (subst k era; lia).
  assert (Hk0 : 0 <= march_start k) by (pose proof (march_start_mono 0 k ltac:(lia)); done).
  assert (Hk1 : march_start (k + 1) <= 146097) by (pose proof (march_start_mono (k + 1) 400 ltac:(lia)); done).
  assert (Hnk : march_start (march_year y m + 1) = 146097 * era + march_start (k + 1)).
  { rewrite Hy'. unfold march_start, leaps. clear. lia. }
  assert (HD : D = 146097 * era + (march_start k + march_day m d)) by (subst D; lia).
  assert (Ed : D / 146097 = era) by (clearbody D; lia). rewrite Ed.
  replace (D - era * 146097) with (march_start k + march_day m d) by lia.
  rewrite !(Z.quot_div_nonneg (march_start k + march_day m d)) by lia.
  assert (Ek : Z.quot (march_start k + march_day m d - (march_start k + march_day m d) / 1460 +
    (march_start k + march_day m d) / 36524 - (march_start k + march_day m d) / 146096) 365 = k).
  { rewrite Z.quot_div_nonneg; [apply era_year_spec; lia| |lia]. clear -Hk0 Hdoy. lia. }
  rewrite Ek. rewrite !(Z.quot_div_nonneg k) by lia.
  replace (march_start k + march_day m d - (365 * k + k / 4 - k / 100)) with (march_day m d).
  2: { unfold march_start, leaps. rewrite (Z.div_small k 400) by lia. lia. }
  rewrite !(Z.quot_div_nonneg (5 * march_day m d + 2)) by lia. rewrite Hm.
  rewrite Hmp in *. assert (0 <= march_month m) by (rewrite <- Hmp; apply Z.div_pos; lia).
  rewrite !(Z.quot_div_nonneg (153 * march_month m + 2)) by lia. rewrite Hmd.
  replace (k + era * 400) with (march_year y m) by lia. destruct Hd as (Hyr & Hmr & Hdr).
  assert (Hd31 : d <= 31).
  { clear -Hdr Hmr. revert m Hmr Hdr. refine (month_cases _ _ _ _ _ _ _ _ _ _ _ _ _); lit_to_nat; cbn [nth months]; destruct (leap y); lia. }
  clearbody k era D. rewrite !int_of_small by (unfold march_year; destruct (Z.leb_spec m 2); lia).
  f_equal. unfold march_year. repeat f_equal; subst sod; clear -Ht; try lia. destruct (m <=? 2); lia.
Qed.

(** ** Every instant has a date *)
Lemma step_search (f : nat → Z) N v : f 0%nat <= v < f N → ∃ k, (k < N)%nat ∧ f k <= v < f (S k).
Proof.
  induction N as [|N IH]; intros Hv; [lia|]. destruct (Z.lt_ge_cases v (f N)) as [Hlt|].
  - destruct IH as (k & ? & ?); [lia|]. exists k. split; [lia|done].
  - exists N. split; [lia|lia].
Qed.

Lemma date_of_day n : 0 <= n < 3652425 → ∃ y m d, civil_date y m d ∧ day_number y m d = n.
Proof.
  intros Hn. destruct (step_search days_of_years (Z.to_nat 10000) n) as (k & Hk & Hlo & Hhi).
  { rewrite (days_of_years_closed (Z.to_nat 10000)), Z2Nat.id by lia. exact Hn. }
  cbn [days_of_years] in Hhi. set (y := Z.of_nat k) in *.
  destruct (step_search (λ j, sum (take j (months y))) 12 (n - days_of_years k)) as (j & Hj & Hjlo & Hjhi).
  { cbn beta. change (take 12 (months y)) with (months y). change (sum (take 0 (months y))) with 0. lia. }
  exists y, (Z.of_nat j + 1), (n - days_of_years k - sum (take j (months y)) + 1).
  unfold civil_date, day_number. replace (Z.to_nat (Z.of_nat j + 1 - 1)) with j by lia. subst y. rewrite Nat2Z.id.
  split_and!; try lia. assert (E : sum (take (S j) (months (Z.of_nat k))) = sum (take j (months (Z.of_nat k))) + nth j (months (Z.of_nat k)) 0); [|lia].
  do 12 (destruct j as [|j]; [cbn [take months sum foldr nth]; lia|]). lia.
Qed.

Lemma day_number_range y m d : civil_date y m d → 0 <= day_number y m d < 3652425.
Proof.
  intros Hd. destruct (day_number_march y m d Hd) as (-> & Hy & Hdoy & Hnext). destruct Hd as (Hyr & Hmr & Hdr).
  pose proof (march_start_mono (march_year y m + 1) 10000) as H. change (march_start 10000) with 3652425 in H.
  unfold march_year in *. destruct (Z.leb_spec m 2).
  - pose proof (march_start_mono (-1) (y - 1) ltac:(lia)). change (march_start (-1)) with (-366) in *.
    assert (306 <= march_day m d) by (unfold march_day, march_month; destruct (Z.gtb_spec m 2); [lia|]; clear -Hmr Hdr; lia).
    pose proof (march_start_mono (y - 1 + 1) 9999 ltac:(lia)) as H9. change (march_start 9999) with 3652059 in H9. lia.
  - pose proof (march_start_mono 0 y ltac:(lia)). change (march_start 0) with 0 in *.
    assert (march_day m d <= 305).
    { unfold march_day, march_month. clear -Hmr Hdr H0. revert m Hmr Hdr H0. refine (month_cases _ _ _ _ _ _ _ _ _ _ _ _ _); lit_to_nat;
        cbn [nth months Z.gtb Z.compare Pos.compare Pos.compare_cont]; lia. }
    pose proof (march_start_mono y 9999 ltac:(lia)) as H9. change (march_start 9999) with 3652059 in H9. lia.
Qed.

Lemma is_valid_posix_time_iff t : is_valid_posix_time t = true ↔ 0 <= t / 86400 + 719528 < 3652425.
Proof. unfold is_valid_posix_time, MIN_POSIX_TIME, MAX_POSIX_TIME. rewrite andb_true_iff, !Z.leb_le. lia. Qed.

Lemma posix_seconds_valid y m d h mi s : civil_date y m d → clock_time h mi s → is_valid_posix_time (posix_seconds y m d h mi s) = true.
Proof.
  intros Hd Ht. apply is_valid_posix_time_iff. pose proof (day_number_range y m d Hd).
  unfold posix_seconds. rewrite day_number_epoch. unfold clock_time in Ht.
  replace ((day_number y m d - 719528) * 86400 + h * 3600 + mi * 60 + s)
    with ((h * 3600 + mi * 60 + s) + (day_number y m d - 719528) * 86400) by lia.
  rewrite Z.div_add, (Z.div_small (h * 3600 + mi * 60 + s)) by lia. lia.
Qed.

Lemma date_of_time t : is_valid_posix_time t = true →
  ∃ y m d h mi s, civil_date y m d ∧ clock_time h mi s ∧ posix_seconds y m d h mi s = t.
Proof.
  intros Hv%is_valid_posix_time_iff. destruct (date_of_day _ Hv) as (y & m & d & Hd & En).
  exists y, m, d, (t mod 86400 / 3600), (t mod 3600 / 60), (t mod 60). split_and!; [done|unfold clock_time; clear; lia|].
  unfold posix_seconds. rewrite day_number_epoch, En. clear. lia.
Qed.

Lemma from_utc_iff y m d h mi s t :
  posix_time_from_utc y m d h mi s = Some t ↔ civil_date y m d ∧ clock_time h mi s ∧ t = posix_seconds y m d h mi s.
Proof.
  split.
  - intros H. assert (Hv : is_valid_date y m d = true ∧ is_valid_time h mi s = true).
    { unfold posix_time_from_utc in H. destruct (is_valid_date y m d), (is_valid_time h mi s); done. }
    destruct Hv as [Hd%is_valid_date_iff Ht%is_valid_time_iff]. rewrite posix_time_from_utc_spec in H by done.
    injection H as <-. done.
  - intros (Hd & Ht & ->). by apply posix_time_from_utc_spec.
Qed.

Lemma utc_from_iff t y m d h mi s :
  utc_from_posix_time t = Some (y, m, d, h, mi, s) ↔ posix_time_from_utc y m d h mi s = Some t.
Proof.
  rewrite from_utc_iff. split.
  - intros H. assert (Hv : is_valid_posix_time t = true) by (unfold utc_from_posix_time in H; by destruct (is_valid_posix_time t)).
    destruct (date_of_time t Hv) as (y' & m' & d' & h' & mi' & s' & Hd & Ht & <-).
    rewrite utc_from_posix_time_spec in H by done. by injection H as <- <- <- <- <- <-.
  - intros (Hd & Ht & ->). apply utc_from_posix_time_spec; [done..|by apply posix_seconds_valid].
Qed.

(** The fields the conversion fills in; the others are zero. *)
Definition broken_down (t : tm) : Prop := tm_wday t = 0 ∧ tm_yday t = 0 ∧ tm_isdst t = 0.

Lemma posix_to_tm_iff time t :
  OPENSSL_posix_to_tm time = Some t ↔ OPENSSL_tm_to_posix t = Some time ∧ broken_down t.
Proof.
  unfold OPENSSL_posix_to_tm, OPENSSL_tm_to_posix, broken_down. rewrite <- utc_from_iff.
  destruct (utc_from_posix_time time) as [[[[[[y m] d] h] mi] s]|]; cbn [mbind option_bind].
  - split.
    + intros [= <-]. cbn. rewrite !Z.sub_add. done.
    + destruct t. cbn. intros ([= -> -> -> -> -> ->] & -> & -> & ->). by rewrite !Z.add_simpl_r.
  - split; [done|]. by intros [? _].
Qed.

Lemma posix_to_tm_total time : is_valid_posix_time time = true ↔ is_Some (OPENSSL_posix_to_tm time).
Proof.
  unfold OPENSSL_posix_to_tm. split.
  - intros Hv. destruct (date_of_time time Hv) as (y & m & d & h & mi & s & Hd & Ht & <-).
    rewrite utc_from_posix_time_spec by done. by eexists.
  - unfold utc_from_posix_time. destruct (is_valid_posix_time time); [done|]. by intros [? ?].
Qed.

Lemma tm_to_posix_valid t time : OPENSSL_tm_to_posix t = Some time → is_valid_posix_time time = true.
Proof. intros (Hd & Ht & ->)%from_utc_iff. by apply posix_seconds_valid. Qed.

(** ** The theorems *)

(** C27: [OPENSSL_tm_to_posix] computes POSIX time.  It accepts exactly the
    dates of the Gregorian calendar from year 0 to 9999 with a time of day
    without leap seconds, and returns the number of seconds from the epoch,
    counted year by year and month by month; [OPENSSL_timegm] further refuses
    what does not fit a 4-byte [time_t]. *)
Theorem OPENSSL_tm_to_posix_calendar (t : tm) (time : Z) :
  (OPENSSL_tm_to_posix t = Some time ↔
    civil_date (tm_year t + 1900) (tm_mon t + 1) (tm_mday t) ∧ clock_time (tm_hour t) (tm_min t) (tm_sec t) ∧
    time = posix_seconds (tm_year t + 1900) (tm_mon t + 1) (tm_mday t) (tm_hour t) (tm_min t) (tm_sec t)) ∧
  (OPENSSL_timegm 8 t = Some time ↔ OPENSSL_tm_to_posix t = Some time) ∧
  (OPENSSL_timegm 4 t = Some time ↔ OPENSSL_tm_to_posix t = Some time ∧ - 2 ^ 31 <= time < 2 ^ 31).
Proof.
  split_and!; [apply from_utc_iff|by unfold OPENSSL_timegm; destruct (OPENSSL_tm_to_posix t)|].
  unfold OPENSSL_timegm. destruct (OPENSSL_tm_to_posix t) as [x|]; cbn [mbind option_bind]; [|by split; [|intros [? _]]].
  cbn [Z.eqb Pos.eqb andb]. destruct (Z.gtb_spec x (2 ^ 31 - 1)), (Z.ltb_spec x (- 2 ^ 31)); cbn [orb];
    (split; [intros Hx; first [discriminate Hx|injection Hx as <-; split; [done|lia]]|intros [[= <-] ?]; done || lia]).
Qed.

(** C28: [OPENSSL_posix_to_tm] is the inverse of [OPENSSL_tm_to_posix]: it is
    defined exactly on the 315569520000 seconds of the years 0 to 9999, and the
    date it returns is the one and only date of that second. *)
Theorem OPENSSL_posix_to_tm_inverse (time : Z) (t : tm) :
  (OPENSSL_posix_to_tm time = Some t ↔ OPENSSL_tm_to_posix t = Some time ∧ broken_down t) ∧
  (is_Some (OPENSSL_posix_to_tm time) ↔ MIN_POSIX_TIME <= time <= MAX_POSIX_TIME).
Proof.
  split; [apply posix_to_tm_iff|]. rewrite <- posix_to_tm_total. unfold is_valid_posix_time.
  by rewrite andb_true_iff, !Z.leb_le.
Qed.

Lemma gmtime_adj_defined t time od os :
  OPENSSL_tm_to_posix t = Some time → - 2 ^ 31 <= od < 2 ^ 31 → INT64_MIN <= os <= INT64_MAX →
  OPENSSL_gmtime_adj t od os = Some (OPENSSL_posix_to_tm (time + od * SECS_PER_DAY + os)).
Proof.
  intros Ht Hod Hos. unfold OPENSSL_gmtime_adj. rewrite Ht. apply tm_to_posix_valid in Ht.
  unfold is_valid_posix_time, MIN_POSIX_TIME, MAX_POSIX_TIME in Ht. rewrite andb_true_iff, !Z.leb_le in Ht.
  assert (Hi : ∀ x, INT64_MIN <= x <= INT64_MAX → i64 x = Some x).
  { intros x Hx. unfold i64. destruct (Z.leb_spec INT64_MIN x), (Z.leb_spec x INT64_MAX); done || lia. }
  assert (Hnone : ∀ x, MAX_POSIX_TIME < x ∨ x < MIN_POSIX_TIME → None = OPENSSL_posix_to_tm x).
  { intros x Hx. destruct (OPENSSL_posix_to_tm x) eqn:E; [|done].
    assert (Hv : is_valid_posix_time x = true) by (apply posix_to_tm_total; by rewrite E).
    unfold is_valid_posix_time in Hv. rewrite andb_true_iff, !Z.leb_le in Hv. lia. }
  unfold INT64_MAX, INT64_MIN, MIN_POSIX_TIME, MAX_POSIX_TIME, SECS_PER_DAY, SECS_PER_HOUR in *.
  rewrite Hi by lia. cbn [mbind option_bind]. rewrite Hi by lia. cbn [mbind option_bind].
  set (p := time + od * (24 * (60 * 60))) in *. assert (- 2 ^ 60 < p < 2 ^ 60) by (subst p; lia). clearbody p.
  destruct (Z.gtb_spec p 0), (Z.gtb_spec os (2 ^ 63 - 1 - p)); cbn [andb]; try (rewrite <- Hnone; [done|lia]);
    destruct (Z.ltb_spec p 0), (Z.ltb_spec os (- 2 ^ 63 - p)); cbn [andb]; try (rewrite <- Hnone; [done|lia]);
    rewrite Hi by lia; done.
Qed.

(** Shifting a time.  For every [int] of days and [int64_t] of seconds,
    [OPENSSL_gmtime_adj] has no signed overflow, moves a valid [tm] to the
    date that many days and seconds away, and fails, leaving the [tm] alone,
    exactly when the [tm] is invalid or the result is outside the years 0 to
    9999. *)
Theorem OPENSSL_gmtime_adj_spec (t : tm) (offset_day offset_sec : Z)
    (Hd : - 2 ^ 31 <= offset_day < 2 ^ 31) (Hs : INT64_MIN <= offset_sec <= INT64_MAX) :
  ∃ r, OPENSSL_gmtime_adj t offset_day offset_sec = Some r ∧
    ∀ t', r = Some t' ↔
      broken_down t' ∧ ∃ time, OPENSSL_tm_to_posix t = Some time ∧
        OPENSSL_tm_to_posix t' = Some (time + offset_day * 86400 + offset_sec).
Proof.
  destruct (OPENSSL_tm_to_posix t) as [time|] eqn:E.
  - rewrite (gmtime_adj_defined t time) by done. eexists. split; [done|]. intros t'. rewrite posix_to_tm_iff. naive_solver.
  - exists None. split; [unfold OPENSSL_gmtime_adj; by rewrite E|]. intros t'. split; [done|]. intros (_ & ? & [=] & _).
Qed.

(** The difference of two times.  [OPENSSL_gmtime_diff] succeeds exactly
    on two valid times; days and seconds fit their [int]s, have the same sign,
    the seconds are less than a day, and together they are the difference. *)
Theorem OPENSSL_gmtime_diff_spec (from to : tm) (days secs : Z) :
  OPENSSL_gmtime_diff from to = Some (days, secs) ↔
  ∃ time_from time_to, OPENSSL_tm_to_posix from = Some time_from ∧ OPENSSL_tm_to_posix to = Some time_to ∧
    time_to - time_from = days * 86400 + secs ∧ - 86400 < secs < 86400 ∧ 0 <= days * secs ∧
    - 2 ^ 31 <= days < 2 ^ 31.
Proof.
  unfold OPENSSL_gmtime_diff.
  destruct (OPENSSL_tm_to_posix to) as [t|] eqn:Et; cbn [mbind option_bind]; [|split; [done|by intros (? & ? & _ & ? & _)]].
  destruct (OPENSSL_tm_to_posix from) as [f|] eqn:Ef; cbn [mbind option_bind]; [|split; [done|by intros (? & ? & ? & _)]].
  apply tm_to_posix_valid in Et, Ef. unfold is_valid_posix_time, MIN_POSIX_TIME, MAX_POSIX_TIME in *.
  rewrite andb_true_iff, !Z.leb_le in *. unfold SECS_PER_DAY, SECS_PER_HOUR. change (24 * (60 * 60)) with 86400.
  assert (Hq : - 2 ^ 31 <= Z.quot (t - f) 86400 < 2 ^ 31 ∧ - 86400 < Z.rem (t - f) 86400 < 86400) by lia.
  rewrite !int_of_small by lia. split.
  - intros [= <- <-]. exists f, t. split_and!; try done; try lia.
    destruct (Z.le_gt_cases 0 (t - f)).
    + apply Z.mul_nonneg_nonneg; lia.
    + apply Z.mul_nonpos_nonpos; lia.
  - intros (? & ? & [= <-] & [= <-] & Hdiff & Hs & Hsign & _). rewrite Hdiff.
    assert (E : Z.quot (days * 86400 + secs) 86400 = days ∧ Z.rem (days * 86400 + secs) 86400 = secs); [|by destruct E as [-> ->]].
    assert (Hcases : (0 <= days ∧ 0 <= secs) ∨ (days <= 0 ∧ secs <= 0)) by (clear -Hsign; nia). clear -Hcases Hs. lia.
Qed.

(** A day and a second after 2023-02-28 23:59:59. *)
Lemma OPENSSL_gmtime_adj_spec_witness :
  ∃ r, OPENSSL_gmtime_adj (mkTm 59 59 23 28 1 123 0 0 0) 1 1 = Some r ∧
    ∀ t', r = Some t' ↔
      broken_down t' ∧ ∃ time, OPENSSL_tm_to_posix (mkTm 59 59 23 28 1 123 0 0 0) = Some time ∧
        OPENSSL_tm_to_posix t' = Some (time + 1 * 86400 + 1).
Proof.
  apply (OPENSSL_gmtime_adj_spec (mkTm 59 59 23 28 1 123 0 0 0) 1 1); [lia|unfold INT64_MIN, INT64_MAX; lia].
Defined.

Lemma gmtime_adj_example : OPENSSL_gmtime_adj (mkTm 59 59 23 28 1 123 0 0 0) 1 1 = Some (Some (mkTm 0 0 0 2 2 123 0 0 0)).
Proof. reflexivity. Qed.
