(* ===== verification/CbsTime.v ===== *)
(** The UTCTime and GeneralizedTime parsers at the end of
    [crypto/bytestring/cbs.c], on top of the calendar of posix_time.c. *)
From S2P Require Import Prelude Radix Mem Cbs PosixTime.

Definition cbs_get_two_digits : M CBS Z :=
  first_digit ← CBS_get_u8;
  _ ← require (OPENSSL_isdigit first_digit);
  second_digit ← CBS_get_u8;
  _ ← require (OPENSSL_isdigit second_digit);
  mret ((first_digit - 48) * 10 + (second_digit - 48)).

Definition is_valid_day (year month day : Z) : bool :=
  if day <? 1 then false
  else if (month =? 1) || (month =? 3) || (month =? 5) || (month =? 7) || (month =? 8) || (month =? 10) || (month =? 12)
    then day <=? 31
  else if (month =? 4) || (month =? 6) || (month =? 9) || (month =? 11) then day <=? 30
  else if month =? 2 then
    if ((Z.rem year 4 =? 0) && negb (Z.rem year 100 =? 0)) || (Z.rem year 400 =? 0) then day <=? 29
    else day <=? 28
  else false.

(** The locals [year], [month], [day], [hour], [min], [sec] and
    [offset_seconds]. *)
Record time_fields := mkFields {
  f_year : Z; f_month : Z; f_day : Z; f_hour : Z; f_min : Z; f_sec : Z; f_offset : Z;
}.

Definition parse_year (is_gentime : bool) : M CBS Z :=
  if is_gentime then
    tmp ← cbs_get_two_digits;
    tmp2 ← cbs_get_two_digits;
    mret (tmp * 100 + tmp2)
  else
    tmp ← cbs_get_two_digits;
    let year := 1900 + tmp in
    let year := if year <? 1950 then year + 100 else year in
    _ ← require (negb (year >=? 2050));
    mret year.

Definition parse_offset (allow_timezone_offset : bool) : M CBS Z :=
  tz ← CBS_get_u8;
  offset_sign ← (if tz =? 90 then mret 0
                 else if tz =? 43 then mret 1
                 else if tz =? 45 then mret (-1)
                 else fail);
  if negb (offset_sign =? 0) then
    _ ← require allow_timezone_offset;
    offset_hours ← cbs_get_two_digits;
    _ ← require (negb (offset_hours >? 23));
    offset_minutes ← cbs_get_two_digits;
    _ ← require (negb (offset_minutes >? 59));
    mret (offset_sign * (offset_hours * 3600 + offset_minutes * 60))
  else mret 0.

Definition parse_fields (is_gentime allow_timezone_offset : bool) : M CBS time_fields :=
  year ← parse_year is_gentime;
  month ← cbs_get_two_digits;
  _ ← require (negb ((month <? 1) || (month >? 12)));
  day ← cbs_get_two_digits;
  _ ← require (is_valid_day year month day);
  hour ← cbs_get_two_digits;
  _ ← require (negb (hour >? 23));
  min ← cbs_get_two_digits;
  _ ← require (negb (min >? 59));
  sec ← cbs_get_two_digits;
  _ ← require (negb (sec >? 59));
  offset_seconds ← parse_offset allow_timezone_offset;
  _ ← ((λ copy, require (CBS_len copy =? 0) copy) : M CBS unit);
  mret (mkFields year month day hour min sec offset_seconds).

(** The return value and the new [*out_tm] ([None] for a NULL pointer); [None]
    is undefined behaviour. *)
Definition CBS_parse_rfc5280_time_internal (cbs : CBS) (is_gentime allow_timezone_offset : bool) (out_tm : option tm) :
    option (bool * option tm) :=
  match (parse_fields is_gentime allow_timezone_offset cbs).1, out_tm with
  | None, _ => Some (false, out_tm)
  | Some _, None => Some (true, None)
  | Some f, Some t =>
      let t := mkTm (f_sec f) (f_min f) (f_hour f) (f_day f) (f_month f - 1) (f_year f - 1900)
                    (tm_wday t) (tm_yday t) (tm_isdst t) in
      if negb (f_offset f =? 0) then
        r ← OPENSSL_gmtime_adj t 0 (f_offset f);
        match r with
        | None => Some (false, Some t)
        | Some t => Some (true, Some t)
        end
      else Some (true, Some t)
  end.

Definition CBS_parse_generalized_time (cbs : CBS) (out_tm : option tm) (allow_timezone_offset : bool) :=
  CBS_parse_rfc5280_time_internal cbs true allow_timezone_offset out_tm.
Definition CBS_parse_utc_time (cbs : CBS) (out_tm : option tm) (allow_timezone_offset : bool) :=
  CBS_parse_rfc5280_time_internal cbs false allow_timezone_offset out_tm.

Ltac Zify.zify_post_hook ::= Z.to_euclidean_division_equations.

(** ** The strings *)
Definition two_digits (v : Z) : list Z := [48 + v / 10; 48 + v mod 10].
Definition year_string (is_gentime : bool) (y : Z) : list Z :=
  if is_gentime then two_digits (y / 100) ++ two_digits (y mod 100) else two_digits (y mod 100).
(** The years that the form can name. *)
Definition year_ok (is_gentime : bool) (y : Z) : Prop := if is_gentime then 0 <= y <= 9999 else 1950 <= y < 2050.
(** The zone designators of an offset in seconds. *)
Inductive zone (allow : bool) : Z → list Z → Prop :=
  | zone_utc : zone allow 0 [90]
  | zone_plus h mi : allow = true → 0 <= h <= 23 → 0 <= mi <= 59 →
      zone allow (h * 3600 + mi * 60) (43 :: two_digits h ++ two_digits mi)
  | zone_minus h mi : allow = true → 0 <= h <= 23 → 0 <= mi <= 59 →
      zone allow (- (h * 3600 + mi * 60)) (45 :: two_digits h ++ two_digits mi).

Definition time_string (is_gentime : bool) (f : time_fields) (z : list Z) : list Z :=
  year_string is_gentime (f_year f) ++ two_digits (f_month f) ++ two_digits (f_day f) ++ two_digits (f_hour f) ++
  two_digits (f_min f) ++ two_digits (f_sec f) ++ z.

Definition fields_ok (is_gentime allow : bool) (f : time_fields) (z : list Z) : Prop :=
  year_ok is_gentime (f_year f) ∧ civil_date (f_year f) (f_month f) (f_day f) ∧
  clock_time (f_hour f) (f_min f) (f_sec f) ∧ zone allow (f_offset f) z.

Lemma isdigit_iff c : OPENSSL_isdigit c = true ↔ 48 <= c <= 57.
Proof. unfold OPENSSL_isdigit. rewrite andb_true_iff, !Z.leb_le. done. Qed.

Lemma get_two_digits_iff cbs v rest :
  cbs_get_two_digits cbs = (Some v, rest) ↔ 0 <= v <= 99 ∧ cbs = two_digits v ++ rest.
Proof.
  unfold cbs_get_two_digits, two_digits. split.
  - intros (a & s & H & H1)%M_bind_inv. apply M_bind_inv in H1 as ([] & s' & [Ha%isdigit_iff ->]%require_inv & H1).
    apply M_bind_inv in H1 as (b & s2 & Hb & H1). apply M_bind_inv in H1 as ([] & s3 & [Hb'%isdigit_iff ->]%require_inv & H1).
    injection H1 as <- <-. destruct cbs as [|a' cbs]; [done|]. rewrite CBS_get_u8_cons in H. injection H as -> <-.
    destruct cbs as [|b' cbs]; [done|]. rewrite CBS_get_u8_cons in Hb. injection Hb as -> <-.
    split; [lia|]. cbn [app]. f_equal; [lia|]. f_equal. lia.
  - intros [Hv ->]. cbn [app]. erewrite M_bind_Some by apply CBS_get_u8_cons.
    erewrite M_bind_Some by (apply require_true, isdigit_iff; lia).
    erewrite M_bind_Some by apply CBS_get_u8_cons.
    erewrite M_bind_Some by (apply require_true, isdigit_iff; lia).
    unfold mret, M_ret. f_equal. f_equal. lia.
Qed.

Lemma is_valid_day_iff y m d : 0 <= y → 1 <= m <= 12 → is_valid_day y m d = true ↔ 1 <= d <= nth (Z.to_nat (m - 1)) (months y) 0.
Proof.
  intros Hy Hm. unfold is_valid_day. rewrite rem_leap by done. destruct (Z.ltb_spec d 1).
  - split; [done|lia].
  - revert m Hm. apply month_cases; lit_to_nat; cbn [nth months Z.eqb Pos.eqb orb andb]; try destruct (leap y);
      rewrite Z.leb_le; lia.
Qed.

Lemma parse_year_iff g cbs y rest :
  parse_year g cbs = (Some y, rest) ↔ year_ok g y ∧ cbs = year_string g y ++ rest.
Proof.
  destruct g; unfold parse_year, year_ok, year_string; cbv beta iota.
  - split.
    + intros (a & s & H & H1)%M_bind_inv. apply M_bind_inv in H1 as (b & s' & Hb & H1). injection H1 as <- <-.
      apply get_two_digits_iff in H as [Ha ->], Hb as [Hb ->]. rewrite <- app_assoc. split; [lia|]. f_equal; [f_equal; lia|].
      f_equal. f_equal. lia.
    + intros [Hy ->]. rewrite <- app_assoc. erewrite M_bind_Some by (apply get_two_digits_iff; split; [|done]; lia).
      erewrite M_bind_Some by (apply get_two_digits_iff; split; [|done]; lia).
      unfold mret, M_ret. f_equal. f_equal. lia.
  - split.
    + intros (a & s & H & H1)%M_bind_inv. apply M_bind_inv in H1 as ([] & s' & [Hr ->]%require_inv & H1). injection H1 as <- <-.
      apply get_two_digits_iff in H as [Ha ->]. revert Hr. destruct (Z.ltb_spec (1900 + a) 1950); rewrite negb_true_iff, Z.geb_leb, Z.leb_gt;
        intros Hr; (split; [lia|]); f_equal; f_equal; lia.
    + intros [Hy ->]. erewrite M_bind_Some by (apply get_two_digits_iff; split; [|done]; lia). cbv zeta.
      destruct (Z.ltb_spec (1900 + y mod 100) 1950); (erewrite M_bind_Some; [|apply require_true; rewrite negb_true_iff, Z.geb_leb, Z.leb_gt; lia]);
        unfold mret, M_ret; f_equal; f_equal; lia.
Qed.

Lemma gtb_false a b : negb (a >? b) = true ↔ a <= b.
Proof. rewrite negb_true_iff, Z.gtb_ltb. apply Z.ltb_ge. Qed.

Lemma parse_offset_iff allow cbs off rest :
  parse_offset allow cbs = (Some off, rest) ↔ ∃ z, zone allow off z ∧ cbs = z ++ rest.
Proof.
  unfold parse_offset.
  assert (Htail : ∀ sign s, (_ ← require allow; oh ← cbs_get_two_digits; _ ← require (negb (oh >? 23)); om ← cbs_get_two_digits;
      _ ← require (negb (om >? 59)); mret (sign * (oh * 3600 + om * 60))) s = (Some off, rest) ↔
    ∃ h mi, allow = true ∧ 0 <= h <= 23 ∧ 0 <= mi <= 59 ∧ off = sign * (h * 3600 + mi * 60) ∧ s = two_digits h ++ two_digits mi ++ rest).
  { intros sign s. split.
    - intros ([] & s1 & [Hal ->]%require_inv & H)%M_bind_inv. apply M_bind_inv in H as (h & s2 & [Hh ->]%get_two_digits_iff & H).
      apply M_bind_inv in H as ([] & s3 & [Hh2%gtb_false ->]%require_inv & H).
      apply M_bind_inv in H as (mi & s4 & [Hm ->]%get_two_digits_iff & H).
      apply M_bind_inv in H as ([] & s5 & [Hm2%gtb_false ->]%require_inv & H). injection H as <- <-.
      exists h, mi. split_and!; done || lia.
    - intros (h & mi & -> & Hh & Hm & -> & ->). erewrite M_bind_Some by by apply require_true.
      erewrite M_bind_Some by (apply get_two_digits_iff; split; [|done]; lia).
      erewrite M_bind_Some by (apply require_true, gtb_false; lia).
      erewrite M_bind_Some by (apply get_two_digits_iff; split; [|done]; lia).
      erewrite M_bind_Some by (apply require_true, gtb_false; lia). done. }
  destruct cbs as [|c cbs]; [by split; [|intros (z & Hz & ?); destruct Hz]|].
  erewrite M_bind_Some by apply CBS_get_u8_cons.
  destruct (Z.eqb_spec c 90) as [->|]; [|destruct (Z.eqb_spec c 43) as [->|]; [|destruct (Z.eqb_spec c 45) as [->|]]].
  - cbn. split; [intros [= <- <-]; exists [90]; by split; [constructor|]|].
    intros (z & Hz & E). destruct Hz; cbn in E; [by injection E as <-|discriminate E..].
  - erewrite M_bind_Some by reflexivity. cbn [negb Z.eqb]. rewrite Htail. split.
    + intros (h & mi & ? & ? & ? & -> & ->). exists (43 :: two_digits h ++ two_digits mi).
      split; [|cbn [app]; by rewrite <- app_assoc]. rewrite Z.mul_1_l. by constructor.
    + intros (z & Hz & E). destruct Hz as [|h mi|]; [done| |done]. exists h, mi. cbn [app] in E.
      rewrite <- app_assoc in E. injection E as ->. split_and!; done || lia.
  - erewrite M_bind_Some by reflexivity. cbn [negb Z.eqb]. rewrite Htail. split.
    + intros (h & mi & ? & ? & ? & -> & ->). exists (45 :: two_digits h ++ two_digits mi).
      split; [|cbn [app]; by rewrite <- app_assoc]. replace (-1 * (h * 3600 + mi * 60)) with (- (h * 3600 + mi * 60)) by lia. by constructor.
    + intros (z & Hz & E). destruct Hz as [| |h mi]; [done|done|]. exists h, mi. cbn [app] in E.
      rewrite <- app_assoc in E. injection E as ->. split_and!; done || lia.
  - erewrite M_bind_None by reflexivity. split; [done|]. intros (z & Hz & E). destruct Hz; cbn in E; by injection E.
Qed.

Lemma parse_fields_iff g allow cbs f rest :
  parse_fields g allow cbs = (Some f, rest) ↔ rest = [] ∧ ∃ z, fields_ok g allow f z ∧ cbs = time_string g f z.
Proof.
  unfold parse_fields, time_string, fields_ok, clock_time, civil_date. split.
  - intros (y & s1 & [Hy ->]%parse_year_iff & H)%M_bind_inv.
    apply M_bind_inv in H as (mo & s2 & [Hmo ->]%get_two_digits_iff & H).
    apply M_bind_inv in H as ([] & s3 & [Hmo2%negb_true_iff ->]%require_inv & H).
    rewrite orb_false_iff, Z.ltb_ge, Z.gtb_ltb, Z.ltb_ge in Hmo2.
    apply M_bind_inv in H as (d & s4 & [Hd ->]%get_two_digits_iff & H).
    apply M_bind_inv in H as ([] & s5 & [Hd2 ->]%require_inv & H).
    assert (Hy0 : 0 <= y <= 9999) by (destruct g; cbn in Hy; lia). apply is_valid_day_iff in Hd2; [|lia..].
    apply M_bind_inv in H as (h & s6 & [Hh ->]%get_two_digits_iff & H).
    apply M_bind_inv in H as ([] & s7 & [Hh2%gtb_false ->]%require_inv & H).
    apply M_bind_inv in H as (mi & s8 & [Hmi ->]%get_two_digits_iff & H).
    apply M_bind_inv in H as ([] & s9 & [Hmi2%gtb_false ->]%require_inv & H).
    apply M_bind_inv in H as (se & s10 & [Hse ->]%get_two_digits_iff & H).
    apply M_bind_inv in H as ([] & s11 & [Hse2%gtb_false ->]%require_inv & H).
    apply M_bind_inv in H as (off & s12 & (z & Hz & ->)%parse_offset_iff & H).
    apply M_bind_inv in H as ([] & s13 & [Hl%Z.eqb_eq ->]%require_inv & H). injection H as <- <-.
    assert (s12 = []) as -> by (destruct s12; [done|unfold CBS_len in Hl; cbn [length] in Hl; lia]).
    rewrite app_nil_r. split; [done|]. exists z. cbn [f_year f_month f_day f_hour f_min f_sec f_offset]. split_and!; done || lia.
  - intros (-> & z & (Hy & (Hyr & Hmo & Hd) & (Hh & Hmi & Hse) & Hz) & ->).
    destruct f as [y mo d h mi se off]. cbn [f_year f_month f_day f_hour f_min f_sec f_offset] in *.
    assert (Hd31 : d <= 31).
    { clear -Hd Hmo. revert mo Hmo Hd. refine (month_cases _ _ _ _ _ _ _ _ _ _ _ _ _); lit_to_nat; cbn [nth months]; destruct (leap y); lia. }
    erewrite M_bind_Some by (by apply parse_year_iff).
    erewrite M_bind_Some by (apply get_two_digits_iff; split; [|done]; lia).
    erewrite M_bind_Some.
    2: { apply require_true, negb_true_iff. rewrite orb_false_iff, Z.ltb_ge, Z.gtb_ltb, Z.ltb_ge. lia. }
    erewrite M_bind_Some by (apply get_two_digits_iff; split; [|done]; lia).
    erewrite M_bind_Some by (apply require_true, is_valid_day_iff; lia).
    do 3 (erewrite M_bind_Some by (apply get_two_digits_iff; split; [|done]; lia);
          erewrite M_bind_Some by (apply require_true, gtb_false; lia)).
    erewrite M_bind_Some. 2: { apply parse_offset_iff. exists z. by rewrite app_nil_r. } done.
Qed.

(** The fields that the parser leaves alone when there is no offset, and that
    the shift to UTC zeroes when there is one. *)
Definition other_fields (t t0 : tm) (off : Z) : Prop :=
  if decide (off = 0) then tm_wday t = tm_wday t0 ∧ tm_yday t = tm_yday t0 ∧ tm_isdst t = tm_isdst t0 else broken_down t.

Lemma tm_unique t1 t2 time : OPENSSL_tm_to_posix t1 = Some time → OPENSSL_tm_to_posix t2 = Some time →
  tm_wday t1 = tm_wday t2 → tm_yday t1 = tm_yday t2 → tm_isdst t1 = tm_isdst t2 → t1 = t2.
Proof.
  unfold OPENSSL_tm_to_posix. intros H1%utc_from_iff H2%utc_from_iff. rewrite H1 in H2.
  destruct t1, t2. cbn in *. intros -> -> ->. injection H2. intros. f_equal; lia.
Qed.

Lemma zone_range allow off z : zone allow off z → - 86400 < off < 86400.
Proof. destruct 1; lia. Qed.

Lemma fields_posix g allow f z w yd dst : fields_ok g allow f z →
  OPENSSL_tm_to_posix (mkTm (f_sec f) (f_min f) (f_hour f) (f_day f) (f_month f - 1) (f_year f - 1900) w yd dst) =
    Some (posix_seconds (f_year f) (f_month f) (f_day f) (f_hour f) (f_min f) (f_sec f)).
Proof.
  intros (_ & Hd & Ht & _). unfold OPENSSL_tm_to_posix. cbn [tm_year tm_mon tm_mday tm_hour tm_min tm_sec].
  rewrite !Z.sub_add. by apply from_utc_iff.
Qed.

(** C29: parsing times.  With an output, [CBS_parse_generalized_time] and
    [CBS_parse_utc_time] accept exactly the strings
    [YYYYMMDDHHMMSS] (or [YYMMDDHHMMSS] for the years 1950 to 2049) of a valid
    date and time followed by [Z] or, where offsets are allowed, by a signed
    [HHMM], that give a time of the years 0 to 9999.  What the [tm] holds: with
    [Z] or a zero offset, the date and time written in the string, which is the
    UTC time it names, while the other fields of the [tm] keep their values;
    with another offset, the time written PLUS the signed offset, broken down
    with the other fields zero.  That is not the UTC time the string names,
    which is the time written minus the offset: [parse_utc_time_offset_sign].
    Without an output the strings are accepted without the condition on the
    year.  There is never undefined behaviour. *)
Theorem CBS_parse_time_iff (cbs : CBS) (is_gentime allow : bool) (t0 t : tm) :
  (CBS_parse_rfc5280_time_internal cbs is_gentime allow (Some t0) = Some (true, Some t) ↔
    ∃ f z, fields_ok is_gentime allow f z ∧ cbs = time_string is_gentime f z ∧
      OPENSSL_tm_to_posix t =
        Some (posix_seconds (f_year f) (f_month f) (f_day f) (f_hour f) (f_min f) (f_sec f) + f_offset f) ∧
      other_fields t t0 (f_offset f)) ∧
  (CBS_parse_rfc5280_time_internal cbs is_gentime allow None = Some (true, None) ↔
    ∃ f z, fields_ok is_gentime allow f z ∧ cbs = time_string is_gentime f z) ∧
  CBS_parse_rfc5280_time_internal cbs is_gentime allow (Some t0) ≠ None.
Proof.
  unfold CBS_parse_rfc5280_time_internal. destruct (parse_fields is_gentime allow cbs) as [[f|] rest] eqn:E; cbn [fst].
  2: { assert (Hno : ∀ f z, fields_ok is_gentime allow f z → cbs ≠ time_string is_gentime f z).
       { intros f z Hf ->. assert (H : parse_fields is_gentime allow (time_string is_gentime f z) = (Some f, [])); [|congruence].
         apply parse_fields_iff. split; [done|by exists z]. }
       split_and!; [| |done]; split; try done; intros (f & z & Hf & Hc & _) || intros (f & z & Hf & Hc); by destruct (Hno f z). }
  apply parse_fields_iff in E as (-> & z & Hf & ->).
  assert (Hu : ∀ f' z', fields_ok is_gentime allow f' z' → time_string is_gentime f z = time_string is_gentime f' z' → f' = f).
  { intros f' z' Hf' Heq. assert (H1 : parse_fields is_gentime allow (time_string is_gentime f z) = (Some f, [])) by (apply parse_fields_iff; eauto).
    assert (H2 : parse_fields is_gentime allow (time_string is_gentime f' z') = (Some f', [])) by (apply parse_fields_iff; eauto). congruence. }
  pose proof (fields_posix _ _ _ _ (tm_wday t0) (tm_yday t0) (tm_isdst t0) Hf) as Hp.
  set (t1 := mkTm _ _ _ _ _ _ _ _ _) in *. pose proof (zone_range _ _ _ (proj2 (proj2 (proj2 Hf)))) as Hoff.
  set (ps := posix_seconds _ _ _ _ _ _) in *.
  assert (Hgoal : ∀ P : Prop, (OPENSSL_tm_to_posix t = Some (ps + f_offset f) ∧ other_fields t t0 (f_offset f) ↔ P) →
    (P ↔ ∃ f0 z0, fields_ok is_gentime allow f0 z0 ∧ time_string is_gentime f z = time_string is_gentime f0 z0 ∧
      OPENSSL_tm_to_posix t = Some (posix_seconds (f_year f0) (f_month f0) (f_day f0) (f_hour f0) (f_min f0) (f_sec f0) + f_offset f0) ∧
      other_fields t t0 (f_offset f0))).
  { intros P <-. split; [intros [? ?]; by exists f, z|]. intros (f' & z' & Hf' & Heq & Ht & Ho). by rewrite (Hu f' z' Hf' Heq) in *. }
  unfold other_fields in *. destruct (Z.eqb_spec (f_offset f) 0) as [E0|E0]; cbn [negb].
  - split_and!; [apply Hgoal|split; [by exists f, z|done]|done]. rewrite E0, Z.add_0_r. destruct (decide (0 = 0)); [|done]. split.
    + intros (Ht & H1 & H2 & H3). rewrite (tm_unique t t1 ps); done.
    + intros [= <-]. done.
  - rewrite (gmtime_adj_defined t1 ps 0 (f_offset f)); [|done|lia|unfold INT64_MIN, INT64_MAX; lia].
    replace (ps + 0 * SECS_PER_DAY + f_offset f) with (ps + f_offset f) by lia. cbn [mbind option_bind].
    split_and!; [apply Hgoal|split; [by exists f, z|done]|by destruct (OPENSSL_posix_to_tm _)].
    destruct (decide (f_offset f = 0)); [done|]. rewrite <- posix_to_tm_iff.
    destruct (OPENSSL_posix_to_tm _); split; congruence.
Qed.

(** "230101010000+0100" is an hour past midnight where clocks are an hour
    ahead of UTC, so it is midnight UTC; the parser adds the offset instead of
    subtracting it and returns 02:00. *)
Lemma parse_utc_time_offset_sign :
  CBS_parse_utc_time [50; 51; 48; 49; 48; 49; 48; 49; 48; 48; 48; 48; 43; 48; 49; 48; 48] (Some (mkTm 0 0 0 0 0 0 0 0 0)) true =
    Some (true, Some (mkTm 0 0 2 1 0 123 0 0 0)).
Proof. reflexivity. Qed.

(** The header says that the [tm] is zeroed first; [tm_wday], [tm_yday] and
    [tm_isdst] keep their old values. *)
Lemma parse_time_not_zeroed :
  CBS_parse_utc_time [50; 51; 48; 49; 48; 49; 48; 49; 48; 48; 48; 48; 90] (Some (mkTm 0 0 0 0 0 0 7 8 9)) false =
    Some (true, Some (mkTm 0 0 1 1 0 123 7 8 9)).
Proof. reflexivity. Qed.
