(* ===== verification/OidText.v ===== *)
(** OBJECT IDENTIFIERs and their dotted decimal text: the end of
    [crypto/bytestring/cbs.c] against the end of [cbb.c]. *)
From S2P Require Import Prelude Radix Mem Cbs Cbb CbbSpec CbbFlush CbbOps CbbAsn1 CbbPartial CbbTheorems.

Section oid.
Context {A : Allocator}.

(** [snprintf(buf, sizeof(buf), "%llu", v)]: the decimal digits. *)
Definition decimal (v : Z) : list Z := (λ d, 48 + d) <$> digits_be 10 (Nat.max 1 (ndigits 10 20 v)) v.

Definition add_decimal (out : loc) (v : Z) : B unit := CBB_add_bytes out (decimal v).

(** [while (CBS_len(&copy) != 0)]: a component has a byte or more. *)
Fixpoint oid_to_text_loop (fuel : nat) (cbb : loc) (copy : CBS) : B unit :=
  if CBS_len copy =? 0 then mret ()
  else
    match fuel with
    | O => undefined
    | S fuel =>
        '(v, copy) ← with_cbs parse_base128_integer copy;
        _ ← CBB_add_u8 cbb DOT;
        _ ← add_decimal cbb v;
        oid_to_text_loop fuel cbb copy
    end.

Definition CBS_asn1_oid_to_text (cbs : CBS) : B (list Z) :=
  with_local (λ cbb, on_error
    (_ ← CBB_init cbb 32;
     '(v, copy) ← with_cbs parse_base128_integer cbs;
     _ ← (if v >=? 80 then
            _ ← CBB_add_bytes cbb [50; DOT];
            add_decimal cbb (v ⊟[64] 80)
          else
            _ ← add_decimal cbb (v / 40);
            _ ← CBB_add_u8 cbb DOT;
            add_decimal cbb (v mod 40));
     _ ← oid_to_text_loop (length cbs) cbb copy;
     _ ← CBB_add_u8 cbb 0;
     CBB_finish cbb)
    (CBB_cleanup cbb)).
End oid.

(** ** Object identifiers *)

(** The components of an OID; the first two share an integer in the
    encoding. *)
Record oid := mkOid { arc1 : Z; arc2 : Z; arcs : list Z }.
Definition oid_ok (o : oid) : Prop :=
  0 <= arc1 o <= 2 ∧ 0 <= arc2 o ∧ (arc1 o < 2 → arc2 o <= 39) ∧ arc2 o <= UINT64_MAX - 80 ∧
  Forall (λ v, in_range 64 v) (arcs o).
Definition oid_text (o : oid) : list Z :=
  decimal (arc1 o) ++ DOT :: decimal (arc2 o) ++ concat ((λ v, DOT :: decimal v) <$> arcs o).
Definition oid_der (o : oid) : list Z :=
  base128_bytes (40 * arc1 o + arc2 o) ++ concat (base128_bytes <$> arcs o).

(** ** Decimal numbers *)
Lemma decimal_digits v : in_range 64 v →
  let ds := digits_be 10 (Nat.max 1 (ndigits 10 20 v)) v in
  Forall (is_digit 10) ds ∧ ds ≠ [] ∧ val_be 10 ds = v ∧ (hd 0 ds ≠ 0 ∨ length ds = 1%nat).
Proof.
  intros Hv. cbn zeta. split_and!.
  - apply digits_be_ok. lia.
  - intros E%(f_equal length). rewrite length_digits_be in E. cbn in E. lia.
  - apply val_digits_be_small; [lia|]. destruct (decide (v = 0)) as [->|]; [cbn; lia|].
    destruct (ndigits_bound 10 ltac:(lia) 20 v ltac:(lia)) as [? ?]. rewrite Nat.max_r by lia. lia.
  - destruct (decide (v = 0)) as [->|]; [by right|].
    destruct (ndigits_bound 10 ltac:(lia) 20 v ltac:(lia)) as [? ?]. rewrite Nat.max_r by lia. left.
    destruct (digits_be_hd 10 ltac:(lia) 20 v ltac:(lia)) as (d & l & -> & ?). cbn. lia.
Qed.

Lemma decimal_unique ds : Forall (is_digit 10) ds → ds ≠ [] → val_be 10 ds < 2 ^ 64 → (hd 0 ds ≠ 0 ∨ length ds = 1%nat) →
  decimal (val_be 10 ds) = (λ d, 48 + d) <$> ds.
Proof.
  intros Hds Hne Hlt Hmin. unfold decimal. f_equal. pose proof (val_be_range 10 ltac:(lia) ds Hds).
  assert (Nat.max 1 (ndigits 10 20 (val_be 10 ds)) = length ds) as ->; [|apply digits_val_be; [lia|done]].
  destruct ds as [|d ds]; [done|]. destruct (decide (d = 0)) as [->|].
  - destruct Hmin as [?|Hl]; [done|]. by destruct ds.
  - rewrite canonical_digits by (lia || done). cbn. lia.
Qed.

Lemma u64_decimal_loop_digits ds v seen rest :
  Forall (is_digit 10) ds → 0 <= v → v * 10 ^ Z.of_nat (length ds) + val_be 10 ds < 2 ^ 64 →
  (v ≠ 0 ∨ (seen = false ∧ (hd 0 ds ≠ 0 ∨ (length ds ≤ 1)%nat)) ∨ ds = []) →
  (match rest with [] => True | c :: _ => OPENSSL_isdigit c = false end) →
  get_u64_decimal_loop v seen (((λ d, 48 + d) <$> ds) ++ rest) =
    (Some (v * 10 ^ Z.of_nat (length ds) + val_be 10 ds, seen || negb (bool_decide (ds = []))), rest).
Proof.
  intros Hds. revert v seen. induction ds as [|d ds IH]; intros v seen Hv Hlim Hmin Hrest.
  - cbn [fmap list_fmap app length val_be foldl]. rewrite Z.pow_0_r, orb_false_r. 
    assert (E : get_u64_decimal_loop v seen rest = (Some (v, seen), rest)) by (destruct rest; cbn; [done|by rewrite Hrest]).
    rewrite E. unfold val_be. cbn. f_equal. f_equal. f_equal. lia.
  - apply Forall_cons in Hds as [Hd Hds]. unfold is_digit in Hd. specialize (IH Hds).
    pose proof (val_be_range 10 ltac:(lia) ds Hds). pose proof (pow_B_pos 10 ltac:(lia) (length ds)).
    rewrite val_be_cons in * by lia. cbn [length] in *. rewrite Nat2Z.inj_succ, Z.pow_succ_r in * by lia.
    assert (Hstep : v * 10 + d < 2 ^ 64) by nia.
    cbn [fmap list_fmap app get_u64_decimal_loop]. unfold OPENSSL_isdigit at 1.
    destruct (Z.leb_spec 48 (48 + d)), (Z.leb_spec (48 + d) 57); try lia. cbn [andb negb].
    replace (48 + d - 48) with d by lia. unfold UINT64_MAX.
    assert (Hz : (v =? 0) && seen = false).
    { destruct (Z.eqb_spec v 0); [|done]. destruct Hmin as [?|[[-> _]|?]]; done. }
    rewrite Hz, (wrap_small 64 (v * 10)) by lia.
    destruct (Z.gtb_spec v ((2 ^ 64 - 1) / 10)) as [Hgt|_]; [exfalso; pose proof (Z.div_mod (2 ^ 64 - 1) 10); change ((2 ^ 64 - 1) / 10) with 1844674407370955161 in *; lia|].
    destruct (Z.gtb_spec (v * 10) (2 ^ 64 - 1 - d)); [lia|]. cbn [orb]. rewrite wrap_small by lia.
    rewrite IH; [|lia|nia| |done].
    + f_equal. f_equal. f_equal; [lia|]. by destruct seen.
    + destruct (decide (v * 10 + d = 0)); [|by left]. right. right.
      destruct Hmin as [?|[[_ [?|?]]|?]]; [lia|cbn in *; lia|by destruct ds; [|cbn in *; lia]|done].
Qed.

Lemma u64_decimal_loop_inv cbs v seen r seen' rest :
  0 <= v < 2 ^ 64 → get_u64_decimal_loop v seen cbs = (Some (r, seen'), rest) →
  ∃ ds, cbs = ((λ d, 48 + d) <$> ds) ++ rest ∧ Forall (is_digit 10) ds ∧
    r = v * 10 ^ Z.of_nat (length ds) + val_be 10 ds ∧ r < 2 ^ 64 ∧ seen' = seen || negb (bool_decide (ds = [])) ∧
    (v ≠ 0 ∨ (seen = false ∧ (hd 0 ds ≠ 0 ∨ (length ds ≤ 1)%nat)) ∨ ds = []) ∧
    (match rest with [] => True | c :: _ => OPENSSL_isdigit c = false end).
Proof.
  revert v seen. induction cbs as [|c cbs IH]; intros v seen Hv.
  - intros [= <- <- <-]. exists []. unfold val_be. cbn. rewrite orb_false_r. split_and!; done || lia || (by right; right).
  - cbn [get_u64_decimal_loop]. destruct (OPENSSL_isdigit c) eqn:Ec; cbn [negb].
    2: { intros [= <- <- <-]. exists []. unfold val_be. cbn. rewrite orb_false_r. split_and!; done || lia || (by right; right). }
    unfold OPENSSL_isdigit in Ec. apply andb_true_iff in Ec as [Hc1%Z.leb_le Hc2%Z.leb_le]. unfold UINT64_MAX.
    change ((2 ^ 64 - 1) / 10) with 1844674407370955161.
    destruct ((v =? 0) && seen) eqn:Ez; [done|]. destruct (Z.gtb_spec v 1844674407370955161) as [|Hle]; [done|].
    rewrite (wrap_small 64 (v * 10)) by lia. destruct (Z.gtb_spec (v * 10) (2 ^ 64 - 1 - (c - 48))); [done|]. cbn [orb].
    rewrite wrap_small by lia. intros Hl. apply IH in Hl as (ds & -> & Hds & -> & Hlt & -> & Hmin & Hrest); [|lia].
    exists (c - 48 :: ds). cbn [fmap list_fmap app length]. rewrite val_be_cons, Nat2Z.inj_succ, Z.pow_succ_r by lia.
    split_and!; [f_equal; lia|by apply Forall_cons; split; [unfold is_digit; lia|]|lia|lia| | |done].
    + rewrite (bool_decide_eq_false_2 (c - 48 :: ds = [])) by done. cbn [negb]. by rewrite orb_true_r.
    + destruct (Z.eqb_spec v 0) as [->|]; [|by left]. right. left. split; [done|]. cbn [hd].
      destruct (decide (c - 48 = 0)); [|by left]. right. destruct Hmin as [?|[[? _]|Hn]]; [lia|done|by rewrite Hn].
Qed.

(** A number, then a non-digit or the end. *)
Definition no_digit (rest : list Z) : Prop := match rest with [] => True | c :: _ => OPENSSL_isdigit c = false end.

Lemma CBS_get_u64_decimal_inv cbs v rest :
  CBS_get_u64_decimal cbs = (Some v, rest) → in_range 64 v ∧ cbs = decimal v ++ rest ∧ no_digit rest.
Proof.
  unfold CBS_get_u64_decimal. intros ((r & seen) & s' & Hl & Hr)%M_bind_inv.
  apply u64_decimal_loop_inv in Hl as (ds & -> & Hds & -> & Hlt & -> & Hmin & Hrest); [|lia].
  rewrite orb_false_l in Hr. destruct ds as [|d ds]; [done|]. cbn [bool_decide negb] in Hr.
  rewrite bool_decide_eq_false_2, Z.mul_0_l, Z.add_0_l in * by done.
  pose proof (val_be_range 10 ltac:(lia) (d :: ds) Hds).
  assert (E : (Some (val_be 10 (d :: ds)), s') = (Some v, rest)) by exact Hr. injection E as <- <-.
  split; [lia|]. split; [|done]. rewrite decimal_unique; [done..|].
  destruct Hmin as [?|[[_ [?|?]]|?]]; [lia|by left|right; cbn in *; lia|done].
Qed.

Lemma CBS_get_u64_decimal_bytes v rest :
  in_range 64 v → no_digit rest → CBS_get_u64_decimal (decimal v ++ rest) = (Some v, rest).
Proof.
  intros Hv Hrest. destruct (decimal_digits v Hv) as (Hds & Hne & Hval & Hmin). unfold decimal, CBS_get_u64_decimal.
  set (ds := digits_be 10 (Nat.max 1 (ndigits 10 20 v)) v) in *.
  erewrite M_bind_Some.
  2: { apply (u64_decimal_loop_digits ds 0 false rest Hds ltac:(lia)); [rewrite Hval; lia| |done].
       right; left. split; [done|]. destruct Hmin as [?|?]; [by left|right; lia]. }
  rewrite (bool_decide_eq_false_2 (ds = [])) by done. cbn. by rewrite Hval.
Qed.

(** ** Dotted text *)
Definition dot_tail (rest : list Z) : list Z := match rest with [] => [] | _ => DOT :: rest end.
Fixpoint dotted (vs : list Z) : list Z :=
  match vs with [] => [] | v :: vs => decimal v ++ dot_tail (dotted vs) end.

Lemma decimal_nonempty v : in_range 64 v → decimal v ≠ [].
Proof. intros Hv E. destruct (decimal_digits v Hv) as (_ & Hne & _). apply Hne. by apply fmap_nil_inv in E. Qed.

Lemma CBS_len_gt0 (cbs : CBS) : (CBS_len cbs >? 0) = negb (bool_decide (cbs = [])).
Proof. destruct cbs; [done|]. by rewrite bool_decide_eq_false_2. Qed.

Lemma parse_dotted_decimal_iff cbs v rest :
  parse_dotted_decimal cbs = (Some v, rest) ↔ in_range 64 v ∧ cbs = decimal v ++ dot_tail rest.
Proof.
  split.
  - unfold parse_dotted_decimal. intros (out & s' & Hd & Hr)%M_bind_inv.
    apply CBS_get_u64_decimal_inv in Hd as (Hv & -> & _). destruct s' as [|c s'].
    + cbn in Hr. injection Hr as <- <-. by split.
    + rewrite CBS_get_u8_cons in Hr. destruct (Z.eqb_spec c DOT) as [->|]; [|done].
      rewrite Z.gtb_ltb in Hr. destruct s' as [|c' s']; [done|]. cbn in Hr. injection Hr as <- <-. by split.
  - intros [Hv ->]. unfold parse_dotted_decimal.
    erewrite M_bind_Some by (apply CBS_get_u64_decimal_bytes; [done|by destruct rest]).
    destruct rest as [|c rest]; [done|]. cbn [dot_tail]. by rewrite CBS_get_u8_cons, CBS_len_gt0, Z.eqb_refl.
Qed.

(** The components of a text, read the way the code reads them. *)
Fixpoint arcs_of_text (fuel : nat) (cbs : CBS) : option (list Z) :=
  if CBS_len cbs >? 0 then
    match fuel with
    | O => None
    | S fuel => match parse_dotted_decimal cbs with (Some a, cbs) => vs ← arcs_of_text fuel cbs; Some (a :: vs) | _ => None end
    end
  else Some [].

(** The components read before the first error, and whether there is none. *)
Fixpoint arcs_run (fuel : nat) (cbs : CBS) : list Z * bool :=
  if CBS_len cbs >? 0 then
    match fuel with
    | O => ([], false)
    | S fuel => match parse_dotted_decimal cbs with (Some a, cbs) => let r := arcs_run fuel cbs in (a :: r.1, r.2) | _ => ([], false) end
    end
  else ([], true).

Lemma arcs_of_text_run fuel cbs : arcs_of_text fuel cbs = if (arcs_run fuel cbs).2 then Some (arcs_run fuel cbs).1 else None.
Proof.
  revert cbs. induction fuel as [|fuel IH]; intros cbs; cbn; (destruct (CBS_len cbs >? 0); [|done]); [done|].
  destruct (parse_dotted_decimal cbs) as [[a|] rest]; [|done]. rewrite IH. cbn. by destruct (arcs_run fuel rest) as [vs []].
Qed.

Lemma dot_tail_length rest : (length rest ≤ length (dot_tail rest))%nat.
Proof. destruct rest; cbn; lia. Qed.

Lemma arcs_of_text_iff fuel cbs vs : (length cbs ≤ fuel)%nat →
  arcs_of_text fuel cbs = Some vs ↔ Forall (λ v, in_range 64 v) vs ∧ cbs = dotted vs.
Proof.
  revert cbs vs. induction fuel as [|fuel IH]; intros cbs vs Hl.
  - destruct cbs; [|cbn in Hl; lia]. cbn. split; [by intros [= <-]|]. intros [Hvs E].
    destruct vs as [|v vs]; [done|]. apply Forall_cons in Hvs as [Hv _]. symmetry in E.
    by apply app_eq_nil in E as [?%(decimal_nonempty v Hv) _].
  - cbn [arcs_of_text]. rewrite CBS_len_gt0. destruct (decide (cbs = [])) as [->|Hne].
    + cbn. split; [by intros [= <-]|]. intros [Hvs E]. destruct vs as [|v vs]; [done|].
      apply Forall_cons in Hvs as [Hv _]. symmetry in E. by apply app_eq_nil in E as [?%(decimal_nonempty v Hv) _].
    + rewrite bool_decide_eq_false_2 by done. cbn [negb]. split.
      * destruct (parse_dotted_decimal cbs) as [[a|] rest] eqn:Ep; [|done]. apply parse_dotted_decimal_iff in Ep as [Ha ->].
        pose proof (dot_tail_length rest). pose proof (decimal_nonempty a Ha) as Hd.
        destruct (arcs_of_text fuel rest) as [vs'|] eqn:Er; [|done]. intros [= <-].
        apply IH in Er as [Hvs ->]; [by split; [apply Forall_cons|]|].
        rewrite length_app in Hl. destruct (decimal a); [done|]. cbn in Hl. lia.
      * intros [Hvs ->]. destruct vs as [|v vs]; [done|]. apply Forall_cons in Hvs as [Hv Hvs]. cbn [dotted] in *.
        rewrite (proj2 (parse_dotted_decimal_iff _ v (dotted vs)) (conj Hv eq_refl)).
        assert (length (dotted vs) ≤ fuel)%nat.
        { pose proof (dot_tail_length (dotted vs)). pose proof (decimal_nonempty v Hv).
          rewrite length_app in Hl. destruct (decimal v); [done|]. cbn in Hl. lia. }
        by rewrite (proj2 (IH (dotted vs) vs ltac:(done)) (conj Hvs eq_refl)).
Qed.

Lemma oid_text_dotted o : Forall (λ v, in_range 64 v) (arcs o) → in_range 64 (arc2 o) →
  oid_text o = dotted (arc1 o :: arc2 o :: arcs o).
Proof.
  intros Hvs H2. unfold oid_text. cbn [dotted]. pose proof (decimal_nonempty _ H2) as Hne.
  assert (E : concat ((λ v, DOT :: decimal v) <$> arcs o) = dot_tail (dotted (arcs o))).
  { induction (arcs o) as [|v vs IH]; [done|]. apply Forall_cons in Hvs as [Hv Hvs]. cbn [fmap list_fmap concat dotted].
    rewrite IH by done. pose proof (decimal_nonempty v Hv). by destruct (decimal v). }
  rewrite E. by destruct (decimal (arc2 o)).
Qed.

(** ** The octets *)
Fixpoint arcs_of_der (fuel : nat) (cbs : CBS) : option (list Z) :=
  if CBS_len cbs =? 0 then Some []
  else
    match fuel with
    | O => None
    | S fuel => match parse_base128_integer cbs with (Some a, cbs) => vs ← arcs_of_der fuel cbs; Some (a :: vs) | _ => None end
    end.

Lemma base128_nonempty v : in_range 64 v → base128_bytes v ≠ [].
Proof. intros Hv E%(f_equal length). pose proof (length_base128_bytes v Hv). cbn in *. lia. Qed.

Lemma arcs_of_der_iff fuel cbs vs : bytes_ok cbs → (length cbs ≤ fuel)%nat →
  arcs_of_der fuel cbs = Some vs ↔ Forall (λ v, in_range 64 v) vs ∧ cbs = concat (base128_bytes <$> vs).
Proof.
  revert cbs vs. assert (Hnil : ∀ vs, Some [] = Some vs ↔ Forall (λ v, in_range 64 v) vs ∧ ([] : list Z) = concat (base128_bytes <$> vs)).
  { intros vs. split; [by intros [= <-]|]. intros [Hvs E]. destruct vs as [|v vs]; [done|].
    apply Forall_cons in Hvs as [Hv _]. symmetry in E. by apply app_eq_nil in E as [?%(base128_nonempty v Hv) _]. }
  induction fuel as [|fuel IH]; intros cbs vs Hb Hl.
  - destruct cbs; [|cbn in Hl; lia]. apply Hnil.
  - cbn [arcs_of_der]. destruct cbs as [|b cbs]; [apply Hnil|]. set (l := b :: cbs) in *.
    destruct (Z.eqb_spec (CBS_len l) 0) as [E|_]; [unfold CBS_len in E; cbn in E; lia|]. split.
    + destruct (parse_base128_integer l) as [[a|] rest] eqn:Ep; [|done]. apply parse_base128_canonical in Ep as [Ha Ep]; [|done].
      rewrite Ep in *. pose proof (length_base128_bytes a Ha). rewrite length_app in Hl. apply Forall_app in Hb as [_ Hb].
      destruct (arcs_of_der fuel rest) as [vs'|] eqn:Er; [|done]. intros [= <-].
      apply IH in Er as [Hvs ->]; [by split; [apply Forall_cons|]|done|lia].
    + intros [Hvs E]. rewrite E in *. destruct vs as [|v vs]; [done|]. apply Forall_cons in Hvs as [Hv Hvs].
      cbn [fmap list_fmap concat] in *. rewrite parse_base128_bytes by done. pose proof (length_base128_bytes v Hv).
      rewrite length_app in Hl. apply Forall_app in Hb as [_ Hb].
      by rewrite (proj2 (IH _ vs Hb ltac:(lia)) (conj Hvs eq_refl)).
Qed.

(** ** The loops *)
Section oid_spec.
Context {A : Allocator}.

(** A parsing step, then writes. *)
Lemma writes_with_cbs {T} (p : M CBS T) cbs (f : T * CBS → B unit) l (ox : T → CBS → option (list Z)) :
  (∀ a rest, p cbs = (Some a, rest) → writes (f (a, rest)) l (ox a rest)) →
  writes (with_cbs p cbs ≫= f) l (match p cbs with (Some a, rest) => ox a rest | _ => None end).
Proof.
  intros Hf. pose proof (produces_with_cbs p cbs f l (λ a rest, x ← ox a rest; Some (x, ())) Hf) as H.
  unfold writes. by destruct (p cbs) as [[a|] rest].
Qed.

Lemma bytes_decimal v : in_range 64 v → bytes_ok (decimal v) ∧ CBS_len (decimal v) <= 20.
Proof.
  intros Hv. destruct (decimal_digits v Hv) as (Hds & _). split.
  - unfold decimal. apply Forall_fmap. eapply Forall_impl; [exact Hds|]. unfold is_digit. cbn. lia.
  - unfold decimal, CBS_len. rewrite length_fmap, length_digits_be.
    destruct (decide (v = 0)) as [->|]; [cbn; lia|]. destruct (ndigits_bound 10 ltac:(lia) 20 v ltac:(lia)) as [? ?]. lia.
Qed.

Lemma tip_decimal l v : in_range 64 v → tip_appends [] (add_decimal l v) l (Some (decimal v)).
Proof. intros Hv. destruct (bytes_decimal v Hv). apply tip_of_appends, appends_add_bytes; [done|lia]. Qed.

Lemma tip_dot l : tip_appends [] (CBB_add_u8 l DOT) l (Some [DOT]).
Proof. apply tip_of_appends, appends_add_u8. by vm_compute. Qed.

(** The loops. *)
Lemma emits_oid_text_loop fuel l cbs : (length cbs ≤ fuel)%nat →
  emits (oid_text_loop fuel l cbs) l (concat (base128_bytes <$> (arcs_run fuel cbs).1), (arcs_run fuel cbs).2).
Proof.
  revert cbs. induction fuel as [|fuel IH]; intros cbs Hl; cbn [oid_text_loop arcs_run];
    (destruct (CBS_len cbs >? 0) eqn:E; [|apply emits_ret]).
  - destruct cbs; [done|cbn in Hl; lia].
  - pose proof (emits_with_cbs parse_dotted_decimal cbs (λ '(a, cbs), _ ← add_base128_integer l a; oid_text_loop fuel l cbs) l
      (λ a rest, (base128_bytes a ++ concat (base128_bytes <$> (arcs_run fuel rest).1), (arcs_run fuel rest).2))) as H.
    destruct (parse_dotted_decimal cbs) as [[a|] rest] eqn:Ep; [|by apply H].
    apply H. intros a' rest' [= <- <-]. apply parse_dotted_decimal_iff in Ep as [Ha ->].
    apply (emits_seq _ _ l (base128_bytes a) (concat (base128_bytes <$> (arcs_run fuel rest).1), (arcs_run fuel rest).2));
      [by apply emits_tip, tip_base128_integer|]. intros _. apply IH.
    pose proof (dot_tail_length rest). pose proof (decimal_nonempty a Ha). rewrite length_app in Hl.
    destruct (decimal a); [done|]. cbn in Hl. lia.
Qed.

Lemma writes_oid_to_text_loop fuel l copy : bytes_ok copy → (length copy ≤ fuel)%nat →
  writes (oid_to_text_loop fuel l copy) l (vs ← arcs_of_der fuel copy; Some (concat ((λ v, DOT :: decimal v) <$> vs))).
Proof.
  revert copy. induction fuel as [|fuel IH]; intros copy Hb Hl; cbn [oid_to_text_loop arcs_of_der];
    (destruct (CBS_len copy =? 0) eqn:E; [apply writes_ret|]).
  - destruct copy; [done|cbn in Hl; lia].
  - pose proof (writes_with_cbs parse_base128_integer copy
      (λ '(v, copy), _ ← CBB_add_u8 l DOT; _ ← add_decimal l v; oid_to_text_loop fuel l copy) l
      (λ a rest, z ← (y ← (vs ← arcs_of_der fuel rest; Some (concat ((λ v, DOT :: decimal v) <$> vs))); Some (decimal a ++ y)); Some ([DOT] ++ z))) as H.
    destruct (parse_base128_integer copy) as [[a|] rest] eqn:Ep.
    + assert (Eq : (vs ← vs ← arcs_of_der fuel rest; Some (a :: vs); Some (concat ((λ v, DOT :: decimal v) <$> vs))) =
        (z ← (y ← (vs ← arcs_of_der fuel rest; Some (concat ((λ v, DOT :: decimal v) <$> vs))); Some (decimal a ++ y)); Some ([DOT] ++ z)))
        by by destruct (arcs_of_der fuel rest).
      rewrite Eq. apply H. intros a' rest' [= <- <-]. apply parse_base128_canonical in Ep as [Ha ->]; [|done].
      apply Forall_app in Hb as [_ Hb]. rewrite length_app in Hl. pose proof (length_base128_bytes a Ha).
      apply writes_seq_Some; [apply writes_tip, tip_dot|]. intros _.
      apply writes_seq_Some; [by apply writes_tip, tip_decimal|]. intros _. apply IH; [done|lia].
    + apply H. done.
Qed.

(** ** The two functions *)
Definition text_to_der (text : CBS) : option (list Z) :=
  match parse_dotted_decimal text with
  | (Some a, cbs) =>
      match parse_dotted_decimal cbs with
      | (Some b, cbs) =>
          if negb ((a >? 2) || ((a <? 2) && (b >? 39)) || (b >? UINT64_MAX - 80)) then
            y ← (vs ← arcs_of_text (length text) cbs; Some (concat (base128_bytes <$> vs)));
            Some (base128_bytes (40 * a + b) ++ y)
          else None
      | _ => None
      end
  | _ => None
  end.

Lemma oid_guard a b : 0 <= a → 0 <= b →
  negb ((a >? 2) || ((a <? 2) && (b >? 39)) || (b >? UINT64_MAX - 80)) = true ↔
  0 <= a <= 2 ∧ 0 <= b ∧ (a < 2 → b <= 39) ∧ b <= UINT64_MAX - 80.
Proof.
  intros Ha Hb. rewrite !Z.gtb_ltb. destruct (Z.ltb_spec 2 a), (Z.ltb_spec a 2), (Z.ltb_spec 39 b), (Z.ltb_spec (UINT64_MAX - 80) b);
    cbn [orb andb negb]; split; done || lia.
Qed.

Lemma oid_ok_range o : oid_ok o → in_range 64 (arc1 o) ∧ in_range 64 (arc2 o) ∧ in_range 64 (40 * arc1 o + arc2 o).
Proof. unfold oid_ok, UINT64_MAX. intros (? & ? & ? & ? & _). lia. Qed.

Lemma text_to_der_iff text x :
  text_to_der text = Some x ↔ ∃ o, oid_ok o ∧ text = oid_text o ∧ x = oid_der o.
Proof.
  unfold text_to_der. split.
  - destruct (parse_dotted_decimal text) as [[a|] r1] eqn:E1; [|done]. destruct (parse_dotted_decimal r1) as [[b|] r2] eqn:E2; [|done].
    apply parse_dotted_decimal_iff in E1 as [Ha Et], E2 as [Hb E1]. destruct (negb _) eqn:Eg; [|done].
    apply oid_guard in Eg as (? & ? & ? & ?); [|lia..]. destruct (arcs_of_text _ _) as [vs|] eqn:Ev; [|done]. intros [= <-].
    apply arcs_of_text_iff in Ev as [Hvs ->].
    + exists (mkOid a b vs). split; [unfold oid_ok; cbn [arc1 arc2 arcs]; split_and!; done || lia|]. rewrite oid_text_dotted by done. cbn. by rewrite Et, E1.
    + rewrite Et, E1, !length_app. pose proof (dot_tail_length r2).
      pose proof (dot_tail_length (decimal b ++ dot_tail r2)) as Hd. rewrite length_app in Hd. lia.
  - intros (o & Hok & -> & ->). destruct (oid_ok_range o Hok) as (H1 & H2 & H3). destruct Hok as (Ho1 & Ho2 & Ho3 & Ho4 & Hvs).
    rewrite oid_text_dotted by done. cbn [dotted].
    rewrite (proj2 (parse_dotted_decimal_iff _ (arc1 o) (decimal (arc2 o) ++ dot_tail (dotted (arcs o)))) (conj H1 eq_refl)).
    rewrite (proj2 (parse_dotted_decimal_iff _ (arc2 o) (dotted (arcs o))) (conj H2 eq_refl)).
    rewrite (proj2 (oid_guard (arc1 o) (arc2 o) ltac:(lia) ltac:(lia))) by done.
    set (t := decimal (arc1 o) ++ _). assert (Hl : (length (dotted (arcs o)) ≤ length t)%nat).
    { subst t. rewrite length_app. pose proof (dot_tail_length (dotted (arcs o))).
      pose proof (dot_tail_length (decimal (arc2 o) ++ dot_tail (dotted (arcs o)))) as Hd. rewrite length_app in Hd. lia. }
    by rewrite (proj2 (arcs_of_text_iff (length t) _ (arcs o) Hl) (conj Hvs eq_refl)).
Qed.

(** The octets that the writer has produced at the first error in the text, and
    whether there is none. *)
Definition text_run (text : CBS) : list Z * bool :=
  match parse_dotted_decimal text with
  | (Some a, cbs) =>
      match parse_dotted_decimal cbs with
      | (Some b, cbs) =>
          if negb ((a >? 2) || ((a <? 2) && (b >? 39)) || (b >? UINT64_MAX - 80)) then
            let r := arcs_run (length text) cbs in
            (base128_bytes (40 * a + b) ++ concat (base128_bytes <$> r.1), r.2)
          else ([], false)
      | _ => ([], false)
      end
  | _ => ([], false)
  end.

Lemma text_to_der_run text : text_to_der text = if (text_run text).2 then Some (text_run text).1 else None.
Proof.
  unfold text_to_der, text_run. destruct (parse_dotted_decimal text) as [[a|] r1]; [|done].
  destruct (parse_dotted_decimal r1) as [[b|] r2]; [|done]. destruct (negb _); [|done]. rewrite arcs_of_text_run. cbn.
  by destruct (arcs_run (length text) r2) as [vs []].
Qed.

(** They are those of an identifier that the text starts with, or none. *)
Definition octets_of_prefix (text x : list Z) : Prop :=
  x = [] ∨ ∃ o rest, oid_ok o ∧ text = oid_text o ++ rest ∧ x = oid_der o.

Lemma arcs_run_prefix fuel cbs : Forall (λ v, in_range 64 v) (arcs_run fuel cbs).1 ∧
  ∃ rest, dot_tail cbs = concat ((λ v, DOT :: decimal v) <$> (arcs_run fuel cbs).1) ++ rest.
Proof.
  revert cbs. induction fuel as [|fuel IH]; intros cbs; cbn [arcs_run];
    (destruct (CBS_len cbs >? 0); [|by split; [constructor|eexists]]); [by split; [constructor|eexists]|].
  destruct (parse_dotted_decimal cbs) as [[a|] s] eqn:Ep; [|by split; [constructor|eexists]].
  apply parse_dotted_decimal_iff in Ep as [Ha ->]. destruct (IH s) as [Hvs [rest Hr]]. cbv zeta. cbn [fst fmap list_fmap concat].
  split; [by apply Forall_cons|]. exists rest. rewrite Hr. pose proof (decimal_nonempty a Ha). destruct (decimal a) as [|d ds]; [done|].
  cbn. by rewrite <- app_assoc.
Qed.

Lemma text_run_prefix text : octets_of_prefix text (text_run text).1.
Proof.
  unfold text_run. destruct (parse_dotted_decimal text) as [[a|] r1] eqn:E1; [|by left].
  destruct (parse_dotted_decimal r1) as [[b|] r2] eqn:E2; [|by left]. destruct (negb _) eqn:Eg; [|by left].
  apply parse_dotted_decimal_iff in E1 as [Ha ->], E2 as [Hb ->]. apply oid_guard in Eg as (? & ? & ? & ?); [|lia..].
  cbv zeta. set (fuel := length _). destruct (arcs_run_prefix fuel r2) as [Hvs [rest Hr]]. right.
  exists (mkOid a b (arcs_run fuel r2).1), rest. unfold oid_ok, oid_text, oid_der. cbn [arc1 arc2 arcs].
  split; [split_and!; done || lia|]. split; [|done]. rewrite Hr. pose proof (decimal_nonempty b Hb).
  destruct (decimal b) as [|d ds]; [done|]. cbn. rewrite <- (app_assoc (decimal a)). cbn. by rewrite <- (app_assoc ds).
Qed.

Lemma emits_from_text l text :
  emits ('(a, cbs) ← with_cbs parse_dotted_decimal text;
         '(b, cbs) ← with_cbs parse_dotted_decimal cbs;
         _ ← B_require (negb ((a >? 2) || ((a <? 2) && (b >? 39)) || (b >? UINT64_MAX - 80)));
         _ ← add_base128_integer l ((40 ⊠[64] a) ⊞[64] b);
         oid_text_loop (length text) l cbs) l (text_run text).
Proof.
  unfold text_run. apply (emits_with_cbs _ _ _ _ (λ a rest, match parse_dotted_decimal rest with (Some b, cbs) => _ | _ => ([], false) end)).
  intros a r1 E1. apply (emits_with_cbs _ _ _ _ (λ b cbs, _)). intros b r2 E2.
  apply parse_dotted_decimal_iff in E1 as [Ha Et], E2 as [Hb E1].
  destruct (negb _) eqn:Eg; [|apply emits_return0]. apply oid_guard in Eg as (? & ? & ? & ?); [|lia..].
  rewrite (wrap_small 64 (40 * a)), wrap_small by (unfold UINT64_MAX in *; lia). cbv zeta.
  assert (Hw : emits (_ ← add_base128_integer l (40 * a + b); oid_text_loop (length text) l r2) l
    (base128_bytes (40 * a + b) ++ concat (base128_bytes <$> (arcs_run (length text) r2).1), (arcs_run (length text) r2).2)).
  { apply (emits_seq _ _ l _ (concat (base128_bytes <$> (arcs_run (length text) r2).1), (arcs_run (length text) r2).2));
      [apply emits_tip, tip_base128_integer; unfold UINT64_MAX in *; lia|]. intros _. apply emits_oid_text_loop.
    rewrite Et, E1, !length_app. pose proof (dot_tail_length r2).
    pose proof (dot_tail_length (decimal b ++ dot_tail r2)) as Hd. rewrite length_app in Hd. lia. }
  exact Hw.
Qed.

(** How [CBB_add_asn1_oid_from_text] leaves the document when it fails.  Either
    the children were closed and the text names no identifier: the document is
    as before, with the octets written before the error appended.  Or a child
    could not be closed or there was no room for these octets: the error bit is
    set and every struct can still be used, for [CBB_cleanup] and other calls. *)
Definition oid_text_failed (w w' : world) (root : loc) (L1 : list loc) (F1 : list frame) (l : loc)
    (k : pending) (c : list Z) (F2 : list frame) (text : list Z) : Prop :=
  (∃ inner x, close_all F2 = Some inner ∧ (¬ ∃ o, oid_ok o ∧ text = oid_text o) ∧ octets_of_prefix text x ∧
     rep w' root (L1 ++ [l]) (F1 ++ [(k, c ++ inner ++ x)])) ∨
  (broken root w' ∧ (∀ l', l' ∈ L1 ++ [l] → base_is root w' l') ∧
     ∀ inner, close_all F2 = Some inner → ∃ x, octets_of_prefix text x ∧
       ¬ room_at root w (CBS_len (flat (F1 ++ [(k, c ++ inner ++ x)])))).

(** C32: [CBB_add_asn1_oid_from_text] closes the pending children of the CBB
    and appends the contents octets of the object identifier that the text
    names.  It accepts exactly the dotted decimal texts, with no sign, space,
    redundant zero or trailing dot, of the identifiers with two components or
    more that fit 64 bits and the limits on the first two, and otherwise fails
    only when the children cannot be closed or there is no room.  After a
    failure due to the text the document is still represented, with the
    children closed and the octets of the components before the error (an
    identifier that the text starts with, or none) appended; after one due to
    the children or to room the error bit is set and the structs remain usable. *)
Theorem CBB_add_asn1_oid_from_text_spec (w : world) (root : loc) (L1 : list loc) (F1 : list frame) (l : loc)
    (k : pending) (c : list Z) (L2 : list loc) (F2 : list frame) (text : list Z)
    (Hrep : rep w root (L1 ++ l :: L2) (F1 ++ (k, c) :: F2)) (Hlen : length L1 = length F1) :
  match CBB_add_asn1_oid_from_text l text w with
  | Ok _ w' => ∃ o inner, oid_ok o ∧ text = oid_text o ∧ close_all F2 = Some inner ∧
      rep w' root (L1 ++ [l]) (F1 ++ [(k, c ++ inner ++ oid_der o)]) ∧ frame_ok (L1 ++ l :: L2) w w'
  | Fail w' => frame_ok (L1 ++ l :: L2) w w' ∧ oid_text_failed w w' root L1 F1 l k c F2 text ∧
      ∀ o inner, oid_ok o → text = oid_text o → close_all F2 = Some inner →
        ¬ room_at root w (CBS_len (flat (F1 ++ [(k, c ++ inner ++ oid_der o)])))
  | UB => False
  end.
Proof.
  change (wp (CBB_add_asn1_oid_from_text l text) w
    (λ _ w', ∃ o inner, oid_ok o ∧ text = oid_text o ∧ close_all F2 = Some inner ∧
      rep w' root (L1 ++ [l]) (F1 ++ [(k, c ++ inner ++ oid_der o)]) ∧ frame_ok (L1 ++ l :: L2) w w')
    (λ w', frame_ok (L1 ++ l :: L2) w w' ∧ oid_text_failed w w' root L1 F1 l k c F2 text ∧
      ∀ o inner, oid_ok o → text = oid_text o → close_all F2 = Some inner →
        ¬ room_at root w (CBS_len (flat (F1 ++ [(k, c ++ inner ++ oid_der o)]))))).
  pose proof (text_to_der_run text) as Hrun. pose proof (text_run_prefix text) as Hpre.
  unfold CBB_add_asn1_oid_from_text. apply wp_bind.
  eapply wp_mono; [apply (appends_flush [] l w root L1 F1 k c L2 F2 Hrep Hlen); set_solver| |].
  - intros _ w1 (F & HF & Hrep1 & Hfr1 & Hroom1). destruct (close_all F2) as [inner|] eqn:Hin; [|done].
    cbn -[flat] in HF. injection HF as <-. rewrite app_nil_r in Hrep1.
    assert (Hsub : ∀ w2, frame_ok (L1 ++ [l]) w1 w2 → frame_ok (L1 ++ l :: L2) w w2).
    { intros w2 Hf. eapply frame_ok_trans; [exact Hfr1|exact Hf|]. set_solver. }
    eapply wp_mono; [by apply (emits_from_text l text w1 root L1 F1)| |]; rewrite <- app_assoc.
    + intros a w2 (E & Hrep2 & Hfr2 & _). rewrite E in Hrun. apply text_to_der_iff in Hrun as (o & ? & ? & Ex).
      exists o, inner. rewrite Ex in Hrep2. by split_and!; auto.
    + intros w2 [Hfr2 Hc]. split; [auto|]. unfold oid_text_failed. rewrite Hin. destruct Hc as [[E Hrep2]|(Hbr & Htips & Hno)].
      * assert (Hbad : ¬ ∃ o, oid_ok o ∧ text = oid_text o).
        { intros (o & ? & ?). rewrite E in Hrun. assert (text_to_der text = Some (oid_der o)); [|congruence].
          apply text_to_der_iff. by exists o. }
        split; [left; by exists inner, (text_run text).1|]. intros o ? ? ? _. destruct Hbad. by exists o.
      * assert (Hno' : ¬ room_at root w (CBS_len (flat (F1 ++ [(k, c ++ inner ++ (text_run text).1)])))) by auto.
        split; [right; split_and!; [done..|]; intros ? [= <-]; by exists (text_run text).1|].
        intros o ? Hok Ht [= <-]. assert (Ex : text_to_der text = Some (oid_der o)) by (apply text_to_der_iff; by exists o).
        rewrite Hrun in Ex. destruct (text_run text).2; [|done]. by injection Ex as <-.
  - intros w1 (Hbr & Htips & Hfr & Hno). split; [done|].
    assert (Hmore : ∀ inner x, close_all F2 = Some inner → ¬ room_at root w (CBS_len (flat (F1 ++ [(k, c ++ inner ++ x)])))).
    { intros inner x Hin Hr. rewrite Hin in Hno. eapply Hno; [done|].
      eapply room_at_le; [|done]. rewrite !flat_len_snoc, !CBS_len_app. pose proof (CBS_len_nonneg x). change (CBS_len []) with 0. lia. }
    split; [|auto]. right. split_and!; [done|intros; apply Htips; set_solver|]. intros inner Hin. exists []. split; [by left|auto].
Qed.

(** The text of the octets, as the code prints it. *)
Definition der_to_text (cbs : CBS) : option (list Z) :=
  match parse_base128_integer cbs with
  | (Some v, copy) =>
      vs ← arcs_of_der (length cbs) copy;
      Some ((if v >=? 80 then decimal 2 ++ DOT :: decimal (v - 80) else decimal (v / 40) ++ DOT :: decimal (v mod 40)) ++
            concat ((λ v, DOT :: decimal v) <$> vs))
  | _ => None
  end.

Lemma der_to_text_iff cbs x : bytes_ok cbs →
  der_to_text cbs = Some x ↔ ∃ o, oid_ok o ∧ cbs = oid_der o ∧ x = oid_text o.
Proof.
  intros Hb. unfold der_to_text. split.
  - destruct (parse_base128_integer cbs) as [[v|] copy] eqn:E; [|done]. apply parse_base128_canonical in E as [Hv Ec]; [|done].
    destruct (arcs_of_der _ copy) as [vs|] eqn:Ev; [|done]. intros [= <-].
    apply arcs_of_der_iff in Ev as [Hvs ->]; [|rewrite Ec in Hb; by apply Forall_app in Hb as [_ ?]|rewrite Ec, length_app; lia].
    destruct (Z.geb_spec v 80).
    + exists (mkOid 2 (v - 80) vs). unfold oid_ok, oid_der, oid_text, UINT64_MAX. cbn [arc1 arc2 arcs].
      split; [split_and!; done || lia|]. split; [|done].
      rewrite Ec. do 2 f_equal. lia.
    + pose proof (Z.div_mod v 40 ltac:(lia)). pose proof (Z.mod_pos_bound v 40 ltac:(lia)).
      assert (0 <= v / 40 < 2) by (split; [apply Z.div_pos|apply Z.div_lt_upper_bound]; lia).
      exists (mkOid (v / 40) (v mod 40) vs). unfold oid_ok, oid_der, oid_text, UINT64_MAX. cbn [arc1 arc2 arcs].
      split; [split_and!; done || lia|]. split; [|by rewrite <- app_assoc]. rewrite Ec. do 2 f_equal. lia.
  - intros (o & Hok & -> & ->). destruct (oid_ok_range o Hok) as (_ & _ & H3). destruct Hok as (Ho1 & Ho2 & Ho3 & Ho4 & Hvs).
    unfold oid_der in *. rewrite parse_base128_bytes by done. apply Forall_app in Hb as [_ Hb].
    rewrite (proj2 (arcs_of_der_iff (length (base128_bytes (40 * arc1 o + arc2 o) ++ concat (base128_bytes <$> arcs o))) _ (arcs o) Hb ltac:(rewrite length_app; lia)) (conj Hvs eq_refl)). cbn [mbind option_bind].
    f_equal. unfold oid_text. destruct (Z.geb_spec (40 * arc1 o + arc2 o) 80).
    + assert (arc1 o = 2) as -> by lia. assert (40 * 2 + arc2 o - 80 = arc2 o) as -> by lia. done.
    + rewrite <- app_assoc. assert (arc1 o < 2) by lia. assert (arc2 o <= 39) by auto.
      rewrite <- (Z.div_unique (40 * arc1 o + arc2 o) 40 (arc1 o) (arc2 o)), <- (Z.mod_unique (40 * arc1 o + arc2 o) 40 (arc1 o) (arc2 o)) by lia.
      done.
Qed.

Lemma B_assoc3 {T1 T2 T3 T} (a : B T1) (b : B T2) (c : B T3) (f : T3 → B T) w :
  ((_ ← a; _ ← b; c) ≫= f) w = (_ ← a; _ ← b; x ← c; f x) w.
Proof. unfold mbind, B_bind. destruct (a w) as [? w1| |]; [|done..]. by destruct (b w1). Qed.

(** The text with its terminator, for [CBB_finish]. *)
Lemma writes_to_text cbb v copy fuel : in_range 64 v → bytes_ok copy → (length copy ≤ fuel)%nat →
  writes (_ ← (if v >=? 80 then _ ← CBB_add_bytes cbb [50; DOT]; add_decimal cbb (v ⊟[64] 80)
               else _ ← add_decimal cbb (v / 40); _ ← CBB_add_u8 cbb DOT; add_decimal cbb (v mod 40));
          _ ← oid_to_text_loop fuel cbb copy;
          CBB_add_u8 cbb 0) cbb
    (vs ← arcs_of_der fuel copy;
     Some (((if v >=? 80 then decimal 2 ++ DOT :: decimal (v - 80) else decimal (v / 40) ++ DOT :: decimal (v mod 40)) ++
            concat ((λ v, DOT :: decimal v) <$> vs)) ++ [0])).
Proof.
  intros Hv Hb Hl.
  pose proof (Z.div_mod v 40 ltac:(lia)). pose proof (Z.mod_pos_bound v 40 ltac:(lia)).
  assert (0 <= v / 40) by (apply Z.div_pos; lia).
  assert (Hhead : writes (if v >=? 80 then _ ← CBB_add_bytes cbb [50; DOT]; add_decimal cbb (v ⊟[64] 80)
               else _ ← add_decimal cbb (v / 40); _ ← CBB_add_u8 cbb DOT; add_decimal cbb (v mod 40)) cbb
    (Some (if v >=? 80 then decimal 2 ++ DOT :: decimal (v - 80) else decimal (v / 40) ++ DOT :: decimal (v mod 40)))).
  { apply writes_tip. destruct (Z.geb_spec v 80).
    - rewrite wrap_small by lia. apply (tip_seq_Some [] _ _ cbb [50; DOT] (decimal (v - 80))); [done| |intros _; apply tip_decimal; lia].
      apply tip_of_appends, appends_add_bytes; [by apply (bool_decide_unpack _); vm_compute|by vm_compute].
    - apply (tip_seq_Some [] _ _ cbb (decimal (v / 40)) (DOT :: decimal (v mod 40))); [done|apply tip_decimal; lia|intros _].
      apply (tip_seq_Some [] _ _ cbb [DOT] (decimal (v mod 40))); [done|apply tip_dot|intros _; apply tip_decimal; lia]. }
  assert (Hnul : ∀ u : unit, writes (CBB_add_u8 cbb 0) cbb (Some [0])) by (intros _; apply writes_tip, tip_of_appends, appends_add_u8; lia).
  pose proof (writes_seq _ _ cbb _ _ Hhead (λ _ : unit,
    writes_seq _ _ cbb _ _ (writes_oid_to_text_loop fuel cbb copy Hb Hl) Hnul)) as Hw.
  destruct (arcs_of_der fuel copy) as [vs|]; cbn [mbind option_bind] in *; [|done]. by rewrite <- app_assoc.
Qed.

(** Writing the text into a fresh CBB and finishing it. *)
Lemma wp_to_text cbb v copy fuel w : in_range 64 v → bytes_ok copy → (length copy ≤ fuel)%nat →
  rep w cbb [cbb] [(PFixed 0, [])] →
  let ox := vs ← arcs_of_der fuel copy;
    Some ((if v >=? 80 then decimal 2 ++ DOT :: decimal (v - 80) else decimal (v / 40) ++ DOT :: decimal (v mod 40)) ++
          concat ((λ v, DOT :: decimal v) <$> vs)) in
  wp (_ ← (if v >=? 80 then _ ← CBB_add_bytes cbb [50; DOT]; add_decimal cbb (v ⊟[64] 80)
           else _ ← add_decimal cbb (v / 40); _ ← CBB_add_u8 cbb DOT; add_decimal cbb (v mod 40));
      _ ← oid_to_text_loop fuel cbb copy;
      _ ← CBB_add_u8 cbb 0;
      CBB_finish cbb) w
    (λ txt _, ∃ x, ox = Some x ∧ txt = x ++ [0])
    (λ w', cleanable cbb w' ∧ ∀ x, ox = Some x → ¬ room_at cbb w (CBS_len x + 1)).
Proof.
  intros Hv Hb Hl Hrep ox. pose proof (writes_to_text cbb v copy fuel Hv Hb Hl w cbb [] [] (PFixed 0) [] Hrep eq_refl) as Hw.
  unfold wp. rewrite <- (B_assoc3 _ _ _ (λ _, CBB_finish cbb)). fold (wp (A := list Z)). apply wp_bind. eapply wp_mono; [exact Hw| |].
  - intros _ w1 (x & Hx%with_unit & Hrep1 & _ & Hroom). assert (∃ y, ox = Some y ∧ x = y ++ [0]) as (y & Hy & ->).
    { subst ox. destruct (arcs_of_der fuel copy); [|done]. cbn in Hx |- *. injection Hx as <-. by eexists. }
    eapply wp_mono; [exact (wp_finish w1 cbb ([] ++ y ++ [0]) [] [] Hrep1)| |].
    + intros txt w2 (? & [= <-] & ->). exists y. by rewrite app_nil_r.
    + intros w2 [[_ Hno] Hc]. split; [done|]. intros ? [= <-]%(eq_trans (eq_sym Hy)) Hr. apply (Hno [] eq_refl), Hroom.
      cbn [app]. by rewrite app_nil_r, CBS_len_app.
  - intros w1 ([Hc1 Hc2] & _ & Hno). split; [split; [done|apply Hc2; set_solver]|]. intros x Hx Hr. apply (Hno (x ++ [0]) ()).
    + apply with_unit. subst ox. destruct (arcs_of_der fuel copy); [|done]. cbn in Hx |- *. by injection Hx as <-.
    + cbn [flat app plen replicate]. by rewrite app_nil_r, CBS_len_app.
Qed.

(** C33: [CBS_asn1_oid_to_text] accepts exactly the contents octets of the
    object identifiers whose integers fit 64 bits, minimally encoded, and
    returns their dotted decimal text with its terminator.  On a valid
    identifier it fails only when an allocation does. *)
Theorem CBS_asn1_oid_to_text_spec (cbs : CBS) (w : world) (Hb : bytes_ok cbs) :
  match CBS_asn1_oid_to_text cbs w with
  | Ok txt _ => ∃ o, oid_ok o ∧ cbs = oid_der o ∧ txt = oid_text o ++ [0]
  | Fail _ => NeverFails A → ∀ o, oid_ok o → cbs = oid_der o → 2 ^ 62 <= CBS_len (oid_text o)
  | UB => False
  end.
Proof.
  set (Q := λ txt, ∃ o, oid_ok o ∧ cbs = oid_der o ∧ txt = oid_text o ++ [0]).
  set (E := NeverFails A → ∀ o, oid_ok o → cbs = oid_der o → 2 ^ 62 <= CBS_len (oid_text o)).
  change (wp (CBS_asn1_oid_to_text cbs) w (λ txt _, Q txt) (λ _, E)). apply wp_with_local. intros l.
  apply wp_on_error. apply (wp_mono _ _ (λ txt _, Q txt) _ (λ w', cleanable l w' ∧ E)); [|done|intros w' [? ?]; by apply wp_cleanup].
  apply wp_bind. eapply wp_mono; [by apply wp_init| |].
  2: { intros w' [Hm Hc]. split; [done|]. intros Hnf. destruct (OPENSSL_malloc_succeeds (clock w) 32 ltac:(lia)). congruence. }
  intros _ w1 [Hrep Hroom]. unfold with_cbs. pose proof (λ x, der_to_text_iff cbs x Hb) as Hiff. unfold der_to_text in Hiff.
  assert (Hnone : ∀ w', cleanable l w' → (∀ x, der_to_text cbs = Some x → NeverFails A → 2 ^ 62 <= CBS_len x) → cleanable l w' ∧ E).
  { intros w' Hc Hx. split; [done|]. intros Hnf o Hok Ho. apply Hx; [|done]. apply der_to_text_iff; [done|]. by exists o. }
  destruct (parse_base128_integer cbs) as [[v|] copy] eqn:Ep.
  2: { apply wp_bind, wp_return0, Hnone; [|unfold der_to_text; by rewrite Ep]. split; [destruct Hrep as (_&_&_&_&b&?&_); by eexists|].
       eapply rep_base; [done|set_solver]. }
  apply parse_base128_canonical in Ep as Hc; [|done]. destruct Hc as [Hv Ec].
  assert (Hcb : bytes_ok copy) by (rewrite Ec in Hb; by apply Forall_app in Hb as [_ ?]).
  assert (Hlen : (length copy ≤ length cbs)%nat) by (rewrite Ec, length_app; lia).
  eapply wp_mono; [exact (wp_to_text l v copy (length cbs) w1 Hv Hcb Hlen Hrep)| |].
  - intros txt w2 (x & Hx & ->). rewrite Hx in Hiff. destruct (proj1 (Hiff x) eq_refl) as (o & ? & ? & ->). by exists o.
  - intros w2 [Hc Hno]. apply Hnone; [done|]. intros x Hx Hnf. unfold der_to_text in Hx. rewrite Ep in Hx.
    destruct (Z.le_gt_cases (2 ^ 62) (CBS_len x)) as [|Hlt]; [done|]. exfalso. apply (Hno x Hx), Hroom; [done|lia].
Qed.
End oid_spec.

(** 1.2.840.113549 *)
Definition example_oid : oid := mkOid 1 2 [840; 113549].

Lemma CBB_add_asn1_oid_from_text_witness :
  let text := [49; 46; 50; 46; 56; 52; 48; 46; 49; 49; 51; 53; 52; 57] in
  oid_text example_oid = text ∧ oid_der example_oid = [0x2a; 0x86; 0x48; 0x86; 0xf7; 0x0d] ∧
  match CBB_add_asn1_oid_from_text (A := zero_allocator) 1%nat text example_world with
  | Ok _ w' => ∃ o inner, oid_ok o ∧ text = oid_text o ∧ close_all [] = Some inner ∧
      rep w' 0 ([0%nat] ++ [1%nat]) ([(PFixed 0, [48])] ++ [(PAsn1, [5] ++ inner ++ oid_der o)]) ∧
      frame_ok ([0%nat] ++ [1%nat]) example_world w'
  | Fail w' => frame_ok ([0%nat] ++ [1%nat]) example_world w' ∧
      oid_text_failed (A := zero_allocator) example_world w' 0 [0%nat] [(PFixed 0, [48])] 1 PAsn1 [5] [] text ∧
      ∀ o inner, oid_ok o → text = oid_text o → close_all [] = Some inner →
        ¬ room_at (A := zero_allocator) 0 example_world (CBS_len (flat ([(PFixed 0, [48])] ++ [(PAsn1, [5] ++ inner ++ oid_der o)])))
  | UB => False
  end.
Proof.
  split; [by vm_compute|]. split; [by vm_compute|].
  exact (CBB_add_asn1_oid_from_text_spec (A := zero_allocator) example_world 0 [0%nat] [(PFixed 0, [48])] 1 PAsn1 [5] [] []
    [49; 46; 50; 46; 56; 52; 48; 46; 49; 49; 51; 53; 52; 57] example_rep eq_refl).
Defined.

Lemma CBS_asn1_oid_to_text_witness :
  match CBS_asn1_oid_to_text (A := zero_allocator) [0x2a; 0x86; 0x48; 0x86; 0xf7; 0x0d] example_world with
  | Ok txt _ => ∃ o, oid_ok o ∧ [0x2a; 0x86; 0x48; 0x86; 0xf7; 0x0d] = oid_der o ∧ txt = oid_text o ++ [0]
  | Fail _ => NeverFails zero_allocator → ∀ o, oid_ok o → [0x2a; 0x86; 0x48; 0x86; 0xf7; 0x0d] = oid_der o → 2 ^ 62 <= CBS_len (oid_text o)
  | UB => False
  end.
Proof.
  apply (CBS_asn1_oid_to_text_spec (A := zero_allocator) [0x2a; 0x86; 0x48; 0x86; 0xf7; 0x0d] example_world).
  repeat (apply Forall_cons_2; [lia|]). constructor.
Defined.
