(* ===== verification/ConstTime.v ===== *)
(** The constant-time primitives of [crypto/internal.h] on 64-bit
    [crypto_word_t]: masks instead of branches. *)
From S2P Require Import Prelude.

Definition not64 (a : Z) : Z := 2 ^ 64 - 1 - a.
Definition not8 (a : Z) : Z := 2 ^ 8 - 1 - a.
Definition CONSTTIME_TRUE_W : Z := 2 ^ 64 - 1.
Definition CONSTTIME_FALSE_W : Z := 0.

Definition constant_time_msb_w (a : Z) : Z := 0 ⊟[64] (a ≫ (8 * 8 - 1)).
Definition constant_time_lt_w (a b : Z) : Z := constant_time_msb_w (a .^ ((a .^ b) .| ((a ⊟[64] b) .^ a))).
Definition constant_time_lt_8 (a b : Z) : Z := u8 (constant_time_lt_w a b).
Definition constant_time_ge_w (a b : Z) : Z := not64 (constant_time_lt_w a b).
Definition constant_time_ge_8 (a b : Z) : Z := u8 (constant_time_ge_w a b).
Definition constant_time_is_zero_w (a : Z) : Z := constant_time_msb_w (not64 a .& (a ⊟[64] 1)).
Definition constant_time_is_zero_8 (a : Z) : Z := u8 (constant_time_is_zero_w a).
Definition constant_time_eq_w (a b : Z) : Z := constant_time_is_zero_w (a .^ b).
Definition constant_time_eq_8 (a b : Z) : Z := u8 (constant_time_eq_w a b).
(** [int] arguments are sign-extended to [crypto_word_t]. *)
Definition constant_time_eq_int (a b : Z) : Z := constant_time_eq_w (u64 a) (u64 b).
Definition constant_time_eq_int_8 (a b : Z) : Z := constant_time_eq_8 (u64 a) (u64 b).
(** [value_barrier_w] is the identity. *)
Definition value_barrier_w (a : Z) : Z := a.
Definition constant_time_select_w (mask a b : Z) : Z :=
  let mask := value_barrier_w mask in (mask .& a) .| (not64 mask .& b).
Definition constant_time_select_8 (mask a b : Z) : Z :=
  let m := u8 (value_barrier_w mask) in (m .& a) .| (not8 m .& b).
Definition constant_time_conditional_memcpy (dst src : list Z) (mask : Z) : list Z :=
  zip_with (λ o i, constant_time_select_8 mask i o) dst src.
(** [out[i] ^= mask & in[i]] for every [i]. *)
Definition memxor_loop (mask : Z) (out inp : list Z) : list Z :=
  zip_with (λ o i, u8 (o .^ (value_barrier_w mask .& i))) out inp.
(** [gcc]: the vector loop compiled when [__GNUC__] is defined and
    [__clang__] is not.  It advances [out] but not [in]. *)
Definition constant_time_conditional_memxor (gcc : bool) (dst src : list Z) (mask : Z) : list Z :=
  if gcc then
    let n_vec := Z.to_nat (Z.of_nat (length dst) .& not64 31) in
    memxor_loop (u8 mask) (take n_vec dst) (take n_vec src) ++
    memxor_loop mask (drop n_vec dst) (take (length dst - n_vec) src)
  else memxor_loop mask dst src.

(** ** The masks are right *)
Definition mask_of (b : bool) : Z := if b then CONSTTIME_TRUE_W else CONSTTIME_FALSE_W.
Definition mask8_of (b : bool) : Z := if b then 0xff else 0.

Lemma msb_spec a : in_range 64 a → constant_time_msb_w a = mask_of (Z.testbit a 63).
Proof.
  intros Ha. unfold constant_time_msb_w. change (8 * 8 - 1) with 63.
  assert (E : a ≫ 63 = if Z.testbit a 63 then 1 else 0).
  { rewrite Z.shiftr_div_pow2 by lia. pose proof (Z.testbit_spec' a 63 ltac:(lia)) as H.
    rewrite Z.mod_small in H; [|split; [apply Z.div_pos|apply Z.div_lt_upper_bound]; lia].
    rewrite <- H. by destruct (Z.testbit a 63). }
  rewrite E. by destruct (Z.testbit a 63).
Qed.

Lemma testbit63 a : in_range 64 a → Z.testbit a 63 = (2 ^ 63 <=? a).
Proof.
  intros Ha. pose proof (Z.testbit_spec' a 63 ltac:(lia)) as H.
  rewrite Z.mod_small in H; [|split; [apply Z.div_pos|apply Z.div_lt_upper_bound]; lia].
  destruct (Z.leb_spec (2 ^ 63) a).
  - destruct (Z.testbit a 63); [done|]. symmetry in H. apply Z.div_small_iff in H; [|lia]. lia.
  - rewrite Z.div_small in H by lia. by destruct (Z.testbit a 63).
Qed.

Lemma lxor_range w x y : 0 <= w → in_range w x → in_range w y → in_range w (x .^ y).
Proof.
  intros Hw Hx Hy. rewrite <- (wrap_small w x), <- (wrap_small w y) by done. rewrite !wrap_land by done.
  assert (E : Z.land x (Z.ones w) .^ Z.land y (Z.ones w) = wrap w (x .^ y)); [|rewrite E; by apply wrap_range].
  rewrite wrap_land by done. apply Z.bits_inj'. intros i Hi. autorewrite with bits. btauto.
Qed.

Lemma lt_w_spec a b : in_range 64 a → in_range 64 b → constant_time_lt_w a b = mask_of (a <? b).
Proof.
  intros Ha Hb. unfold constant_time_lt_w. pose proof (wrap_range 64 (a - b) ltac:(lia)) as Hd.
  rewrite msb_spec by (apply lxor_range; [lia|done|apply lor_range; [lia|by apply lxor_range|by apply lxor_range]]).
  f_equal. rewrite !Z.lxor_spec, Z.lor_spec, !Z.lxor_spec, !testbit63 by done.
  assert (Hdm : a ⊟[64] b = if b <=? a then a - b else a - b + 2 ^ 64).
  { destruct (Z.leb_spec b a); [by apply wrap_small; lia|]. symmetry. apply (Z.mod_unique _ _ (-1)); lia. }
  rewrite Hdm. destruct (Z.leb_spec b a), (Z.leb_spec (2 ^ 63) a), (Z.leb_spec (2 ^ 63) b), (Z.ltb_spec a b); try lia;
    cbn [xorb orb]; try (destruct (Z.leb_spec (2 ^ 63) (a - b)); try lia; done);
    destruct (Z.leb_spec (2 ^ 63) (a - b + 2 ^ 64)); try lia; done.
Qed.

Lemma not64_spec a : in_range 64 a → not64 a = Z.lxor a (Z.ones 64).
Proof.
  intros Ha. unfold not64. change (2 ^ 64 - 1) with (Z.ones 64).
  rewrite <- (wrap_small 64 a) at 2 by done. rewrite wrap_land by lia.
  assert (E : Z.ones 64 = a + (Z.lxor (Z.land a (Z.ones 64)) (Z.ones 64))); [|lia].
  rewrite Z.add_nocarry_lxor.
  - apply Z.bits_inj'. intros i Hi. autorewrite with bits. rewrite <- (wrap_small 64 a) at 1 by done.
    rewrite testbit_wrap by lia. rewrite Z.testbit_ones_nonneg by lia. btauto.
  - apply Z.bits_inj'. intros i Hi. autorewrite with bits. rewrite <- (wrap_small 64 a) at 1 by done.
    rewrite testbit_wrap by lia. rewrite Z.testbit_ones_nonneg by lia. btauto.
Qed.

Lemma not64_range a : in_range 64 a → in_range 64 (not64 a).
Proof. unfold not64. lia. Qed.

Lemma is_zero_w_spec a : in_range 64 a → constant_time_is_zero_w a = mask_of (a =? 0).
Proof.
  intros Ha. unfold constant_time_is_zero_w. pose proof (wrap_range 64 (a - 1) ltac:(lia)) as Hd.
  pose proof (not64_range a Ha) as Hn.
  rewrite msb_spec by (apply land_range_l; lia). f_equal.
  rewrite Z.land_spec, !testbit63 by done. unfold not64.
  destruct (Z.eqb_spec a 0) as [->|]; [done|]. rewrite (wrap_small 64 (a - 1)) by lia.
  destruct (Z.leb_spec (2 ^ 63) (2 ^ 64 - 1 - a)), (Z.leb_spec (2 ^ 63) (a - 1)); try lia; done.
Qed.

Lemma eq_w_spec a b : in_range 64 a → in_range 64 b → constant_time_eq_w a b = mask_of (a =? b).
Proof.
  intros Ha Hb. unfold constant_time_eq_w. rewrite is_zero_w_spec by by apply lxor_range. f_equal.
  destruct (Z.eqb_spec (a .^ b) 0) as [E|E], (Z.eqb_spec a b) as [->|Hne]; try done.
  - by apply Z.lxor_eq in E.
  - by rewrite Z.lxor_nilpotent in E.
Qed.

Lemma land_ones_id w a : 0 <= w → in_range w a → (2 ^ w - 1) .& a = a.
Proof.
  intros Hw Ha. replace (2 ^ w - 1) with (Z.ones w) by (rewrite Z.ones_equiv; lia).
  rewrite Z.land_comm, Z.land_ones by done. by apply Z.mod_small.
Qed.

Lemma select_w_spec c a b : in_range 64 a → in_range 64 b → constant_time_select_w (mask_of c) a b = if c then a else b.
Proof.
  intros Ha Hb. unfold constant_time_select_w, value_barrier_w. destruct c; cbn [mask_of].
  - change (not64 CONSTTIME_TRUE_W) with 0. rewrite Z.land_0_l, Z.lor_0_r. by apply (land_ones_id 64).
  - change (not64 CONSTTIME_FALSE_W) with (2 ^ 64 - 1). rewrite Z.land_0_l, Z.lor_0_l. by apply (land_ones_id 64).
Qed.

Lemma select_8_spec c a b : is_byte a → is_byte b → constant_time_select_8 (mask8_of c) a b = if c then a else b.
Proof.
  intros Ha Hb. unfold constant_time_select_8, value_barrier_w. destruct c; cbn [mask8_of].
  - change (u8 255) with 255. change (not8 255) with 0. rewrite Z.land_0_l, Z.lor_0_r. by apply (land_ones_id 8).
  - change (u8 0) with 0. change (not8 0) with (2 ^ 8 - 1). rewrite Z.land_0_l, Z.lor_0_l. by apply (land_ones_id 8).
Qed.

Lemma u8_mask c : u8 (mask_of c) = mask8_of c.
Proof. by destruct c. Qed.
Lemma u8_mask8 c : u8 (mask8_of c) = mask8_of c.
Proof. by destruct c. Qed.

Lemma memxor_loop_spec c m out inp :
  m = mask_of c ∨ m = mask8_of c → bytes_ok out → bytes_ok inp →
  memxor_loop m out inp = zip_with (λ o i, if c then o .^ i else o) out inp.
Proof.
  intros Hm Ho Hi. revert inp Hi. induction Ho as [|o out Hob Ho IH]; intros inp Hi; [done|].
  destruct Hi as [|i inp Hib Hi]; [done|]. cbn [memxor_loop zip_with]. f_equal; [|by apply IH].
  unfold value_barrier_w.
  assert (E : m .& i = if c then i else 0).
  { destruct Hm as [->| ->], c; cbn [mask_of mask8_of]; try apply Z.land_0_l.
    - apply (land_ones_id 64); lia.
    - apply (land_ones_id 8); lia. }
  rewrite E. destruct c; [|by rewrite Z.lxor_0_r; apply wrap_small; lia].
  apply wrap_small. by apply (lxor_range 8).
Qed.

Lemma n_vec_spec n : Z.of_nat n < 2 ^ 64 → (Z.to_nat (Z.of_nat n .& not64 31) = 32 * (n / 32))%nat.
Proof.
  intros Hn.
  assert (E : Z.of_nat n .& not64 31 = Z.shiftl (Z.shiftr (Z.of_nat n) 5) 5).
  { change (not64 31) with (Z.shiftl (Z.ones 59) 5). apply Z.bits_inj'. intros i Hi. autorewrite with bits.
    destruct (Z.ltb_spec i 5).
    - rewrite (Z.testbit_neg_r (Z.ones 59)) by lia. rewrite (Z.leb_antisym (i - 5) 0).
      destruct (Z.ltb_spec (i - 5) 0); [|lia]. cbn. btauto.
    - rewrite Z.testbit_ones_nonneg by lia. replace (i - 5 + 5) with i by lia.
      destruct (Z.leb_spec 0 i), (Z.leb_spec 0 (i - 5)); try lia. cbn [andb].
      destruct (Z.ltb_spec (i - 5) 59); [btauto|].
      rewrite (testbit_range 64 (Z.of_nat n)) by lia. done. }
  rewrite E, Z.shiftr_div_pow2, Z.shiftl_mul_pow2 by lia. change (2 ^ 5) with (Z.of_nat 32).
  rewrite <- Nat2Z.inj_div, <- Nat2Z.inj_mul, Nat2Z.id. lia.
Qed.

(** [constant_time_conditional_memxor] (the portable loop, and the GCC
    vector path when the length is a multiple of 32) xors [src] into [dst] when
    the mask is all ones and leaves [dst] alone when it is zero. *)
Theorem constant_time_conditional_memxor_spec (gcc c : bool) (dst src : list Z)
    (Hlen : length src = length dst) (Hd : bytes_ok dst) (Hs : bytes_ok src) (Hn : Z.of_nat (length dst) < 2 ^ 64)
    (Hgcc : gcc = true → (length dst mod 32 = 0)%nat) :
  constant_time_conditional_memxor gcc dst src (mask_of c) = zip_with (λ o i, if c then o .^ i else o) dst src.
Proof.
  destruct gcc; [|by apply memxor_loop_spec; [left|..]]. unfold constant_time_conditional_memxor. cbn zeta.
  rewrite n_vec_spec by done. specialize (Hgcc eq_refl).
  replace (32 * (length dst / 32))%nat with (length dst) by (apply Nat.Div0.div_exact in Hgcc; lia).
  rewrite <- Hlen at 2. rewrite !firstn_all, drop_all. cbn. rewrite app_nil_r, u8_mask.
  by apply memxor_loop_spec; [right|..].
Qed.

Lemma constant_time_conditional_memxor_spec_witness :
  constant_time_conditional_memxor true (replicate 32 5) (replicate 32 3) (mask_of true) =
    zip_with (λ o i, if true then o .^ i else o) (replicate 32 5) (replicate 32 3).
Proof.
  apply (constant_time_conditional_memxor_spec true true (replicate 32 5) (replicate 32 3));
    [done|apply Forall_replicate; lia|apply Forall_replicate; lia|by vm_compute|done].
Defined.

(** With 33 bytes the GCC path xors the last byte of [dst] with the first byte
    of [src] instead of the last. *)
Lemma constant_time_conditional_memxor_gcc_tail :
  constant_time_conditional_memxor true (replicate 33 0) (replicate 32 1 ++ [2]) (mask_of true) = replicate 33 1 ∧
  zip_with (λ o i, o .^ i) (replicate 33 0) (replicate 32 1 ++ [2]) = replicate 32 1 ++ [2].
Proof. by vm_compute. Qed.

(** The branch-free comparisons and selections are right for every pair of
    64-bit words, not only for the 32-bit words of the SMT queries in the
    comments: each mask is all ones or all zeros according to the comparison,
    and a selection with such a mask picks its first or second operand. *)
Theorem constant_time_masks (a b : Z) (Ha : in_range 64 a) (Hb : in_range 64 b) :
  constant_time_lt_w a b = mask_of (a <? b) ∧
  constant_time_ge_w a b = mask_of (b <=? a) ∧
  constant_time_is_zero_w a = mask_of (a =? 0) ∧
  constant_time_eq_w a b = mask_of (a =? b) ∧
  constant_time_eq_8 a b = mask8_of (a =? b) ∧
  ∀ c, constant_time_select_w (mask_of c) a b = if c then a else b.
Proof.
  split_and!; [by apply lt_w_spec| |by apply is_zero_w_spec|by apply eq_w_spec| |intros c; by apply select_w_spec].
  - unfold constant_time_ge_w. rewrite lt_w_spec by done. rewrite Z.leb_antisym. by destruct (a <? b).
  - unfold constant_time_eq_8. by rewrite eq_w_spec, u8_mask.
Qed.

Lemma constant_time_masks_witness :
  constant_time_lt_w 5 (2 ^ 63 + 1) = mask_of (5 <? 2 ^ 63 + 1) ∧
  constant_time_ge_w 5 (2 ^ 63 + 1) = mask_of (2 ^ 63 + 1 <=? 5) ∧
  constant_time_is_zero_w 5 = mask_of (5 =? 0) ∧
  constant_time_eq_w 5 (2 ^ 63 + 1) = mask_of (5 =? 2 ^ 63 + 1) ∧
  constant_time_eq_8 5 (2 ^ 63 + 1) = mask8_of (5 =? 2 ^ 63 + 1) ∧
  ∀ c, constant_time_select_w (mask_of c) 5 (2 ^ 63 + 1) = if c then 5 else 2 ^ 63 + 1.
Proof. apply (constant_time_masks 5 (2 ^ 63 + 1)); lia. Defined.
