(* ===== verification/Words.v ===== *)
(** Loads, stores and rotations of words ([crypto/internal.h]), and the
    little-endian numbers they read and write. *)
From S2P Require Import Prelude Radix Cbs.

(** [memcpy] of a little-endian [uint32_t]. *)
Definition CRYPTO_load_u32_le (p : list Z) : Z := load_u64_le (take 4 p).
Definition CRYPTO_store_u32_le (v : Z) : list Z := [v .& 0xff; v ≫ 8 .& 0xff; v ≫ 16 .& 0xff; v ≫ 24 .& 0xff].

(** [(value << shift) | (value >> ((-shift) & 63))] *)
Definition CRYPTO_rotl_u64 (value shift : Z) : Z := value ≪[64] shift .| (value ≫ (- shift .& 63)).

(** [(value << shift) | (value >> ((-shift) & 31))] *)
Definition CRYPTO_rotl_u32 (value shift : Z) : Z := value ≪[32] shift .| (value ≫ (- shift .& 31)).

(** [(value >> shift) | (value << ((-shift) & 31))] *)
Definition CRYPTO_rotr_u32 (value shift : Z) : Z := (value ≫ shift) .| value ≪[32] (- shift .& 31).

(** [(value >> shift) | (value << ((-shift) & 63))] *)
Definition CRYPTO_rotr_u64 (value shift : Z) : Z := (value ≫ shift) .| value ≪[64] (- shift .& 63).

(** The number with these little-endian bytes, and its [n] bytes. *)
Definition le_num (l : list Z) : Z := be_val (rev l).
Definition num_to_le (n : nat) (v : Z) : list Z := rev (be_bytes n v).

Lemma le_num_cons b l : le_num (b :: l) = b + 256 * le_num l.
Proof. unfold le_num. cbn [rev]. rewrite val_be_snoc; lia. Qed.

Lemma le_num_nil : le_num [] = 0.
Proof. done. Qed.

Lemma le_num_app a b : le_num (a ++ b) = le_num a + 256 ^ Z.of_nat (length a) * le_num b.
Proof. unfold le_num. rewrite rev_app_distr, val_be_app, length_rev by lia. lia. Qed.

Lemma le_num_range l : bytes_ok l → 0 <= le_num l < 256 ^ Z.of_nat (length l).
Proof.
  intros H. unfold le_num. rewrite <- (length_rev l). apply val_be_range; [lia|].
  by apply Forall_rev.
Qed.

Lemma le_num_zeros n : le_num (replicate n 0) = 0.
Proof. induction n as [|n IH]; [done|]. cbn [replicate]. rewrite le_num_cons, IH. lia. Qed.

Lemma load_u64_le_num l : bytes_ok l → load_u64_le l = le_num l.
Proof.
  induction 1 as [|b l Hb _ IH]; [done|]. unfold load_u64_le in *. cbn [foldr].
  rewrite IH, Z.lor_comm, lor_shiftl_add, le_num_cons by lia. lia.
Qed.

Lemma bytes_ok_take n l : bytes_ok l → bytes_ok (take n l).
Proof. apply Forall_take. Qed.
Lemma bytes_ok_drop n l : bytes_ok l → bytes_ok (drop n l).
Proof. apply Forall_drop. Qed.
Lemma bytes_ok_cat a b : bytes_ok a → bytes_ok b → bytes_ok (a ++ b).
Proof. apply Forall_app_2. Qed.
#[export] Hint Resolve bytes_ok_take bytes_ok_drop bytes_ok_cat : words.

Lemma load_u32_num l : bytes_ok l → CRYPTO_load_u32_le l = le_num (take 4 l).
Proof. intros. apply load_u64_le_num. auto with words. Qed.

Lemma load_u32_range l : bytes_ok l → in_range 32 (CRYPTO_load_u32_le l).
Proof.
  intros H. rewrite load_u32_num by done. pose proof (le_num_range (take 4 l) (bytes_ok_take 4 l H)) as [? Hlt].
  split; [done|]. eapply Z.lt_le_trans; [done|]. change (2 ^ 32) with (256 ^ 4).
  apply Z.pow_le_mono_r; [lia|]. rewrite length_take. lia.
Qed.

(** A 16-byte block as its four words. *)
Lemma le_num_words l :
  bytes_ok l → (16 ≤ length l)%nat →
  le_num (take 16 l) = CRYPTO_load_u32_le l + 2 ^ 32 * CRYPTO_load_u32_le (drop 4 l)
    + 2 ^ 64 * CRYPTO_load_u32_le (drop 8 l) + 2 ^ 96 * CRYPTO_load_u32_le (drop 12 l).
Proof.
  intros H Hl. rewrite !load_u32_num by auto with words.
  assert (E : take 16 l = take 4 l ++ take 4 (drop 4 l) ++ take 4 (drop 8 l) ++ take 4 (drop 12 l)).
  { do 16 (destruct l as [|? l]; [cbn in Hl; lia|]). done. }
  rewrite E, !le_num_app, !length_take, !length_drop, !Nat.min_l by lia. lia.
Qed.

Lemma store_u32_num v : CRYPTO_store_u32_le v = num_to_le 4 v.
Proof.
  unfold CRYPTO_store_u32_le, num_to_le. cbn [digits_be rev app].
  change 0xff with (Z.ones 8). rewrite !Z.land_ones, !Z.shiftr_div_pow2 by lia.
  rewrite !Z.div_div by lia. done.
Qed.

Lemma num_to_le_app n m v : num_to_le (n + m) v = num_to_le n v ++ num_to_le m (v / 256 ^ Z.of_nat n).
Proof.
  unfold num_to_le. revert v. induction n as [|n IH]; intros v.
  { by rewrite Z.div_1_r. }
  cbn [Nat.add digits_be]. rewrite !rev_app_distr. cbn [rev app]. f_equal. rewrite IH.
  f_equal. rewrite Nat2Z.inj_succ, Z.pow_succ_r, Z.div_div by lia. done.
Qed.

Lemma num_to_le_mod n x : num_to_le n (x mod 256 ^ Z.of_nat n) = num_to_le n x.
Proof.
  unfold num_to_le. f_equal. rewrite <- val_digits_be by lia. rewrite <- (length_digits_be 256 n x) at 1.
  apply digits_val_be; [lia|]. apply digits_be_ok. lia.
Qed.

Lemma num_to_le_eq n x y : x mod 256 ^ Z.of_nat n = y mod 256 ^ Z.of_nat n → num_to_le n x = num_to_le n y.
Proof. intros E. by rewrite <- num_to_le_mod, E, num_to_le_mod. Qed.

Lemma store_u32_wrap x : CRYPTO_store_u32_le (u32 x) = num_to_le 4 x.
Proof. rewrite store_u32_num. apply (num_to_le_mod 4 x). Qed.
