(* ===== verification/Keccak.v ===== *)
(** The Keccak sponge of [crypto/keccak/keccak.c]: the permutation, and the
    streaming interface of SHA-3 and SHAKE. *)
From S2P Require Import Prelude Cbs ConstTime Words.

(** ** The permutation *)

(** [state[i]] *)
Definition lane (state : list Z) (i : nat) : Z := nth i state 0.
(** [state[i] ^= v] *)
Definition xor_lane (state : list Z) (i : nat) (v : Z) : list Z := <[i := lane state i .^ v]> state.

Definition theta (state : list Z) : list Z :=
  let c := (λ x, lane state x .^ lane state (x + 5) .^ lane state (x + 10) .^ lane state (x + 15) .^ lane state (x + 20))
           <$> seq 0 5 in
  foldl (λ state x,
    let d := lane c ((x + 4) mod 5) .^ CRYPTO_rotl_u64 (lane c ((x + 1) mod 5)) 1 in
    foldl (λ state y, xor_lane state (y * 5 + x) d) state (seq 0 5)) state (seq 0 5).

(** The arguments of [PI_RHO_STEP], in order. *)
Definition pi_rho_steps : list (nat * Z) :=
  [(10%nat, 1); (7%nat, 3); (11%nat, 6); (17%nat, 10); (18%nat, 15); (3%nat, 21); (5%nat, 28); (16%nat, 36); (8%nat, 45); (21%nat, 55); (24%nat, 2); (4%nat, 14);
   (15%nat, 27); (23%nat, 41); (19%nat, 56); (13%nat, 8); (12%nat, 25); (2%nat, 43); (20%nat, 62); (14%nat, 18); (22%nat, 39); (9%nat, 61); (6%nat, 20); (1%nat, 44)].

Definition PI_RHO_STEP (s : Z * list Z) (step : nat * Z) : Z * list Z :=
  let '(prev_value, state) := s in
  let '(index, rotation) := step in
  let value := CRYPTO_rotl_u64 prev_value rotation in
  (lane state index, <[index := value]> state).

Definition pi_rho (state : list Z) : list Z := (foldl PI_RHO_STEP (lane state 1, state) pi_rho_steps).2.

Definition chi_row (state : list Z) (y : nat) : list Z :=
  let row_index := (5 * y)%nat in
  let orig_x0 := lane state row_index in
  let orig_x1 := lane state (row_index + 1) in
  let state := xor_lane state row_index (not64 orig_x1 .& lane state (row_index + 2)) in
  let state := xor_lane state (row_index + 1) (not64 (lane state (row_index + 2)) .& lane state (row_index + 3)) in
  let state := xor_lane state (row_index + 2) (not64 (lane state (row_index + 3)) .& lane state (row_index + 4)) in
  let state := xor_lane state (row_index + 3) (not64 (lane state (row_index + 4)) .& orig_x0) in
  xor_lane state (row_index + 4) (not64 orig_x0 .& orig_x1).
Definition chi (state : list Z) : list Z := foldl chi_row state (seq 0 5).

Definition kRoundConstants : list Z :=
  [0x0000000000000001; 0x0000000000008082; 0x800000000000808a; 0x8000000080008000; 0x000000000000808b; 0x0000000080000001;
   0x8000000080008081; 0x8000000000008009; 0x000000000000008a; 0x0000000000000088; 0x0000000080008009; 0x000000008000000a;
   0x000000008000808b; 0x800000000000008b; 0x8000000000008089; 0x8000000000008003; 0x8000000000008002; 0x8000000000000080;
   0x000000000000800a; 0x800000008000000a; 0x8000000080008081; 0x8000000000008080; 0x0000000080000001; 0x8000000080008008].

Definition keccak_round (state : list Z) (round : nat) : list Z :=
  xor_lane (chi (pi_rho (theta state))) 0 (lane kRoundConstants round).

Definition keccak_f (state : list Z) : list Z := foldl keccak_round state (seq 0 24).

(** ** The sponge *)
Inductive boringssl_keccak_config_t := boringssl_sha3_256 | boringssl_sha3_512 | boringssl_shake128 | boringssl_shake256.
Inductive boringssl_keccak_phase_t := boringssl_keccak_phase_absorb | boringssl_keccak_phase_squeeze.

Record BORINGSSL_keccak_st := mkKeccak {
  config : boringssl_keccak_config_t;
  phase : boringssl_keccak_phase_t;
  state : list Z;
  rate_bytes : nat;
  absorb_offset : nat;
  squeeze_offset : nat;
}.

(** [state_bytes[i] ^= b], the lanes being little-endian in memory. *)
Definition xor_byte (state : list Z) (i : nat) (b : Z) : list Z := xor_lane state (i / 8) (b ≪ (8 * Z.of_nat (i mod 8))).
(** [state_bytes[i]] *)
Definition state_byte (state : list Z) (i : nat) : Z := (lane state (i / 8) ≫ (8 * Z.of_nat (i mod 8))) .& 0xff.

Definition capacity_bytes (config : boringssl_keccak_config_t) : nat :=
  match config with
  | boringssl_sha3_256 => 512 / 8 | boringssl_sha3_512 => 1024 / 8
  | boringssl_shake128 => 256 / 8 | boringssl_shake256 => 512 / 8
  end.
Definition required_out_len (config : boringssl_keccak_config_t) : nat :=
  match config with boringssl_sha3_256 => 32 | boringssl_sha3_512 => 64 | _ => 0 end.

Definition keccak_init (config : boringssl_keccak_config_t) : BORINGSSL_keccak_st * nat :=
  (mkKeccak config boringssl_keccak_phase_absorb (replicate 25 0) (200 - capacity_bytes config) 0 0,
   required_out_len config).

(** [None] is [abort()]. *)
Definition BORINGSSL_keccak_init (config : boringssl_keccak_config_t) : option BORINGSSL_keccak_st :=
  let '(ctx, required_out_len) := keccak_init config in
  if negb (required_out_len =? 0)%nat then None else Some ctx.

(** [for (i = 0; ...) state_bytes[off + i] ^= in[i];] *)
Fixpoint xor_bytes (state : list Z) (off : nat) (inp : list Z) : list Z :=
  match inp with
  | [] => state
  | b :: inp => xor_bytes (xor_byte state off b) (S off) inp
  end.

(** [for (i = 0; i < rate_words; i++) ctx->state[i] ^= CRYPTO_load_u64_le(in + 8 * i);] *)
Definition xor_words (state : list Z) (rate_words : nat) (inp : list Z) : list Z :=
  foldl (λ state i, xor_lane state i (load_u64_le (take 8 (drop (8 * i) inp)))) state (seq 0 rate_words).

(** [while (in_len >= ctx->rate_bytes)]; each turn consumes a block. *)
Fixpoint absorb_blocks (fuel : nat) (rate : nat) (state inp : list Z) : list Z * list Z :=
  match fuel with
  | O => (state, inp)
  | S fuel =>
      if (rate <=? length inp)%nat then
        absorb_blocks fuel rate (keccak_f (xor_words state (rate / 8) inp)) (drop rate inp)
      else (state, inp)
  end.

Definition BORINGSSL_keccak_absorb (ctx : BORINGSSL_keccak_st) (inp : list Z) : option BORINGSSL_keccak_st :=
  match phase ctx with
  | boringssl_keccak_phase_squeeze => None
  | boringssl_keccak_phase_absorb =>
      let full st inp :=
        let '(st, inp) := absorb_blocks (length inp) (rate_bytes ctx) st inp in
        Some (mkKeccak (config ctx) (phase ctx) (xor_bytes st 0 inp) (rate_bytes ctx) (length inp) (squeeze_offset ctx)) in
      if negb (absorb_offset ctx =? 0)%nat then
        let first_block_len := (rate_bytes ctx - absorb_offset ctx)%nat in
        let st := xor_bytes (state ctx) (absorb_offset ctx) (take first_block_len inp) in
        if (length inp <? first_block_len)%nat then
          Some (mkKeccak (config ctx) (phase ctx) st (rate_bytes ctx) (absorb_offset ctx + length inp) (squeeze_offset ctx))
        else full (keccak_f st) (drop first_block_len inp)
      else full (state ctx) inp
  end.

Definition terminator (config : boringssl_keccak_config_t) : Z :=
  match config with
  | boringssl_sha3_256 | boringssl_sha3_512 => 0x06
  | boringssl_shake128 | boringssl_shake256 => 0x1f
  end.

Definition keccak_finalize (ctx : BORINGSSL_keccak_st) : list Z :=
  keccak_f (xor_byte (xor_byte (state ctx) (absorb_offset ctx) (terminator (config ctx))) (rate_bytes ctx - 1) 0x80).

(** [while (out_len)]; each turn writes a byte or more. *)
Fixpoint squeeze_loop (fuel : nat) (rate : nat) (st : list Z) (off out_len : nat) : list Z * nat * list Z :=
  match fuel with
  | O => (st, off, [])
  | S fuel =>
      if (out_len =? 0)%nat then (st, off, [])
      else
        let '(st, off) := if (off =? rate)%nat then (keccak_f st, 0%nat) else (st, off) in
        let remaining := (rate - off)%nat in
        let todo := if (remaining <? out_len)%nat then remaining else out_len in
        let out := state_byte st <$> seq off todo in
        let '(st, off, rest) := squeeze_loop fuel rate st (off + todo) (out_len - todo) in
        (st, off, out ++ rest)
  end.

(** The phase change at the head of [BORINGSSL_keccak_squeeze]. *)
Definition start_squeeze (ctx : BORINGSSL_keccak_st) : BORINGSSL_keccak_st :=
  match phase ctx with
  | boringssl_keccak_phase_absorb =>
      mkKeccak (config ctx) boringssl_keccak_phase_squeeze (keccak_finalize ctx) (rate_bytes ctx) (absorb_offset ctx) (squeeze_offset ctx)
  | boringssl_keccak_phase_squeeze => ctx
  end.

Definition BORINGSSL_keccak_squeeze (ctx : BORINGSSL_keccak_st) (out_len : nat) : BORINGSSL_keccak_st * list Z :=
  let ctx := start_squeeze ctx in
  let '(st, off, out) := squeeze_loop out_len (rate_bytes ctx) (state ctx) (squeeze_offset ctx) out_len in
  (mkKeccak (config ctx) (phase ctx) st (rate_bytes ctx) (absorb_offset ctx) off, out).

Definition BORINGSSL_keccak (out_len : nat) (inp : list Z) (config : boringssl_keccak_config_t) : option (list Z) :=
  let '(ctx, required_out_len) := keccak_init config in
  if negb (required_out_len =? 0)%nat && negb (out_len =? required_out_len)%nat then None
  else
    ctx ← BORINGSSL_keccak_absorb ctx inp;
    Some (BORINGSSL_keccak_squeeze ctx out_len).2.

(** SHA3-256 of the empty string. *)
Lemma sha3_256_empty :
  BORINGSSL_keccak 32 [] boringssl_sha3_256 =
  Some [0xa7; 0xff; 0xc6; 0xf8; 0xbf; 0x1e; 0xd7; 0x66; 0x51; 0xc1; 0x47; 0x56; 0xa0; 0x61; 0xd6; 0x62;
        0xf5; 0x80; 0xff; 0x4d; 0xe4; 0x3b; 0x49; 0xfa; 0x82; 0xd8; 0x0a; 0x4b; 0x80; 0xf8; 0x43; 0x4a].
Proof. by vm_compute. Qed.

(** ** The permutation of the Keccak specification

    Lane [(x, y)] of a state [A] is [A x y], coordinates modulo 5; the array
    of the code is in row-major order. *)
Definition matrix := nat → nat → Z.
Definition of_state (state : list Z) : matrix := λ x y, lane state (5 * (y mod 5) + x mod 5)%nat.
Definition to_state (A : matrix) : list Z := (λ i, A (i mod 5)%nat (i / 5)%nat) <$> seq 0 25.

(** Rotation of a 64-bit lane. *)
Definition rot (v n : Z) : Z := u64 (Z.shiftl v n) .| Z.shiftr v (64 - n).

Definition Theta (A : matrix) : matrix := λ x y,
  let C x := A x 0%nat .^ A x 1%nat .^ A x 2%nat .^ A x 3%nat .^ A x 4%nat in
  A x y .^ (C (x + 4)%nat .^ rot (C (x + 1)%nat) 1).

(** The offset of [(x, y)] is [(t + 1) (t + 2) / 2] modulo 64 where [(x, y)] is
    the [t]-th point after [(1, 0)] under [(x, y) -> (y, 2 x + 3 y)], and 0 at
    the origin. *)
Fixpoint rho_offset (fuel t cx cy x y : nat) : Z :=
  match fuel with
  | O => 0
  | S fuel =>
      if (cx =? x)%nat && (cy =? y)%nat then (Z.of_nat t + 1) * (Z.of_nat t + 2) / 2 mod 64
      else rho_offset fuel (S t) cy ((2 * cx + 3 * cy) mod 5)%nat x y
  end.
Definition Rho (A : matrix) : matrix := λ x y, rot (A x y) (rho_offset 24 0 1 0 (x mod 5)%nat (y mod 5)%nat).
(** [B (y, 2 x + 3 y) = A (x, y)]: the point read for [(x, y)]. *)
Definition Pi (A : matrix) : matrix := λ x y, A (x + 3 * y)%nat x.
Definition Chi (A : matrix) : matrix := λ x y, A x y .^ (not64 (A (x + 1)%nat y) .& A (x + 2)%nat y).

(** The bits [x^t mod (x^8 + x^6 + x^5 + x^4 + 1) mod x], from the LFSR. *)
Definition lfsr_step (r : Z) : Z := let r := Z.shiftl r 1 in if Z.testbit r 8 then r .^ 0x171 else r.
Definition rc_bit (t : nat) : bool := Z.testbit (Nat.iter t lfsr_step 1) 0.
(** Bit [2^j - 1] of the constant of round [i] is the bit [j + 7 i]. *)
Definition round_constant (i : nat) : Z :=
  foldr (λ j acc, acc .| (if rc_bit (j + 7 * i)%nat then Z.shiftl 1 (2 ^ Z.of_nat j - 1) else 0)) 0 (seq 0 7).
Definition Iota (i : nat) (A : matrix) : matrix := λ x y,
  if ((x mod 5 =? 0) && (y mod 5 =? 0))%nat then A x y .^ round_constant i else A x y.

Definition Round (A : matrix) (i : nat) : list Z := to_state (Iota i (Chi (Pi (Rho (Theta A))))).
Definition Keccak_p (state : list Z) : list Z := foldl (λ s i, Round (of_state s) i) state (seq 0 24).

Definition state_ok (s : list Z) : Prop := length s = 25%nat ∧ Forall (λ v, in_range 64 v) s.

Ltac lanes s :=
  let H := fresh in
  do 25 (let v := fresh "a" in destruct s as [|v s]; [discriminate|]); destruct s; [|discriminate].

Lemma kRoundConstants_spec : kRoundConstants = round_constant <$> seq 0 24.
Proof. by vm_compute. Qed.

Lemma theta_spec s : length s = 25%nat → theta s = to_state (Theta (of_state s)).
Proof. intros H. lanes s. reflexivity. Qed.

Lemma rot_0 v : in_range 64 v → rot v 0 = v.
Proof.
  intros Hv. unfold rot. rewrite Z.shiftl_0_r, wrap_small by done. rewrite Z.shiftr_div_pow2 by lia.
  rewrite Z.div_small by lia. apply Z.lor_0_r.
Qed.

Lemma pi_rho_spec s : length s = 25%nat → in_range 64 (lane s 0) → pi_rho s = to_state (Pi (Rho (of_state s))).
Proof.
  intros H H0. lanes s.
  transitivity (<[0%nat := rot a 0]> (pi_rho [a; a0; a1; a2; a3; a4; a5; a6; a7; a8; a9; a10; a11; a12; a13; a14; a15; a16; a17; a18; a19; a20; a21; a22; a23])).
  - by rewrite rot_0.
  - reflexivity.
Qed.

Lemma chi_spec s : length s = 25%nat → chi s = to_state (Chi (of_state s)).
Proof. intros H. lanes s. reflexivity. Qed.

(** Matrices are compared point by point; all steps respect that, and keep
    their coordinates modulo 5. *)
#[export] Instance matrix_equiv : Equiv matrix := pointwise_relation nat (pointwise_relation nat eq).
#[export] Instance matrix_equivalence : Equivalence (≡@{matrix}).
Proof. unfold equiv, matrix_equiv. apply _. Qed.
Definition periodic (A : matrix) : Prop := ∀ x y, A x y = A (x mod 5)%nat (y mod 5)%nat.

#[export] Instance Theta_proper : Proper ((≡) ==> (≡)) Theta.
Proof. intros A A' H x y. unfold Theta. by rewrite !(H _ _). Qed.
#[export] Instance Rho_proper : Proper ((≡) ==> (≡)) Rho.
Proof. intros A A' H x y. unfold Rho. by rewrite !(H _ _). Qed.
#[export] Instance Pi_proper : Proper ((≡) ==> (≡)) Pi.
Proof. intros A A' H x y. apply H. Qed.
#[export] Instance Chi_proper : Proper ((≡) ==> (≡)) Chi.
Proof. intros A A' H x y. unfold Chi. by rewrite !(H _ _). Qed.
#[export] Instance Iota_proper i : Proper ((≡) ==> (≡)) (Iota i).
Proof. intros A A' H x y. unfold Iota. by rewrite !(H _ _). Qed.
#[export] Instance to_state_proper : Proper ((≡) ==> (=)) to_state.
Proof. intros A A' H. apply list_fmap_ext. intros i k _. apply H. Qed.

Lemma mod5_add a b : ((a mod 5 + b) mod 5 = (a + b) mod 5)%nat.
Proof. apply Nat.Div0.add_mod_idemp_l. Qed.

Lemma of_state_periodic s : periodic (of_state s).
Proof. intros x y. unfold of_state. by rewrite !Nat.Div0.mod_mod. Qed.
Lemma Theta_periodic A : periodic A → periodic (Theta A).
Proof.
  intros H x y. unfold Theta. rewrite (H x y). cbv zeta.
  rewrite !(H (x + 4)%nat), !(H (x + 1)%nat), !(H (x mod 5 + 4)%nat), !(H (x mod 5 + 1)%nat). by rewrite !mod5_add.
Qed.
Lemma Rho_periodic A : periodic A → periodic (Rho A).
Proof. intros H x y. unfold Rho. rewrite (H x y). by rewrite !Nat.Div0.mod_mod. Qed.
Lemma Pi_periodic A : periodic A → periodic (Pi A).
Proof.
  intros H x y. unfold Pi. rewrite (H (x + 3 * y)%nat), (H (x mod 5 + 3 * (y mod 5))%nat), Nat.Div0.mod_mod, mod5_add.
  f_equal. rewrite Nat.Div0.add_mod, (Nat.Div0.add_mod x (3 * (y mod 5))), Nat.Div0.mul_mod_idemp_r. done.
Qed.
Lemma Chi_periodic A : periodic A → periodic (Chi A).
Proof.
  intros H x y. unfold Chi. rewrite (H x y), (H (x + 1)%nat), (H (x + 2)%nat), (H (x mod 5 + 1)%nat), (H (x mod 5 + 2)%nat).
  by rewrite !mod5_add, !Nat.Div0.mod_mod.
Qed.
Lemma Iota_periodic i A : periodic A → periodic (Iota i A).
Proof. intros H x y. unfold Iota. rewrite (H x y). by rewrite !Nat.Div0.mod_mod. Qed.

Lemma of_to_state A : periodic A → of_state (to_state A) ≡ A.
Proof.
  intros H x y. rewrite (H x y). unfold of_state.
  pose proof (Nat.mod_upper_bound x 5 ltac:(lia)). pose proof (Nat.mod_upper_bound y 5 ltac:(lia)).
  generalize dependent (x mod 5)%nat. generalize dependent (y mod 5)%nat. intros b Hb a Ha.
  do 5 (destruct b as [|b]; [do 5 (destruct a as [|a]; [reflexivity|]); lia|]). lia.
Qed.

Lemma xor_0_iota s i : length s = 25%nat → xor_lane s 0 (round_constant i) = to_state (Iota i (of_state s)).
Proof. intros H. lanes s. reflexivity. Qed.

Lemma to_state_length A : length (to_state A) = 25%nat.
Proof. done. Qed.

Lemma rot_range v n : 0 <= n <= 64 → in_range 64 v → in_range 64 (rot v n).
Proof.
  intros Hn Hv. unfold rot. apply lor_range; [lia|apply wrap_range; lia|apply shiftr_range; lia].
Qed.

Definition lanes_ok (A : matrix) : Prop := ∀ x y, in_range 64 (A x y).

Lemma of_state_ok s : state_ok s → lanes_ok (of_state s).
Proof.
  intros [Hl Hr] x y. unfold of_state, lane.
  destruct (nth_in_or_default (5 * (y mod 5) + x mod 5) s 0) as [Hin| ->]; [|lia].
  rewrite Forall_forall in Hr. apply Hr. by apply list_elem_of_In.
Qed.
Lemma to_state_ok A : lanes_ok A → state_ok (to_state A).
Proof. intros H. split; [done|]. apply Forall_fmap, Forall_forall. intros i _. apply H. Qed.

#[local] Hint Resolve lxor_range not64_range rot_range land_range_l : words.

Lemma Theta_ok A : lanes_ok A → lanes_ok (Theta A).
Proof. intros H x y. unfold Theta. cbv zeta. repeat (apply lxor_range || apply rot_range || apply H || lia). Qed.
Lemma rho_offset_range fuel t cx cy x y : 0 <= rho_offset fuel t cx cy x y <= 64.
Proof.
  revert t cx cy. induction fuel as [|fuel IH]; intros t cx cy; cbn [rho_offset]; [lia|].
  destruct (_ && _); [|apply IH]. pose proof (Z.mod_pos_bound ((Z.of_nat t + 1) * (Z.of_nat t + 2) / 2) 64 ltac:(lia)). lia.
Qed.
Lemma Rho_ok A : lanes_ok A → lanes_ok (Rho A).
Proof. intros H x y. apply rot_range; [apply rho_offset_range|apply H]. Qed.
Lemma Chi_ok A : lanes_ok A → lanes_ok (Chi A).
Proof. intros H x y. apply lxor_range; [lia|apply H|apply land_range_l; [lia|apply not64_range, H|apply H]]. Qed.
Lemma round_constant_range i : (i < 24)%nat → in_range 64 (round_constant i).
Proof.
  intros Hi. assert (E : kRoundConstants !! i = Some (round_constant i)).
  { rewrite kRoundConstants_spec, list_lookup_fmap, lookup_seq_lt by lia. done. }
  assert (Hall : Forall (λ v, in_range 64 v) kRoundConstants) by (apply (bool_decide_unpack _); by vm_compute).
  exact (Forall_lookup_1 _ _ _ _ Hall E).
Qed.
Lemma Iota_ok i A : (i < 24)%nat → lanes_ok A → lanes_ok (Iota i A).
Proof. intros Hi H x y. unfold Iota. destruct (_ && _); [apply lxor_range; [lia|apply H|by apply round_constant_range]|apply H]. Qed.

Lemma keccak_round_spec s i : (i < 24)%nat → state_ok s →
  keccak_round s i = Round (of_state s) i ∧ state_ok (keccak_round s i).
Proof.
  intros Hi Hs. pose proof (of_state_ok s Hs) as Hok. pose proof (of_state_periodic s) as Hp.
  assert (E : keccak_round s i = Round (of_state s) i).
  { unfold keccak_round, Round. rewrite theta_spec by apply Hs.
    rewrite pi_rho_spec; [|done|].
    2: { exact (of_state_ok _ (to_state_ok _ (Theta_ok _ Hok)) 0%nat 0%nat). }
    rewrite chi_spec by done.
    assert (Ec : lane kRoundConstants i = round_constant i).
    { unfold lane. rewrite nth_lookup, kRoundConstants_spec, list_lookup_fmap, lookup_seq_lt by lia. done. }
    rewrite Ec, xor_0_iota by done.
    rewrite of_to_state by (apply Chi_periodic, of_state_periodic).
    rewrite of_to_state by (apply Pi_periodic, Rho_periodic, of_state_periodic).
    by rewrite of_to_state by (apply Theta_periodic, of_state_periodic). }
  split; [done|]. rewrite E. apply to_state_ok, Iota_ok, Chi_ok; [done|]. intros x y. by apply Rho_ok, Theta_ok.
Qed.

Lemma keccak_f_rounds s l : Forall (λ i, (i < 24)%nat) l → state_ok s →
  foldl keccak_round s l = foldl (λ s i, Round (of_state s) i) s l ∧ state_ok (foldl keccak_round s l).
Proof.
  revert s. induction l as [|i l IH]; intros s Hl Hs; [done|]. apply Forall_cons in Hl as [Hi Hl]. cbn [foldl].
  destruct (keccak_round_spec s i Hi Hs) as [<- Hs']. by apply IH.
Qed.

Lemma rounds_lt : Forall (λ i, (i < 24)%nat) (seq 0 24).
Proof. apply (bool_decide_unpack _). by vm_compute. Qed.
Lemma keccak_f_ok s : state_ok s → state_ok (keccak_f s).
Proof. intros Hs. apply (keccak_f_rounds s (seq 0 24) rounds_lt Hs). Qed.

(** C31: the permutation.  On every state of 25 lanes, [keccak_f] is 24 rounds
    of the five step mappings of the Keccak specification, with the rotation
    offsets and round constants computed from their definitions: the in-place
    trail of the rho and pi steps, the in-place chi and the tables are right. *)
Theorem keccak_f_permutation (s : list Z) (Hs : state_ok s) : keccak_f s = Keccak_p s.
Proof. apply (keccak_f_rounds s (seq 0 24) rounds_lt Hs). Qed.

Lemma keccak_f_length s : length s = 25%nat → length (keccak_f s) = 25%nat.
Proof.
  unfold keccak_f. generalize (seq 0 24). intros l. revert s. induction l as [|i l IH]; intros s H; [done|]. cbn [foldl].
  apply IH. unfold keccak_round, xor_lane. rewrite length_insert, chi_spec; [done|].
  rewrite theta_spec by done. generalize (Theta (of_state s)). intros A. reflexivity.
Qed.
#[local] Opaque keccak_f.

(** ** The sponge construction *)

(** [pad10*1] after the domain suffix, in bytes, for a message whose last
    block has [n] bytes. *)
Definition padding (rate : nat) (suffix : Z) (n : nat) : list Z :=
  if (n =? rate - 1)%nat then [suffix .^ 0x80] else suffix :: replicate (rate - n - 2) 0 ++ [0x80].
Fixpoint blocks_of (fuel rate : nat) (l : list Z) : list (list Z) :=
  match fuel with
  | O => []
  | S fuel => if (rate <=? length l)%nat then take rate l :: blocks_of fuel rate (drop rate l) else []
  end.
Definition absorb_block (st block : list Z) : list Z := keccak_f (xor_bytes st 0 block).
(** [SPONGE(msg, n)]: absorb the padded message block by block, then read the
    blocks of the output stream. *)
Definition sponge (rate : nat) (suffix : Z) (msg : list Z) (n : nat) : list Z :=
  let padded := msg ++ padding rate suffix (length msg mod rate) in
  let st := foldl absorb_block (replicate 25 0) (blocks_of (length padded) rate padded) in
  (λ i, state_byte (Nat.iter (i / rate) keccak_f st) (i mod rate)) <$> seq 0 n.

(** *** Absorbing a byte at a time *)
Definition feed (rate : nat) (s : list Z * nat) (b : Z) : list Z * nat :=
  let st := xor_byte s.1 s.2 b in
  if (S s.2 =? rate)%nat then (keccak_f st, 0%nat) else (st, S s.2).

Lemma xor_bytes_app st off a b : xor_bytes st off (a ++ b) = xor_bytes (xor_bytes st off a) (off + length a) b.
Proof.
  revert st off. induction a as [|x a IH]; intros st off; cbn [app xor_bytes length]; [by rewrite Nat.add_0_r|].
  by rewrite IH, Nat.add_succ_r.
Qed.

Lemma feed_partial rate st off l : (off + length l < rate)%nat →
  foldl (feed rate) (st, off) l = (xor_bytes st off l, (off + length l)%nat).
Proof.
  revert st off. induction l as [|b l IH]; intros st off Hl; cbn [foldl xor_bytes length] in *; [by rewrite Nat.add_0_r|].
  unfold feed at 2. cbn [fst snd]. destruct (Nat.eqb_spec (S off) rate); [lia|]. rewrite IH by lia. f_equal. lia.
Qed.

Lemma feed_block rate st off l : (off + length l = rate)%nat → l ≠ [] →
  foldl (feed rate) (st, off) l = (keccak_f (xor_bytes st off l), 0%nat).
Proof.
  intros Hl Hne. destruct l as [|b l _] using rev_ind; [done|]. rewrite length_app in Hl. cbn [length] in Hl.
  rewrite foldl_app, feed_partial by lia. cbn [foldl]. unfold feed. cbn [fst snd].
  destruct (Nat.eqb_spec (S (off + length l)) rate); [|lia]. by rewrite xor_bytes_app.
Qed.

Lemma feed_blocks rate fuel st l : (0 < rate)%nat → (length l ≤ fuel)%nat → (length l mod rate = 0)%nat →
  foldl (feed rate) (st, 0%nat) l = (foldl absorb_block st (blocks_of fuel rate l), 0%nat).
Proof.
  intros Hr. revert st l. induction fuel as [|fuel IH]; intros st l Hf Hm.
  - by destruct l; [|cbn in Hf; lia].
  - cbn [blocks_of]. destruct (Nat.leb_spec rate (length l)) as [Hle|Hlt].
    + rewrite <- (take_drop rate l) at 1. rewrite foldl_app.
      assert (Hlen : length (take rate l) = rate) by (rewrite length_take; lia).
      rewrite feed_block; [|lia|intros E; rewrite E in Hlen; cbn in Hlen; lia].
      rewrite IH; [reflexivity|rewrite length_drop; lia|]. rewrite length_drop.
      replace (length l) with ((length l - rate) + 1 * rate)%nat in Hm by lia. by rewrite Nat.Div0.mod_add in Hm.
    + rewrite Nat.mod_small in Hm by done. by destruct l; [|cbn in Hm; lia].
Qed.

(** *** Eight bytes at a time *)
Lemma xor_lane_lane st i v w : xor_lane (xor_lane st i v) i w = xor_lane st i (v .^ w).
Proof.
  unfold xor_lane. rewrite list_insert_insert_eq. destruct (decide (i < length st)%nat) as [Hi|Hi].
  - f_equal. unfold lane at 1. rewrite nth_lookup, list_lookup_insert_eq by done. cbn. apply Z.lxor_assoc.
  - by rewrite !list_insert_ge by lia.
Qed.

Lemma load_cons b l : is_byte b → load_u64_le (b :: l) = b .^ (load_u64_le l ≪ 8).
Proof.
  intros Hb. unfold load_u64_le. cbn [foldr]. symmetry. apply Z.lxor_lor.
  apply Z.bits_inj'. intros i Hi. rewrite Z.land_spec, Z.bits_0. destruct (Z.lt_ge_cases i 8).
  - by rewrite Z.shiftl_spec_low, andb_false_r by lia.
  - by rewrite testbit_byte by lia.
Qed.

Lemma xor_bytes_lane st i k l : bytes_ok l → (k + length l ≤ 8)%nat →
  (i < length st)%nat → xor_bytes st (8 * i + k) l = xor_lane st i (load_u64_le l ≪ (8 * Z.of_nat k)).
Proof.
  revert st k. induction l as [|b l IH]; intros st k Hb Hk Hi; cbn [xor_bytes length] in *.
  - unfold xor_lane, load_u64_le. cbn [foldr]. rewrite Z.shiftl_0_l, Z.lxor_0_r. symmetry. apply list_insert_id.
    unfold lane. rewrite nth_lookup. destruct (lookup_lt_is_Some_2 st i Hi) as [v ->]. done.
  - apply Forall_cons in Hb as [Hb Hl].
    assert (Hbyte : xor_byte st (8 * i + k) b = xor_lane st i (b ≪ (8 * Z.of_nat k))).
    { unfold xor_byte. rewrite (Nat.mul_comm 8), Nat.div_add_l, Nat.div_small, Nat.add_0_r by lia.
      by rewrite Nat.add_comm, Nat.Div0.mod_add, Nat.mod_small by lia. }
    rewrite Hbyte. replace (S (8 * i + k)) with (8 * i + S k)%nat by lia.
    rewrite IH; [|done|lia|unfold xor_lane; by rewrite length_insert]. rewrite xor_lane_lane. f_equal.
    rewrite load_cons by done. rewrite Z.shiftl_lxor. f_equal. rewrite Z.shiftl_shiftl by lia. f_equal. lia.
Qed.

Lemma xor_lane_length st i v : length (xor_lane st i v) = length st.
Proof. apply length_insert. Qed.
Lemma xor_bytes_length st off l : length (xor_bytes st off l) = length st.
Proof. revert st off. induction l as [|b l IH]; intros st off; [done|]. cbn [xor_bytes]. rewrite IH. apply xor_lane_length. Qed.

Lemma xor_words_bytes st n inp : bytes_ok inp → (8 * n ≤ length inp)%nat → (n ≤ length st)%nat →
  xor_words st n inp = xor_bytes st 0 (take (8 * n) inp).
Proof.
  intros Hb. unfold xor_words. induction n as [|n IH]; intros Hl Hs; [done|].
  rewrite seq_S, foldl_app, IH by lia. cbn [foldl Nat.add].
  replace (8 * S n)%nat with (8 * n + 8)%nat by lia.
  rewrite <- (take_take_drop inp (8 * n) 8), xor_bytes_app, length_take, Nat.min_l by lia.
  rewrite Nat.add_0_l.
  pose proof (xor_bytes_lane (xor_bytes st 0 (take (8 * n) inp)) n 0 (take 8 (drop (8 * n) inp))) as E.
  rewrite Nat.add_0_r, Z.shiftl_0_r in E. rewrite E; [done|by apply Forall_take, Forall_drop|rewrite length_take; lia|].
  rewrite xor_bytes_length. lia.
Qed.

(** *** The code absorbs byte by byte *)
Definition rate_ok (rate : nat) : Prop := (0 < rate ≤ 200 ∧ rate mod 8 = 0)%nat.

Lemma absorb_blocks_feed fuel rate st inp : rate_ok rate → bytes_ok inp → length st = 25%nat → (length inp ≤ fuel)%nat →
  let '(st', rest) := absorb_blocks fuel rate st inp in
  foldl (feed rate) (st, 0%nat) inp = foldl (feed rate) (st', 0%nat) rest ∧ (length rest < rate)%nat ∧ bytes_ok rest ∧ length st' = 25%nat.
Proof.
  intros (Hr & Hm). revert st inp. induction fuel as [|fuel IH]; intros st inp Hb Hs Hf; cbn [absorb_blocks].
  - split_and!; done || lia.
  - destruct (Nat.leb_spec rate (length inp)) as [Hle|Hlt]; [|split_and!; done || lia].
    assert (E8 : (8 * (rate / 8) = rate)%nat) by (pose proof (Nat.div_mod_eq rate 8); lia).
    assert (Hst : xor_words st (rate / 8) inp = xor_bytes st 0 (take rate inp)).
    { rewrite xor_words_bytes; [by rewrite E8|done|lia|lia]. }
    rewrite Hst. specialize (IH (keccak_f (xor_bytes st 0 (take rate inp))) (drop rate inp)).
    destruct (absorb_blocks fuel rate _ _) as [st' rest].
    assert (Hlen : length (take rate inp) = rate) by (rewrite length_take; lia).
    assert (Hfeed : foldl (feed rate) (st, 0%nat) inp =
      foldl (feed rate) (keccak_f (xor_bytes st 0 (take rate inp)), 0%nat) (drop rate inp)).
    { rewrite <- (take_drop rate inp) at 1. rewrite foldl_app. f_equal.
      apply feed_block; [lia|]. intros E. rewrite E in Hlen. cbn in Hlen. lia. }
    rewrite Hfeed. apply IH; [by apply Forall_drop| |rewrite length_drop; lia].
    apply keccak_f_length. by rewrite xor_bytes_length.
Qed.

(** The context that has absorbed the bytes [m]. *)
Definition absorbed (cfg : boringssl_keccak_config_t) (rate : nat) (m : list Z) : BORINGSSL_keccak_st :=
  let '(st, off) := foldl (feed rate) (replicate 25 0, 0%nat) m in
  mkKeccak cfg boringssl_keccak_phase_absorb st rate off 0.

Lemma feed_inv rate st off m : (off < rate)%nat → length st = 25%nat →
  let '(st', off') := foldl (feed rate) (st, off) m in
  (off' < rate)%nat ∧ off' = ((off + length m) mod rate)%nat ∧ length st' = 25%nat.
Proof.
  revert st off. induction m as [|b m IH]; intros st off Ho Hs; cbn [foldl length].
  - split_and!; [done|by rewrite Nat.add_0_r, Nat.mod_small|done].
  - unfold feed at 2. cbn [fst snd]. assert (Hl : length (xor_byte st off b) = 25%nat) by (unfold xor_byte; by rewrite xor_lane_length).
    destruct (Nat.eqb_spec (S off) rate) as [E|E].
    + specialize (IH (keccak_f (xor_byte st off b)) 0%nat ltac:(lia) (keccak_f_length _ Hl)).
      destruct (foldl _ _ m) as [st' off']. destruct IH as (? & -> & ?). split_and!; [done| |done].
      replace (off + S (length m))%nat with ((0 + length m) + 1 * rate)%nat by lia. by rewrite Nat.Div0.mod_add.
    + specialize (IH (xor_byte st off b) (S off) ltac:(lia) Hl). destruct (foldl _ _ m) as [st' off']. destruct IH as (? & -> & ?).
      split_and!; [done| |done]. f_equal. lia.
Qed.

Lemma absorb_step cfg rate m inp : rate_ok rate → bytes_ok inp →
  BORINGSSL_keccak_absorb (absorbed cfg rate m) inp = Some (absorbed cfg rate (m ++ inp)).
Proof.
  intros Hrate Hb. pose proof (proj1 (proj1 Hrate)) as Hpos. unfold absorbed. rewrite foldl_app.
  pose proof (feed_inv rate (replicate 25 0) 0 m Hpos eq_refl) as Hinv.
  destruct (foldl (feed rate) (replicate 25 0, 0%nat) m) as [st off]. destruct Hinv as (Hoff & _ & Hs).
  unfold BORINGSSL_keccak_absorb. cbn [phase absorb_offset rate_bytes state config squeeze_offset].
  assert (Hfull : ∀ st inp, bytes_ok inp → length st = 25%nat →
    (let '(st, inp) := absorb_blocks (length inp) rate st inp in
     Some (mkKeccak cfg boringssl_keccak_phase_absorb (xor_bytes st 0 inp) rate (length inp) 0)) =
    (let '(st, off) := foldl (feed rate) (st, 0%nat) inp in Some (mkKeccak cfg boringssl_keccak_phase_absorb st rate off 0))).
  { intros st1 inp1 Hb1 Hs1. pose proof (absorb_blocks_feed (length inp1) rate st1 inp1 Hrate Hb1 Hs1 (Nat.le_refl _)) as H.
    destruct (absorb_blocks _ _ _ _) as [st2 rest]. destruct H as (-> & Hlt & _). rewrite feed_partial by lia. done. }
  destruct (Nat.eqb_spec off 0) as [->|Hne]; cbn [negb].
  - rewrite Hfull by done. by destruct (foldl _ _ inp).
  - destruct (Nat.ltb_spec (length inp) (rate - off)) as [Hlt|Hge].
    + rewrite take_ge by lia. rewrite feed_partial by lia. done.
    + rewrite Hfull; [|by apply Forall_drop|apply keccak_f_length; by rewrite xor_bytes_length].
      rewrite <- (take_drop (rate - off) inp) at 3. rewrite foldl_app.
      assert (Hl : length (take (rate - off) inp) = (rate - off)%nat) by (rewrite length_take; lia).
      rewrite (feed_block rate st off); [by destruct (foldl _ _ (drop _ inp))|lia|]. intros E. rewrite E in Hl. cbn in Hl. lia.
Qed.

(** *** Padding *)
Lemma xor_byte_0 st i : xor_byte st i 0 = st.
Proof.
  unfold xor_byte, xor_lane. rewrite Z.shiftl_0_l, Z.lxor_0_r. destruct (decide (i / 8 < length st)%nat) as [Hi|Hi].
  - apply list_insert_id. unfold lane. rewrite nth_lookup. by destruct (lookup_lt_is_Some_2 st _ Hi) as [v ->].
  - apply list_insert_ge. lia.
Qed.
Lemma xor_bytes_zeros st off n : xor_bytes st off (replicate n 0) = st.
Proof. revert off. induction n as [|n IH]; intros off; [done|]. cbn [replicate xor_bytes]. by rewrite xor_byte_0. Qed.

Lemma finalize_feed rate suffix st n : (n < rate)%nat →
  foldl (feed rate) (st, n) (padding rate suffix n) = (keccak_f (xor_byte (xor_byte st n suffix) (rate - 1) 0x80), 0%nat).
Proof.
  intros Hn. unfold padding. destruct (Nat.eqb_spec n (rate - 1)) as [->|Hne].
  - rewrite feed_block; [|cbn [length]; lia|done]. f_equal. f_equal. cbn [xor_bytes]. unfold xor_byte.
    by rewrite xor_lane_lane, Z.shiftl_lxor.
  - rewrite feed_block; [|cbn [length]; rewrite length_app, length_replicate; cbn; lia|done].
    f_equal. f_equal. cbn [xor_bytes]. rewrite xor_bytes_app, xor_bytes_zeros, length_replicate. cbn [xor_bytes].
    f_equal. lia.
Qed.

Lemma padded_length rate suffix n : (0 < rate)%nat → ((n + length (padding rate suffix (n mod rate))) mod rate = 0)%nat.
Proof.
  intros Hr. pose proof (Nat.mod_upper_bound n rate ltac:(lia)). pose proof (Nat.div_mod_eq n rate) as E.
  assert (Hl : length (padding rate suffix (n mod rate)) = (rate - n mod rate)%nat).
  { unfold padding. destruct (Nat.eqb_spec (n mod rate) (rate - 1)); cbn [length]; [lia|]. rewrite length_app, length_replicate. cbn; lia. }
  rewrite Hl. replace (n + (rate - n mod rate))%nat with ((n / rate + 1) * rate)%nat by lia. by rewrite Nat.Div0.mod_mul.
Qed.

(** *** Squeezing *)
Lemma squeeze_spec fuel rate st0 j off out_len : (0 < rate)%nat → (out_len ≤ fuel)%nat → (off ≤ rate)%nat →
  ∃ j' off', (off' ≤ rate)%nat ∧ (j' * rate + off' = j * rate + off + out_len)%nat ∧
    squeeze_loop fuel rate (Nat.iter j keccak_f st0) off out_len =
      (Nat.iter j' keccak_f st0, off',
       (λ i, state_byte (Nat.iter (i / rate) keccak_f st0) (i mod rate)) <$> seq (j * rate + off) out_len).
Proof.
  intros Hr. revert j off out_len. induction fuel as [|fuel IH]; intros j off out_len Hf Ho; cbn [squeeze_loop].
  - assert (out_len = 0%nat) as -> by lia. exists j, off. split_and!; [done|lia|done].
  - destruct (Nat.eqb_spec out_len 0) as [->|Hne]; [exists j, off; split_and!; [done|lia|done]|].
    assert (Hstep : ∃ j1 off1, (if (off =? rate)%nat then (keccak_f (Nat.iter j keccak_f st0), 0%nat) else (Nat.iter j keccak_f st0, off)) =
      (Nat.iter j1 keccak_f st0, off1) ∧ (off1 < rate)%nat ∧ (j1 * rate + off1 = j * rate + off)%nat).
    { destruct (Nat.eqb_spec off rate) as [->|]; [exists (S j), 0%nat|exists j, off]; split_and!; done || lia. }
    destruct Hstep as (j1 & off1 & -> & Hoff1 & Hj1).
    set (todo := if (rate - off1 <? out_len)%nat then (rate - off1)%nat else out_len).
    assert (Htodo : (0 < todo ≤ out_len ∧ off1 + todo ≤ rate)%nat) by (subst todo; destruct (Nat.ltb_spec (rate - off1) out_len); lia).
    destruct (IH j1 (off1 + todo)%nat (out_len - todo)%nat ltac:(lia) ltac:(lia)) as (j2 & off2 & Ho2 & Hj2 & ->).
    exists j2, off2. split_and!; [done|lia|]. f_equal.
    assert (Es : seq (j1 * rate + off1) out_len = seq (j1 * rate + off1) todo ++ seq (j1 * rate + (off1 + todo)) (out_len - todo)).
    { rewrite Nat.add_assoc, <- seq_app. f_equal. lia. }
    rewrite <- Hj1, Es, fmap_app. f_equal.
    rewrite <- (fmap_add_seq (j1 * rate) off1 todo), <- list_fmap_compose. apply list_fmap_ext. intros i k Hk%list_elem_of_lookup_2%elem_of_seq.
    cbn. rewrite (Nat.add_comm _ k), Nat.div_add, Nat.div_small, Nat.add_0_l, Nat.Div0.mod_add, Nat.mod_small by lia. done.
Qed.

(** *** The interface *)
Definition absorb_all (ctx : BORINGSSL_keccak_st) (chunks : list (list Z)) : option BORINGSSL_keccak_st :=
  foldl (λ ctx inp, ctx ← ctx; BORINGSSL_keccak_absorb ctx inp) (Some ctx) chunks.
Definition squeeze_all (ctx : BORINGSSL_keccak_st) (lens : list nat) : BORINGSSL_keccak_st * list Z :=
  foldl (λ '(ctx, out) n, let '(ctx, more) := BORINGSSL_keccak_squeeze ctx n in (ctx, out ++ more)) (ctx, []) lens.
Definition rate_of (cfg : boringssl_keccak_config_t) : nat := 200 - capacity_bytes cfg.
Definition sponge_of (cfg : boringssl_keccak_config_t) (msg : list Z) (n : nat) : list Z :=
  sponge (rate_of cfg) (terminator cfg) msg n.

Lemma rate_of_ok cfg : rate_ok (rate_of cfg).
Proof. destruct cfg; vm_compute; lia. Qed.

Lemma absorb_all_spec cfg m chunks : Forall bytes_ok chunks →
  absorb_all (absorbed cfg (rate_of cfg) m) chunks = Some (absorbed cfg (rate_of cfg) (m ++ concat chunks)).
Proof.
  unfold absorb_all. revert m. induction chunks as [|c chunks IH]; intros m Hb; cbn [foldl concat]; [by rewrite app_nil_r|].
  apply Forall_cons in Hb as [Hc Hb]. cbn [mbind option_bind]. rewrite absorb_step by (done || apply rate_of_ok).
  by rewrite IH, <- app_assoc.
Qed.

(** The squeezing context that has absorbed [m] and given out [n] bytes. *)
Definition squeezing (cfg : boringssl_keccak_config_t) (m : list Z) (n : nat) (ctx : BORINGSSL_keccak_st) : Prop :=
  phase ctx = boringssl_keccak_phase_squeeze ∧ rate_bytes ctx = rate_of cfg ∧ (squeeze_offset ctx ≤ rate_of cfg)%nat ∧
  ∃ st0 j, state ctx = Nat.iter j keccak_f st0 ∧ (n = j * rate_of cfg + squeeze_offset ctx)%nat ∧
    ∀ k, sponge_of cfg m k = (λ i, state_byte (Nat.iter (i / rate_of cfg) keccak_f st0) (i mod rate_of cfg)) <$> seq 0 k.

Lemma start_absorbed cfg m : squeezing cfg m 0 (start_squeeze (absorbed cfg (rate_of cfg) m)).
Proof.
  pose proof (rate_of_ok cfg) as [[Hr _] _]. set (rate := rate_of cfg) in *. unfold absorbed, squeezing, sponge_of, sponge. fold rate.
  pose proof (feed_inv rate (replicate 25 0) 0 m Hr eq_refl) as Hinv.
  destruct (foldl (feed rate) (replicate 25 0, 0%nat) m) as [st off] eqn:E. destruct Hinv as (Hoff & Hoff' & _). rewrite Nat.add_0_l in Hoff'.
  split_and!; [done|done|cbn; lia|].
  set (padded := m ++ padding rate (terminator cfg) (length m mod rate)).
  exists (foldl absorb_block (replicate 25 0) (blocks_of (length padded) rate padded)), 0%nat.
  split; [|split; [reflexivity|intros k; reflexivity]].
  pose proof (feed_blocks rate (length padded) (replicate 25 0) padded Hr (Nat.le_refl _)) as Hf.
  unfold padded in Hf at 1. rewrite length_app, padded_length in Hf by done. specialize (Hf eq_refl).
  unfold padded in Hf at 1. rewrite foldl_app, E, <- Hoff', finalize_feed in Hf by done. apply (f_equal fst) in Hf. cbn [fst] in Hf. rewrite <- Hf. reflexivity.
Qed.

Lemma squeeze_ready cfg m n ctx k : squeezing cfg m n (start_squeeze ctx) →
  let '(ctx', out) := BORINGSSL_keccak_squeeze ctx k in
  squeezing cfg m (n + k) ctx' ∧ sponge_of cfg m (n + k) = sponge_of cfg m n ++ out ∧ length out = k.
Proof.
  pose proof (rate_of_ok cfg) as [[Hr _] _]. unfold BORINGSSL_keccak_squeeze.
  intros (Hp & Hrate & Ho & st0 & j & Hst & Hn & Hsp). rewrite Hrate, Hst.
  destruct (squeeze_spec k (rate_of cfg) st0 j (squeeze_offset (start_squeeze ctx)) k Hr (Nat.le_refl _) Ho) as (j' & off' & Ho' & Hj' & ->).
  split_and!; [|rewrite !Hsp, Hn, seq_app, fmap_app; done|by rewrite length_fmap, length_seq].
  split_and!; [done|done|done|]. exists st0, j'. cbn. split_and!; [done|lia|done].
Qed.

Lemma start_squeezing cfg m n ctx : squeezing cfg m n ctx → start_squeeze ctx = ctx.
Proof. intros (Hp & _). unfold start_squeeze. by rewrite Hp. Qed.

Lemma squeeze_all_spec cfg m n ctx lens : squeezing cfg m n (start_squeeze ctx) → ∀ out0 out,
  sponge_of cfg m n = out0 ++ out →
  sponge_of cfg m (n + sum_list lens) = out0 ++ (foldl (λ '(ctx, out) n, let '(ctx, more) := BORINGSSL_keccak_squeeze ctx n in (ctx, out ++ more)) (ctx, out) lens).2.
Proof.
  revert n ctx. induction lens as [|k lens IH]; intros n ctx Hs out0 out Hout; cbn [foldl sum_list]; [by rewrite Nat.add_0_r|].
  pose proof (squeeze_ready cfg m n ctx k Hs) as H. destruct (BORINGSSL_keccak_squeeze ctx k) as [ctx' more]. destruct H as (Hs' & Hsp & _).
  rewrite Nat.add_assoc. apply IH; [by erewrite start_squeezing|]. unfold id. by rewrite Hsp, Hout, app_assoc.
Qed.

(** C18: streaming.  However the input is cut into [BORINGSSL_keccak_absorb]
    calls and the output into [BORINGSSL_keccak_squeeze] calls, the bytes that
    come out are those of the sponge construction on the whole message with
    [pad10*1] padding; [BORINGSSL_keccak] computes the same in one call and
    aborts exactly on a wrong output length of a fixed-length hash; absorbing
    after squeezing aborts, and so does opening a stream for a fixed-length
    hash. *)
Theorem keccak_streaming (cfg : boringssl_keccak_config_t) (chunks : list (list Z)) (lens : list nat) (msg : list Z) (n : nat)
    (Hchunks : Forall bytes_ok chunks) (Hmsg : bytes_ok msg) :
  (∃ ctx, absorb_all (keccak_init cfg).1 chunks = Some ctx ∧
     (squeeze_all ctx lens).2 = sponge_of cfg (concat chunks) (sum_list lens) ∧
     ∀ k inp, BORINGSSL_keccak_absorb (BORINGSSL_keccak_squeeze ctx k).1 inp = None) ∧
  BORINGSSL_keccak n msg cfg =
    (if (required_out_len cfg =? 0)%nat || (n =? required_out_len cfg)%nat then Some (sponge_of cfg msg n) else None) ∧
  BORINGSSL_keccak_init cfg = (if (required_out_len cfg =? 0)%nat then Some (keccak_init cfg).1 else None).
Proof.
  change (keccak_init cfg).1 with (absorbed cfg (rate_of cfg) []). split_and!.
  - exists (absorbed cfg (rate_of cfg) (concat chunks)). split; [by rewrite absorb_all_spec|].
    pose proof (start_absorbed cfg (concat chunks)) as Hs. split.
    + symmetry. exact (squeeze_all_spec cfg (concat chunks) 0 _ lens Hs [] [] eq_refl).
    + intros k inp. pose proof (squeeze_ready cfg (concat chunks) 0 _ k Hs) as H.
      destruct (BORINGSSL_keccak_squeeze _ k) as [ctx' out]. destruct H as ((Hp & _) & _). cbn [fst]. unfold BORINGSSL_keccak_absorb. by rewrite Hp.
  - unfold BORINGSSL_keccak, keccak_init.
    change (mkKeccak cfg boringssl_keccak_phase_absorb (replicate 25 0) (200 - capacity_bytes cfg) 0 0) with (absorbed cfg (rate_of cfg) []).
    rewrite absorb_step by (done || apply rate_of_ok). cbn [app mbind option_bind].
    pose proof (squeeze_ready cfg msg 0 _ n (start_absorbed cfg msg)) as H.
    destruct (BORINGSSL_keccak_squeeze _ n) as [ctx' out]. destruct H as (_ & Hout & _). cbn [Nat.add snd] in *. rewrite Hout.
    destruct (Nat.eqb_spec (required_out_len cfg) 0), (Nat.eqb_spec n (required_out_len cfg)); done.
  - unfold BORINGSSL_keccak_init, keccak_init. by destruct (required_out_len cfg =? 0)%nat.
Qed.

Lemma keccak_f_permutation_witness : keccak_f (replicate 25 0) = Keccak_p (replicate 25 0).
Proof. apply (keccak_f_permutation (replicate 25 0)). split; [reflexivity|by apply (bool_decide_unpack _)]. Defined.

Lemma keccak_streaming_witness :
  (∃ ctx, absorb_all (keccak_init boringssl_shake128).1 [[1; 2]; [3]] = Some ctx ∧
     (squeeze_all ctx [5; 200]%nat).2 = sponge_of boringssl_shake128 (concat [[1; 2]; [3]]) (sum_list [5; 200]%nat) ∧
     ∀ k inp, BORINGSSL_keccak_absorb (BORINGSSL_keccak_squeeze ctx k).1 inp = None) ∧
  BORINGSSL_keccak 32 [7] boringssl_shake128 =
    (if (required_out_len boringssl_shake128 =? 0)%nat || (32 =? required_out_len boringssl_shake128)%nat
     then Some (sponge_of boringssl_shake128 [7] 32) else None) ∧
  BORINGSSL_keccak_init boringssl_shake128 =
    (if (required_out_len boringssl_shake128 =? 0)%nat then Some (keccak_init boringssl_shake128).1 else None).
Proof.
  apply (keccak_streaming boringssl_shake128 [[1; 2]; [3]] [5; 200]%nat [7] 32); by apply (bool_decide_unpack _).
Defined.
