(* ===== verification/Bits.v ===== *)
(** Words as vectors of bits, and the symbolic evaluation of code that only
    moves and xors bits.

    Such code is linear: a bit of a word is the sum of some bits of the input.
    [Sym env s x] says that row [i] of the matrix [s] selects the input bits
    whose sum is bit [i] of [x].  Each operation of C has a matrix counterpart,
    so two ways to compute a word are equal for all inputs when their matrices
    are, which evaluation decides. *)
From S2P Require Import Prelude.

(** The number with these bits, the least significant first. *)
Definition word_of (l : list bool) : Z := foldr (λ b acc, Z.b2z b + 2 * acc) 0 l.

Lemma testbit_word_of l i : 0 <= i → Z.testbit (word_of l) i = nth (Z.to_nat i) l false.
Proof.
  revert i. induction l as [|b l IH]; intros i Hi; cbn [word_of foldr].
  { rewrite Z.bits_0. by destruct (Z.to_nat i). }
  fold (word_of l). rewrite Z.add_comm. destruct (decide (i = 0)) as [->|].
  - by rewrite Z.testbit_0_r.
  - replace i with (Z.succ (i - 1)) by lia. rewrite Z.testbit_succ_r, IH by lia.
    by replace (Z.to_nat (Z.succ (i - 1))) with (S (Z.to_nat (i - 1))) by lia.
Qed.

Lemma word_of_range l : 0 <= word_of l < 2 ^ Z.of_nat (length l).
Proof.
  induction l as [|b l IH]; [done|]. cbn [word_of foldr length]. fold (word_of l).
  rewrite Nat2Z.inj_succ, Z.pow_succ_r by lia. destruct b; cbn [Z.b2z]; lia.
Qed.

(** A range of bits of a number. *)
Definition bits_from (n : nat) (x : Z) : list bool := (λ i, Z.testbit x (Z.of_nat i)) <$> seq 0 n.

Lemma word_bits n x : in_range (Z.of_nat n) x → word_of (bits_from n x) = x.
Proof.
  intros Hx. apply Z.bits_inj'. intros i Hi. rewrite testbit_word_of by done. unfold bits_from.
  destruct (decide (i < Z.of_nat n)).
  - rewrite nth_lookup, list_lookup_fmap, lookup_seq_lt by lia. cbn. by rewrite Z2Nat.id.
  - rewrite nth_overflow by (rewrite length_fmap, length_seq; lia). symmetry. by apply (testbit_range (Z.of_nat n)); lia.
Qed.

Lemma bits_word l : bits_from (length l) (word_of l) = l.
Proof.
  apply list_eq. intros i. unfold bits_from. rewrite list_lookup_fmap.
  destruct (decide (i < length l)%nat) as [Hi|Hi].
  - rewrite lookup_seq_lt by done. cbn. rewrite testbit_word_of, Nat2Z.id by lia.
    destruct (lookup_lt_is_Some_2 l i Hi) as [b Hb]. rewrite Hb. by rewrite nth_lookup, Hb.
  - by rewrite lookup_seq_ge, lookup_ge_None_2 by lia.
Qed.

Lemma word_of_ext a b : (∀ i, nth i a false = nth i b false) → word_of a = word_of b.
Proof. intros H. apply Z.bits_inj'. intros i Hi. by rewrite !testbit_word_of. Qed.

Lemma nth_zip_with (f : bool → bool → bool) a b i :
  f false false = false → length a = length b → nth i (zip_with f a b) false = f (nth i a false) (nth i b false).
Proof.
  intros Hf. revert b i. induction a as [|x a IH]; intros [|y b] [|i] [=]; cbn; auto.
Qed.

Lemma word_of_xor a b : length a = length b → word_of (zip_with xorb a b) = word_of a .^ word_of b.
Proof.
  intros H. apply Z.bits_inj'. intros i Hi. rewrite Z.lxor_spec, !testbit_word_of by done. by apply nth_zip_with.
Qed.

(** ** Linear forms *)
Abbreviation vec := (list bool).

Definition dot (v env : vec) : bool := foldr xorb false (zip_with andb v env).
Definition vxor : vec → vec → vec := zip_with xorb.
Definition vzero (n : nat) : vec := replicate n false.
Definition basis (n i : nat) : vec := (λ j, Nat.eqb i j) <$> seq 0 n.
Definition is_zero (v : vec) : bool := forallb negb v.

Lemma dot_cons b v e env : dot (b :: v) (e :: env) = xorb (b && e) (dot v env).
Proof. done. Qed.

Lemma dot_vxor v w env : length v = length env → length w = length env → dot (vxor v w) env = xorb (dot v env) (dot w env).
Proof.
  revert v w. induction env as [|e env IH]; intros [|x v] [|y w]; try done. intros [= Hv] [= Hw].
  cbn [dot vxor zip_with foldr]. unfold dot, vxor in IH. rewrite IH by done.
  destruct x, y, e; cbn; btauto.
Qed.

Lemma dot_vzero n env : dot (vzero n) env = false.
Proof. unfold dot, vzero. revert n. induction env as [|e env IH]; intros [|n]; cbn; auto. Qed.

Lemma dot_is_zero v env : is_zero v = true → dot v env = false.
Proof.
  revert env. induction v as [|x v IH]; [done|]. intros [|e env] H; [done|]. cbn in *.
  apply andb_true_iff in H as [Hx H]. unfold dot in IH. rewrite (IH env H). by destruct x.
Qed.

Lemma dot_basis n i env : length env = n → dot (basis n i) env = nth i env false.
Proof.
  intros <-. unfold basis. cut (∀ k, dot ((λ j, Nat.eqb (k + i) j) <$> seq k (length env)) env = nth i env false).
  { intros H. apply (H 0%nat). }
  revert i. induction env as [|e env IH]; intros i k; [by destruct i|]. cbn [length seq fmap list_fmap dot zip_with foldr].
  destruct i as [|i].
  - rewrite Nat.add_0_r, Nat.eqb_refl. cbn [andb nth]. fold (dot ((λ j, Nat.eqb k j) <$> seq (S k) (length env)) env).
    assert (H : ∀ m l, (m < l)%nat → dot ((λ j, Nat.eqb m j) <$> seq l (length env)) env = false).
    { clear. induction env as [|e env IH]; intros m l H; [done|]. cbn [length seq fmap list_fmap dot zip_with foldr].
      destruct (Nat.eqb_spec m l); [lia|]. cbn [andb xorb]. apply (IH m (S l)). lia. }
    rewrite H by lia. apply xorb_false_r.
  - destruct (Nat.eqb_spec (k + S i) k); [lia|]. cbn [andb xorb nth]. specialize (IH i (S k)).
    replace (k + S i)%nat with (S k + i)%nat by lia. exact IH.
Qed.

(** The rows of [s] selected by [v], added. *)
Fixpoint comb (n : nat) (v : vec) (s : list vec) : vec :=
  match v, s with
  | b :: v, r :: s => if b then vxor r (comb n v s) else comb n v s
  | _, _ => vzero n
  end.

Arguments dot : simpl never.

Definition rows_ok (n : nat) (s : list vec) : Prop := Forall (λ v, length v = n) s.
Definition eval (env : vec) (s : list vec) : list bool := (λ v, dot v env) <$> s.

Lemma length_vxor v w : length v = length w → length (vxor v w) = length v.
Proof. intros H. unfold vxor. rewrite length_zip_with. lia. Qed.

Lemma length_comb n v s : rows_ok n s → length (comb n v s) = n.
Proof.
  revert v. induction s as [|r s IH]; intros [|b v] H; try apply length_replicate.
  inversion H; subst. cbn. destruct b; [|by apply IH]. by rewrite length_vxor; [|rewrite IH].
Qed.

Lemma dot_comb env v s : rows_ok (length env) s → dot (comb (length env) v s) env = dot v (eval env s).
Proof.
  revert v. induction s as [|r s IH]; intros [|b v] H; try apply dot_vzero.
  inversion H; subst. change (eval env (r :: s)) with (dot r env :: eval env s). rewrite dot_cons. cbn [comb].
  destruct b; cbn [andb].
  - by rewrite dot_vxor, IH by (done || by rewrite length_comb).
  - by rewrite xorb_false_l, IH.
Qed.

(** Picks entries by position; position [n] counts from 0. *)
Definition pick {A} (d : A) (ix : list nat) (l : list A) : list A := (λ i, nth i l d) <$> ix.
Definition id_rows (n : nat) : list vec := basis n <$> seq 0 n.

Lemma eval_id env n : length env = n → eval env (id_rows n) = env.
Proof.
  intros Hn. apply list_eq. intros i. unfold eval, id_rows. rewrite !list_lookup_fmap.
  destruct (decide (i < n)%nat) as [Hi|Hi].
  - rewrite lookup_seq_lt by done. cbn. rewrite dot_basis by done.
    destruct (lookup_lt_is_Some_2 env i) as [b Hb]; [lia|]. by rewrite Hb, nth_lookup, Hb.
  - by rewrite lookup_seq_ge, lookup_ge_None_2 by lia.
Qed.

Lemma eval_pick env n ix s : eval env (pick (vzero n) ix s) = pick false ix (eval env s).
Proof.
  unfold eval, pick. rewrite <- list_fmap_compose. apply list_fmap_ext. intros _ i _. cbn.
  rewrite !nth_lookup, list_lookup_fmap. destruct (s !! i); [done|]. apply dot_vzero.
Qed.

Lemma eval_vxor env s t : rows_ok (length env) s → rows_ok (length env) t →
  eval env (zip_with vxor s t) = zip_with xorb (eval env s) (eval env t).
Proof.
  intros Hs. revert t. induction Hs as [|v s Hv _ IH]; intros [|w t] Ht; try done.
  inversion Ht; subst. specialize (IH t ltac:(done)). unfold eval in *. cbn. by rewrite dot_vxor, IH.
Qed.

Lemma length_eval env s : length (eval env s) = length s.
Proof. apply length_fmap. Qed.

Lemma eval_app env s t : eval env (s ++ t) = eval env s ++ eval env t.
Proof. apply fmap_app. Qed.

Lemma eval_zeros env n k : eval env (replicate k (vzero n)) = replicate k false.
Proof. unfold eval. rewrite fmap_replicate. by rewrite dot_vzero. Qed.

(** ** Words that are linear in the input *)
Section sym.
Context (env : list bool).
Abbreviation n := (length env).

Record Sym (s : list vec) (x : Z) : Prop := {
  sym_rows : rows_ok n s;
  sym_32 : length s = 32%nat;
  sym_value : x = word_of (eval env s);
}.

Definition sxor : list vec → list vec → list vec := zip_with vxor.
Definition sand (w : nat) (m : Z) (s : list vec) : list vec := imap (λ i v, if Z.testbit m (Z.of_nat i) then v else vzero w) s.
Definition sshr (w k : nat) (s : list vec) : list vec := drop k s ++ replicate (Nat.min k (length s)) (vzero w).
Definition sshl (w k : nat) (s : list vec) : list vec := take (length s) (replicate k (vzero w) ++ s).
Definition disjoint_rows (s t : list vec) : bool := forallb (λ p, is_zero p.1 || is_zero p.2) (zip s t).

Lemma sym_xor s t x y : Sym s x → Sym t y → Sym (sxor s t) (x .^ y).
Proof.
  intros [Hs Ls ->] [Ht Lt ->]. split.
  - unfold rows_ok, sxor in *. rewrite Forall_lookup in *. intros i v. rewrite lookup_zip_with.
    destruct (s !! i) eqn:E1, (t !! i) eqn:E2; try done. intros [= <-]. rewrite length_vxor; [by eapply Hs|].
    rewrite (Hs _ _ E1). symmetry. by eapply Ht.
  - unfold sxor. rewrite length_zip_with. lia.
  - unfold sxor. rewrite eval_vxor by done. symmetry. apply word_of_xor. rewrite !length_eval. lia.
Qed.

Lemma sym_or s t x y : Sym s x → Sym t y → disjoint_rows s t = true → Sym (sxor s t) (x .| y).
Proof.
  intros Hs Ht Hd. enough (E : x .| y = x .^ y) by (rewrite E; by apply sym_xor).
  destruct Hs as [Rs Ls ->], Ht as [Rt Lt ->]. symmetry. apply Z.lxor_lor, Z.bits_inj'. intros i Hi.
  rewrite Z.land_spec, Z.bits_0, !testbit_word_of by done. set (k := Z.to_nat i).
  unfold eval. rewrite !nth_lookup, !list_lookup_fmap. unfold disjoint_rows in Hd.
  destruct (s !! k) as [v|] eqn:E1; [|done]. destruct (t !! k) as [w|] eqn:E2; [|apply andb_false_r]. cbn.
  assert (Hvw : is_zero v || is_zero w = true).
  { eapply forallb_forall in Hd; [apply (Hd : is_zero (v, w).1 || is_zero (v, w).2 = true)|].
    apply list_elem_of_In, list_elem_of_lookup. exists k. by rewrite lookup_zip_with, E1, E2. }
  apply orb_true_iff in Hvw as [H|H]; rewrite (dot_is_zero _ _ H); [done|apply andb_false_r].
Qed.

Lemma sym_and m s x : Sym s x → Sym (sand n m s) (x .& m).
Proof.
  intros [Hs Ls ->]. split.
  - unfold rows_ok, sand in *. rewrite Forall_lookup in *. intros i v. rewrite list_lookup_imap.
    destruct (s !! i) eqn:E; [|done]. intros [= <-]. case_match; [by eapply Hs|apply length_replicate].
  - by unfold sand; rewrite length_imap.
  - apply Z.bits_inj'. intros i Hi. rewrite Z.land_spec, !testbit_word_of by done. unfold eval, sand.
    rewrite !nth_lookup, !list_lookup_fmap, list_lookup_imap.
    destruct (s !! Z.to_nat i) eqn:E; [|done]. cbn. rewrite Z2Nat.id by done.
    destruct (Z.testbit m i); cbn [fmap option_fmap option_map from_option];
      [by rewrite andb_true_r|by rewrite dot_vzero, andb_false_r].
Qed.

Lemma sym_shr k s x : Sym s x → Sym (sshr n k s) (x ≫ (Z.of_nat k)).
Proof.
  intros [Hs Ls ->]. split.
  - apply Forall_app. split; [by apply Forall_drop|]. apply Forall_replicate, length_replicate.
  - unfold sshr. rewrite length_app, length_drop, length_replicate. lia.
  - apply Z.bits_inj'. intros i Hi. rewrite Z.shiftr_spec, !testbit_word_of by lia. unfold sshr.
    rewrite eval_app, eval_zeros. unfold eval. rewrite fmap_drop, !nth_lookup.
    replace (Z.to_nat (i + Z.of_nat k)) with (k + Z.to_nat i)%nat by lia.
    set (l := _ <$> s). destruct (decide (k + Z.to_nat i < length l)%nat) as [H|H].
    + rewrite lookup_app_l, lookup_drop; [done|]. rewrite length_drop. lia.
    + rewrite (lookup_ge_None_2 l) by lia. rewrite lookup_app_r by (rewrite length_drop; lia).
      cbn. destruct (_ !! _) eqn:E; [|done]. by apply lookup_replicate_1 in E as [-> _].
Qed.

Lemma sym_shl k s x : Sym s x → Sym (sshl n k s) (x ≪[32] (Z.of_nat k)).
Proof.
  intros [Hs Ls ->]. split.
  - apply Forall_take, Forall_app. split; [|done]. apply Forall_replicate, length_replicate.
  - unfold sshl. rewrite length_take, length_app, length_replicate. lia.
  - apply Z.bits_inj'. intros i Hi. rewrite testbit_wrap, testbit_shiftl by lia.
    rewrite (testbit_word_of (eval _ (sshl _ _ _))) by lia. unfold sshl, eval at 2. rewrite fmap_take, Ls. fold (eval env (replicate k (vzero n) ++ s)).
    rewrite eval_app, eval_zeros, nth_lookup.
    destruct (Z.leb_spec 0 i); [|lia]. destruct (Z.ltb_spec i 32); cbn [andb].
    + rewrite lookup_take_lt by lia. destruct (decide (i < Z.of_nat k)).
      * rewrite Z.testbit_neg_r by lia. rewrite lookup_app_l by (rewrite length_replicate; lia).
        destruct (_ !! _) eqn:E; [|done]. by apply lookup_replicate_1 in E as [-> _].
      * rewrite testbit_word_of by lia. rewrite lookup_app_r by (rewrite length_replicate; lia).
        rewrite length_replicate, nth_lookup. by replace (Z.to_nat (i - Z.of_nat k)) with (Z.to_nat i - k)%nat by lia.
    + by rewrite lookup_take_ge by lia.
Qed.

(** An index: only the bits below [k] may be set. *)
Lemma sym_index k s x : Sym s x → forallb is_zero (drop k s) = true → x = word_of (eval env (take k s)).
Proof.
  intros [_ _ ->] Hz. apply word_of_ext. intros i. rewrite <- (take_drop k s) at 1. rewrite eval_app.
  rewrite !nth_lookup. destruct (decide (i < length (eval env (take k s)))%nat) as [H|H].
  - by rewrite lookup_app_l.
  - rewrite lookup_app_r, (lookup_ge_None_2 (eval env (take k s))) by lia.
    unfold eval. rewrite list_lookup_fmap. destruct (drop k s !! _) as [v|] eqn:E; [|done]. cbn.
    apply dot_is_zero. eapply forallb_forall in Hz; [exact Hz|]. apply list_elem_of_In. by eapply list_elem_of_lookup_2.
Qed.

(** A table that is linear in the bits of its index. *)
Definition table_linear (k : nat) (m : list vec) (t : list Z) : bool :=
  forallb (λ v, length v =? k)%nat m && (length m =? 32)%nat &&
  forallb (λ i, nth i t 0 =? word_of (eval (bits_from k (Z.of_nat i)) m)) (seq 0 (2 ^ k)).
Definition lookup_rows (w k : nat) (m s : list vec) : list vec := (λ v, comb w v (take k s)) <$> m.

Lemma sym_lookup k m t s x :
  Sym s x → (k ≤ 32)%nat → forallb is_zero (drop k s) = true → table_linear k m t = true → Sym (lookup_rows n k m s) (byte_at t x).
Proof.
  intros Hs Hk Hz Ht. pose proof (sym_index _ _ _ Hs Hz) as Ex. destruct Hs as [Hr Hl _].
  unfold table_linear in Ht. rewrite !andb_true_iff, Nat.eqb_eq in Ht. destruct Ht as [[Hm1 Hm2] Ht].
  assert (Hrk : rows_ok n (take k s)) by (by apply Forall_take).
  assert (Hlen : length (eval env (take k s)) = k) by (rewrite length_eval, length_take; lia).
  pose proof (word_of_range (eval env (take k s))) as Hw. rewrite Hlen, <- Ex in Hw. split.
  - apply Forall_fmap, Forall_forall. intros v _. by apply length_comb.
  - unfold lookup_rows. by rewrite length_fmap.
  - unfold byte_at. eapply forallb_forall in Ht; [apply Z.eqb_eq in Ht; rewrite Ht|].
    + rewrite Z2Nat.id by lia. rewrite Ex. rewrite <- Hlen at 1. rewrite bits_word. f_equal.
      unfold lookup_rows. unfold eval at 1 3. rewrite <- list_fmap_compose. apply list_fmap_ext.
      intros _ v _. cbn. symmetry. by apply dot_comb.
    + apply list_elem_of_In, elem_of_seq. split; [lia|]. rewrite Nat.add_0_l.
      apply Nat2Z.inj_lt. rewrite Nat2Z.inj_pow. lia.
Qed.

(** A word whose matrix has other rows for the same values. *)
Lemma sym_eval s t x : Sym s x → s = t → Sym t x.
Proof. by intros ? ->. Qed.

Lemma sym_eq s x y : Sym s x → Sym s y → x = y.
Proof. intros [_ _ ->] [_ _ ->]. done. Qed.
End sym.
