(* ===== verification/Des.v ===== *)
(** [crypto/des/des.c]: DES and triple DES, a block at a time and in CBC mode.
    A block is a pair of words, a schedule the list of the pairs [subkeys[i]].
    [DesSpec] holds the standard and [DesProof] the theorems. *)
From S2P Require Import Prelude Radix Words.

Definition des_skb : list (list Z) := [
  [
     0x00000000; 0x00000010; 0x20000000; 0x20000010; 0x00010000; 0x00010010; 0x20010000; 0x20010010;
     0x00000800; 0x00000810; 0x20000800; 0x20000810; 0x00010800; 0x00010810; 0x20010800; 0x20010810;
     0x00000020; 0x00000030; 0x20000020; 0x20000030; 0x00010020; 0x00010030; 0x20010020; 0x20010030;
     0x00000820; 0x00000830; 0x20000820; 0x20000830; 0x00010820; 0x00010830; 0x20010820; 0x20010830;
     0x00080000; 0x00080010; 0x20080000; 0x20080010; 0x00090000; 0x00090010; 0x20090000; 0x20090010;
     0x00080800; 0x00080810; 0x20080800; 0x20080810; 0x00090800; 0x00090810; 0x20090800; 0x20090810;
     0x00080020; 0x00080030; 0x20080020; 0x20080030; 0x00090020; 0x00090030; 0x20090020; 0x20090030;
     0x00080820; 0x00080830; 0x20080820; 0x20080830; 0x00090820; 0x00090830; 0x20090820; 0x20090830];
  [
     0x00000000; 0x02000000; 0x00002000; 0x02002000; 0x00200000; 0x02200000; 0x00202000; 0x02202000;
     0x00000004; 0x02000004; 0x00002004; 0x02002004; 0x00200004; 0x02200004; 0x00202004; 0x02202004;
     0x00000400; 0x02000400; 0x00002400; 0x02002400; 0x00200400; 0x02200400; 0x00202400; 0x02202400;
     0x00000404; 0x02000404; 0x00002404; 0x02002404; 0x00200404; 0x02200404; 0x00202404; 0x02202404;
     0x10000000; 0x12000000; 0x10002000; 0x12002000; 0x10200000; 0x12200000; 0x10202000; 0x12202000;
     0x10000004; 0x12000004; 0x10002004; 0x12002004; 0x10200004; 0x12200004; 0x10202004; 0x12202004;
     0x10000400; 0x12000400; 0x10002400; 0x12002400; 0x10200400; 0x12200400; 0x10202400; 0x12202400;
     0x10000404; 0x12000404; 0x10002404; 0x12002404; 0x10200404; 0x12200404; 0x10202404; 0x12202404];
  [
     0x00000000; 0x00000001; 0x00040000; 0x00040001; 0x01000000; 0x01000001; 0x01040000; 0x01040001;
     0x00000002; 0x00000003; 0x00040002; 0x00040003; 0x01000002; 0x01000003; 0x01040002; 0x01040003;
     0x00000200; 0x00000201; 0x00040200; 0x00040201; 0x01000200; 0x01000201; 0x01040200; 0x01040201;
     0x00000202; 0x00000203; 0x00040202; 0x00040203; 0x01000202; 0x01000203; 0x01040202; 0x01040203;
     0x08000000; 0x08000001; 0x08040000; 0x08040001; 0x09000000; 0x09000001; 0x09040000; 0x09040001;
     0x08000002; 0x08000003; 0x08040002; 0x08040003; 0x09000002; 0x09000003; 0x09040002; 0x09040003;
     0x08000200; 0x08000201; 0x08040200; 0x08040201; 0x09000200; 0x09000201; 0x09040200; 0x09040201;
     0x08000202; 0x08000203; 0x08040202; 0x08040203; 0x09000202; 0x09000203; 0x09040202; 0x09040203];
  [
     0x00000000; 0x00100000; 0x00000100; 0x00100100; 0x00000008; 0x00100008; 0x00000108; 0x00100108;
     0x00001000; 0x00101000; 0x00001100; 0x00101100; 0x00001008; 0x00101008; 0x00001108; 0x00101108;
     0x04000000; 0x04100000; 0x04000100; 0x04100100; 0x04000008; 0x04100008; 0x04000108; 0x04100108;
     0x04001000; 0x04101000; 0x04001100; 0x04101100; 0x04001008; 0x04101008; 0x04001108; 0x04101108;
     0x00020000; 0x00120000; 0x00020100; 0x00120100; 0x00020008; 0x00120008; 0x00020108; 0x00120108;
     0x00021000; 0x00121000; 0x00021100; 0x00121100; 0x00021008; 0x00121008; 0x00021108; 0x00121108;
     0x04020000; 0x04120000; 0x04020100; 0x04120100; 0x04020008; 0x04120008; 0x04020108; 0x04120108;
     0x04021000; 0x04121000; 0x04021100; 0x04121100; 0x04021008; 0x04121008; 0x04021108; 0x04121108];
  [
     0x00000000; 0x10000000; 0x00010000; 0x10010000; 0x00000004; 0x10000004; 0x00010004; 0x10010004;
     0x20000000; 0x30000000; 0x20010000; 0x30010000; 0x20000004; 0x30000004; 0x20010004; 0x30010004;
     0x00100000; 0x10100000; 0x00110000; 0x10110000; 0x00100004; 0x10100004; 0x00110004; 0x10110004;
     0x20100000; 0x30100000; 0x20110000; 0x30110000; 0x20100004; 0x30100004; 0x20110004; 0x30110004;
     0x00001000; 0x10001000; 0x00011000; 0x10011000; 0x00001004; 0x10001004; 0x00011004; 0x10011004;
     0x20001000; 0x30001000; 0x20011000; 0x30011000; 0x20001004; 0x30001004; 0x20011004; 0x30011004;
     0x00101000; 0x10101000; 0x00111000; 0x10111000; 0x00101004; 0x10101004; 0x00111004; 0x10111004;
     0x20101000; 0x30101000; 0x20111000; 0x30111000; 0x20101004; 0x30101004; 0x20111004; 0x30111004];
  [
     0x00000000; 0x08000000; 0x00000008; 0x08000008; 0x00000400; 0x08000400; 0x00000408; 0x08000408;
     0x00020000; 0x08020000; 0x00020008; 0x08020008; 0x00020400; 0x08020400; 0x00020408; 0x08020408;
     0x00000001; 0x08000001; 0x00000009; 0x08000009; 0x00000401; 0x08000401; 0x00000409; 0x08000409;
     0x00020001; 0x08020001; 0x00020009; 0x08020009; 0x00020401; 0x08020401; 0x00020409; 0x08020409;
     0x02000000; 0x0a000000; 0x02000008; 0x0a000008; 0x02000400; 0x0a000400; 0x02000408; 0x0a000408;
     0x02020000; 0x0a020000; 0x02020008; 0x0a020008; 0x02020400; 0x0a020400; 0x02020408; 0x0a020408;
     0x02000001; 0x0a000001; 0x02000009; 0x0a000009; 0x02000401; 0x0a000401; 0x02000409; 0x0a000409;
     0x02020001; 0x0a020001; 0x02020009; 0x0a020009; 0x02020401; 0x0a020401; 0x02020409; 0x0a020409];
  [
     0x00000000; 0x00000100; 0x00080000; 0x00080100; 0x01000000; 0x01000100; 0x01080000; 0x01080100;
     0x00000010; 0x00000110; 0x00080010; 0x00080110; 0x01000010; 0x01000110; 0x01080010; 0x01080110;
     0x00200000; 0x00200100; 0x00280000; 0x00280100; 0x01200000; 0x01200100; 0x01280000; 0x01280100;
     0x00200010; 0x00200110; 0x00280010; 0x00280110; 0x01200010; 0x01200110; 0x01280010; 0x01280110;
     0x00000200; 0x00000300; 0x00080200; 0x00080300; 0x01000200; 0x01000300; 0x01080200; 0x01080300;
     0x00000210; 0x00000310; 0x00080210; 0x00080310; 0x01000210; 0x01000310; 0x01080210; 0x01080310;
     0x00200200; 0x00200300; 0x00280200; 0x00280300; 0x01200200; 0x01200300; 0x01280200; 0x01280300;
     0x00200210; 0x00200310; 0x00280210; 0x00280310; 0x01200210; 0x01200310; 0x01280210; 0x01280310];
  [
     0x00000000; 0x04000000; 0x00040000; 0x04040000; 0x00000002; 0x04000002; 0x00040002; 0x04040002;
     0x00002000; 0x04002000; 0x00042000; 0x04042000; 0x00002002; 0x04002002; 0x00042002; 0x04042002;
     0x00000020; 0x04000020; 0x00040020; 0x04040020; 0x00000022; 0x04000022; 0x00040022; 0x04040022;
     0x00002020; 0x04002020; 0x00042020; 0x04042020; 0x00002022; 0x04002022; 0x00042022; 0x04042022;
     0x00000800; 0x04000800; 0x00040800; 0x04040800; 0x00000802; 0x04000802; 0x00040802; 0x04040802;
     0x00002800; 0x04002800; 0x00042800; 0x04042800; 0x00002802; 0x04002802; 0x00042802; 0x04042802;
     0x00000820; 0x04000820; 0x00040820; 0x04040820; 0x00000822; 0x04000822; 0x00040822; 0x04040822;
     0x00002820; 0x04002820; 0x00042820; 0x04042820; 0x00002822; 0x04002822; 0x00042822; 0x04042822]].

Definition DES_SPtrans : list (list Z) := [
  [
     0x02080800; 0x00080000; 0x02000002; 0x02080802; 0x02000000; 0x00080802; 0x00080002; 0x02000002;
     0x00080802; 0x02080800; 0x02080000; 0x00000802; 0x02000802; 0x02000000; 0x00000000; 0x00080002;
     0x00080000; 0x00000002; 0x02000800; 0x00080800; 0x02080802; 0x02080000; 0x00000802; 0x02000800;
     0x00000002; 0x00000800; 0x00080800; 0x02080002; 0x00000800; 0x02000802; 0x02080002; 0x00000000;
     0x00000000; 0x02080802; 0x02000800; 0x00080002; 0x02080800; 0x00080000; 0x00000802; 0x02000800;
     0x02080002; 0x00000800; 0x00080800; 0x02000002; 0x00080802; 0x00000002; 0x02000002; 0x02080000;
     0x02080802; 0x00080800; 0x02080000; 0x02000802; 0x02000000; 0x00000802; 0x00080002; 0x00000000;
     0x00080000; 0x02000000; 0x02000802; 0x02080800; 0x00000002; 0x02080002; 0x00000800; 0x00080802];
  [
     0x40108010; 0x00000000; 0x00108000; 0x40100000; 0x40000010; 0x00008010; 0x40008000; 0x00108000;
     0x00008000; 0x40100010; 0x00000010; 0x40008000; 0x00100010; 0x40108000; 0x40100000; 0x00000010;
     0x00100000; 0x40008010; 0x40100010; 0x00008000; 0x00108010; 0x40000000; 0x00000000; 0x00100010;
     0x40008010; 0x00108010; 0x40108000; 0x40000010; 0x40000000; 0x00100000; 0x00008010; 0x40108010;
     0x00100010; 0x40108000; 0x40008000; 0x00108010; 0x40108010; 0x00100010; 0x40000010; 0x00000000;
     0x40000000; 0x00008010; 0x00100000; 0x40100010; 0x00008000; 0x40000000; 0x00108010; 0x40008010;
     0x40108000; 0x00008000; 0x00000000; 0x40000010; 0x00000010; 0x40108010; 0x00108000; 0x40100000;
     0x40100010; 0x00100000; 0x00008010; 0x40008000; 0x40008010; 0x00000010; 0x40100000; 0x00108000];
  [
     0x04000001; 0x04040100; 0x00000100; 0x04000101; 0x00040001; 0x04000000; 0x04000101; 0x00040100;
     0x04000100; 0x00040000; 0x04040000; 0x00000001; 0x04040101; 0x00000101; 0x00000001; 0x04040001;
     0x00000000; 0x00040001; 0x04040100; 0x00000100; 0x00000101; 0x04040101; 0x00040000; 0x04000001;
     0x04040001; 0x04000100; 0x00040101; 0x04040000; 0x00040100; 0x00000000; 0x04000000; 0x00040101;
     0x04040100; 0x00000100; 0x00000001; 0x00040000; 0x00000101; 0x00040001; 0x04040000; 0x04000101;
     0x00000000; 0x04040100; 0x00040100; 0x04040001; 0x00040001; 0x04000000; 0x04040101; 0x00000001;
     0x00040101; 0x04000001; 0x04000000; 0x04040101; 0x00040000; 0x04000100; 0x04000101; 0x00040100;
     0x04000100; 0x00000000; 0x04040001; 0x00000101; 0x04000001; 0x00040101; 0x00000100; 0x04040000];
  [
     0x00401008; 0x10001000; 0x00000008; 0x10401008; 0x00000000; 0x10400000; 0x10001008; 0x00400008;
     0x10401000; 0x10000008; 0x10000000; 0x00001008; 0x10000008; 0x00401008; 0x00400000; 0x10000000;
     0x10400008; 0x00401000; 0x00001000; 0x00000008; 0x00401000; 0x10001008; 0x10400000; 0x00001000;
     0x00001008; 0x00000000; 0x00400008; 0x10401000; 0x10001000; 0x10400008; 0x10401008; 0x00400000;
     0x10400008; 0x00001008; 0x00400000; 0x10000008; 0x00401000; 0x10001000; 0x00000008; 0x10400000;
     0x10001008; 0x00000000; 0x00001000; 0x00400008; 0x00000000; 0x10400008; 0x10401000; 0x00001000;
     0x10000000; 0x10401008; 0x00401008; 0x00400000; 0x10401008; 0x00000008; 0x10001000; 0x00401008;
     0x00400008; 0x00401000; 0x10400000; 0x10001008; 0x00001008; 0x10000000; 0x10000008; 0x10401000];
  [
     0x08000000; 0x00010000; 0x00000400; 0x08010420; 0x08010020; 0x08000400; 0x00010420; 0x08010000;
     0x00010000; 0x00000020; 0x08000020; 0x00010400; 0x08000420; 0x08010020; 0x08010400; 0x00000000;
     0x00010400; 0x08000000; 0x00010020; 0x00000420; 0x08000400; 0x00010420; 0x00000000; 0x08000020;
     0x00000020; 0x08000420; 0x08010420; 0x00010020; 0x08010000; 0x00000400; 0x00000420; 0x08010400;
     0x08010400; 0x08000420; 0x00010020; 0x08010000; 0x00010000; 0x00000020; 0x08000020; 0x08000400;
     0x08000000; 0x00010400; 0x08010420; 0x00000000; 0x00010420; 0x08000000; 0x00000400; 0x00010020;
     0x08000420; 0x00000400; 0x00000000; 0x08010420; 0x08010020; 0x08010400; 0x00000420; 0x00010000;
     0x00010400; 0x08010020; 0x08000400; 0x00000420; 0x00000020; 0x00010420; 0x08010000; 0x08000020];
  [
     0x80000040; 0x00200040; 0x00000000; 0x80202000; 0x00200040; 0x00002000; 0x80002040; 0x00200000;
     0x00002040; 0x80202040; 0x00202000; 0x80000000; 0x80002000; 0x80000040; 0x80200000; 0x00202040;
     0x00200000; 0x80002040; 0x80200040; 0x00000000; 0x00002000; 0x00000040; 0x80202000; 0x80200040;
     0x80202040; 0x80200000; 0x80000000; 0x00002040; 0x00000040; 0x00202000; 0x00202040; 0x80002000;
     0x00002040; 0x80000000; 0x80002000; 0x00202040; 0x80202000; 0x00200040; 0x00000000; 0x80002000;
     0x80000000; 0x00002000; 0x80200040; 0x00200000; 0x00200040; 0x80202040; 0x00202000; 0x00000040;
     0x80202040; 0x00202000; 0x00200000; 0x80002040; 0x80000040; 0x80200000; 0x00202040; 0x00000000;
     0x00002000; 0x80000040; 0x80002040; 0x80202000; 0x80200000; 0x00002040; 0x00000040; 0x80200040];
  [
     0x00004000; 0x00000200; 0x01000200; 0x01000004; 0x01004204; 0x00004004; 0x00004200; 0x00000000;
     0x01000000; 0x01000204; 0x00000204; 0x01004000; 0x00000004; 0x01004200; 0x01004000; 0x00000204;
     0x01000204; 0x00004000; 0x00004004; 0x01004204; 0x00000000; 0x01000200; 0x01000004; 0x00004200;
     0x01004004; 0x00004204; 0x01004200; 0x00000004; 0x00004204; 0x01004004; 0x00000200; 0x01000000;
     0x00004204; 0x01004000; 0x01004004; 0x00000204; 0x00004000; 0x00000200; 0x01000000; 0x01004004;
     0x01000204; 0x00004204; 0x00004200; 0x00000000; 0x00000200; 0x01000004; 0x00000004; 0x01000200;
     0x00000000; 0x01000204; 0x01000200; 0x00004200; 0x00000204; 0x00004000; 0x01004204; 0x01000000;
     0x01004200; 0x00000004; 0x00004004; 0x01004204; 0x01000004; 0x01004200; 0x01004000; 0x00004004];
  [
     0x20800080; 0x20820000; 0x00020080; 0x00000000; 0x20020000; 0x00800080; 0x20800000; 0x20820080;
     0x00000080; 0x20000000; 0x00820000; 0x00020080; 0x00820080; 0x20020080; 0x20000080; 0x20800000;
     0x00020000; 0x00820080; 0x00800080; 0x20020000; 0x20820080; 0x20000080; 0x00000000; 0x00820000;
     0x20000000; 0x00800000; 0x20020080; 0x20800080; 0x00800000; 0x00020000; 0x20820000; 0x00000080;
     0x00800000; 0x00020000; 0x20000080; 0x20820080; 0x00020080; 0x20000000; 0x00000000; 0x00820000;
     0x20800080; 0x20020080; 0x20020000; 0x00800080; 0x20820000; 0x00000080; 0x00800080; 0x20020000;
     0x20820080; 0x00800000; 0x20800000; 0x20000080; 0x00820000; 0x00020080; 0x20020080; 0x20800000;
     0x00000080; 0x20820000; 0x00820080; 0x00000000; 0x20000000; 0x20800080; 0x00020000; 0x00820080]].

Definition kOddParity : list Z := [
  1; 1; 2; 2; 4; 4; 7; 7; 8; 8; 11; 11; 13; 13; 14; 14;
  16; 16; 19; 19; 21; 21; 22; 22; 25; 25; 26; 26; 28; 28; 31; 31;
  32; 32; 35; 35; 37; 37; 38; 38; 41; 41; 42; 42; 44; 44; 47; 47;
  49; 49; 50; 50; 52; 52; 55; 55; 56; 56; 59; 59; 61; 61; 62; 62;
  64; 64; 67; 67; 69; 69; 70; 70; 73; 73; 74; 74; 76; 76; 79; 79;
  81; 81; 82; 82; 84; 84; 87; 87; 88; 88; 91; 91; 93; 93; 94; 94;
  97; 97; 98; 98; 100; 100; 103; 103; 104; 104; 107; 107; 109; 109; 110; 110;
  112; 112; 115; 115; 117; 117; 118; 118; 121; 121; 122; 122; 124; 124; 127; 127;
  128; 128; 131; 131; 133; 133; 134; 134; 137; 137; 138; 138; 140; 140; 143; 143;
  145; 145; 146; 146; 148; 148; 151; 151; 152; 152; 155; 155; 157; 157; 158; 158;
  161; 161; 162; 162; 164; 164; 167; 167; 168; 168; 171; 171; 173; 173; 174; 174;
  176; 176; 179; 179; 181; 181; 182; 182; 185; 185; 186; 186; 188; 188; 191; 191;
  193; 193; 194; 194; 196; 196; 199; 199; 200; 200; 203; 203; 205; 205; 206; 206;
  208; 208; 211; 211; 213; 213; 214; 214; 217; 217; 218; 218; 220; 220; 223; 223;
  224; 224; 227; 227; 229; 229; 230; 230; 233; 233; 234; 234; 236; 236; 239; 239;
  241; 241; 242; 242; 244; 244; 247; 247; 248; 248; 251; 251; 253; 253; 254; 254].

Definition des_table (t : list (list Z)) (i : nat) (x : Z) : Z := byte_at (nth i t []) x.

(** The macros: the new values of [a] and [b]. *)
Definition PERM_OP (a b n m : Z) : Z * Z :=
  let t := ((a ≫ n) .^ b) .& m in
  (a .^ (t ≪[32] n), b .^ t).
Definition HPERM_OP (a n m : Z) : Z :=
  let t := ((a ≪[32] (16 - n)) .^ a) .& m in
  (a .^ t) .^ (t ≫ (16 - n)).

Definition IP (l r : Z) : Z * Z :=
  let '(r, l) := PERM_OP r l 4 0x0f0f0f0f in
  let '(l, r) := PERM_OP l r 16 0x0000ffff in
  let '(r, l) := PERM_OP r l 2 0x33333333 in
  let '(l, r) := PERM_OP l r 8 0x00ff00ff in
  let '(r, l) := PERM_OP r l 1 0x55555555 in
  (l, r).
Definition FP (l r : Z) : Z * Z :=
  let '(l, r) := PERM_OP l r 1 0x55555555 in
  let '(r, l) := PERM_OP r l 8 0x00ff00ff in
  let '(l, r) := PERM_OP l r 2 0x33333333 in
  let '(r, l) := PERM_OP r l 16 0x0000ffff in
  let '(l, r) := PERM_OP l r 4 0x0f0f0f0f in
  (l, r).

Definition DES_key_schedule : Type := list (Z * Z).

Definition LOAD_DATA (ks : DES_key_schedule) (R : Z) (S : nat) : Z * Z :=
  let '(k0, k1) := nth S ks (0, 0) in (R .^ k0, R .^ k1).

(** The new value of [LL]. *)
Definition D_ENCRYPT (ks : DES_key_schedule) (LL R : Z) (S : nat) : Z :=
  let '(u, t) := LOAD_DATA ks R S in
  let t := CRYPTO_rotr_u32 t 4 in
  LL .^ (des_table DES_SPtrans 0 (u ≫ 2 .& 0x3f) .^ des_table DES_SPtrans 2 (u ≫ 10 .& 0x3f) .^
         des_table DES_SPtrans 4 (u ≫ 18 .& 0x3f) .^
         des_table DES_SPtrans 6 (u ≫ 26 .& 0x3f) .^ des_table DES_SPtrans 1 (t ≫ 2 .& 0x3f) .^
         des_table DES_SPtrans 3 (t ≫ 10 .& 0x3f) .^
         des_table DES_SPtrans 5 (t ≫ 18 .& 0x3f) .^ des_table DES_SPtrans 7 (t ≫ 26 .& 0x3f)).

(** The unrolled rounds: [D_ENCRYPT(ks, l, r, i); D_ENCRYPT(ks, r, l, j);] *)
Definition two_rounds (ks : DES_key_schedule) (d : Z * Z) (ij : nat * nat) : Z * Z :=
  let '(l, r) := d in
  let l := D_ENCRYPT ks l r ij.1 in
  let r := D_ENCRYPT ks r l ij.2 in
  (l, r).
Definition enc_order : list (nat * nat) := [(0, 1); (2, 3); (4, 5); (6, 7); (8, 9); (10, 11); (12, 13); (14, 15)]%nat.
Definition dec_order : list (nat * nat) := [(15, 14); (13, 12); (11, 10); (9, 8); (7, 6); (5, 4); (3, 2); (1, 0)]%nat.

Definition DES_encrypt1 (data : Z * Z) (ks : DES_key_schedule) (enc : bool) : Z * Z :=
  let r := data.1 in
  let l := data.2 in
  let '(r, l) := IP r l in
  let r := CRYPTO_rotr_u32 r 29 in
  let l := CRYPTO_rotr_u32 l 29 in
  let '(l, r) := foldl (two_rounds ks) (l, r) (if enc then enc_order else dec_order) in
  let l := CRYPTO_rotr_u32 l 3 in
  let r := CRYPTO_rotr_u32 r 3 in
  let '(r, l) := FP r l in
  (l, r).

Definition DES_encrypt2 (data : Z * Z) (ks : DES_key_schedule) (enc : bool) : Z * Z :=
  let r := data.1 in
  let l := data.2 in
  let r := CRYPTO_rotr_u32 r 29 in
  let l := CRYPTO_rotr_u32 l 29 in
  let '(l, r) := foldl (two_rounds ks) (l, r) (if enc then enc_order else dec_order) in
  (CRYPTO_rotr_u32 l 3, CRYPTO_rotr_u32 r 3).

Definition DES_encrypt3 (data : Z * Z) (ks1 ks2 ks3 : DES_key_schedule) : Z * Z :=
  let l := data.1 in
  let r := data.2 in
  let '(l, r) := IP l r in
  let data := DES_encrypt2 (l, r) ks1 true in
  let data := DES_encrypt2 data ks2 false in
  let data := DES_encrypt2 data ks3 true in
  let l := data.1 in
  let r := data.2 in
  let '(r, l) := FP r l in
  (l, r).

Definition DES_decrypt3 (data : Z * Z) (ks1 ks2 ks3 : DES_key_schedule) : Z * Z :=
  let l := data.1 in
  let r := data.2 in
  let '(l, r) := IP l r in
  let data := DES_encrypt2 (l, r) ks3 false in
  let data := DES_encrypt2 data ks2 true in
  let data := DES_encrypt2 data ks1 false in
  let l := data.1 in
  let r := data.2 in
  let '(r, l) := FP r l in
  (l, r).

(** [c2l]: four bytes of [c] and the bytes behind them; [None] when the buffer
    ends before. *)
Definition c2l (c : list Z) : option (Z * list Z) :=
  match c with
  | b0 :: b1 :: b2 :: b3 :: c => Some (b0 .| (b1 ≪ 8) .| (b2 ≪ 16) .| (b3 ≪ 24), c)
  | _ => None
  end.
Definition l2c (l : Z) : list Z := [l .& 0xff; l ≫ 8 .& 0xff; l ≫ 16 .& 0xff; l ≫ 24 .& 0xff].

(** [c2ln]: the switch falls through from byte [n] down to the first. *)
Definition c2ln (c : list Z) (n : nat) : option (Z * Z) :=
  if (length c <? n)%nat then None
  else
    let at_ i := if (i <? n)%nat then nth i c 0 else 0 in
    let l2 := (at_ 7%nat ≪ 24) .| (at_ 6%nat ≪ 16) .| (at_ 5%nat ≪ 8) .| at_ 4%nat in
    let l1 := (at_ 3%nat ≪ 24) .| (at_ 2%nat ≪ 16) .| (at_ 1%nat ≪ 8) .| at_ 0%nat in
    Some (l1, l2).
(** [l2cn]: the first [n] bytes of the two words. *)
Definition l2cn (l1 l2 : Z) (n : nat) : list Z := take n (l2c l1 ++ l2c l2).

(** ** The key schedule *)
Definition shifts2 : list bool :=
  [false; false; true; true; true; true; true; true; false; true; true; true; true; true; true; false].

(** The selection of the 47 operations. *)
Definition key_words (c d : Z) : Z * Z :=
  let '(d, c) := PERM_OP d c 4 0x0f0f0f0f in
  let c := HPERM_OP c (-2) 0xcccc0000 in
  let d := HPERM_OP d (-2) 0xcccc0000 in
  let '(d, c) := PERM_OP d c 1 0x55555555 in
  let '(c, d) := PERM_OP c d 8 0x00ff00ff in
  let '(d, c) := PERM_OP d c 1 0x55555555 in
  let d := ((d .& 0x000000ff) ≪[32] 16) .| (d .& 0x0000ff00) .| ((d .& 0x00ff0000) ≫ 16) .| ((c .& 0xf0000000) ≫ 4) in
  let c := c .& 0x0fffffff in
  (c, d).
Definition key_shift (shift2 : bool) (cd : Z * Z) : Z * Z :=
  let '(c, d) := cd in
  let '(c, d) := if shift2 then ((c ≫ 2) .| (c ≪[32] 26), (d ≫ 2) .| (d ≪[32] 26))
                 else ((c ≫ 1) .| (c ≪[32] 27), (d ≫ 1) .| (d ≪[32] 27)) in
  (c .& 0x0fffffff, d .& 0x0fffffff).
Definition subkey (c d : Z) : Z * Z :=
  let s := des_table des_skb 0 (c .& 0x3f) .|
           des_table des_skb 1 ((c ≫ 6 .& 0x03) .| (c ≫ 7 .& 0x3c)) .|
           des_table des_skb 2 ((c ≫ 13 .& 0x0f) .| (c ≫ 14 .& 0x30)) .|
           des_table des_skb 3 ((c ≫ 20 .& 0x01) .| (c ≫ 21 .& 0x06) .| (c ≫ 22 .& 0x38)) in
  let t := des_table des_skb 4 (d .& 0x3f) .|
           des_table des_skb 5 ((d ≫ 7 .& 0x03) .| (d ≫ 8 .& 0x3c)) .|
           des_table des_skb 6 (d ≫ 15 .& 0x3f) .|
           des_table des_skb 7 ((d ≫ 21 .& 0x0f) .| (d ≫ 22 .& 0x30)) in
  let t2 := ((t ≪[32] 16) .| (s .& 0x0000ffff)) .& 0xffffffff in
  let k0 := CRYPTO_rotr_u32 t2 30 in
  let t2 := (s ≫ 16) .| (t .& 0xffff0000) in
  let k1 := CRYPTO_rotr_u32 t2 26 in
  (k0, k1).
Fixpoint key_loop (shifts : list bool) (cd : Z * Z) : DES_key_schedule :=
  match shifts with
  | [] => []
  | s :: shifts => let cd := key_shift s cd in subkey cd.1 cd.2 :: key_loop shifts cd
  end.
Definition DES_set_key_ex (key : list Z) : option DES_key_schedule :=
  '(c, rest) ← c2l key;
  '(d, _) ← c2l rest;
  Some (key_loop shifts2 (key_words c d)).
Definition DES_set_key (key : list Z) : option DES_key_schedule := DES_set_key_ex key.
Definition DES_set_key_unchecked (key : list Z) : option DES_key_schedule := DES_set_key key.

Definition DES_set_odd_parity (key : list Z) : list Z := (λ b, byte_at kOddParity b) <$> key.

(** ** Single blocks *)
Definition DES_ecb_encrypt_ex (inp : list Z) (schedule : DES_key_schedule) (is_encrypt : bool) : list Z :=
  let ll := (CRYPTO_load_u32_le inp, CRYPTO_load_u32_le (drop 4 inp)) in
  let ll := DES_encrypt1 ll schedule is_encrypt in
  CRYPTO_store_u32_le ll.1 ++ CRYPTO_store_u32_le ll.2.
Definition DES_ecb_encrypt (in_block : list Z) (schedule : DES_key_schedule) (is_encrypt : bool) : list Z :=
  DES_ecb_encrypt_ex in_block schedule is_encrypt.
Definition DES_ecb3_encrypt_ex (inp : list Z) (ks1 ks2 ks3 : DES_key_schedule) (enc : bool) : list Z :=
  let ll := (CRYPTO_load_u32_le inp, CRYPTO_load_u32_le (drop 4 inp)) in
  let ll := if enc then DES_encrypt3 ll ks1 ks2 ks3 else DES_decrypt3 ll ks1 ks2 ks3 in
  CRYPTO_store_u32_le ll.1 ++ CRYPTO_store_u32_le ll.2.
Definition DES_ecb3_encrypt (inp : list Z) (ks1 ks2 ks3 : DES_key_schedule) (enc : bool) : list Z :=
  DES_ecb3_encrypt_ex inp ks1 ks2 ks3 enc.

(** ** CBC mode

    The two functions differ only in the calls for a block.  They return the
    bytes written to [out] and the bytes left in [ivec]; [None] is a read past
    the end of [in].  Each block is read before it is written, so [out] may be
    [in]. *)
Section cbc.
Context (encrypt decrypt : Z * Z → Z * Z).

Fixpoint cbc_enc_loop (fuel : nat) (inp : list Z) (len : Z) (tout0 tout1 : Z) : option (list Z * (Z * Z)) :=
  if len >=? 8 then
    match fuel with
    | O => None
    | S fuel =>
        '(tin0, inp) ← c2l inp;
        '(tin1, inp) ← c2l inp;
        let tin0 := tin0 .^ tout0 in
        let tin1 := tin1 .^ tout1 in
        let '(tout0, tout1) := encrypt (tin0, tin1) in
        '(out, iv) ← cbc_enc_loop fuel inp (len - 8) tout0 tout1;
        Some (l2c tout0 ++ l2c tout1 ++ out, iv)
    end
  else if negb (len =? 0) then
    '(tin0, tin1) ← c2ln inp (Z.to_nat len);
    let tin0 := tin0 .^ tout0 in
    let tin1 := tin1 .^ tout1 in
    let '(tout0, tout1) := encrypt (tin0, tin1) in
    Some (l2c tout0 ++ l2c tout1, (tout0, tout1))
  else Some ([], (tout0, tout1)).

Fixpoint cbc_dec_loop (fuel : nat) (inp : list Z) (len : Z) (xor0 xor1 : Z) : option (list Z * (Z * Z)) :=
  if len >=? 8 then
    match fuel with
    | O => None
    | S fuel =>
        '(tin0, inp) ← c2l inp;
        '(tin1, inp) ← c2l inp;
        let tin := decrypt (tin0, tin1) in
        let tout0 := tin.1 .^ xor0 in
        let tout1 := tin.2 .^ xor1 in
        '(out, iv) ← cbc_dec_loop fuel inp (len - 8) tin0 tin1;
        Some (l2c tout0 ++ l2c tout1 ++ out, iv)
    end
  else if negb (len =? 0) then
    '(tin0, inp) ← c2l inp;
    '(tin1, inp) ← c2l inp;
    let tin := decrypt (tin0, tin1) in
    let tout0 := tin.1 .^ xor0 in
    let tout1 := tin.2 .^ xor1 in
    Some (l2cn tout0 tout1 (Z.to_nat len), (tin0, tin1))
  else Some ([], (xor0, xor1)).

Definition cbc_encrypt (inp : list Z) (len : Z) (ivec : list Z) (enc : bool) : option (list Z * list Z) :=
  '(iv0, rest) ← c2l ivec;
  '(iv1, _) ← c2l rest;
  '(out, (iv0, iv1)) ← (if enc then cbc_enc_loop else cbc_dec_loop) (Z.to_nat (len / 8)) inp len iv0 iv1;
  Some (out, l2c iv0 ++ l2c iv1).
End cbc.

Definition DES_ncbc_encrypt_ex (inp : list Z) (len : Z) (schedule : DES_key_schedule) (ivec : list Z) (enc : bool) : option (list Z * list Z) :=
  cbc_encrypt (λ tin, DES_encrypt1 tin schedule true) (λ tin, DES_encrypt1 tin schedule false) inp len ivec enc.
Definition DES_ncbc_encrypt (inp : list Z) (len : Z) (schedule : DES_key_schedule) (ivec : list Z) (enc : bool) : option (list Z * list Z) :=
  DES_ncbc_encrypt_ex inp len schedule ivec enc.
Definition DES_ede3_cbc_encrypt_ex (inp : list Z) (len : Z) (ks1 ks2 ks3 : DES_key_schedule) (ivec : list Z) (enc : bool) : option (list Z * list Z) :=
  cbc_encrypt (λ tin, DES_encrypt3 tin ks1 ks2 ks3) (λ tin, DES_decrypt3 tin ks1 ks2 ks3) inp len ivec enc.
Definition DES_ede3_cbc_encrypt (inp : list Z) (len : Z) (ks1 ks2 ks3 : DES_key_schedule) (ivec : list Z) (enc : bool) : option (list Z * list Z) :=
  DES_ede3_cbc_encrypt_ex inp len ks1 ks2 ks3 ivec enc.
Definition DES_ede2_cbc_encrypt (inp : list Z) (len : Z) (ks1 ks2 : DES_key_schedule) (ivec : list Z) (enc : bool) : option (list Z * list Z) :=
  DES_ede3_cbc_encrypt inp len ks1 ks2 ks1 ivec enc.
