(* ===== verification/DesSpec.v ===== *)
(** FIPS 46-3: the Data Encryption Standard on lists of bits, with the tables
    of the standard, numbered from 1 as there. *)
From S2P Require Import Prelude Bits.

(** The output bits are the input bits with these numbers. *)
Definition permute {A} (d : A) (t : list nat) (x : list A) : list A := pick d (pred <$> t) x.

Definition IP_table : list nat := [
  58; 50; 42; 34; 26; 18; 10; 2; 60; 52; 44; 36; 28; 20; 12; 4;
  62; 54; 46; 38; 30; 22; 14; 6; 64; 56; 48; 40; 32; 24; 16; 8;
  57; 49; 41; 33; 25; 17; 9; 1; 59; 51; 43; 35; 27; 19; 11; 3;
  61; 53; 45; 37; 29; 21; 13; 5; 63; 55; 47; 39; 31; 23; 15; 7]%nat.
Definition IP_inverse_table : list nat := [
  40; 8; 48; 16; 56; 24; 64; 32; 39; 7; 47; 15; 55; 23; 63; 31;
  38; 6; 46; 14; 54; 22; 62; 30; 37; 5; 45; 13; 53; 21; 61; 29;
  36; 4; 44; 12; 52; 20; 60; 28; 35; 3; 43; 11; 51; 19; 59; 27;
  34; 2; 42; 10; 50; 18; 58; 26; 33; 1; 41; 9; 49; 17; 57; 25]%nat.
Definition E_table : list nat := [
  32; 1; 2; 3; 4; 5; 4; 5; 6; 7; 8; 9; 8; 9; 10; 11; 12; 13; 12; 13; 14; 15; 16; 17;
  16; 17; 18; 19; 20; 21; 20; 21; 22; 23; 24; 25; 24; 25; 26; 27; 28; 29; 28; 29; 30; 31; 32; 1]%nat.
Definition P_table : list nat := [
  16; 7; 20; 21; 29; 12; 28; 17; 1; 15; 23; 26; 5; 18; 31; 10;
  2; 8; 24; 14; 32; 27; 3; 9; 19; 13; 30; 6; 22; 11; 4; 25]%nat.
Definition PC1_table : list nat := [
  57; 49; 41; 33; 25; 17; 9; 1; 58; 50; 42; 34; 26; 18; 10; 2; 59; 51; 43; 35; 27; 19; 11; 3; 60; 52; 44; 36;
  63; 55; 47; 39; 31; 23; 15; 7; 62; 54; 46; 38; 30; 22; 14; 6; 61; 53; 45; 37; 29; 21; 13; 5; 28; 20; 12; 4]%nat.
Definition PC2_table : list nat := [
  14; 17; 11; 24; 1; 5; 3; 28; 15; 6; 21; 10; 23; 19; 12; 4; 26; 8; 16; 7; 27; 20; 13; 2;
  41; 52; 31; 37; 47; 55; 30; 40; 51; 45; 33; 48; 44; 49; 39; 56; 34; 53; 46; 42; 50; 36; 29; 32]%nat.
Definition key_shifts : list nat := [1; 1; 2; 2; 2; 2; 2; 2; 1; 2; 2; 2; 2; 2; 2; 1]%nat.

Definition S_tables : list (list Z) := [
  [14; 4; 13; 1; 2; 15; 11; 8; 3; 10; 6; 12; 5; 9; 0; 7;
   0; 15; 7; 4; 14; 2; 13; 1; 10; 6; 12; 11; 9; 5; 3; 8;
   4; 1; 14; 8; 13; 6; 2; 11; 15; 12; 9; 7; 3; 10; 5; 0;
   15; 12; 8; 2; 4; 9; 1; 7; 5; 11; 3; 14; 10; 0; 6; 13];
  [15; 1; 8; 14; 6; 11; 3; 4; 9; 7; 2; 13; 12; 0; 5; 10;
   3; 13; 4; 7; 15; 2; 8; 14; 12; 0; 1; 10; 6; 9; 11; 5;
   0; 14; 7; 11; 10; 4; 13; 1; 5; 8; 12; 6; 9; 3; 2; 15;
   13; 8; 10; 1; 3; 15; 4; 2; 11; 6; 7; 12; 0; 5; 14; 9];
  [10; 0; 9; 14; 6; 3; 15; 5; 1; 13; 12; 7; 11; 4; 2; 8;
   13; 7; 0; 9; 3; 4; 6; 10; 2; 8; 5; 14; 12; 11; 15; 1;
   13; 6; 4; 9; 8; 15; 3; 0; 11; 1; 2; 12; 5; 10; 14; 7;
   1; 10; 13; 0; 6; 9; 8; 7; 4; 15; 14; 3; 11; 5; 2; 12];
  [7; 13; 14; 3; 0; 6; 9; 10; 1; 2; 8; 5; 11; 12; 4; 15;
   13; 8; 11; 5; 6; 15; 0; 3; 4; 7; 2; 12; 1; 10; 14; 9;
   10; 6; 9; 0; 12; 11; 7; 13; 15; 1; 3; 14; 5; 2; 8; 4;
   3; 15; 0; 6; 10; 1; 13; 8; 9; 4; 5; 11; 12; 7; 2; 14];
  [2; 12; 4; 1; 7; 10; 11; 6; 8; 5; 3; 15; 13; 0; 14; 9;
   14; 11; 2; 12; 4; 7; 13; 1; 5; 0; 15; 10; 3; 9; 8; 6;
   4; 2; 1; 11; 10; 13; 7; 8; 15; 9; 12; 5; 6; 3; 0; 14;
   11; 8; 12; 7; 1; 14; 2; 13; 6; 15; 0; 9; 10; 4; 5; 3];
  [12; 1; 10; 15; 9; 2; 6; 8; 0; 13; 3; 4; 14; 7; 5; 11;
   10; 15; 4; 2; 7; 12; 9; 5; 6; 1; 13; 14; 0; 11; 3; 8;
   9; 14; 15; 5; 2; 8; 12; 3; 7; 0; 4; 10; 1; 13; 11; 6;
   4; 3; 2; 12; 9; 5; 15; 10; 11; 14; 1; 7; 6; 0; 8; 13];
  [4; 11; 2; 14; 15; 0; 8; 13; 3; 12; 9; 7; 5; 10; 6; 1;
   13; 0; 11; 7; 4; 9; 1; 10; 14; 3; 5; 12; 2; 15; 8; 6;
   1; 4; 11; 13; 12; 3; 7; 14; 10; 15; 6; 8; 0; 5; 9; 2;
   6; 11; 13; 8; 1; 4; 10; 7; 9; 5; 0; 15; 14; 2; 3; 12];
  [13; 2; 8; 4; 6; 15; 11; 1; 10; 9; 3; 14; 5; 0; 12; 7;
   1; 15; 13; 8; 10; 3; 7; 4; 12; 5; 6; 11; 0; 14; 9; 2;
   7; 11; 4; 1; 9; 12; 14; 2; 0; 6; 10; 13; 15; 3; 5; 8;
   2; 1; 14; 7; 4; 10; 8; 13; 15; 12; 9; 0; 3; 5; 6; 11]].

(** The number with these bits, the most significant first, and its [n] bits. *)
Definition number (b : list bool) : Z := word_of (rev b).
Definition to_bits (n : nat) (x : Z) : list bool := rev (bits_from n x).

(** The S-box: the outer bits choose the row, the inner ones the column. *)
Definition S_box (j : nat) (b : list bool) : list bool :=
  let row := number [nth 0 b false; nth 5 b false] in
  let column := number (take 4 (drop 1 b)) in
  to_bits 4 (byte_at (nth j S_tables []) (16 * row + column)).

Definition xor_bits : list bool → list bool → list bool := zip_with xorb.

(** The six bits that go into box [j]. *)
Definition chunk (j : nat) (b : list bool) : list bool := take 6 (drop (6 * j) b).

Definition cipher_f (R K : list bool) : list bool :=
  let b := xor_bits (permute false E_table R) K in
  permute false P_table (concat ((λ j, S_box j (chunk j b)) <$> seq 0 8)).

Definition round (LR : list bool * list bool) (K : list bool) : list bool * list bool :=
  (LR.2, xor_bits LR.1 (cipher_f LR.2 K)).

(** The cipher with its round keys in order: the halves change places at the end. *)
Definition DES_rounds (Ks : list (list bool)) (x : list bool) : list bool :=
  let y := permute false IP_table x in
  let LR := foldl round (take 32 y, drop 32 y) Ks in
  permute false IP_inverse_table (LR.2 ++ LR.1).

Definition rotate_left {A} (n : nat) (l : list A) : list A := drop n l ++ take n l.
Fixpoint key_rounds {A} (d : A) (shifts : list nat) (C D : list A) : list (list A) :=
  match shifts with
  | [] => []
  | n :: shifts =>
      let C := rotate_left n C in
      let D := rotate_left n D in
      permute d PC2_table (C ++ D) :: key_rounds d shifts C D
  end.
Definition KS (key : list bool) : list (list bool) :=
  let y := permute false PC1_table key in key_rounds false key_shifts (take 28 y) (drop 28 y).

Definition DES_enc (key x : list bool) : list bool := DES_rounds (KS key) x.
Definition DES_dec (key x : list bool) : list bool := DES_rounds (rev (KS key)) x.
(** The triple data encryption algorithm. *)
Definition TDEA_enc (k1 k2 k3 x : list bool) : list bool := DES_enc k3 (DES_dec k2 (DES_enc k1 x)).
Definition TDEA_dec (k1 k2 k3 x : list bool) : list bool := DES_dec k1 (DES_enc k2 (DES_dec k3 x)).

(** Blocks and keys as bytes: bit 1 is the most significant bit of the first byte. *)
Definition block_bits (l : list Z) : list bool := concat (to_bits 8 <$> l).
Fixpoint bits_block (n : nat) (b : list bool) : list Z :=
  match n with O => [] | S n => number (take 8 b) :: bits_block n (drop 8 b) end.

(** Cipher block chaining (FIPS 81) over blocks of bits. *)
Fixpoint cbc_enc (E : list bool → list bool) (iv : list bool) (xs : list (list bool)) : list (list bool) :=
  match xs with
  | [] => []
  | x :: xs => let c := E (xor_bits x iv) in c :: cbc_enc E c xs
  end.
Fixpoint cbc_dec (D : list bool → list bool) (iv : list bool) (cs : list (list bool)) : list (list bool) :=
  match cs with
  | [] => []
  | c :: cs => xor_bits (D c) iv :: cbc_dec D c cs
  end.

(** The blocks of a message: the last one is filled up with zeros. *)
Definition block_count (len : nat) : nat := (len + 7) / 8.
Fixpoint split_blocks (n : nat) (l : list Z) : list (list bool) :=
  match n with O => [] | S n => block_bits (take 8 l) :: split_blocks n (drop 8 l) end.
Definition message_blocks (l : list Z) : list (list bool) :=
  split_blocks (block_count (length l)) (l ++ replicate (8 * block_count (length l) - length l) 0).
Definition blocks_bytes (xs : list (list bool)) : list Z := concat (bits_block 8 <$> xs).
