(* ===== verification/DesLinear.v ===== *)
(** The parts of [Des] that only move bits, as matrices: the permutations
    before and after the rounds, the selection of the key bits and the round
    keys.  Evaluation compares the matrices with the tables of the standard. *)
From S2P Require Import Prelude Radix Words Bits Des DesSpec.

(** ** Blocks as words: the words of a block [x] of 64 bits *)
Definition low_bits : list nat := (λ p, 8 * (p / 8) + 7 - p mod 8)%nat <$> seq 0 32.
Definition high_bits : list nat := Nat.add 32 <$> low_bits.
Definition lo (x : list bool) : Z := word_of (pick false low_bits x).
Definition hi (x : list bool) : Z := word_of (pick false high_bits x).

Lemma word_of_app a b : word_of (a ++ b) = word_of a + 2 ^ Z.of_nat (length a) * word_of b.
Proof.
  induction a as [|x a IH]; [change (word_of b = 0 + 1 * word_of b); lia|]. cbn [app word_of foldr length]. fold (word_of (a ++ b)) (word_of a).
  rewrite IH, Nat2Z.inj_succ, Z.pow_succ_r by lia. lia.
Qed.

Lemma le_num_bits l : bytes_ok l → le_num l = word_of (concat (bits_from 8 <$> l)).
Proof.
  induction 1 as [|b l Hb _ IH]; [done|]. rewrite le_num_cons, IH. cbn [fmap list_fmap concat].
  rewrite word_of_app, word_bits by (cbn; lia). done.
Qed.

Lemma num_to_le_bits n l : length l = (8 * n)%nat →
  num_to_le n (word_of l) = (λ i, word_of (take 8 (drop (8 * i) l))) <$> seq 0 n.
Proof.
  revert l. induction n as [|n IH]; intros l Hl; [done|].
  rewrite (num_to_le_app 1 n). rewrite <- (take_drop 8 l) at 1 2. rewrite word_of_app, length_take, Nat.min_l by lia.
  pose proof (word_of_range (take 8 l)) as Hr. rewrite length_take, Nat.min_l in Hr by lia.
  change (2 ^ Z.of_nat 8) with 256 in *. change (256 ^ Z.of_nat 1) with 256.
  rewrite (Z.mul_comm 256), Z.div_add, Z.div_small by lia. rewrite Z.add_0_l, IH by (rewrite length_drop; lia).
  cbn [seq fmap list_fmap]. rewrite Nat.mul_0_r, drop_0. cbn [app].
  rewrite <- fmap_S_seq, <- list_fmap_compose.
  assert (E : num_to_le 1 (word_of (take 8 l) + word_of (drop 8 l) * 256) = [word_of (take 8 l)]).
  { unfold num_to_le. cbn [digits_be rev app]. by rewrite Z.mod_add, Z.mod_small by lia. }
  rewrite E. cbn [app]. apply (f_equal (cons _)). apply list_fmap_ext. intros _ i _. cbn.
  rewrite drop_drop. do 3 f_equal. lia.
Qed.

Lemma length_block_bits l : length (block_bits l) = (8 * length l)%nat.
Proof. unfold block_bits. induction l as [|b l IH]; [done|]. cbn [fmap list_fmap concat length]. rewrite length_app, IH. cbn. lia. Qed.

Lemma load_block l : bytes_ok l → length l = 8%nat →
  CRYPTO_load_u32_le l = lo (block_bits l) ∧ CRYPTO_load_u32_le (drop 4 l) = hi (block_bits l).
Proof.
  intros Hb Hl. rewrite !load_u32_num by auto with words. rewrite !le_num_bits by auto with words.
  do 8 (destruct l as [|? l]; [done|]). destruct l; [|done]. split; reflexivity.
Qed.

Lemma store_block x : length x = 64%nat → CRYPTO_store_u32_le (lo x) ++ CRYPTO_store_u32_le (hi x) = bits_block 8 x.
Proof.
  intros Hx. rewrite !store_u32_num. unfold lo, hi. rewrite !num_to_le_bits by done.
  do 64 (destruct x as [|? x]; [done|]). destruct x; [|done]. reflexivity.
Qed.

Lemma c2l_load l : bytes_ok l → (4 ≤ length l)%nat → c2l l = Some (CRYPTO_load_u32_le l, drop 4 l).
Proof.
  intros Hb Hl. do 4 (destruct l as [|? l]; [cbn in Hl; lia|]). cbn [c2l drop]. do 2 f_equal.
  rewrite load_u32_num by done. cbn [take].
  unfold bytes_ok in Hb. repeat match goal with H : Forall _ (_ :: _) |- _ => apply Forall_cons in H as [? H] end.
  rewrite !le_num_cons. change (le_num (take 0 l)) with 0.
  rewrite (Z.lor_comm z), lor_shiftl_add by lia. rewrite (Z.lor_comm _ (z1 ≪ 16)), lor_shiftl_add by lia.
  rewrite (Z.lor_comm _ (z2 ≪ 24)), lor_shiftl_add by lia. lia.
Qed.

(** ** Matrices of the operations *)
Definition sperm (w : nat) (s t : list vec) (n : nat) (m : Z) : list vec * list vec :=
  let u := sand w m (sxor (sshr w n s) t) in (sxor s (sshl w n u), sxor t u).
Definition shperm (w k : nat) (m : Z) (s : list vec) : list vec :=
  let t := sand w m (sxor (sshl w k s) s) in sxor (sxor s t) (sshr w k t).
Definition srotr (w : nat) (s : list vec) (k : nat) : list vec := sxor (sshr w k s) (sshl w ((32 - k) mod 32) s).
Definition sIP (w : nat) (l r : list vec) : list vec * list vec :=
  let '(r, l) := sperm w r l 4 0x0f0f0f0f in
  let '(l, r) := sperm w l r 16 0x0000ffff in
  let '(r, l) := sperm w r l 2 0x33333333 in
  let '(l, r) := sperm w l r 8 0x00ff00ff in
  let '(r, l) := sperm w r l 1 0x55555555 in
  (l, r).
Definition sFP (w : nat) (l r : list vec) : list vec * list vec :=
  let '(l, r) := sperm w l r 1 0x55555555 in
  let '(r, l) := sperm w r l 8 0x00ff00ff in
  let '(l, r) := sperm w l r 2 0x33333333 in
  let '(r, l) := sperm w r l 16 0x0000ffff in
  let '(l, r) := sperm w l r 4 0x0f0f0f0f in
  (l, r).
Definition skey_words (w : nat) (c d : list vec) : list vec * list vec :=
  let '(d, c) := sperm w d c 4 0x0f0f0f0f in
  let c := shperm w 18 0xcccc0000 c in
  let d := shperm w 18 0xcccc0000 d in
  let '(d, c) := sperm w d c 1 0x55555555 in
  let '(c, d) := sperm w c d 8 0x00ff00ff in
  let '(d, c) := sperm w d c 1 0x55555555 in
  let d := sxor (sxor (sxor (sshl w 16 (sand w 0xff d)) (sand w 0xff00 d)) (sshr w 16 (sand w 0xff0000 d)))
             (sshr w 4 (sand w 0xf0000000 c)) in
  (sand w 0x0fffffff c, d).

Section linear.
Context (env : list bool).
Abbreviation n := (length env).

Lemma sym_PERM_OP s t a b k m : 0 <= k → Sym env s a → Sym env t b →
  Sym env (sperm n s t (Z.to_nat k) m).1 (PERM_OP a b k m).1 ∧ Sym env (sperm n s t (Z.to_nat k) m).2 (PERM_OP a b k m).2.
Proof.
  intros Hk Hs Ht. assert (E : k = Z.of_nat (Z.to_nat k)) by lia.
  remember (Z.to_nat k) as j. rewrite E. unfold PERM_OP, sperm. cbn [fst snd].
  split; eauto 6 using sym_xor, sym_and, sym_shr, sym_shl.
Qed.

Lemma sym_HPERM_OP s a k m : k <= 16 → Sym env s a → Sym env (shperm n (Z.to_nat (16 - k)) m s) (HPERM_OP a k m).
Proof.
  intros Hk Hs. assert (E : 16 - k = Z.of_nat (Z.to_nat (16 - k))) by lia.
  remember (Z.to_nat (16 - k)) as j. unfold HPERM_OP, shperm. rewrite E. cbv zeta.
  repeat first [apply sym_xor|apply sym_and|apply sym_shr|apply sym_shl|exact Hs].
Qed.
End linear.

(** One [PERM_OP] of a run and its matrices. *)
Ltac perm_step w :=
  match goal with
  | Hl : Sym ?e ?s ?a, Hr : Sym ?e ?t ?b |- context [PERM_OP ?a ?b ?k ?m] =>
      let H := fresh in
      pose proof (sym_PERM_OP e s t a b k m ltac:(lia) Hl Hr) as H;
      match goal with E : length e = w |- _ => rewrite !E in H end;
      let k' := eval vm_compute in (Z.to_nat k) in change (Z.to_nat k) with k' in H;
      destruct (PERM_OP a b k m), (sperm w s t k' m); cbn [fst snd] in H; destruct H
  end.

Lemma sym_IP w env s t a b : length env = w → Sym env s a → Sym env t b →
  Sym env (sIP w s t).1 (IP a b).1 ∧ Sym env (sIP w s t).2 (IP a b).2.
Proof. intros Hw Hs Ht. unfold IP, sIP. do 5 perm_step w. done. Qed.

Lemma sym_FP w env s t a b : length env = w → Sym env s a → Sym env t b →
  Sym env (sFP w s t).1 (FP a b).1 ∧ Sym env (sFP w s t).2 (FP a b).2.
Proof. intros Hw Hs Ht. unfold FP, sFP. do 5 perm_step w. done. Qed.

(** Bits of the input in a word; a position past the end is a zero bit. *)
Definition picks (n : nat) (ix : list nat) : list vec := pick (vzero n) ix (id_rows n).

Lemma length_basis n i : length (basis n i) = n.
Proof. unfold basis. by rewrite length_fmap, length_seq. Qed.

Lemma sym_pick n env ix : length env = n → length ix = 32%nat → Sym env (picks n ix) (word_of (pick false ix env)).
Proof.
  intros Hn Hix. split.
  - rewrite Hn. apply Forall_fmap, Forall_forall. intros i _. cbn. rewrite nth_lookup.
    destruct (id_rows n !! i) as [v|] eqn:E; [|apply length_replicate]. cbn.
    unfold id_rows in E. rewrite list_lookup_fmap in E. destruct (seq 0 n !! i); [|done].
    injection E as <-. apply length_basis.
  - unfold picks, pick. by rewrite length_fmap.
  - unfold picks. rewrite eval_pick, eval_id by done. done.
Qed.

Lemma sym_rotr env w s x k : length env = w → 0 < k < 32 → Sym env s x → disjoint_rows (sshr w (Z.to_nat k) s) (sshl w (32 - Z.to_nat k) s) = true →
  Sym env (srotr w s (Z.to_nat k)) (CRYPTO_rotr_u32 x k).
Proof.
  intros <- Hk Hs Hd. assert (E : k = Z.of_nat (Z.to_nat k)) by lia.
  remember (Z.to_nat k) as j. unfold CRYPTO_rotr_u32, srotr. rewrite Nat.mod_small by lia.
  replace (- k .& 31) with (Z.of_nat (32 - j)).
  - rewrite E. apply sym_or; [by apply sym_shr|by apply sym_shl|done].
  - change 31 with (Z.ones 5). rewrite Z.land_ones by done. apply (Z.mod_unique _ _ (-1)); lia.
Qed.

(** ** What the matrices are *)
Lemma sym_word env s t x : Sym env s x → s = t → x = word_of (eval env t).
Proof. intros [_ _ ->] ->. done. Qed.

Lemma sym_short env k s t x : Sym env s x → forallb is_zero (drop k s) = true → take k s = t → x = word_of (eval env t).
Proof. intros Hs Hz <-. by apply sym_index. Qed.

Lemma pick_seq n (l : list bool) : length l = n → pick false (seq 0 n) l = l.
Proof.
  intros <-. apply list_eq. intros i. unfold pick. rewrite list_lookup_fmap.
  destruct (decide (i < length l)%nat) as [Hi|Hi].
  - rewrite lookup_seq_lt by done. cbn. destruct (lookup_lt_is_Some_2 l i Hi) as [b Hb]. by rewrite Hb, nth_lookup, Hb.
  - by rewrite lookup_seq_ge, lookup_ge_None_2 by lia.
Qed.

Lemma word_pick k l : word_of (pick false (seq 0 (length l + k)) l) = word_of l.
Proof.
  apply word_of_ext. intros i. unfold pick. rewrite !nth_lookup, list_lookup_fmap.
  destruct (decide (i < length l + k)%nat).
  - rewrite lookup_seq_lt by done. cbn. by rewrite nth_lookup.
  - by rewrite lookup_seq_ge, lookup_ge_None_2 by lia.
Qed.

Lemma pick_app_l ix (a b : list bool) : Forall (λ i, (i < length a)%nat) ix → pick false ix (a ++ b) = pick false ix a.
Proof. intros H. unfold pick. apply list_fmap_ext. intros j i Hi. apply app_nth1. by eapply (Forall_lookup_1 _ _ _ _ H). Qed.

Lemma pick_app_r ix (a b : list bool) : pick false (Nat.add (length a) <$> ix) (a ++ b) = pick false ix b.
Proof.
  unfold pick. rewrite <- list_fmap_compose. apply list_fmap_ext. intros j i Hi. cbn.
  rewrite app_nth2 by lia. f_equal. lia.
Qed.

Lemma eval_permute env n t s : eval env (permute (vzero n) t s) = permute false t (eval env s).
Proof. apply eval_pick. Qed.
Lemma eval_take env k s : eval env (take k s) = take k (eval env s).
Proof. apply fmap_take. Qed.
Lemma eval_drop env k s : eval env (drop k s) = drop k (eval env s).
Proof. apply fmap_drop. Qed.
Lemma eval_rotate env k s : eval env (rotate_left k s) = rotate_left k (eval env s).
Proof. unfold rotate_left. by rewrite eval_app, eval_take, eval_drop. Qed.

(** The halves of an input of two lists, as words. *)
Lemma sym_first w a b k : length (a ++ b) = w → (length a + k = 32)%nat →
  Sym (a ++ b) (picks w (seq 0 (length a) ++ replicate k w)) (word_of a).
Proof.
  intros Hw Hk. replace (word_of a) with (word_of (pick false (seq 0 (length a) ++ replicate k w) (a ++ b))).
  - apply sym_pick; [done|]. rewrite length_app, length_seq, length_replicate. lia.
  - unfold pick at 1. rewrite fmap_app. fold (pick false (seq 0 (length a)) (a ++ b)). rewrite pick_app_l, pick_seq.
    + apply word_of_ext. intros i. rewrite fmap_replicate, (nth_overflow (a ++ b)) by lia.
      destruct (decide (i < length a)%nat); [by rewrite app_nth1|]. rewrite app_nth2, (nth_overflow a) by lia.
      rewrite nth_lookup. destruct (_ !! _) eqn:E; [|done]. by apply lookup_replicate_1 in E as [-> _].
    + done.
    + apply Forall_forall. intros i [_ Hi]%elem_of_seq. lia.
Qed.

Lemma sym_second w a b k : length (a ++ b) = w → (length b + k = 32)%nat →
  Sym (a ++ b) (picks w (seq (length a) (length b + k))) (word_of b).
Proof.
  intros Hw Hk. rewrite <- (word_pick k b). rewrite <- (pick_app_r _ a). rewrite fmap_add_seq, Nat.add_0_r.
  apply sym_pick; [done|]. by rewrite length_seq.
Qed.

(** ** The permutations *)
Lemma rotr_word x k : length x = 32%nat → k = 3 ∨ k = 29 → CRYPTO_rotr_u32 (word_of x) k = word_of (rotate_left (Z.to_nat k) x).
Proof.
  intros Hx Hk. pose proof (sym_pick 32 x (seq 0 32) Hx eq_refl) as Hs. rewrite pick_seq in Hs by done.
  apply (sym_rotr x 32 _ _ k) in Hs; [|done|lia|by destruct Hk as [-> | ->]; vm_compute].
  rewrite (sym_word _ _ (rotate_left (Z.to_nat k) (id_rows 32)) _ Hs).
  - by rewrite eval_rotate, eval_id.
  - by destruct Hk as [-> | ->]; vm_compute.
Qed.

Definition words (LR : list bool * list bool) : Z * Z := (word_of LR.1, word_of LR.2).

Lemma IP_words x : length x = 64%nat →
  IP (lo x) (hi x) = (let y := permute false IP_table x in words (drop 32 y, take 32 y)).
Proof.
  intros Hx. destruct (sym_IP 64 x _ _ _ _ Hx (sym_pick 64 x low_bits Hx eq_refl) (sym_pick 64 x high_bits Hx eq_refl)) as [H1 H2].
  fold (lo x) (hi x) in *. destruct (IP (lo x) (hi x)) as [r l]. unfold words. cbn [fst snd] in *. f_equal.
  - rewrite (sym_word _ _ (drop 32 (permute (vzero 64) IP_table (id_rows 64))) _ H1 ltac:(vm_compute; reflexivity)).
    by rewrite eval_drop, eval_permute, eval_id.
  - rewrite (sym_word _ _ (take 32 (permute (vzero 64) IP_table (id_rows 64))) _ H2 ltac:(vm_compute; reflexivity)).
    by rewrite eval_take, eval_permute, eval_id.
Qed.

Lemma FP_words R L : length R = 32%nat → length L = 32%nat →
  FP (word_of R) (word_of L) = (let y := permute false IP_inverse_table (R ++ L) in (hi y, lo y)).
Proof.
  intros HR HL. assert (Hx : length (R ++ L) = 64%nat) by (rewrite length_app; lia).
  pose proof (sym_first 64 R L 0 Hx ltac:(lia)) as HsR. pose proof (sym_second 64 R L 0 Hx ltac:(lia)) as HsL.
  rewrite HR in HsR, HsL. rewrite HL in HsL.
  destruct (sym_FP 64 (R ++ L) _ _ _ _ Hx HsR HsL) as [H1 H2].
  destruct (FP _ _) as [r l]. cbn [fst snd] in *. unfold lo, hi. cbv zeta. f_equal.
  - rewrite (sym_word _ _ (pick (vzero 64) high_bits (permute (vzero 64) IP_inverse_table (id_rows 64))) _ H1 ltac:(vm_compute; reflexivity)).
    by rewrite eval_pick, eval_permute, eval_id.
  - rewrite (sym_word _ _ (pick (vzero 64) low_bits (permute (vzero 64) IP_inverse_table (id_rows 64))) _ H2 ltac:(vm_compute; reflexivity)).
    by rewrite eval_pick, eval_permute, eval_id.
Qed.

(** ** The key schedule *)
Lemma sym_shl1 w env k s x : length env = w → 0 <= k → Sym env s x → Sym env (sshl w (Z.to_nat k) s) (x ≪[32] k).
Proof. intros <- Hk Hs. rewrite <- (Z2Nat.id k) at 2 by done. by apply sym_shl. Qed.
Lemma sym_shr1 w env k s x : length env = w → 0 <= k → Sym env s x → Sym env (sshr w (Z.to_nat k) s) (x ≫ k).
Proof. intros <- Hk Hs. rewrite <- (Z2Nat.id k) at 2 by done. by apply sym_shr. Qed.
Lemma sym_and1 w env m s x : length env = w → Sym env s x → Sym env (sand w m s) (x .& m).
Proof. intros <-. apply sym_and. Qed.

Lemma sym_or1 env s t x y : Sym env s x → Sym env t y → disjoint_rows s t = true → Sym env (sxor s t) (x .| y).
Proof. apply sym_or. Qed.
Lemma sym_hperm1 w env s a k m : length env = w → k <= 16 → Sym env s a →
  Sym env (shperm w (Z.to_nat (16 - k)) m s) (HPERM_OP a k m).
Proof. intros <-. apply sym_HPERM_OP. Qed.

(** The rows of [des_skb[j]], a table that is linear in its index. *)
Definition skb_matrix (j : nat) : list vec :=
  (λ i, (λ b, Z.testbit (des_table des_skb j (2 ^ Z.of_nat b)) (Z.of_nat i)) <$> seq 0 6) <$> seq 0 32.

Lemma sym_skb w env s j x : length env = w → Sym env s x → (j < 8)%nat → forallb is_zero (drop 6 s) = true →
  Sym env (lookup_rows w 6 (skb_matrix j) s) (des_table des_skb j x).
Proof.
  intros <- Hs Hj Hz. apply sym_lookup; [done|lia|done|].
  assert (H : forallb (λ j, table_linear 6 (skb_matrix j) (nth j des_skb [])) (seq 0 8) = true) by (vm_compute; reflexivity).
  eapply forallb_forall in H; [exact H|]. apply list_elem_of_In, elem_of_seq. lia.
Qed.

(** The matrix of an expression of the code; what is left are comparisons of
    matrices, for evaluation. *)
Ltac sym_expr Hw :=
  repeat lazymatch goal with
  | |- Sym _ _ (Z.lxor _ _) => eapply sym_xor
  | |- Sym _ _ (Z.lor _ _) => eapply sym_or1
  | |- Sym _ _ (Z.land _ _) => eapply (sym_and1 _ _ _ _ _ Hw)
  | |- Sym _ _ (Z.shiftr _ _) => eapply (sym_shr1 _ _ _ _ _ Hw); [lia|]
  | |- Sym _ _ (wrap 32 (Z.shiftl _ _)) => eapply (sym_shl1 _ _ _ _ _ Hw); [lia|]
  | |- Sym _ _ (CRYPTO_rotr_u32 _ _) => eapply (sym_rotr _ _ _ _ _ Hw); [lia| |]
  | |- Sym _ _ (des_table des_skb _ _) => eapply (sym_skb _ _ _ _ _ Hw); [|lia|]
  | H : Sym ?e _ ?x |- Sym ?e _ ?x => exact H
  end.

Ltac hperm_step Hw :=
  match goal with
  | H : Sym ?e ?s ?a |- context [HPERM_OP ?a ?k ?m] =>
      let H' := fresh in pose proof (sym_hperm1 _ _ _ _ k m Hw ltac:(lia) H) as H';
      let k' := eval vm_compute in (Z.to_nat (16 - k)) in change (Z.to_nat (16 - k)) with k' in H';
      generalize dependent (HPERM_OP a k m); intros
  end.

Ltac perm_step_of Hw :=
  match goal with
  | Hl : Sym ?e ?s ?a, Hr : Sym ?e ?t ?b |- context [PERM_OP ?a ?b ?k ?m] =>
      let H := fresh in
      pose proof (sym_PERM_OP e s t a b k m ltac:(lia) Hl Hr) as H; rewrite !Hw in H;
      destruct (PERM_OP a b k m); cbn [fst snd] in H; destruct H
  end.

Lemma key_words_bits x : length x = 64%nat →
  key_words (lo x) (hi x) = (let y := permute false PC1_table x in words (take 28 y, drop 28 y)).
Proof.
  intros Hx. pose proof (sym_pick 64 x low_bits Hx eq_refl) as H1. pose proof (sym_pick 64 x high_bits Hx eq_refl) as H2.
  fold (lo x) (hi x) in *. unfold key_words.
  perm_step_of Hx. cbv zeta. do 2 hperm_step Hx. do 3 perm_step_of Hx. cbv zeta. unfold words. cbn [fst snd]. f_equal.
  - rewrite <- (eval_id x 64) at 1 by done. rewrite <- (eval_permute x 64), <- eval_take.
    eapply (sym_short _ 28); [sym_expr Hx| |]; vm_compute; reflexivity.
  - rewrite <- (eval_id x 64) at 1 by done. rewrite <- (eval_permute x 64), <- eval_drop.
    eapply (sym_short _ 28); [sym_expr Hx| |]; vm_compute; reflexivity.
Qed.

Lemma rotate_28 x k : length x = 28%nat → k = 1 ∨ k = 2 →
  ((word_of x ≫ k) .| (word_of x ≪[32] (28 - k))) .& 0x0fffffff = word_of (rotate_left (Z.to_nat k) x).
Proof.
  intros Hx Hk. pose proof (sym_pick 28 x (seq 0 32) Hx eq_refl) as Hs.
  pose proof (word_pick 4 x) as E. rewrite Hx in E. change (28 + 4)%nat with 32%nat in E. rewrite E in Hs.
  rewrite <- (eval_id x 28) at 3 by done. rewrite <- eval_rotate.
  destruct Hk as [-> | ->]; (eapply (sym_short _ 28); [sym_expr Hx| |]; vm_compute; reflexivity).
Qed.

Lemma key_shift_words b C D : length C = 28%nat → length D = 28%nat →
  key_shift b (words (C, D)) = (let n := if b then 2%nat else 1%nat in words (rotate_left n C, rotate_left n D)).
Proof.
  intros HC HD. unfold key_shift, words. cbn [fst snd].
  destruct b; cbv zeta; f_equal; [apply (rotate_28 C 2)|apply (rotate_28 D 2)|apply (rotate_28 C 1)|apply (rotate_28 D 1)]; auto.
Qed.

(** Where the bits of a round key are in its two words; 48 stands for a zero. *)
Definition k0_bits : list nat :=
  [48; 48; 0; 1; 2; 3; 4; 5; 48; 48; 12; 13; 14; 15; 16; 17; 48; 48; 24; 25; 26; 27; 28; 29; 48; 48; 36; 37; 38; 39; 40; 41]%nat.
Definition k1_bits : list nat :=
  [44; 45; 46; 47; 48; 48; 6; 7; 8; 9; 10; 11; 48; 48; 18; 19; 20; 21; 22; 23; 48; 48; 30; 31; 32; 33; 34; 35; 48; 48; 42; 43]%nat.
Definition key_pair (K : list bool) : Z * Z := (word_of (pick false k0_bits K), word_of (pick false k1_bits K)).

Lemma subkey_bits C D : length C = 28%nat → length D = 28%nat →
  subkey (word_of C) (word_of D) = key_pair (permute false PC2_table (C ++ D)).
Proof.
  intros HC HD. assert (Hx : length (C ++ D) = 56%nat) by (rewrite length_app; lia).
  pose proof (sym_first 56 C D 4 Hx ltac:(lia)) as HsC. pose proof (sym_second 56 C D 4 Hx ltac:(lia)) as HsD.
  rewrite HC in HsC, HsD. rewrite HD in HsD.
  unfold subkey, key_pair. rewrite <- (eval_id (C ++ D) 56) at 1 2 by done. rewrite <- (eval_permute _ 56), <- !(eval_pick _ 56).
  cbv zeta. f_equal; (eapply sym_word; [sym_expr Hx|]; vm_compute; reflexivity).
Qed.
