(* ===== verification/DesProof.v ===== *)
(** The code of [Des] computes FIPS 46-3: a round with its combined tables of
    S-box and permutation, the 16 rounds, the key schedule, single and triple
    encryption of a block, and the CBC modes. *)
From S2P Require Import Prelude Radix Words Bits Des DesSpec DesLinear.

(** ** One round *)
Definition half (x : list bool) : Z := word_of (rotate_left 29 x).

Lemma length_rotate {A} k (l : list A) : length (rotate_left k l) = length l.
Proof. unfold rotate_left. rewrite length_app, length_take, length_drop. lia. Qed.

Lemma length_permute {A} (d : A) t l : length (permute d t l) = length t.
Proof. unfold permute, pick. by rewrite !length_fmap. Qed.

Lemma length_xor_bits a b : length a = length b → length (xor_bits a b) = length a.
Proof. intros H. unfold xor_bits. rewrite length_zip_with. lia. Qed.

Lemma rotate_xor k a b : length a = length b → rotate_left k (xor_bits a b) = xor_bits (rotate_left k a) (rotate_left k b).
Proof.
  intros H. unfold rotate_left, xor_bits. rewrite zip_with_app by (rewrite !length_drop; lia).
  by rewrite zip_with_take, zip_with_drop.
Qed.

Lemma half_xor a b : length a = length b → half (xor_bits a b) = half a .^ half b.
Proof. intros H. unfold half. rewrite rotate_xor by done. apply word_of_xor. by rewrite !length_rotate. Qed.

Definition half_bits : list nat := rotate_left 29 (seq 0 32).
Lemma half_pick x : length x = 32%nat → half x = word_of (pick false half_bits x).
Proof.
  intros Hx. unfold half, half_bits. rewrite <- (pick_seq 32 x) at 1 by done.
  unfold rotate_left, pick. by rewrite fmap_app, fmap_take, fmap_drop.
Qed.

(** The round key and the half as matrices over both. *)
Lemma sym_half R K : length R = 32%nat → length K = 48%nat → Sym (R ++ K) (picks 80 half_bits) (half R).
Proof.
  intros HR HK. rewrite half_pick by done. rewrite <- (pick_app_l _ R K).
  - apply sym_pick; [rewrite length_app; lia|done].
  - rewrite HR. apply (bool_decide_unpack _). by vm_compute.
Qed.

Lemma sym_key R K ix : length R = 32%nat → length K = 48%nat → length ix = 32%nat →
  Sym (R ++ K) (picks 80 (Nat.add 32 <$> ix)) (word_of (pick false ix K)).
Proof.
  intros HR HK Hix. rewrite <- (pick_app_r ix R K), HR. apply sym_pick; [rewrite length_app; lia|].
  by rewrite length_fmap.
Qed.

Definition box_input (R K : list bool) : list bool := xor_bits (permute false E_table R) K.

Lemma box_input_eval R K : length R = 32%nat → length K = 48%nat →
  box_input R K = eval (R ++ K) (zip_with vxor (permute (vzero 80) E_table (take 32 (id_rows 80))) (drop 32 (id_rows 80))).
Proof.
  intros HR HK. assert (Hx : length (R ++ K) = 80%nat) by (rewrite length_app; lia).
  rewrite eval_vxor.
  - rewrite eval_permute, eval_take, eval_drop, eval_id by done. rewrite <- HR, take_app_length, drop_app_length. done.
  - rewrite Hx. apply (bool_decide_unpack _). by vm_compute.
  - rewrite Hx. apply (bool_decide_unpack _). by vm_compute.
Qed.

(** The index of box [j] in the words of a round. *)
Lemma box_index_even R K j s : length R = 32%nat → length K = 48%nat → (j < 4)%nat → s = 2 + 8 * Z.of_nat j →
  (half R .^ word_of (pick false k0_bits K)) ≫ s .& 0x3f = word_of (chunk (2 * j) (box_input R K)).
Proof.
  intros HR HK Hj ->. assert (Hx : length (R ++ K) = 80%nat) by (rewrite length_app; lia).
  pose proof (sym_half R K HR HK). pose proof (sym_key R K k0_bits HR HK eq_refl).
  rewrite box_input_eval by done. unfold chunk. rewrite <- eval_drop, <- eval_take.
  do 4 (destruct j as [|j]; [eapply (sym_short _ 6); [sym_expr Hx| |]; vm_compute; reflexivity|]). lia.
Qed.

Lemma box_index_odd R K j s : length R = 32%nat → length K = 48%nat → (j < 4)%nat → s = 2 + 8 * Z.of_nat j →
  CRYPTO_rotr_u32 (half R .^ word_of (pick false k1_bits K)) 4 ≫ s .& 0x3f = word_of (chunk (2 * j + 1) (box_input R K)).
Proof.
  intros HR HK Hj ->. assert (Hx : length (R ++ K) = 80%nat) by (rewrite length_app; lia).
  pose proof (sym_half R K HR HK). pose proof (sym_key R K k1_bits HR HK eq_refl).
  rewrite box_input_eval by done. unfold chunk. rewrite <- eval_drop, <- eval_take.
  do 4 (destruct j as [|j]; [eapply (sym_short _ 6); [sym_expr Hx| |]; vm_compute; reflexivity|]). lia.
Qed.

(** The combined tables: the outputs of box [j] at their places after P. *)
Definition spread (j : nat) (y : list bool) : list bool :=
  (λ i, if (4 * j <=? i)%nat && (i <? 4 * j + 4)%nat then nth (i - 4 * j) y false else false) <$> rotate_left 29 (pred <$> P_table).

Lemma SPtrans_box j b : (j < 8)%nat → length b = 6%nat → des_table DES_SPtrans j (word_of b) = word_of (spread j (S_box j b)).
Proof.
  intros Hj Hb.
  assert (H : forallb (λ j, forallb (λ v, des_table DES_SPtrans j (Z.of_nat v) =? word_of (spread j (S_box j (bits_from 6 (Z.of_nat v)))))
                (seq 0 64)) (seq 0 8) = true) by (vm_compute; reflexivity).
  eapply forallb_forall in H; [|apply list_elem_of_In, elem_of_seq; split; [lia|exact Hj]].
  pose proof (word_of_range b) as Hr. rewrite Hb in Hr. change (2 ^ Z.of_nat 6) with 64 in Hr.
  eapply (proj1 (forallb_forall _ _)) with (x := Z.to_nat (word_of b)) in H; [|apply list_elem_of_In, elem_of_seq; lia].
  apply Z.eqb_eq in H. rewrite Z2Nat.id in H by lia. rewrite H. rewrite <- Hb at 1. by rewrite bits_word.
Qed.

Lemma length_S_box j b : length (S_box j b) = 4%nat.
Proof. unfold S_box, to_bits, bits_from. by rewrite length_rev, length_fmap, length_seq. Qed.

Ltac four y := do 4 (destruct y as [|? y]; [done|]); destruct y; [|done].

Lemma spread_all y0 y1 y2 y3 y4 y5 y6 y7 :
  Forall (λ y, length y = 4%nat) [y0; y1; y2; y3; y4; y5; y6; y7] →
  word_of (spread 0 y0) .^ word_of (spread 2 y2) .^ word_of (spread 4 y4) .^ word_of (spread 6 y6) .^
  word_of (spread 1 y1) .^ word_of (spread 3 y3) .^ word_of (spread 5 y5) .^ word_of (spread 7 y7) =
  half (permute false P_table (concat [y0; y1; y2; y3; y4; y5; y6; y7])).
Proof.
  intros H. rewrite <- !word_of_xor by (repeat rewrite length_zip_with; reflexivity). unfold half.
  repeat (apply Forall_cons in H as [? H]).
  four y0; four y1; four y2; four y3; four y4; four y5; four y6; four y7.
  apply (f_equal word_of). cbv -[xorb]. by rewrite ?xorb_false_r, ?xorb_false_l, ?xorb_false_r.
Qed.

Lemma D_ENCRYPT_round ks L R K i :
  length L = 32%nat → length R = 32%nat → length K = 48%nat → nth i ks (0, 0) = key_pair K →
  D_ENCRYPT ks (half L) (half R) i = half (xor_bits L (cipher_f R K)).
Proof.
  intros HL HR HK Hk. unfold D_ENCRYPT, LOAD_DATA. rewrite Hk. unfold key_pair. cbv zeta.
  rewrite half_xor by (unfold cipher_f; by rewrite length_permute). f_equal.
  rewrite (box_index_even R K 0 2), (box_index_even R K 1 10), (box_index_even R K 2 18), (box_index_even R K 3 26) by (done || lia).
  rewrite (box_index_odd R K 0 2), (box_index_odd R K 1 10), (box_index_odd R K 2 18), (box_index_odd R K 3 26) by (done || lia).
  assert (HB : length (box_input R K) = 48%nat).
  { unfold box_input. rewrite length_xor_bits by (by rewrite length_permute). apply length_permute. }
  rewrite !SPtrans_box by (lia || (unfold chunk; rewrite length_take, length_drop; lia)).
  rewrite spread_all by (repeat constructor; apply length_S_box). done.
Qed.

(** ** Sixteen rounds *)
Definition halves (LR : list bool * list bool) : Z * Z := (half LR.1, half LR.2).
Definition sized (LR : list bool * list bool) : Prop := length LR.1 = 32%nat ∧ length LR.2 = 32%nat.

Lemma sized_round LR K : sized LR → sized (round LR K).
Proof.
  intros [H1 H2]. split; [done|]. unfold round. cbn [snd]. rewrite length_xor_bits; [done|].
  unfold cipher_f. by rewrite length_permute.
Qed.

Lemma sized_rounds Ks LR : sized LR → sized (foldl round LR Ks).
Proof. revert LR. induction Ks as [|K Ks IH]; [done|]. intros LR H. apply IH, sized_round, H. Qed.

Lemma two_rounds_spec ks LR i j K K' :
  sized LR → length K = 48%nat → length K' = 48%nat → nth i ks (0, 0) = key_pair K → nth j ks (0, 0) = key_pair K' →
  two_rounds ks (halves LR) (i, j) = halves (round (round LR K) K').
Proof.
  intros HLR HK HK' Hi Hj. destruct LR as [L R]. destruct HLR as [HL HR]. cbn [fst snd] in *. unfold two_rounds, halves. cbn [fst snd].
  pose proof (sized_round (L, R) K (conj HL HR)) as [_ HX]. cbn [round fst snd] in *.
  rewrite (D_ENCRYPT_round ks L R K i) by done. by rewrite (D_ENCRYPT_round ks R _ K' j).
Qed.

(** The round keys taken two by two. *)
Fixpoint run_pairs (order : list (nat * nat)) (Ks : list (list bool)) (LR : list bool * list bool) : list bool * list bool :=
  match order with
  | [] => LR
  | ij :: order => run_pairs order Ks (round (round LR (nth ij.1 Ks [])) (nth ij.2 Ks []))
  end.

Definition keys_ok (Ks : list (list bool)) : Prop := length Ks = 16%nat ∧ Forall (λ K, length K = 48%nat) Ks.

Lemma nth_key Ks i : keys_ok Ks → (i < 16)%nat → length (nth i Ks []) = 48%nat ∧ nth i (key_pair <$> Ks) (0, 0) = key_pair (nth i Ks []).
Proof.
  intros [Hl Hf] Hi. destruct (lookup_lt_is_Some_2 Ks i) as [K HK]; [lia|].
  rewrite !nth_lookup, list_lookup_fmap, HK. cbn. split; [|done]. by eapply (Forall_lookup_1 _ _ _ _ Hf).
Qed.

Lemma two_rounds_pairs Ks order LR :
  keys_ok Ks → sized LR → Forall (λ ij, (ij.1 < 16 ∧ ij.2 < 16)%nat) order →
  foldl (two_rounds (key_pair <$> Ks)) (halves LR) order = halves (run_pairs order Ks LR).
Proof.
  intros HK. revert LR. induction order as [|[i j] order IH]; intros LR HLR Ho; [done|].
  apply Forall_cons in Ho as [[Hi Hj] Ho]. cbn [fst snd] in Hi, Hj. cbn [foldl run_pairs fst snd].
  destruct (nth_key Ks i HK Hi), (nth_key Ks j HK Hj).
  rewrite (two_rounds_spec _ LR i j (nth i Ks []) (nth j Ks [])) by done. apply IH; [|done]. by do 2 apply sized_round.
Qed.

Definition order_of (enc : bool) : list (nat * nat) := if enc then enc_order else dec_order.
Definition keys_of (enc : bool) (Ks : list (list bool)) : list (list bool) := if enc then Ks else rev Ks.

Lemma run_pairs_rounds enc Ks LR : keys_ok Ks → run_pairs (order_of enc) Ks LR = foldl round LR (keys_of enc Ks).
Proof.
  intros [Hl _]. do 16 (destruct Ks as [|? Ks]; [done|]). destruct Ks; [|done]. by destruct enc.
Qed.

Lemma rounds_spec enc Ks LR : keys_ok Ks → sized LR →
  foldl (two_rounds (key_pair <$> Ks)) (halves LR) (order_of enc) = halves (foldl round LR (keys_of enc Ks)).
Proof.
  intros HK HLR. rewrite two_rounds_pairs; [by rewrite run_pairs_rounds|done|done|].
  destruct enc; apply (bool_decide_unpack _); by vm_compute.
Qed.

(** ** The key schedule *)
Lemma key_loop_rounds bs C D : length C = 28%nat → length D = 28%nat →
  key_loop bs (words (C, D)) = key_pair <$> key_rounds false ((λ b : bool, if b then 2%nat else 1%nat) <$> bs) C D.
Proof.
  revert C D. induction bs as [|b bs IH]; intros C D HC HD; [done|]. cbn [key_loop]. cbv zeta.
  rewrite key_shift_words by done. cbv zeta. cbn [key_rounds fmap list_fmap].
  rewrite IH by (by rewrite length_rotate). apply (f_equal (λ p, p :: _)). unfold words. cbn [fst snd].
  apply subkey_bits; by rewrite length_rotate.
Qed.

Lemma key_rounds_ok shifts C D :
  length (key_rounds false shifts C D) = length shifts ∧ Forall (λ K, length K = 48%nat) (key_rounds false shifts C D).
Proof.
  revert C D. induction shifts as [|n shifts IH]; intros C D; [done|]. cbn [key_rounds length].
  destruct (IH (rotate_left n C) (rotate_left n D)) as [-> ?]. split; [done|]. constructor; [apply length_permute|done].
Qed.

Lemma KS_ok key : keys_ok (KS key).
Proof. apply key_rounds_ok. Qed.

Lemma DES_set_key_KS key : bytes_ok key → length key = 8%nat → DES_set_key key = Some (key_pair <$> KS (block_bits key)).
Proof.
  intros Hb Hl. unfold DES_set_key, DES_set_key_ex. rewrite c2l_load by (done || lia). cbn [mbind option_bind].
  rewrite c2l_load by (auto with words || (rewrite length_drop; lia)). cbn [mbind option_bind].
  destruct (load_block key Hb Hl) as [-> ->]. rewrite key_words_bits by (rewrite length_block_bits; lia). cbv zeta.
  rewrite key_loop_rounds; [done| |]; rewrite ?length_take, ?length_drop, length_permute; done.
Qed.

(** ** A block *)
Definition block_words (x : list bool) : Z * Z := (lo x, hi x).

Lemma sized_split y : length y = 64%nat → sized (take 32 y, drop 32 y).
Proof. intros H. split; cbn [fst snd]; rewrite ?length_take, ?length_drop; lia. Qed.

Lemma rotr_29 x : length x = 32%nat → CRYPTO_rotr_u32 (word_of x) 29 = half x.
Proof. intros H. by rewrite (rotr_word x 29) by auto. Qed.

Lemma rotr_3 x : length x = 32%nat → CRYPTO_rotr_u32 (half x) 3 = word_of x.
Proof.
  intros H. unfold half. rewrite (rotr_word _ 3) by (auto || by rewrite length_rotate).
  do 32 (destruct x as [|? x]; [done|]). by destruct x.
Qed.

Lemma length_DES_rounds Ks x : length (DES_rounds Ks x) = 64%nat.
Proof. apply length_permute. Qed.

Lemma DES_encrypt1_spec enc Ks x : keys_ok Ks → length x = 64%nat →
  DES_encrypt1 (block_words x) (key_pair <$> Ks) enc = block_words (DES_rounds (keys_of enc Ks) x).
Proof.
  intros HK Hx. unfold DES_encrypt1, block_words. cbn [fst snd]. rewrite IP_words by done. cbv zeta. unfold words. cbn [fst snd].
  set (y := permute false IP_table x). assert (Hy : sized (take 32 y, drop 32 y)) by (apply sized_split, length_permute).
  pose proof Hy as [HL HR]. cbn [fst snd] in HL, HR. rewrite !rotr_29 by done.
  pose proof (rounds_spec enc Ks _ HK Hy) as E. unfold halves at 1, order_of in E. cbn [fst snd] in E. rewrite E.
  pose proof (sized_rounds (keys_of enc Ks) _ Hy) as [H1 H2]. unfold halves. rewrite !rotr_3 by done.
  rewrite FP_words by done. done.
Qed.

(** The rounds of a stage on the halves in the order right, left. *)
Definition stage (Ks : list (list bool)) (RL : list bool * list bool) : list bool * list bool :=
  foldl round (RL.2, RL.1) Ks.

Lemma sized_stage Ks RL : sized RL → sized (stage Ks RL).
Proof. intros [H1 H2]. by apply sized_rounds. Qed.

Lemma DES_encrypt2_spec enc Ks RL : keys_ok Ks → sized RL →
  DES_encrypt2 (words RL) (key_pair <$> Ks) enc = words (stage (keys_of enc Ks) RL).
Proof.
  intros HK [HR HL]. unfold DES_encrypt2, words. cbn [fst snd]. rewrite !rotr_29 by done.
  pose proof (rounds_spec enc Ks (RL.2, RL.1) HK (conj HL HR)) as E. unfold halves at 1, order_of in E. cbn [fst snd] in E. rewrite E.
  pose proof (sized_rounds (keys_of enc Ks) (RL.2, RL.1) (conj HL HR)) as [H1 H2]. unfold halves.
  by rewrite !rotr_3.
Qed.

Lemma permute_inverse t t' n x :
  length x = n → permute (vzero n) t (permute (vzero n) t' (id_rows n)) = id_rows n → permute false t (permute false t' x) = x.
Proof. intros Hx H. rewrite <- (eval_id x n) at 1 by done. by rewrite <- !(eval_permute x n), H, eval_id. Qed.

Lemma IP_IP_inverse x : length x = 64%nat → permute false IP_table (permute false IP_inverse_table x) = x.
Proof. intros H. apply (permute_inverse _ _ 64); [done|]. by vm_compute. Qed.
Lemma IP_inverse_IP x : length x = 64%nat → permute false IP_inverse_table (permute false IP_table x) = x.
Proof. intros H. apply (permute_inverse _ _ 64); [done|]. by vm_compute. Qed.

(** What the initial permutation makes of a block, and the way back. *)
Definition start (x : list bool) : list bool * list bool := let y := permute false IP_table x in (drop 32 y, take 32 y).
Definition finish (RL : list bool * list bool) : list bool := permute false IP_inverse_table (RL.2 ++ RL.1).

Lemma sized_start x : sized (start x).
Proof. split; cbn [fst snd start]; rewrite ?length_take, ?length_drop, length_permute; done. Qed.

Lemma start_finish RL : sized RL → start (finish RL) = RL.
Proof.
  intros [H1 H2]. unfold start, finish. rewrite IP_IP_inverse by (rewrite length_app; lia).
  rewrite <- H2, take_app_length, drop_app_length. by destruct RL.
Qed.

Lemma finish_start x : length x = 64%nat → finish (start x) = x.
Proof. intros Hx. unfold start, finish. cbn [fst snd]. rewrite take_drop. by apply IP_inverse_IP. Qed.

Lemma DES_rounds_stage Ks x : DES_rounds Ks x = finish (stage Ks (start x)).
Proof. done. Qed.

Lemma IP_start x : length x = 64%nat → IP (lo x) (hi x) = words (start x).
Proof. apply IP_words. Qed.

Lemma FP_finish RL : sized RL → FP (word_of RL.2) (word_of RL.1) = (hi (finish RL), lo (finish RL)).
Proof. intros [H1 H2]. by apply FP_words. Qed.

Lemma DES_encrypt3_spec Ks1 Ks2 Ks3 x : keys_ok Ks1 → keys_ok Ks2 → keys_ok Ks3 → length x = 64%nat →
  DES_encrypt3 (block_words x) (key_pair <$> Ks1) (key_pair <$> Ks2) (key_pair <$> Ks3) =
  block_words (DES_rounds Ks3 (DES_rounds (rev Ks2) (DES_rounds Ks1 x))).
Proof.
  intros H1 H2 H3 Hx. unfold DES_encrypt3, block_words. cbn [fst snd]. rewrite IP_start by done. cbn [words].
  change (word_of (start x).1, word_of (start x).2) with (words (start x)).
  pose proof (sized_start x). rewrite !DES_encrypt2_spec by eauto using sized_stage. cbn [keys_of words fst snd].
  rewrite FP_finish by eauto using sized_stage.
  rewrite !DES_rounds_stage, !start_finish by eauto using sized_stage. done.
Qed.

Lemma DES_decrypt3_spec Ks1 Ks2 Ks3 x : keys_ok Ks1 → keys_ok Ks2 → keys_ok Ks3 → length x = 64%nat →
  DES_decrypt3 (block_words x) (key_pair <$> Ks1) (key_pair <$> Ks2) (key_pair <$> Ks3) =
  block_words (DES_rounds (rev Ks1) (DES_rounds Ks2 (DES_rounds (rev Ks3) x))).
Proof.
  intros H1 H2 H3 Hx. unfold DES_decrypt3, block_words. cbn [fst snd]. rewrite IP_start by done. cbn [words].
  change (word_of (start x).1, word_of (start x).2) with (words (start x)).
  pose proof (sized_start x). rewrite !DES_encrypt2_spec by eauto using sized_stage. cbn [keys_of words fst snd].
  rewrite FP_finish by eauto using sized_stage.
  rewrite !DES_rounds_stage, !start_finish by eauto using sized_stage. done.
Qed.

(** ** Decryption undoes encryption *)
Definition swap {A} (p : A * A) : A * A := (p.2, p.1).

Lemma xor_bits_twice a b : length a = length b → xor_bits (xor_bits a b) b = a.
Proof.
  revert b. induction a as [|x a IH]; intros [|y b] [=]; [done|]. cbn. rewrite xorb_assoc, xorb_nilpotent, xorb_false_r.
  f_equal. by apply IH.
Qed.

Lemma round_undo K LR : sized LR → round (swap (round LR K)) K = swap LR.
Proof.
  intros [H1 H2]. unfold round, swap. cbn [fst snd]. f_equal. apply xor_bits_twice.
  unfold cipher_f. by rewrite length_permute.
Qed.

Lemma rounds_undo Ks LR : sized LR → foldl round (swap (foldl round LR Ks)) (rev Ks) = swap LR.
Proof.
  revert LR. induction Ks as [|K Ks IH]; intros LR H; [done|]. cbn [foldl rev]. rewrite foldl_app, IH by (by apply sized_round).
  by apply round_undo.
Qed.

Lemma stage_undo Ks RL : sized RL → stage (rev Ks) (stage Ks RL) = RL.
Proof.
  intros [H1 H2]. unfold stage. change (foldl round (RL.2, RL.1) Ks) with (foldl round (swap RL) Ks).
  change ((foldl round (swap RL) Ks).2, (foldl round (swap RL) Ks).1) with (swap (foldl round (swap RL) Ks)).
  rewrite rounds_undo by done. by destruct RL.
Qed.

Lemma DES_rounds_undo Ks x : length x = 64%nat → DES_rounds (rev Ks) (DES_rounds Ks x) = x.
Proof.
  intros Hx. pose proof (sized_start x). rewrite !DES_rounds_stage, start_finish by (by apply sized_stage).
  rewrite stage_undo by done. by apply finish_start.
Qed.

Lemma DES_dec_enc key x : length x = 64%nat → DES_dec key (DES_enc key x) = x.
Proof. apply DES_rounds_undo. Qed.
Lemma DES_enc_dec key x : length x = 64%nat → DES_enc key (DES_dec key x) = x.
Proof. intros H. unfold DES_enc, DES_dec. rewrite <- (rev_involutive (KS key)) at 1. by apply DES_rounds_undo. Qed.
Lemma TDEA_dec_enc k1 k2 k3 x : length x = 64%nat → TDEA_dec k1 k2 k3 (TDEA_enc k1 k2 k3 x) = x.
Proof.
  intros H. unfold TDEA_dec, TDEA_enc.
  rewrite DES_dec_enc, DES_enc_dec, DES_dec_enc by (done || apply length_DES_rounds). done.
Qed.
