(* ===== verification/DesModes.v ===== *)
(** Blocks and messages of bytes: single and triple DES of the code are those
    of FIPS 46-3, and the CBC functions are FIPS 81 with zero padding, inverse
    to each other for messages of any length. *)
From S2P Require Import Prelude Radix Words Bits Des DesSpec DesLinear DesProof.

Lemma ecb_bytes x : length x = 64%nat → CRYPTO_store_u32_le (block_words x).1 ++ CRYPTO_store_u32_le (block_words x).2 = bits_block 8 x.
Proof. apply store_block. Qed.

Lemma block_words_load l : bytes_ok l → length l = 8%nat →
  (CRYPTO_load_u32_le l, CRYPTO_load_u32_le (drop 4 l)) = block_words (block_bits l).
Proof. intros Hb Hl. by destruct (load_block l Hb Hl) as [-> ->]. Qed.

(** ** Words and bytes of blocks *)
Lemma block_words_xor x y : length x = 64%nat → length y = 64%nat →
  block_words (xor_bits x y) = (lo x .^ lo y, hi x .^ hi y).
Proof.
  intros Hx Hy. unfold block_words, lo, hi. rewrite <- !word_of_xor by (unfold pick; rewrite !length_fmap; done).
  f_equal; f_equal; unfold pick, xor_bits; apply list_eq; intros i; rewrite lookup_zip_with, !list_lookup_fmap;
    destruct (_ !! i); cbn; [by rewrite nth_zip_with by (done || congruence)|done|by rewrite nth_zip_with by (done || congruence)|done].
Qed.

Lemma load_u32_take l : CRYPTO_load_u32_le (take 8 l) = CRYPTO_load_u32_le l.
Proof. unfold CRYPTO_load_u32_le. by rewrite take_take. Qed.

Lemma c2l_block {B} l (k : Z → Z → list Z → option B) : bytes_ok l → (8 ≤ length l)%nat →
  ('(a, r) ← c2l l; '(b, r) ← c2l r; k a b r) = k (lo (block_bits (take 8 l))) (hi (block_bits (take 8 l))) (drop 8 l).
Proof.
  intros Hb Hl. rewrite c2l_load by (done || lia). cbn [mbind option_bind].
  rewrite c2l_load by (auto with words || (rewrite length_drop; lia)). cbn [mbind option_bind].
  destruct (load_block (take 8 l)) as [<- <-]; [auto with words|rewrite length_take; lia|].
  rewrite load_u32_take, drop_drop. f_equal. unfold CRYPTO_load_u32_le. by rewrite !take_drop_commute, take_take.
Qed.

Lemma lor_rev a b c d : (d ≪ 24) .| (c ≪ 16) .| (b ≪ 8) .| a = a .| (b ≪ 8) .| (c ≪ 16) .| (d ≪ 24).
Proof. apply Z.bits_inj'. intros i Hi. rewrite !Z.lor_spec. btauto. Qed.

Lemma c2ln_block l n : bytes_ok l → length l = n → (n < 8)%nat →
  c2ln l n = Some (block_words (block_bits (l ++ replicate (8 - n) 0))).
Proof.
  intros Hb <- Hl. set (p := l ++ replicate (8 - length l) 0).
  assert (Hp : bytes_ok p) by (apply bytes_ok_cat; [done|by apply Forall_replicate; lia]).
  assert (Hlp : length p = 8%nat) by (unfold p; rewrite length_app, length_replicate; lia).
  rewrite <- block_words_load by done. unfold c2ln. rewrite Nat.ltb_irrefl. cbv zeta. rewrite !lor_rev.
  pose proof (c2l_load p Hp ltac:(lia)) as E1. pose proof (c2l_load (drop 4 p) ltac:(auto with words) ltac:(rewrite length_drop; lia)) as E2.
  subst p. do 8 (destruct l as [|? l]; [cbn -[Z.lor Z.shiftl CRYPTO_load_u32_le] in E1, E2 |- *; congruence|]). cbn [length] in Hl. lia.
Qed.

(** ** The blocks of a message *)
Lemma block_count_ge len : (8 ≤ len)%nat → block_count len = S (block_count (len - 8)).
Proof.
  intros Hl. unfold block_count. replace (len + 7)%nat with (len - 8 + 7 + 1 * 8)%nat by lia.
  rewrite Nat.div_add by lia. apply Nat.add_1_r.
Qed.

Lemma block_count_small len : (0 < len < 8)%nat → block_count len = 1%nat.
Proof.
  intros Hl. unfold block_count. replace (len + 7)%nat with (len - 1 + 1 * 8)%nat by lia.
  by rewrite Nat.div_add, Nat.div_small by lia.
Qed.

Lemma message_blocks_cons l : (8 ≤ length l)%nat → message_blocks l = block_bits (take 8 l) :: message_blocks (drop 8 l).
Proof.
  intros Hl. unfold message_blocks. rewrite length_drop.
  rewrite block_count_ge by done. cbn [split_blocks]. rewrite take_app_le, drop_app_le by done. do 4 f_equal. lia.
Qed.

Lemma message_blocks_short l : (0 < length l < 8)%nat → message_blocks l = [block_bits (l ++ replicate (8 - length l) 0)].
Proof.
  intros Hl. unfold message_blocks.
  rewrite block_count_small by done. cbn [split_blocks]. by rewrite take_ge by (rewrite length_app, length_replicate; lia).
Qed.

Lemma message_blocks_sized l : Forall (λ x, length x = 64%nat) (message_blocks l).
Proof.
  unfold message_blocks. generalize (Nat.le_refl (8 * block_count (length l)))%nat.
  set (p := l ++ _). assert (Hp : (8 * block_count (length l) ≤ length p)%nat).
  { unfold p. rewrite length_app, length_replicate. lia. }
  clearbody p. revert p Hp. induction (block_count (length l)) as [|n IH]; intros p Hp _; [constructor|].
  cbn [split_blocks]. constructor; [rewrite length_block_bits, length_take; lia|]. apply IH; [rewrite length_drop; lia|done].
Qed.

Lemma pair_eq {A B} (a : A) (b : B) c d : (a, b) = (c, d) → a = c ∧ b = d.
Proof. by intros [= -> ->]. Qed.

(** ** The loops *)
Definition last_block (iv : list bool) (cs : list (list bool)) : list bool := default iv (last cs).

Lemma last_block_cons iv c cs : last_block iv (c :: cs) = last_block c cs.
Proof. unfold last_block. rewrite last_cons. by destruct (last cs). Qed.

Lemma blocks_bytes_cons x xs : blocks_bytes (x :: xs) = bits_block 8 x ++ blocks_bytes xs.
Proof. done. Qed.

Lemma length_xor_64 a b : length a = 64%nat → length b = 64%nat → length (xor_bits a b) = 64%nat.
Proof. intros. rewrite length_xor_bits; congruence. Qed.

Lemma length_bits_block n x : length (bits_block n x) = n.
Proof. revert x. induction n as [|n IH]; intros x; cbn; auto. Qed.

Lemma l2cn_block x n : length x = 64%nat → l2cn (lo x) (hi x) n = take n (bits_block 8 x).
Proof. intros Hx. unfold l2cn. by rewrite <- store_block by done. Qed.

Section loops.
Context (E D : Z * Z → Z * Z) (e d : list bool → list bool).
Context (HE : ∀ x, length x = 64%nat → E (block_words x) = block_words (e x)).
Context (HD : ∀ x, length x = 64%nat → D (block_words x) = block_words (d x)).
Context (He : ∀ x, length (e x) = 64%nat) (Hd : ∀ x, length (d x) = 64%nat).

Lemma cbc_enc_loop_spec fuel inp iv :
  bytes_ok inp → length iv = 64%nat → (length inp < 8 * (fuel + 1))%nat →
  cbc_enc_loop E fuel inp (Z.of_nat (length inp)) (lo iv) (hi iv) =
  (let cs := cbc_enc e iv (message_blocks inp) in Some (blocks_bytes cs, block_words (last_block iv cs))).
Proof.
  revert inp iv. induction fuel as [|fuel IH]; intros inp iv Hb Hiv Hl; cbn [cbc_enc_loop];
    (destruct (Z.geb_spec (Z.of_nat (length inp)) 8) as [Hge|Hlt]; [try lia|]).
  2:{ rewrite c2l_block by (done || lia). rewrite (message_blocks_cons inp) by lia. cbn [cbc_enc].
      set (x := block_bits (take 8 inp)). assert (Hx : length x = 64%nat) by (unfold x; rewrite length_block_bits, length_take; lia).
      rewrite <- block_words_xor, HE by (done || by apply length_xor_64). cbn [block_words].
      replace (Z.of_nat (length inp) - 8) with (Z.of_nat (length (drop 8 inp))) by (rewrite length_drop; lia).
      rewrite IH by (auto with words || (rewrite length_drop; lia)). cbn [mbind option_bind]. cbv zeta.
      rewrite blocks_bytes_cons, last_block_cons, <- store_block by done. by rewrite <- app_assoc. }
  all: destruct (Z.eqb_spec (Z.of_nat (length inp)) 0) as [E0|Hn]; cbn [negb];
    [by destruct inp|].
  all: rewrite Nat2Z.id, (c2ln_block inp) by (done || lia); unfold block_words at 1; cbn [mbind option_bind]; rewrite message_blocks_short by lia; cbn [cbc_enc];
    set (x := block_bits (inp ++ _)); assert (Hx : length x = 64%nat) by (unfold x; rewrite length_block_bits, length_app, length_replicate; lia);
    rewrite <- (block_words_xor x iv), HE by (done || by apply length_xor_64); cbn [block_words];
    by rewrite blocks_bytes_cons, last_block_cons, <- store_block, app_nil_r by done.
Qed.

Lemma cbc_dec_loop_spec fuel inp len iv :
  bytes_ok inp → length iv = 64%nat → (len < 8 * (fuel + 1))%nat → (8 * block_count len ≤ length inp)%nat →
  cbc_dec_loop D fuel inp (Z.of_nat len) (lo iv) (hi iv) =
  (let cs := split_blocks (block_count len) inp in
   Some (take len (blocks_bytes (cbc_dec d iv cs)), block_words (last_block iv cs))).
Proof.
  revert inp len iv. induction fuel as [|fuel IH]; intros inp len iv Hb Hiv Hl Hi; cbn [cbc_dec_loop];
    (destruct (Z.geb_spec (Z.of_nat len) 8) as [Hge|Hlt]; [try lia|]).
  2:{ rewrite block_count_ge in * by lia. rewrite c2l_block by (done || lia). cbn [split_blocks cbc_dec].
      set (x := block_bits (take 8 inp)). assert (Hx : length x = 64%nat) by (unfold x; rewrite length_block_bits, length_take; lia).
      change (lo x, hi x) with (block_words x). rewrite HD by done. cbn [block_words fst snd]. cbv zeta.
      replace (Z.of_nat len - 8) with (Z.of_nat (len - 8)) by lia.
      rewrite IH by (auto with words || (rewrite ?length_drop; lia)). cbn [mbind option_bind]. cbv zeta.
      destruct (pair_eq _ _ _ _ (block_words_xor (d x) iv (Hd x) Hiv)) as [<- <-].
      rewrite blocks_bytes_cons, last_block_cons, app_assoc. change (l2c ?a ++ l2c ?b) with (CRYPTO_store_u32_le a ++ CRYPTO_store_u32_le b).
      rewrite store_block by (by apply length_xor_64). do 2 f_equal.
      by rewrite take_app_ge, length_bits_block by (rewrite length_bits_block; lia). }
  all: destruct (Z.eqb_spec (Z.of_nat len) 0) as [E0|Hn]; cbn [negb];
    [by replace len with 0%nat by lia|].
  all: rewrite block_count_small in * by lia; rewrite c2l_block by (done || lia); cbn [split_blocks cbc_dec];
    set (x := block_bits (take 8 inp)); assert (Hx : length x = 64%nat) by (unfold x; rewrite length_block_bits, length_take; lia);
    change (lo x, hi x) with (block_words x); rewrite HD by done; cbn [block_words fst snd]; cbv zeta;
    destruct (pair_eq _ _ _ _ (block_words_xor (d x) iv (Hd x) Hiv)) as [<- <-];
    by rewrite l2cn_block, blocks_bytes_cons, last_block_cons, app_nil_r, Nat2Z.id by (by apply length_xor_64).
Qed.
End loops.

(** ** Bytes and bits *)
Lemma bits_block_bits l : bytes_ok l → bits_block (length l) (block_bits l) = l.
Proof.
  induction 1 as [|b l Hb _ IH]; [done|]. unfold block_bits in *. cbn [length fmap list_fmap concat bits_block].
  rewrite take_app_le, take_ge, drop_app_ge, drop_0 by (unfold to_bits, bits_from; rewrite length_rev, length_fmap, length_seq; lia).
  rewrite IH. f_equal. unfold number, to_bits. rewrite rev_involutive. apply word_bits. cbn. lia.
Qed.

Lemma block_bits_block n x : length x = (8 * n)%nat → block_bits (bits_block n x) = x.
Proof.
  revert x. induction n as [|n IH]; intros x Hx; [by destruct x|]. cbn [bits_block]. unfold block_bits in *.
  cbn [fmap list_fmap concat]. rewrite IH by (rewrite length_drop; lia).
  unfold to_bits, number. rewrite <- (take_drop 8 x) at 3. f_equal.
  replace 8%nat with (length (rev (take 8 x))) at 1 by (rewrite length_rev, length_take; lia).
  by rewrite bits_word, rev_involutive.
Qed.

Lemma bits_block_ok n x : (8 * n ≤ length x)%nat → bytes_ok (bits_block n x).
Proof.
  revert x. induction n as [|n IH]; intros x Hx; [constructor|]. cbn [bits_block]. constructor.
  - unfold number. pose proof (word_of_range (rev (take 8 x))) as Hr. rewrite length_rev, length_take, Nat.min_l in Hr by lia.
    change (2 ^ Z.of_nat 8) with 256 in Hr. done.
  - apply IH. rewrite length_drop. lia.
Qed.

Definition sized_blocks (xs : list (list bool)) : Prop := Forall (λ x, length x = 64%nat) xs.

Lemma length_blocks_bytes xs : length (blocks_bytes xs) = (8 * length xs)%nat.
Proof. induction xs as [|x xs IH]; [done|]. rewrite blocks_bytes_cons, length_app, length_bits_block, IH. cbn. lia. Qed.

Lemma blocks_bytes_ok xs : sized_blocks xs → bytes_ok (blocks_bytes xs).
Proof. induction 1 as [|x xs Hx _ IH]; [constructor|]. rewrite blocks_bytes_cons. apply bytes_ok_cat; [apply bits_block_ok; lia|done]. Qed.

Lemma split_blocks_bytes xs : sized_blocks xs → split_blocks (length xs) (blocks_bytes xs) = xs.
Proof.
  induction 1 as [|x xs Hx _ IH]; [done|]. rewrite blocks_bytes_cons. cbn [length split_blocks].
  rewrite take_app_le, take_ge, drop_app_ge by (rewrite length_bits_block; lia).
  rewrite length_bits_block, Nat.sub_diag, drop_0, IH, block_bits_block by (by rewrite Hx). done.
Qed.

Lemma message_blocks_bytes l : bytes_ok l → take (length l) (blocks_bytes (message_blocks l)) = l.
Proof.
  intros Hb. remember (length l) as n eqn:En. revert l Hb En. induction (lt_wf n) as [n _ IH]. intros l Hb ->.
  destruct (decide (8 ≤ length l)%nat) as [Hl|Hl].
  - rewrite message_blocks_cons, blocks_bytes_cons by done.
    replace 8%nat with (length (take 8 l)) at 1 by (rewrite length_take; lia).
    rewrite bits_block_bits by auto with words. rewrite <- (take_drop 8 l) at 1. rewrite length_app, take_app_add.
    rewrite (IH (length (drop 8 l))); [apply take_drop|rewrite length_drop; lia|auto with words|done].
  - destruct (decide (length l = 0)%nat) as [H0|H0]; [by destruct l|].
    rewrite message_blocks_short, blocks_bytes_cons by lia. set (p := l ++ _).
    assert (Hp : length p = 8%nat) by (unfold p; rewrite length_app, length_replicate; lia).
    rewrite <- Hp at 1. rewrite bits_block_bits by (apply bytes_ok_cat; [done|by apply Forall_replicate; lia]).
    unfold p. by rewrite <- app_assoc, take_app_length.
Qed.

Lemma length_message_blocks l : length (message_blocks l) = block_count (length l).
Proof.
  unfold message_blocks. generalize (block_count (length l)) at 1 3. intros n. generalize (l ++ replicate (8 * block_count (length l) - length l) 0).
  induction n as [|n IH]; intros p; cbn; auto.
Qed.

(** ** Chaining *)
Section modes.
Context (E D : Z * Z → Z * Z) (e d : list bool → list bool).
Context (HE : ∀ x, length x = 64%nat → E (block_words x) = block_words (e x)).
Context (HD : ∀ x, length x = 64%nat → D (block_words x) = block_words (d x)).
Context (He : ∀ x, length (e x) = 64%nat) (Hd : ∀ x, length (d x) = 64%nat).
Context (Hde : ∀ x, length x = 64%nat → d (e x) = x).

Lemma cbc_dec_enc iv xs : length iv = 64%nat → sized_blocks xs → cbc_dec d iv (cbc_enc e iv xs) = xs.
Proof.
  intros Hiv Hxs. revert iv Hiv. induction Hxs as [|x xs Hx _ IH]; intros iv Hiv; [done|]. cbn [cbc_enc cbc_dec].
  rewrite Hde by (by apply length_xor_64). by rewrite xor_bits_twice, IH by congruence.
Qed.

Lemma length_cbc_enc iv xs : length (cbc_enc e iv xs) = length xs.
Proof. revert iv. induction xs as [|x xs IH]; intros iv; cbn; auto. Qed.

Lemma sized_cbc_enc iv xs : sized_blocks (cbc_enc e iv xs).
Proof. revert iv. induction xs as [|x xs IH]; intros iv; cbn [cbc_enc]; constructor; [apply He|apply IH]. Qed.

Lemma cbc_enc_app iv xs ys : cbc_enc e iv (xs ++ ys) = cbc_enc e iv xs ++ cbc_enc e (last_block iv (cbc_enc e iv xs)) ys.
Proof.
  revert iv. induction xs as [|x xs IH]; intros iv; [done|]. cbn [app cbc_enc]. rewrite IH. by rewrite last_block_cons.
Qed.

Lemma length_last_block iv cs : length iv = 64%nat → sized_blocks cs → length (last_block iv cs) = 64%nat.
Proof.
  intros Hiv Hcs. revert iv Hiv. induction Hcs as [|c cs Hc _ IH]; intros iv Hiv; [done|]. rewrite last_block_cons. auto.
Qed.

Lemma c2l_iv {B} iv (k : Z → Z → list Z → option B) : bytes_ok iv → length iv = 8%nat →
  ('(a, r) ← c2l iv; '(b, r) ← c2l r; k a b r) = k (lo (block_bits iv)) (hi (block_bits iv)) [].
Proof. intros Hb Hl. rewrite c2l_block by (done || lia). by rewrite take_ge, drop_ge by lia. Qed.

Lemma fuel_enough (n : nat) : (n < 8 * (Z.to_nat (Z.of_nat n / 8) + 1))%nat.
Proof. pose proof (Z.div_mod (Z.of_nat n) 8). pose proof (Z.mod_pos_bound (Z.of_nat n) 8). lia. Qed.

(** The code encrypts by the mode of the standard, and decrypts what it has
    encrypted; both leave the last block of the ciphertext in [ivec]. *)
Lemma cbc_encrypt_spec msg iv : bytes_ok msg → bytes_ok iv → length iv = 8%nat →
  let cs := cbc_enc e (block_bits iv) (message_blocks msg) in
  let iv' := bits_block 8 (last_block (block_bits iv) cs) in
  cbc_encrypt E D msg (Z.of_nat (length msg)) iv true = Some (blocks_bytes cs, iv') ∧
  cbc_encrypt E D (blocks_bytes cs) (Z.of_nat (length msg)) iv false = Some (msg, iv').
Proof.
  intros Hb Hiv Hl cs iv'. assert (Hx : length (block_bits iv) = 64%nat) by (rewrite length_block_bits; lia).
  pose proof (sized_cbc_enc (block_bits iv) (message_blocks msg)) as Hcs. fold cs in Hcs.
  assert (Hn : length cs = block_count (length msg)) by (unfold cs; by rewrite length_cbc_enc, length_message_blocks).
  unfold cbc_encrypt. rewrite !c2l_iv by done.
  rewrite (cbc_enc_loop_spec E e HE He) by (done || apply fuel_enough).
  rewrite (cbc_dec_loop_spec D d HD Hd _ (blocks_bytes cs) (length msg)).
  2:{ by apply blocks_bytes_ok. } 2:{ done. } 2:{ apply fuel_enough. } 2:{ rewrite length_blocks_bytes. lia. }
  cbv zeta. fold cs. rewrite <- Hn, split_blocks_bytes by done. unfold cs at 4. rewrite cbc_dec_enc, message_blocks_bytes
    by (done || apply message_blocks_sized). cbn [mbind option_bind block_words].
  change (l2c ?a ++ l2c ?b) with (CRYPTO_store_u32_le a ++ CRYPTO_store_u32_le b).
  by rewrite !store_block by (by apply length_last_block).
Qed.
End modes.

(** ** The code *)
Definition key_ok (key : list Z) : Prop := bytes_ok key ∧ length key = 8%nat.

Lemma set_key_schedule key ks : key_ok key → DES_set_key key = Some ks → ks = key_pair <$> KS (block_bits key).
Proof. intros [Hb Hl]. rewrite DES_set_key_KS by done. by intros [= <-]. Qed.

Lemma DES_block_spec key enc x : length x = 64%nat →
  DES_encrypt1 (block_words x) (key_pair <$> KS key) enc = block_words ((if enc then DES_enc else DES_dec) key x).
Proof. intros Hx. rewrite DES_encrypt1_spec by (apply KS_ok || exact Hx). destruct enc; reflexivity. Qed.

Lemma TDEA_block_spec k1 k2 k3 x : length x = 64%nat →
  DES_encrypt3 (block_words x) (key_pair <$> KS k1) (key_pair <$> KS k2) (key_pair <$> KS k3) = block_words (TDEA_enc k1 k2 k3 x) ∧
  DES_decrypt3 (block_words x) (key_pair <$> KS k1) (key_pair <$> KS k2) (key_pair <$> KS k3) = block_words (TDEA_dec k1 k2 k3 x).
Proof.
  intros Hx. unfold TDEA_enc, TDEA_dec, DES_enc, DES_dec.
  split; [apply DES_encrypt3_spec|apply DES_decrypt3_spec]; (apply KS_ok || exact Hx).
Qed.

Lemma four_keys a b c d : Forall key_ok [a; b; c; d] → (key_ok a ∧ key_ok b ∧ key_ok c) ∧ key_ok d.
Proof. rewrite !Forall_cons. tauto. Qed.

(** C8: for all keys and blocks, [DES_set_key] and [DES_ecb_encrypt] compute the
    Data Encryption Standard of FIPS 46-3, and [DES_ecb3_encrypt] its triple
    form, for encryption and for decryption. *)
Theorem DES_is_fips46 k1 k2 k3 inp enc : Forall key_ok [k1; k2; k3; inp] →
  ∃ ks1 ks2 ks3, DES_set_key k1 = Some ks1 ∧ DES_set_key k2 = Some ks2 ∧ DES_set_key k3 = Some ks3 ∧
    DES_ecb_encrypt inp ks1 enc = bits_block 8 ((if enc then DES_enc else DES_dec) (block_bits k1) (block_bits inp)) ∧
    DES_ecb3_encrypt inp ks1 ks2 ks3 enc =
      bits_block 8 ((if enc then TDEA_enc else TDEA_dec) (block_bits k1) (block_bits k2) (block_bits k3) (block_bits inp)).
Proof.
  intros [[[Hb1 Hl1] [[Hb2 Hl2] [Hb3 Hl3]]] [Hbi Hli]]%four_keys. rewrite !DES_set_key_KS by assumption.
  do 3 eexists. do 3 (split; [done|]). unfold DES_ecb_encrypt, DES_ecb_encrypt_ex, DES_ecb3_encrypt, DES_ecb3_encrypt_ex.
  assert (length (block_bits inp) = 64%nat) by (rewrite length_block_bits; lia).
  rewrite block_words_load, DES_block_spec by done. split; [by rewrite ecb_bytes by (destruct enc; apply length_DES_rounds)|].
  destruct (TDEA_block_spec (block_bits k1) (block_bits k2) (block_bits k3) (block_bits inp)) as [-> ->]; [done|].
  destruct enc; by rewrite ecb_bytes by apply length_DES_rounds.
Qed.

(** The test vector that opens every DES tutorial. *)
Definition kat_key : list Z := [0x13; 0x34; 0x57; 0x79; 0x9b; 0xbc; 0xdf; 0xf1].
Definition kat_block : list Z := [0x01; 0x23; 0x45; 0x67; 0x89; 0xab; 0xcd; 0xef].
Lemma DES_is_fips46_witness :
  Forall key_ok [kat_key; kat_block; kat_key; kat_block] ∧
  ∃ ks1 ks2 ks3, DES_set_key kat_key = Some ks1 ∧ DES_set_key kat_block = Some ks2 ∧ DES_set_key kat_key = Some ks3 ∧
    DES_ecb_encrypt kat_block ks1 true = bits_block 8 (DES_enc (block_bits kat_key) (block_bits kat_block)) ∧
    DES_ecb3_encrypt kat_block ks1 ks2 ks3 true =
      bits_block 8 (TDEA_enc (block_bits kat_key) (block_bits kat_block) (block_bits kat_key) (block_bits kat_block)).
Proof.
  assert (H : Forall key_ok [kat_key; kat_block; kat_key; kat_block]) by (apply (bool_decide_unpack _); by vm_compute).
  split; [exact H|]. exact (DES_is_fips46 kat_key kat_block kat_key kat_block true H).
Defined.

Example DES_test_vector :
  (λ ks, DES_ecb_encrypt kat_block ks true) <$> DES_set_key kat_key = Some [0x85; 0xe8; 0x13; 0x54; 0x0f; 0x0a; 0xb4; 0x05].
Proof. vm_compute. reflexivity. Qed.

(** Triple DES in CBC mode. *)
Lemma ede3_cbc_spec k1 k2 k3 iv msg : key_ok iv → bytes_ok msg →
  let cs := cbc_enc (TDEA_enc k1 k2 k3) (block_bits iv) (message_blocks msg) in
  let iv' := bits_block 8 (last_block (block_bits iv) cs) in
  let ks k := key_pair <$> KS k in
  DES_ede3_cbc_encrypt msg (Z.of_nat (length msg)) (ks k1) (ks k2) (ks k3) iv true = Some (blocks_bytes cs, iv') ∧
  DES_ede3_cbc_encrypt (blocks_bytes cs) (Z.of_nat (length msg)) (ks k1) (ks k2) (ks k3) iv false = Some (msg, iv').
Proof.
  intros [Hbi Hli] Hb. apply (cbc_encrypt_spec _ _ (TDEA_enc k1 k2 k3) (TDEA_dec k1 k2 k3));
    [intros x Hx; exact (proj1 (TDEA_block_spec _ _ _ x Hx))|intros x Hx; exact (proj2 (TDEA_block_spec _ _ _ x Hx))|intros x; apply length_DES_rounds
    |intros x; apply length_DES_rounds|intros x; apply TDEA_dec_enc|exact Hb|exact Hbi|exact Hli].
Qed.

(** C35: the CBC functions, for messages of every length: they encrypt by the
    CBC mode of FIPS 81 with the last block filled up with zeros, decrypt what
    they have encrypted to exactly the message, and leave the last ciphertext
    block in [ivec] both times, so that the next call goes on.  They do so with
    one key, with three, and with two, the third being the first again. *)
Theorem DES_cbc_is_fips81 k1 k2 k3 iv msg : Forall key_ok [k1; k2; k3; iv] → bytes_ok msg →
  ∃ ks1 ks2 ks3, DES_set_key k1 = Some ks1 ∧ DES_set_key k2 = Some ks2 ∧ DES_set_key k3 = Some ks3 ∧
    (let cs := cbc_enc (DES_enc (block_bits k1)) (block_bits iv) (message_blocks msg) in
     let iv' := bits_block 8 (last_block (block_bits iv) cs) in
     DES_ncbc_encrypt msg (Z.of_nat (length msg)) ks1 iv true = Some (blocks_bytes cs, iv') ∧
     DES_ncbc_encrypt (blocks_bytes cs) (Z.of_nat (length msg)) ks1 iv false = Some (msg, iv')) ∧
    (let cs := cbc_enc (TDEA_enc (block_bits k1) (block_bits k2) (block_bits k3)) (block_bits iv) (message_blocks msg) in
     let iv' := bits_block 8 (last_block (block_bits iv) cs) in
     DES_ede3_cbc_encrypt msg (Z.of_nat (length msg)) ks1 ks2 ks3 iv true = Some (blocks_bytes cs, iv') ∧
     DES_ede3_cbc_encrypt (blocks_bytes cs) (Z.of_nat (length msg)) ks1 ks2 ks3 iv false = Some (msg, iv')) ∧
    (let cs := cbc_enc (TDEA_enc (block_bits k1) (block_bits k2) (block_bits k1)) (block_bits iv) (message_blocks msg) in
     let iv' := bits_block 8 (last_block (block_bits iv) cs) in
     DES_ede2_cbc_encrypt msg (Z.of_nat (length msg)) ks1 ks2 iv true = Some (blocks_bytes cs, iv') ∧
     DES_ede2_cbc_encrypt (blocks_bytes cs) (Z.of_nat (length msg)) ks1 ks2 iv false = Some (msg, iv')).
Proof.
  intros [[[Hb1 Hl1] [[Hb2 Hl2] [Hb3 Hl3]]] Hiv]%four_keys Hb. rewrite !DES_set_key_KS by assumption.
  do 3 eexists. do 3 (split; [done|]). split_and!.
  - destruct Hiv as [Hbi Hli]. apply (cbc_encrypt_spec _ _ (DES_enc (block_bits k1)) (DES_dec (block_bits k1)));
      [intros x Hx; by rewrite DES_block_spec|intros x Hx; by rewrite DES_block_spec|intros x; apply length_DES_rounds
      |intros x; apply length_DES_rounds|intros x; apply DES_dec_enc|exact Hb|exact Hbi|exact Hli].
  - exact (ede3_cbc_spec _ _ _ iv msg Hiv Hb).
  - exact (ede3_cbc_spec _ _ _ iv msg Hiv Hb).
Qed.

Lemma DES_cbc_is_fips81_witness :
  Forall key_ok [kat_key; kat_block; kat_key; kat_block] ∧ bytes_ok [1; 2; 3] ∧
  ∃ ks1 ks2 ks3, DES_set_key kat_key = Some ks1 ∧ DES_set_key kat_block = Some ks2 ∧ DES_set_key kat_key = Some ks3 ∧
    (let cs := cbc_enc (DES_enc (block_bits kat_key)) (block_bits kat_block) (message_blocks [1; 2; 3]) in
     let iv' := bits_block 8 (last_block (block_bits kat_block) cs) in
     DES_ncbc_encrypt [1; 2; 3] 3 ks1 kat_block true = Some (blocks_bytes cs, iv') ∧
     DES_ncbc_encrypt (blocks_bytes cs) 3 ks1 kat_block false = Some ([1; 2; 3], iv')) ∧
    (let cs := cbc_enc (TDEA_enc (block_bits kat_key) (block_bits kat_block) (block_bits kat_key)) (block_bits kat_block) (message_blocks [1; 2; 3]) in
     let iv' := bits_block 8 (last_block (block_bits kat_block) cs) in
     DES_ede3_cbc_encrypt [1; 2; 3] 3 ks1 ks2 ks3 kat_block true = Some (blocks_bytes cs, iv') ∧
     DES_ede3_cbc_encrypt (blocks_bytes cs) 3 ks1 ks2 ks3 kat_block false = Some ([1; 2; 3], iv')) ∧
    (let cs := cbc_enc (TDEA_enc (block_bits kat_key) (block_bits kat_block) (block_bits kat_key)) (block_bits kat_block) (message_blocks [1; 2; 3]) in
     let iv' := bits_block 8 (last_block (block_bits kat_block) cs) in
     DES_ede2_cbc_encrypt [1; 2; 3] 3 ks1 ks2 kat_block true = Some (blocks_bytes cs, iv') ∧
     DES_ede2_cbc_encrypt (blocks_bytes cs) 3 ks1 ks2 kat_block false = Some ([1; 2; 3], iv')).
Proof.
  assert (H : Forall key_ok [kat_key; kat_block; kat_key; kat_block]) by (apply (bool_decide_unpack _); by vm_compute).
  assert (Hm : bytes_ok [1; 2; 3]) by (apply (bool_decide_unpack _); by vm_compute).
  split; [exact H|]. split; [exact Hm|]. exact (DES_cbc_is_fips81 kat_key kat_block kat_key kat_block [1; 2; 3] H Hm).
Defined.

(** Decryption reads whole blocks: [len] bytes of input are not enough when
    [len] is not a multiple of 8. *)
Lemma cbc_decrypt_over_read E D inp iv : (0 < length inp < 8)%nat → cbc_encrypt E D inp (Z.of_nat (length inp)) iv false = None.
Proof.
  intros Hl. unfold cbc_encrypt. destruct (c2l iv) as [[iv0 rest]|]; [|done]. cbn [mbind option_bind].
  destruct (c2l rest) as [[iv1 ?]|]; [|done]. cbn [mbind option_bind].
  rewrite Z.div_small by lia. cbn [Z.to_nat cbc_dec_loop].
  destruct (Z.geb_spec (Z.of_nat (length inp)) 8); [lia|]. destruct (Z.eqb_spec (Z.of_nat (length inp)) 0); [lia|]. cbn [negb].
  do 8 (destruct inp as [|? inp]; [cbn in *; (lia || done)|]). cbn in Hl. lia.
Qed.

(** The odd-parity table: the seven high bits stay, the number of ones is odd. *)
Definition ones (b : Z) : nat := length (filter (λ x, x = true) (bits_from 8 b)).
Lemma DES_set_odd_parity_spec key : bytes_ok key →
  Forall2 (λ b b', b' ≫ 1 = b ≫ 1 ∧ Nat.odd (ones b') = true) key (DES_set_odd_parity key).
Proof.
  induction 1 as [|b key Hb _ IH]; [constructor|]. constructor; [|exact IH].
  assert (H : forallb (λ i, (byte_at kOddParity (Z.of_nat i) ≫ 1 =? Z.of_nat i ≫ 1) && Nat.odd (ones (byte_at kOddParity (Z.of_nat i)))) (seq 0 256) = true)
    by (vm_compute; reflexivity).
  eapply (proj1 (forallb_forall _ _)) with (x := Z.to_nat b) in H; [|apply list_elem_of_In, elem_of_seq; lia].
  rewrite Z2Nat.id in H by lia. apply andb_true_iff in H as [H1%Z.eqb_eq H2]. done.
Qed.
