(* ===== verification/Blake2.v ===== *)
(** BLAKE2b-256 ([crypto/blake2/blake2.c]): however a message is cut into
    calls of [BLAKE2B256_Update], the digest is that of RFC 7693. *)
From S2P Require Import Prelude Radix Cbs Words.

Definition BLAKE2B_CBLOCK : nat := 128.
Definition BLAKE2B256_DIGEST_LENGTH : nat := 32.

Definition kIV : list Z := [
  0x6a09e667f3bcc908; 0xbb67ae8584caa73b; 0x3c6ef372fe94f82b; 0xa54ff53a5f1d36f1;
  0x510e527fade682d1; 0x9b05688c2b3e6c1f; 0x1f83d9abfb41bd6b; 0x5be0cd19137e2179].
Definition kSigma : list nat := [
  0; 1; 2; 3; 4; 5; 6; 7; 8; 9; 10; 11; 12; 13; 14; 15;
  14; 10; 4; 8; 9; 15; 13; 6; 1; 12; 0; 2; 11; 7; 5; 3;
  11; 8; 12; 0; 5; 2; 15; 13; 10; 14; 3; 6; 7; 1; 9; 4;
  7; 9; 3; 1; 13; 12; 11; 14; 2; 6; 5; 10; 4; 0; 15; 8;
  9; 0; 5; 7; 2; 4; 10; 15; 14; 1; 11; 12; 6; 8; 3; 13;
  2; 12; 6; 10; 0; 11; 8; 3; 4; 13; 7; 5; 15; 14; 1; 9;
  12; 5; 1; 15; 14; 13; 4; 10; 0; 7; 6; 3; 9; 2; 8; 11;
  13; 11; 7; 14; 12; 1; 3; 9; 5; 0; 15; 4; 8; 6; 2; 10;
  6; 15; 14; 9; 11; 3; 0; 8; 12; 2; 13; 7; 1; 4; 10; 5;
  10; 2; 8; 4; 7; 6; 1; 5; 15; 11; 9; 14; 3; 12; 13; 0]%nat.

Record BLAKE2B_CTX := mkBlake {
  h : list Z;
  t_low : Z;
  t_high : Z;
  block : list Z;
  block_used : nat;
}.

(** [v[i]] *)
Definition v_word (v : list Z) (i : nat) : Z := nth i v 0.

Definition blake2b_mix (v : list Z) (a b c d : nat) (x y : Z) : list Z :=
  let v := <[a := v_word v a ⊞[64] v_word v b ⊞[64] x]> v in
  let v := <[d := CRYPTO_rotr_u64 (v_word v d .^ v_word v a) 32]> v in
  let v := <[c := v_word v c ⊞[64] v_word v d]> v in
  let v := <[b := CRYPTO_rotr_u64 (v_word v b .^ v_word v c) 24]> v in
  let v := <[a := v_word v a ⊞[64] v_word v b ⊞[64] y]> v in
  let v := <[d := CRYPTO_rotr_u64 (v_word v d .^ v_word v a) 16]> v in
  let v := <[c := v_word v c ⊞[64] v_word v d]> v in
  <[b := CRYPTO_rotr_u64 (v_word v b .^ v_word v c) 63]> v.

(** [CRYPTO_load_u64_le(block + 8 * i)] *)
Definition blake2b_load (block : list Z) (i : nat) : Z := load_u64_le (take 8 (drop (8 * i) block)).

(** A turn of the loop over the rounds. *)
Definition blake2b_round (block : list Z) (v : list Z) (round : nat) : list Z :=
  let s i := nth (16 * (round mod 10) + i) kSigma 0%nat in
  let v := blake2b_mix v 0 4 8 12 (blake2b_load block (s 0%nat)) (blake2b_load block (s 1%nat)) in
  let v := blake2b_mix v 1 5 9 13 (blake2b_load block (s 2%nat)) (blake2b_load block (s 3%nat)) in
  let v := blake2b_mix v 2 6 10 14 (blake2b_load block (s 4%nat)) (blake2b_load block (s 5%nat)) in
  let v := blake2b_mix v 3 7 11 15 (blake2b_load block (s 6%nat)) (blake2b_load block (s 7%nat)) in
  let v := blake2b_mix v 0 5 10 15 (blake2b_load block (s 8%nat)) (blake2b_load block (s 9%nat)) in
  let v := blake2b_mix v 1 6 11 12 (blake2b_load block (s 10%nat)) (blake2b_load block (s 11%nat)) in
  let v := blake2b_mix v 2 7 8 13 (blake2b_load block (s 12%nat)) (blake2b_load block (s 13%nat)) in
  blake2b_mix v 3 4 9 14 (blake2b_load block (s 14%nat)) (blake2b_load block (s 15%nat)).

Definition blake2b_transform (b2b : BLAKE2B_CTX) (blk : list Z) (num_bytes : Z) (is_final_block : bool) : BLAKE2B_CTX :=
  let v := h b2b ++ kIV in
  let low := t_low b2b ⊞[64] num_bytes in
  let high := if low <? num_bytes then t_high b2b ⊞[64] 1 else t_high b2b in
  let v := <[12%nat := v_word v 12 .^ low]> v in
  let v := <[13%nat := v_word v 13 .^ high]> v in
  let v := if is_final_block then <[14%nat := wrap 64 (Z.lnot (v_word v 14))]> v else v in
  let v := foldl (blake2b_round blk) v (seq 0 12) in
  mkBlake ((λ i, v_word (h b2b) i .^ v_word v i .^ v_word v (i + 8)) <$> seq 0 8) low high (block b2b) (block_used b2b).

Definition BLAKE2B256_Init : BLAKE2B_CTX :=
  mkBlake (<[0%nat := v_word kIV 0 .^ (0x01010000 .| Z.of_nat BLAKE2B256_DIGEST_LENGTH)]> kIV) 0 0 (replicate BLAKE2B_CBLOCK 0) 0.

(** [memcpy(&b2b->block[used], data, ...)] of all of [data]. *)
Definition put_block (st : BLAKE2B_CTX) (off : nat) (data : list Z) (used : nat) : BLAKE2B_CTX :=
  mkBlake (h st) (t_low st) (t_high st) (take off (block st) ++ data ++ drop (off + length data) (block st)) used.

(** [while (len > BLAKE2B_CBLOCK)], and the copy of the rest. *)
Fixpoint update_loop (fuel : nat) (st : BLAKE2B_CTX) (data : list Z) : BLAKE2B_CTX :=
  match fuel with
  | O => st
  | S fuel =>
      if (BLAKE2B_CBLOCK <? length data)%nat then
        update_loop fuel (blake2b_transform st (take BLAKE2B_CBLOCK data) (Z.of_nat BLAKE2B_CBLOCK) false) (drop BLAKE2B_CBLOCK data)
      else put_block st 0 data (length data)
  end.

Definition BLAKE2B256_Update (st : BLAKE2B_CTX) (data : list Z) : BLAKE2B_CTX :=
  if (length data =? 0)%nat then st
  else
    let todo := (BLAKE2B_CBLOCK - block_used st)%nat in
    let todo := if (length data <? todo)%nat then length data else todo in
    let st := put_block st (block_used st) (take todo data) (block_used st + todo) in
    let data := drop todo data in
    if (length data =? 0)%nat then st
    else
      let st := blake2b_transform st (block st) (Z.of_nat BLAKE2B_CBLOCK) false in
      update_loop (S (length data)) (mkBlake (h st) (t_low st) (t_high st) (block st) 0) data.

Definition BLAKE2B256_Final (st : BLAKE2B_CTX) : list Z :=
  let st := put_block st (block_used st) (replicate (BLAKE2B_CBLOCK - block_used st) 0) (block_used st) in
  let st := blake2b_transform st (block st) (Z.of_nat (block_used st)) true in
  take BLAKE2B256_DIGEST_LENGTH (concat (num_to_le 8 <$> h st)).

Definition BLAKE2B256 (data : list Z) : list Z := BLAKE2B256_Final (BLAKE2B256_Update BLAKE2B256_Init data).
Definition blake2b_pieces (pieces : list (list Z)) : list Z := BLAKE2B256_Final (foldl BLAKE2B256_Update BLAKE2B256_Init pieces).

(** ** RFC 7693 *)
(** The working vector as four rows; the word [i] of a row is its list element. *)
Record rows := mkRows { ra : list Z; rb : list Z; rc : list Z; rd : list Z }.

Definition rfc_G (x y : Z) (abcd : Z * Z * Z * Z) : Z * Z * Z * Z :=
  let '(a, b, c, d) := abcd in
  let a := a ⊞[64] b ⊞[64] x in
  let d := CRYPTO_rotr_u64 (d .^ a) 32 in
  let c := c ⊞[64] d in
  let b := CRYPTO_rotr_u64 (b .^ c) 24 in
  let a := a ⊞[64] b ⊞[64] y in
  let d := CRYPTO_rotr_u64 (d .^ a) 16 in
  let c := c ⊞[64] d in
  let b := CRYPTO_rotr_u64 (b .^ c) 63 in
  (a, b, c, d).

(** [G] on each column; column [i] takes the message words [s(2i)] and [s(2i+1)]. *)
Definition v_column (v : rows) (i : nat) : Z * Z * Z * Z := (v_word (ra v) i, v_word (rb v) i, v_word (rc v) i, v_word (rd v) i).
Definition mix_columns (m : nat → Z) (v : rows) : rows :=
  let q := (λ i, rfc_G (m (2 * i)%nat) (m (2 * i + 1)%nat) (v_column v i)) <$> seq 0 4 in
  mkRows ((λ x, x.1.1.1) <$> q) ((λ x, x.1.1.2) <$> q) ((λ x, x.1.2) <$> q) ((λ x, x.2) <$> q).

Definition rotl {A} (n : nat) (l : list A) : list A := drop n l ++ take n l.
(** The diagonals become columns by rotating the rows. *)
Definition diagonals (v : rows) : rows := mkRows (ra v) (rotl 1 (rb v)) (rotl 2 (rc v)) (rotl 3 (rd v)).
Definition undiagonals (v : rows) : rows := mkRows (ra v) (rotl 3 (rb v)) (rotl 2 (rc v)) (rotl 1 (rd v)).

Definition rfc_round (m : nat → Z) (v : rows) (i : nat) : rows :=
  let s j := m (nth (16 * (i mod 10) + j) kSigma 0%nat) in
  undiagonals (mix_columns (λ j, s (8 + j)%nat) (diagonals (mix_columns s v))).

Definition rows_of (v : list Z) : rows := mkRows (take 4 v) (take 4 (drop 4 v)) (take 4 (drop 8 v)) (drop 12 v).
Definition flat (v : rows) : list Z := ra v ++ rb v ++ rc v ++ rd v.

(** The compression function, for [t] bytes up to the end of the block. *)
Definition rfc_F (h : list Z) (blk : list Z) (t : Z) (f : bool) : list Z :=
  let m i := le_num (take 8 (drop (8 * i) blk)) in
  let v := mkRows (take 4 h) (drop 4 h) (take 4 kIV)
    [v_word kIV 4 .^ (t mod 2 ^ 64); v_word kIV 5 .^ (t / 2 ^ 64) mod 2 ^ 64;
     (if f then 2 ^ 64 - 1 - v_word kIV 6 else v_word kIV 6); v_word kIV 7] in
  let v := flat (foldl (rfc_round m) v (seq 0 12)) in
  (λ i, v_word h i .^ v_word v i .^ v_word v (i + 8)) <$> seq 0 8.

Definition rfc_block (msg : list Z) (i : nat) : list Z := take 128 (drop (128 * i) msg).
(** The state after the first [n] blocks, for an unkeyed hash of [nn] bytes. *)
Definition rfc_chain (nn : Z) (msg : list Z) (n : nat) : list Z :=
  foldl (λ h i, rfc_F h (rfc_block msg i) (128 * (Z.of_nat i + 1)) false)
    (<[0%nat := v_word kIV 0 .^ 0x01010000 .^ nn]> kIV) (seq 0 n).
(** The number of the blocks before the last; the empty message has one block. *)
Definition rfc_full (msg : list Z) : nat := (length msg - 1) / 128.
Definition rfc_BLAKE2 (nn : nat) (msg : list Z) : list Z :=
  let n := rfc_full msg in
  let last := drop (128 * n) msg in
  let h := rfc_F (rfc_chain (Z.of_nat nn) msg n) (last ++ replicate (128 - length last) 0) (Z.of_nat (length msg)) true in
  take nn (concat (num_to_le 8 <$> h)).

(** ** The compression function *)
Ltac sixteen v := do 16 (destruct v as [|? v]; [done|]); destruct v; [|done].

Definition set4 (v : list Z) (a b c d : nat) (q : Z * Z * Z * Z) : list Z :=
  <[b := q.1.1.2]> (<[c := q.1.2]> (<[d := q.2]> (<[a := q.1.1.1]> v))).
Definition mix_places : list (nat * nat * nat * nat) :=
  [(0, 4, 8, 12); (1, 5, 9, 13); (2, 6, 10, 14); (3, 7, 11, 15); (0, 5, 10, 15); (1, 6, 11, 12); (2, 7, 8, 13); (3, 4, 9, 14)]%nat.

Lemma blake2b_mix_G v a b c d x y : length v = 16%nat → (a, b, c, d) ∈ mix_places →
  blake2b_mix v a b c d x y = set4 v a b c d (rfc_G x y (v_word v a, v_word v b, v_word v c, v_word v d)).
Proof.
  intros Hv Hin. sixteen v. unfold mix_places in Hin. rewrite !elem_of_cons in Hin.
  destruct Hin as [E|[E|[E|[E|[E|[E|[E|[E|E]]]]]]]]; [..|by apply elem_of_nil in E]; injection E as -> -> -> ->;
    cbn -[CRYPTO_rotr_u64 wrap Z.add Z.lxor]; reflexivity.
Qed.

Lemma length_set4 v a b c d q : length (set4 v a b c d q) = length v.
Proof. unfold set4. by rewrite !length_insert. Qed.

Lemma blake2b_load_num blk i : bytes_ok blk → blake2b_load blk i = le_num (take 8 (drop (8 * i) blk)).
Proof. intros H. apply load_u64_le_num. auto with words. Qed.

(** Four mixes of the code, on the columns or on the diagonals. *)
Definition four_mixes (m : nat → Z) (places : list (nat * nat * nat * nat)) (v : list Z) : list Z :=
  foldl (λ v p, let '(j, (a, b, c, d)) := p in blake2b_mix v a b c d (m (2 * j)%nat) (m (2 * j + 1)%nat)) v (zip (seq 0 4) places).

Lemma four_columns m v : length v = 16%nat → four_mixes m (take 4 mix_places) v = flat (mix_columns m (rows_of v)).
Proof.
  intros Hv. sixteen v. unfold four_mixes. cbn [take mix_places zip zip_with seq foldl].
  do 4 (rewrite blake2b_mix_G; [|done|apply (bool_decide_unpack _); by vm_compute];
    cbn -[rfc_G blake2b_mix Nat.mul Nat.add]; destruct (rfc_G _ _ _) as [[[? ?] ?] ?]; cbn -[rfc_G blake2b_mix Nat.mul Nat.add]).
  done.
Qed.

Lemma four_diagonals m v : length v = 16%nat →
  four_mixes m (drop 4 mix_places) v = flat (undiagonals (mix_columns m (diagonals (rows_of v)))).
Proof.
  intros Hv. sixteen v. unfold four_mixes. cbn [drop mix_places zip zip_with seq foldl].
  do 4 (rewrite blake2b_mix_G; [|done|apply (bool_decide_unpack _); by vm_compute];
    cbn -[rfc_G blake2b_mix Nat.mul Nat.add]; destruct (rfc_G _ _ _) as [[[? ?] ?] ?]; cbn -[rfc_G blake2b_mix Nat.mul Nat.add]).
  done.
Qed.

Lemma length_blake2b_mix v a b c d x y : length (blake2b_mix v a b c d x y) = length v.
Proof. unfold blake2b_mix. by rewrite !length_insert. Qed.

Lemma length_four_mixes m ps v : length (four_mixes m ps v) = length v.
Proof.
  unfold four_mixes. generalize (zip (seq 0 4) ps). intros l. revert v.
  induction l as [|[j [[[a b] c] d]] l IH]; intros v; [done|]. cbn [foldl]. by rewrite IH, length_blake2b_mix.
Qed.

Definition rows_ok (v : rows) : Prop := length (ra v) = 4%nat ∧ length (rb v) = 4%nat ∧ length (rc v) = 4%nat ∧ length (rd v) = 4%nat.

Lemma rows_of_flat v : rows_ok v → rows_of (flat v) = v.
Proof.
  destruct v as [a b c d]. intros (Ha & Hb & Hc & Hd). cbn [ra rb rc rd] in *.
  do 4 (destruct a as [|? a]; [done|]); destruct a; [|done]. do 4 (destruct b as [|? b]; [done|]); destruct b; [|done].
  do 4 (destruct c as [|? c]; [done|]); destruct c; [|done]. reflexivity.
Qed.

Lemma flat_rows_of v : flat (rows_of v) = v.
Proof.
  unfold flat, rows_of. cbn [ra rb rc rd]. rewrite (assoc_L app (take 4 (drop 4 v))), (assoc_L app (take 4 v)).
  transitivity (take 4 v ++ take 4 (drop 4 v) ++ take 4 (drop 4 (drop 4 v)) ++ drop 4 (drop 4 (drop 4 v))).
  - by rewrite !drop_drop, <- !app_assoc.
  - by rewrite !take_drop.
Qed.

Lemma mix_columns_ok m v : rows_ok (mix_columns m v).
Proof. done. Qed.

Lemma length_rotl {A} n (l : list A) : length (rotl n l) = length l.
Proof. unfold rotl. rewrite length_app, length_take, length_drop. lia. Qed.

Lemma undiagonals_ok v : rows_ok v → rows_ok (undiagonals v).
Proof. intros (? & ? & ? & ?). unfold rows_ok, undiagonals. cbn [ra rb rc rd]. by rewrite !length_rotl. Qed.

Lemma rfc_round_ok m v i : rows_ok (rfc_round m v i).
Proof. apply undiagonals_ok, mix_columns_ok. Qed.

Lemma eight_mixes s v :
  (let v := blake2b_mix v 0 4 8 12 (s 0%nat) (s 1%nat) in
   let v := blake2b_mix v 1 5 9 13 (s 2%nat) (s 3%nat) in
   let v := blake2b_mix v 2 6 10 14 (s 4%nat) (s 5%nat) in
   let v := blake2b_mix v 3 7 11 15 (s 6%nat) (s 7%nat) in
   let v := blake2b_mix v 0 5 10 15 (s 8%nat) (s 9%nat) in
   let v := blake2b_mix v 1 6 11 12 (s 10%nat) (s 11%nat) in
   let v := blake2b_mix v 2 7 8 13 (s 12%nat) (s 13%nat) in
   blake2b_mix v 3 4 9 14 (s 14%nat) (s 15%nat)) =
  four_mixes (λ j, s (8 + j)%nat) (drop 4 mix_places) (four_mixes s (take 4 mix_places) v).
Proof. cbv zeta. unfold four_mixes. cbn -[blake2b_mix]. reflexivity. Qed.

Lemma mix_columns_ext m m' v : (∀ j, m j = m' j) → mix_columns m v = mix_columns m' v.
Proof.
  intros H. unfold mix_columns.
  assert (E : (λ i, rfc_G (m (2 * i)%nat) (m (2 * i + 1)%nat) (v_column v i)) <$> seq 0 4 =
              (λ i, rfc_G (m' (2 * i)%nat) (m' (2 * i + 1)%nat) (v_column v i)) <$> seq 0 4).
  { apply list_fmap_ext. intros _ i _. by rewrite !H. }
  rewrite E. reflexivity.
Qed.

Lemma blake2b_round_rows blk v i : bytes_ok blk → rows_ok v →
  blake2b_round blk (flat v) i = flat (rfc_round (λ i, le_num (take 8 (drop (8 * i) blk))) v i).
Proof.
  intros Hb Hv. assert (Hl : length (flat v) = 16%nat) by (destruct Hv as (? & ? & ? & ?); unfold flat; rewrite !length_app; lia).
  etransitivity; [exact (eight_mixes (λ j, blake2b_load blk (nth (16 * (i mod 10) + j) kSigma 0%nat)) (flat v))|].
  rewrite four_diagonals by (by rewrite length_four_mixes). rewrite four_columns by done.
  rewrite rows_of_flat by apply mix_columns_ok. rewrite rows_of_flat by done. unfold rfc_round. apply (f_equal (λ x, flat (undiagonals x))).
  rewrite (mix_columns_ext _ (λ j, le_num (take 8 (drop (8 * nth (16 * (i mod 10) + (8 + j)) kSigma 0%nat) blk)))) by (intros j; by apply blake2b_load_num).
  apply (f_equal (λ x, mix_columns _ (diagonals x))). apply mix_columns_ext. intros j. by apply blake2b_load_num.
Qed.

Lemma rounds_rows blk v is_ : bytes_ok blk → rows_ok v →
  foldl (blake2b_round blk) (flat v) is_ = flat (foldl (rfc_round (λ i, le_num (take 8 (drop (8 * i) blk)))) v is_).
Proof.
  intros Hb. revert v. induction is_ as [|i is_ IH]; intros v Hv; [reflexivity|]. cbn [foldl].
  rewrite blake2b_round_rows by done. apply IH, rfc_round_ok.
Qed.

(** The byte counter in its two words. *)
Definition counts (st : BLAKE2B_CTX) (t : Z) : Prop := t_low st = t mod 2 ^ 64 ∧ t_high st = (t / 2 ^ 64) mod 2 ^ 64.

Lemma count_add st t n : 0 <= n <= 128 → counts st t →
  let low := t_low st ⊞[64] n in
  low = (t + n) mod 2 ^ 64 ∧ (if low <? n then t_high st ⊞[64] 1 else t_high st) = ((t + n) / 2 ^ 64) mod 2 ^ 64.
Proof.
  intros Hn [El Eh]. cbv zeta. rewrite El, Eh. unfold wrap. rewrite Zplus_mod_idemp_l. split; [done|].
  pose proof (Z.div_mod t (2 ^ 64)). pose proof (Z.mod_pos_bound t (2 ^ 64)).
  set (q := t / 2 ^ 64) in *. set (r := t mod 2 ^ 64) in *.
  destruct (Z.lt_ge_cases (r + n) (2 ^ 64)).
  - assert (E : (t + n) mod 2 ^ 64 = r + n) by (symmetry; apply (Z.mod_unique _ _ q); lia).
    assert (Eq : (t + n) / 2 ^ 64 = q) by (symmetry; apply (Z.div_unique _ _ _ (r + n)); lia).
    rewrite E, Eq. by destruct (Z.ltb_spec (r + n) n); [lia|].
  - assert (E : (t + n) mod 2 ^ 64 = r + n - 2 ^ 64) by (symmetry; apply (Z.mod_unique _ _ (q + 1)); lia).
    assert (Eq : (t + n) / 2 ^ 64 = q + 1) by (symmetry; apply (Z.div_unique _ _ _ (r + n - 2 ^ 64)); lia).
    rewrite E, Eq. destruct (Z.ltb_spec (r + n - 2 ^ 64) n); [|lia]. apply Zplus_mod_idemp_l.
Qed.

Lemma transform_F st blk n f t : length (h st) = 8%nat → bytes_ok blk → 0 <= n <= 128 → counts st t →
  let st' := blake2b_transform st blk n f in
  h st' = rfc_F (h st) blk (t + n) f ∧ counts st' (t + n) ∧ block st' = block st ∧ block_used st' = block_used st.
Proof.
  intros Hh Hb Hn Hc. destruct (count_add st t n Hn Hc) as [El Eh]. cbv zeta in El, Eh. cbv zeta. unfold blake2b_transform. cbv zeta.
  rewrite Eh, El. split; [|by repeat split]. cbn [h]. unfold rfc_F. cbv zeta.
  set (low := (t + n) mod 2 ^ 64). set (high := ((t + n) / 2 ^ 64) mod 2 ^ 64).
  set (rv := mkRows _ _ _ _). assert (Hrv : rows_ok rv).
  { unfold rv, rows_ok. cbn [ra rb rc rd]. rewrite length_take, length_drop, Hh. done. }
  match goal with |- context [foldl (blake2b_round blk) ?v0 _] => replace v0 with (flat rv) end.
  - by rewrite rounds_rows.
  - unfold rv. clear -Hh. generalize low, high. intros low' high'. destruct (h st) as [|h0 l]; [done|].
    do 7 (destruct l as [|? l]; [done|]). destruct l; [|done]. destruct f; reflexivity.
Qed.

(** ** Streaming *)
Lemma length_rfc_F h blk t f : length (rfc_F h blk t f) = 8%nat.
Proof. unfold rfc_F. by rewrite length_fmap, length_seq. Qed.

Lemma rfc_chain_S nn msg n : rfc_chain nn msg (S n) = rfc_F (rfc_chain nn msg n) (rfc_block msg n) (128 * (Z.of_nat n + 1)) false.
Proof. unfold rfc_chain. rewrite seq_S, foldl_app. reflexivity. Qed.

Lemma length_rfc_chain nn msg n : length (rfc_chain nn msg n) = 8%nat.
Proof. destruct n as [|n]; [done|]. rewrite rfc_chain_S. apply length_rfc_F. Qed.

Lemma rfc_chain_app nn msg more n : (128 * n ≤ length msg)%nat → rfc_chain nn (msg ++ more) n = rfc_chain nn msg n.
Proof.
  induction n as [|n IH]; intros Hn; [done|]. rewrite !rfc_chain_S, IH by lia.
  assert (E : rfc_block (msg ++ more) n = rfc_block msg n).
  { unfold rfc_block. by rewrite drop_app_le, take_app_le by (rewrite ?length_drop; lia). }
  rewrite E. reflexivity.
Qed.

Lemma rfc_full_eq msg n : (128 * n < length msg ≤ 128 * (n + 1))%nat → rfc_full msg = n.
Proof. intros H. unfold rfc_full. symmetry. apply (Nat.div_unique _ _ _ (length msg - 1 - 128 * n)); lia. Qed.

Lemma rfc_full_bound msg : (0 < length msg)%nat → (128 * rfc_full msg < length msg ≤ 128 * (rfc_full msg + 1))%nat.
Proof.
  intros H. unfold rfc_full. pose proof (Nat.div_mod (length msg - 1) 128).
  pose proof (Nat.mod_upper_bound (length msg - 1) 128). lia.
Qed.

(** The context between blocks, after the first [n] blocks of [msg]. *)
Record between (msg : list Z) (n : nat) (st : BLAKE2B_CTX) : Prop := {
  bt_h : h st = rfc_chain 32 msg n;
  bt_t : counts st (128 * Z.of_nat n);
  bt_block : length (block st) = 128%nat;
  bt_bytes : bytes_ok (block st);
}.

(** The context after the bytes [msg]. *)
Record blake_rep (msg : list Z) (st : BLAKE2B_CTX) : Prop := {
  br_between : between msg (rfc_full msg) st;
  br_used : block_used st = (length msg - 128 * rfc_full msg)%nat;
  br_data : take (block_used st) (block st) = drop (128 * rfc_full msg) msg;
}.

Lemma between_transform msg n st blk used : between msg n st → (128 * (n + 1) ≤ length msg)%nat → bytes_ok msg →
  blk = rfc_block msg n →
  let st' := blake2b_transform st blk 128 false in between msg (S n) (mkBlake (h st') (t_low st') (t_high st') (block st') used).
Proof.
  intros [Hh Ht Hl Hb] Hn Hm -> st'.
  destruct (transform_F st (rfc_block msg n) 128 false (128 * Z.of_nat n)) as (E1 & E2 & E3 & _).
  - rewrite Hh. apply length_rfc_chain.
  - unfold rfc_block. auto with words.
  - lia.
  - done.
  - fold st' in E1, E2, E3. replace (128 * Z.of_nat n + 128) with (128 * (Z.of_nat n + 1)) in * by lia.
    split; cbn [h block]; [by rewrite E1, rfc_chain_S, Hh| |by rewrite E3|by rewrite E3].
    unfold counts in *. cbn [t_low t_high]. by replace (128 * Z.of_nat (S n)) with (128 * (Z.of_nat n + 1)) by lia.
Qed.

Lemma put_block_ok st off data used : length (block st) = 128%nat → bytes_ok (block st) → bytes_ok data → (off + length data ≤ 128)%nat →
  length (block (put_block st off data used)) = 128%nat ∧ bytes_ok (block (put_block st off data used)) ∧
  take (off + length data) (block (put_block st off data used)) = take off (block st) ++ data.
Proof.
  intros Hl Hb Hd Ho. unfold put_block. cbn [block]. split_and!.
  - rewrite !length_app, length_take, length_drop. lia.
  - auto with words.
  - rewrite app_assoc. rewrite take_app_le by (rewrite length_app, length_take; lia).
    apply take_ge. rewrite length_app, length_take. lia.
Qed.

Lemma update_loop_rep fuel msg n st : between msg n st → bytes_ok msg → (128 * n < length msg)%nat →
  (length msg - 128 * n < fuel)%nat → blake_rep msg (update_loop fuel st (drop (128 * n) msg)).
Proof.
  revert n st. induction fuel as [|fuel IH]; intros n st Hbt Hm Hn Hf; [lia|]. cbn [update_loop]. unfold BLAKE2B_CBLOCK.
  rewrite length_drop. destruct (Nat.ltb_spec 128 (length msg - 128 * n)).
  - rewrite drop_drop. replace (128 * n + 128)%nat with (128 * S n)%nat by lia.
    pose proof (between_transform msg n st (take 128 (drop (128 * n) msg)) (block_used (blake2b_transform st (take 128 (drop (128 * n) msg)) 128 false))
      Hbt ltac:(lia) Hm eq_refl) as H'. cbv zeta in H'.
    apply IH; [|done|lia|lia]. by destruct (blake2b_transform _ _ _ _).
  - destruct Hbt as [Hh Ht Hl Hb]. assert (E : rfc_full msg = n) by (apply rfc_full_eq; lia).
    destruct (put_block_ok st 0 (drop (128 * n) msg) (length msg - 128 * n)) as (H1 & H2 & H3);
      [done|done|auto with words|rewrite length_drop; lia|].
    split; rewrite E; [by split|done|]. cbn [block_used put_block]. rewrite length_drop in H3. exact H3.
Qed.

Lemma update_rep msg data st : blake_rep msg st → bytes_ok msg → bytes_ok data → blake_rep (msg ++ data) (BLAKE2B256_Update st data).
Proof.
  intros [Hbt Hu Hd] Hm Hdata. pose proof Hbt as [Hh Ht Hl Hb]. unfold BLAKE2B256_Update, BLAKE2B_CBLOCK.
  destruct (Nat.eqb_spec (length data) 0) as [H0|H0]; [destruct data; [by rewrite app_nil_r|done]|].
  set (n := rfc_full msg) in *. cbv zeta.
  assert (Hn : (128 * n ≤ length msg ≤ 128 * (n + 1))%nat).
  { destruct (decide (length msg = 0)%nat) as [E|]; [unfold n, rfc_full; rewrite E; cbn; lia|].
    pose proof (rfc_full_bound msg). fold n in H. lia. }
  set (todo := if (length data <? 128 - block_used st)%nat then length data else (128 - block_used st)%nat).
  assert (Htodo : (todo ≤ length data ∧ block_used st + todo ≤ 128 ∧ (todo = length data ∨ block_used st + todo = 128))%nat).
  { unfold todo. destruct (Nat.ltb_spec (length data) (128 - block_used st)); lia. }
  clearbody todo. set (st1 := put_block st _ _ _).
  destruct (put_block_ok st (block_used st) (take todo data) (block_used st + todo)) as (H1 & H2 & H3);
    [done|done|auto with words|rewrite length_take; lia|]. fold st1 in H1, H2, H3.
  rewrite length_take, Nat.min_l, Hd in H3 by lia.
  assert (Hbt1 : between (msg ++ data) n st1) by (split; [by rewrite rfc_chain_app by lia|done|done|done]).
  rewrite length_drop. destruct (Nat.eqb_spec (length data - todo) 0) as [Hz|Hz].
  - assert (todo = length data) as -> by lia. rewrite (take_ge data) in H3 by lia.
    assert (E : rfc_full (msg ++ data) = n) by (apply rfc_full_eq; rewrite length_app; lia).
    split; rewrite E; [done|change (block_used st1) with (block_used st + length data)%nat; rewrite length_app; lia|].
    rewrite drop_app_le by lia. exact H3.
  - assert (E : msg ++ data = (msg ++ take todo data) ++ drop todo data) by (by rewrite <- app_assoc, take_drop).
    assert (Hlen : length (msg ++ take todo data) = (128 * S n)%nat) by (rewrite length_app, length_take; lia).
    replace (drop todo data) with (drop (128 * S n) (msg ++ data)) by (rewrite E, <- Hlen; apply drop_app_length).
    apply update_loop_rep.
    + apply between_transform; [done|rewrite length_app; lia|auto with words|]. unfold rfc_block.
      rewrite drop_app_le by lia. rewrite <- (take_ge (block st1) 128) by lia.
      replace (block_used st + todo)%nat with 128%nat in H3 by lia. rewrite H3.
      rewrite <- (take_drop todo data) at 2. rewrite app_assoc. symmetry.
      rewrite take_app_le by (rewrite length_app, length_drop, length_take; lia). apply take_ge.
      rewrite length_app, length_drop, length_take. lia.
    + auto with words.
    + rewrite length_app. lia.
    + rewrite !length_app. lia.
Qed.

Lemma init_rep : blake_rep [] BLAKE2B256_Init.
Proof.
  split; [|reflexivity|reflexivity]. split; [reflexivity|split; reflexivity|reflexivity|].
  apply Forall_replicate. lia.
Qed.

Lemma updates_rep msg pieces st : blake_rep msg st → bytes_ok msg → Forall bytes_ok pieces →
  blake_rep (msg ++ concat pieces) (foldl BLAKE2B256_Update st pieces).
Proof.
  intros H Hm Hp. revert msg st H Hm. induction Hp as [|d ds Hd _ IH]; intros msg st H Hm; cbn [foldl concat].
  - by rewrite app_nil_r.
  - rewrite app_assoc. apply IH; [by apply update_rep|auto with words].
Qed.

Lemma final_rep msg st : blake_rep msg st → bytes_ok msg → BLAKE2B256_Final st = rfc_BLAKE2 32 msg.
Proof.
  intros [Hbt Hu Hd] Hm. pose proof Hbt as [Hh Ht Hl Hb]. unfold BLAKE2B256_Final, rfc_BLAKE2, BLAKE2B_CBLOCK. cbv zeta.
  set (n := rfc_full msg) in *. set (st1 := put_block _ _ _ _).
  assert (Hn : (128 * n ≤ length msg ≤ 128 * (n + 1))%nat).
  { destruct (decide (length msg = 0)%nat) as [E|]; [unfold n, rfc_full; rewrite E; cbn; lia|].
    pose proof (rfc_full_bound msg). fold n in H. lia. }
  destruct (put_block_ok st (block_used st) (replicate (128 - block_used st) 0) (block_used st)) as (H1 & H2 & H3);
    [done|done|by apply Forall_replicate; lia|rewrite length_replicate; lia|]. fold st1 in H1, H2, H3.
  rewrite length_replicate, Hd, take_ge in H3 by lia.
  change (block_used st1) with (block_used st).
  destruct (transform_F st1 (block st1) (Z.of_nat (block_used st)) true (128 * Z.of_nat n)) as (E1 & _);
    [change (h st1) with (h st); rewrite Hh; apply length_rfc_chain|done|lia|exact Ht|].
  rewrite E1. change (h st1) with (h st). rewrite Hh, H3.
  replace (128 * Z.of_nat n + Z.of_nat (block_used st)) with (Z.of_nat (length msg)) by lia.
  rewrite length_drop, Hu. reflexivity.
Qed.

(** C36: however a message is cut into calls of [BLAKE2B256_Update], empty ones
    included, the digest is BLAKE2b-256 of RFC 7693, with its 128-bit count of
    the bytes; [BLAKE2B256] is the case of one call. *)
Theorem BLAKE2B256_is_rfc7693 pieces : Forall bytes_ok pieces →
  blake2b_pieces pieces = rfc_BLAKE2 32 (concat pieces) ∧ BLAKE2B256 (concat pieces) = rfc_BLAKE2 32 (concat pieces).
Proof.
  intros Hp. split.
  - apply final_rep; [|by apply Forall_concat]. apply (updates_rep []); [apply init_rep|constructor|done].
  - apply final_rep; [|by apply Forall_concat]. apply (update_rep [] _ _ init_rep); [constructor|by apply Forall_concat].
Qed.

Lemma BLAKE2B256_is_rfc7693_witness :
  Forall bytes_ok [[97]; []; [98; 99]] ∧
  blake2b_pieces [[97]; []; [98; 99]] = rfc_BLAKE2 32 (concat [[97]; []; [98; 99]]) ∧
  BLAKE2B256 (concat [[97]; []; [98; 99]]) = rfc_BLAKE2 32 (concat [[97]; []; [98; 99]]).
Proof.
  assert (H : Forall bytes_ok [[97]; []; [98; 99]]) by (apply (bool_decide_unpack _); by vm_compute).
  split; [exact H|]. exact (BLAKE2B256_is_rfc7693 [[97]; []; [98; 99]] H).
Defined.

(** The digest of "abc" (RFC 7693 gives it for BLAKE2b-512; this is the 256-bit one). *)
Example blake2b_abc : BLAKE2B256 [97; 98; 99] =
  [189; 221; 129; 60; 99; 66; 57; 114; 49; 113; 239; 63; 238; 152; 87; 155; 148; 150; 78; 59; 177; 203; 62; 66; 114; 98; 200; 192; 104; 213; 35; 25].
Proof. vm_compute. reflexivity. Qed.
