(* ===== verification/Poly1305.v ===== *)
(** The one-time authenticator of [crypto/poly1305/poly1305.c], in its portable
    form (poly1305-donna, 26-bit limbs), which the arm64 build uses.

    The theorems relate it to the definition of RFC 8439: no carry is lost and
    each block multiplies the accumulator as it should, and the tag is that of
    the RFC however the message is cut, unless the accumulator ends in a small
    set of values: for these [CRYPTO_poly1305_finish] forgets a carry, as
    [poly1305_dropped_carry] shows on a concrete key and message. *)
From S2P Require Import Prelude Radix Words.

Definition mul32x32_64 (a b : Z) : Z := a ⊠[64] b.

Record poly1305_state_st := mkPoly1305 {
  r0 : Z; r1 : Z; r2 : Z; r3 : Z; r4 : Z;
  s1 : Z; s2 : Z; s3 : Z; s4 : Z;
  h0 : Z; h1 : Z; h2 : Z; h3 : Z; h4 : Z;
  buf : list Z;
  buf_used : nat;
  key : list Z;
}.

Definition set_h (st : poly1305_state_st) (a0 a1 a2 a3 a4 : Z) : poly1305_state_st :=
  mkPoly1305 (r0 st) (r1 st) (r2 st) (r3 st) (r4 st) (s1 st) (s2 st) (s3 st) (s4 st)
    a0 a1 a2 a3 a4 (buf st) (buf_used st) (key st).
Definition set_buf (st : poly1305_state_st) (b : list Z) (used : nat) : poly1305_state_st :=
  mkPoly1305 (r0 st) (r1 st) (r2 st) (r3 st) (r4 st) (s1 st) (s2 st) (s3 st) (s4 st)
    (h0 st) (h1 st) (h2 st) (h3 st) (h4 st) b used (key st).

(** [state->h0 += ...; ... state->h4 += (t3 >> 8) | hi;] for the 16 bytes at [mp]. *)
Definition poly1305_add (st : poly1305_state_st) (mp : list Z) (hi : Z) : poly1305_state_st :=
  let t0 := CRYPTO_load_u32_le mp in
  let t1 := CRYPTO_load_u32_le (drop 4 mp) in
  let t2 := CRYPTO_load_u32_le (drop 8 mp) in
  let t3 := CRYPTO_load_u32_le (drop 12 mp) in
  set_h st
    (h0 st ⊞[32] (t0 .& 0x3ffffff))
    (h1 st ⊞[32] ((t1 ≪[64] 32 .| t0) ≫ 26 .& 0x3ffffff))
    (h2 st ⊞[32] ((t2 ≪[64] 32 .| t1) ≫ 20 .& 0x3ffffff))
    (h3 st ⊞[32] ((t3 ≪[64] 32 .| t2) ≫ 14 .& 0x3ffffff))
    (h4 st ⊞[32] (t3 ≫ 8 .| hi)).

(** The code at the label [poly1305_donna_mul]. *)
Definition poly1305_donna_mul (st : poly1305_state_st) : poly1305_state_st :=
  let t0 := mul32x32_64 (h0 st) (r0 st) ⊞[64] mul32x32_64 (h1 st) (s4 st) ⊞[64] mul32x32_64 (h2 st) (s3 st)
            ⊞[64] mul32x32_64 (h3 st) (s2 st) ⊞[64] mul32x32_64 (h4 st) (s1 st) in
  let t1 := mul32x32_64 (h0 st) (r1 st) ⊞[64] mul32x32_64 (h1 st) (r0 st) ⊞[64] mul32x32_64 (h2 st) (s4 st)
            ⊞[64] mul32x32_64 (h3 st) (s3 st) ⊞[64] mul32x32_64 (h4 st) (s2 st) in
  let t2 := mul32x32_64 (h0 st) (r2 st) ⊞[64] mul32x32_64 (h1 st) (r1 st) ⊞[64] mul32x32_64 (h2 st) (r0 st)
            ⊞[64] mul32x32_64 (h3 st) (s4 st) ⊞[64] mul32x32_64 (h4 st) (s3 st) in
  let t3 := mul32x32_64 (h0 st) (r3 st) ⊞[64] mul32x32_64 (h1 st) (r2 st) ⊞[64] mul32x32_64 (h2 st) (r1 st)
            ⊞[64] mul32x32_64 (h3 st) (r0 st) ⊞[64] mul32x32_64 (h4 st) (s4 st) in
  let t4 := mul32x32_64 (h0 st) (r4 st) ⊞[64] mul32x32_64 (h1 st) (r3 st) ⊞[64] mul32x32_64 (h2 st) (r2 st)
            ⊞[64] mul32x32_64 (h3 st) (r1 st) ⊞[64] mul32x32_64 (h4 st) (r0 st) in
  let a0 := u32 t0 .& 0x3ffffff in
  let c := t0 ≫ 26 in
  let t1 := t1 ⊞[64] c in
  let a1 := u32 t1 .& 0x3ffffff in
  let b := u32 (t1 ≫ 26) in
  let t2 := t2 ⊞[64] b in
  let a2 := u32 t2 .& 0x3ffffff in
  let b := u32 (t2 ≫ 26) in
  let t3 := t3 ⊞[64] b in
  let a3 := u32 t3 .& 0x3ffffff in
  let b := u32 (t3 ≫ 26) in
  let t4 := t4 ⊞[64] b in
  let a4 := u32 t4 .& 0x3ffffff in
  let b := u32 (t4 ≫ 26) in
  set_h st (a0 ⊞[32] (b ⊠[32] 5)) a1 a2 a3 a4.

(** The code at [poly1305_donna_16bytes]: whole blocks while there are any.
    Each turn consumes 16 bytes, and the fuel is the length of the input. *)
Fixpoint poly1305_donna_16bytes (fuel : nat) (st : poly1305_state_st) (inp : list Z) : poly1305_state_st * list Z :=
  match fuel with
  | O => (st, inp)
  | S fuel =>
      if (16 <=? length inp)%nat then
        poly1305_donna_16bytes fuel (poly1305_donna_mul (poly1305_add st inp (1 ≪ 24))) (drop 16 inp)
      else (st, inp)
  end.

(** The code at [poly1305_donna_atmost15bytes]: [mp] is the rest of the input,
    a one and zeros. *)
Definition poly1305_donna_atmost15bytes (st : poly1305_state_st) (inp : list Z) : poly1305_state_st :=
  if (length inp =? 0)%nat then st
  else poly1305_donna_mul (poly1305_add st (inp ++ 1 :: replicate (15 - length inp) 0) 0).

Definition poly1305_update (st : poly1305_state_st) (inp : list Z) : poly1305_state_st :=
  let '(st, inp) := poly1305_donna_16bytes (length inp) st inp in
  poly1305_donna_atmost15bytes st inp.

(** [buf0] is what the memory of the state held. *)
Definition CRYPTO_poly1305_init (buf0 : list Z) (key : list Z) : poly1305_state_st :=
  let t0 := CRYPTO_load_u32_le key in
  let t1 := CRYPTO_load_u32_le (drop 4 key) in
  let t2 := CRYPTO_load_u32_le (drop 8 key) in
  let t3 := CRYPTO_load_u32_le (drop 12 key) in
  let r0 := t0 .& 0x3ffffff in
  let t0 := t0 ≫ 26 in
  let t0 := t0 .| t1 ≪[32] 6 in
  let r1 := t0 .& 0x3ffff03 in
  let t1 := t1 ≫ 20 in
  let t1 := t1 .| t2 ≪[32] 12 in
  let r2 := t1 .& 0x3ffc0ff in
  let t2 := t2 ≫ 14 in
  let t2 := t2 .| t3 ≪[32] 18 in
  let r3 := t2 .& 0x3f03fff in
  let t3 := t3 ≫ 8 in
  let r4 := t3 .& 0x00fffff in
  mkPoly1305 r0 r1 r2 r3 r4 (r1 ⊠[32] 5) (r2 ⊠[32] 5) (r3 ⊠[32] 5) (r4 ⊠[32] 5)
    0 0 0 0 0 buf0 0 (take 16 (drop 16 key)).

Definition CRYPTO_poly1305_update (st : poly1305_state_st) (inp : list Z) : poly1305_state_st :=
  if (length inp =? 0)%nat then st
  else
    let '(st, inp) :=
      if negb (buf_used st =? 0)%nat then
        let todo := (16 - buf_used st)%nat in
        let todo := if (length inp <? todo)%nat then length inp else todo in
        let st := set_buf st (list_inserts (buf_used st) (take todo inp) (buf st)) (buf_used st + todo) in
        let inp := drop todo inp in
        (if (buf_used st =? 16)%nat then
           let st := poly1305_update st (take 16 (buf st)) in set_buf st (buf st) 0
         else st, inp)
      else (st, inp) in
    let '(st, inp) :=
      if (16 <=? length inp)%nat then
        let todo := (length inp - length inp mod 16)%nat in
        (poly1305_update st (take todo inp), drop todo inp)
      else (st, inp) in
    if negb (length inp =? 0)%nat then set_buf st (list_inserts 0 inp (buf st)) (length inp) else st.

(** The carries of [CRYPTO_poly1305_finish], up to [state->h0 += b * 5;]. *)
Definition poly1305_carry (st : poly1305_state_st) : poly1305_state_st :=
  let b := h0 st ≫ 26 in
  let a0 := h0 st .& 0x3ffffff in
  let a1 := h1 st ⊞[32] b in
  let b := a1 ≫ 26 in
  let a1 := a1 .& 0x3ffffff in
  let a2 := h2 st ⊞[32] b in
  let b := a2 ≫ 26 in
  let a2 := a2 .& 0x3ffffff in
  let a3 := h3 st ⊞[32] b in
  let b := a3 ≫ 26 in
  let a3 := a3 .& 0x3ffffff in
  let a4 := h4 st ⊞[32] b in
  let b := a4 ≫ 26 in
  let a4 := a4 .& 0x3ffffff in
  set_h st (a0 ⊞[32] (b ⊠[32] 5)) a1 a2 a3 a4.

(** The selection between [h] and [g = h + 5 - 2^130]. *)
Definition poly1305_select (st : poly1305_state_st) : poly1305_state_st :=
  let g0 := h0 st ⊞[32] 5 in
  let b := g0 ≫ 26 in
  let g0 := g0 .& 0x3ffffff in
  let g1 := h1 st ⊞[32] b in
  let b := g1 ≫ 26 in
  let g1 := g1 .& 0x3ffffff in
  let g2 := h2 st ⊞[32] b in
  let b := g2 ≫ 26 in
  let g2 := g2 .& 0x3ffffff in
  let g3 := h3 st ⊞[32] b in
  let b := g3 ≫ 26 in
  let g3 := g3 .& 0x3ffffff in
  let g4 := h4 st ⊞[32] b ⊟[32] (1 ≪ 26) in
  let b := (g4 ≫ 31) ⊟[32] 1 in
  let nb := u32 (Z.lnot b) in
  set_h st (h0 st .& nb .| g0 .& b) (h1 st .& nb .| g1 .& b) (h2 st .& nb .| g2 .& b)
    (h3 st .& nb .| g3 .& b) (h4 st .& nb .| g4 .& b).

(** The sum with the second half of the key, stored into [mac]. *)
Definition poly1305_output (st : poly1305_state_st) : list Z :=
  let f0 := (h0 st .| h1 st ≪[32] 26) ⊞[64] CRYPTO_load_u32_le (key st) in
  let f1 := (h1 st ≫ 6 .| h2 st ≪[32] 20) ⊞[64] CRYPTO_load_u32_le (drop 4 (key st)) in
  let f2 := (h2 st ≫ 12 .| h3 st ≪[32] 14) ⊞[64] CRYPTO_load_u32_le (drop 8 (key st)) in
  let f3 := (h3 st ≫ 18 .| h4 st ≪[32] 8) ⊞[64] CRYPTO_load_u32_le (drop 12 (key st)) in
  let m0 := CRYPTO_store_u32_le (u32 f0) in
  let f1 := f1 ⊞[64] (f0 ≫ 32) in
  let m1 := CRYPTO_store_u32_le (u32 f1) in
  let f2 := f2 ⊞[64] (f1 ≫ 32) in
  let m2 := CRYPTO_store_u32_le (u32 f2) in
  let f3 := f3 ⊞[64] (f2 ≫ 32) in
  m0 ++ m1 ++ m2 ++ CRYPTO_store_u32_le (u32 f3).

Definition CRYPTO_poly1305_finish (st : poly1305_state_st) : list Z :=
  let st := if negb (buf_used st =? 0)%nat then poly1305_update st (take (buf_used st) (buf st)) else st in
  poly1305_output (poly1305_select (poly1305_carry st)).

(** A caller: the tag of a message given in pieces. *)
Definition poly1305_tag (buf0 key : list Z) (pieces : list (list Z)) : list Z :=
  CRYPTO_poly1305_finish (foldl CRYPTO_poly1305_update (CRYPTO_poly1305_init buf0 key) pieces).

(** ** The authenticator of RFC 8439 *)
Definition poly1305_p : Z := 2 ^ 130 - 5.
Definition blocks (msg : list Z) : list (list Z) :=
  (λ i, take 16 (drop (16 * i) msg)) <$> seq 0 ((length msg + 15) / 16).
Definition rfc_step (r a : Z) (block : list Z) : Z := (a + le_num (block ++ [1])) * r mod poly1305_p.
Definition rfc_acc (r : Z) (msg : list Z) : Z := foldl (rfc_step r) 0 (blocks msg).
Definition rfc_r (key : list Z) : Z := le_num (take 16 key) .& 0x0ffffffc0ffffffc0ffffffc0fffffff.
Definition rfc_s (key : list Z) : Z := le_num (drop 16 key).
Definition rfc_tag (key msg : list Z) : list Z :=
  num_to_le 16 ((rfc_acc (rfc_r key) msg + rfc_s key) mod 2 ^ 128).

(** The accumulators for which [CRYPTO_poly1305_finish] may lose a carry. *)
Definition carry_dropped (a : Z) : bool := (a mod 2 ^ 27 <? 5) && (2 ^ 27 <=? a) && (a <? 22 * 2 ^ 27).

(** * Limbs *)
Lemma mask26 x : x .& 0x3ffffff = x mod 2 ^ 26.
Proof. apply (Z.land_ones x 26). lia. Qed.

Lemma shr26 x : x ≫ 26 = x / 2 ^ 26.
Proof. apply Z.shiftr_div_pow2. lia. Qed.

Definition limbs (st : poly1305_state_st) : Z :=
  h0 st + 2 ^ 26 * h1 st + 2 ^ 52 * h2 st + 2 ^ 78 * h3 st + 2 ^ 104 * h4 st.
Definition rval (st : poly1305_state_st) : Z :=
  r0 st + 2 ^ 26 * r1 st + 2 ^ 52 * r2 st + 2 ^ 78 * r3 st + 2 ^ 104 * r4 st.

(** The multipliers are clamped, [s] is [5 * r]. *)
Record multipliers_ok (st : poly1305_state_st) : Prop := {
  ok_r0 : 0 <= r0 st < 2 ^ 26; ok_r1 : 0 <= r1 st < 2 ^ 26; ok_r2 : 0 <= r2 st < 2 ^ 26;
  ok_r3 : 0 <= r3 st < 2 ^ 26; ok_r4 : 0 <= r4 st < 2 ^ 20;
  ok_s1 : s1 st = 5 * r1 st; ok_s2 : s2 st = 5 * r2 st; ok_s3 : s3 st = 5 * r3 st; ok_s4 : s4 st = 5 * r4 st;
}.
(** [x0] bounds the first limb, [x] the next three and [x4] the last one. *)
Record limbs_lt (x0 x x4 : Z) (st : poly1305_state_st) : Prop := {
  ok_h0 : 0 <= h0 st < x0; ok_h1 : 0 <= h1 st < x; ok_h2 : 0 <= h2 st < x;
  ok_h3 : 0 <= h3 st < x; ok_h4 : 0 <= h4 st < x4;
}.
(** Between blocks the first limb may exceed 26 bits: the last carry of
    the multiplication is added to it and not propagated. *)
Abbreviation limbs_ok := (limbs_lt (42 * 2 ^ 26) (2 ^ 26) (2 ^ 26)).
Abbreviation limbs_added := (limbs_lt (43 * 2 ^ 26) (2 * 2 ^ 26) (3 * 2 ^ 25)).

Lemma word_piece t u n :
  in_range 32 t → in_range 32 u → 0 <= n → (u ≪[64] 32 .| t) ≫ n .& 0x3ffffff = (u * 2 ^ 32 + t) / 2 ^ n mod 2 ^ 26.
Proof.
  intros Ht Hu Hn. rewrite mask26, Z.shiftr_div_pow2 by done. do 2 f_equal.
  rewrite (wrap_small 64) by (rewrite Z.shiftl_mul_pow2 by lia; lia). by apply lor_shiftl_add.
Qed.

Lemma lor_hi t hi : in_range 32 t → hi = 0 ∨ hi = 1 ≪ 24 → t ≫ 8 .| hi = t / 2 ^ 8 + hi.
Proof.
  intros Ht Hhi. rewrite Z.shiftr_div_pow2 by lia. destruct Hhi as [->| ->].
  - rewrite Z.lor_0_r. lia.
  - rewrite Z.lor_comm, lor_shiftl_add by (lia || (split; [apply Z.div_pos; lia|apply Z.div_lt_upper_bound; lia])).
    change (1 ≪ 24) with (2 ^ 24). lia.
Qed.

Section arith.
#[local] Ltac Zify.zify_post_hook ::= Z.to_euclidean_division_equations.

(** The five pieces of a block make up the block. *)
Lemma word_pieces t0 t1 t2 t3 :
  in_range 32 t0 → in_range 32 t1 → in_range 32 t2 → in_range 32 t3 →
  t0 mod 2 ^ 26 + 2 ^ 26 * ((t1 * 2 ^ 32 + t0) / 2 ^ 26 mod 2 ^ 26) + 2 ^ 52 * ((t2 * 2 ^ 32 + t1) / 2 ^ 20 mod 2 ^ 26)
    + 2 ^ 78 * ((t3 * 2 ^ 32 + t2) / 2 ^ 14 mod 2 ^ 26) + 2 ^ 104 * (t3 / 2 ^ 8)
  = t0 + 2 ^ 32 * t1 + 2 ^ 64 * t2 + 2 ^ 96 * t3.
Proof.
  intros.
  assert ((t1 * 2 ^ 32 + t0) / 2 ^ 26 mod 2 ^ 26 = t0 / 2 ^ 26 + 2 ^ 6 * (t1 mod 2 ^ 20)) as -> by lia.
  assert ((t2 * 2 ^ 32 + t1) / 2 ^ 20 mod 2 ^ 26 = t1 / 2 ^ 20 + 2 ^ 12 * (t2 mod 2 ^ 14)) as -> by lia.
  assert ((t3 * 2 ^ 32 + t2) / 2 ^ 14 mod 2 ^ 26 = t2 / 2 ^ 14 + 2 ^ 18 * (t3 mod 2 ^ 8)) as -> by lia.
  lia.
Qed.
End arith.

Lemma add_spec st mp hi :
  bytes_ok mp → (16 ≤ length mp)%nat → hi = 0 ∨ hi = 1 ≪ 24 → limbs_ok st →
  limbs_added (poly1305_add st mp hi) ∧
  limbs (poly1305_add st mp hi) = limbs st + le_num (take 16 mp) + 2 ^ 104 * hi.
Proof.
  intros Hb Hl Hhi Hst. destruct Hst.
  pose proof (load_u32_range mp Hb) as H0'. pose proof (load_u32_range _ (bytes_ok_drop 4 _ Hb)) as H1'.
  pose proof (load_u32_range _ (bytes_ok_drop 8 _ Hb)) as H2'. pose proof (load_u32_range _ (bytes_ok_drop 12 _ Hb)) as H3'.
  pose proof (word_pieces _ _ _ _ H0' H1' H2' H3') as Hp. rewrite le_num_words by done.
  unfold limbs, poly1305_add. cbn [set_h h0 h1 h2 h3 h4].
  rewrite !word_piece, lor_hi, mask26 by (done || lia).
  set (t0 := CRYPTO_load_u32_le mp) in *. set (t1 := CRYPTO_load_u32_le (drop 4 mp)) in *.
  set (t2 := CRYPTO_load_u32_le (drop 8 mp)) in *. set (t3 := CRYPTO_load_u32_le (drop 12 mp)) in *.
  pose proof (Z.mod_pos_bound t0 (2 ^ 26) ltac:(lia)).
  pose proof (Z.mod_pos_bound ((t1 * 2 ^ 32 + t0) / 2 ^ 26) (2 ^ 26) ltac:(lia)).
  pose proof (Z.mod_pos_bound ((t2 * 2 ^ 32 + t1) / 2 ^ 20) (2 ^ 26) ltac:(lia)).
  pose proof (Z.mod_pos_bound ((t3 * 2 ^ 32 + t2) / 2 ^ 14) (2 ^ 26) ltac:(lia)).
  assert (0 <= t3 / 2 ^ 8 < 2 ^ 24) by (split; [apply Z.div_pos; lia|apply Z.div_lt_upper_bound; lia]).
  assert (hi = 0 ∨ hi = 2 ^ 24) by (destruct Hhi; auto).
  rewrite !wrap_small by lia.
  split; [constructor; cbn [set_h h0 h1 h2 h3 h4]; lia|lia].
Qed.

(** ** The multiplication *)
Lemma mul_lt a b x y : 0 <= a < x → 0 <= b < y → 0 <= a * b <= x * y.
Proof. nia. Qed.

Lemma mul5_small a0 b0 a1 b1 a2 b2 a3 b3 a4 b4 :
  0 <= a0 * b0 → 0 <= a1 * b1 → 0 <= a2 * b2 → 0 <= a3 * b3 → 0 <= a4 * b4 →
  a0 * b0 + a1 * b1 + a2 * b2 + a3 * b3 + a4 * b4 < 2 ^ 64 →
  mul32x32_64 a0 b0 ⊞[64] mul32x32_64 a1 b1 ⊞[64] mul32x32_64 a2 b2 ⊞[64] mul32x32_64 a3 b3 ⊞[64] mul32x32_64 a4 b4
  = a0 * b0 + a1 * b1 + a2 * b2 + a3 * b3 + a4 * b4.
Proof.
  intros. unfold mul32x32_64.
  rewrite (wrap_small 64 (a0 * b0)), (wrap_small 64 (a1 * b1)), (wrap_small 64 (a2 * b2)), (wrap_small 64 (a3 * b3)),
    (wrap_small 64 (a4 * b4)), (wrap_small 64 (a0 * b0 + a1 * b1)), (wrap_small 64 (a0 * b0 + a1 * b1 + a2 * b2)),
    (wrap_small 64 (a0 * b0 + a1 * b1 + a2 * b2 + a3 * b3)) by lia.
  by apply wrap_small; lia.
Qed.

Lemma carry_out t : 0 <= t < 2 ^ 58 → u32 (t ≫ 26) = t / 2 ^ 26.
Proof.
  intros. rewrite shr26. apply wrap_small.
  split; [apply Z.div_pos; lia|apply Z.div_lt_upper_bound; lia].
Qed.

Lemma carry_keep t : u32 t .& 0x3ffffff = t mod 2 ^ 26.
Proof.
  rewrite mask26. unfold wrap. change (2 ^ 32) with (2 ^ 26 * 2 ^ 6).
  by rewrite Z.rem_mul_r, Z.mul_comm, Z_mod_plus_full, Z.mod_mod by lia.
Qed.

(** The carry chain over five columns. *)
Lemma carry_chain t0 t1 t2 t3 t4 :
  0 <= t0 < 2 ^ 60 → 0 <= t1 < 2 ^ 58 - 2 ^ 34 → 0 <= t2 < 2 ^ 58 - 2 ^ 34 → 0 <= t3 < 2 ^ 58 - 2 ^ 34 → 0 <= t4 < 2 ^ 55 + 3 * 2 ^ 48 →
  let x1 := t1 ⊞[64] (t0 ≫ 26) in
  let x2 := t2 ⊞[64] u32 (x1 ≫ 26) in
  let x3 := t3 ⊞[64] u32 (x2 ≫ 26) in
  let x4 := t4 ⊞[64] u32 (x3 ≫ 26) in
  let b := u32 (x4 ≫ 26) in
  0 <= b < 2 ^ 29 + 3 * 2 ^ 22 + 2 ^ 10 ∧
  t0 mod 2 ^ 26 + 2 ^ 26 * (x1 mod 2 ^ 26) + 2 ^ 52 * (x2 mod 2 ^ 26) + 2 ^ 78 * (x3 mod 2 ^ 26) + 2 ^ 104 * (x4 mod 2 ^ 26)
  = t0 + 2 ^ 26 * t1 + 2 ^ 52 * t2 + 2 ^ 78 * t3 + 2 ^ 104 * t4 - 2 ^ 130 * b.
Proof.
  intros. pose proof (Z.div_mod t0 (2 ^ 26)). assert (0 <= t0 / 2 ^ 26 < 2 ^ 34) by (split; [apply Z.div_pos; lia|apply Z.div_lt_upper_bound; lia]).
  assert (x1 = t1 + t0 / 2 ^ 26) as E1 by (unfold x1; rewrite shr26; apply wrap_small; lia).
  assert (0 <= x1 / 2 ^ 26 < 2 ^ 32) by (split; [apply Z.div_pos; lia|apply Z.div_lt_upper_bound; lia]).
  assert (x2 = t2 + x1 / 2 ^ 26) as E2 by (unfold x2; rewrite carry_out by lia; apply wrap_small; lia).
  assert (0 <= x2 / 2 ^ 26 < 2 ^ 32) by (split; [apply Z.div_pos; lia|apply Z.div_lt_upper_bound; lia]).
  assert (x3 = t3 + x2 / 2 ^ 26) as E3 by (unfold x3; rewrite carry_out by lia; apply wrap_small; lia).
  assert (0 <= x3 / 2 ^ 26 < 2 ^ 32) by (split; [apply Z.div_pos; lia|apply Z.div_lt_upper_bound; lia]).
  assert (x4 = t4 + x3 / 2 ^ 26) as E4 by (unfold x4; rewrite carry_out by lia; apply wrap_small; lia).
  assert (b = x4 / 2 ^ 26) as Eb by (apply carry_out; lia).
  pose proof (Z.div_mod x1 (2 ^ 26)). pose proof (Z.div_mod x2 (2 ^ 26)). pose proof (Z.div_mod x3 (2 ^ 26)).
  pose proof (Z.div_mod x4 (2 ^ 26)).
  rewrite Eb. clearbody x1 x2 x3 x4 b.
  split; [split; [apply Z.div_pos; lia|apply Z.div_lt_upper_bound; lia]|lia].
Qed.

(** A column of the product, with the bounds of its factors. *)
Lemma column a0 b0 a1 b1 a2 b2 a3 b3 a4 b4 y0 y1 y2 y3 y4 m :
  0 <= a0 < 43 * 2 ^ 26 → 0 <= a1 < 2 * 2 ^ 26 → 0 <= a2 < 2 * 2 ^ 26 → 0 <= a3 < 2 * 2 ^ 26 → 0 <= a4 < 3 * 2 ^ 25 →
  0 <= b0 < y0 → 0 <= b1 < y1 → 0 <= b2 < y2 → 0 <= b3 < y3 → 0 <= b4 < y4 →
  (43 * 2 ^ 26) * y0 + (2 * 2 ^ 26) * y1 + (2 * 2 ^ 26) * y2 + (2 * 2 ^ 26) * y3 + (3 * 2 ^ 25) * y4 < m → m <= 2 ^ 64 →
  let t := a0 * b0 + a1 * b1 + a2 * b2 + a3 * b3 + a4 * b4 in
  mul32x32_64 a0 b0 ⊞[64] mul32x32_64 a1 b1 ⊞[64] mul32x32_64 a2 b2 ⊞[64] mul32x32_64 a3 b3 ⊞[64] mul32x32_64 a4 b4 = t ∧
  0 <= t < m.
Proof.
  intros A0 A1 A2 A3 A4 B0 B1 B2 B3 B4 Hm ?.
  pose proof (mul_lt _ _ _ _ A0 B0). pose proof (mul_lt _ _ _ _ A1 B1). pose proof (mul_lt _ _ _ _ A2 B2).
  pose proof (mul_lt _ _ _ _ A3 B3). pose proof (mul_lt _ _ _ _ A4 B4).
  cbv zeta. split; [apply mul5_small|]; lia.
Qed.

(** All the products and sums fit their types, so that the multiplication
    is exact: it keeps the bounds and multiplies modulo [poly1305_p]. *)
Lemma donna_mul_spec st :
  multipliers_ok st → limbs_added st →
  limbs_ok (poly1305_donna_mul st) ∧ ∃ q, limbs (poly1305_donna_mul st) = limbs st * rval st - q * poly1305_p.
Proof.
  intros [B0 B1 B2 B3 B4 S1 S2 S3 S4] [A0 A1 A2 A3 A4].
  unfold poly1305_donna_mul, limbs at 2, rval. rewrite S1, S2, S3, S4.
  set (a0 := h0 st) in *. set (a1 := h1 st) in *. set (a2 := h2 st) in *. set (a3 := h3 st) in *. set (a4 := h4 st) in *.
  set (b0 := r0 st) in *. set (b1 := r1 st) in *. set (b2 := r2 st) in *. set (b3 := r3 st) in *. set (b4 := r4 st) in *.
  assert (T1 : 0 <= 5 * b1 < 5 * 2 ^ 26) by lia. assert (T2 : 0 <= 5 * b2 < 5 * 2 ^ 26) by lia.
  assert (T3 : 0 <= 5 * b3 < 5 * 2 ^ 26) by lia. assert (T4 : 0 <= 5 * b4 < 5 * 2 ^ 20) by lia.
  clearbody a0 a1 a2 a3 a4 b0 b1 b2 b3 b4.
  destruct (column _ _ _ _ _ _ _ _ _ _ _ _ _ _ _ (2 ^ 60) A0 A1 A2 A3 A4 B0 T4 T3 T2 T1) as [E0 R0]; [lia..|].
  destruct (column _ _ _ _ _ _ _ _ _ _ _ _ _ _ _ (2 ^ 58 - 2 ^ 34) A0 A1 A2 A3 A4 B1 B0 T4 T3 T2) as [E1 R1]; [lia..|].
  destruct (column _ _ _ _ _ _ _ _ _ _ _ _ _ _ _ (2 ^ 58 - 2 ^ 34) A0 A1 A2 A3 A4 B2 B1 B0 T4 T3) as [E2 R2]; [lia..|].
  destruct (column _ _ _ _ _ _ _ _ _ _ _ _ _ _ _ (2 ^ 58 - 2 ^ 34) A0 A1 A2 A3 A4 B3 B2 B1 B0 T4) as [E3 R3]; [lia..|].
  destruct (column _ _ _ _ _ _ _ _ _ _ _ _ _ _ _ (2 ^ 55 + 3 * 2 ^ 48) A0 A1 A2 A3 A4 B4 B3 B2 B1 B0) as [E4 R4]; [lia..|].
  rewrite E0, E1, E2, E3, E4.
  pose proof (carry_chain _ _ _ _ _ R0 R1 R2 R3 R4) as Hc. cbv zeta in *. destruct Hc as [Hb Hv].
  rewrite !carry_keep.
  match type of Hb with 0 <= ?b < _ => set (c := b) in *; clearbody c end.
  rewrite (wrap_small 32 (c * 5)) by lia.
  match goal with |- context [wrap 32 (?x + _)] => set (x0 := x) in *; assert (0 <= x0 < 2 ^ 26) by (apply Z.mod_pos_bound; lia); clearbody x0 end.
  rewrite (wrap_small 32) by lia.
  unfold limbs. split.
  - constructor; cbn [set_h h0 h1 h2 h3 h4]; [lia|apply Z.mod_pos_bound; lia..].
  - exists (c + (a1 * b4 + a2 * b3 + a3 * b2 + a4 * b1) + 2 ^ 26 * (a2 * b4 + a3 * b3 + a4 * b2)
       + 2 ^ 52 * (a3 * b4 + a4 * b3) + 2 ^ 78 * (a4 * b4)).
    cbn [set_h h0 h1 h2 h3 h4]. unfold poly1305_p.
    clear - Hv. nia.
Qed.

(** * Blocks *)
Lemma blocks_app m1 m2 : (length m1 mod 16 = 0)%nat → blocks (m1 ++ m2) = blocks m1 ++ blocks m2.
Proof.
  intros H. assert (∃ n, length m1 = 16 * n)%nat as [n Hn].
  { exists (length m1 / 16)%nat. pose proof (Nat.div_mod_eq (length m1) 16). lia. }
  unfold blocks. rewrite length_app, Hn.
  replace ((16 * n + length m2 + 15) / 16)%nat with (n + (length m2 + 15) / 16)%nat.
  2: { rewrite <- Nat.add_assoc, (Nat.mul_comm 16), Nat.div_add_l; lia. }
  replace ((16 * n + 15) / 16)%nat with n by (rewrite (Nat.mul_comm 16), Nat.div_add_l; cbn; lia).
  rewrite seq_app, fmap_app. f_equal.
  - apply list_fmap_ext. intros k i [-> Hi]%lookup_seq.
    rewrite drop_app_le, take_app_le by (rewrite ?length_drop; lia). done.
  - rewrite (Nat.add_comm 0 n), <- fmap_add_seq, <- list_fmap_compose. apply list_fmap_ext. intros k i _. cbn [compose].
    rewrite drop_app_ge by lia. do 2 f_equal. lia.
Qed.

Lemma blocks_one m : (0 < length m ≤ 16)%nat → blocks m = [m].
Proof.
  intros H. unfold blocks. assert ((length m + 15) / 16 = 1)%nat as ->.
  { symmetry. apply (Nat.div_unique _ 16 1 (length m - 1)); lia. }
  change ([take 16 m] = [m]). by rewrite take_ge by lia.
Qed.

(** [st'] is [st] after the blocks [bs]. *)
Record absorbed (st : poly1305_state_st) (bs : list (list Z)) (st' : poly1305_state_st) : Prop := {
  absorbed_frame : st' = set_h st (h0 st') (h1 st') (h2 st') (h3 st') (h4 st');
  absorbed_ok : limbs_ok st';
  absorbed_val : limbs st' mod poly1305_p = foldl (rfc_step (rval st)) (limbs st mod poly1305_p) bs;
}.

Lemma multipliers_set_h st a0 a1 a2 a3 a4 : multipliers_ok st → multipliers_ok (set_h st a0 a1 a2 a3 a4).
Proof. by intros []. Qed.
#[local] Hint Resolve multipliers_set_h : words.

Lemma absorbed_multipliers st bs st' : absorbed st bs st' → multipliers_ok st → multipliers_ok st'.
Proof. intros [-> _ _]. auto with words. Qed.

Lemma absorbed_nil st : limbs_ok st → absorbed st [] st.
Proof. by destruct st. Qed.

Lemma absorbed_trans st bs1 st1 bs2 st2 : absorbed st bs1 st1 → absorbed st1 bs2 st2 → absorbed st (bs1 ++ bs2) st2.
Proof.
  intros [F1 _ V1] [F2 O2 V2]. split; [|done|].
  - by rewrite F2, F1.
  - rewrite foldl_app, <- V1, V2. by rewrite F1.
Qed.

Lemma set_h_frame st a0 a1 a2 a3 a4 b0 b1 b2 b3 b4 st' :
  st' = set_h (set_h st a0 a1 a2 a3 a4) b0 b1 b2 b3 b4 → st' = set_h st (h0 st') (h1 st') (h2 st') (h3 st') (h4 st').
Proof. by intros ->. Qed.

Lemma mul_add_frame st mp hi :
  ∃ a0 a1 a2 a3 a4 b0 b1 b2 b3 b4,
    poly1305_donna_mul (poly1305_add st mp hi) = set_h (set_h st a0 a1 a2 a3 a4) b0 b1 b2 b3 b4.
Proof. do 10 eexists. unfold poly1305_donna_mul at 1, poly1305_add at 1. reflexivity. Qed.

Lemma absorbed_block st mp hi block :
  multipliers_ok st → limbs_ok st → bytes_ok mp → (16 ≤ length mp)%nat → hi = 0 ∨ hi = 1 ≪ 24 →
  le_num (take 16 mp) + 2 ^ 104 * hi = le_num (block ++ [1]) →
  absorbed st [block] (poly1305_donna_mul (poly1305_add st mp hi)).
Proof.
  intros Hm Hl Hb Hlen Hhi Hv. destruct (add_spec st mp hi) as [Hadd Ev]; [done..|].
  destruct (donna_mul_spec (poly1305_add st mp hi)) as [Hok [q Eq]]; [by apply multipliers_set_h|done|].
  destruct (mul_add_frame st mp hi) as (?&?&?&?&?&?&?&?&?&?&Ef).
  split; [by eapply set_h_frame|done|]. cbn [foldl]. unfold rfc_step.
  rewrite Eq, Ev, <- Z.add_assoc, Hv, <- Z.add_opp_r, <- Z.mul_opp_l, Z_mod_plus_full.
  rewrite <- Z.mul_mod_idemp_l by done. rewrite <- Z.add_mod_idemp_l by done.
  by rewrite Z.mul_mod_idemp_l by done.
Qed.

Lemma donna_16bytes_spec fuel st inp :
  multipliers_ok st → limbs_ok st → bytes_ok inp → (length inp ≤ fuel)%nat →
  ∃ w rest, inp = w ++ rest ∧ (length w mod 16 = 0)%nat ∧ (length rest < 16)%nat ∧
    (poly1305_donna_16bytes fuel st inp).2 = rest ∧
    absorbed st (blocks w) (poly1305_donna_16bytes fuel st inp).1.
Proof.
  revert st inp. induction fuel as [|fuel IH]; intros st inp Hm Hl Hb Hf.
  { exists [], inp. destruct inp; [|cbn in Hf; lia]. split_and!; [done|done|cbn; lia|done|by apply absorbed_nil]. }
  cbn [poly1305_donna_16bytes]. destruct (Nat.leb_spec 16 (length inp)) as [Hn|Hn].
  2: { exists [], inp. split_and!; [done..|by apply absorbed_nil]. }
  assert (Hst : absorbed st [take 16 inp] (poly1305_donna_mul (poly1305_add st inp (1 ≪ 24)))).
  { apply absorbed_block; auto. rewrite le_num_app, length_take, Nat.min_l by lia.
    change (1 ≪ 24) with (2 ^ 24). change (le_num [1]) with 1. lia. }
  destruct (IH (poly1305_donna_mul (poly1305_add st inp (1 ≪ 24))) (drop 16 inp)) as (w&rest&E&Hw&Hr&E2&Ha).
  - by eapply absorbed_multipliers.
  - apply Hst.
  - auto with words.
  - rewrite length_drop. lia.
  - assert (length (take 16 inp) = 16%nat) by (rewrite length_take; lia).
    exists (take 16 inp ++ w), rest. split_and!; [|  |done|done|].
    + by rewrite <- app_assoc, <- E, take_drop.
    + rewrite length_app, H. change 16%nat with (1 * 16)%nat at 1. by rewrite Nat.add_comm, Nat.Div0.mod_add.
    + rewrite blocks_app by (by rewrite H). rewrite blocks_one by lia. by eapply absorbed_trans.
Qed.

(** [poly1305_update] absorbs its input, a short last block included. *)
Lemma update_spec st inp :
  multipliers_ok st → limbs_ok st → bytes_ok inp → absorbed st (blocks inp) (poly1305_update st inp).
Proof.
  intros Hm Hl Hb. unfold poly1305_update.
  destruct (donna_16bytes_spec (length inp) st inp) as (w&rest&E&Hw&Hr&E2&Ha); [done..|].
  destruct (poly1305_donna_16bytes _ _ _) as [st1 rest']. cbn [fst snd] in *. subst rest' inp.
  rewrite blocks_app by done. eapply absorbed_trans; [done|].
  apply Forall_app in Hb as [_ Hb]. unfold poly1305_donna_atmost15bytes.
  destruct (Nat.eqb_spec (length rest) 0) as [H0|H0].
  { destruct rest; [|done]. apply absorbed_nil, Ha. }
  rewrite blocks_one by lia. apply absorbed_block; auto.
  - by eapply absorbed_multipliers.
  - apply Ha.
  - apply Forall_app. split; [done|]. constructor; [lia|]. apply Forall_replicate. lia.
  - rewrite length_app. cbn [length]. rewrite length_replicate. lia.
  - rewrite firstn_all2 by (rewrite length_app; cbn [length]; rewrite length_replicate; lia).
    rewrite !le_num_app, !le_num_cons, le_num_zeros, le_num_nil. lia.
Qed.

(** * Initialisation: the clamped multiplier *)
Lemma land_split x c C :
  0 <= x → 0 <= c < 2 ^ 26 → x .& (c + 2 ^ 26 * C) = x .& c + 2 ^ 26 * ((x ≫ 26) .& C).
Proof.
  intros Hx Hc. replace (c + 2 ^ 26 * C) with (C ≪ 26 .| c) by (rewrite lor_shiftl_add by lia; lia).
  rewrite Z.land_lor_distr_r. replace (x .& C ≪ 26) with ((x ≫ 26 .& C) ≪ 26).
  - rewrite lor_shiftl_add; [lia|lia|]. rewrite Z.land_comm. by apply land_range_l.
  - rewrite Z.shiftl_land. apply Z.bits_inj'. intros i Hi. autorewrite with bits.
    destruct (Z.ltb_spec i 26).
    + rewrite (Z.testbit_neg_r C) by lia. by rewrite !andb_false_r.
    + replace (i - 26 + 26) with i by lia. destruct (0 <=? i) eqn:?, (0 <=? i - 26) eqn:?; try lia. done.
Qed.

Lemma land_low w x c : 0 <= w → c .& Z.ones w = c → (x mod 2 ^ w) .& c = x .& c.
Proof. intros Hw Hc. by rewrite <- Z.land_ones, <- Z.land_assoc, (Z.land_comm _ c), Hc by done. Qed.

Section init.
#[local] Ltac Zify.zify_post_hook ::= Z.to_euclidean_division_equations.

Lemma init_word1 t0 t1 X : in_range 32 t0 → in_range 32 t1 →
  ((t0 ≫ 26) .| t1 ≪[32] 6) = (t0 + 2 ^ 32 * t1 + 2 ^ 64 * X) / 2 ^ 26 mod 2 ^ 32.
Proof.
  intros. rewrite Z.shiftr_div_pow2, Z.lor_comm by lia. unfold wrap. rewrite Z.shiftl_mul_pow2 by lia.
  replace (t1 * 2 ^ 6 mod 2 ^ 32) with ((t1 mod 2 ^ 26) * 2 ^ 6) by lia.
  rewrite lor_mul_add by lia. lia.
Qed.
Lemma init_word2 t1 t2 X : in_range 32 t1 → in_range 32 t2 →
  ((t1 ≫ 20) .| t2 ≪[32] 12) = (t1 + 2 ^ 32 * t2 + 2 ^ 64 * X) / 2 ^ 20 mod 2 ^ 32.
Proof.
  intros. rewrite Z.shiftr_div_pow2, Z.lor_comm by lia. unfold wrap. rewrite Z.shiftl_mul_pow2 by lia.
  replace (t2 * 2 ^ 12 mod 2 ^ 32) with ((t2 mod 2 ^ 20) * 2 ^ 12) by lia.
  rewrite lor_mul_add by lia. lia.
Qed.
Lemma init_word3 t2 t3 : in_range 32 t2 → in_range 32 t3 →
  ((t2 ≫ 14) .| t3 ≪[32] 18) = (t2 + 2 ^ 32 * t3) / 2 ^ 14 mod 2 ^ 32.
Proof.
  intros. rewrite Z.shiftr_div_pow2, Z.lor_comm by lia. unfold wrap. rewrite Z.shiftl_mul_pow2 by lia.
  replace (t3 * 2 ^ 18 mod 2 ^ 32) with ((t3 mod 2 ^ 14) * 2 ^ 18) by lia.
  rewrite lor_mul_add by lia. lia.
Qed.
End init.

Lemma clamped_limbs N :
  0 <= N →
  N .& 0x0ffffffc0ffffffc0ffffffc0fffffff
  = (N .& 0x3ffffff) + 2 ^ 26 * ((N ≫ 26) .& 0x3ffff03) + 2 ^ 52 * ((N ≫ 52) .& 0x3ffc0ff)
    + 2 ^ 78 * ((N ≫ 78) .& 0x3f03fff) + 2 ^ 104 * ((N ≫ 104) .& 0x00fffff).
Proof.
  intros HN.
  change 0x0ffffffc0ffffffc0ffffffc0fffffff with
    (0x3ffffff + 2 ^ 26 * (0x3ffff03 + 2 ^ 26 * (0x3ffc0ff + 2 ^ 26 * (0x3f03fff + 2 ^ 26 * 0x00fffff)))).
  rewrite !land_split by (rewrite ?Z.shiftr_nonneg; lia).
  rewrite !Z.shiftr_shiftr by lia.
  change (26 + 26) with 52. change (52 + 26) with 78. change (78 + 26) with 104. lia.
Qed.

Lemma limb_of N a b n w c :
  0 <= a → 0 <= b → 0 <= w → n = a + b → c .& Z.ones w = c → (N / 2 ^ a / 2 ^ b mod 2 ^ w) .& c = (N ≫ n) .& c.
Proof.
  intros ? ? ? -> ?. rewrite land_low by done. rewrite Z.shiftr_div_pow2, Z.pow_add_r, Z.div_div by lia. done.
Qed.

Lemma land_bound x c w : 0 <= x → in_range w c → 0 <= w → in_range w (x .& c).
Proof. intros. rewrite Z.land_comm. by apply land_range_l. Qed.

Lemma init_limbs buf0 key :
  bytes_ok key → (16 ≤ length key)%nat →
  let N := le_num (take 16 key) in
  let st := CRYPTO_poly1305_init buf0 key in
  r0 st = N .& 0x3ffffff ∧ r1 st = (N ≫ 26) .& 0x3ffff03 ∧ r2 st = (N ≫ 52) .& 0x3ffc0ff ∧
  r3 st = (N ≫ 78) .& 0x3f03fff ∧ r4 st = (N ≫ 104) .& 0x00fffff.
Proof.
  intros Hb Hl. cbv zeta. rewrite le_num_words by done.
  pose proof (load_u32_range key Hb) as H0. pose proof (load_u32_range _ (bytes_ok_drop 4 _ Hb)) as H1.
  pose proof (load_u32_range _ (bytes_ok_drop 8 _ Hb)) as H2. pose proof (load_u32_range _ (bytes_ok_drop 12 _ Hb)) as H3.
  unfold CRYPTO_poly1305_init. cbn [r0 r1 r2 r3 r4].
  set (t0 := CRYPTO_load_u32_le key) in *. set (t1 := CRYPTO_load_u32_le (drop 4 key)) in *.
  set (t2 := CRYPTO_load_u32_le (drop 8 key)) in *. set (t3 := CRYPTO_load_u32_le (drop 12 key)) in *.
  set (N := t0 + 2 ^ 32 * t1 + 2 ^ 64 * t2 + 2 ^ 96 * t3).
  assert (E0 : t0 = N mod 2 ^ 32).
  { apply (Z.mod_unique_pos _ _ (t1 + 2 ^ 32 * t2 + 2 ^ 64 * t3)); lia. }
  assert (E1 : t1 + 2 ^ 32 * t2 + 2 ^ 64 * t3 = N / 2 ^ 32) by (apply (Z.div_unique_pos _ _ _ t0); lia).
  assert (E2 : t2 + 2 ^ 32 * t3 = N / 2 ^ 64) by (apply (Z.div_unique_pos _ _ _ (t0 + 2 ^ 32 * t1)); lia).
  assert (E3 : t3 = N / 2 ^ 96) by (apply (Z.div_unique_pos _ _ _ (t0 + 2 ^ 32 * t1 + 2 ^ 64 * t2)); lia).
  rewrite (init_word1 t0 t1 (t2 + 2 ^ 32 * t3)), (init_word2 t1 t2 t3), init_word3 by done.
  split_and!.
  - rewrite E0. by rewrite land_low.
  - replace (t0 + 2 ^ 32 * t1 + 2 ^ 64 * (t2 + 2 ^ 32 * t3)) with N by (unfold N; lia).
    rewrite <- (Z.div_1_r N) at 1. by apply (limb_of N 0 26).
  - rewrite E1. by apply (limb_of N 32 20).
  - rewrite E2. by apply (limb_of N 64 14).
  - rewrite E3, Z.shiftr_div_pow2, Z.div_div by lia. rewrite Z.shiftr_div_pow2 by lia. done.
Qed.

Lemma init_spec buf0 key :
  bytes_ok key → (16 ≤ length key)%nat →
  multipliers_ok (CRYPTO_poly1305_init buf0 key) ∧ rval (CRYPTO_poly1305_init buf0 key) = rfc_r key.
Proof.
  intros Hb Hl. destruct (init_limbs buf0 key Hb Hl) as (E0&E1&E2&E3&E4).
  pose proof (le_num_range (take 16 key) (bytes_ok_take _ _ Hb)) as [HN _].
  assert (Hs : ∀ n, 0 <= le_num (take 16 key) ≫ n) by (intros; by apply Z.shiftr_nonneg).
  set (st := CRYPTO_poly1305_init buf0 key) in *.
  assert (R0 : in_range 26 (r0 st)) by (rewrite E0; by apply land_bound).
  assert (R1 : in_range 26 (r1 st)) by (rewrite E1; by apply land_bound).
  assert (R2 : in_range 26 (r2 st)) by (rewrite E2; by apply land_bound).
  assert (R3 : in_range 26 (r3 st)) by (rewrite E3; by apply land_bound).
  assert (R4 : in_range 20 (r4 st)) by (rewrite E4; by apply land_bound).
  split.
  - split; [done..|change (s1 st) with (r1 st ⊠[32] 5)|change (s2 st) with (r2 st ⊠[32] 5)
      |change (s3 st) with (r3 st ⊠[32] 5)|change (s4 st) with (r4 st ⊠[32] 5)]; rewrite wrap_small; lia.
  - unfold rval, rfc_r. by rewrite E0, E1, E2, E3, E4, clamped_limbs.
Qed.

(** * Streaming *)

(** The state after the bytes [msg]: whole blocks are in the accumulator, the
    rest is in the buffer. *)
Record poly1305_rep (k msg : list Z) (st : poly1305_state_st) : Prop := {
  rep_multipliers : multipliers_ok st;
  rep_limbs : limbs_ok st;
  rep_r : rval st = rfc_r k;
  rep_key : key st = take 16 (drop 16 k);
  rep_buf : length (buf st) = 16%nat;
  rep_buf_bytes : bytes_ok (buf st);
  rep_used : (buf_used st < 16)%nat;
  rep_msg : ∃ w, msg = w ++ take (buf_used st) (buf st) ∧ (length w mod 16 = 0)%nat ∧
              limbs st mod poly1305_p = rfc_acc (rfc_r k) w;
}.

Lemma rep_init buf0 k :
  bytes_ok k → (16 ≤ length k)%nat → bytes_ok buf0 → length buf0 = 16%nat →
  poly1305_rep k [] (CRYPTO_poly1305_init buf0 k).
Proof.
  intros Hk Hl Hb Hlb. destruct (init_spec buf0 k Hk Hl) as [Hm Hr].
  split; [done| |done..| |by exists []]; [split; cbn; lia|cbn; lia].
Qed.

(** [poly1305_update] of whole blocks, when the buffer is empty. *)
Lemma rep_absorb k msg st w :
  poly1305_rep k msg st → buf_used st = 0%nat → bytes_ok w → (length w mod 16 = 0)%nat →
  poly1305_rep k (msg ++ w) (poly1305_update st w) ∧ buf_used (poly1305_update st w) = 0%nat.
Proof.
  intros [Hm Hl Hr Hk Hb Hbb Hu (v&->&Hv&Ha)] H0 Hw Hlw.
  destruct (update_spec st w Hm Hl Hw) as [F O V].
  split; [|by rewrite F]. rewrite H0. change (take 0 (buf st)) with (@nil Z). rewrite app_nil_r.
  split; [rewrite F; by apply multipliers_set_h|done|rewrite F; done..|].
  exists (v ++ w). rewrite F at 1 2. cbn [set_h buf_used]. rewrite H0, app_nil_r. split_and!; [done| |].
  - rewrite length_app. by rewrite Nat.Div0.add_mod, Hv, Hlw.
  - unfold rfc_acc in *. rewrite V, Hr, Ha, blocks_app, foldl_app by done. done.
Qed.

(** Bytes that go to the buffer. *)
Lemma rep_buffer k msg st d :
  poly1305_rep k msg st → bytes_ok d → (buf_used st + length d < 16)%nat →
  poly1305_rep k (msg ++ d) (set_buf st (list_inserts (buf_used st) d (buf st)) (buf_used st + length d)).
Proof.
  intros [Hm Hl Hr Hk Hb Hbb Hu (v&->&Hv&Ha)] Hd Hlt.
  split; [by destruct Hm|by destruct Hl|done|done| | |done|]; cbn [set_buf buf buf_used].
  - by rewrite length_inserts.
  - rewrite list_inserts_fit by lia. auto with words.
  - exists v. split_and!; [|done|done]. rewrite <- app_assoc. f_equal.
    rewrite list_inserts_fit by lia. rewrite app_assoc, take_app_length'; [done|].
    rewrite length_app, length_take. lia.
Qed.

(** Bytes that fill the buffer, which is then absorbed. *)
Lemma rep_fill k msg st d :
  poly1305_rep k msg st → bytes_ok d → (buf_used st + length d = 16)%nat →
  let st' := poly1305_update (set_buf st (list_inserts (buf_used st) d (buf st)) 16)
               (take 16 (list_inserts (buf_used st) d (buf st))) in
  poly1305_rep k (msg ++ d) (set_buf st' (buf st') 0).
Proof.
  intros [Hm Hl Hr Hk Hb Hbb Hu (v&->&Hv&Ha)] Hd Heq.
  assert (Ei : list_inserts (buf_used st) d (buf st) = take (buf_used st) (buf st) ++ d).
  { rewrite list_inserts_fit, drop_ge, app_nil_r by lia. done. }
  assert (Hlen : length (take (buf_used st) (buf st) ++ d) = 16%nat) by (rewrite length_app, length_take; lia).
  assert (Hok : bytes_ok (take (buf_used st) (buf st) ++ d)) by auto with words.
  rewrite Ei, (take_ge (_ ++ d)) by lia. set (w := take (buf_used st) (buf st) ++ d) in *. cbv zeta.
  destruct (update_spec (set_buf st w 16) w) as [F O V]; [by destruct Hm|by destruct Hl|done|].
  set (st' := poly1305_update (set_buf st w 16) w) in *. rewrite F.
  assert (Hm' : multipliers_ok st') by (rewrite F; by destruct Hm).
  split; cbn [set_buf buf buf_used set_h]; [by destruct Hm|by destruct O|done..|lia|].
  exists (v ++ w). split_and!.
  - by rewrite <- app_assoc, app_nil_r.
  - by rewrite length_app, Nat.Div0.add_mod, Hv, Hlen.
  - unfold rfc_acc in *. rewrite blocks_app, foldl_app, <- Ha by done. rewrite <- Hr. exact V.
Qed.

(** The part of [CRYPTO_poly1305_update] after the buffer is dealt with. *)
Lemma rep_tail k msg st inp :
  poly1305_rep k msg st → buf_used st = 0%nat → bytes_ok inp →
  poly1305_rep k (msg ++ inp)
    (let '(st, inp) :=
       if (16 <=? length inp)%nat then
         let todo := (length inp - length inp mod 16)%nat in
         (poly1305_update st (take todo inp), drop todo inp)
       else (st, inp) in
     if negb (length inp =? 0)%nat then set_buf st (list_inserts 0 inp (buf st)) (length inp) else st).
Proof.
  intros H H0 Hb.
  assert (Hlast : ∀ msg st rest, poly1305_rep k msg st → buf_used st = 0%nat → bytes_ok rest → (length rest < 16)%nat →
    poly1305_rep k (msg ++ rest)
      (if negb (length rest =? 0)%nat then set_buf st (list_inserts 0 rest (buf st)) (length rest) else st)).
  { intros msg' st' rest H' H0' Hr Hlt. destruct rest as [|x rest]; [by rewrite app_nil_r|].
    cbn [length Nat.eqb negb]. pose proof (rep_buffer k msg' st' (x :: rest) H' Hr) as Hx. rewrite H0' in Hx. by apply Hx. }
  destruct (Nat.leb_spec 16 (length inp)) as [Hn|Hn]; [|by apply Hlast].
  cbv zeta. pose proof (Nat.mod_upper_bound (length inp) 16 ltac:(lia)).
  set (todo := (length inp - length inp mod 16)%nat).
  assert (Ht : (length (take todo inp) mod 16 = 0)%nat).
  { rewrite length_take, Nat.min_l by lia. pose proof (Nat.div_mod_eq (length inp) 16).
    replace todo with (length inp / 16 * 16)%nat by lia. apply Nat.Div0.mod_mul. }
  destruct (rep_absorb k msg st (take todo inp)) as [Ha Ha']; [auto with words..|].
  rewrite <- (take_drop todo inp) at 1. rewrite app_assoc.
  apply Hlast; auto with words. rewrite length_drop. lia.
Qed.

Lemma CRYPTO_poly1305_update_rep k msg st inp :
  poly1305_rep k msg st → bytes_ok inp → poly1305_rep k (msg ++ inp) (CRYPTO_poly1305_update st inp).
Proof.
  intros H Hb. unfold CRYPTO_poly1305_update.
  destruct (Nat.eqb_spec (length inp) 0) as [E|Hn]; [destruct inp; [by rewrite app_nil_r|done]|].
  destruct (Nat.eqb_spec (buf_used st) 0) as [E|Hu]; cbn [negb]; [by apply rep_tail|].
  pose proof (rep_used _ _ _ H) as Hlt. cbv zeta.
  set (todo := if (length inp <? 16 - buf_used st)%nat then length inp else (16 - buf_used st)%nat).
  assert (Hlen : length (take todo inp) = todo).
  { rewrite length_take. unfold todo. destruct (Nat.ltb_spec (length inp) (16 - buf_used st)); lia. }
  cbn [set_buf buf_used].
  destruct (Nat.eqb_spec (buf_used st + todo) 16) as [Ef|Ef].
  - rewrite <- (take_drop todo inp) at 1. rewrite app_assoc. rewrite Ef.
    apply rep_tail; [|done|auto with words].
    apply (rep_fill k msg st (take todo inp)); [done|auto with words|lia].
  - assert (todo = length inp ∧ buf_used st + length inp < 16)%nat as [Et ?].
    { unfold todo in *. destruct (Nat.ltb_spec (length inp) (16 - buf_used st)); lia. }
    rewrite Et, drop_all. cbn [length Nat.leb Nat.eqb negb]. rewrite take_ge by lia.
    apply rep_buffer; [done..|lia].
Qed.

(** * The end: carries, selection and output *)

(** The state from which the tag is made: either all limbs have 26 bits, or
    the last carry has just overflowed the first limb. *)
Definition normal (st : poly1305_state_st) : Prop := limbs_lt (2 ^ 26) (2 ^ 26) (2 ^ 26) st.
Definition overflowed (st : poly1305_state_st) : Prop :=
  2 ^ 26 <= h0 st < 2 ^ 26 + 5 ∧ 0 <= h1 st < 42 ∧ h2 st = 0 ∧ h3 st = 0 ∧ h4 st = 0.

Section finish.
#[local] Ltac Zify.zify_post_hook ::= Z.to_euclidean_division_equations.

Lemma carry_spec st :
  limbs_ok st →
  (normal (poly1305_carry st) ∨ overflowed (poly1305_carry st)) ∧
  limbs (poly1305_carry st) mod poly1305_p = limbs st mod poly1305_p.
Proof.
  intros [H0 H1 H2 H3 H4]. unfold normal, overflowed, limbs, poly1305_carry. rewrite !shr26, !mask26.
  cbn [set_h h0 h1 h2 h3 h4].
  set (a0 := h0 st) in *. set (a1 := h1 st) in *. set (a2 := h2 st) in *. set (a3 := h3 st) in *. set (a4 := h4 st) in *.
  clearbody a0 a1 a2 a3 a4.
  rewrite (wrap_small 32 (a1 + _)) by lia. set (x1 := a1 + a0 / 2 ^ 26).
  assert (0 <= x1 < 2 ^ 26 + 42) by lia.
  rewrite (wrap_small 32 (a2 + _)) by lia. set (x2 := a2 + x1 / 2 ^ 26).
  assert (0 <= x2 <= 2 ^ 26) by lia.
  rewrite (wrap_small 32 (a3 + _)) by lia. set (x3 := a3 + x2 / 2 ^ 26).
  assert (0 <= x3 <= 2 ^ 26) by lia.
  rewrite (wrap_small 32 (a4 + _)) by lia. set (x4 := a4 + x3 / 2 ^ 26).
  assert (0 <= x4 <= 2 ^ 26) by lia.
  rewrite (wrap_small 32 (x4 / 2 ^ 26 * 5)) by lia. rewrite (wrap_small 32) by lia.
  split.
  - destruct (decide (x4 = 2 ^ 26)) as [E4|].
    + assert (x3 = 2 ^ 26) by lia. assert (x2 = 2 ^ 26) by lia. assert (2 ^ 26 <= x1) by lia.
      destruct (Z.lt_ge_cases (a0 mod 2 ^ 26 + x4 / 2 ^ 26 * 5) (2 ^ 26)); [left; constructor|right]; cbn [h0 h1 h2 h3 h4 set_h]; lia.
    + left. constructor; cbn [h0 h1 h2 h3 h4 set_h]; lia.
  - match goal with |- ?x mod _ = ?y mod _ => replace x with (y + (- (x4 / 2 ^ 26)) * poly1305_p) end.
    + apply Z_mod_plus_full.
    + unfold poly1305_p, x4, x3, x2, x1. lia.
Qed.

Lemma select_word x y b : in_range 32 x → in_range 32 y → b = 0 ∨ b = 2 ^ 32 - 1 →
  x .& u32 (Z.lnot b) .| y .& b = if b =? 0 then x else y.
Proof.
  intros Hx Hy [-> | ->].
  - change (u32 (Z.lnot 0)) with (Z.ones 32). rewrite Z.land_0_r, Z.lor_0_r, Z.land_ones by lia. by apply wrap_small.
  - change (u32 (Z.lnot (2 ^ 32 - 1))) with 0. change (2 ^ 32 - 1) with (Z.ones 32).
    rewrite Z.land_0_r, Z.lor_0_l, Z.land_ones by lia. by apply wrap_small.
Qed.

Lemma select_mask x : 0 <= x <= 2 ^ 26 →
  ((x ⊟[32] (1 ≪ 26)) ≫ 31) ⊟[32] 1 = if x <? 2 ^ 26 then 0 else 2 ^ 32 - 1.
Proof.
  intros Hx. rewrite Z.shiftr_div_pow2 by lia. change (1 ≪ 26) with (2 ^ 26). unfold wrap.
  destruct (Z.ltb_spec x (2 ^ 26)).
  - replace ((x - 2 ^ 26) mod 2 ^ 32) with (2 ^ 32 - 2 ^ 26 + x) by lia.
    replace ((2 ^ 32 - 2 ^ 26 + x) / 2 ^ 31) with 1 by lia. done.
  - by replace x with (2 ^ 26) by lia.
Qed.

Lemma select_spec st :
  normal st ∨ overflowed st →
  (normal (poly1305_select st) ∨ overflowed (poly1305_select st)) ∧
  limbs (poly1305_select st) = limbs st mod poly1305_p.
Proof.
  intros Hst. assert (H : 0 <= h0 st < 2 ^ 26 + 5 ∧ 0 <= h1 st < 2 ^ 26 ∧ 0 <= h2 st < 2 ^ 26 ∧ 0 <= h3 st < 2 ^ 26 ∧ 0 <= h4 st < 2 ^ 26).
  { destruct Hst as [[]|(?&?&?&?&?)]; lia. }
  unfold normal, overflowed, limbs, poly1305_select in *. rewrite !shr26, !mask26. cbn [set_h h0 h1 h2 h3 h4].
  assert (Hcase : h0 st < 2 ^ 26 ∨ (0 <= h1 st < 42 ∧ h2 st = 0 ∧ h3 st = 0 ∧ h4 st = 0)) by (destruct Hst as [[]|]; intuition).
  clear Hst. set (a0 := h0 st) in *. set (a1 := h1 st) in *. set (a2 := h2 st) in *. set (a3 := h3 st) in *. set (a4 := h4 st) in *.
  clearbody a0 a1 a2 a3 a4. destruct H as (H0&H1&H2&H3&H4).
  rewrite (wrap_small 32 (a0 + 5)) by lia. set (g0 := a0 + 5).
  rewrite (wrap_small 32 (a1 + _)) by lia. set (g1 := a1 + g0 / 2 ^ 26). assert (0 <= g1 <= 2 ^ 26) by lia.
  rewrite (wrap_small 32 (a2 + _)) by lia. set (g2 := a2 + g1 / 2 ^ 26). assert (0 <= g2 <= 2 ^ 26) by lia.
  rewrite (wrap_small 32 (a3 + _)) by lia. set (g3 := a3 + g2 / 2 ^ 26). assert (0 <= g3 <= 2 ^ 26) by lia.
  rewrite (wrap_small 32 (a4 + _)) by lia. set (g4 := a4 + g3 / 2 ^ 26). assert (0 <= g4 <= 2 ^ 26) by lia.
  rewrite (select_mask g4) by lia.
  assert (Hg4 : in_range 32 (g4 ⊟[32] (1 ≪ 26))) by (by apply wrap_range).
  destruct (Z.ltb_spec g4 (2 ^ 26)) as [Hlt|Hge].
  - rewrite !select_word by (lia || auto). change (0 =? 0) with true. cbv iota. split.
    + clear - Hcase H0 H1 H2 H3 H4. destruct (Z.lt_ge_cases a0 (2 ^ 26)); [left; constructor; cbn [h0 h1 h2 h3 h4 set_h]; lia|right].
      destruct Hcase; lia.
    + symmetry. apply Z.mod_small. unfold poly1305_p. unfold g4, g3, g2, g1, g0 in *. lia.
  - rewrite !select_word by (lia || auto). change (2 ^ 32 - 1 =? 0) with false. cbv iota.
    replace (g4 ⊟[32] (1 ≪ 26)) with 0 by (replace g4 with (2 ^ 26) by lia; done). split.
    + left. clear. constructor; cbn [h0 h1 h2 h3 h4 set_h]; lia.
    + apply (Z.mod_unique_pos _ _ 1); unfold poly1305_p; unfold g4, g3, g2, g1, g0 in *; lia.
Qed.

(** The addition of the four words of the key, with its carries. *)
Lemma sum_words w0 w1 w2 w3 k0 k1 k2 k3 :
  in_range 32 w0 → in_range 32 w1 → in_range 32 w2 → in_range 32 w3 →
  in_range 32 k0 → in_range 32 k1 → in_range 32 k2 → in_range 32 k3 →
  let f0 := w0 ⊞[64] k0 in
  let f1 := w1 ⊞[64] k1 ⊞[64] (f0 ≫ 32) in
  let f2 := w2 ⊞[64] k2 ⊞[64] (f1 ≫ 32) in
  let f3 := w3 ⊞[64] k3 ⊞[64] (f2 ≫ 32) in
  CRYPTO_store_u32_le (u32 f0) ++ CRYPTO_store_u32_le (u32 f1) ++ CRYPTO_store_u32_le (u32 f2) ++ CRYPTO_store_u32_le (u32 f3)
  = num_to_le 16 ((w0 + 2 ^ 32 * w1 + 2 ^ 64 * w2 + 2 ^ 96 * w3 + (k0 + 2 ^ 32 * k1 + 2 ^ 64 * k2 + 2 ^ 96 * k3)) mod 2 ^ 128).
Proof.
  intros. change (2 ^ 128) with (256 ^ Z.of_nat 16). rewrite num_to_le_mod.
  set (F := w0 + _ + _ + _ + _).
  assert (E0 : f0 = w0 + k0) by (apply wrap_small; lia).
  assert (E1 : f1 = w1 + k1 + f0 / 2 ^ 32).
  { unfold f1. rewrite Z.shiftr_div_pow2, (wrap_small 64 (w1 + k1)) by lia. apply wrap_small. lia. }
  assert (E2 : f2 = w2 + k2 + f1 / 2 ^ 32).
  { unfold f2. rewrite Z.shiftr_div_pow2, (wrap_small 64 (w2 + k2)) by lia. apply wrap_small. lia. }
  assert (E3 : f3 = w3 + k3 + f2 / 2 ^ 32).
  { unfold f3. rewrite Z.shiftr_div_pow2, (wrap_small 64 (w3 + k3)) by lia. apply wrap_small. lia. }
  clearbody f0 f1 f2 f3.
  assert (G0 : F = f0 + 2 ^ 32 * (w1 + k1) + 2 ^ 64 * (w2 + k2) + 2 ^ 96 * (w3 + k3)) by (unfold F; lia).
  assert (G1 : F / 2 ^ 32 = f1 + 2 ^ 32 * (w2 + k2) + 2 ^ 64 * (w3 + k3)) by (clearbody F; lia).
  assert (G2 : F / 2 ^ 32 / 2 ^ 32 = f2 + 2 ^ 32 * (w3 + k3)) by (rewrite G1; clearbody F; lia).
  assert (G3 : F / 2 ^ 32 / 2 ^ 32 / 2 ^ 32 = f3) by (rewrite G2; clearbody F; lia).
  change 16%nat with (4 + (4 + (4 + 4)))%nat. rewrite !num_to_le_app. change (256 ^ Z.of_nat 4) with (2 ^ 32).
  rewrite !store_u32_wrap, G3. f_equal; [|f_equal; [|f_equal]]; apply num_to_le_eq; change (256 ^ Z.of_nat 4) with (2 ^ 32).
  - rewrite G0. clear. lia.
  - rewrite G1. clear. lia.
  - rewrite G2. clear. lia.
Qed.

(** Two neighbouring limbs in one word of the output. *)
Lemma out_word a b n m :
  0 <= a < 2 ^ 26 → 0 <= b < 2 ^ 26 → 0 <= n → 0 <= m <= 26 → n + m = 26 →
  a ≫ n .| b ≪[32] m = a / 2 ^ n + 2 ^ m * (b mod 2 ^ (32 - m)).
Proof.
  intros Ha Hb Hn Hm Hnm. rewrite Z.shiftr_div_pow2, Z.lor_comm by lia. unfold wrap.
  rewrite Z.shiftl_mul_pow2 by lia. replace 32 with (32 - m + m) at 1 by lia.
  rewrite Z.pow_add_r, Zmult_mod_distr_r by lia. rewrite lor_mul_add; [lia|lia|].
  split; [apply Z.div_pos; lia|]. apply Z.div_lt_upper_bound; [lia|].
  rewrite <- Z.pow_add_r, Hnm by lia. lia.
Qed.

Lemma normal_words st :
  normal st →
  let w0 := h0 st .| h1 st ≪[32] 26 in let w1 := h1 st ≫ 6 .| h2 st ≪[32] 20 in
  let w2 := h2 st ≫ 12 .| h3 st ≪[32] 14 in let w3 := h3 st ≫ 18 .| h4 st ≪[32] 8 in
  (in_range 32 w0 ∧ in_range 32 w1 ∧ in_range 32 w2 ∧ in_range 32 w3) ∧
  w0 + 2 ^ 32 * w1 + 2 ^ 64 * w2 + 2 ^ 96 * w3 = limbs st mod 2 ^ 128.
Proof.
  intros [H0 H1 H2 H3 H4]. cbv zeta. unfold limbs.
  pose proof (out_word (h0 st) (h1 st) 0 26) as E0. rewrite Z.shiftr_0_r, Z.div_1_r in E0.
  rewrite E0, !out_word by lia. clear E0.
  change (2 ^ (32 - 26)) with (2 ^ 6). change (2 ^ (32 - 20)) with (2 ^ 12).
  change (2 ^ (32 - 14)) with (2 ^ 18). change (2 ^ (32 - 8)) with (2 ^ 24).
  split; [lia|]. apply (Z.mod_unique_pos _ _ (h4 st / 2 ^ 24)); lia.
Qed.

(** The carry out of the first limb is merged with an [|]. *)
Lemma overflowed_words st :
  overflowed st →
  let w0 := h0 st .| h1 st ≪[32] 26 in
  w0 = (if Z.odd (h1 st) then limbs st - 2 ^ 26 else limbs st) ∧ in_range 32 w0 ∧
  h1 st ≫ 6 .| h2 st ≪[32] 20 = 0 ∧ h2 st ≫ 12 .| h3 st ≪[32] 14 = 0 ∧ h3 st ≫ 18 .| h4 st ≪[32] 8 = 0.
Proof.
  intros (H0&H1&E2&E3&E4). unfold limbs. rewrite E2, E3, E4. cbv zeta.
  rewrite Z.shiftr_div_pow2, (Z.div_small (h1 st)) by lia.
  assert (forallb (λ a, forallb (λ b, a .| b ≪[32] 26 =? a + 2 ^ 26 * b - (if Z.odd b then 2 ^ 26 else 0)) (seqZ 0 42))
    (seqZ (2 ^ 26) 5) = true) as Hall by (vm_compute; done).
  pose proof (forallb_seqZ _ _ _ Hall (h0 st) ltac:(lia)) as Ha. cbv beta in Ha.
  pose proof (forallb_seqZ _ _ _ Ha (h1 st) ltac:(lia)) as Hb. cbv beta in Hb. apply Z.eqb_eq in Hb.
  rewrite Hb. clear Hall Ha Hb. destruct (Z.odd (h1 st)); split_and!; try done; lia.
Qed.
End finish.

(** The output of a state that has been reduced: its value plus the key,
    but for the carry that [poly1305_output] may lose. *)
Lemma output_spec st :
  normal st ∨ overflowed st → bytes_ok (key st) → length (key st) = 16%nat → 0 <= limbs st →
  ∃ v, poly1305_output st = num_to_le 16 ((v + le_num (key st)) mod 2 ^ 128) ∧
    (v = limbs st ∨ carry_dropped (limbs st) = true ∧ v = limbs st - 2 ^ 26).
Proof.
  intros Hst Hk Hl Hpos.
  pose proof (load_u32_range _ Hk). pose proof (load_u32_range _ (bytes_ok_drop 4 _ Hk)).
  pose proof (load_u32_range _ (bytes_ok_drop 8 _ Hk)). pose proof (load_u32_range _ (bytes_ok_drop 12 _ Hk)).
  pose proof (le_num_words (key st) Hk ltac:(lia)) as Ek. rewrite take_ge in Ek by lia. rewrite Ek.
  unfold poly1305_output. cbv zeta. destruct Hst as [Hst|Hst].
  - destruct (normal_words st Hst) as [(R0&R1&R2&R3) Ew]. cbv zeta in *.
    exists (limbs st). split; [|by left]. rewrite sum_words by done. rewrite Ew.
    by rewrite Z.add_mod_idemp_l by done.
  - destruct (overflowed_words st Hst) as (Ew&R0&E1&E2&E3). cbv zeta in *. rewrite E1, E2, E3.
    exists (h0 st .| h1 st ≪[32] 26). split.
    + rewrite sum_words by done. by rewrite !Z.mul_0_r, !Z.add_0_r.
    + rewrite Ew. destruct (Z.odd (h1 st)) eqn:Eodd; [right|by left]. split; [|done].
      destruct Hst as (H0'&H1'&Z2&Z3&Z4). apply Z.odd_spec in Eodd as [j Ej].
      unfold carry_dropped, limbs. rewrite Z2, Z3, Z4, Ej.
      replace ((_ + _ + _ + _ + _) mod 2 ^ 27) with (h0 st - 2 ^ 26); [|apply (Z.mod_unique_pos _ _ (j + 1)); lia].
      destruct (Z.ltb_spec (h0 st - 2 ^ 26) 5); [|lia]. apply andb_true_intro; split; [apply andb_true_intro; split; [done|]|];
        [apply Z.leb_le|apply Z.ltb_lt]; lia.
Qed.

Lemma finish_spec k msg st :
  poly1305_rep k msg st → bytes_ok k → length k = 32%nat →
  let a := rfc_acc (rfc_r k) msg in
  ∃ v, CRYPTO_poly1305_finish st = num_to_le 16 ((v + rfc_s k) mod 2 ^ 128) ∧
    (v = a ∨ carry_dropped a = true ∧ v = a - 2 ^ 26).
Proof.
  intros [Hm Hl Hr Hk Hb Hbb Hu (w&->&Hw&Ha)] Hkb Hkl. cbv zeta.
  assert (Hkey : key st = drop 16 k) by (rewrite Hk; apply take_ge; rewrite length_drop; lia).
  unfold CRYPTO_poly1305_finish. set (st1 := if negb (buf_used st =? 0)%nat then poly1305_update st (take (buf_used st) (buf st)) else st).
  assert (limbs_ok st1 ∧ key st1 = drop 16 k ∧
    limbs st1 mod poly1305_p = rfc_acc (rfc_r k) (w ++ take (buf_used st) (buf st))) as (Hl1&Hk1&Hv1).
  { unfold st1. destruct (Nat.eqb_spec (buf_used st) 0) as [E|_]; cbn [negb].
    - rewrite E. change (take 0 (buf st)) with (@nil Z). by rewrite app_nil_r.
    - destruct (update_spec st (take (buf_used st) (buf st))) as [F O V]; [auto with words..|].
      split_and!; [done|by rewrite F|]. unfold rfc_acc in *. by rewrite V, Hr, Ha, blocks_app, foldl_app by done. }
  destruct (carry_spec st1 Hl1) as [Hc Ec]. destruct (select_spec _ Hc) as [Hs Es]. rewrite Ec, Hv1 in Es.
  destruct (output_spec (poly1305_select (poly1305_carry st1))) as (v&Ev&Hcase); [done|..].
  - change (bytes_ok (key st1)). rewrite Hk1. auto with words.
  - change (length (key st1) = 16%nat). rewrite Hk1, length_drop. lia.
  - rewrite Es, <- Hv1. by apply Z.mod_pos_bound.
  - exists v. rewrite Es in Hcase. split; [|done]. rewrite Ev. unfold rfc_s.
    change (key (poly1305_select (poly1305_carry st1))) with (key st1). by rewrite Hk1.
Qed.

Lemma rep_pieces k msg st pieces :
  poly1305_rep k msg st → Forall bytes_ok pieces →
  poly1305_rep k (msg ++ concat pieces) (foldl CRYPTO_poly1305_update st pieces).
Proof.
  intros H Hp. revert msg st H. induction Hp as [|d ds Hd _ IH]; intros msg st H; cbn [foldl concat].
  - by rewrite app_nil_r.
  - rewrite app_assoc. apply IH. by apply CRYPTO_poly1305_update_rep.
Qed.

(** What the code keeps true of the struct: clamped multipliers, limbs within
    their bounds, less than a block in the buffer. *)
Record poly1305_ok (st : poly1305_state_st) : Prop := {
  poly1305_multipliers : multipliers_ok st;
  poly1305_limbs : limbs_ok st;
  poly1305_buf : length (buf st) = 16%nat;
  poly1305_buf_used : (buf_used st < 16)%nat;
}.

(** ** Results *)

(** C16: however the message is cut, the tag is that of RFC 8439; the one
    exception are the accumulators of [carry_dropped], a small number above
    a multiple of 2^27, for which the tag may be that of the accumulator less
    2^26. *)
Theorem poly1305_tag_spec buf0 k pieces :
  bytes_ok k → length k = 32%nat → bytes_ok buf0 → length buf0 = 16%nat → Forall bytes_ok pieces →
  let msg := concat pieces in
  let a := rfc_acc (rfc_r k) msg in
  poly1305_tag buf0 k pieces = rfc_tag k msg ∨
  carry_dropped a = true ∧ poly1305_tag buf0 k pieces = num_to_le 16 ((a - 2 ^ 26 + rfc_s k) mod 2 ^ 128).
Proof.
  intros Hk Hl Hb Hlb Hp. cbv zeta.
  assert (Hr : poly1305_rep k [] (CRYPTO_poly1305_init buf0 k)) by (apply rep_init; [done|lia|done..]).
  apply (rep_pieces _ _ _ pieces) in Hr; [|done].
  destruct (finish_spec _ _ _ Hr Hk Hl) as (v&E&[->|[? ->]]); [left|right]; done.
Qed.

(** A key and a message for which the carry is lost. *)
Definition dropped_carry_key : list Z := be_bytes 32 0xc544dd616e3aad8ce7b93c6cd4e9aebf1d3fc491a1c785c971b50feaa312ee5b.
Definition dropped_carry_msg : list Z := be_bytes 16 0x9b159ffae7015064b522d52e913844f5.

Lemma poly1305_dropped_carry :
  poly1305_tag (replicate 16 0) dropped_carry_key [dropped_carry_msg] = be_bytes 16 0x1e3fc495a1c785c971b50feaa312ee5b ∧
  rfc_tag dropped_carry_key dropped_carry_msg = be_bytes 16 0x1e3fc499a1c785c971b50feaa312ee5b.
Proof. by vm_compute. Qed.

(** The test vector of RFC 8439, 2.5.2, given in three pieces. *)
Definition rfc_example_key : list Z := be_bytes 32 0x85d6be7857556d337f4452fe42d506a80103808afb0db2fd4abff6af4149f51b.
Definition rfc_example_msg : list Z := be_bytes 34 0x43727970746f6772617068696320466f72756d2052657365617263682047726f7570.

Lemma rfc_example_tag :
  poly1305_tag (replicate 16 0) rfc_example_key [take 5 rfc_example_msg; []; drop 5 rfc_example_msg]
  = be_bytes 16 0xa8061dc1305136c6c22b8baf0c0127a9.
Proof. by vm_compute. Qed.

Lemma poly1305_tag_spec_witness :
  let pieces := [take 5 rfc_example_msg; drop 5 rfc_example_msg] in
  let a := rfc_acc (rfc_r rfc_example_key) (concat pieces) in
  poly1305_tag (replicate 16 0) rfc_example_key pieces = rfc_tag rfc_example_key (concat pieces) ∨
  carry_dropped a = true ∧
  poly1305_tag (replicate 16 0) rfc_example_key pieces = num_to_le 16 ((a - 2 ^ 26 + rfc_s rfc_example_key) mod 2 ^ 128).
Proof. cbv zeta. apply poly1305_tag_spec; (done || by apply (bool_decide_unpack _); vm_compute). Defined.
