(* ===== verification/Chacha.v ===== *)
(** ChaCha20 ([crypto/chacha/chacha.c]), in both of its forms: the portable
    one, and the one that calls an assembly routine for runs of blocks in
    which the 32-bit counter does not wrap.  The routine is a parameter. *)
From S2P Require Import Prelude Radix Cbs Words.

Definition sigma : list Z := [101; 120; 112; 97; 110; 100; 32; 51; 50; 45; 98; 121; 116; 101; 32; 107].

(** [x[i]] *)
Definition word (x : list Z) (i : nat) : Z := nth i x 0.

Definition QUARTERROUND (a b c d : nat) (x : list Z) : list Z :=
  let x := <[a := word x a ⊞[32] word x b]> x in
  let x := <[d := CRYPTO_rotl_u32 (word x d .^ word x a) 16]> x in
  let x := <[c := word x c ⊞[32] word x d]> x in
  let x := <[b := CRYPTO_rotl_u32 (word x b .^ word x c) 12]> x in
  let x := <[a := word x a ⊞[32] word x b]> x in
  let x := <[d := CRYPTO_rotl_u32 (word x d .^ word x a) 8]> x in
  let x := <[c := word x c ⊞[32] word x d]> x in
  <[b := CRYPTO_rotl_u32 (word x b .^ word x c) 7]> x.

(** The body of the loops of [chacha_core] and [CRYPTO_hchacha20]. *)
Definition double_round (x : list Z) : list Z :=
  let x := QUARTERROUND 0 4 8 12 x in
  let x := QUARTERROUND 1 5 9 13 x in
  let x := QUARTERROUND 2 6 10 14 x in
  let x := QUARTERROUND 3 7 11 15 x in
  let x := QUARTERROUND 0 5 10 15 x in
  let x := QUARTERROUND 1 6 11 12 x in
  let x := QUARTERROUND 2 7 8 13 x in
  QUARTERROUND 3 4 9 14 x.
Definition chacha_rounds (x : list Z) : list Z := Nat.iter 10 double_round x.

(** [memcpy] of [n] words. *)
Definition load_words (n : nat) (bytes : list Z) : list Z := (λ i, CRYPTO_load_u32_le (drop (4 * i) bytes)) <$> seq 0 n.
Definition store_words (x : list Z) : list Z := concat (CRYPTO_store_u32_le <$> x).

Definition CRYPTO_hchacha20 (key nonce : list Z) : list Z :=
  let x := chacha_rounds (load_words 4 sigma ++ load_words 8 key ++ load_words 4 nonce) in
  store_words (take 4 x) ++ store_words (take 4 (drop 12 x)).

Definition chacha_core (input : list Z) : list Z :=
  let x := chacha_rounds input in
  store_words ((λ i, word x i ⊞[32] word input i) <$> seq 0 16).

(** [for (i = 0; i < todo; i++) out[i] = in[i] ^ buf[i];] *)
Definition xor_block (inp buf : list Z) : list Z := zip_with Z.lxor inp buf.

Definition chacha_input (key nonce : list Z) (counter : Z) : list Z :=
  load_words 4 sigma ++ load_words 8 key ++ [counter] ++ load_words 3 nonce.

(** [while (in_len > 0)]; each turn consumes a byte or more. *)
Fixpoint chacha_loop (fuel : nat) (input inp : list Z) : list Z :=
  match fuel with
  | O => []
  | S fuel =>
      if (0 <? length inp)%nat then
        let todo := if (length inp <? 64)%nat then length inp else 64%nat in
        let buf := chacha_core input in
        xor_block (take todo inp) buf ++
          chacha_loop fuel (<[12%nat := word input 12 ⊞[32] 1]> input) (drop todo inp)
      else []
  end.

(** The portable form. *)
Definition CRYPTO_chacha_20 (inp key nonce : list Z) (counter : Z) : list Z :=
  chacha_loop (length inp) (chacha_input key nonce counter) inp.

(** ** The form with an assembly routine *)
Section asm.
(** [ChaCha20_ctr32(out, in, in_len, key, counter)] *)
Context (ChaCha20_ctr32 : list Z → list Z → list Z → list Z).

(** [while (in_len > 0)]: at most one turn ends where the counter wraps for
    every 2^38 bytes, and a turn consumes a byte or more. *)
Fixpoint chacha_asm_loop (fuel : nat) (counter_nonce key_words inp : list Z) : list Z :=
  match fuel with
  | O => []
  | S fuel =>
      if (0 <? length inp)%nat then
        let todo := 64 ⊠[64] (2 ^ 32 - word counter_nonce 0) in
        let todo := if todo >? CBS_len inp then CBS_len inp else todo in
        ChaCha20_ctr32 (take (Z.to_nat todo) inp) key_words counter_nonce ++
          chacha_asm_loop fuel (<[0%nat := 0]> counter_nonce) key_words (drop (Z.to_nat todo) inp)
      else []
  end.

Definition CRYPTO_chacha_20_asm (inp key nonce : list Z) (counter : Z) : list Z :=
  chacha_asm_loop (length inp) ([counter] ++ load_words 3 nonce) (load_words 8 key) inp.
End asm.

(** ** Counter mode

    Block [i] of the key stream is [block i]; the stream covers the input. *)
Definition keystream (block : nat → list Z) (len : nat) : list Z := concat (block <$> seq 0 ((len + 63) / 64)).
Definition ctr_xor (block : nat → list Z) (inp : list Z) : list Z := xor_block inp (keystream block (length inp)).

(** The block function of RFC 8439 for a key, a nonce and a counter. *)
Definition rfc_block (key_words nonce_words : list Z) (counter : Z) (i : nat) : list Z :=
  chacha_core (load_words 4 sigma ++ key_words ++ [u32 (counter + Z.of_nat i)] ++ nonce_words).

Lemma length_load_words n l : length (load_words n l) = n.
Proof. unfold load_words. by rewrite length_fmap, length_seq. Qed.

Lemma length_store_words x : length (store_words x) = (4 * length x)%nat.
Proof. unfold store_words. induction x as [|v x IH]; [done|]. cbn [fmap list_fmap concat]. rewrite length_app, IH. cbn. lia. Qed.

Lemma length_chacha_core input : length (chacha_core input) = 64%nat.
Proof. unfold chacha_core. by rewrite length_store_words, length_fmap, length_seq. Qed.

Section ctr.
Context (block : nat → list Z) (Hblock : ∀ i, length (block i) = 64%nat).

Lemma length_blocks n k : length (concat (block <$> seq k n)) = (64 * n)%nat.
Proof.
  revert k. induction n as [|n IH]; intros k; [done|]. cbn [seq fmap list_fmap concat].
  rewrite length_app, Hblock. fold (block <$> seq (S k) n). rewrite IH. lia.
Qed.

Lemma ctr_xor_nil : ctr_xor block [] = [].
Proof. done. Qed.

(** A prefix of whole blocks, then the rest with the counter moved on. *)
Lemma ctr_xor_app n a b :
  length a = (64 * n)%nat → ctr_xor block (a ++ b) = ctr_xor block a ++ ctr_xor (λ i, block (n + i)%nat) b.
Proof.
  intros Ha. unfold ctr_xor, keystream, xor_block. rewrite length_app, Ha.
  replace ((64 * n + length b + 63) / 64)%nat with (n + (length b + 63) / 64)%nat.
  2: { rewrite <- Nat.add_assoc, (Nat.mul_comm 64), Nat.div_add_l; lia. }
  replace ((64 * n + 63) / 64)%nat with n by (rewrite (Nat.mul_comm 64), Nat.div_add_l; cbn; lia).
  rewrite seq_app, fmap_app, concat_app, zip_with_app by by rewrite length_blocks.
  rewrite (Nat.add_comm 0 n), <- fmap_add_seq, <- list_fmap_compose. done.
Qed.

(** At most one block. *)
Lemma ctr_xor_one a : (0 < length a ≤ 64)%nat → ctr_xor block a = xor_block a (block 0%nat).
Proof.
  intros Ha. unfold ctr_xor, keystream. replace ((length a + 63) / 64)%nat with 1%nat.
  - cbn [seq fmap list_fmap concat]. by rewrite app_nil_r.
  - apply (Nat.div_unique _ 64 1 (length a - 1)); lia.
Qed.

Lemma length_ctr_xor a : length (ctr_xor block a) = length a.
Proof.
  unfold ctr_xor, xor_block, keystream. rewrite length_zip_with, length_blocks.
  pose proof (Nat.div_mod_eq (length a + 63) 64). pose proof (Nat.mod_upper_bound (length a + 63) 64). lia.
Qed.

(** Encryption is its own inverse. *)
Lemma ctr_xor_involutive a : ctr_xor block (ctr_xor block a) = a.
Proof.
  unfold ctr_xor at 1. rewrite length_ctr_xor. unfold ctr_xor, xor_block.
  assert (Hk : (length a ≤ length (keystream block (length a)))%nat).
  { unfold keystream. rewrite length_blocks. pose proof (Nat.div_mod_eq (length a + 63) 64).
    pose proof (Nat.mod_upper_bound (length a + 63) 64). lia. }
  revert Hk. generalize (keystream block (length a)). induction a as [|x a IH]; intros [|k ks] Hk; try done; [cbn in Hk; lia|].
  cbn [zip_with]. rewrite Z.lxor_assoc, Z.lxor_nilpotent, Z.lxor_0_r. f_equal. apply IH. cbn in Hk. lia.
Qed.
End ctr.

Lemma ctr_xor_ext f g a : (∀ i, f i = g i) → ctr_xor f a = ctr_xor g a.
Proof. intros Hfg. unfold ctr_xor, keystream. do 2 f_equal. by apply list_fmap_ext. Qed.

Lemma rfc_block_shift kw nw c n i : rfc_block kw nw (u32 (c + Z.of_nat n)) i = rfc_block kw nw c (n + i).
Proof.
  unfold rfc_block. replace (u32 (u32 (c + Z.of_nat n) + Z.of_nat i)) with (u32 (c + Z.of_nat (n + i))); [reflexivity|].
  unfold wrap. rewrite Zplus_mod_idemp_l. f_equal. lia.
Qed.

Lemma length_rfc_block kw nw c i : length (rfc_block kw nw c i) = 64%nat.
Proof. apply length_chacha_core. Qed.

(** ** The portable form *)
Lemma chacha_loop_spec fuel kw nw c inp :
  length kw = 8%nat → in_range 32 c → (length inp ≤ fuel)%nat →
  chacha_loop fuel (load_words 4 sigma ++ kw ++ [c] ++ nw) inp = ctr_xor (rfc_block kw nw c) inp.
Proof.
  intros Hkw. revert c inp. induction fuel as [|fuel IH]; intros c inp Hc Hf; [destruct inp; [done|cbn in Hf; lia]|].
  cbn [chacha_loop]. destruct (Nat.ltb_spec 0 (length inp)) as [Hn|Hn]; [|by destruct inp; [|cbn in Hn; lia]].
  set (todo := if (length inp <? 64)%nat then length inp else 64%nat).
  assert (Hkey : ∀ v, <[12%nat := v]> (load_words 4 sigma ++ kw ++ [c] ++ nw) = load_words 4 sigma ++ kw ++ [v] ++ nw).
  { intros v. rewrite !(app_assoc (load_words 4 sigma) kw). rewrite insert_app_r_alt by (rewrite length_app, length_load_words, Hkw; lia).
    rewrite length_app, length_load_words, Hkw. done. }
  assert (Hw : word (load_words 4 sigma ++ kw ++ [c] ++ nw) 12 = c).
  { unfold word. rewrite app_assoc, app_nth2; rewrite length_app, length_load_words, Hkw; [done|lia]. }
  rewrite Hkey, Hw. rewrite IH; [|by apply wrap_range|rewrite length_drop; unfold todo; destruct (Nat.ltb_spec (length inp) 64); lia].
  assert (E0 : chacha_core (load_words 4 sigma ++ kw ++ [c] ++ nw) = rfc_block kw nw c 0).
  { unfold rfc_block. by rewrite Z.add_0_r, wrap_small. }
  rewrite E0. unfold todo. destruct (Nat.ltb_spec (length inp) 64).
  - rewrite take_ge, drop_ge, ctr_xor_nil, app_nil_r, ctr_xor_one by lia. done.
  - replace (ctr_xor (rfc_block kw nw c) inp) with (ctr_xor (rfc_block kw nw c) (take 64 inp ++ drop 64 inp)) by by rewrite take_drop.
    assert (Hl : length (take 64 inp) = 64%nat) by (rewrite length_take; lia).
    rewrite (ctr_xor_app _ (length_rfc_block _ _ _) 1) by done. rewrite (ctr_xor_one (rfc_block kw nw c) (take 64 inp)) by (rewrite Hl; lia). apply (f_equal (app _)).
    apply ctr_xor_ext. intros i. exact (rfc_block_shift kw nw c 1 i).
Qed.

Lemma chacha_20_spec inp key nonce counter :
  in_range 32 counter →
  CRYPTO_chacha_20 inp key nonce counter = ctr_xor (rfc_block (load_words 8 key) (load_words 3 nonce) counter) inp.
Proof. intros Hc. apply chacha_loop_spec; [apply length_load_words|done|lia]. Qed.

(** ** The form with an assembly routine

    What chacha/internal.h promises of the routine: it encrypts in counter
    mode, as long as the counter does not overflow. *)
Section asm_proofs.
Context (ChaCha20_ctr32 : list Z → list Z → list Z → list Z).
Context (Hctr32 : ∀ inp kw c nw, inp ≠ [] → in_range 32 c → CBS_len inp <= 64 * (2 ^ 32 - c) →
  ChaCha20_ctr32 inp kw ([c] ++ nw) = ctr_xor (rfc_block kw nw c) inp).

Lemma chacha_asm_loop_spec fuel kw nw c inp :
  in_range 32 c → CBS_len inp < 2 ^ 64 → (length inp ≤ fuel)%nat →
  chacha_asm_loop ChaCha20_ctr32 fuel ([c] ++ nw) kw inp = ctr_xor (rfc_block kw nw c) inp.
Proof using Hctr32.
  revert c inp. induction fuel as [|fuel IH]; intros c inp Hc Hsz Hf; [destruct inp; [done|cbn in Hf; lia]|].
  cbn [chacha_asm_loop]. destruct (Nat.ltb_spec 0 (length inp)) as [Hn|Hn]; [|by destruct inp; [|cbn in Hn; lia]].
  change (word ([c] ++ nw) 0) with c. rewrite wrap_small by lia. change (<[0%nat := 0]> ([c] ++ nw)) with ([0] ++ nw).
  unfold CBS_len in Hsz |- *. set (n := Z.to_nat (2 ^ 32 - c)).
  destruct (Z.gtb_spec (64 * (2 ^ 32 - c)) (Z.of_nat (length inp))) as [Hle|Hgt].
  - rewrite Nat2Z.id, take_ge, drop_ge by lia. rewrite Hctr32; [|intros ->; cbn in Hn; lia|done|unfold CBS_len; lia].
    rewrite IH; [by rewrite ctr_xor_nil, app_nil_r|lia|done|cbn; lia].
  - assert (En : Z.to_nat (64 * (2 ^ 32 - c)) = (64 * n)%nat) by (unfold n; lia). rewrite En.
    assert (Hl : length (take (64 * n) inp) = (64 * n)%nat) by (rewrite length_take; lia).
    assert (Hpos : (0 < n)%nat) by (unfold n; lia).
    rewrite Hctr32; [|intros E; rewrite E in Hl; cbn in Hl; lia|done|unfold CBS_len; rewrite Hl; unfold n; lia].
    rewrite IH; [|lia|unfold CBS_len; rewrite length_drop; lia|rewrite length_drop; lia].
    replace (ctr_xor (rfc_block kw nw c) inp) with (ctr_xor (rfc_block kw nw c) (take (64 * n) inp ++ drop (64 * n) inp)) by by rewrite take_drop.
    rewrite (ctr_xor_app _ (length_rfc_block _ _ _) n) by done. apply (f_equal (app _)), ctr_xor_ext. intros i.
    rewrite <- rfc_block_shift. replace (u32 (c + Z.of_nat n)) with 0; [done|]. unfold n. rewrite Z2Nat.id by lia.
    unfold wrap. replace (c + (2 ^ 32 - c)) with (1 * 2 ^ 32) by lia. by rewrite Z.mod_mul.
Qed.

(** Both forms of [CRYPTO_chacha_20] encrypt in counter mode with the
    block function of RFC 8439, whose counter wraps at 2^32, whatever the
    length of the input; decryption is the same function. *)
Theorem CRYPTO_chacha_20_forms (inp key nonce : list Z) (counter : Z)
    (Hc : in_range 32 counter) (Hlen : CBS_len inp < 2 ^ 64) :
  let block := rfc_block (load_words 8 key) (load_words 3 nonce) counter in
  CRYPTO_chacha_20 inp key nonce counter = ctr_xor block inp ∧
  CRYPTO_chacha_20_asm ChaCha20_ctr32 inp key nonce counter = ctr_xor block inp ∧
  CRYPTO_chacha_20 (CRYPTO_chacha_20 inp key nonce counter) key nonce counter = inp.
Proof using Hctr32.
  split_and!.
  - by apply chacha_20_spec.
  - by apply chacha_asm_loop_spec.
  - rewrite !chacha_20_spec by done. apply ctr_xor_involutive, length_rfc_block.
Qed.
End asm_proofs.

(** The routine as the documentation describes it. *)
Definition demo_ctr32 (inp kw counter_nonce : list Z) : list Z := ctr_xor (rfc_block kw (drop 1 counter_nonce) (word counter_nonce 0)) inp.

Lemma CRYPTO_chacha_20_forms_witness :
  let inp := seqZ 0 100 in let key := seqZ 0 32 in let nonce := seqZ 0 12 in
  let block := rfc_block (load_words 8 key) (load_words 3 nonce) (2 ^ 32 - 1) in
  CRYPTO_chacha_20 inp key nonce (2 ^ 32 - 1) = ctr_xor block inp ∧
  CRYPTO_chacha_20_asm demo_ctr32 inp key nonce (2 ^ 32 - 1) = ctr_xor block inp ∧
  CRYPTO_chacha_20 (CRYPTO_chacha_20 inp key nonce (2 ^ 32 - 1)) key nonce (2 ^ 32 - 1) = inp.
Proof. apply (CRYPTO_chacha_20_forms demo_ctr32); [done|lia|done]. Defined.

(** The example of RFC 8439, 2.3.2: the first bytes of a block. *)
Lemma chacha_example :
  take 8 (CRYPTO_chacha_20 (replicate 64 0) (seqZ 0 32) [0; 0; 0; 9; 0; 0; 0; 0x4a; 0; 0; 0; 0] 1)
  = [0x10; 0xf1; 0xe7; 0xe4; 0xd1; 0x3b; 0x59; 0x15].
Proof. by vm_compute. Qed.

(** HChaCha20, the example of draft-irtf-cfrg-xchacha, 2.2.1. *)
Lemma hchacha_example :
  take 8 (CRYPTO_hchacha20 (seqZ 0 32) [0; 0; 0; 9; 0; 0; 0; 0x4a; 0; 0; 0; 0; 0x31; 0x41; 0x59; 0x27])
  = [0x82; 0x41; 0x3b; 0x42; 0x27; 0xb2; 0x7b; 0xfe].
Proof. by vm_compute. Qed.
