(* ===== verification/Rc4.v ===== *)
(** RC4 ([crypto/rc4/rc4.c]). *)
From S2P Require Import Prelude Cbs ConstTime.

Record RC4_KEY := mkRc4 { x : Z; y : Z; data : list Z }.

(** [d[i]] for an index that has been masked to a byte. *)
Definition at_byte (d : list Z) (i : Z) : Z := nth (Z.to_nat i) d 0.
Definition put_byte (d : list Z) (i v : Z) : list Z := <[Z.to_nat i := v]> d.

(** The body of the loop of [RC4]: the state and the byte of output. *)
Definition rc4_byte (key : RC4_KEY) (b : Z) : RC4_KEY * Z :=
  let x := (x key ⊞[32] 1) .& 0xff in
  let tx := at_byte (data key) x in
  let y := (tx ⊞[32] y key) .& 0xff in
  let ty := at_byte (data key) y in
  let d := put_byte (data key) x ty in
  let d := put_byte d y tx in
  (mkRc4 x y d, at_byte d ((tx ⊞[32] ty) .& 0xff) .^ b).

(** [for (i = 0; i < len; i++)] *)
Fixpoint RC4 (key : RC4_KEY) (inp : list Z) : RC4_KEY * list Z :=
  match inp with
  | [] => (key, [])
  | b :: inp =>
      let '(key, o) := rc4_byte key b in
      let '(key, out) := RC4 key inp in
      (key, o :: out)
  end.

(** The body of the second loop of [RC4_set_key]: [id1], [id2] and [d]. *)
Definition rc4_key_step (key : list Z) (len : Z) (s : Z * Z * list Z) (i : Z) : Z * Z * list Z :=
  let '(id1, id2, d) := s in
  let tmp := at_byte d i in
  let id2 := (at_byte key id1 ⊞[32] tmp ⊞[32] id2) .& 0xff in
  let id1 := id1 ⊞[32] 1 in
  let id1 := if id1 =? len then 0 else id1 in
  (id1, id2, put_byte (put_byte d i (at_byte d id2)) id2 tmp).

Definition RC4_set_key (len : Z) (key : list Z) : RC4_KEY :=
  let d := seqZ 0 256 in
  let '(_, _, d) := foldl (rc4_key_step key len) (0, 0, d) (seqZ 0 256) in
  mkRc4 0 0 d.

(** ** The state is a permutation of the bytes *)
Record rc4_ok (key : RC4_KEY) : Prop := {
  rc4_x : is_byte (x key);
  rc4_y : is_byte (y key);
  rc4_data : data key ≡ₚ seqZ 0 256;
}.

Lemma masked_byte v : is_byte (v .& 0xff).
Proof. change 0xff with (Z.ones 8). rewrite Z.land_ones by lia. apply Z.mod_pos_bound. lia. Qed.

Lemma permutation_length d : d ≡ₚ seqZ 0 256 → length d = 256%nat.
Proof. intros ->. by rewrite length_seqZ. Qed.

Lemma at_byte_lookup d i : length d = 256%nat → is_byte i → d !! Z.to_nat i = Some (at_byte d i).
Proof.
  intros Hl Hi. unfold at_byte. destruct (nth_lookup_or_length d (Z.to_nat i) 0) as [E|E]; [done|lia].
Qed.

(** Exchanging two elements of a list. *)
Lemma swap_Permutation (d : list Z) (i j : nat) (a b : Z) :
  d !! i = Some a → d !! j = Some b → <[j := a]> (<[i := b]> d) ≡ₚ d.
Proof.
  intros Hi Hj. destruct (decide (i = j)) as [->|Hne].
  - assert (a = b) as -> by congruence. by rewrite !list_insert_id by (rewrite ?list_insert_id; done).
  - assert (Hj' : <[i := b]> d !! j = Some b) by by rewrite list_lookup_insert_ne.
    pose proof (lookup_lt_Some _ _ _ Hi). pose proof (lookup_lt_Some _ _ _ Hj').
    rewrite (insert_take_drop _ j), <- Permutation_middle by done.
    assert (E1 : <[i := b]> d ≡ₚ b :: (take j (<[i := b]> d) ++ drop (S j) (<[i := b]> d))).
    { rewrite Permutation_middle. by rewrite (take_drop_middle _ _ _ Hj'). }
    apply (Permutation_cons_inv (a := b)). rewrite perm_swap, <- E1.
    rewrite insert_take_drop, <- Permutation_middle by done. rewrite perm_swap. apply perm_skip.
    rewrite Permutation_middle. by rewrite (take_drop_middle _ _ _ Hi).
Qed.

Lemma swap_ok d i j : d ≡ₚ seqZ 0 256 → is_byte i → is_byte j →
  put_byte (put_byte d i (at_byte d j)) j (at_byte d i) ≡ₚ seqZ 0 256.
Proof.
  intros Hd Hi Hj. pose proof (permutation_length d Hd). etrans; [|exact Hd]. unfold put_byte.
  apply swap_Permutation; by apply at_byte_lookup.
Qed.

Lemma at_byte_range d i : d ≡ₚ seqZ 0 256 → is_byte i → is_byte (at_byte d i).
Proof.
  intros Hd Hi. pose proof (at_byte_lookup d i (permutation_length d Hd) Hi) as Hl.
  apply list_elem_of_lookup_2 in Hl. revert Hl. generalize (at_byte d i). intros v Hv. rewrite Hd in Hv. apply elem_of_seqZ in Hv. lia.
Qed.

Lemma rc4_byte_ok key b : rc4_ok key → is_byte b → rc4_ok (rc4_byte key b).1 ∧ is_byte (rc4_byte key b).2.
Proof.
  intros [Hx Hy Hd] Hb. unfold rc4_byte. cbn [fst snd].
  set (i := (x key ⊞[32] 1) .& 0xff). set (j := (at_byte (data key) i ⊞[32] y key) .& 0xff).
  assert (Hi : is_byte i) by apply masked_byte. assert (Hj : is_byte j) by apply masked_byte.
  pose proof (swap_ok _ _ _ Hd Hi Hj) as Hs. split; [split; done|].
  apply (lxor_range 8); [lia| |lia]. apply at_byte_range; [done|apply masked_byte].
Qed.

Lemma RC4_ok key inp : rc4_ok key → bytes_ok inp → rc4_ok (RC4 key inp).1 ∧ bytes_ok (RC4 key inp).2.
Proof.
  intros Hk Hb. revert key Hk. induction Hb as [|b inp Hb _ IH]; intros key Hk; [split; [done|constructor]|]. cbn [RC4].
  pose proof (rc4_byte_ok key b Hk Hb) as [Hk' Ho]. destruct (rc4_byte key b) as [key' o]. cbn [fst snd] in *.
  specialize (IH key' Hk') as [IHk IHo]. destruct (RC4 key' inp) as [key2 out]. split; [done|by constructor].
Qed.

(** *** The definition of the textbooks *)
Definition swap (sbox : list Z) (i j : Z) : list Z := put_byte (put_byte sbox i (at_byte sbox j)) j (at_byte sbox i).

(** The key schedule: [j := j + sbox[i] + K[i mod length K]; swap sbox[i] sbox[j]]. *)
Definition ksa_step (K : list Z) (s : Z * list Z) (i : Z) : Z * list Z :=
  let '(j, sbox) := s in
  let j := (j + at_byte sbox i + at_byte K (i mod CBS_len K)) mod 256 in
  (j, swap sbox i j).
Definition ksa (K : list Z) : list Z := (foldl (ksa_step K) (0, seqZ 0 256) (seqZ 0 256)).2.

(** The generator: the step, and the byte that a state gives. *)
Definition prga_step (s : Z * Z * list Z) : Z * Z * list Z :=
  let '(i, j, sbox) := s in
  let i := (i + 1) mod 256 in
  let j := (j + at_byte sbox i) mod 256 in
  (i, j, swap sbox i j).
Definition prga_byte (s : Z * Z * list Z) : Z :=
  let '(i, j, sbox) := s in at_byte sbox ((at_byte sbox i + at_byte sbox j) mod 256).
Definition stream (s : Z * Z * list Z) (n : nat) : list Z := (λ k, prga_byte (Nat.iter (S k) prga_step s)) <$> seq 0 n.

Definition rc4_state (key : RC4_KEY) : Z * Z * list Z := (x key, y key, data key).

Lemma mask_mod v : v .& 0xff = v mod 256.
Proof. change 0xff with (Z.ones 8). by rewrite Z.land_ones. Qed.

Lemma at_put_eq d i v : length d = 256%nat → is_byte i → at_byte (put_byte d i v) i = v.
Proof. intros Hl Hi. unfold at_byte, put_byte. apply nth_lookup_Some. apply list_lookup_insert_eq. lia. Qed.
Lemma at_put_ne d i j v : is_byte i → is_byte j → i ≠ j → at_byte (put_byte d i v) j = at_byte d j.
Proof.
  intros Hi Hj Hne. unfold at_byte, put_byte. rewrite !nth_lookup. by rewrite list_lookup_insert_ne by lia.
Qed.

(** Reading the two exchanged elements. *)
Lemma at_swap d i j : d ≡ₚ seqZ 0 256 → is_byte i → is_byte j →
  at_byte (swap d i j) i = at_byte d j ∧ at_byte (swap d i j) j = at_byte d i.
Proof.
  intros Hd Hi Hj. pose proof (permutation_length d Hd) as Hl. unfold swap.
  assert (Hl' : length (put_byte d i (at_byte d j)) = 256%nat) by (unfold put_byte; by rewrite length_insert).
  split; [|by apply at_put_eq]. destruct (decide (i = j)) as [->|Hne]; [by apply at_put_eq|].
  rewrite at_put_ne by done. by apply at_put_eq.
Qed.

Lemma rc4_byte_spec key b : rc4_ok key →
  rc4_state (rc4_byte key b).1 = prga_step (rc4_state key) ∧ (rc4_byte key b).2 = prga_byte (prga_step (rc4_state key)) .^ b.
Proof.
  intros [Hx Hy Hd]. unfold rc4_byte, rc4_state, prga_step, prga_byte. rewrite !mask_mod. cbn [fst snd x y data].
  rewrite !(wrap_small 32 (x key + 1)) by lia. set (i := (x key + 1) mod 256).
  assert (Hi : is_byte i) by (apply Z.mod_pos_bound; lia). pose proof (at_byte_range _ _ Hd Hi).
  rewrite (wrap_small 32 (_ + y key)) by lia. rewrite (Z.add_comm (at_byte (data key) i) (y key)).
  set (j := (y key + at_byte (data key) i) mod 256). assert (Hj : is_byte j) by (apply Z.mod_pos_bound; lia).
  pose proof (at_byte_range _ _ Hd Hj). rewrite (wrap_small 32) by lia.
  fold (swap (data key) i j). split; [done|]. destruct (at_swap _ _ _ Hd Hi Hj) as [-> ->]. by rewrite Z.add_comm.
Qed.

(** [RC4] continues the stream where the state has got to. *)
Lemma RC4_stream key inp : rc4_ok key → bytes_ok inp →
  rc4_state (RC4 key inp).1 = Nat.iter (length inp) prga_step (rc4_state key) ∧
  (RC4 key inp).2 = zip_with Z.lxor (stream (rc4_state key) (length inp)) inp.
Proof.
  intros Hk Hb. revert key Hk. induction Hb as [|b inp Hb _ IH]; intros key Hk; [done|]. cbn [RC4 length].
  pose proof (rc4_byte_ok key b Hk Hb) as [Hk' _]. pose proof (rc4_byte_spec key b Hk) as [Es Eo].
  destruct (rc4_byte key b) as [key' o]. cbn [fst snd] in *. specialize (IH key' Hk') as [IHs IHo].
  destruct (RC4 key' inp) as [key2 out]. cbn [fst snd] in *. rewrite Es in IHs, IHo. split.
  - by rewrite IHs, Nat.iter_succ_r.
  - unfold stream. cbn [seq fmap list_fmap zip_with]. rewrite Eo, IHo. f_equal. unfold stream. f_equal.
    rewrite <- seq_shift. rewrite <- list_fmap_compose. apply list_fmap_ext. intros _ k _. cbn [compose].
    by rewrite (Nat.iter_succ_r (S k)).
Qed.

(** *** The key schedule *)
Lemma key_schedule K n k id2 d :
  bytes_ok K → 0 < CBS_len K < 2 ^ 32 → 0 <= k → k + Z.of_nat n <= 256 → is_byte id2 → d ≡ₚ seqZ 0 256 →
  let s := foldl (ksa_step K) (id2, d) (seqZ k (Z.of_nat n)) in
  foldl (rc4_key_step K (CBS_len K)) (k mod CBS_len K, id2, d) (seqZ k (Z.of_nat n))
    = ((k + Z.of_nat n) mod CBS_len K, s.1, s.2) ∧ s.2 ≡ₚ seqZ 0 256.
Proof.
  intros HK Hlen. revert k id2 d. induction n as [|n IH]; intros k id2 d Hk Hkn Hid Hd; [by rewrite Z.add_0_r|].
  rewrite seqZ_cons by lia. replace (Z.pred (Z.of_nat (S n))) with (Z.of_nat n) by lia. cbn [foldl ksa_step rc4_key_step].
  pose proof (Z.mod_pos_bound k (CBS_len K) ltac:(lia)) as Hmod.
  assert (HKb : is_byte (at_byte K (k mod CBS_len K))).
  { unfold at_byte. apply (Forall_nth (λ b, is_byte b)); [done|]. unfold CBS_len in *. lia. }
  assert (Hkb : is_byte k) by lia. pose proof (at_byte_range _ _ Hd Hkb). rewrite mask_mod, (wrap_small 32 (_ + at_byte d k)), (wrap_small 32 (_ + id2)) by lia.
  replace (at_byte K (k mod CBS_len K) + at_byte d k + id2) with (id2 + at_byte d k + at_byte K (k mod CBS_len K)) by lia.
  set (j := (id2 + at_byte d k + at_byte K (k mod CBS_len K)) mod 256). assert (Hj : is_byte j) by (apply Z.mod_pos_bound; lia).
  fold (swap d k j). assert (Hid1 : (if (k mod CBS_len K ⊞[32] 1) =? CBS_len K then 0 else k mod CBS_len K ⊞[32] 1) = Z.succ k mod CBS_len K).
  { rewrite wrap_small by lia. unfold Z.succ. destruct (Z.eqb_spec (k mod CBS_len K + 1) (CBS_len K)) as [E|E].
    - rewrite <- Zplus_mod_idemp_l, E, Z.mod_same by lia. done.
    - rewrite <- Zplus_mod_idemp_l, (Z.mod_small (_ + 1)) by lia. done. }
  rewrite Hid1. destruct (IH (Z.succ k) j (swap d k j)) as [E Hp]; [lia|lia|done|by apply swap_ok|].
  cbv zeta in *. rewrite E. split; [|done]. do 3 f_equal. lia.
Qed.

Lemma RC4_set_key_spec K : bytes_ok K → 0 < CBS_len K < 2 ^ 32 →
  RC4_set_key (CBS_len K) K = mkRc4 0 0 (ksa K) ∧ rc4_ok (RC4_set_key (CBS_len K) K).
Proof.
  intros HK Hlen. unfold RC4_set_key, ksa.
  destruct (key_schedule K 256 0 0 (seqZ 0 256)) as [E Hp]; [done|done|lia|lia|lia|done|].
  rewrite Z.mod_0_l in E by lia. change (Z.of_nat 256) with 256 in *. rewrite E. split; [reflexivity|split; cbn [x y data]; [lia|lia|exact Hp]].
Qed.

Lemma RC4_app key a b :
  RC4 key (a ++ b) = ((RC4 (RC4 key a).1 b).1, (RC4 key a).2 ++ (RC4 (RC4 key a).1 b).2).
Proof.
  revert key. induction a as [|c a IH]; intros key; [cbn [app RC4 fst snd]; by destruct (RC4 key b)|]. cbn [app RC4].
  destruct (rc4_byte key c) as [key' o]. rewrite IH. by destruct (RC4 key' a).
Qed.

Lemma zip_xor_cancel ks inp : length ks = length inp → zip_with Z.lxor ks (zip_with Z.lxor ks inp) = inp.
Proof.
  revert inp. induction ks as [|k ks IH]; intros [|c inp] Hl; try done. cbn [zip_with].
  rewrite <- Z.lxor_assoc, Z.lxor_nilpotent, Z.lxor_0_l. f_equal. apply IH. by injection Hl.
Qed.

(** [RC4] is the cipher of the textbooks.  The key schedule computes the
    textbook permutation, which stays a permutation of the bytes with both
    indices in range whatever is encrypted; the output is the input combined
    with the textbook stream, which does not depend on how the input is cut;
    and decryption is the same function. *)
Theorem RC4_textbook (K inp : list Z) (HK : bytes_ok K) (Hlen : 0 < CBS_len K < 2 ^ 32) (Hinp : bytes_ok inp) :
  let key := RC4_set_key (CBS_len K) K in
  rc4_ok (RC4 key inp).1 ∧
  (RC4 key inp).2 = zip_with Z.lxor (stream (0, 0, ksa K) (length inp)) inp ∧
  (∀ a b, inp = a ++ b → (RC4 key inp).2 = (RC4 key a).2 ++ (RC4 (RC4 key a).1 b).2) ∧
  (RC4 key (RC4 key inp).2).2 = inp.
Proof.
  destruct (RC4_set_key_spec K HK Hlen) as [E Hok]. cbv zeta.
  destruct (RC4_ok _ inp Hok Hinp) as [Hok' Hout]. destruct (RC4_stream _ inp Hok Hinp) as [_ Es]. split_and!.
  - done.
  - by rewrite Es, E.
  - intros a b ->. by rewrite RC4_app.
  - destruct (RC4_stream _ _ Hok Hout) as [_ ->]. rewrite Es. rewrite length_zip_with.
    assert (Hs : ∀ s, length (stream s (length inp)) = length inp) by (intros; unfold stream; by rewrite length_fmap, length_seq).
    rewrite Hs, Nat.min_id. by apply zip_xor_cancel.
Qed.

Lemma RC4_textbook_witness :
  let K := [1; 2; 3; 4; 5] in let inp := replicate 16 0 in let key := RC4_set_key (CBS_len K) K in
  rc4_ok (RC4 key inp).1 ∧
  (RC4 key inp).2 = zip_with Z.lxor (stream (0, 0, ksa K) (length inp)) inp ∧
  (∀ a b, inp = a ++ b → (RC4 key inp).2 = (RC4 key a).2 ++ (RC4 (RC4 key a).1 b).2) ∧
  (RC4 key (RC4 key inp).2).2 = inp.
Proof. apply RC4_textbook; [by apply (bool_decide_unpack _); vm_compute|done|by apply (bool_decide_unpack _); vm_compute]. Defined.

(** The first test vector of RFC 6229. *)
Lemma rc4_example : (RC4 (RC4_set_key 5 [1; 2; 3; 4; 5]) (replicate 8 0)).2 = [0xb2; 0x39; 0x63; 0x05; 0xf0; 0x3d; 0xc0; 0x27].
Proof. by vm_compute. Qed.
