(* ===== verification/Siphash.v ===== *)
(** SipHash-2-4 ([crypto/siphash/siphash.c]), the keyed hash of the buffer
    pool. *)
From S2P Require Import Prelude Radix Cbs Words.

(** The four words of the state. *)
Abbreviation sip_state := (Z * Z * Z * Z)%type.

Definition siphash_round (v : sip_state) : sip_state :=
  let '(v0, v1, v2, v3) := v in
  let v0 := v0 ⊞[64] v1 in
  let v2 := v2 ⊞[64] v3 in
  let v1 := CRYPTO_rotl_u64 v1 13 in
  let v3 := CRYPTO_rotl_u64 v3 16 in
  let v1 := v1 .^ v0 in
  let v3 := v3 .^ v2 in
  let v0 := CRYPTO_rotl_u64 v0 32 in
  let v2 := v2 ⊞[64] v1 in
  let v0 := v0 ⊞[64] v3 in
  let v1 := CRYPTO_rotl_u64 v1 17 in
  let v3 := CRYPTO_rotl_u64 v3 21 in
  let v1 := v1 .^ v2 in
  let v3 := v3 .^ v0 in
  let v2 := CRYPTO_rotl_u64 v2 32 in
  (v0, v1, v2, v3).

(** [v[3] ^= m; siphash_round(v); siphash_round(v); v[0] ^= m;] *)
Definition siphash_word (v : sip_state) (m : Z) : sip_state :=
  let '(v0, v1, v2, v3) := v in
  let '(v0, v1, v2, v3) := siphash_round (siphash_round (v0, v1, v2, v3 .^ m)) in
  (v0 .^ m, v1, v2, v3).

(** [while (input_len >= sizeof(uint64_t))]; a turn consumes 8 bytes. *)
Fixpoint siphash_loop (fuel : nat) (v : sip_state) (input : list Z) : sip_state * list Z :=
  match fuel with
  | O => (v, input)
  | S fuel =>
      if (8 <=? length input)%nat then
        siphash_loop fuel (siphash_word v (load_u64_le (take 8 input))) (drop 8 input)
      else (v, input)
  end.

Definition SIPHASH_24 (key : Z * Z) (input : list Z) : Z :=
  let v := (key.1 .^ 0x736f6d6570736575, key.2 .^ 0x646f72616e646f6d,
            key.1 .^ 0x6c7967656e657261, key.2 .^ 0x7465646279746573) in
  let '(v, rest) := siphash_loop (length input) v input in
  let last_block := <[7%nat := CBS_len input .& 0xff]> (list_inserts 0 rest (replicate 8 0)) in
  let '(v0, v1, v2, v3) := siphash_word v (load_u64_le last_block) in
  let '(v0, v1, v2, v3) := siphash_round (siphash_round (siphash_round (siphash_round (v0, v1, v2 .^ 0xff, v3)))) in
  v0 .^ v1 .^ v2 .^ v3.

(** ** The definition of the paper: the words of the padded input *)
Definition sip_pad (input : list Z) : list Z :=
  input ++ replicate (7 - length input mod 8) 0 ++ [CBS_len input mod 256].
Definition sip_words (padded : list Z) : list Z :=
  (λ i, le_num (take 8 (drop (8 * i) padded))) <$> seq 0 (length padded / 8).
Definition sip_spec (key : Z * Z) (input : list Z) : Z :=
  let v := (key.1 .^ 0x736f6d6570736575, key.2 .^ 0x646f72616e646f6d,
            key.1 .^ 0x6c7967656e657261, key.2 .^ 0x7465646279746573) in
  let '(v0, v1, v2, v3) := foldl siphash_word v (sip_words (sip_pad input)) in
  let '(v0, v1, v2, v3) := Nat.iter 4 siphash_round (v0, v1, v2 .^ 0xff, v3) in
  v0 .^ v1 .^ v2 .^ v3.

Lemma siphash_loop_spec fuel v input :
  bytes_ok input → (length input ≤ fuel)%nat →
  ∃ n, (n = length input / 8)%nat ∧
    siphash_loop fuel v input =
      (foldl siphash_word v ((λ i, le_num (take 8 (drop (8 * i) input))) <$> seq 0 n), drop (8 * n) input).
Proof.
  revert v input. induction fuel as [|fuel IH]; intros v input Hb Hf.
  { exists 0%nat. destruct input; [done|cbn in Hf; lia]. }
  cbn [siphash_loop]. destruct (Nat.leb_spec 8 (length input)) as [Hn|Hn].
  2: { exists 0%nat. by rewrite Nat.div_small by lia. }
  destruct (IH (siphash_word v (load_u64_le (take 8 input))) (drop 8 input)) as (n & En & E).
  { auto with words. } { rewrite length_drop. lia. }
  exists (S n). rewrite length_drop in En. split.
  - replace (length input) with (length input - 8 + 1 * 8)%nat by lia. rewrite Nat.div_add by lia. lia.
  - rewrite E, drop_drop. f_equal; [|f_equal; lia].
    cbn [seq fmap list_fmap foldl Nat.mul]. rewrite load_u64_le_num by auto with words. f_equal.
    rewrite <- seq_shift, <- list_fmap_compose. apply list_fmap_ext. intros _ i _. cbn [compose].
    rewrite drop_drop. do 3 f_equal. lia.
Qed.

(** The code computes the function of the paper. *)
Lemma SIPHASH_24_spec key input : bytes_ok input → SIPHASH_24 key input = sip_spec key input.
Proof.
  intros Hb. unfold SIPHASH_24, sip_spec. destruct (siphash_loop_spec (length input)
    (key.1 .^ 0x736f6d6570736575, key.2 .^ 0x646f72616e646f6d, key.1 .^ 0x6c7967656e657261, key.2 .^ 0x7465646279746573)
    input Hb ltac:(lia)) as (n & En & E). rewrite E. clear E.
  pose proof (Nat.div_mod_eq (length input) 8) as Hdm. rewrite <- En in Hdm.
  pose proof (Nat.mod_upper_bound (length input) 8 ltac:(lia)) as Hlt.
  set (r := (length input mod 8)%nat) in *.
  assert (Hr : length (drop (8 * n) input) = r) by (rewrite length_drop; lia).
  set (rest := drop (8 * n) input) in *.
  assert (Elast : <[7%nat := CBS_len input .& 0xff]> (list_inserts 0 rest (replicate 8 0))
    = rest ++ replicate (7 - r) 0 ++ [CBS_len input mod 256]).
  { replace (replicate 8 0) with (replicate r 0 ++ replicate (7 - r) 0 ++ [0]).
    2: { rewrite (app_assoc (replicate r 0)), <- replicate_add. replace (r + (7 - r))%nat with 7%nat by lia. done. }
    rewrite list_inserts_0_r by (by rewrite length_replicate). rewrite app_assoc, insert_app_r_alt, <- app_assoc.
    2: { rewrite length_app, length_replicate. lia. }
    rewrite length_app, length_replicate. replace (7 - (length rest + (7 - r)))%nat with 0%nat by lia.
    cbn [insert list_insert]. change 0xff with (Z.ones 8). by rewrite Z.land_ones by done. }
  rewrite Elast. unfold sip_words, sip_pad. fold r.
  rewrite !length_app, length_replicate. cbn [length].
  replace ((length input + (7 - r + 1)) / 8)%nat with (n + 1)%nat.
  2: { replace (length input + (7 - r + 1))%nat with (0 + (n + 1) * 8)%nat by lia. by rewrite Nat.div_add. }
  rewrite seq_app, fmap_app, foldl_app. cbn [seq fmap list_fmap foldl Nat.add].
  rewrite drop_app_le by lia. fold rest. rewrite load_u64_le_num.
  2: { repeat apply bytes_ok_cat; [by apply Forall_drop|apply Forall_replicate; lia|].
       constructor; [|done]. apply Z.mod_pos_bound. lia. }
  rewrite (take_ge (rest ++ _)) by (rewrite !length_app, length_replicate; cbn [length]; lia).
  replace ((λ i, le_num (take 8 (drop (8 * i) (input ++ replicate (7 - r) 0 ++ [CBS_len input mod 256])))) <$> seq 0 n)
    with ((λ i, le_num (take 8 (drop (8 * i) input))) <$> seq 0 n).
  - destruct (siphash_word _ _) as [[[v0 v1] v2] v3]. cbn [Nat.iter nat_rect]. reflexivity.
  - apply list_fmap_ext. intros k i [-> Hi]%lookup_seq.
    rewrite drop_app_le, take_app_le by (rewrite ?length_drop; lia). done.
Qed.

(** The example of the paper. *)
Lemma siphash_example :
  SIPHASH_24 (0x0706050403020100, 0x0f0e0d0c0b0a0908) (seqZ 0 15) = 0xa129ca6149be45e5.
Proof. by vm_compute. Qed.
