(* ===== verification/Base64.v ===== *)
(** Base64, [crypto/base64/base64.c]: the constant-time alphabet, the block
    encoder and decoder, and the streaming interface over [EVP_ENCODE_CTX].

    The output buffer of a call is the list of the bytes stored from [out] on. *)
From S2P Require Import Prelude Radix Mem Cbs ConstTime.

Record EVP_ENCODE_CTX := mkEncodeCtx {
  data_used : Z;
  data : list Z;             (* 48 bytes *)
  eof_seen : bool;
  error_encountered : bool;
}.
Definition sizeof_data : Z := 48.

(** ** The alphabet *)
Definition constant_time_lt_args_8 (a b : Z) : Z := u8 (constant_time_msb_w (a ⊟[64] b)).
Definition constant_time_in_range_8 (a min max : Z) : Z :=
  let a := u8 (a - min) in constant_time_lt_args_8 a (u8 (max - min + 1)).

Definition conv_bin2ascii (a : Z) : Z :=
  let a := a .& 0x3f in
  let ret := constant_time_select_8 (constant_time_eq_8 a 62) 43 47 in
  let ret := constant_time_select_8 (constant_time_lt_args_8 a 62) (u8 (a - 52 + 48)) ret in
  let ret := constant_time_select_8 (constant_time_lt_args_8 a 52) (u8 (a - 26 + 97)) ret in
  let ret := constant_time_select_8 (constant_time_lt_args_8 a 26) (u8 (a + 65)) ret in
  ret.

Definition EQUALS : Z := 61.

Definition base64_ascii_to_bin (a : Z) : Z :=
  let is_upper := constant_time_in_range_8 a 65 90 in
  let is_lower := constant_time_in_range_8 a 97 122 in
  let is_digit := constant_time_in_range_8 a 48 57 in
  let is_plus := constant_time_eq_8 a 43 in
  let is_slash := constant_time_eq_8 a 47 in
  let is_equals := constant_time_eq_8 a EQUALS in
  let ret := 0 in
  let ret := u8 (ret .| (is_upper .& (a - 65))) in
  let ret := u8 (ret .| (is_lower .& (a - 97 + 26))) in
  let ret := u8 (ret .| (is_digit .& (a - 48 + 52))) in
  let ret := u8 (ret .| (is_plus .& 62)) in
  let ret := u8 (ret .| (is_slash .& 63)) in
  let is_valid := is_upper .| is_lower .| is_digit .| is_plus .| is_slash .| is_equals in
  u8 (ret .| Z.lnot is_valid).

(** ** Encoding *)
Definition EVP_EncodedLength (len : Z) : option Z :=
  if (len ⊞[64] 2) <? len then None
  else
    let len := (len ⊞[64] 2) / 3 in
    if negb ((len ≪[64] 2) ≫ 2 =? len) then None
    else
      let len := len ≪[64] 2 in
      if (len ⊞[64] 1) <? len then None else Some (len ⊞[64] 1).

(** The characters, without the terminating NUL. *)
Fixpoint encode_chars (src : list Z) : list Z :=
  match src with
  | [] => []
  | s0 :: s1 :: s2 :: rest =>
      let l := (s0 ≪[32] 16) .| (s1 ≪[32] 8) .| s2 in
      conv_bin2ascii (u8 (l ≫ 18)) :: conv_bin2ascii (u8 (l ≫ 12)) :: conv_bin2ascii (u8 (l ≫ 6)) ::
      conv_bin2ascii (u8 l) :: encode_chars rest
  | [s0; s1] =>
      let l := (s0 ≪[32] 16) .| (s1 ≪[32] 8) in
      [conv_bin2ascii (u8 (l ≫ 18)); conv_bin2ascii (u8 (l ≫ 12)); conv_bin2ascii (u8 (l ≫ 6)); EQUALS]
  | [s0] =>
      let l := s0 ≪[32] 16 in
      [conv_bin2ascii (u8 (l ≫ 18)); conv_bin2ascii (u8 (l ≫ 12)); EQUALS; EQUALS]
  end.

(** What is stored at [dst], and the return value. *)
Definition EVP_EncodeBlock (src : list Z) : list Z * Z :=
  let chars := encode_chars src in (chars ++ [0], CBS_len chars).

Definition EVP_EncodeInit : EVP_ENCODE_CTX := mkEncodeCtx 0 (replicate (Z.to_nat sizeof_data) 0) false false.

(** [memcpy(&ctx->data[off], in, ...)] *)
Definition store_data (d : list Z) (off : Z) (inp : list Z) : list Z :=
  take (Z.to_nat off) d ++ inp ++ drop (Z.to_nat off + length inp) d.

Definition NEWLINE : Z := 10.

(** The loop over whole 48-byte blocks, [in_len / 48] of them.  [out] is what
    has been stored so far, without the NUL that the next block overwrites.
    Yields [out], [total], what is left of [in], and [false] for the return on
    overflow of [total]. *)
Fixpoint encode_update_loop (n : nat) (inp out : list Z) (total : Z) : list Z * Z * list Z * bool :=
  match n with
  | O => (out, total, inp, true)
  | S n =>
      let encoded := encode_chars (take (Z.to_nat sizeof_data) inp) in
      let inp := drop (Z.to_nat sizeof_data) inp in
      let out := out ++ encoded ++ [NEWLINE] in
      if (total ⊞[64] (CBS_len encoded + 1)) <? total then (out, total, inp, false)
      else encode_update_loop n inp out (total ⊞[64] (CBS_len encoded + 1))
  end.

(** The new context, what is stored at [out], and [*out_len]. *)
Definition EVP_EncodeUpdate (ctx : EVP_ENCODE_CTX) (inp : list Z) : EVP_ENCODE_CTX * list Z * Z :=
  if CBS_len inp =? 0 then (ctx, [], 0)
  else if sizeof_data - data_used ctx >? CBS_len inp then
    (mkEncodeCtx (data_used ctx + CBS_len inp) (store_data (data ctx) (data_used ctx) inp)
       (eof_seen ctx) (error_encountered ctx), [], 0)
  else
    let '(d, inp, out, total) :=
      if negb (data_used ctx =? 0) then
        let todo := sizeof_data - data_used ctx in
        let d := store_data (data ctx) (data_used ctx) (take (Z.to_nat todo) inp) in
        let encoded := encode_chars d in
        (d, drop (Z.to_nat todo) inp, encoded ++ [NEWLINE], CBS_len encoded + 1)
      else (data ctx, inp, [], 0) in
    let '(out, total, inp, ok) := encode_update_loop (Z.to_nat (CBS_len inp / sizeof_data)) inp out total in
    if ok : bool then
      let d := if negb (CBS_len inp =? 0) then store_data d 0 inp else d in
      let total := if total >? INT_MAX then 0 else total in
      (mkEncodeCtx (CBS_len inp) d (eof_seen ctx) (error_encountered ctx), out ++ [0], total)
    else (mkEncodeCtx 0 d (eof_seen ctx) (error_encountered ctx), out ++ [0], 0).

Definition EVP_EncodeFinal (ctx : EVP_ENCODE_CTX) : EVP_ENCODE_CTX * list Z * Z :=
  if data_used ctx =? 0 then (ctx, [], 0)
  else
    let encoded := encode_chars (take (Z.to_nat (data_used ctx)) (data ctx)) in
    (mkEncodeCtx 0 (data ctx) (eof_seen ctx) (error_encountered ctx),
     encoded ++ [NEWLINE; 0], CBS_len encoded + 1).

(** ** Decoding *)
Definition EVP_DecodedLength (len : Z) : option Z :=
  if negb (len mod 4 =? 0) then None else Some (len / 4 * 3).

Definition EVP_DecodeInit : EVP_ENCODE_CTX := mkEncodeCtx 0 (replicate (Z.to_nat sizeof_data) 0) false false.

(** The bytes written and their number ([*out_num_bytes] is their length). *)
Definition base64_decode_quad (i0 i1 i2 i3 : Z) : option (list Z) :=
  let a := base64_ascii_to_bin i0 in
  let b := base64_ascii_to_bin i1 in
  let c := base64_ascii_to_bin i2 in
  let d := base64_ascii_to_bin i3 in
  if (a =? 0xff) || (b =? 0xff) || (c =? 0xff) || (d =? 0xff) then None
  else
    let v := (a ≪[32] 18) .| (b ≪[32] 12) .| (c ≪[32] 6) .| d in
    let bit (x : bool) := if x then 1 else 0 in
    let padding_pattern := (bit (i0 =? EQUALS) ≪ 3) .| (bit (i1 =? EQUALS) ≪ 2) .|
                           (bit (i2 =? EQUALS) ≪ 1) .| bit (i3 =? EQUALS) in
    if padding_pattern =? 0 then Some [u8 (v ≫ 16); u8 (v ≫ 8); u8 v]
    else if padding_pattern =? 1 then Some [u8 (v ≫ 16); u8 (v ≫ 8)]
    else if padding_pattern =? 3 then Some [u8 (v ≫ 16)]
    else None.

Definition is_b64_space (c : Z) : bool := (c =? 32) || (c =? 9) || (c =? 13) || (c =? 10).

Definition set_error (ctx : EVP_ENCODE_CTX) : EVP_ENCODE_CTX :=
  mkEncodeCtx (data_used ctx) (data ctx) (eof_seen ctx) true.

(** The loop of [EVP_DecodeUpdate]: the context, the bytes stored, and whether
    an error was met. *)
Fixpoint decode_update_loop (ctx : EVP_ENCODE_CTX) (inp out : list Z) : EVP_ENCODE_CTX * list Z * bool :=
  match inp with
  | [] => (ctx, out, false)
  | c :: inp =>
      if is_b64_space c then decode_update_loop ctx inp out
      else if eof_seen ctx then (set_error ctx, out, true)
      else
        let d := <[Z.to_nat (data_used ctx) := c]> (data ctx) in
        let ctx := mkEncodeCtx (data_used ctx + 1) d (eof_seen ctx) (error_encountered ctx) in
        if data_used ctx =? 4 then
          match base64_decode_quad (byte_at d 0) (byte_at d 1) (byte_at d 2) (byte_at d 3) with
          | None => (set_error ctx, out, true)
          | Some bytes =>
              decode_update_loop
                (mkEncodeCtx 0 d (if CBS_len bytes <? 3 then true else eof_seen ctx) (error_encountered ctx))
                inp (out ++ bytes)
          end
        else decode_update_loop ctx inp out
  end.

(** The context, the bytes stored, [*out_len], and the return value. *)
Definition EVP_DecodeUpdate (ctx : EVP_ENCODE_CTX) (inp : list Z) : EVP_ENCODE_CTX * list Z * Z * Z :=
  if error_encountered ctx then (ctx, [], 0, -1)
  else
    let '(ctx, out, err) := decode_update_loop ctx inp [] in
    if err : bool then (ctx, out, 0, -1)
    else if CBS_len out >? INT_MAX then (set_error ctx, out, 0, -1)
    else (ctx, out, CBS_len out, if eof_seen ctx then 0 else 1).

Definition EVP_DecodeFinal (ctx : EVP_ENCODE_CTX) : Z :=
  if error_encountered ctx || negb (data_used ctx =? 0) then -1 else 1.

(** [i != in_len - 4] is that some input is left. *)
Fixpoint decode_base64_loop (inp : list Z) : option (list Z) :=
  match inp with
  | i0 :: i1 :: i2 :: i3 :: rest =>
      match base64_decode_quad i0 i1 i2 i3 with
      | None => None
      | Some bytes =>
          if negb (CBS_len bytes =? 3) && negb (CBS_len rest =? 0) then None
          else out ← decode_base64_loop rest; Some (bytes ++ out)
      end
  | _ => Some []
  end.

(** The decoded bytes; [*out_len] is their number. *)
Definition EVP_DecodeBase64 (max_out : Z) (inp : list Z) : option (list Z) :=
  if negb (CBS_len inp mod 4 =? 0) then None
  else
    match EVP_DecodedLength (CBS_len inp) with
    | None => None
    | Some max_len => if max_out <? max_len then None else decode_base64_loop inp
    end.

Fixpoint trim_front (src : list Z) : list Z :=
  match src with
  | c :: rest => if negb (c =? 32) && negb (c =? 9) then src else trim_front rest
  | [] => []
  end.
Fixpoint trim_end_len (src : list Z) (src_len : nat) : nat :=
  match src_len with
  | O => O
  | S n => if is_b64_space (byte_at src (Z.of_nat n)) then trim_end_len src n else src_len
  end.

(** [while (dst_len % 3 != 0) dst[dst_len++] = 0;] *)
Fixpoint pad3 (fuel : nat) (dst : list Z) : list Z :=
  match fuel with
  | O => dst
  | S fuel => if negb (CBS_len dst mod 3 =? 0) then pad3 fuel (dst ++ [0]) else dst
  end.

(** The bytes at [dst] and the return value. *)
Definition EVP_DecodeBlock (src : list Z) : list Z * Z :=
  let src := trim_front src in
  let src := take (trim_end_len src (length src)) src in
  match EVP_DecodedLength (CBS_len src) with
  | None => ([], -1)
  | Some dst_len =>
      if dst_len >? INT_MAX then ([], -1)
      else
        match EVP_DecodeBase64 dst_len src with
        | None => ([], -1)
        | Some dst => let dst := pad3 3 dst in (dst, CBS_len dst)
        end
  end.

(** ** The alphabet is the one of RFC 4648 *)
Definition alphabet : list Z := seqZ 65 26 ++ seqZ 97 26 ++ seqZ 48 10 ++ [43; 47].

(** The value of a character: its index, 0 for the padding, 0xff otherwise. *)
Definition decode_char (c : Z) : Z :=
  if c =? EQUALS then 0
  else match list_find (λ x, x = c) alphabet with Some (i, _) => Z.of_nat i | None => 0xff end.

Lemma conv_b : forallb (λ a, conv_bin2ascii a =? byte_at alphabet (a mod 64)) (seqZ 0 256) = true.
Proof. vm_compute. reflexivity. Qed.

Lemma ascii_to_bin_b : forallb (λ c, base64_ascii_to_bin c =? decode_char c) (seqZ 0 256) = true.
Proof. vm_compute. reflexivity. Qed.

(** The branch-free translations agree with the table of RFC 4648 on every
    byte: encoding looks up the low six bits, decoding inverts the table, maps
    the padding to 0 and everything else to 0xff. *)
Theorem base64_alphabet_correct (c : Z) (Hc : is_byte c) :
  conv_bin2ascii c = byte_at alphabet (c mod 64) ∧ base64_ascii_to_bin c = decode_char c.
Proof.
  split; apply Z.eqb_eq; [exact (forallb_seqZ _ _ _ conv_b c Hc)|exact (forallb_seqZ _ _ _ ascii_to_bin_b c Hc)].
Qed.

Lemma base64_alphabet_correct_witness :
  conv_bin2ascii 63 = byte_at alphabet (63 mod 64) ∧ base64_ascii_to_bin 63 = decode_char 63.
Proof. apply (base64_alphabet_correct 63). lia. Defined.

Lemma conv_sextet_b :
  forallb (λ a, (base64_ascii_to_bin (conv_bin2ascii a) =? a) && negb (conv_bin2ascii a =? EQUALS) &&
                negb (is_b64_space (conv_bin2ascii a)) && byte_ok_b (conv_bin2ascii a)) (seqZ 0 64) = true.
Proof. vm_compute. reflexivity. Qed.

Lemma conv_sextet a : 0 <= a < 64 →
  base64_ascii_to_bin (conv_bin2ascii a) = a ∧ (conv_bin2ascii a =? EQUALS) = false ∧
  is_b64_space (conv_bin2ascii a) = false.
Proof.
  intros Ha. pose proof (forallb_seqZ _ _ _ conv_sextet_b a Ha) as H. cbn beta in H.
  rewrite !andb_true_iff, !negb_true_iff in H. destruct H as [[[H1%Z.eqb_eq H2] H3] _]. done.
Qed.

Lemma conv_u8 l k : 0 <= k → conv_bin2ascii (u8 (l ≫ k)) = conv_bin2ascii ((l / 2 ^ k) mod 64).
Proof.
  intros Hk. rewrite Z.shiftr_div_pow2 by done. set (x := l / 2 ^ k).
  assert (Hb : is_byte (u8 x)) by apply (wrap_range 8 x ltac:(lia)).
  pose proof (Z.mod_pos_bound x 64 ltac:(lia)) as Hm.
  pose proof (forallb_seqZ _ _ _ conv_b (u8 x) Hb) as E1. pose proof (forallb_seqZ _ _ _ conv_b (x mod 64) ltac:(lia)) as E2.
  apply Z.eqb_eq in E1, E2. rewrite E1, E2. f_equal. unfold wrap.
  rewrite Z.mod_mod by lia. change (2 ^ 8) with (64 * 4). by rewrite Z.rem_mul_r, Z.mul_comm, Z.mod_add, Z.mod_mod by lia.
Qed.

(** The four sextets of a 24-bit group. *)
Definition sextets (l : Z) : list Z := [l / 2 ^ 18; (l / 2 ^ 12) mod 64; (l / 2 ^ 6) mod 64; l mod 64].

Lemma assemble x y z : is_byte x → is_byte y → is_byte z →
  (x ≪[32] 16) .| (y ≪[32] 8) .| z = x * 2 ^ 16 + y * 2 ^ 8 + z.
Proof.
  intros Hx Hy Hz. rewrite !Z.shiftl_mul_pow2 by lia. rewrite (wrap_small 32 (x * 2 ^ 16)), (wrap_small 32 (y * 2 ^ 8)) by lia.
  rewrite (lor_mul_add x (y * 2 ^ 8) 16) by lia.
  replace (x * 2 ^ 16 + y * 2 ^ 8) with ((x * 2 ^ 8 + y) * 2 ^ 8) by lia. apply lor_mul_add; lia.
Qed.

Lemma assemble4 a b c d : 0 <= a < 64 → 0 <= b < 64 → 0 <= c < 64 → 0 <= d < 64 →
  (a ≪[32] 18) .| (b ≪[32] 12) .| (c ≪[32] 6) .| d = a * 2 ^ 18 + b * 2 ^ 12 + c * 2 ^ 6 + d.
Proof.
  intros Ha Hb Hc Hd. rewrite !Z.shiftl_mul_pow2 by lia.
  rewrite (wrap_small 32 (a * 2 ^ 18)), (wrap_small 32 (b * 2 ^ 12)), (wrap_small 32 (c * 2 ^ 6)) by lia.
  rewrite (lor_mul_add a (b * 2 ^ 12) 18) by lia.
  replace (a * 2 ^ 18 + b * 2 ^ 12) with ((a * 2 ^ 6 + b) * 2 ^ 12) by lia. rewrite (lor_mul_add _ (c * 2 ^ 6) 12) by lia.
  replace ((a * 2 ^ 6 + b) * 2 ^ 12 + c * 2 ^ 6) with (((a * 2 ^ 6 + b) * 2 ^ 6 + c) * 2 ^ 6) by lia.
  apply lor_mul_add; lia.
Qed.

Lemma sextets_spec l : 0 <= l < 2 ^ 24 →
  l / 2 ^ 18 * 2 ^ 18 + (l / 2 ^ 12) mod 64 * 2 ^ 12 + (l / 2 ^ 6) mod 64 * 2 ^ 6 + l mod 64 = l ∧
  Forall (λ a, 0 <= a < 64) (sextets l).
Proof.
  intros Hl. split; [|unfold sextets; repeat constructor];
    change (2 ^ 18) with 262144; change (2 ^ 12) with 4096; change (2 ^ 6) with 64; change (2 ^ 24) with 16777216 in Hl;
    Z.to_euclidean_division_equations; lia.
Qed.

Lemma quad_none a b c d : 0 <= a < 64 → 0 <= b < 64 → 0 <= c < 64 → 0 <= d < 64 →
  (a =? 0xff) || (b =? 0xff) || (c =? 0xff) || (d =? 0xff) = false.
Proof. intros. destruct (Z.eqb_spec a 255), (Z.eqb_spec b 255), (Z.eqb_spec c 255), (Z.eqb_spec d 255); lia || done. Qed.

Abbreviation enc := conv_bin2ascii.

Lemma quad_full a b c d : 0 <= a < 64 → 0 <= b < 64 → 0 <= c < 64 → 0 <= d < 64 →
  let v := a * 2 ^ 18 + b * 2 ^ 12 + c * 2 ^ 6 + d in
  base64_decode_quad (enc a) (enc b) (enc c) (enc d) = Some [u8 (v ≫ 16); u8 (v ≫ 8); u8 v] ∧
  base64_decode_quad (enc a) (enc b) (enc c) EQUALS = Some [u8 ((v - d) ≫ 16); u8 ((v - d) ≫ 8)] ∧
  base64_decode_quad (enc a) (enc b) EQUALS EQUALS = Some [u8 ((v - d - c * 2 ^ 6) ≫ 16)].
Proof.
  intros Ha Hb Hc Hd. cbn zeta. unfold base64_decode_quad. cbn zeta.
  destruct (conv_sextet a Ha) as (-> & -> & _), (conv_sextet b Hb) as (-> & -> & _), (conv_sextet c Hc) as (-> & -> & _),
    (conv_sextet d Hd) as (-> & -> & _).
  change (base64_ascii_to_bin EQUALS) with 0. rewrite !quad_none, !assemble4 by lia.
  split_and!; [done| |].
  - replace (a * 2 ^ 18 + b * 2 ^ 12 + c * 2 ^ 6 + 0) with (a * 2 ^ 18 + b * 2 ^ 12 + c * 2 ^ 6 + d - d) by lia. done.
  - replace (a * 2 ^ 18 + b * 2 ^ 12 + 0 * 2 ^ 6 + 0) with (a * 2 ^ 18 + b * 2 ^ 12 + c * 2 ^ 6 + d - d - c * 2 ^ 6) by lia. done.
Qed.

Lemma bytes_of_group x y z : is_byte x → is_byte y → is_byte z →
  let l := x * 2 ^ 16 + y * 2 ^ 8 + z in u8 (l ≫ 16) = x ∧ u8 (l ≫ 8) = y ∧ u8 l = z.
Proof.
  intros. cbn zeta. rewrite !Z.shiftr_div_pow2 by lia. unfold wrap.
  change (2 ^ 16) with 65536. change (2 ^ 8) with 256. split_and!; Z.to_euclidean_division_equations; lia.
Qed.

(** Encoding, by groups of three bytes. *)
Lemma encode3 x y z rest : is_byte x → is_byte y → is_byte z →
  encode_chars (x :: y :: z :: rest) = map enc (sextets (x * 2 ^ 16 + y * 2 ^ 8 + z)) ++ encode_chars rest.
Proof.
  intros Hx Hy Hz. cbn [encode_chars]. rewrite assemble by done. set (l := _ + _).
  rewrite !conv_u8 by lia. rewrite <- (Z.shiftr_0_r l) at 4. rewrite conv_u8, Z.pow_0_r, Z.div_1_r by lia.
  cbn [sextets map app]. do 2 f_equal. apply Z.mod_small. subst l. split; [apply Z.div_pos|apply Z.div_lt_upper_bound]; lia.
Qed.

Lemma encode2 x y : is_byte x → is_byte y →
  encode_chars [x; y] = map enc (take 3 (sextets (x * 2 ^ 16 + y * 2 ^ 8))) ++ [EQUALS].
Proof.
  intros Hx Hy. cbn [encode_chars]. rewrite <- (Z.lor_0_r (_ .| _)), assemble, Z.add_0_r by lia. set (l := _ + _).
  rewrite !conv_u8 by lia. cbn [sextets map app take]. do 2 f_equal. apply Z.mod_small.
  subst l. split; [apply Z.div_pos|apply Z.div_lt_upper_bound]; lia.
Qed.

Lemma encode1 x : is_byte x →
  encode_chars [x] = map enc (take 2 (sextets (x * 2 ^ 16))) ++ [EQUALS; EQUALS].
Proof.
  intros Hx. cbn [encode_chars].
  assert (E : x ≪[32] 16 = x * 2 ^ 16) by (rewrite Z.shiftl_mul_pow2 by lia; apply wrap_small; lia).
  rewrite E. set (l := _ * _).
  rewrite !conv_u8 by lia. cbn [sextets map app take]. do 2 f_equal. apply Z.mod_small.
  subst l. split; [apply Z.div_pos|apply Z.div_lt_upper_bound]; lia.
Qed.

(** One group: its characters, and what the decoder makes of them. *)
Lemma group_spec (g : list Z) : bytes_ok g → (1 ≤ length g ≤ 3)%nat →
  ∃ c0 c1 c2 c3, base64_decode_quad c0 c1 c2 c3 = Some g ∧
    Forall (λ c, is_b64_space c = false) [c0; c1; c2; c3] ∧
    ∀ rest, (length g = 3%nat ∨ rest = []) → encode_chars (g ++ rest) = [c0; c1; c2; c3] ++ encode_chars rest.
Proof.
  intros Hg Hlen. destruct g as [|x [|y [|z [|? ?]]]]; try (cbn in Hlen; lia);
    apply Forall_cons in Hg as [Hx Hg]; try apply Forall_cons in Hg as [Hy Hg]; try apply Forall_cons in Hg as [Hz _].
  - destruct (sextets_spec (x * 2 ^ 16)) as [Hl Hs]; [lia|].
    unfold sextets in Hs. apply Forall_cons in Hs as [Ha Hs], Hs as [Hb Hs], Hs as [Hc Hs], Hs as [Hd _].
    destruct (quad_full _ _ _ _ Ha Hb Hc Hd) as (_ & _ & Hq). rewrite Hl in Hq.
    destruct (bytes_of_group x 0 0 Hx ltac:(lia) ltac:(lia)) as (Hbx & _).
    eexists _, _, _, _. split_and!; [rewrite Hq| |].
    + assert (E : x * 2 ^ 16 - (x * 2 ^ 16) mod 64 - (x * 2 ^ 16 / 2 ^ 6) mod 64 * 2 ^ 6 = x * 2 ^ 16 + 0 * 2 ^ 8 + 0).
      { change (2 ^ 16) with 65536. change (2 ^ 6) with 64. Z.to_euclidean_division_equations. lia. }
      by rewrite E, Hbx.
    + repeat constructor; by apply conv_sextet.
    + intros rest [| ->]; [done|]. by rewrite app_nil_r, encode1.
  - destruct (sextets_spec (x * 2 ^ 16 + y * 2 ^ 8)) as [Hl Hs]; [lia|].
    unfold sextets in Hs. apply Forall_cons in Hs as [Ha Hs], Hs as [Hb Hs], Hs as [Hc Hs], Hs as [Hd _].
    destruct (quad_full _ _ _ _ Ha Hb Hc Hd) as (_ & Hq & _). rewrite Hl in Hq.
    destruct (bytes_of_group x y 0 Hx Hy ltac:(lia)) as (Hbx & Hby & _).
    eexists _, _, _, _. split_and!; [rewrite Hq| |].
    + assert (E : x * 2 ^ 16 + y * 2 ^ 8 - (x * 2 ^ 16 + y * 2 ^ 8) mod 64 = x * 2 ^ 16 + y * 2 ^ 8 + 0)
        by (Z.to_euclidean_division_equations; lia).
      by rewrite E, Hbx, Hby.
    + repeat constructor; by apply conv_sextet.
    + intros rest [| ->]; [done|]. by rewrite app_nil_r, encode2.
  - destruct (sextets_spec (x * 2 ^ 16 + y * 2 ^ 8 + z)) as [Hl Hs]; [lia|].
    unfold sextets in Hs. apply Forall_cons in Hs as [Ha Hs], Hs as [Hb Hs], Hs as [Hc Hs], Hs as [Hd _].
    destruct (quad_full _ _ _ _ Ha Hb Hc Hd) as (Hq & _ & _). rewrite Hl in Hq.
    destruct (bytes_of_group x y z Hx Hy Hz) as (Hbx & Hby & Hbz). rewrite Hbx, Hby, Hbz in Hq.
    eexists _, _, _, _. split_and!; [exact Hq| |].
    + repeat constructor; by apply conv_sextet.
    + intros rest _. by apply (encode3 x y z rest).
Qed.

(** Induction over groups of three. *)
Lemma groups_ind (P : list Z → Prop) :
  P [] → (∀ g, bytes_ok g → (1 ≤ length g ≤ 2)%nat → P g) →
  (∀ g rest, bytes_ok g → length g = 3%nat → bytes_ok rest → P rest → P (g ++ rest)) → ∀ src, bytes_ok src → P src.
Proof.
  intros H0 H12 H3. fix IH 1. intros src Hsrc. destruct src as [|x [|y [|z rest]]]; [done|apply H12; [done|cbn; lia]..|].
  pose proof Hsrc as Hs. change (x :: y :: z :: rest) with ([x; y; z] ++ rest) in Hs |- *.
  apply Forall_app in Hs as [Hg Hr]. apply H3; [done|done|done|]. by apply IH.
Qed.

(** ** Block encoding *)
Lemma encode_chars_app a b :
  bytes_ok a → (length a mod 3 = 0)%nat → encode_chars (a ++ b) = encode_chars a ++ encode_chars b.
Proof.
  intros Ha. revert a Ha. apply (groups_ind (λ a, (length a mod 3 = 0)%nat → encode_chars (a ++ b) = encode_chars a ++ encode_chars b)).
  - done.
  - intros g _ Hg Hm. destruct (length g) as [|[|[|]]]; cbn in Hm; lia.
  - intros g rest Hg Hlen Hr IH Hm. destruct (group_spec g Hg ltac:(lia)) as (c0 & c1 & c2 & c3 & _ & _ & He).
    rewrite <- app_assoc, !He by by left. rewrite IH; [by rewrite app_assoc|].
    rewrite length_app, Hlen in Hm. replace (3 + length rest)%nat with (length rest + 1 * 3)%nat in Hm by lia.
    by rewrite Nat.Div0.mod_add in Hm.
Qed.

Lemma encode_chars_length src : bytes_ok src → CBS_len (encode_chars src) = (CBS_len src + 2) / 3 * 4.
Proof.
  revert src. apply groups_ind; [done|..].
  - intros g Hg Hlen. destruct (group_spec g Hg ltac:(lia)) as (c0 & c1 & c2 & c3 & _ & _ & He).
    specialize (He [] ltac:(by right)). rewrite app_nil_r in He. rewrite He. unfold CBS_len.
    destruct (length g) as [|[|[|]]]; try lia; done.
  - intros g rest Hg Hlen Hr IH. destruct (group_spec g Hg ltac:(lia)) as (c0 & c1 & c2 & c3 & _ & _ & He).
    rewrite He by by left. rewrite !CBS_len_app, IH. unfold CBS_len. rewrite Hlen. cbn [length].
    replace (Z.of_nat 3 + Z.of_nat (length rest) + 2) with (Z.of_nat (length rest) + 2 + 1 * 3) by lia.
    rewrite Z.div_add by lia. lia.
Qed.

Lemma encode_chars_spaceless src : bytes_ok src → Forall (λ c, is_b64_space c = false) (encode_chars src).
Proof.
  revert src. apply groups_ind; [constructor|..].
  - intros g Hg Hlen. destruct (group_spec g Hg ltac:(lia)) as (c0 & c1 & c2 & c3 & _ & Hs & He).
    specialize (He [] ltac:(by right)). rewrite app_nil_r in He. rewrite He. by apply Forall_app.
  - intros g rest Hg Hlen Hr IH. destruct (group_spec g Hg ltac:(lia)) as (c0 & c1 & c2 & c3 & _ & Hs & He).
    rewrite He by by left. by apply Forall_app.
Qed.

Lemma decode_encode src : bytes_ok src → decode_base64_loop (encode_chars src) = Some src.
Proof.
  revert src. apply groups_ind; [done|..].
  - intros g Hg Hlen. destruct (group_spec g Hg ltac:(lia)) as (c0 & c1 & c2 & c3 & Hq & _ & He).
    specialize (He [] ltac:(by right)). rewrite app_nil_r in He. rewrite He. cbn. rewrite Hq. rewrite andb_false_r.
    cbn. by rewrite app_nil_r.
  - intros g rest Hg Hlen Hr IH. destruct (group_spec g Hg ltac:(lia)) as (c0 & c1 & c2 & c3 & Hq & _ & He).
    rewrite He by by left. cbn [app decode_base64_loop]. rewrite Hq.
    unfold CBS_len at 1. rewrite Hlen. cbn [Z.of_nat Pos.of_succ_nat Pos.succ Z.eqb Pos.eqb negb andb].
    rewrite IH. done.
Qed.

(** Decoding a block encoding gives the bytes back, into exactly
    [EVP_DecodedLength] bytes of space, for every input; [EVP_EncodeBlock]
    returns the number of characters before the NUL, four for every started
    group of three bytes, and uses no character that the decoder skips. *)
Theorem base64_block_roundtrip (src : list Z) (Hsrc : bytes_ok src) :
  let '(dst, ret) := EVP_EncodeBlock src in
  dst = encode_chars src ++ [0] ∧ ret = (CBS_len src + 2) / 3 * 4 ∧
  Forall (λ c, is_b64_space c = false) (encode_chars src) ∧
  EVP_DecodeBase64 ((CBS_len src + 2) / 3 * 3) (encode_chars src) = Some src.
Proof.
  cbn. pose proof (encode_chars_length src Hsrc) as Hl. split_and!; [done|done|by apply encode_chars_spaceless|].
  unfold EVP_DecodeBase64, EVP_DecodedLength. rewrite Hl, Z.mod_mul, Z.div_mul by lia. cbn [Z.eqb negb].
  rewrite Z.ltb_irrefl. by apply decode_encode.
Qed.

Lemma base64_block_roundtrip_witness :
  let '(dst, ret) := EVP_EncodeBlock [255; 0; 16; 1] in
  dst = encode_chars [255; 0; 16; 1] ++ [0] ∧ ret = (CBS_len [255; 0; 16; 1] + 2) / 3 * 4 ∧
  Forall (λ c, is_b64_space c = false) (encode_chars [255; 0; 16; 1]) ∧
  EVP_DecodeBase64 ((CBS_len [255; 0; 16; 1] + 2) / 3 * 3) (encode_chars [255; 0; 16; 1]) = Some [255; 0; 16; 1].
Proof. exact (base64_block_roundtrip [255; 0; 16; 1] ltac:(repeat constructor; lia)). Defined.

Lemma encoded_length_spec len :
  in_range 64 len →
  EVP_EncodedLength len = (let n := (len + 2) / 3 * 4 + 1 in if n <? 2 ^ 64 then Some n else None).
Proof.
  intros Hl. unfold EVP_EncodedLength. cbn zeta.
  assert (Hdiv : (len + 2) / 3 * 3 <= len + 2 < (len + 2) / 3 * 3 + 3)
    by (pose proof (Z.div_mod (len + 2) 3); pose proof (Z.mod_pos_bound (len + 2) 3); lia).
  destruct (Z.lt_ge_cases (len + 2) (2 ^ 64)) as [Hlt|Hge].
  - rewrite (wrap_small 64 (len + 2)) by lia. destruct (Z.ltb_spec (len + 2) len); [lia|].
    set (q := (len + 2) / 3) in *. rewrite Z.shiftl_mul_pow2 by lia. change (2 ^ 2) with 4.
    destruct (Z.lt_ge_cases (q * 4) (2 ^ 64)) as [Hq|Hq].
    + rewrite (wrap_small 64 (q * 4)) by lia. rewrite Z.shiftr_div_pow2 by lia. change (2 ^ 2) with 4.
      rewrite Z.div_mul by lia. rewrite Z.eqb_refl. cbn [negb].
      rewrite wrap_small by lia.
      destruct (Z.ltb_spec (q * 4 + 1) (q * 4)), (Z.ltb_spec (q * 4 + 1) (2 ^ 64)); try lia; done.
    + pose proof (wrap_range 64 (q * 4) ltac:(lia)) as Hr. rewrite Z.shiftr_div_pow2 by lia. change (2 ^ 2) with 4.
      destruct (Z.eqb_spec (wrap 64 (q * 4) / 4) q) as [E|_]; cbn [negb].
      * assert (wrap 64 (q * 4) / 4 < 2 ^ 62) by (apply Z.div_lt_upper_bound; lia). lia.
      * by destruct (Z.ltb_spec (q * 4 + 1) (2 ^ 64)); [lia|].
  - assert (E : len ⊞[64] 2 = len + 2 - 2 ^ 64) by (symmetry; apply (Z.mod_unique _ _ 1); lia).
    rewrite E. destruct (Z.ltb_spec (len + 2 - 2 ^ 64) len); [|lia].
    by destruct (Z.ltb_spec ((len + 2) / 3 * 4 + 1) (2 ^ 64)); [lia|].
Qed.

(** [EVP_EncodedLength] is the space the encoding and its NUL need, and
    fails exactly when that number does not fit a [size_t]; no intermediate
    overflow goes unnoticed. *)
Theorem EVP_EncodedLength_spec (src : list Z) (Hsrc : bytes_ok src) (Hlen : in_range 64 (CBS_len src)) :
  EVP_EncodedLength (CBS_len src) =
    (let n := CBS_len (fst (EVP_EncodeBlock src)) in if n <? 2 ^ 64 then Some n else None).
Proof.
  rewrite encoded_length_spec by done. cbn [EVP_EncodeBlock fst]. rewrite CBS_len_app, encode_chars_length by done. done.
Qed.

Lemma EVP_EncodedLength_spec_witness :
  EVP_EncodedLength (CBS_len [1; 2]) =
    (let n := CBS_len (fst (EVP_EncodeBlock [1; 2])) in if n <? 2 ^ 64 then Some n else None).
Proof. apply (EVP_EncodedLength_spec [1; 2]); [repeat constructor; lia|by vm_compute]. Defined.

(** ** Streaming encoding *)

(** [n] lines of 48 bytes each. *)
Fixpoint full_lines (n : nat) (l : list Z) : list Z :=
  match n with
  | O => []
  | S n => encode_chars (take 48 l) ++ [NEWLINE] ++ full_lines n (drop 48 l)
  end.

(** The PEM body of [l]: lines of 64 characters and a last, shorter one. *)
Definition pem_lines (l : list Z) : list Z :=
  let n := (length l / 48)%nat in
  full_lines n l ++
  match drop (48 * n) l with [] => [] | r => encode_chars r ++ [NEWLINE] end.

(** The encoder holds the bytes [p]. *)
Definition holding (ctx : EVP_ENCODE_CTX) (p : list Z) : Prop :=
  data_used ctx = CBS_len p ∧ (length p < 48)%nat ∧ length (data ctx) = 48%nat ∧ take (length p) (data ctx) = p.

Lemma line_length l : bytes_ok l → (48 ≤ length l)%nat → CBS_len (encode_chars (take 48 l)) = 64.
Proof.
  intros Hl Hn. rewrite encode_chars_length by by apply Forall_take.
  unfold CBS_len. by rewrite length_take, Nat.min_l.
Qed.

Lemma full_lines_length n l : bytes_ok l → (48 * n ≤ length l)%nat → CBS_len (full_lines n l) = 65 * Z.of_nat n.
Proof.
  revert l. induction n as [|n IH]; intros l Hl Hn; [done|]. cbn [full_lines].
  rewrite !CBS_len_app, line_length, IH by (done || lia || (by apply Forall_drop) || (rewrite length_drop; lia)).
  change (CBS_len [NEWLINE]) with 1. lia.
Qed.

Lemma update_loop_spec n inp out total :
  bytes_ok inp → (48 * n ≤ length inp)%nat → 0 <= total → total + 65 * Z.of_nat n < 2 ^ 64 →
  encode_update_loop n inp out total =
    (out ++ full_lines n inp, total + 65 * Z.of_nat n, drop (48 * n) inp, true).
Proof.
  revert inp out total. induction n as [|n IH]; intros inp out total Hi Hn Ht Hlt.
  - cbn. by rewrite app_nil_r, Z.add_0_r.
  - cbn [encode_update_loop]. change (Z.to_nat sizeof_data) with 48%nat. rewrite line_length by (done || lia).
    rewrite wrap_small by lia. destruct (Z.ltb_spec (total + (64 + 1)) total); [lia|].
    rewrite IH by (lia || (by apply Forall_drop) || (rewrite length_drop; lia)).
    cbn [full_lines]. rewrite drop_drop, <- !app_assoc. do 3 f_equal; [lia|f_equal; lia].
Qed.

Lemma full_lines_app n l t : (48 * n ≤ length l)%nat → full_lines n (l ++ t) = full_lines n l.
Proof.
  revert l. induction n as [|n IH]; intros l Hn; [done|]. cbn [full_lines].
  rewrite take_app_le, drop_app_le by lia. by rewrite IH by (rewrite length_drop; lia).
Qed.

Lemma store_data_spec (d p inp : list Z) :
  length d = 48%nat → take (length p) d = p → (length p + length inp ≤ 48)%nat →
  length (store_data d (CBS_len p) inp) = 48%nat ∧
  take (length (p ++ inp)) (store_data d (CBS_len p) inp) = p ++ inp.
Proof.
  intros Hd Hp Hn. unfold store_data, CBS_len. rewrite Nat2Z.id, Hp. split.
  - rewrite !length_app, length_drop. lia.
  - by rewrite app_assoc, take_app_length.
Qed.

Lemma div48 a b : (b < 48)%nat → ((48 * a + b) / 48 = a)%nat.
Proof. intros. symmetry. by apply (Nat.div_unique _ 48 a b). Qed.

Lemma rest_short (l : list Z) : (length (drop (48 * (length l / 48)) l) < 48)%nat.
Proof. rewrite length_drop. pose proof (Nat.div_mod_eq (length l) 48). pose proof (Nat.mod_upper_bound (length l) 48). lia. Qed.

Lemma nat_div48_Z n : Z.to_nat (Z.of_nat n / sizeof_data) = (n / 48)%nat.
Proof. change sizeof_data with (Z.of_nat 48). by rewrite <- Nat2Z.inj_div, Nat2Z.id. Qed.

(** What [EVP_EncodeUpdate] does after the data buffer has been dealt with. *)
Lemma update_tail ctx d inp out total :
  bytes_ok inp → length d = 48%nat → CBS_len out = total → 
  total + 65 * Z.of_nat (length inp / 48) <= INT_MAX →
  let '(out', total', inp', ok) := encode_update_loop (Z.to_nat (CBS_len inp / sizeof_data)) inp out total in
  ok = true ∧ out' = out ++ full_lines (length inp / 48) inp ∧ total' = CBS_len out' ∧ total' <= INT_MAX ∧
  holding (mkEncodeCtx (CBS_len inp') (if negb (CBS_len inp' =? 0) then store_data d 0 inp' else d)
             (eof_seen ctx) (error_encountered ctx)) (drop (48 * (length inp / 48)) inp).
Proof.
  intros Hi Hd Ho Hmax. pose proof (CBS_len_nonneg out).
  assert (Hle : (48 * (length inp / 48) ≤ length inp)%nat) by apply Nat.Div0.mul_div_le.
  unfold CBS_len at 1. rewrite nat_div48_Z.
  assert (INT_MAX < 2 ^ 64) by (unfold INT_MAX; lia).
  rewrite update_loop_spec; [|done|done|lia|lia].
  pose proof (rest_short inp) as Hr. set (r := drop _ inp) in *.
  split_and!; [done|done|rewrite CBS_len_app, full_lines_length by done; lia|lia|].
  unfold holding. cbn [data_used data].
  destruct (Z.eqb_spec (CBS_len r) 0) as [E|E]; cbn [negb].
  - assert (r = []) as -> by (destruct r; [done|unfold CBS_len in E; cbn in E; lia]). by split_and!.
  - destruct (store_data_spec d [] r Hd eq_refl) as [H1 H2]; [change (length []) with 0%nat; clearbody r; lia|]. cbn [app] in H2. by split_and!.
Qed.

Lemma encode_update_spec ctx p inp :
  holding ctx p → bytes_ok (p ++ inp) →
  65 * Z.of_nat (length (p ++ inp) / 48) <= INT_MAX →
  let n := (length (p ++ inp) / 48)%nat in
  let '(ctx', out, out_len) := EVP_EncodeUpdate ctx inp in
  out_len = 65 * Z.of_nat n ∧ take (Z.to_nat out_len) out = full_lines n (p ++ inp) ∧
  holding ctx' (drop (48 * n) (p ++ inp)).
Proof.
  intros (Hu & Hp & Hd & Ht) Hb Hmax. cbn zeta. pose proof Hb as [Hbp Hbi]%Forall_app.
  unfold EVP_EncodeUpdate. rewrite Hu. change sizeof_data with 48.
  destruct (Z.eqb_spec (CBS_len inp) 0) as [E|E].
  { assert (inp = []) as -> by (destruct inp; [done|unfold CBS_len in E; cbn in E; lia]).
    rewrite app_nil_r. rewrite (Nat.div_small (length p)) by done. cbn. by split_and!. }
  rewrite Z.gtb_ltb. destruct (Z.ltb_spec (CBS_len inp) (48 - CBS_len p)) as [Hlt|Hge].
  { unfold CBS_len in Hlt. rewrite Nat.div_small by (rewrite length_app; lia).
    change (48 * 0)%nat with 0%nat. rewrite drop_0. cbn [full_lines].
    destruct (store_data_spec (data ctx) p inp) as [H1 H2]; [done|done|lia|].
    split_and!; [done|done|]. unfold holding. cbn [data_used data].
    split_and!; [rewrite CBS_len_app; lia|rewrite length_app; lia|done|done]. }
  destruct (Z.eqb_spec (CBS_len p) 0) as [Ep|Ep]; cbn [negb].
  - assert (p = []) as -> by (destruct p; [done|unfold CBS_len in Ep; cbn in Ep; lia]). cbn [app] in *.
    pose proof (update_tail ctx (data ctx) inp [] 0 Hbi Hd eq_refl ltac:(lia)) as H.
    change (CBS_len inp / 48) with (CBS_len inp / sizeof_data).
    destruct (encode_update_loop _ inp [] 0) as [[[out' total'] inp'] ok].
    destruct H as (-> & -> & -> & Hle & Hh). cbn [app] in *.
    rewrite Z.gtb_ltb. destruct (Z.ltb_spec INT_MAX (CBS_len (full_lines (length inp / 48) inp))); [lia|].
    assert (Hl : CBS_len (full_lines (length inp / 48) inp) = 65 * Z.of_nat (length inp / 48)).
    { apply full_lines_length; [done|apply Nat.Div0.mul_div_le]. }
    split_and!; [done| |].
    + unfold CBS_len. by rewrite Nat2Z.id, take_app_length.
    + destruct Hh as (H1 & H2 & H3 & H4). by split_and!.
  - set (k := Z.to_nat (48 - CBS_len p)).
    assert (Hk : (length p + k = 48)%nat) by (subst k; unfold CBS_len; lia).
    assert (Hki : (k ≤ length inp)%nat) by (subst k; unfold CBS_len in *; lia).
    destruct (store_data_spec (data ctx) p (take k inp) Hd Ht) as [H1 H2]; [rewrite length_take; lia|].
    set (d := store_data (data ctx) (CBS_len p) (take k inp)) in *.
    assert (Ed : d = p ++ take k inp).
    { rewrite <- H2. symmetry. apply take_ge. rewrite length_app, length_take. lia. }
    assert (Esplit : p ++ inp = d ++ drop k inp) by (rewrite Ed, <- app_assoc; by rewrite take_drop).
    assert (Hbd : bytes_ok d) by (rewrite Ed; apply Forall_app; split; [done|by apply Forall_take]).
    assert (Hline : CBS_len (encode_chars d) = 64).
    { rewrite <- (take_ge d 48) by lia. apply line_length; [done|lia]. }
    assert (Hdivs : (length (p ++ inp) / 48 = S (length (drop k inp) / 48))%nat).
    { rewrite Esplit, length_app, H1. replace (48 + length (drop k inp))%nat with (length (drop k inp) + 1 * 48)%nat by lia.
      rewrite Nat.div_add by lia. lia. }
    rewrite Hdivs in *.
    pose proof (update_tail ctx d (drop k inp) (encode_chars d ++ [NEWLINE]) (CBS_len (encode_chars d) + 1)
      ltac:(by apply Forall_drop) H1 ltac:(by rewrite CBS_len_app) ltac:(lia)) as H.
    change (CBS_len (drop k inp) / 48) with (CBS_len (drop k inp) / sizeof_data).
    destruct (encode_update_loop _ _ _ _) as [[[out' total'] inp'] ok].
    destruct H as (-> & -> & -> & Hle & Hh).
    rewrite Z.gtb_ltb. set (o := (_ ++ _) ++ _) in *. destruct (Z.ltb_spec INT_MAX (CBS_len o)); [lia|].
    assert (Eo : o = full_lines (S (length (drop k inp) / 48)) (p ++ inp)).
    { subst o. rewrite Esplit. cbn [full_lines]. rewrite take_app_le, drop_app_le, (take_ge d), (drop_ge d) by lia.
      cbn [app]. by rewrite <- app_assoc. }
    split_and!.
    + rewrite Eo. apply full_lines_length; [done|]. rewrite <- Hdivs. apply Nat.Div0.mul_div_le.
    + rewrite <- Eo. unfold CBS_len. by rewrite Nat2Z.id, take_app_length.
    + rewrite Esplit, drop_app_ge, H1 by lia.
      by replace (48 * S (length (drop k inp) / 48) - 48)%nat with (48 * (length (drop k inp) / 48))%nat by lia.
Qed.

(** A caller of the streaming encoder: it keeps the [*out_len] first bytes that
    each call stores. *)
Fixpoint encode_stream (ctx : EVP_ENCODE_CTX) (chunks : list (list Z)) : list Z :=
  match chunks with
  | [] => let '(_, out, out_len) := EVP_EncodeFinal ctx in take (Z.to_nat out_len) out
  | c :: chunks =>
      let '(ctx, out, out_len) := EVP_EncodeUpdate ctx c in
      take (Z.to_nat out_len) out ++ encode_stream ctx chunks
  end.

Lemma full_lines_split n m l :
  full_lines (n + m) l = full_lines n l ++ full_lines m (drop (48 * n) l).
Proof.
  revert l. induction n as [|n IH]; intros l; [done|].
  cbn [Nat.add full_lines]. rewrite IH, drop_drop, <- !app_assoc.
  by replace (48 + 48 * n)%nat with (48 * S n)%nat by lia.
Qed.

Lemma pem_lines_app n l t : (48 * n ≤ length l)%nat → pem_lines (l ++ t) = full_lines n l ++ pem_lines (drop (48 * n) l ++ t).
Proof.
  intros Hn. unfold pem_lines.
  assert (E : (length (l ++ t) / 48 = n + length (drop (48 * n) l ++ t) / 48)%nat).
  { rewrite !length_app, length_drop.
    replace (length l + length t)%nat with ((length l - 48 * n + length t) + n * 48)%nat by lia.
    rewrite Nat.div_add by lia. lia. }
  rewrite E, full_lines_split, full_lines_app by done. rewrite <- app_assoc.
  replace (drop (48 * n) (l ++ t)) with (drop (48 * n) l ++ t) by (by rewrite drop_app_le).
  rewrite Nat.mul_add_distr_l, <- drop_drop. by rewrite drop_app_le by done.
Qed.

Lemma encode_final_spec ctx p :
  holding ctx p → bytes_ok p →
  let '(_, out, out_len) := EVP_EncodeFinal ctx in take (Z.to_nat out_len) out = pem_lines p.
Proof.
  intros (Hu & Hp & Hd & Ht) Hb. unfold EVP_EncodeFinal, pem_lines. rewrite Hu, Nat.div_small by done.
  change (48 * 0)%nat with 0%nat. rewrite drop_0. cbn [full_lines app].
  destruct p as [|x p']; [done|]. set (p := x :: p') in *.
  destruct (Z.eqb_spec (CBS_len p) 0) as [E|_]; [unfold CBS_len in E; cbn in E; lia|].
  replace (Z.to_nat (CBS_len p)) with (length p) by (unfold CBS_len; lia). rewrite Ht.
  replace (Z.to_nat (CBS_len (encode_chars p) + 1)) with (length (encode_chars p ++ [NEWLINE]))
    by (rewrite length_app; unfold CBS_len; cbn [length]; lia).
  change [NEWLINE; 0] with ([NEWLINE] ++ [0]). rewrite app_assoc. apply take_app_length.
Qed.

Lemma encode_stream_spec ctx p chunks :
  holding ctx p → bytes_ok p → Forall bytes_ok chunks →
  Forall (λ c, 65 * ((CBS_len c + 47) / 48) <= INT_MAX) chunks →
  encode_stream ctx chunks = pem_lines (p ++ concat chunks).
Proof.
  intros Hh Hp Hc Hmax. revert ctx p Hh Hp. induction chunks as [|c chunks IH]; intros ctx p Hh Hp.
  - cbn. pose proof (encode_final_spec ctx p Hh Hp) as H. rewrite app_nil_r.
    by destruct (EVP_EncodeFinal ctx) as [[? ?] ?].
  - apply Forall_cons in Hc as [Hc Hcs], Hmax as [Hm Hms]. cbn [encode_stream concat].
    assert (Hpc : bytes_ok (p ++ c)) by by apply Forall_app.
    assert (Hdiv : 65 * Z.of_nat (length (p ++ c) / 48) <= INT_MAX).
    { etrans; [|exact Hm]. apply Z.mul_le_mono_nonneg_l; [lia|]. rewrite Nat2Z.inj_div.
      apply Z.div_le_mono; [lia|]. destruct Hh as (_ & ? & _). rewrite length_app. unfold CBS_len. lia. }
    pose proof (encode_update_spec ctx p c Hh Hpc Hdiv) as H. cbn zeta in H.
    destruct (EVP_EncodeUpdate ctx c) as [[ctx' out] out_len]. destruct H as (-> & -> & Hh').
    rewrite app_assoc, (pem_lines_app (length (p ++ c) / 48) (p ++ c)) by apply Nat.Div0.mul_div_le.
    f_equal. apply IH; [done|done|done|by apply Forall_drop].
Qed.

Lemma init_holding : holding EVP_EncodeInit [].
Proof. by split_and!; [|cbn; lia|..]. Qed.

(** C23: streaming base64 does not depend on how the input is cut into calls:
    the bytes that [EVP_EncodeUpdate] and [EVP_EncodeFinal] report are the PEM
    body of the concatenation, in lines of 64 characters. *)
Theorem EVP_Encode_stream (chunks : list (list Z)) (Hc : Forall bytes_ok chunks)
    (Hmax : Forall (λ c, 65 * ((CBS_len c + 47) / 48) <= INT_MAX) chunks) :
  encode_stream EVP_EncodeInit chunks = pem_lines (concat chunks).
Proof. apply (encode_stream_spec _ []); [apply init_holding|constructor|done|done]. Qed.

Lemma EVP_Encode_stream_witness :
  encode_stream EVP_EncodeInit [replicate 40 7; [1]; replicate 20 9] = pem_lines (concat [replicate 40 7; [1]; replicate 20 9]).
Proof.
  apply EVP_Encode_stream; [|by repeat apply Forall_cons_2; try constructor].
  repeat apply Forall_cons_2; try apply Forall_replicate; try constructor; try lia; constructor.
Defined.

(** ** Streaming decoding *)
Lemma decode_loop_app ctx a b out :
  decode_update_loop ctx (a ++ b) out =
    (let '(ctx', out', err) := decode_update_loop ctx a out in
     if err : bool then (ctx', out', true) else decode_update_loop ctx' b out').
Proof.
  revert ctx out. induction a as [|c a IH]; intros ctx out; [done|]. cbn [app decode_update_loop].
  destruct (is_b64_space c); [apply IH|]. destruct (eof_seen ctx); [done|].
  cbn zeta. cbn [data_used data eof_seen error_encountered]. destruct (_ =? 4); [|apply IH].
  destruct (base64_decode_quad _ _ _ _); [apply IH|done].
Qed.

Lemma decode_loop_spaces ctx inp out :
  decode_update_loop ctx inp out = decode_update_loop ctx (filter (λ c, is_b64_space c = false) inp) out.
Proof.
  revert ctx out. induction inp as [|c inp IH]; intros ctx out; [done|]. rewrite filter_cons.
  destruct (decide (is_b64_space c = false)) as [E|E]; cbn [decode_update_loop].
  - rewrite E. destruct (eof_seen ctx); [done|]. cbn zeta. cbn [data_used data eof_seen error_encountered].
    destruct (_ =? 4); [|apply IH]. destruct (base64_decode_quad _ _ _ _); [apply IH|done].
  - apply not_false_is_true in E. rewrite E. apply IH.
Qed.

(** The decoder between quads. *)
Definition at_quad (ctx : EVP_ENCODE_CTX) : Prop :=
  data_used ctx = 0 ∧ length (data ctx) = 48%nat ∧ error_encountered ctx = false.

Lemma decode_push u d er c inp out :
  is_b64_space c = false → (u + 1 =? 4) = false →
  decode_update_loop (mkEncodeCtx u d false er) (c :: inp) out =
  decode_update_loop (mkEncodeCtx (u + 1) (<[Z.to_nat u := c]> d) false er) inp out.
Proof. intros Hc Hu. cbn [decode_update_loop]. rewrite Hc. cbn [eof_seen data_used]. by rewrite Hu. Qed.

Lemma decode_quad_loop ctx c0 c1 c2 c3 bytes rest out :
  at_quad ctx → eof_seen ctx = false → Forall (λ c, is_b64_space c = false) [c0; c1; c2; c3] →
  base64_decode_quad c0 c1 c2 c3 = Some bytes →
  ∃ ctx', decode_update_loop ctx (c0 :: c1 :: c2 :: c3 :: rest) out = decode_update_loop ctx' rest (out ++ bytes) ∧
    at_quad ctx' ∧ eof_seen ctx' = (CBS_len bytes <? 3).
Proof.
  intros (Hu & Hd & He) Heof Hs Hq.
  apply Forall_cons in Hs as [H0 Hs], Hs as [H1 Hs], Hs as [H2 Hs], Hs as [H3 _].
  destruct ctx as [u d eof er]; cbn in Hu, Hd, He, Heof. subst u eof er.
  destruct d as [|d0 [|d1 [|d2 [|d3 d]]]]; try (cbn in Hd; lia).
  rewrite !decode_push by done. cbn [decode_update_loop]. rewrite H3. cbn [eof_seen data_used data].
  change (0 + 1 + 1 + 1 + 1 =? 4) with true. cbv iota.
  change (base64_decode_quad _ _ _ _) with (base64_decode_quad c0 c1 c2 c3). rewrite Hq.
  eexists. split; [done|]. split; [done|]. cbn. by destruct (_ <? 3).
Qed.

Lemma decode_update_chars src ctx out :
  bytes_ok src → at_quad ctx → eof_seen ctx = false →
  ∃ ctx', decode_update_loop ctx (encode_chars src) out = (ctx', out ++ src, false) ∧ at_quad ctx'.
Proof.
  intros Hsrc. revert ctx out. revert src Hsrc.
  apply (groups_ind (λ src, ∀ ctx out, at_quad ctx → eof_seen ctx = false →
    ∃ ctx', decode_update_loop ctx (encode_chars src) out = (ctx', out ++ src, false) ∧ at_quad ctx')).
  - intros ctx out H _. exists ctx. by rewrite app_nil_r.
  - intros g Hg Hlen ctx out Hq Heof. destruct (group_spec g Hg ltac:(lia)) as (c0 & c1 & c2 & c3 & Hd & Hs & He).
    specialize (He [] ltac:(by right)). rewrite app_nil_r in He. rewrite He. cbn [app encode_chars].
    destruct (decode_quad_loop ctx c0 c1 c2 c3 g [] out Hq Heof Hs Hd) as (ctx' & E & Hq' & _).
    exists ctx'. by rewrite E.
  - intros g rest Hg Hlen Hr IH ctx out Hq Heof.
    destruct (group_spec g Hg ltac:(lia)) as (c0 & c1 & c2 & c3 & Hd & Hs & He).
    rewrite He by by left. cbn [app].
    destruct (decode_quad_loop ctx c0 c1 c2 c3 g (encode_chars rest) out Hq Heof Hs Hd) as (ctx' & E & Hq' & Heof').
    rewrite E, app_assoc. apply IH; [done|]. rewrite Heof'. unfold CBS_len. by rewrite Hlen.
Qed.

(** A caller of the streaming decoder: [None] once a call reports an error. *)
Fixpoint decode_stream (ctx : EVP_ENCODE_CTX) (chunks : list (list Z)) : option (list Z) :=
  match chunks with
  | [] => if EVP_DecodeFinal ctx =? 1 then Some [] else None
  | c :: chunks =>
      let '(ctx, out, out_len, ret) := EVP_DecodeUpdate ctx c in
      if ret <? 0 then None
      else rest ← decode_stream ctx chunks; Some (take (Z.to_nat out_len) out ++ rest)
  end.

Lemma decode_loop_out ctx inp out ctx' out' err :
  decode_update_loop ctx inp out = (ctx', out', err) →
  (∃ t, out' = out ++ t) ∧
  ∀ o, decode_update_loop ctx inp o = (ctx', o ++ drop (length out) out', err).
Proof.
  revert ctx out. induction inp as [|c inp IH]; intros ctx out; cbn [decode_update_loop].
  - intros [= <- <- <-]. split; [exists []; by rewrite app_nil_r|]. intros o. by rewrite drop_ge, app_nil_r by lia.
  - destruct (is_b64_space c); [apply IH|]. destruct (eof_seen ctx).
    + intros [= <- <- <-]. split; [exists []; by rewrite app_nil_r|]. intros o. by rewrite drop_ge, app_nil_r by lia.
    + cbn zeta. cbn [data_used data eof_seen error_encountered]. destruct (_ =? 4); [|apply IH].
      destruct (base64_decode_quad _ _ _ _) as [bytes|].
      * intros H. destruct (IH _ _ H) as [[t ->] Ho]. split; [exists (bytes ++ t); by rewrite app_assoc|].
        intros o. rewrite Ho, drop_app_length, <- (app_assoc out), drop_app_length. by rewrite <- app_assoc.
      * intros [= <- <- <-]. split; [exists []; by rewrite app_nil_r|]. intros o. by rewrite drop_ge, app_nil_r by lia.
Qed.

Lemma decode_loop_error ctx inp out :
  error_encountered ctx = false →
  let '(ctx', _, err) := decode_update_loop ctx inp out in error_encountered ctx' = err.
Proof.
  revert ctx out. induction inp as [|c inp IH]; intros ctx out He; cbn [decode_update_loop]; [done|].
  destruct (is_b64_space c); [by apply IH|]. destruct (eof_seen ctx); [done|].
  cbn zeta. cbn [data_used data eof_seen error_encountered]. destruct (_ =? 4); [|by apply IH].
  destruct (base64_decode_quad _ _ _ _); [by apply IH|done].
Qed.

Lemma decode_stream_spec ctx chunks ctx' out :
  error_encountered ctx = false → decode_update_loop ctx (concat chunks) [] = (ctx', out, false) →
  data_used ctx' = 0 → error_encountered ctx' = false → CBS_len out <= INT_MAX →
  decode_stream ctx chunks = Some out.
Proof.
  revert ctx out. induction chunks as [|c chunks IH]; intros ctx out He; cbn [concat decode_stream].
  - intros [= <- <-] Hu _ _. unfold EVP_DecodeFinal. by rewrite He, Hu.
  - rewrite decode_loop_app. intros H Hu He' Hmax. unfold EVP_DecodeUpdate. rewrite He.
    pose proof (decode_loop_error ctx c [] He) as Herr.
    destruct (decode_update_loop ctx c []) as [[ctx1 out1] err1]. destruct err1; [done|].
    destruct (decode_loop_out _ _ _ _ _ _ H) as [[t ->] Ho]. specialize (Ho []).
    rewrite drop_app_length in Ho. cbn [app] in Ho. rewrite CBS_len_app in Hmax.
    pose proof (CBS_len_nonneg out1). pose proof (CBS_len_nonneg t).
    rewrite Z.gtb_ltb. destruct (Z.ltb_spec INT_MAX (CBS_len out1)); [lia|].
    rewrite (IH ctx1 t Herr Ho Hu He' ltac:(lia)).
    unfold CBS_len. rewrite Nat2Z.id, firstn_all. by destruct (eof_seen ctx1).
Qed.

(** C24: streaming decoding inverts encoding whatever whitespace is inserted and
    however the characters are cut into calls: if the characters other than
    spaces, tabs and line ends are the encoding of [src], then every
    [EVP_DecodeUpdate] succeeds, the bytes they report are [src], and
    [EVP_DecodeFinal] accepts. *)
Theorem EVP_Decode_stream (src : list Z) (chunks : list (list Z)) (Hsrc : bytes_ok src)
    (Hchars : filter (λ c, is_b64_space c = false) (concat chunks) = encode_chars src)
    (Hmax : CBS_len src <= INT_MAX) :
  decode_stream EVP_DecodeInit chunks = Some src.
Proof.
  destruct (decode_update_chars src EVP_DecodeInit [] Hsrc) as (ctx' & E & Hu & Hd & He); [by split_and!|done|].
  rewrite <- Hchars, <- decode_loop_spaces in E. by eapply decode_stream_spec.
Qed.

Lemma EVP_Decode_stream_witness : decode_stream EVP_DecodeInit [[10; 97]; [32; 71]; [107; 61; 13]] = Some [104; 105].
Proof. apply EVP_Decode_stream; [repeat constructor; lia|by vm_compute|by vm_compute]. Defined.
