(* ===== verification/Stack.v ===== *)
(** [OPENSSL_STACK], [crypto/stack/stack.c]: a growable array of pointers with
    an optional comparison function, heap sort and binary search.

    A pointer is an address, 0 is NULL.  Comparison, predicate and copy
    functions are functions on pointers; [comp] is the identity of the stack's
    comparison function, and [cmp f p q] what [call_cmp_func(f, p, q)] returns.
    Reading or writing outside [data] is [None]. *)
From stdpp Require Import sorting.
From S2P Require Import Prelude Radix Mem.

Abbreviation ptr := Z.
Definition NULL : ptr := 0.

Record stack_st := mkStack {
  num : nat;
  data : list ptr;           (* the allocation *)
  sorted : bool;
  num_alloc : nat;
  comp : option nat;
}.

Definition kMinSize : nat := 4.
Definition sizeof_ptr : Z := 8.
Definition sizeof_stack : Z := 40.

(** The pointers a block of bytes holds. *)
Fixpoint ptrs_of_bytes (n : nat) (block : list Z) : list ptr :=
  match n with
  | O => []
  | S n => be_val (rev (take 8 block)) :: ptrs_of_bytes n (drop 8 block)
  end.

Section alloc.
Context {A : Allocator}.

(** Allocations number [t] and [t + 1]. *)
Definition OPENSSL_sk_new (t : nat) (c : option nat) : option stack_st :=
  match OPENSSL_zalloc t sizeof_stack with
  | None => None
  | Some _ =>
      match OPENSSL_calloc (S t) (Z.of_nat kMinSize) sizeof_ptr with
      | None => None
      | Some block => Some (mkStack 0 (ptrs_of_bytes kMinSize block) false kMinSize c)
      end
  end.
Definition OPENSSL_sk_new_null (t : nat) : option stack_st := OPENSSL_sk_new t None.

(** [OPENSSL_realloc] of the pointer array. *)
Definition realloc_data (t : nat) (d : list ptr) (new_alloc : nat) (alloc_size : Z) : option (list ptr) :=
  match OPENSSL_malloc t alloc_size with
  | None => None
  | Some block => Some (take new_alloc d ++ drop (length d) (ptrs_of_bytes new_alloc block))
  end.

(** The new size of the array, [None] when both attempts overflow. *)
Definition grow (num_alloc : Z) : option (Z * Z) :=
  let overflows n size := (n <? num_alloc) || negb (size / sizeof_ptr =? n) in
  let new_alloc := num_alloc ≪[64] 1 in
  let alloc_size := new_alloc ⊠[64] sizeof_ptr in
  let '(new_alloc, alloc_size) :=
    if overflows new_alloc alloc_size then (num_alloc ⊞[64] 1, (num_alloc ⊞[64] 1) ⊠[64] sizeof_ptr)
    else (new_alloc, alloc_size) in
  if overflows new_alloc alloc_size then None else Some (new_alloc, alloc_size).

Definition insert_at (d : list ptr) (n : nat) (p : ptr) (where_ : nat) : option (list ptr) :=
  if (n <=? where_)%nat then
    if (n <? length d)%nat then Some (<[n := p]> d) else None
  else
    (* memmove of [n - where_] pointers *)
    if (n <? length d)%nat then
      Some (take where_ d ++ p :: take (n - where_) (drop where_ d) ++ drop (S n) d)
    else None.

(** The new stack and the return value. *)
Definition OPENSSL_sk_insert (t : nat) (sk : stack_st) (p : ptr) (where_ : nat) : option (stack_st * Z) :=
  if Z.of_nat (num sk) >=? INT_MAX then Some (sk, 0)
  else
    let grown :=
      if (num_alloc sk <=? num sk + 1)%nat then
        match grow (Z.of_nat (num_alloc sk)) with
        | None => None
        | Some (new_alloc, alloc_size) =>
            match realloc_data t (data sk) (Z.to_nat new_alloc) alloc_size with
            | None => None
            | Some d => Some (d, Z.to_nat new_alloc)
            end
        end
      else Some (data sk, num_alloc sk) in
    match grown with
    | None => Some (sk, 0)
    | Some (d, na) =>
        d ← insert_at d (num sk) p where_;
        Some (mkStack (num sk + 1) d false na (comp sk), Z.of_nat (num sk + 1))
    end.

Definition OPENSSL_sk_push (t : nat) (sk : stack_st) (p : ptr) : option (stack_st * Z) :=
  OPENSSL_sk_insert t sk p (num sk).

(** A copy of the whole allocation. *)
Definition OPENSSL_sk_dup (t : nat) (sk : stack_st) : option stack_st :=
  match OPENSSL_zalloc t sizeof_stack with
  | None => None
  | Some _ =>
      if sizeof_ptr * Z.of_nat (num_alloc sk) =? 0 then None
      else
        match OPENSSL_malloc (S t) (sizeof_ptr * Z.of_nat (num_alloc sk)) with
        | None => None
        | Some _ => Some (mkStack (num sk) (data sk) (sorted sk) (num_alloc sk) (comp sk))
        end
  end.
End alloc.

Definition OPENSSL_sk_num (sk : option stack_st) : nat :=
  match sk with None => 0%nat | Some sk => num sk end.

Definition OPENSSL_sk_zero (sk : stack_st) : stack_st :=
  if (num sk =? 0)%nat then sk
  else mkStack 0 (replicate (num sk) NULL ++ drop (num sk) (data sk)) false (num_alloc sk) (comp sk).

Definition OPENSSL_sk_value (sk : option stack_st) (i : nat) : option ptr :=
  match sk with
  | None => Some NULL
  | Some sk => if (num sk <=? i)%nat then Some NULL else data sk !! i
  end.

Definition OPENSSL_sk_set (sk : stack_st) (i : nat) (value : ptr) : stack_st * ptr :=
  if (num sk <=? i)%nat then (sk, NULL)
  else (mkStack (num sk) (<[i := value]> (data sk)) (sorted sk) (num_alloc sk) (comp sk), value).

(** The pointers passed to [free_func], in order. *)
Definition OPENSSL_sk_pop_free_ex (sk : option stack_st) : list ptr :=
  match sk with
  | None => []
  | Some sk => filter (λ p, p ≠ NULL) (take (num sk) (data sk))
  end.

Definition OPENSSL_sk_delete (sk : stack_st) (where_ : nat) : option (stack_st * ptr) :=
  if (num sk <=? where_)%nat then Some (sk, NULL)
  else
    ret ← data sk !! where_;
    let n := num sk in
    let d := if negb (where_ =? n - 1)%nat
             then take where_ (data sk) ++ take (n - where_ - 1) (drop (S where_) (data sk)) ++ drop (n - 1) (data sk)
             else data sk in
    Some (mkStack (n - 1) d (sorted sk) (num_alloc sk) (comp sk), ret).

(** The first index from [i] on, among the [k] next ones, that satisfies [f]. *)
Fixpoint linear_search (f : ptr → bool) (d : list ptr) (i k : nat) : option (option nat) :=
  match k with
  | O => Some None
  | S k => x ← d !! i; if f x then Some (Some i) else linear_search f d (S i) k
  end.

Definition OPENSSL_sk_delete_ptr (sk : stack_st) (p : ptr) : option (stack_st * ptr) :=
  found ← linear_search (λ x, x =? p) (data sk) 0 (num sk);
  match found with
  | Some i => OPENSSL_sk_delete sk i
  | None => Some (sk, NULL)
  end.

(** [for (i = 0; i < num; i++) if (!func(data[i])) data[new_num++] = data[i];] *)
Fixpoint delete_if_loop (func : ptr → bool) (d : list ptr) (i new_num k : nat) : option (list ptr * nat) :=
  match k with
  | O => Some (d, new_num)
  | S k =>
      x ← d !! i;
      if negb (func x) then delete_if_loop func (<[new_num := x]> d) (S i) (S new_num) k
      else delete_if_loop func d (S i) new_num k
  end.
Definition OPENSSL_sk_delete_if (sk : stack_st) (func : ptr → bool) : option stack_st :=
  '(d, n) ← delete_if_loop func (data sk) 0 0 (num sk);
  Some (mkStack n d (sorted sk) (num_alloc sk) (comp sk)).

Definition OPENSSL_sk_is_sorted (sk : option stack_st) : bool :=
  match sk with
  | None => true
  | Some sk => sorted sk || (bool_decide (comp sk ≠ None) && (num sk <? 2)%nat)
  end.

Definition OPENSSL_sk_shift (sk : stack_st) : option (stack_st * ptr) :=
  if (num sk =? 0)%nat then Some (sk, NULL) else OPENSSL_sk_delete sk 0.
Definition OPENSSL_sk_pop (sk : stack_st) : option (stack_st * ptr) :=
  if (num sk =? 0)%nat then Some (sk, NULL) else OPENSSL_sk_delete sk (num sk - 1).

(** The new stack and the old comparison function. *)
Definition OPENSSL_sk_set_cmp_func (sk : stack_st) (c : option nat) : stack_st * option nat :=
  (mkStack (num sk) (data sk) (if bool_decide (comp sk ≠ c) then false else sorted sk) (num_alloc sk) c, comp sk).

Definition parent_idx (idx : nat) : nat := (idx - 1) / 2.
Definition left_idx (idx : nat) : nat := 2 * idx + 1.

Section compare.
Context (cmp : nat → ptr → ptr → Z).

(** The binary search on [lo, hi). *)
Fixpoint binary_search (fuel : nat) (f : nat) (d : list ptr) (p : ptr) (lo hi : nat) : option (option nat) :=
  if (lo <? hi)%nat then
    match fuel with
    | O => None
    | S fuel =>
        let mid := (lo + (hi - lo - 1) / 2)%nat in
        x ← d !! mid;
        let r := cmp f p x in
        if r >? 0 then binary_search fuel f d p (mid + 1) hi
        else if r <? 0 then binary_search fuel f d p lo mid
        else if (hi - lo =? 1)%nat then Some (Some mid)
        else binary_search fuel f d p lo (mid + 1)
    end
  else Some None.

(** The index found, if any.  The interval shrinks, so [num] is enough fuel. *)
Definition OPENSSL_sk_find (sk : option stack_st) (p : ptr) : option (option nat) :=
  match sk with
  | None => Some None
  | Some sk' =>
      match comp sk' with
      | None => linear_search (λ x, x =? p) (data sk') 0 (num sk')
      | Some f =>
          if p =? NULL then Some None
          else if negb (OPENSSL_sk_is_sorted sk) then
            linear_search (λ x, cmp f p x =? 0) (data sk') 0 (num sk')
          else binary_search (num sk') f (data sk') p 0 (num sk')
      end
  end.

(** [down_heap]; the index at least doubles, so [num] is enough fuel. *)
Fixpoint down_heap (fuel : nat) (f : nat) (d : list ptr) (i n : nat) : option (list ptr) :=
  match fuel with
  | O => None
  | S fuel =>
      let left := left_idx i in
      if (n <=? left)%nat then Some d
      else
        x ← d !! i;
        xl ← d !! left;
        let next := if cmp f x xl <? 0 then left else i in
        let right := (left + 1)%nat in
        next ← (if (right <? n)%nat then
                  xn ← d !! next;
                  xr ← d !! right;
                  Some (if cmp f xn xr <? 0 then right else next)
                else Some next);
        if (i =? next)%nat then Some d
        else
          tmp ← d !! i;
          xn ← d !! next;
          down_heap fuel f (<[next := tmp]> (<[i := xn]> d)) next n
  end.

(** [for (i = parent_idx(num - 1); i < num; i--)]: [k] is [i + 1]. *)
Fixpoint build_heap (f : nat) (d : list ptr) (k n : nat) : option (list ptr) :=
  match k with
  | O => Some d
  | S i => d ← down_heap n f d i n; build_heap f d i n
  end.

(** [for (i = num - 1; i > 0; i--)] *)
Fixpoint pop_heap (f : nat) (d : list ptr) (i : nat) : option (list ptr) :=
  match i with
  | O => Some d
  | S i' =>
      tmp ← d !! 0%nat;
      x ← d !! i;
      d ← down_heap i f (<[i := tmp]> (<[0%nat := x]> d)) 0 i;
      pop_heap f d i'
  end.

Definition OPENSSL_sk_sort (sk : stack_st) : option stack_st :=
  match comp sk with
  | None => Some sk
  | Some f =>
      if sorted sk then Some sk
      else
        d ← (if (2 <=? num sk)%nat then
               d ← build_heap f (data sk) (S (parent_idx (num sk - 1))) (num sk);
               pop_heap f d (num sk - 1)
             else Some (data sk));
        Some (mkStack (num sk) d true (num_alloc sk) (comp sk))
  end.
End compare.

(** Copy each element in order; on failure free the copies made so far.  Yields
    the new data, or the pointers freed. *)
Fixpoint deep_copy_loop (copy : ptr → ptr) (d : list ptr) (done : list ptr) : list ptr + list ptr :=
  match d with
  | [] => inl done
  | p :: d =>
      if p =? NULL then deep_copy_loop copy d (done ++ [p])
      else if copy p =? NULL then inr (filter (λ q, q ≠ NULL) done)
      else deep_copy_loop copy d (done ++ [copy p])
  end.
Definition OPENSSL_sk_deep_copy {A : Allocator} (t : nat) (sk : stack_st) (copy : ptr → ptr) : option (stack_st + list ptr) :=
  match OPENSSL_sk_dup t sk with
  | None => None
  | Some ret =>
      match deep_copy_loop copy (take (num ret) (data ret)) [] with
      | inl d => Some (inl (mkStack (num ret) (d ++ drop (num ret) (data ret)) (sorted ret) (num_alloc ret) (comp ret)))
      | inr freed => Some (inr freed)
      end
  end.
