(* ===== verification/StackTheorems.v ===== *)
(** What a stack holds, and what each operation of stack.c does to it. *)
From stdpp Require Import sorting.
From S2P Require Import Prelude Radix Mem Stack.

Definition elems (sk : stack_st) : list ptr := take (num sk) (data sk).

(** Sizes are consistent, there is a spare slot's worth of bookkeeping, and no
    size computation can overflow. *)
Definition stack_wf (sk : stack_st) : Prop :=
  (num sk ≤ num_alloc sk)%nat ∧ length (data sk) = num_alloc sk ∧ (1 ≤ num_alloc sk)%nat ∧
  Z.of_nat (num sk) <= INT_MAX ∧ Z.of_nat (num_alloc sk) <= 2 ^ 32.

Lemma elems_length sk : stack_wf sk → length (elems sk) = num sk.
Proof. intros (H1 & H2 & _). unfold elems. rewrite length_take. lia. Qed.

Lemma elems_lookup sk i : (i < num sk)%nat → data sk !! i = elems sk !! i.
Proof. intros. unfold elems. by rewrite lookup_take_lt. Qed.

Lemma ptrs_of_bytes_length n block : length (ptrs_of_bytes n block) = n.
Proof. revert block. induction n as [|n IH]; intros block; [done|]. cbn. by rewrite IH. Qed.

Lemma grow_spec n : 1 <= n <= 2 ^ 32 → grow n = Some (2 * n, 16 * n).
Proof.
  intros Hn. unfold grow. rewrite Z.shiftl_mul_pow2 by lia. change (2 ^ 1) with 2. change sizeof_ptr with 8.
  rewrite (wrap_small 64 (n * 2)), (wrap_small 64 (n * 2 * 8)) by lia.
  rewrite Z.div_mul by lia. destruct (Z.ltb_spec (n * 2) n); [lia|]. rewrite Z.eqb_refl. cbn [negb orb].
  rewrite Z.div_mul by lia. destruct (Z.ltb_spec (n * 2) n); [lia|]. rewrite Z.eqb_refl. cbn [negb orb].
  do 2 f_equal; lia.
Qed.

Lemma insert_at_spec d n p w :
  (n < length d)%nat →
  ∃ d', insert_at d n p w = Some d' ∧ length d' = length d ∧
    take (S n) d' = take w (take n d) ++ p :: drop w (take n d).
Proof.
  intros Hn. unfold insert_at. destruct (Nat.leb_spec n w) as [Hw|Hw].
  - destruct (Nat.ltb_spec n (length d)); [|lia]. eexists. split; [done|]. rewrite length_insert. split; [done|].
    rewrite (take_ge (take n d)), drop_ge by (rewrite length_take; lia).
    rewrite (take_S_r _ n p) by (by apply list_lookup_insert_eq). by rewrite take_insert_ge.
  - destruct (Nat.ltb_spec n (length d)); [|lia]. eexists. split; [done|]. split.
    + rewrite length_app. cbn [length]. rewrite length_app, !length_take, !length_drop. lia.
    + rewrite take_take, Nat.min_l, skipn_firstn_comm by lia.
      rewrite app_comm_cons, app_assoc. apply take_app_length'.
      rewrite length_app. cbn [length]. rewrite !length_take, length_drop. lia.
Qed.

Section alloc.
Context {A : Allocator}.

Lemma sk_new_spec t c sk :
  OPENSSL_sk_new t c = Some sk → stack_wf sk ∧ elems sk = [] ∧ sorted sk = false ∧ comp sk = c.
Proof.
  unfold OPENSSL_sk_new. destruct (OPENSSL_zalloc _ _); [|done]. destruct (OPENSSL_calloc _ _ _) as [block|]; [|done].
  intros [= <-]. split_and!; try done; unfold stack_wf; cbn -[Z.of_nat]; unfold INT_MAX, kMinSize; rewrite ?ptrs_of_bytes_length; split_and!; lia.
Qed.

(** What makes an insertion fail: no more elements can be counted, or the array
    must grow (to twice the size) and there is no memory for it. *)
Definition insert_fails (t : nat) (sk : stack_st) : Prop :=
  Z.of_nat (num sk) = INT_MAX ∨
  (num_alloc sk ≤ num sk + 1)%nat ∧ OPENSSL_malloc t (16 * Z.of_nat (num_alloc sk)) = None.

Lemma sk_insert_spec t sk p w :
  stack_wf sk →
  ∃ sk' r, OPENSSL_sk_insert t sk p w = Some (sk', r) ∧
    ((¬ insert_fails t sk ∧ r = Z.of_nat (num sk) + 1 ∧ stack_wf sk' ∧ elems sk' = take w (elems sk) ++ p :: drop w (elems sk) ∧
      sorted sk' = false ∧ comp sk' = comp sk) ∨
     (insert_fails t sk ∧ r = 0 ∧ sk' = sk)).
Proof.
  intros (H1 & H2 & H3 & H4 & H5). unfold OPENSSL_sk_insert, insert_fails. rewrite Z.geb_leb.
  destruct (Z.leb_spec INT_MAX (Z.of_nat (num sk))).
  { eexists _, _. split; [done|]. right. split_and!; [left; lia|done|done]. }
  assert (Hput : ∀ d na, length d = na → take (num sk) d = elems sk → (num sk + 1 ≤ na)%nat → Z.of_nat na <= 2 ^ 32 →
    ∃ sk' r, (d ← insert_at d (num sk) p w; Some (mkStack (num sk + 1) d false na (comp sk), Z.of_nat (num sk + 1))) =
      Some (sk', r) ∧ r = Z.of_nat (num sk) + 1 ∧ stack_wf sk' ∧ elems sk' = take w (elems sk) ++ p :: drop w (elems sk) ∧
      sorted sk' = false ∧ comp sk' = comp sk).
  { intros d na Hd He Hna Hmax. destruct (insert_at_spec d (num sk) p w) as (d' & -> & Hl & Ht); [lia|].
    cbn [mbind option_bind]. eexists _, _. split; [done|]. unfold stack_wf. cbn [num data num_alloc sorted comp].
    split_and!; try done; try lia. unfold elems at 1. cbn [num data]. by rewrite Nat.add_1_r, Ht, He. }
  destruct (Nat.leb_spec (num_alloc sk) (num sk + 1)) as [Hg|Hg].
  - unfold INT_MAX in *. rewrite grow_spec by lia. unfold realloc_data.
    destruct (OPENSSL_malloc t (16 * Z.of_nat (num_alloc sk))) as [block|] eqn:Em.
    2: { eexists _, _. split; [done|]. right. split_and!; [by right|done|done]. }
    set (na := Z.to_nat (2 * Z.of_nat (num_alloc sk))). set (d := take na (data sk) ++ _).
    destruct (Hput d na) as (sk' & r & E & ?); [| |lia|lia|exists sk', r; split; [exact E|left; split; [|done]]].
    + subst d. rewrite length_app, length_take, length_drop, ptrs_of_bytes_length. lia.
    + subst d. rewrite (take_ge (data sk)) by lia. by rewrite take_app_le by lia.
    + intros [|[_ [=]]]; lia.
  - destruct (Hput (data sk) (num_alloc sk)) as (sk' & r & E & ?); [done|done|lia|lia|].
    exists sk', r. split; [exact E|left]. split; [lia|done].
Qed.
End alloc.

Lemma sk_delete_spec sk w :
  stack_wf sk → (w < num sk)%nat →
  ∃ sk' x, OPENSSL_sk_delete sk w = Some (sk', x) ∧ elems sk !! w = Some x ∧ stack_wf sk' ∧
    elems sk' = delete w (elems sk) ∧ sorted sk' = sorted sk ∧ comp sk' = comp sk.
Proof.
  intros (H1 & H2 & H3 & H4 & H5) Hw. unfold OPENSSL_sk_delete. destruct (Nat.leb_spec (num sk) w); [lia|].
  rewrite elems_lookup by done.
  assert (Hlen : length (elems sk) = num sk) by by apply elems_length.
  destruct (lookup_lt_is_Some_2 (elems sk) w) as [x Hx]; [lia|]. rewrite Hx. cbn [mbind option_bind].
  match goal with |- context [mkStack _ ?x _ _ _] => set (d := x) end.
  assert (Hd : length d = num_alloc sk ∧ take (num sk - 1) d = delete w (elems sk)).
  { subst d. destruct (Nat.eqb_spec w (num sk - 1)) as [->|Hne]; cbn [negb].
    - split; [done|]. rewrite delete_take_drop. unfold elems.
      rewrite take_take, Nat.min_l, drop_ge by (rewrite ?length_take; lia). by rewrite app_nil_r.
    - split.
      + rewrite !length_app, !length_take, !length_drop. lia.
      + rewrite delete_take_drop. unfold elems. rewrite take_take, Nat.min_l by lia.
        rewrite skipn_firstn_comm. replace (num sk - w - 1)%nat with (num sk - S w)%nat by lia.
        rewrite app_assoc. apply take_app_length'.
        rewrite length_app, !length_take, length_drop. lia. }
  destruct Hd as [Hdl Hdt]. eexists _, _. split; [done|]. unfold stack_wf. cbn [num data num_alloc sorted comp].
  split_and!; done || lia.
Qed.

Lemma linear_search_spec f d i k :
  (i + k ≤ length d)%nat →
  ∃ r, linear_search f d i k = Some r ∧
    match r with
    | Some j => (i ≤ j < i + k)%nat ∧ (∃ x, d !! j = Some x ∧ f x = true) ∧
                ∀ j' x, (i ≤ j' < j)%nat → d !! j' = Some x → f x = false
    | None => ∀ j x, (i ≤ j < i + k)%nat → d !! j = Some x → f x = false
    end.
Proof.
  revert i. induction k as [|k IH]; intros i Hk; cbn [linear_search].
  - exists None. split; [done|]. lia.
  - destruct (lookup_lt_is_Some_2 d i) as [x Hx]; [lia|]. rewrite Hx. cbn [mbind option_bind].
    destruct (f x) eqn:Ef.
    + exists (Some i). split; [done|]. split_and!; [lia|lia|by exists x|lia].
    + destruct (IH (S i)) as (r & -> & Hr); [lia|]. exists r. split; [done|]. destruct r as [j|].
      * destruct Hr as (? & ? & Hm). split_and!; [lia|lia|done|]. intros j' x' Hj' Hx'.
        destruct (decide (j' = i)) as [->|]; [congruence|]. apply (Hm j'); [lia|done].
      * intros j x' Hj Hx'. destruct (decide (j = i)) as [->|]; [congruence|]. apply (Hr j); [lia|done].
Qed.

Lemma delete_if_loop_spec func d i n k :
  (n ≤ i)%nat → (i + k ≤ length d)%nat →
  ∃ d', delete_if_loop func d i n k =
      Some (d', (n + length (filter (λ x, func x = false) (take k (drop i d))))%nat) ∧
    length d' = length d ∧
    take (n + length (filter (λ x, func x = false) (take k (drop i d)))) d' =
      take n d ++ filter (λ x, func x = false) (take k (drop i d)).
Proof.
  revert d i n. induction k as [|k IH]; intros d i n Hn Hk; cbn [delete_if_loop].
  - exists d. cbn. by rewrite app_nil_r, Nat.add_0_r.
  - destruct (lookup_lt_is_Some_2 d i) as [x Hx]; [lia|]. rewrite Hx. cbn [mbind option_bind].
    rewrite (drop_S d x i Hx). cbn [take]. rewrite filter_cons.
    destruct (func x) eqn:Ef; cbn [negb].
    + destruct (decide (true = false)); [done|]. apply IH; lia.
    + destruct (decide (false = false)); [|done].
      destruct (IH (<[n := x]> d) (S i) (S n)) as (d' & E & Hl & Ht); [lia|rewrite length_insert; lia|].
      rewrite drop_insert_lt in E, Ht by lia. rewrite length_insert in Hl. exists d'. cbn [length].
      rewrite <- Nat.add_succ_comm. split_and!; [done|done|]. rewrite Ht.
      rewrite (take_S_r _ n x) by (apply list_lookup_insert_eq; lia). rewrite take_insert_ge by lia.
      by rewrite <- app_assoc.
Qed.
