(* ===== verification/HeapSort.v ===== *)
(** The heap sort of stack.c sorts: [down_heap] restores the heap property and
    permutes, so [OPENSSL_sk_sort] leaves a sorted permutation. *)
From stdpp Require Import sorting.
From S2P Require Import Prelude Mem Stack StackTheorems.

(** The contract of a comparison function: a total preorder, reported by sign. *)
Class Comparator (cmp : ptr → ptr → Z) : Prop := {
  cmp_sym p q : Z.sgn (cmp q p) = - Z.sgn (cmp p q);
  cmp_trans p q r : cmp p q <= 0 → cmp q r <= 0 → cmp p r <= 0;
}.

Section heap.
Context (cmp : nat → ptr → ptr → Z) (f : nat) {Hcmp : Comparator (cmp f)}.

Definition le (p q : ptr) : Prop := cmp f p q <= 0.

Lemma le_refl p : le p p.
Proof. unfold le. pose proof (cmp_sym (cmp := cmp f) p p). lia. Qed.
Lemma le_trans p q r : le p q → le q r → le p r.
Proof. apply cmp_trans. Qed.
Lemma cmp_lt p q : cmp f p q < 0 → le p q.
Proof. unfold le. lia. Qed.
Lemma cmp_ge p q : 0 <= cmp f p q → le q p.
Proof. unfold le. pose proof (cmp_sym (cmp := cmp f) p q). lia. Qed.

#[local] Instance le_total : Total le.
Proof. intros p q. destruct (Z.lt_ge_cases (cmp f p q) 0); [left; by apply cmp_lt|right; by apply cmp_ge]. Qed.
#[local] Instance le_transitive : Transitive le.
Proof. intros ???. apply le_trans. Qed.

(** [c] is a child of [i]. *)
Definition child_of (i c : nat) : Prop := (c = 2 * i + 1 ∨ c = 2 * i + 2)%nat.

(** Every node from [s] on dominates its children. *)
Definition heap_from (s : nat) (d : list ptr) : Prop :=
  ∀ i c x y, (s ≤ i)%nat → child_of i c → d !! i = Some x → d !! c = Some y → le y x.

(** ... except that node [i] need not; its parent dominates its children. *)
Definition heap_except (s i : nat) (d : list ptr) : Prop :=
  (∀ j c x y, (s ≤ j)%nat → j ≠ i → child_of j c → d !! j = Some x → d !! c = Some y → le y x) ∧
  (∀ g c x y, (s ≤ g)%nat → child_of g i → child_of i c → d !! g = Some x → d !! c = Some y → le y x).

Lemma heap_except_start s d : heap_from (S s) d → heap_except s s d.
Proof.
  intros H. split.
  - intros j c x y ?? . apply H. lia.
  - intros g c x y Hg [?|?] _; lia.
Qed.

(** Swapping a node with its larger child moves the exception down. *)
Lemma swap_lookup (d : list ptr) i j x y k :
  d !! i = Some x → d !! j = Some y → i ≠ j →
  <[j := x]> (<[i := y]> d) !! k = if decide (k = j) then Some x else if decide (k = i) then Some y else d !! k.
Proof.
  intros Hi Hj Hne. assert (i < length d)%nat by (by eapply lookup_lt_Some).
  assert (j < length d)%nat by (by eapply lookup_lt_Some).
  destruct (decide (k = j)) as [->|]; [apply list_lookup_insert_eq; by rewrite length_insert|].
  rewrite list_lookup_insert_ne by done.
  destruct (decide (k = i)) as [->|]; [by apply list_lookup_insert_eq|by rewrite list_lookup_insert_ne].
Qed.

Lemma heap_swap s i next d x xn :
  (s ≤ i)%nat → heap_except s i d → child_of i next → d !! i = Some x → d !! next = Some xn → le x xn →
  (∀ c y, child_of i c → d !! c = Some y → le y xn) →
  heap_except s next (<[next := x]> (<[i := xn]> d)).
Proof.
  intros Hs [H1 H2] Hc Hi Hn Hle Hmax. assert (Hne : i ≠ next) by (destruct Hc; lia).
  split.
  - intros j c a b Hj Hjn Hjc. rewrite !(swap_lookup d i next x xn) by done.
    destruct (decide (j = next)); [done|]. destruct (decide (j = i)) as [->|Hji].
    + intros [= <-]. destruct (decide (c = next)) as [->|].
      * by intros [= <-].
      * destruct (decide (c = i)) as [->|]; [destruct Hjc; lia|]. intros Hb. by eapply Hmax.
    + intros Ha. destruct (decide (c = next)) as [->|]; [unfold child_of in *; lia|].
      destruct (decide (c = i)) as [->|].
      * intros [= <-]. by apply (H2 j next a xn).
      * intros Hb. by apply (H1 j c).
  - intros g c a b Hg Hgn Hnc. rewrite !(swap_lookup d i next x xn) by done.
    assert (g = i) as -> by (unfold child_of in *; lia).
    destruct (decide (i = next)); [done|]. destruct (decide (i = i)); [|done]. intros [= <-].
    destruct (decide (c = next)) as [->|]; [unfold child_of in *; lia|].
    destruct (decide (c = i)) as [->|]; [unfold child_of in *; lia|].
    intros Hb. apply (H1 next c xn b); [unfold child_of in *; lia|done|done|done|done].
Qed.

(** [down_heap] on a whole array: it terminates within the fuel, permutes, and
    restores the heap. *)
Lemma down_heap_spec fuel s d i :
  (s ≤ i < length d)%nat → (length d - i ≤ fuel)%nat → heap_except s i d →
  ∃ d', down_heap cmp fuel f d i (length d) = Some d' ∧ d' ≡ₚ d ∧ heap_from s d'.
Proof.
  revert d i. induction fuel as [|fuel IH]; intros d i Hi Hfuel Hex; [lia|].
  cbn [down_heap]. unfold left_idx. set (left := (2 * i + 1)%nat).
  destruct (Nat.leb_spec (length d) left) as [Hnl|Hl].
  { exists d. split_and!; [done|done|]. intros j c x y Hj Hc Hx Hy.
    destruct (decide (j = i)) as [->|]; [|by apply (proj1 Hex j c)].
    apply lookup_lt_Some in Hy. unfold child_of in Hc. subst left. lia. }
  destruct (lookup_lt_is_Some_2 d i ltac:(lia)) as [x Hx]. destruct (lookup_lt_is_Some_2 d left Hl) as [xl Hxl].
  rewrite Hx, Hxl. cbn [mbind option_bind]. set (next0 := if cmp f x xl <? 0 then left else i).
  (* the larger of the node and its left child *)
  assert (H0 : ∃ x0, d !! next0 = Some x0 ∧ le x x0 ∧ le xl x0 ∧ (next0 = i ∨ next0 = left)).
  { subst next0. destruct (Z.ltb_spec (cmp f x xl) 0).
    - exists xl. split_and!; [done|by apply cmp_lt|apply le_refl|by right].
    - exists x. split_and!; [done|apply le_refl|by apply cmp_ge|by left]. }
  destruct H0 as (x0 & Hx0 & Hxx0 & Hlx0 & Hn0).
  assert (H1 : ∃ next x1, (if (left + 1 <? length d)%nat then
              xn ← d !! next0; xr ← d !! (left + 1)%nat; Some (if cmp f xn xr <? 0 then (left + 1)%nat else next0)
            else Some next0) = Some next ∧ d !! next = Some x1 ∧ le x x1 ∧
            (∀ c y, child_of i c → d !! c = Some y → le y x1) ∧ (next = i ∨ child_of i next)).
  { destruct (Nat.ltb_spec (left + 1) (length d)) as [Hr|Hr].
    - destruct (lookup_lt_is_Some_2 d (left + 1) Hr) as [xr Hxr]. rewrite Hx0, Hxr. cbn [mbind option_bind].
      destruct (Z.ltb_spec (cmp f x0 xr) 0) as [Hlt|Hge].
      + apply cmp_lt in Hlt. exists (left + 1)%nat, xr. split_and!; [done|done|by apply (le_trans x x0 xr)| |right; unfold child_of; subst left; lia].
        intros c y [->| ->] Hy; fold left in Hy; [assert (y = xl) as -> by congruence; by apply (le_trans xl x0 xr)|].
        replace (2 * i + 2)%nat with (left + 1)%nat in Hy by (subst left; lia). assert (y = xr) as -> by congruence. apply le_refl.
      + apply cmp_ge in Hge. exists next0, x0. split_and!; [done|done|done| |destruct Hn0 as [E| E]; rewrite E; [by left|right; by left]].
        intros c y [->| ->] Hy; fold left in Hy; [by assert (y = xl) as -> by congruence|].
        replace (2 * i + 2)%nat with (left + 1)%nat in Hy by (subst left; lia). by assert (y = xr) as -> by congruence.
    - exists next0, x0. split_and!; [done|done|done| |destruct Hn0 as [E| E]; rewrite E; [by left|right; by left]].
      intros c y [->| ->] Hy; fold left in Hy; [by assert (y = xl) as -> by congruence|].
      apply lookup_lt_Some in Hy. subst left. lia. }
  destruct H1 as (next & x1 & -> & Hx1 & Hxx1 & Hmax & Hnext). cbn [mbind option_bind].
  destruct (Nat.eqb_spec i next) as [<-|Hne].
  { exists d. split_and!; [done|done|]. assert (x1 = x) as -> by congruence.
    intros j c a b Hj Hc Ha Hb. destruct (decide (j = i)) as [->|]; [|by apply (proj1 Hex j c)].
    assert (a = x) as -> by congruence. by eapply Hmax. }
  destruct Hnext as [->|Hnext]; [done|]. rewrite Hx1. cbn [mbind option_bind].
  set (d2 := <[next := x]> (<[i := x1]> d)).
  assert (Hlen : length d2 = length d) by (subst d2; by rewrite !length_insert).
  assert (Hnl : (next < length d)%nat) by by eapply lookup_lt_Some.
  destruct (IH d2 next) as (d' & E & Hp & Hh); [unfold child_of in Hnext; lia|unfold child_of in Hnext; lia|eapply heap_swap; [lia|exact Hex|exact Hnext|exact Hx|exact Hx1|exact Hxx1|exact Hmax]|].
  rewrite Hlen in E. exists d'. split_and!; [done| |done].
  rewrite Hp. by apply Permutation_insert_swap.
Qed.

(** It only looks at the first [n] elements. *)
Lemma down_heap_frame fuel d v i n :
  (n ≤ length d)%nat → (i < n)%nat →
  down_heap cmp fuel f (d ++ v) i n = (λ d', d' ++ v) <$> down_heap cmp fuel f d i n.
Proof.
  revert d i. induction fuel as [|fuel IH]; intros d i Hn Hi; [done|]. cbn [down_heap]. unfold left_idx.
  destruct (Nat.leb_spec n (2 * i + 1)); [done|].
  rewrite (lookup_app_l d v i), (lookup_app_l d v (2 * i + 1)) by lia.
  destruct (d !! i) as [x|] eqn:Hx; [cbn [mbind option_bind]|done].
  destruct (d !! (2 * i + 1)%nat) as [xl|]; [cbn [mbind option_bind]|done]. set (next0 := if _ : bool then _ else i).
  assert (Hn0 : (next0 < n)%nat) by (subst next0; destruct (_ <? _); lia). clearbody next0.
  rewrite (lookup_app_l d v next0) by lia.
  destruct (Nat.ltb_spec (2 * i + 1 + 1) n).
  - rewrite (lookup_app_l d v (2 * i + 1 + 1)) by lia. destruct (d !! next0) as [x0|]; [cbn [mbind option_bind]|done].
    destruct (d !! (2 * i + 1 + 1)%nat) as [xr|]; [cbn [mbind option_bind]|done].
    set (next := if _ : bool then _ else next0). assert (Hnx : (next < n)%nat) by (subst next; destruct (cmp f x0 xr <? 0); lia).
    destruct (i =? next)%nat; [done|]. cbn [mbind option_bind].
    rewrite (lookup_app_l d v next) by lia. destruct (d !! next) as [xn|]; [|done]. cbn [mbind option_bind].
    rewrite insert_app_l, insert_app_l by (rewrite ?length_insert; lia). apply IH; [by rewrite !length_insert|done].
  - cbn [mbind option_bind]. destruct (i =? next0)%nat; [done|]. cbn [mbind option_bind].
    rewrite (lookup_app_l d v next0) by lia. destruct (d !! next0) as [xn|]; [|done]. cbn [mbind option_bind].
    rewrite insert_app_l, insert_app_l by (rewrite ?length_insert; lia). apply IH; [by rewrite !length_insert|done].
Qed.
Lemma down_heap_length fuel d i n d' : down_heap cmp fuel f d i n = Some d' → length d' = length d.
Proof.
  revert d i. induction fuel as [|fuel IH]; intros d i; [done|]. cbn [down_heap].
  destruct (n <=? left_idx i)%nat; [by intros [= ->]|].
  destruct (d !! i) as [x|]; [cbn [mbind option_bind]|done].
  destruct (d !! left_idx i) as [xl|]; [cbn [mbind option_bind]|done].
  match goal with |- ?m ≫= _ = _ → _ => destruct m as [next|] end; [|done].
  cbn [mbind option_bind]. destruct (i =? next)%nat; [by intros [= ->]|]. cbn [mbind option_bind].
  destruct (d !! next) as [xn|]; [cbn [mbind option_bind]|done]. intros E%IH. by rewrite E, !length_insert.
Qed.

Lemma build_heap_frame k d v :
  (k ≤ length d)%nat → build_heap cmp f (d ++ v) k (length d) = (λ d', d' ++ v) <$> build_heap cmp f d k (length d).
Proof.
  revert d. induction k as [|k IH]; intros d Hk; [done|]. cbn [build_heap]. rewrite down_heap_frame by lia.
  destruct (down_heap cmp (length d) f d k (length d)) as [d1|] eqn:E; [|done].
  cbn [fmap option_fmap option_map mbind option_bind]. apply down_heap_length in E. rewrite <- E. apply IH. lia.
Qed.

Lemma pop_heap_frame i d v :
  (i < length d)%nat → pop_heap cmp f (d ++ v) i = (λ d', d' ++ v) <$> pop_heap cmp f d i.
Proof.
  revert d. induction i as [|i IH]; intros d Hi; [done|]. cbn [pop_heap].
  rewrite (lookup_app_l d v 0), (lookup_app_l d v (S i)) by lia.
  destruct (d !! 0%nat) as [t|]; [cbn [mbind option_bind]|done].
  destruct (d !! S i) as [x|]; [cbn [mbind option_bind]|done].
  rewrite insert_app_l, insert_app_l by (rewrite ?length_insert; lia).
  rewrite down_heap_frame by (rewrite ?length_insert; lia).
  destruct (down_heap _ _ _ _ _ _) as [d1|] eqn:E; [|done].
  cbn [fmap option_fmap option_map mbind option_bind]. apply down_heap_length in E. rewrite !length_insert in E.
  apply IH. lia.
Qed.

Lemma build_heap_spec k d :
  (k ≤ length d)%nat → heap_from k d →
  ∃ d', build_heap cmp f d k (length d) = Some d' ∧ d' ≡ₚ d ∧ heap_from 0 d'.
Proof.
  revert d. induction k as [|k IH]; intros d Hk Hh; [by exists d|]. cbn [build_heap].
  destruct (down_heap_spec (length d) k d k) as (d1 & E & Hp & Hh1); [lia|lia|by apply heap_except_start|].
  rewrite E. cbn [mbind option_bind]. assert (Hl : length d1 = length d) by by apply Permutation_length.
  destruct (IH d1) as (d2 & E2 & Hp2 & Hh2); [lia|done|]. rewrite Hl in E2. exists d2. split_and!; [done| |done].
  by rewrite Hp2.
Qed.

Lemma heap_from_leaves d : heap_from (S (parent_idx (length d - 1))) d.
Proof.
  intros i c x y Hi Hc _ Hy%lookup_lt_Some. unfold parent_idx, child_of in *.
  pose proof (Nat.div_mod_eq (length d - 1 - 1) 2). pose proof (Nat.mod_upper_bound (length d - 1 - 1) 2). lia.
Qed.

Lemma heap_max d m j x : heap_from 0 d → d !! 0%nat = Some m → d !! j = Some x → le x m.
Proof.
  intros Hh Hm. revert x. induction j as [j IH] using lt_wf_ind. intros x Hx.
  destruct (decide (j = 0%nat)) as [->|Hj]; [assert (x = m) as -> by congruence; apply le_refl|].
  set (p := ((j - 1) / 2)%nat).
  assert (Hp : child_of p j).
  { unfold child_of, p. pose proof (Nat.div_mod_eq (j - 1) 2). pose proof (Nat.mod_upper_bound (j - 1) 2). lia. }
  assert (Hpj : (p < j)%nat) by (unfold child_of in Hp; lia).
  destruct (lookup_lt_is_Some_2 d p) as [y Hy]; [apply lookup_lt_Some in Hx; lia|].
  apply (le_trans x y m); [apply (Hh p j y x); [lia|done..]|by apply (IH p)].
Qed.

Lemma pop_heap_spec i u v :
  length u = S i → heap_from 0 u → StronglySorted le v → (∀ a b, a ∈ u → b ∈ v → le a b) →
  ∃ d', pop_heap cmp f (u ++ v) i = Some d' ∧ d' ≡ₚ u ++ v ∧ StronglySorted le d'.
Proof.
  revert u v. induction i as [|i IH]; intros u v Hl Hh Hv Huv.
  { destruct u as [|a [|? ?]]; try done. exists (a :: v). split_and!; [done|done|]. constructor; [done|].
    apply Forall_forall. intros b Hb. apply Huv; [left|done]. }
  cbn [pop_heap]. destruct u as [|m u]; [done|].
  destruct (exists_last (l := u)) as (w & y & ->); [intros ->; cbn in Hl; lia|].
  assert (Hw : length w = i) by (cbn in Hl; rewrite length_app in Hl; cbn in Hl; lia).
  assert (Hlast : ((m :: w ++ [y]) ++ v) !! S i = Some y).
  { change (((w ++ [y]) ++ v) !! i = Some y). rewrite <- app_assoc. by apply list_lookup_middle. }
  rewrite Hlast. cbn [lookup list_lookup app mbind option_bind].
  assert (Eins : <[S i := m]> (<[0%nat := y]> (m :: (w ++ [y]) ++ v)) = (y :: w) ++ (m :: v)).
  { change (y :: <[i := m]> ((w ++ [y]) ++ v) = y :: w ++ m :: v). f_equal. rewrite <- app_assoc.
    rewrite insert_app_r_alt by lia. by rewrite Hw, Nat.sub_diag. }
  rewrite Eins, down_heap_frame by (cbn; lia).
  assert (Hex : heap_except 0 0 (y :: w)).
  { split.
    - intros j c a b _ Hj Hc Ha Hb. apply (Hh j c a b); [lia|done| |].
      + destruct j as [|j]; [done|]. cbn in Ha |- *. apply lookup_app_l_Some. done.
      + destruct c as [|c]; [destruct Hc; lia|]. cbn in Hb |- *. apply lookup_app_l_Some. done.
    - intros g c a b _ [?|?]; lia. }
  destruct (down_heap_spec (S i) 0 (y :: w) 0) as (d1 & E & Hp & Hh1); [cbn; lia|cbn; lia|done|].
  replace (length (y :: w)) with (S i) in E by (cbn; lia). rewrite E. cbn [fmap option_fmap option_map mbind option_bind].
  assert (Hin : ∀ a, a ∈ d1 → a ∈ m :: w ++ [y]).
  { intros a Ha. rewrite Hp in Ha. apply elem_of_cons in Ha as [->|Ha]; [right; apply elem_of_app; right; left|].
    right. apply elem_of_app. by left. }
  assert (Hmax : ∀ a, a ∈ m :: w ++ [y] → le a m).
  { intros a [j Hj]%list_elem_of_lookup. exact (heap_max _ m j a Hh eq_refl Hj). }
  destruct (IH d1 (m :: v)) as (d2 & E2 & Hp2 & Hs2).
  - apply Permutation_length in Hp. cbn in Hp. lia.
  - done.
  - constructor; [done|]. apply Forall_forall. intros b Hb. apply Huv; [left|done].
  - intros a b Ha Hb. apply elem_of_cons in Hb as [E'|Hb].
    + subst b. exact (Hmax a (Hin a Ha)).
    + apply Huv; [exact (Hin a Ha)|done].
  - exists d2. split_and!; [done| |done]. rewrite Hp2, Hp. cbn.
    rewrite <- !app_assoc. cbn. rewrite <- !Permutation_middle. constructor.
Qed.

(** ** Binary search *)
Lemma strict_le p x y : cmp f p x < 0 → le x y → cmp f p y < 0.
Proof.
  intros Hp Hxy. destruct (Z.lt_ge_cases (cmp f p y) 0) as [|H]; [done|].
  apply cmp_ge in H. pose proof (le_trans x y p Hxy H) as Hc. unfold le in Hc.
  pose proof (cmp_sym (cmp := cmp f) p x). lia.
Qed.

Lemma le_strict p x y : 0 < cmp f p x → le y x → 0 < cmp f p y.
Proof.
  intros Hp Hyx. destruct (Z.lt_ge_cases 0 (cmp f p y)) as [|H]; [done|].
  pose proof (le_trans p y x H Hyx) as Hc. unfold le in Hc. lia.
Qed.

Definition is_sorted (e : list ptr) : Prop :=
  ∀ i j x y, (i ≤ j)%nat → e !! i = Some x → e !! j = Some y → le x y.

Lemma strongly_sorted_is_sorted e : StronglySorted le e → is_sorted e.
Proof.
  induction 1 as [|a e He IH Ha]; intros i j x y Hij Hi Hj; [done|].
  destruct i as [|i], j as [|j]; cbn in Hi, Hj; simplify_eq; [apply le_refl| |lia|by apply (IH i j); [lia|..]].
  by apply (Forall_lookup_1 _ _ _ _ Ha Hj).
Qed.

(** [r] is the first index of [e] equal to [p], if any. *)
Definition first_match (e : list ptr) (p : ptr) (r : option nat) : Prop :=
  match r with
  | Some j => (∃ x, e !! j = Some x ∧ cmp f p x = 0) ∧ ∀ i x, (i < j)%nat → e !! i = Some x → cmp f p x ≠ 0
  | None => ∀ i x, e !! i = Some x → cmp f p x ≠ 0
  end.

Lemma binary_search_spec fuel d n p lo hi :
  is_sorted (take n d) → (lo ≤ hi ≤ n)%nat → (n ≤ length d)%nat → (hi - lo ≤ fuel)%nat →
  (∀ j x, (j < lo)%nat → take n d !! j = Some x → 0 < cmp f p x) →
  ((∀ j x, (hi ≤ j)%nat → take n d !! j = Some x → cmp f p x ≠ 0) ∨
   (0 < hi)%nat ∧ ∃ x, take n d !! (hi - 1)%nat = Some x ∧ cmp f p x = 0) →
  ∃ r, binary_search cmp fuel f d p lo hi = Some r ∧ first_match (take n d) p r.
Proof.
  revert lo hi. induction fuel as [|fuel IH]; intros lo hi Hs Hlh Hn Hf Hlo Hhi; cbn [binary_search];
    (destruct (Nat.ltb_spec lo hi) as [Hlt|Hge];
     [|exists None; split; [done|]; intros j x Hx;
       destruct (Nat.lt_ge_cases j lo); [specialize (Hlo j x H Hx); lia|];
       destruct Hhi as [Hhi|(? & y & Hy & Hpy)]; [apply (Hhi j x); [lia|done]|];
       specialize (Hlo (hi - 1)%nat y ltac:(lia) Hy); lia]); [lia|].
  set (mid := (lo + (hi - lo - 1) / 2)%nat).
  pose proof (Nat.div_mod_eq (hi - lo - 1) 2) as Hdiv. pose proof (Nat.mod_upper_bound (hi - lo - 1) 2 ltac:(lia)) as Hm.
  assert (Hmid : (lo ≤ mid < hi)%nat) by (subst mid; lia).
  destruct (lookup_lt_is_Some_2 d mid ltac:(lia)) as [x Hx]. rewrite Hx. cbn [mbind option_bind].
  assert (Hxe : take n d !! mid = Some x) by (rewrite lookup_take_lt; [done|lia]).
  rewrite Z.gtb_ltb. destruct (Z.ltb_spec 0 (cmp f p x)) as [Hgt|Hle]; [|destruct (Z.ltb_spec (cmp f p x) 0) as [Hneg|Hnn]].
  - apply IH; [done|lia|done|lia| |done]. intros j y Hj Hy. apply (le_strict p x y); [done|]. apply (Hs j mid); [lia|done|done].
  - apply IH; [done|lia|done|lia|done|]. left. intros j y Hj Hy.
    pose proof (strict_le p x y Hneg (Hs mid j x y ltac:(lia) Hxe Hy)). lia.
  - assert (Heq : cmp f p x = 0) by lia. destruct (Nat.eqb_spec (hi - lo) 1) as [E|E].
    + exists (Some mid). split; [done|]. split; [by exists x|]. intros i y Hi Hy.
      specialize (Hlo i y ltac:(lia) Hy). lia.
    + apply IH; [done|lia|done|lia|done|]. right. split; [lia|]. exists x.
      by replace (mid + 1 - 1)%nat with mid by lia.
Qed.

Lemma linear_search_first d n p :
  (n ≤ length d)%nat →
  ∃ r, linear_search (λ x, cmp f p x =? 0) d 0 n = Some r ∧ first_match (take n d) p r.
Proof.
  intros Hn. destruct (linear_search_spec (λ x, cmp f p x =? 0) d 0 n) as (r & E & H); [lia|].
  exists r. split; [done|]. destruct r as [j|]; cbn in *.
  - destruct H as (? & (x & Hx & Hc) & Hfirst). split.
    + exists x. rewrite lookup_take_lt by lia. split; [done|lia].
    + intros i y Hi Hy. rewrite lookup_take_lt in Hy by lia. specialize (Hfirst i y ltac:(lia) Hy). lia.
  - intros i y Hy. pose proof (lookup_lt_Some _ _ _ Hy) as Hl. rewrite length_take in Hl.
    rewrite lookup_take_lt in Hy by lia. specialize (H i y ltac:(lia) Hy). lia.
Qed.
(** Sorting the first [length u] elements. *)
Lemma sort_list u v :
  (2 ≤ length u)%nat →
  ∃ u', (d ← build_heap cmp f (u ++ v) (S (parent_idx (length u - 1))) (length u);
         pop_heap cmp f d (length u - 1)) = Some (u' ++ v) ∧ u' ≡ₚ u ∧ StronglySorted le u'.
Proof.
  intros Hn. assert (Hp : (S (parent_idx (length u - 1)) ≤ length u)%nat).
  { unfold parent_idx. pose proof (Nat.div_mod_eq (length u - 1 - 1) 2). lia. }
  rewrite build_heap_frame by done.
  destruct (build_heap_spec _ u Hp (heap_from_leaves u)) as (u1 & -> & Hperm & Hh).
  cbn [fmap option_fmap option_map mbind option_bind]. pose proof (Permutation_length Hperm) as Hl.
  rewrite pop_heap_frame by lia.
  destruct (pop_heap_spec (length u - 1) u1 []) as (u2 & E & Hp2 & Hs2); [lia|done|constructor|by intros ??? ?%elem_of_nil|].
  rewrite app_nil_r in E, Hp2. rewrite E. exists u2. split_and!; [done|by rewrite Hp2|done].
Qed.
End heap.

(** ** The theorems *)

(** C19: [OPENSSL_sk_sort] sorts: on a stack with a comparison function whose
    [sorted] flag is off, it terminates without leaving the array, keeps
    exactly the same pointers, leaves them in ascending order and sets the
    flag. *)
Theorem OPENSSL_sk_sort_sorts (cmp : nat → ptr → ptr → Z) (f : nat) (sk : stack_st) (Hcmp : Comparator (cmp f))
    (Hwf : stack_wf sk) (Hf : comp sk = Some f) (Hs : sorted sk = false) :
  ∃ sk', OPENSSL_sk_sort cmp sk = Some sk' ∧ stack_wf sk' ∧ elems sk' ≡ₚ elems sk ∧
    StronglySorted (le cmp f) (elems sk') ∧ sorted sk' = true ∧ comp sk' = Some f.
Proof.
  pose proof (elems_length sk Hwf) as Hlen. destruct Hwf as (H1 & H2 & H3 & H4 & H5).
  unfold OPENSSL_sk_sort. rewrite Hf, Hs.
  assert (Hsort : ∃ d', (if (2 <=? num sk)%nat then
             d ← build_heap cmp f (data sk) (S (parent_idx (num sk - 1))) (num sk); pop_heap cmp f d (num sk - 1)
           else Some (data sk)) = Some d' ∧ length d' = num_alloc sk ∧
         take (num sk) d' ≡ₚ elems sk ∧ StronglySorted (le cmp f) (take (num sk) d')).
  { destruct (Nat.leb_spec 2 (num sk)) as [Hn|Hn].
    - destruct (sort_list cmp f (elems sk) (drop (num sk) (data sk))) as (u & E & Hp & Hss); [lia|].
      rewrite Hlen in E. unfold elems in E at 1. rewrite take_drop in E. rewrite E.
      pose proof (Permutation_length Hp). exists (u ++ drop (num sk) (data sk)).
      rewrite take_app_length' by lia. split_and!; [done|rewrite length_app, length_drop; lia|done|done].
    - exists (data sk). split_and!; [done|done|done|]. fold (elems sk).
      destruct (elems sk) as [|a [|? ?]]; [constructor|repeat constructor|cbn in Hlen; lia]. }
  destruct Hsort as (d' & -> & Hl & Hp & Hss). cbn [mbind option_bind]. eexists. split; [done|].
  unfold stack_wf. cbn [num data num_alloc sorted comp]. split_and!; done || lia.
Qed.

(** [OPENSSL_sk_find] returns the first match.  Without a comparison
    function that is the first equal pointer; with one, the first element that
    compares equal, by linear search or, on a stack known to be sorted, by a
    binary search that terminates and never reads outside the elements. *)
Theorem OPENSSL_sk_find_first (cmp : nat → ptr → ptr → Z) (sk : stack_st) (p : ptr) (Hwf : stack_wf sk)
    (Hcmp : ∀ f, comp sk = Some f → Comparator (cmp f))
    (Hs : ∀ f, comp sk = Some f → sorted sk = true → StronglySorted (le cmp f) (elems sk)) :
  ∃ r, OPENSSL_sk_find cmp (Some sk) p = Some r ∧
    match comp sk with
    | None => first_match (λ _ x y, if y =? x then 0 else 1) 0 (elems sk) p r
    | Some f => if p =? NULL then r = None else first_match cmp f (elems sk) p r
    end.
Proof.
  destruct Hwf as (H1 & H2 & H3 & H4 & H5). unfold OPENSSL_sk_find.
  destruct (comp sk) as [f|] eqn:Hf.
  - destruct (p =? NULL); [by exists None|]. specialize (Hcmp f eq_refl).
    destruct (OPENSSL_sk_is_sorted (Some sk)) eqn:Eo; cbn [negb].
    + apply binary_search_spec; [done|..|left]; try lia.
      * unfold OPENSSL_sk_is_sorted in Eo. rewrite Hf in Eo. apply orb_true_iff in Eo as [Eo|Eo].
        -- by apply strongly_sorted_is_sorted, Hs.
        -- cbn [andb] in Eo. apply andb_true_iff in Eo as [_ Hn%Nat.ltb_lt].
           intros i j x y Hij Hi Hj. pose proof (lookup_lt_Some _ _ _ Hj) as Hl. rewrite length_take in Hl.
           assert (i = j) as -> by lia. assert (x = y) as -> by congruence. by apply le_refl.
      * intros j x Hj Hx%lookup_lt_Some. rewrite length_take in Hx. lia.
    + apply linear_search_first. lia.
  - destruct (linear_search_spec (λ x, x =? p) (data sk) 0 (num sk)) as (r & E & H); [lia|]. exists r. split; [done|].
    unfold elems. destruct r as [j|]; cbn in *.
    + destruct H as (? & (x & Hx & Hc) & Hfirst). split.
      * exists x. rewrite lookup_take_lt by lia. by rewrite Hc.
      * intros i y Hi Hy. rewrite lookup_take_lt in Hy by lia. by rewrite (Hfirst i y ltac:(lia) Hy).
    + intros i y Hy. pose proof (lookup_lt_Some _ _ _ Hy) as Hl. rewrite length_take in Hl.
      rewrite lookup_take_lt in Hy by lia. by rewrite (H i y ltac:(lia) Hy).
Qed.

(** The [sorted] flag tells the truth. *)
Definition flag_ok (cmp : nat → ptr → ptr → Z) (sk : stack_st) : Prop :=
  ∀ f, comp sk = Some f → sorted sk = true → StronglySorted (le cmp f) (elems sk).

Lemma StronglySorted_sublist {X} (R : X → X → Prop) l k : sublist l k → StronglySorted R k → StronglySorted R l.
Proof.
  induction 1 as [|x l k Hlk IH|x l k Hlk IH]; [done|..].
  - rewrite !StronglySorted_cons. intros [Hx Hk]. split; [|by apply IH].
    rewrite Forall_forall in Hx |- *. intros y Hy. eapply Hx, elem_of_sublist; done.
  - rewrite StronglySorted_cons. intros [_ Hk]. by apply IH.
Qed.

(** C26: the array operations.  On a well-formed stack: insertion puts the
    pointer at the index (or at the end) and returns the new length, and it
    fails, leaving the stack as it was, exactly if there are [INT_MAX] elements
    or the array is full and there is no memory for twice its size; deletion
    returns the element and closes the gap; [OPENSSL_sk_delete_if] keeps exactly the
    elements that the callback rejects, in order.  All preserve
    well-formedness, and the [sorted] flag stays truthful. *)
Theorem stack_operations_spec {A : Allocator} (cmp : nat → ptr → ptr → Z) (t : nat) (sk : stack_st) (p : ptr)
    (w : nat) (func : ptr → bool) (Hwf : stack_wf sk) (Hok : flag_ok cmp sk) :
  (∃ sk' r, OPENSSL_sk_insert t sk p w = Some (sk', r) ∧ stack_wf sk' ∧ flag_ok cmp sk' ∧
     ((¬ insert_fails t sk ∧ r = Z.of_nat (num sk) + 1 ∧ elems sk' = take w (elems sk) ++ p :: drop w (elems sk)) ∨
      (insert_fails t sk ∧ r = 0 ∧ sk' = sk))) ∧
  (∃ sk' r, OPENSSL_sk_delete sk w = Some (sk', r) ∧ stack_wf sk' ∧ flag_ok cmp sk' ∧
     elems sk' = delete w (elems sk) ∧ r = default NULL (elems sk !! w)) ∧
  (∃ sk', OPENSSL_sk_delete_if sk func = Some sk' ∧ stack_wf sk' ∧ flag_ok cmp sk' ∧
     elems sk' = filter (λ x, func x = false) (elems sk)).
Proof.
  pose proof (elems_length sk Hwf) as Hlen. split_and!.
  - destruct (sk_insert_spec t sk p w Hwf) as (sk' & r & E & [(? & ? & ? & ? & Hs & ?)|(? & -> & ->)]).
    + exists sk', r. split_and!; [done|done| |by left]. intros f _ Hs'. congruence.
    + exists sk, 0. split_and!; [done|done|done|by right].
  - destruct (Nat.lt_ge_cases w (num sk)) as [Hw|Hw].
    + destruct (sk_delete_spec sk w Hwf Hw) as (sk' & x & E & Hx & Hwf' & He & Hs & Hc).
      exists sk', x. split_and!; [done|done| |done|by rewrite Hx]. intros f Hf Hs'. rewrite He.
      apply (StronglySorted_sublist _ _ (elems sk)); [apply sublist_delete|]. apply Hok; congruence.
    + unfold OPENSSL_sk_delete. destruct (Nat.leb_spec (num sk) w); [|lia]. eexists _, _. split; [done|].
      rewrite (lookup_ge_None_2 (elems sk) w) by lia. split_and!; [done|done| |done].
      rewrite delete_take_drop, take_ge, drop_ge by lia. by rewrite app_nil_r.
  - destruct Hwf as (H1 & H2 & H3 & H4 & H5). unfold OPENSSL_sk_delete_if.
    destruct (delete_if_loop_spec func (data sk) 0 0 (num sk)) as (d' & -> & Hl & Ht); [lia|lia|].
    cbn [mbind option_bind]. rewrite drop_0 in *. cbn [take app] in Ht. fold (elems sk) in *.
    rewrite Nat.add_0_l in *. assert (Hfl : (length (filter (λ x, func x = false) (elems sk)) ≤ num sk)%nat).
    { rewrite <- Hlen. apply length_filter. }
    eexists. split; [done|]. unfold stack_wf, flag_ok. cbn [num data num_alloc sorted comp].
    split_and!; [lia|lia|lia|lia|done| |done].
    intros f Hf Hs. unfold elems at 1. cbn [num data]. rewrite Ht.
    apply (StronglySorted_sublist _ _ (elems sk)); [apply sublist_filter|]. by apply Hok.
Qed.

(** Pointers ordered by address, for the examples. *)
Definition address_cmp (_ : nat) (p q : ptr) : Z := p - q.
Lemma address_comparator f : Comparator (address_cmp f).
Proof. split; unfold address_cmp; lia. Qed.

Definition example_stack : stack_st := mkStack 3 [30; 10; 20; 0] false 4 (Some 0%nat).
Lemma example_stack_wf : stack_wf example_stack.
Proof. unfold stack_wf, INT_MAX. cbn. lia. Qed.

Lemma OPENSSL_sk_sort_sorts_witness :
  ∃ sk', OPENSSL_sk_sort address_cmp example_stack = Some sk' ∧ stack_wf sk' ∧ elems sk' ≡ₚ elems example_stack ∧
    StronglySorted (le address_cmp 0) (elems sk') ∧ sorted sk' = true ∧ comp sk' = Some 0%nat.
Proof. exact (OPENSSL_sk_sort_sorts address_cmp 0 example_stack (address_comparator 0) example_stack_wf eq_refl eq_refl). Defined.

Lemma OPENSSL_sk_find_first_witness :
  ∃ r, OPENSSL_sk_find address_cmp (Some example_stack) 20 = Some r ∧
    match comp example_stack with
    | None => first_match (λ _ x y, if y =? x then 0 else 1) 0 (elems example_stack) 20 r
    | Some f => if 20 =? NULL then r = None else first_match address_cmp f (elems example_stack) 20 r
    end.
Proof.
  apply (OPENSSL_sk_find_first address_cmp example_stack 20 example_stack_wf);
    [intros f _; apply address_comparator|intros f _ H; discriminate H].
Defined.

Lemma stack_operations_spec_witness :
  (∃ sk' r, OPENSSL_sk_insert (A := zero_allocator) 0 example_stack 7 1 = Some (sk', r) ∧ stack_wf sk' ∧ flag_ok address_cmp sk' ∧
     ((¬ insert_fails (A := zero_allocator) 0 example_stack ∧
       r = Z.of_nat (num example_stack) + 1 ∧ elems sk' = take 1 (elems example_stack) ++ 7 :: drop 1 (elems example_stack)) ∨
      (insert_fails (A := zero_allocator) 0 example_stack ∧ r = 0 ∧ sk' = example_stack))) ∧
  (∃ sk' r, OPENSSL_sk_delete example_stack 1 = Some (sk', r) ∧ stack_wf sk' ∧ flag_ok address_cmp sk' ∧
     elems sk' = delete 1%nat (elems example_stack) ∧ r = default NULL (elems example_stack !! 1%nat)) ∧
  (∃ sk', OPENSSL_sk_delete_if example_stack (λ x, x =? 10) = Some sk' ∧ stack_wf sk' ∧ flag_ok address_cmp sk' ∧
     elems sk' = filter (λ x, (x =? 10) = false) (elems example_stack)).
Proof.
  apply (stack_operations_spec (A := zero_allocator) address_cmp 0 example_stack 7 1 (λ x, x =? 10) example_stack_wf).
  intros f _ H. discriminate H.
Defined.

(** [OPENSSL_sk_set] leaves the flag on: after replacing the first element of a
    sorted stack by 50, the stack claims to be sorted and [OPENSSL_sk_find]
    does not find an element that is there. *)
Lemma OPENSSL_sk_set_keeps_sorted :
  ∃ sk, OPENSSL_sk_sort address_cmp example_stack = Some sk ∧ elems sk = [10; 20; 30] ∧
    let sk' := fst (OPENSSL_sk_set sk 0 50) in
    elems sk' = [50; 20; 30] ∧ OPENSSL_sk_is_sorted (Some sk') = true ∧
    OPENSSL_sk_find address_cmp (Some sk') 50 = Some None.
Proof. eexists. split; [by vm_compute|]. by vm_compute. Qed.
