(* ===== verification/State.v ===== *)
(** Stateful C code that may go wrong: [ST W A] runs in a world [W] and yields
    a value and the next world, or [None] when it has undefined behaviour.
    [wp m w Q]: [m] is defined on [w] and ends in a result that satisfies [Q]. *)
From S2P Require Import Prelude.

Definition ST (W A : Type) : Type := W → option (A * W).

#[export] Instance ST_ret {W} : MRet (ST W) := λ A a w, Some (a, w).
#[export] Instance ST_bind {W} : MBind (ST W) := λ A B f m w,
  match m w with Some (a, w') => f a w' | None => None end.

Definition ub {W A} : ST W A := λ _, None.
(** The fields of the world: [gets f] reads, [modify f] writes. *)
Definition gets {W A} (f : W → A) : ST W A := λ w, Some (f w, w).
Definition modify {W} (f : W → W) : ST W unit := λ w, Some ((), f w).
(** A partial read: a pointer dereference, an access to an array. *)
Definition deref {W A} (f : W → option A) : ST W A := λ w,
  match f w with Some a => Some (a, w) | None => None end.

Definition wp {W A} (m : ST W A) (w : W) (Q : A → W → Prop) : Prop :=
  match m w with Some (a, w') => Q a w' | None => False end.

Section wp.
Context {W : Type}.
Implicit Types w : W.

Lemma st_ret {A} (a : A) w (Q : A → W → Prop) : Q a w → wp (mret a) w Q.
Proof. done. Qed.

Lemma st_bind {A B} (m : ST W A) (f : A → ST W B) w (Q : B → W → Prop) :
  wp m w (λ a w', wp (f a) w' Q) → wp (m ≫= f) w Q.
Proof. unfold wp, mbind, ST_bind. by destruct (m w) as [[??]|]. Qed.

Lemma st_mono {A} (m : ST W A) w (P Q : A → W → Prop) :
  wp m w P → (∀ a w', P a w' → Q a w') → wp m w Q.
Proof. unfold wp. destruct (m w) as [[??]|]; eauto. Qed.

Lemma wp_gets {A} (f : W → A) w (Q : A → W → Prop) : Q (f w) w → wp (gets f) w Q.
Proof. done. Qed.

Lemma wp_modify (f : W → W) w (Q : unit → W → Prop) : Q () (f w) → wp (modify f) w Q.
Proof. done. Qed.

Lemma wp_deref {A} (f : W → option A) a w (Q : A → W → Prop) : f w = Some a → Q a w → wp (deref f) w Q.
Proof. intros E HQ. unfold wp, deref. by rewrite E. Qed.

Lemma wp_det {A} (m : ST W A) w a w' (Q : A → W → Prop) : m w = Some (a, w') → wp m w Q → Q a w'.
Proof. unfold wp. by intros ->. Qed.
End wp.

(** Steps over the straight-line part of a run. *)
Ltac wp_step :=
  lazymatch goal with
  | |- wp (_ ≫= _) _ _ => apply st_bind
  | |- wp (mret _) _ _ => apply st_ret
  | |- wp (gets _) _ _ => apply wp_gets
  | |- wp (modify _) _ _ => apply wp_modify
  | |- wp (deref _) _ _ => eapply wp_deref; [try eassumption|]
  end; cbn beta.
Ltac wp_steps := repeat wp_step.
