(* ===== verification/Buf.v ===== *)
(** [crypto/buf/buf.c]: a growing buffer. *)
From S2P Require Import Prelude Mem State CString.

(** A pointer is a block and the offset in it.  [data] has offset 0 except in
    a read-only memory BIO, which moves it. *)
Record BUF_MEM := mkBuf { bm_length : Z; bm_data : option (list Z * Z); bm_max : Z }.
Definition sizeof_BUF_MEM : Z := 24.

Section buf.
Context {A : Allocator}.
(** The world is the number of allocations so far. *)
Abbreviation Alloc := (ST nat).

Definition alloc_call {B} (f : nat → option B) : Alloc (option B) := λ t, Some (f t, S t).

Definition BUF_MEM_new : Alloc (option BUF_MEM) :=
  block ← alloc_call (λ t, OPENSSL_zalloc t sizeof_BUF_MEM);
  mret ((λ _, mkBuf 0 None 0) <$> block).

(** [OPENSSL_realloc(buf->data, n)]: only the start of a block can be freed. *)
Definition buf_realloc (buf : BUF_MEM) (n : Z) : Alloc (option (list Z)) :=
  match bm_data buf with
  | None => alloc_call (λ t, OPENSSL_realloc t [] n)
  | Some (block, off) => if off =? 0 then alloc_call (λ t, OPENSSL_realloc t block n) else ub
  end.

Definition BUF_MEM_reserve (buf : BUF_MEM) (cap : Z) : Alloc (Z * BUF_MEM) :=
  if bm_max buf >=? cap then mret (1, buf)
  else
    let n := cap ⊞[64] 3 in
    if n <? cap then mret (0, buf)
    else
      let n := n / 3 in
      let alloc_size := n ⊠[64] 4 in
      if negb (alloc_size / 4 =? n) then mret (0, buf)
      else
        new_buf ← buf_realloc buf alloc_size;
        match new_buf with
        | None => mret (0, buf)
        | Some block => mret (1, mkBuf (bm_length buf) (Some (block, 0)) alloc_size)
        end.

(** [memcpy(buf->data + off, d, ...)] *)
Definition write_data (buf : BUF_MEM) (off : Z) (d : list Z) : Alloc BUF_MEM :=
  deref (λ _, '(block, base) ← bm_data buf; block ← write_range block (base + off) d;
              Some (mkBuf (bm_length buf) (Some (block, base)) (bm_max buf))).
Definition with_length (n : Z) (buf : BUF_MEM) : BUF_MEM := mkBuf n (bm_data buf) (bm_max buf).

Definition BUF_MEM_grow (buf : BUF_MEM) (len : Z) : Alloc (Z * BUF_MEM) :=
  '(ok, buf) ← BUF_MEM_reserve buf len;
  if ok =? 0 then mret (0, buf)
  else
    buf ← (if bm_length buf <? len then write_data buf (bm_length buf) (replicate (Z.to_nat (len - bm_length buf)) 0)
           else mret buf);
    mret (len, with_length len buf).
Definition BUF_MEM_grow_clean (buf : BUF_MEM) (len : Z) : Alloc (Z * BUF_MEM) := BUF_MEM_grow buf len.

Definition BUF_MEM_append (buf : BUF_MEM) (inp : list Z) : Alloc (Z * BUF_MEM) :=
  let len := Z.of_nat (length inp) in
  if len =? 0 then mret (1, buf)
  else
    let new_len := bm_length buf ⊞[64] len in
    if new_len <? len then mret (0, buf)
    else
      '(ok, buf) ← BUF_MEM_reserve buf new_len;
      if ok =? 0 then mret (0, buf)
      else
        buf ← write_data buf (bm_length buf) inp;
        mret (1, with_length new_len buf).

(** ** The buffer as a list of bytes *)
Record buf_rep (buf : BUF_MEM) (q : list Z) : Prop := {
  bf_length : bm_length buf = Z.of_nat (length q);
  bf_max : Z.of_nat (length q) <= bm_max buf < 2 ^ 64;
  bf_bytes : bytes_ok q;
  bf_data : match bm_data buf with
            | None => q = [] ∧ bm_max buf = 0
            | Some (block, off) => off = 0 ∧ Z.of_nat (length block) = bm_max buf ∧ take (length q) block = q
            end;
}.

Lemma write_range_spec bs off d : 0 <= off → off + Z.of_nat (length d) <= Z.of_nat (length bs) →
  write_range bs off d = Some (take (Z.to_nat off) bs ++ d ++ drop (Z.to_nat off + length d) bs).
Proof.
  intros Ho Hl. unfold write_range.
  destruct (Z.leb_spec 0 off), (Z.leb_spec (off + Z.of_nat (length d)) (Z.of_nat (length bs))); done || lia.
Qed.

(** What [reserve] asks for: a third more than [cap], and at least [cap]. *)
Lemma reserve_size cap : 0 <= cap → (cap + 3) / 3 * 4 < 2 ^ 64 →
  let n := cap ⊞[64] 3 in (n <? cap) = false ∧ n / 3 ⊠[64] 4 = (cap + 3) / 3 * 4 ∧ n / 3 = (cap + 3) / 3 ∧ cap <= (cap + 3) / 3 * 4.
Proof.
  intros Hc Hs. pose proof (Z.div_mod (cap + 3) 3). pose proof (Z.mod_pos_bound (cap + 3) 3).
  cbv zeta. rewrite (wrap_small 64 (cap + 3)) by lia. rewrite wrap_small by lia.
  split_and!; lia.
Qed.

Lemma wp_realloc_data buf q n t (Q : option (list Z) → nat → Prop) :
  buf_rep buf q → bm_max buf <= n < 2 ^ 64 →
  (∀ t', ¬ (NeverFails A ∧ n < 2 ^ 64 - 8) → Q None t') →
  (∀ block t', Z.of_nat (length block) = n → take (length q) block = q → Q (Some block) t') →
  wp (buf_realloc buf n) t Q.
Proof.
  intros [Hl Hm Hb Hd] Hn HN HS. unfold buf_realloc.
  set (orig := match bm_data buf with Some (block, _) => block | None => [] end).
  assert (E : (match bm_data buf with
     | None => alloc_call (λ t, OPENSSL_realloc t [] n)
     | Some (block, off) => if off =? 0 then alloc_call (λ t, OPENSSL_realloc t block n) else ub end) =
     alloc_call (λ t, OPENSSL_realloc t orig n)).
  { unfold orig. destruct (bm_data buf) as [[block off]|]; [|done]. by destruct Hd as [-> _]. }
  rewrite E. unfold wp, alloc_call. destruct (OPENSSL_realloc t orig n) as [block|] eqn:Er.
  - assert (Ho : Z.of_nat (length orig) = bm_max buf).
    { unfold orig. destruct (bm_data buf) as [[? ?]|]; [by destruct Hd as (_ & -> & _)|by destruct Hd as [_ ->]]. }
    apply OPENSSL_realloc_spec in Er as (H1 & H2 & _); [|lia|lia]. apply HS; [done|].
    assert (Hq : take (length q) orig = q).
    { unfold orig. destruct (bm_data buf) as [[? ?]|]; [by destruct Hd as (_ & _ & ->)|by destruct Hd as [-> _]]. }
    rewrite <- Hq at 2. rewrite <- H2. rewrite take_take, Nat.min_l by lia. done.
  - apply HN. intros [Hnf Hn']. destruct (OPENSSL_realloc_succeeds t orig n) as [b Hb']; [lia|]. congruence.
Qed.

(** Either [reserve] makes room for [cap] bytes and keeps the contents, or it
    fails: for lack of memory, or because [cap] is near the end of [size_t]. *)
Lemma wp_reserve buf q cap t (Q : Z * BUF_MEM → nat → Prop) :
  buf_rep buf q → 0 <= cap < 2 ^ 64 →
  (∀ t', ¬ (NeverFails A ∧ cap < 2 ^ 62) → Q (0, buf) t') →
  (∀ buf' t', buf_rep buf' q → cap <= bm_max buf' → Q (1, buf') t') →
  wp (BUF_MEM_reserve buf cap) t Q.
Proof.
  intros Hr Hc HN HS. pose proof Hr as [Hl Hm Hb Hd]. unfold BUF_MEM_reserve.
  destruct (Z.geb_spec (bm_max buf) cap); [by apply st_ret, HS|]. cbv zeta.
  pose proof (Z.div_mod (cap + 3) 3). pose proof (Z.mod_pos_bound (cap + 3) 3).
  destruct (Z.ltb_spec (cap ⊞[64] 3) cap) as [Hov|Hno]; [apply st_ret, HN; unfold wrap in Hov; intros [_ ?]; rewrite Z.mod_small in Hov; lia|].
  destruct (Z.lt_ge_cases ((cap + 3) / 3 * 4) (2 ^ 64)) as [Hs|Hs].
  - destruct (reserve_size cap ltac:(lia) Hs) as (_ & E & En & Hge). rewrite E, En.
    rewrite Z.div_mul, Z.eqb_refl by lia. cbn [negb]. apply st_bind. eapply wp_realloc_data; [done|lia| |].
    + intros t' Hn. apply st_ret, HN. intros [? ?]. apply Hn. split; [done|lia].
    + intros block t' Hlen Ht. apply st_ret, HS; [|done]. split; cbn [bm_length bm_data bm_max]; [done|lia|done|done].
  - assert (E : cap ⊞[64] 3 = cap + 3).
    { apply wrap_small. split; [lia|]. apply Z.nle_gt. intros Hge. unfold wrap in Hno.
      rewrite <- (Z.mod_unique (cap + 3) (2 ^ 64) 1 (cap + 3 - 2 ^ 64)) in Hno by lia. lia. }
    rewrite E.
    assert (E4 : (cap + 3) / 3 ⊠[64] 4 = (cap + 3) / 3 * 4 - 2 ^ 64).
    { symmetry. apply (Z.mod_unique _ _ 1); lia. }
    rewrite E4. replace ((cap + 3) / 3 * 4 - 2 ^ 64) with (((cap + 3) / 3 - 2 ^ 62) * 4) by lia. rewrite Z.div_mul by lia.
    destruct (Z.eqb_spec ((cap + 3) / 3 - 2 ^ 62) ((cap + 3) / 3)); [lia|]. cbn [negb]. apply st_ret, HN. lia.
Qed.

Lemma write_data_spec buf q off d t (Q : BUF_MEM → nat → Prop) :
  buf_rep buf q → bytes_ok d → off = Z.of_nat (length q) → off + Z.of_nat (length d) <= bm_max buf → d ≠ [] →
  (∀ buf', buf_rep (with_length (off + Z.of_nat (length d)) buf') (q ++ d) → Q buf' t) →
  wp (write_data buf off d) t Q.
Proof.
  intros [Hl Hm Hb Hdata] Hd -> Hlen Hne HQ. unfold write_data.
  destruct (bm_data buf) as [[block base]|]; [|destruct d; [done|destruct Hdata; cbn [length] in *; lia]].
  destruct Hdata as (-> & Hblock & Hq). eapply wp_deref.
  - cbn [mbind option_bind]. rewrite write_range_spec by lia. cbn [mbind option_bind]. reflexivity.
  - apply HQ. rewrite Z.add_0_l, Nat2Z.id, Hq. split; cbn [with_length bm_length bm_data bm_max].
    + rewrite length_app. lia.
    + rewrite length_app. lia.
    + by apply Forall_app_2.
    + split; [done|]. rewrite !length_app, length_drop. split; [lia|]. rewrite app_assoc. apply take_app_length'. by rewrite length_app.
Qed.

Lemma buf_rep_nil : buf_rep (mkBuf 0 None 0) [].
Proof. split; cbn; [done|lia|constructor|done]. Qed.

(** [BUF_MEM_append] appends, or fails and keeps the contents. *)
Lemma wp_append buf q inp t (Q : Z * BUF_MEM → nat → Prop) :
  buf_rep buf q → bytes_ok inp → Z.of_nat (length inp) < 2 ^ 64 →
  (∀ buf' t', ¬ (NeverFails A ∧ Z.of_nat (length q + length inp) < 2 ^ 62) → buf_rep buf' q → Q (0, buf') t') →
  (∀ buf' t', buf_rep buf' (q ++ inp) → Q (1, buf') t') →
  wp (BUF_MEM_append buf inp) t Q.
Proof.
  intros Hr Hi Hlt HN HS. pose proof Hr as [Hl Hm Hb Hd]. unfold BUF_MEM_append.
  destruct (Z.eqb_spec (Z.of_nat (length inp)) 0) as [H0|H0].
  { destruct inp; [|done]. rewrite app_nil_r in HS. by apply st_ret, HS. }
  cbv zeta. rewrite Hl. destruct (Z.ltb_spec (Z.of_nat (length q) ⊞[64] Z.of_nat (length inp)) (Z.of_nat (length inp))) as [Hov|Hov].
  { apply st_ret, HN; [|done]. intros [_ ?]. rewrite wrap_small in Hov; lia. }
  assert (E : Z.of_nat (length q) ⊞[64] Z.of_nat (length inp) = Z.of_nat (length q) + Z.of_nat (length inp)).
  { destruct (Z.lt_ge_cases (Z.of_nat (length q) + Z.of_nat (length inp)) (2 ^ 64)); [by rewrite wrap_small by lia|].
    exfalso. unfold wrap in Hov. revert Hov. apply Z.lt_nge.
    replace ((Z.of_nat (length q) + Z.of_nat (length inp)) mod 2 ^ 64) with (Z.of_nat (length q) + Z.of_nat (length inp) - 2 ^ 64); [lia|].
    apply (Z.mod_unique _ _ 1); lia. }
  rewrite E in *. apply st_bind. eapply wp_reserve; [done| | |].
  - split; [lia|]. rewrite <- E. apply wrap_range. lia.
  - intros t' Hn. cbn [Z.eqb]. apply st_ret, HN; [|done]. intros [? ?]. apply Hn. split; [done|lia].
  - intros buf' t' Hr' Hge. cbn [Z.eqb]. apply st_bind.
    eapply write_data_spec; [done|done|apply Hr'| |by intros ->|].
    + rewrite (bf_length _ _ Hr'). lia.
    + intros buf'' Hr''. apply st_ret. rewrite (bf_length _ _ Hr') in Hr''. by apply HS.
Qed.

(** [BUF_MEM_grow] cuts the contents or fills them up with zeros. *)
Lemma wp_grow buf q len t (Q : Z * BUF_MEM → nat → Prop) :
  buf_rep buf q → 0 < len < 2 ^ 64 →
  (∀ buf' t', ¬ (NeverFails A ∧ len < 2 ^ 62) → buf_rep buf' q → Q (0, buf') t') →
  (∀ buf' t', buf_rep buf' (take (Z.to_nat len) q ++ replicate (Z.to_nat len - length q) 0) → Q (len, buf') t') →
  wp (BUF_MEM_grow buf len) t Q.
Proof.
  intros Hr Hlen HN HS. unfold BUF_MEM_grow. apply st_bind. eapply wp_reserve; [done|lia| |].
  - intros t' Hn. cbn [Z.eqb]. by apply st_ret, HN.
  - intros buf' t' Hr' Hge. cbn [Z.eqb]. apply st_bind. pose proof Hr' as [Hl Hm Hb Hd]. rewrite Hl.
    destruct (Z.ltb_spec (Z.of_nat (length q)) len) as [Hlt|Hle].
    + eapply write_data_spec; [done|by apply Forall_replicate; lia|done|rewrite length_replicate; lia| |].
      * destruct (Z.to_nat (len - Z.of_nat (length q))) eqn:En; [lia|done].
      * intros buf'' Hr''. apply st_ret. rewrite length_replicate in Hr''.
        replace (Z.of_nat (length q) + Z.of_nat (Z.to_nat (len - Z.of_nat (length q)))) with len in Hr'' by lia.
        replace (Z.to_nat (len - Z.of_nat (length q))) with (Z.to_nat len - length q)%nat in Hr'' by lia.
        apply HS. by rewrite take_ge by lia.
    + apply st_ret, st_ret, HS. replace (Z.to_nat len - length q)%nat with 0%nat by lia. rewrite app_nil_r.
      split; cbn [with_length bm_length bm_data bm_max].
      * rewrite length_take. lia.
      * rewrite length_take. lia.
      * by apply Forall_take.
      * destruct (bm_data buf') as [[block off]|]; [|destruct Hd as [-> _]; cbn in Hle; lia].
        destruct Hd as (-> & Hbl & Hq). split; [done|]. split; [done|]. rewrite length_take.
        rewrite <- Hq at 2. by rewrite take_take.
Qed.
End buf.
