(* ===== verification/Refcount.v ===== *)
(** [crypto/refcount.c]: the lock-free reference count.  Several threads run
    [CRYPTO_refcount_inc] and [CRYPTO_refcount_dec_and_test_zero] on one
    atomic word; their loads and (weak) compare-and-exchanges interleave in
    any order. *)
From S2P Require Import Prelude.

Definition CRYPTO_REFCOUNT_MAX : Z := 0xffffffff.

Inductive op := Inc | Dec.

(** Where a thread is: between calls, before the load, before an iteration of
    the loop with the value of [expected], or in [abort()]. *)
Inductive pc := Idle | Load (o : op) | Loop (o : op) (expected : Z) | Aborted.

#[export] Instance op_eq_dec : EqDecision op.
Proof. solve_decision. Defined.
#[export] Instance pc_eq_dec : EqDecision pc.
Proof. solve_decision. Defined.

(** [CRYPTO_atomic_compare_exchange_weak_u32(count, &expected, new_value)]:
    [spurious] is the failure that the weak form allows.  The new word and
    whether the exchange was made. *)
Definition compare_exchange_weak (spurious : bool) (count expected new_value : Z) : Z * bool :=
  if (count =? expected) && negb spurious then (new_value, true) else (count, false).

(** The next atomic step of the body of [CRYPTO_refcount_inc]. *)
Definition CRYPTO_refcount_inc (spurious : bool) (count : Z) (p : pc) : Z * pc :=
  match p with
  | Load _ => (count, Loop Inc count)
  | Loop _ expected =>
      if negb (expected =? CRYPTO_REFCOUNT_MAX) then
        let new_value := expected ⊞[32] 1 in
        match compare_exchange_weak spurious count expected new_value with
        | (count, true) => (count, Idle)
        | (count, false) => (count, Loop Inc count)
        end
      else (count, Idle)
  | p => (count, p)
  end.

(** The same for [CRYPTO_refcount_dec_and_test_zero], with its return value. *)
Definition CRYPTO_refcount_dec_and_test_zero (spurious : bool) (count : Z) (p : pc) : Z * pc * option bool :=
  match p with
  | Load _ => (count, Loop Dec count, None)
  | Loop _ expected =>
      if expected =? 0 then (count, Aborted, None)
      else if expected =? CRYPTO_REFCOUNT_MAX then (count, Idle, Some false)
      else
        let new_value := expected ⊟[32] 1 in
        match compare_exchange_weak spurious count expected new_value with
        | (count, true) => (count, Idle, Some (new_value =? 0))
        | (count, false) => (count, Loop Dec count, None)
        end
  | p => (count, p, None)
  end.

(** The two functions when no other thread runs: [None] is [abort()]. *)
Definition refcount_inc_alone (count : Z) : Z := (CRYPTO_refcount_inc false count (Loop Inc count)).1.
Definition refcount_dec_alone (count : Z) : option (Z * bool) :=
  match CRYPTO_refcount_dec_and_test_zero false count (Loop Dec count) with
  | (count, _, Some r) => Some (count, r)
  | _ => None
  end.

(** ** Threads

    A thread owns [refs] references and has the calls [todo] to make; it takes
    a reference only while it owns one. [releases] counts the calls that
    returned 1, each of which frees the object. *)
Record thread := mkThread { at_ : pc; refs : nat; todo : list op }.
Record system := mkSystem { count : Z; threads : list thread; releases : nat }.

Fixpoint allowed (refs : nat) (todo : list op) : Prop :=
  match todo with
  | [] => True
  | Inc :: todo => (0 < refs)%nat ∧ allowed (S refs) todo
  | Dec :: todo => (0 < refs)%nat ∧ allowed (pred refs) todo
  end.
(** The references that are left after the calls. *)
Fixpoint left_over (refs : nat) (todo : list op) : nat :=
  match todo with
  | [] => refs
  | Inc :: todo => left_over (S refs) todo
  | Dec :: todo => left_over (pred refs) todo
  end.

(** One atomic step of a thread on the word [c]: the new word, the thread and
    whether the call returned 1. *)
Inductive thread_step (spurious : bool) (c : Z) : thread → Z → thread → bool → Prop :=
  | step_call o refs todo :
      thread_step spurious c (mkThread Idle refs (o :: todo)) c (mkThread (Load o) refs (o :: todo)) false
  | step_inc p refs todo c' p' : p = Load Inc ∨ (∃ e, p = Loop Inc e) →
      CRYPTO_refcount_inc spurious c p = (c', p') → p' ≠ Idle →
      thread_step spurious c (mkThread p refs (Inc :: todo)) c' (mkThread p' refs (Inc :: todo)) false
  | step_inc_return p refs todo c' : p = Load Inc ∨ (∃ e, p = Loop Inc e) →
      CRYPTO_refcount_inc spurious c p = (c', Idle) →
      thread_step spurious c (mkThread p refs (Inc :: todo)) c' (mkThread Idle (S refs) todo) false
  | step_dec p refs todo c' p' : p = Load Dec ∨ (∃ e, p = Loop Dec e) →
      CRYPTO_refcount_dec_and_test_zero spurious c p = (c', p', None) →
      thread_step spurious c (mkThread p refs (Dec :: todo)) c' (mkThread p' refs (Dec :: todo)) false
  | step_dec_return p refs todo c' r : p = Load Dec ∨ (∃ e, p = Loop Dec e) →
      CRYPTO_refcount_dec_and_test_zero spurious c p = (c', Idle, Some r) →
      thread_step spurious c (mkThread p refs (Dec :: todo)) c' (mkThread Idle (pred refs) todo) r.

Inductive step (spurious : bool) : system → system → Prop :=
  | step_thread i t t' c c' ts n (r : bool) : ts !! i = Some t → thread_step spurious c t c' t' r →
      step spurious (mkSystem c ts n) (mkSystem c' (<[i := t']> ts) (if r then S n else n)).

(** ** The transitions, case by case *)
Inductive move (spurious : bool) (c : Z) : thread → Z → thread → bool → Prop :=
  | move_call o n os : move spurious c (mkThread Idle n (o :: os)) c (mkThread (Load o) n (o :: os)) false
  | move_load o n os : move spurious c (mkThread (Load o) n (o :: os)) c (mkThread (Loop o c) n (o :: os)) false
  | move_retry o e n os : e ≠ c ∨ spurious = true →
      move spurious c (mkThread (Loop o e) n (o :: os)) c (mkThread (Loop o c) n (o :: os)) false
  | move_inc n os : c ≠ CRYPTO_REFCOUNT_MAX →
      move spurious c (mkThread (Loop Inc c) n (Inc :: os)) (c ⊞[32] 1) (mkThread Idle (S n) os) false
  | move_inc_max n os :
      move spurious c (mkThread (Loop Inc CRYPTO_REFCOUNT_MAX) n (Inc :: os)) c (mkThread Idle (S n) os) false
  | move_abort n os :
      move spurious c (mkThread (Loop Dec 0) n (Dec :: os)) c (mkThread Aborted n (Dec :: os)) false
  | move_dec n os : c ≠ 0 → c ≠ CRYPTO_REFCOUNT_MAX →
      move spurious c (mkThread (Loop Dec c) n (Dec :: os)) (c ⊟[32] 1) (mkThread Idle (pred n) os) (c ⊟[32] 1 =? 0)
  | move_dec_max n os :
      move spurious c (mkThread (Loop Dec CRYPTO_REFCOUNT_MAX) n (Dec :: os)) c (mkThread Idle (pred n) os) false.

Lemma thread_step_move spurious c t c' t' r : thread_step spurious c t c' t' r → move spurious c t c' t' r.
Proof.
  intros [o n os|p n os c1 p' Hp E Hne|p n os c1 Hp E|p n os c1 p' Hp E|p n os c1 r1 Hp E]; [apply move_call|..];
    destruct Hp as [->|[e ->]]; cbn in E; unfold compare_exchange_weak in E; repeat case_match; simplify_eq; try done;
    repeat match goal with
    | H : negb _ = true |- _ => apply negb_true_iff in H
    | H : negb _ = false |- _ => apply negb_false_iff in H
    | H : _ && _ = true |- _ => apply andb_true_iff in H as [??]
    | H : (_ =? _) = true |- _ => apply Z.eqb_eq in H; subst
    | H : (_ =? _) = false |- _ => apply Z.eqb_neq in H
    | H : _ && _ = false |- _ => apply andb_false_iff in H as [H|H]
    end; first [constructor; done | apply move_retry; by left | apply move_retry; by right].
Qed.

Lemma sum_update (f : thread → nat) ts i t t' : ts !! i = Some t →
  (sum_list_with f (<[i := t']> ts) + f t = sum_list_with f ts + f t')%nat.
Proof.
  revert i. induction ts as [|u ts IH]; intros [|i] Hi; [done|done|injection Hi as ->; cbn; lia|].
  specialize (IH i Hi). change (<[S i := t']> (u :: ts)) with (u :: <[i := t']> ts). cbn [sum_list_with]. lia.
Qed.

Lemma sum_member (f : thread → nat) ts i t : ts !! i = Some t → (f t ≤ sum_list_with f ts)%nat.
Proof. 
  revert i. induction ts as [|u ts IH]; intros [|i] Hi; [done|done|injection Hi as ->; cbn; lia|].
  specialize (IH i Hi). cbn [sum_list_with]. lia.
Qed.

(** ** Safety *)
Definition total (s : system) : nat := sum_list_with refs (threads s).

(** A thread that has read the saturated value still sees it. *)
Definition thread_ok (c : Z) (t : thread) : Prop :=
  allowed (refs t) (todo t) ∧
  match at_ t with
  | Idle => True
  | Load o => head (todo t) = Some o
  | Loop o e => head (todo t) = Some o ∧ 1 <= e ∧ (e = CRYPTO_REFCOUNT_MAX → c = CRYPTO_REFCOUNT_MAX)
  | Aborted => False
  end.

(** The word is the number of references, or saturated for ever; the object is
    freed when the last reference is dropped, and only then. *)
Record inv (s : system) : Prop := {
  inv_threads : Forall (thread_ok (count s)) (threads s);
  inv_count : count s = CRYPTO_REFCOUNT_MAX ∨ count s = Z.of_nat (total s) ∧ Z.of_nat (total s) < CRYPTO_REFCOUNT_MAX;
  inv_releases : releases s = 0%nat ∧ 1 <= count s ∨ releases s = 1%nat ∧ count s = 0;
}.

Definition init (s : system) : Prop :=
  releases s = 0%nat ∧ count s = Z.of_nat (total s) ∧ 1 <= count s <= CRYPTO_REFCOUNT_MAX ∧
  Forall (λ t, at_ t = Idle ∧ allowed (refs t) (todo t)) (threads s).

Definition any_step (s s' : system) : Prop := ∃ spurious, step spurious s s'.

Lemma init_inv s : init s → inv s.
Proof.
  intros (Hr & Hc & Hb & Ht). split; [|lia|lia]. eapply Forall_impl; [exact Ht|]. intros t [Hi Ha]. split; [done|]. by rewrite Hi.
Qed.

(** A thread that has a call to make owns a reference. *)
Lemma thread_owns c t o os : thread_ok c t → todo t = o :: os → (1 ≤ refs t)%nat.
Proof. intros [Ha _] E. rewrite E in Ha. destruct o; cbn in Ha; lia. Qed.

Lemma step_inv spurious s s' : inv s → step spurious s s' → inv s'.
Proof.
  intros [Ht Hc Hr] Hs. destruct Hs as [i t t' c c' ts n r Hi Hm%thread_step_move]. cbn in Ht, Hc, Hr.
  pose proof (Forall_lookup_1 _ _ _ _ Ht Hi) as Hok. pose proof (sum_update refs ts i t t' Hi) as Hsum. unfold total in *. cbn in Hc, Hr.
  pose proof (sum_member refs ts i t Hi) as Hmem. change CRYPTO_REFCOUNT_MAX with (2 ^ 32 - 1) in *.
  assert (Hown : (1 ≤ refs t)%nat) by (destruct Hm; by eapply thread_owns).
  assert (Hn : n = 0%nat ∧ 1 <= c) by lia. destruct Hn as [-> Hc1]. destruct Hok as [Ha Hp].
  assert (Hts : ∀ c' t', (c = CRYPTO_REFCOUNT_MAX → c' = CRYPTO_REFCOUNT_MAX) → thread_ok c' t' → Forall (thread_ok c') (<[i := t']> ts)).
  { intros c2 t2 Hc2 Ht2. apply Forall_insert; [|done]. eapply Forall_impl; [exact Ht|]. intros u [? Hu]. split; [done|].
    destruct (at_ u); naive_solver. }
  unfold thread_ok in Hts, Hp. change CRYPTO_REFCOUNT_MAX with (2 ^ 32 - 1) in *.
  destruct Hm; cbn in *; change CRYPTO_REFCOUNT_MAX with (2 ^ 32 - 1) in *; rewrite ?wrap_small in * by lia;
    (split; cbn; [apply Hts; cbn; intuition (lia || auto)|unfold total; cbn; change CRYPTO_REFCOUNT_MAX with (2 ^ 32 - 1); lia|]);
    try lia.
  destruct (Z.eqb_spec (c - 1) 0); lia.
Qed.

Lemma reachable_inv s s' : inv s → rtc any_step s s' → inv s'.
Proof. intros Hi Hs. induction Hs as [|s s1 s2 [b Hs] _ IH]; [done|]. apply IH. by eapply step_inv. Qed.

(** C14: the reference count is safe under every interleaving.  In a system
    whose threads use a reference only while they own one, no thread aborts,
    the object is released at most once, and once it is released no reference
    is left and no thread is in a call or will make one; until then the word
    counts the references, or is saturated and the object is kept for ever. *)
Theorem refcount_safe (s s' : system) (Hinit : init s) (Hsteps : rtc any_step s s') :
  Forall (λ t, at_ t ≠ Aborted) (threads s') ∧ (releases s' ≤ 1)%nat ∧
  (releases s' = 1%nat → total s' = 0%nat ∧ Forall (λ t, at_ t = Idle ∧ todo t = []) (threads s')) ∧
  (releases s' = 0%nat → count s' = CRYPTO_REFCOUNT_MAX ∨ count s' = Z.of_nat (total s') ∧ (1 ≤ total s')%nat).
Proof.
  destruct (reachable_inv s s' (init_inv _ Hinit) Hsteps) as [Ht Hc Hr]. change CRYPTO_REFCOUNT_MAX with (2 ^ 32 - 1) in *.
  split_and!; [|lia| |lia].
  - eapply Forall_impl; [exact Ht|]. intros t [_ Hp]. by destruct (at_ t).
  - intros H1. assert (H0 : total s' = 0%nat) by lia. split; [done|]. apply Forall_lookup. intros i t Hi.
    pose proof (sum_member refs _ i t Hi) as Hm. fold (total s') in Hm.
    pose proof (Forall_lookup_1 _ _ _ _ Ht Hi) as Hok. destruct (todo t) as [|o os] eqn:E.
    + destruct Hok as [_ Hp]. rewrite E in Hp. destruct (at_ t); naive_solver.
    + pose proof (thread_owns _ _ _ _ Hok E). lia.
Qed.

(** ** Progress

    Without spurious failures a compare-and-exchange fails only when another
    thread's has succeeded, so the loops end whatever the scheduler does. *)
Definition pending (s : system) : nat := sum_list_with (λ t, length (todo t)) (threads s).
Definition weight (c : Z) (t : thread) : nat :=
  match at_ t with
  | Idle => match todo t with [] => 0%nat | _ => 4%nat end
  | Load _ => 3%nat
  | Loop _ e => if e =? c then 1%nat else 2%nat
  | Aborted => 0%nat
  end.
Definition measure (s : system) : nat :=
  (pending s * (4 * length (threads s) + 1) + sum_list_with (weight (count s)) (threads s))%nat.

Lemma weight_bound c ts : (sum_list_with (weight c) ts ≤ 4 * length ts)%nat.
Proof. induction ts as [|t ts IH]; cbn; [lia|]. assert (weight c t ≤ 4)%nat by (unfold weight; repeat case_match; lia). lia. Qed.

Lemma step_measure s s' : step false s s' → (measure s' < measure s)%nat.
Proof.
  intros Hs. destruct Hs as [i t t' c c' ts n r Hi Hm%thread_step_move]. unfold measure, pending. cbn. rewrite length_insert.
  pose proof (sum_update (λ t, length (todo t)) ts i t t' Hi) as Hp. pose proof (sum_update (weight c) ts i t t' Hi) as Hw.
  pose proof (weight_bound c' (<[i := t']> ts)) as Hb. rewrite length_insert in Hb. cbn in Hp.
  destruct Hm; cbn in Hp, Hw; rewrite ?Z.eqb_refl in Hw;
    try (match goal with H : _ ∨ _ |- _ => destruct H as [?%Z.eqb_neq|?]; [|done] end; simplify_option_eq);
    repeat case_match; nia.
Qed.

(** Unless it has aborted, a thread with calls to make can take a step. *)
Lemma can_step c t : todo t ≠ [] → thread_ok c t → ∃ c' t' r, thread_step false c t c' t' r.
Proof.
  destruct t as [p n [|o os]]; [done|]. intros _ [_ Hp]. cbn in Hp. destruct p as [|o'|o' e|]; [| | |done].
  - eexists _, _, _. apply step_call.
  - injection Hp as <-. destruct o; eexists _, _, _; [by apply step_inc; [left|..]|by eapply step_dec; [left|]].
  - destruct Hp as [[= <-] [He _]]. destruct o.
    + destruct (CRYPTO_refcount_inc false c (Loop Inc e)) as [c' p'] eqn:E. destruct (decide (p' = Idle)) as [->|].
      * eexists _, _, _. eapply step_inc_return; [right; by eexists|done].
      * eexists _, _, _. eapply step_inc; [right; by eexists|done|done].
    + destruct (CRYPTO_refcount_dec_and_test_zero false c (Loop Dec e)) as [[c' p'] [r|]] eqn:E.
      * assert (p' = Idle) as ->. { cbn in E. unfold compare_exchange_weak in E. repeat case_match; by simplify_eq. }
        eexists _, _, _. eapply step_dec_return; [right; by eexists|done].
      * eexists _, _, _. eapply step_dec; [right; by eexists|done].
Qed.

(** The references left at the end, and the most there can be at once. *)
Definition left_total (s : system) : nat := sum_list_with (λ t, left_over (refs t) (todo t)) (threads s).
Definition most (s : system) : nat := sum_list_with (λ t, refs t + length (todo t))%nat (threads s).

Lemma step_left spurious s s' : step spurious s s' → left_total s' = left_total s ∧ (most s' ≤ most s)%nat.
Proof.
  intros Hs. destruct Hs as [i t t' c c' ts n r Hi Hm%thread_step_move]. unfold left_total, most. cbn.
  pose proof (sum_update (λ t, left_over (refs t) (todo t)) ts i t t' Hi) as Hl.
  pose proof (sum_update (λ t, refs t + length (todo t))%nat ts i t t' Hi) as Hn.
  destruct Hm; cbn in Hl, Hn; lia.
Qed.

Lemma total_most s : (total s ≤ most s)%nat.
Proof. unfold total, most. induction (threads s) as [|t ts IH]; cbn; lia. Qed.

Lemma step_unsaturated spurious s s' : inv s → Z.of_nat (most s) < CRYPTO_REFCOUNT_MAX → count s = Z.of_nat (total s) →
  step spurious s s' → count s' = Z.of_nat (total s').
Proof.
  intros Hi Hm Hc Hs. pose proof (step_inv _ _ _ Hi Hs) as [_ Hc' _]. pose proof (step_left _ _ _ Hs) as [_ Hm'].
  pose proof (total_most s) as Htm. destruct Hc' as [Hc'|[? _]]; [|done]. destruct Hi as [_ _ Hr].
  destruct Hs as [i t t' c c' ts n r Hi Hmv%thread_step_move]. unfold total in *. cbn in *.
  pose proof (sum_update refs ts i t t' Hi) as Hsum. change CRYPTO_REFCOUNT_MAX with (2 ^ 32 - 1) in *.
  destruct Hmv; cbn in Hsum; rewrite ?wrap_small in * by lia; lia.
Qed.

Lemma reachable_left s s' : rtc any_step s s' → left_total s' = left_total s.
Proof. induction 1 as [|s s1 s2 [b Hs] _ IH]; [done|]. rewrite IH. by eapply step_left. Qed.

Lemma reachable_unsaturated s s' : inv s → Z.of_nat (most s) < CRYPTO_REFCOUNT_MAX → count s = Z.of_nat (total s) →
  rtc any_step s s' → count s' = Z.of_nat (total s').
Proof.
  intros Hi Hm Hc Hs. induction Hs as [|s s1 s2 [b Hs] _ IH]; [done|]. pose proof (step_left _ _ _ Hs) as [_ Hm'].
  apply IH; [by eapply step_inv|lia|by eapply step_unsaturated].
Qed.

(** Whatever the scheduler does, only finitely many steps can follow. *)
Lemma runs_end n s s' : nsteps (step false) n s s' → (n ≤ measure s)%nat.
Proof. induction 1 as [|n s s1 s2 Hs _ IH]; [lia|]. pose proof (step_measure _ _ Hs). lia. Qed.

(** Where no step is left, no call is left either. *)
Definition returned (t : thread) : Prop := at_ t = Idle ∧ todo t = [].

Lemma stuck_returned s : inv s → (∀ s', ¬ step false s s') → Forall returned (threads s).
Proof.
  intros [Ht _ _] Hstuck. apply Forall_lookup. intros i t Hi. pose proof (Forall_lookup_1 _ _ _ _ Ht Hi) as Hok.
  destruct (decide (todo t = [])) as [E|Hne].
  - split; [|done]. destruct Hok as [_ Hp]. rewrite E in Hp. destruct (at_ t); naive_solver.
  - exfalso. destruct (can_step (count s) t Hne Hok) as (c' & t' & r & Hs). destruct s as [c ts n].
    eapply Hstuck. by eapply step_thread.
Qed.

Lemma returned_total s : Forall returned (threads s) → total s = left_total s.
Proof. unfold total, left_total. induction 1 as [|t ts [_ Ht] _ IH]; cbn; [done|]. rewrite Ht, IH. done. Qed.

(** C21: every call returns and the object is released.  From any state that a
    system reaches, under any interleaving and any spurious failures, at most
    [measure] steps without spurious failures can follow; when no step is left,
    every thread has made all its calls and all of them have returned; the
    word then counts the references that were not dropped, unless it has
    saturated, for which there must have been 2^32 - 1 references to take; and
    the object has been released, once, exactly if the word is 0.  So if the
    threads drop all their references and cannot saturate the word, the object
    is released. *)
Theorem refcount_released (s s' : system) (Hinit : init s) (Hsteps : rtc any_step s s') :
  (∀ n s'', nsteps (step false) n s' s'' → (n ≤ measure s')%nat) ∧
  ((∀ s'', ¬ step false s' s'') →
    Forall (λ t, at_ t = Idle ∧ todo t = []) (threads s') ∧ pending s' = 0%nat ∧
    (count s' = Z.of_nat (left_total s) ∨ count s' = CRYPTO_REFCOUNT_MAX ∧ CRYPTO_REFCOUNT_MAX <= Z.of_nat (most s)) ∧
    releases s' = (if (count s' =? 0)%Z then 1 else 0)%nat ∧
    (left_total s = 0%nat → Z.of_nat (most s) < CRYPTO_REFCOUNT_MAX → releases s' = 1%nat ∧ count s' = 0)).
Proof.
  split; [intros n s''; apply runs_end|]. intros Hstuck.
  pose proof (reachable_inv _ _ (init_inv _ Hinit) Hsteps) as Hinv. pose proof (stuck_returned _ Hinv Hstuck) as Hret.
  pose proof (returned_total _ Hret) as Htot. pose proof (reachable_left _ _ Hsteps) as Hleft.
  pose proof (reachable_unsaturated s s' (init_inv _ Hinit)) as Huns. destruct Hinit as (_ & Hc0 & _).
  specialize (λ H, Huns H Hc0 Hsteps). destruct Hinv as [_ Hc Hr]. unfold CRYPTO_REFCOUNT_MAX in *.
  split; [exact Hret|]. split_and!.
  - clear -Hret. unfold pending. induction Hret as [|t ts [_ Ht] _ IH]; cbn; [done|]. by rewrite Ht, IH.
  - lia.
  - destruct (Z.eqb_spec (count s') 0); lia.
  - lia.
Qed.

(** Two threads share a reference each: one takes another and drops both, the
    other drops its own. *)
Definition demo_system : system :=
  mkSystem 2 [mkThread Idle 1 [Inc; Dec; Dec]; mkThread Idle 1 [Dec]] 0.

Lemma demo_init : init demo_system.
Proof. split_and!; [done|done|done|done|]. repeat constructor; cbn; lia. Qed.

(** A run of it to the end: [is] is the schedule. *)
Definition end_system : system := mkSystem 0 [mkThread Idle 0 []; mkThread Idle 0 []] 1.
Ltac run_thread i := eapply rtc_l; [exists false; eapply (step_thread false i); [reflexivity|];
  first [apply step_call | eapply step_inc; [by eauto|reflexivity|done] | eapply step_inc_return; [by eauto|reflexivity]
        | eapply step_dec_return; [by eauto|reflexivity] | eapply step_dec; [by eauto|reflexivity]]|cbn].
Lemma demo_run : rtc any_step demo_system end_system.
Proof.
  unfold demo_system. run_thread 0%nat. run_thread 1%nat. run_thread 0%nat. run_thread 1%nat. run_thread 0%nat.
  run_thread 1%nat. run_thread 1%nat. do 6 run_thread 0%nat. constructor.
Qed.

Lemma refcount_safe_witness :
  Forall (λ t, at_ t ≠ Aborted) (threads end_system) ∧ (releases end_system ≤ 1)%nat ∧
  (releases end_system = 1%nat → total end_system = 0%nat ∧ Forall (λ t, at_ t = Idle ∧ todo t = []) (threads end_system)) ∧
  (releases end_system = 0%nat → count end_system = CRYPTO_REFCOUNT_MAX ∨
     count end_system = Z.of_nat (total end_system) ∧ (1 ≤ total end_system)%nat).
Proof. exact (refcount_safe demo_system end_system demo_init demo_run). Defined.

Lemma refcount_released_witness :
  (∀ n s'', nsteps (step false) n end_system s'' → (n ≤ measure end_system)%nat) ∧
  ((∀ s'', ¬ step false end_system s'') →
    Forall (λ t, at_ t = Idle ∧ todo t = []) (threads end_system) ∧ pending end_system = 0%nat ∧
    (count end_system = Z.of_nat (left_total demo_system) ∨
     count end_system = CRYPTO_REFCOUNT_MAX ∧ CRYPTO_REFCOUNT_MAX <= Z.of_nat (most demo_system)) ∧
    releases end_system = (if (count end_system =? 0)%Z then 1 else 0)%nat ∧
    (left_total demo_system = 0%nat → Z.of_nat (most demo_system) < CRYPTO_REFCOUNT_MAX →
      releases end_system = 1%nat ∧ count end_system = 0)).
Proof. exact (refcount_released demo_system end_system demo_init demo_run). Defined.
