(* ===== verification/Lhash.v ===== *)
(** [crypto/lhash/lhash.c]: the chained hash table.

    The chains are linked lists in a store of [LHASH_ITEM]s by address; a
    pointer to a pointer ([LHASH_ITEM **]) is a [link], a bucket or the [next]
    field of an item.  Elements have type [D] (they are pointers in the code);
    [hash] and [comp] are the callbacks of the table.  Following a pointer to
    a freed item is undefined behaviour. *)
From S2P Require Import Prelude Mem State.

Abbreviation loc := nat.

Definition kMinNumBuckets : Z := 16.
Definition kMaxAverageChainLength : Z := 2.
Definition kMinAverageChainLength : Z := 1.
Definition sizeof_LHASH_ITEM : Z := 24.
Definition sizeof_LHASH : Z := 48.
Definition sizeof_ptr : Z := 8.
Definition UINT_MAX : Z := 2 ^ 32 - 1.

Record LHASH_ITEM {D : Type} := mkItem {
  item_data : D;
  item_next : option loc;
  item_hash : Z;
}.
Arguments LHASH_ITEM : clear implicits.
Arguments mkItem {_} _ _ _.

Record lhash_st := mkLhash {
  num_items : Z;
  buckets : list (option loc);
  num_buckets : Z;
  callback_depth : Z;
}.

(** The table, the items that are allocated and the allocation clock. *)
Record table {D : Type} := mkTable {
  lh : lhash_st;
  items : gmap loc (LHASH_ITEM D);
  clock : nat;
}.
Arguments table : clear implicits.
Arguments mkTable {_} _ _ _.

Inductive link := LBucket (i : nat) | LNext (a : loc).

Section lhash.
Context {A : Allocator} {D : Type} (hash : D → Z) (comp : D → D → Z).
Implicit Types t : table D.

Definition set_lh (l : lhash_st) t : table D := mkTable l (items t) (clock t).
Definition set_items (m : gmap loc (LHASH_ITEM D)) t : table D := mkTable (lh t) m (clock t).

(** [*p] and [*p = v] for a link [p] of the array [bs]. *)
Definition read_link (bs : list (option loc)) (h : gmap loc (LHASH_ITEM D)) (p : link) : option (option loc) :=
  match p with
  | LBucket i => bs !! i
  | LNext a => item_next <$> h !! a
  end.
Definition set_next (next : option loc) (it : LHASH_ITEM D) : LHASH_ITEM D := mkItem (item_data it) next (item_hash it).
Definition write_link (p : link) (v : option loc) : ST (table D) unit := λ t,
  match p with
  | LBucket i =>
      if (i <? length (buckets (lh t)))%nat then
        Some ((), set_lh (mkLhash (num_items (lh t)) (<[i := v]> (buckets (lh t))) (num_buckets (lh t)) (callback_depth (lh t))) t)
      else None
  | LNext a =>
      match items t !! a with
      | Some it => Some ((), set_items (<[a := set_next v it]> (items t)) t)
      | None => None
      end
  end.

(** A clock tick per allocation. *)
Definition allocate {B} (f : nat → option B) : ST (table D) (option B) := λ t,
  Some (f (clock t), mkTable (lh t) (items t) (S (clock t))).
Definition OPENSSL_free (a : loc) : ST (table D) unit := λ t,
  match items t !! a with
  | Some _ => Some ((), set_items (delete a (items t)) t)
  | None => None
  end.

Definition OPENSSL_lh_new (t0 : nat) : option lhash_st :=
  match OPENSSL_zalloc t0 sizeof_LHASH with
  | None => None
  | Some _ =>
      match OPENSSL_calloc (S t0) kMinNumBuckets sizeof_ptr with
      | None => None
      | Some _ => Some (mkLhash 0 (replicate (Z.to_nat kMinNumBuckets) None) kMinNumBuckets 0)
      end
  end.

Definition OPENSSL_lh_num_items (l : lhash_st) : Z := num_items l.

(** [for (cur = *ret; cur != NULL; cur = *ret)]: [matches] is the comparison
    with the element or the key that is searched. *)
Fixpoint find_link (fuel : nat) (matches : D → bool) (ret : link) : ST (table D) link :=
  cur ← deref (λ t, read_link (buckets (lh t)) (items t) ret);
  match cur with
  | None => mret ret
  | Some cur =>
      match fuel with
      | O => ub
      | S fuel =>
          it ← deref (λ t, items t !! cur);
          if matches (item_data it) then mret ret
          else find_link fuel matches (LNext cur)
      end
  end.

Definition get_next_ptr_and_hash (d : D) : ST (table D) (link * Z) :=
  let h := hash d in
  nb ← gets (λ t, num_buckets (lh t));
  fuel ← gets (λ t, size (items t));
  if nb =? 0 then ub
  else
    p ← find_link fuel (λ x, comp x d =? 0) (LBucket (Z.to_nat (h mod nb)));
    mret (p, h).

Definition get_next_ptr_by_key {K} (key : K) (key_hash : Z) (cmp_key : K → D → Z) : ST (table D) link :=
  nb ← gets (λ t, num_buckets (lh t));
  fuel ← gets (λ t, size (items t));
  if nb =? 0 then ub
  else find_link fuel (λ x, cmp_key key x =? 0) (LBucket (Z.to_nat (key_hash mod nb))).

(** [*next_ptr == NULL ? NULL : ( *next_ptr)->data] *)
Definition link_data (p : link) : ST (table D) (option D) :=
  cur ← deref (λ t, read_link (buckets (lh t)) (items t) p);
  match cur with
  | None => mret None
  | Some a => it ← deref (λ t, items t !! a); mret (Some (item_data it))
  end.

Definition OPENSSL_lh_retrieve (d : D) : ST (table D) (option D) :=
  '(p, _) ← get_next_ptr_and_hash d;
  link_data p.

Definition OPENSSL_lh_retrieve_key {K} (key : K) (key_hash : Z) (cmp_key : K → D → Z) : ST (table D) (option D) :=
  p ← get_next_ptr_by_key key key_hash cmp_key;
  link_data p.

(** The inner loop of [lh_rebucket]; [new_buckets] is a local array. *)
Fixpoint rebucket_chain (fuel : nat) (cur : option loc) (new_buckets : list (option loc)) (new_num_buckets : Z)
    : ST (table D) (list (option loc)) :=
  match cur with
  | None => mret new_buckets
  | Some a =>
      match fuel with
      | O => ub
      | S fuel =>
          it ← deref (λ t, items t !! a);
          let new_bucket := Z.to_nat (item_hash it mod new_num_buckets) in
          let next := item_next it in
          head ← deref (λ _, new_buckets !! new_bucket);
          _ ← modify (λ t, set_items (<[a := set_next head it]> (items t)) t);
          rebucket_chain fuel next (<[new_bucket := Some a]> new_buckets) new_num_buckets
      end
  end.

(** The outer loop, over the buckets from [i] on. *)
Fixpoint rebucket_loop (bs : list (option loc)) (new_buckets : list (option loc)) (new_num_buckets : Z)
    : ST (table D) (list (option loc)) :=
  match bs with
  | [] => mret new_buckets
  | cur :: bs =>
      fuel ← gets (λ t, size (items t));
      new_buckets ← rebucket_chain fuel cur new_buckets new_num_buckets;
      rebucket_loop bs new_buckets new_num_buckets
  end.

(** The old array, freed at the end, is not a block of the store. *)
Definition lh_rebucket (new_num_buckets : Z) : ST (table D) unit :=
  let alloc_size := sizeof_ptr ⊠[64] new_num_buckets in
  if negb (alloc_size / sizeof_ptr =? new_num_buckets) then mret ()
  else
    block ← allocate (λ n, OPENSSL_zalloc n alloc_size);
    match block with
    | None => mret ()
    | Some _ =>
        bs ← gets (λ t, buckets (lh t));
        new_buckets ← rebucket_loop bs (replicate (Z.to_nat new_num_buckets) None) new_num_buckets;
        modify (λ t, set_lh (mkLhash (num_items (lh t)) new_buckets new_num_buckets (callback_depth (lh t))) t)
    end.

Definition lh_maybe_resize : ST (table D) unit :=
  l ← gets lh;
  if callback_depth l >? 0 then mret ()
  else if num_buckets l =? 0 then ub
  else
    let avg_chain_length := num_items l / num_buckets l in
    if avg_chain_length >? kMaxAverageChainLength then
      let new_num_buckets := num_buckets l ⊠[64] 2 in
      if new_num_buckets >? num_buckets l then lh_rebucket new_num_buckets else mret ()
    else if (avg_chain_length <? kMinAverageChainLength) && (num_buckets l >? kMinNumBuckets) then
      let new_num_buckets := num_buckets l / 2 in
      let new_num_buckets := if new_num_buckets <? kMinNumBuckets then kMinNumBuckets else new_num_buckets in
      lh_rebucket new_num_buckets
    else mret ().

Definition set_num_items (n : Z) : ST (table D) unit :=
  modify (λ t, set_lh (mkLhash n (buckets (lh t)) (num_buckets (lh t)) (callback_depth (lh t))) t).
Definition set_callback_depth (n : Z) : ST (table D) unit :=
  modify (λ t, set_lh (mkLhash (num_items (lh t)) (buckets (lh t)) (num_buckets (lh t)) n) t).

(** The return value and [*old_data]. *)
Definition OPENSSL_lh_insert (d : D) : ST (table D) (Z * option D) :=
  '(next_ptr, h) ← get_next_ptr_and_hash d;
  cur ← deref (λ t, read_link (buckets (lh t)) (items t) next_ptr);
  match cur with
  | Some a =>
      it ← deref (λ t, items t !! a);
      _ ← modify (λ t, set_items (<[a := mkItem d (item_next it) (item_hash it)]> (items t)) t);
      mret (1, Some (item_data it))
  | None =>
      block ← allocate (λ n, OPENSSL_malloc n sizeof_LHASH_ITEM);
      match block with
      | None => mret (0, None)
      | Some _ =>
          a ← gets (λ t, fresh (dom (items t)));
          _ ← modify (λ t, set_items (<[a := mkItem d None h]> (items t)) t);
          _ ← write_link next_ptr (Some a);
          n ← gets (λ t, num_items (lh t));
          _ ← set_num_items (n ⊞[64] 1);
          _ ← lh_maybe_resize;
          mret (1, None)
      end
  end.

Definition OPENSSL_lh_delete (d : D) : ST (table D) (option D) :=
  '(next_ptr, _) ← get_next_ptr_and_hash d;
  cur ← deref (λ t, read_link (buckets (lh t)) (items t) next_ptr);
  match cur with
  | None => mret None
  | Some a =>
      it ← deref (λ t, items t !! a);
      _ ← write_link next_ptr (item_next it);
      _ ← OPENSSL_free a;
      n ← gets (λ t, num_items (lh t));
      _ ← set_num_items (n ⊟[64] 1);
      _ ← lh_maybe_resize;
      mret (Some (item_data it))
  end.

(** [OPENSSL_lh_doall_arg]: the callback works on the state [S] and on the
    table, which it may change.  A callback that keeps adding elements can make
    the iteration endless: [fuel] bounds the elements visited in a chain. *)
Section doall.
Context {S : Type} (func : D → S → ST (table D) S).

Fixpoint doall_chain (fuel : nat) (cur : option loc) (arg : S) : ST (table D) S :=
  match cur with
  | None => mret arg
  | Some a =>
      match fuel with
      | O => ub
      | Datatypes.S fuel =>
          it ← deref (λ t, items t !! a);
          let next := item_next it in
          arg ← func (item_data it) arg;
          doall_chain fuel next arg
      end
  end.

Fixpoint doall_loop (fuel : nat) (n : nat) (i : Z) (arg : S) : ST (table D) S :=
  nb ← gets (λ t, num_buckets (lh t));
  if i <? nb then
    match n with
    | O => ub
    | Datatypes.S n =>
        cur ← deref (λ t, buckets (lh t) !! Z.to_nat i);
        arg ← doall_chain fuel cur arg;
        doall_loop fuel n (i + 1) arg
    end
  else mret arg.

Definition OPENSSL_lh_doall_arg (fuel : nat) (arg : S) : ST (table D) S :=
  d ← gets (λ t, callback_depth (lh t));
  _ ← (if d <? UINT_MAX then set_callback_depth (d + 1) else mret ());
  n ← gets (λ t, num_buckets (lh t));
  arg ← doall_loop fuel (Z.to_nat n) 0 arg;
  d ← gets (λ t, callback_depth (lh t));
  _ ← (if d <? UINT_MAX then set_callback_depth (d ⊟[32] 1) else mret ());
  _ ← lh_maybe_resize;
  mret arg.
End doall.

(** [OPENSSL_lh_free] frees the items, then the array and the struct, which are
    not blocks of the store here: nothing but the table points to them. *)
Fixpoint free_chain (fuel : nat) (n : option loc) : ST (table D) unit :=
  match n with
  | None => mret ()
  | Some a =>
      match fuel with
      | O => ub
      | Datatypes.S fuel =>
          it ← deref (λ t, items t !! a);
          _ ← OPENSSL_free a;
          free_chain fuel (item_next it)
      end
  end.
Fixpoint free_buckets (bs : list (option loc)) : ST (table D) unit :=
  match bs with
  | [] => mret ()
  | n :: bs =>
      fuel ← gets (λ t, size (items t));
      _ ← free_chain fuel n;
      free_buckets bs
  end.
Definition OPENSSL_lh_free : ST (table D) unit :=
  bs ← gets (λ t, buckets (lh t));
  free_buckets bs.
End lhash.
