(* ===== verification/LhashMap.v ===== *)
(** The hash table of [Lhash] implements a finite map: the chains of the store,
    the representation invariant, and the specification of every operation. *)
From S2P Require Import Prelude Mem State Lhash.

(** ** The shape of the store *)
Section shape.
Context {D : Type}.
Abbreviation entry := (loc * (D * Z))%type.
Implicit Types (h : gmap loc (LHASH_ITEM D)) (e : entry) (l : list entry) (bs : list (list entry)) (t : table D).

Definition hd_addr l : option loc := fst <$> head l.
Definition item_of e (next : option loc) : LHASH_ITEM D := mkItem e.2.1 next e.2.2.
Fixpoint linked h l : Prop :=
  match l with
  | [] => True
  | e :: l => h !! e.1 = Some (item_of e (hd_addr l)) ∧ linked h l
  end.

(** The chains of [t] are [bs]. *)
Definition chains t bs : Prop := buckets (lh t) = hd_addr <$> bs ∧ Forall (linked (items t)) bs.

Lemma chains_ext t t' bs : buckets (lh t') = buckets (lh t) → items t' = items t → chains t bs → chains t' bs.
Proof. intros Hb Hi [? ?]. split; by rewrite ?Hb, ?Hi. Qed.

Lemma linked_app h l1 l2 : linked h (l1 ++ l2) → linked h l2.
Proof. induction l1 as [|e l1 IH]; [done|]. intros [_ ?]. by apply IH. Qed.

Lemma linked_mid h l1 e l2 : linked h (l1 ++ e :: l2) → h !! e.1 = Some (item_of e (hd_addr l2)).
Proof. by intros [? _]%linked_app. Qed.

Lemma linked_frame h h' l : (∀ a, a ∈ l.*1 → h' !! a = h !! a) → linked h l → linked h' l.
Proof.
  induction l as [|e l IH]; [done|]. intros Hh [He Hl]. split.
  - rewrite Hh; [done|]. cbn. set_solver.
  - apply IH; [|done]. intros a Ha. apply Hh. cbn. set_solver.
Qed.

Lemma linked_insert h a it l : a ∉ l.*1 → linked h l → linked (<[a := it]> h) l.
Proof. intros Ha. apply linked_frame. intros b Hb. rewrite lookup_insert_ne; set_solver. Qed.

Lemma linked_delete h a l : a ∉ l.*1 → linked h l → linked (delete a h) l.
Proof. intros Ha. apply linked_frame. intros b Hb. rewrite lookup_delete_ne; set_solver. Qed.

Lemma hd_addr_app l1 e l2 l2' e' : e'.1 = e.1 → hd_addr (l1 ++ e :: l2) = hd_addr (l1 ++ e' :: l2').
Proof. destruct l1; cbn; congruence. Qed.

(** Overwriting an item changes the entry and what follows it. *)
Lemma linked_relink h l1 e l2 e' l2' : e'.1 = e.1 → NoDup (l1 ++ [e]).*1 → e.1 ∉ l2'.*1 →
  linked h (l1 ++ e :: l2) → linked h l2' → linked (<[e.1 := item_of e' (hd_addr l2')]> h) (l1 ++ e' :: l2').
Proof.
  intros He Hnd Hn. induction l1 as [|x l1 IH]; cbn.
  - intros [_ _] Hl. rewrite He, lookup_insert_eq. split; [done|]. by apply linked_insert.
  - cbn in Hnd. apply NoDup_cons in Hnd as [Hx Hnd]. intros [Hh Hl] Hl2. split; [|by apply IH].
    rewrite lookup_insert_ne; [|rewrite fmap_app in Hx; set_solver].
    rewrite Hh. by rewrite (hd_addr_app _ _ _ l2' e').
Qed.

Lemma linked_dom h l : linked h l → ∀ a, a ∈ l.*1 → a ∈ dom h.
Proof.
  induction l as [|e l IH]; intros Hl a; [set_solver|]. destruct Hl as [He Hl].
  cbn. rewrite elem_of_cons. intros [->|?]; [by apply elem_of_dom; eexists|by apply IH].
Qed.

Lemma linked_length h l : linked h l → NoDup l.*1 → (length l ≤ size h)%nat.
Proof.
  intros Hl Hnd. rewrite <- (size_dom h), <- (length_fmap fst l), <- (size_list_to_set (C := gset loc)) by done.
  apply subseteq_size. intros a. rewrite elem_of_list_to_set. by apply linked_dom.
Qed.

(** One bucket and the rest of the table. *)
Lemma concat_bucket bs i l : bs !! i = Some l →
  ∃ rest, concat bs ≡ₚ l ++ rest ∧ ∀ l', concat (<[i := l']> bs) ≡ₚ l' ++ rest.
Proof.
  intros Hi. exists (concat (take i bs ++ drop (S i) bs)). split.
  - rewrite <- (take_drop_middle bs i l Hi) at 1. rewrite !concat_app. cbn. solve_Permutation.
  - intros l'. rewrite insert_take_drop by by eapply lookup_lt_Some. rewrite !concat_app. cbn. solve_Permutation.
Qed.

Lemma elem_of_bucket bs i l e : bs !! i = Some l → e ∈ l → e ∈ concat bs.
Proof. intros Hi He. rewrite list_elem_of_In, in_concat. exists l. split; [by eapply list_elem_of_In, list_elem_of_lookup_2|by apply list_elem_of_In]. Qed.

Lemma nodup_bucket bs i l : bs !! i = Some l → NoDup (concat bs).*1 → NoDup l.*1.
Proof. intros Hi. destruct (concat_bucket bs i l Hi) as (rest & -> & _). rewrite fmap_app. by intros [? _]%NoDup_app. Qed.

(** Buckets other than [i] do not mention the addresses of bucket [i]. *)
Lemma other_bucket bs i j l l' (a : loc) : bs !! i = Some l → bs !! j = Some l' → i ≠ j → NoDup (concat bs).*1 →
  a ∈ l.*1 → a ∉ l'.*1.
Proof.
  intros Hi Hj Hij. assert (Hlt : (i < length bs)%nat) by by eapply lookup_lt_Some.
  destruct (concat_bucket bs i l Hi) as (rest & Hp & Hp'). rewrite Hp, fmap_app. intros (_ & Hd & _)%NoDup_app He He'.
  apply (Hd a He). assert (Hin : a ∈ (concat (<[i := []]> bs)).*1); [|by rewrite Hp' in Hin].
  apply list_elem_of_fmap in He' as (x & -> & Hx). apply list_elem_of_fmap_2.
  eapply elem_of_bucket; [|exact Hx]. by rewrite list_lookup_insert_ne.
Qed.

(** The link after the entries [l1] of bucket [i]. *)
Definition link_at (i : nat) l1 : link := match last l1 with None => LBucket i | Some e => LNext e.1 end.

Lemma link_at_snoc i l1 e : link_at i (l1 ++ [e]) = LNext e.1.
Proof. unfold link_at. by rewrite last_snoc. Qed.

Lemma read_link_at t bs i l1 l2 : chains t bs → bs !! i = Some (l1 ++ l2) →
  read_link (buckets (lh t)) (items t) (link_at i l1) = Some (hd_addr l2).
Proof.
  intros [Hb Hl] Hi. pose proof (Forall_lookup_1 _ _ _ _ Hl Hi) as Hli. destruct l1 as [|e l1 _] using rev_ind.
  - cbn. by rewrite Hb, list_lookup_fmap, Hi.
  - rewrite link_at_snoc. cbn. rewrite <- app_assoc in Hli. cbn in Hli. by rewrite (linked_mid _ _ _ _ Hli).
Qed.

(** Overwriting one entry of bucket [i] and what follows it. *)
Lemma chains_relink t bs i l1 e l2 e' l2' :
  chains t bs → NoDup (concat bs).*1 → bs !! i = Some (l1 ++ e :: l2) → e'.1 = e.1 →
  linked (items t) l2' → (∀ a, a ∈ l1.*1 ∨ a = e.1 → a ∉ l2'.*1) →
  chains (set_items (<[e.1 := item_of e' (hd_addr l2')]> (items t)) t) (<[i := l1 ++ e' :: l2']> bs).
Proof.
  intros [Hb Hl] Hnd Hi He Hl2 Hdis. pose proof (Forall_lookup_1 _ _ _ _ Hl Hi) as Hli.
  pose proof (nodup_bucket _ _ _ Hi Hnd) as Hndi. split; cbn.
  - rewrite list_fmap_insert, (hd_addr_app l1 e' l2' l2 e), Hb, list_insert_id; [done| |done].
    by rewrite list_lookup_fmap, Hi.
  - apply Forall_lookup. intros j l Hj. destruct (decide (i = j)) as [<-|Hij].
    + rewrite list_lookup_insert_eq in Hj by by eapply lookup_lt_Some. injection Hj as <-.
      eapply linked_relink; [done| |by apply Hdis; right|done|done].
      rewrite (cons_middle e l1 l2), app_assoc, fmap_app in Hndi. by apply NoDup_app in Hndi as [? _].
    + rewrite list_lookup_insert_ne in Hj by done. apply linked_insert; [|by eapply Forall_lookup_1].
      eapply (other_bucket bs i j); [done|done|done|done|]. rewrite fmap_app. cbn. set_solver.
Qed.

(** Writing through a link replaces what follows it. *)
Lemma wp_write_link t bs i l1 l2 l2' (Q : unit → table D → Prop) :
  chains t bs → NoDup (concat bs).*1 → bs !! i = Some (l1 ++ l2) →
  linked (items t) l2' → (∀ a, a ∈ l1.*1 → a ∉ l2'.*1) →
  (∀ t', chains t' (<[i := l1 ++ l2']> bs) → dom (items t') = dom (items t) → clock t' = clock t →
     (∃ b, lh t' = mkLhash (num_items (lh t)) b (num_buckets (lh t)) (callback_depth (lh t))) → Q () t') →
  wp (write_link (link_at i l1) (hd_addr l2')) t Q.
Proof.
  intros Hc Hnd Hi Hl2 Hdis HQ. destruct l1 as [|e l1 _] using rev_ind.
  - unfold wp, write_link. cbn [link_at last]. destruct Hc as [Hb Hl]. assert (Hlt : (i < length bs)%nat) by by eapply lookup_lt_Some.
    rewrite Hb, length_fmap. destruct (Nat.ltb_spec i (length bs)); [|lia]. apply HQ; [|done|done|by eexists].
    split; cbn; [by rewrite list_fmap_insert|]. apply Forall_insert; [done|done].
  - rewrite link_at_snoc. rewrite <- app_assoc in Hi. cbn in Hi. unfold wp, write_link.
    pose proof (Forall_lookup_1 _ _ _ _ (proj2 Hc) Hi) as Hli. rewrite (linked_mid _ _ _ _ Hli).
    apply HQ.
    + change (set_next _ _) with (item_of e (hd_addr l2')). rewrite <- app_assoc. cbn [app].
      eapply chains_relink; [done|done|done|done|done|]. intros a Ha. apply Hdis. rewrite fmap_app. cbn. set_solver.
    + cbn. apply dom_insert_lookup_L. by rewrite (linked_mid _ _ _ _ Hli).
    + done.
    + exists (buckets (lh t)). cbn. by destruct (lh t).
Qed.
End shape.

(** ** The table as a finite map

    [key] names the equivalence classes of the comparison function; the table
    implements a finite map from them to elements. *)
Class LhashCallbacks {D K : Type} (key : D → K) (hash : D → Z) (comp : D → D → Z) : Prop := {
  comp_key a b : comp a b = 0 ↔ key a = key b;
  hash_key a b : key a = key b → hash a = hash b;
  hash_range d : in_range 32 (hash d);
}.

Section map.
Context {A : Allocator} {D K : Type} `{Countable K} {key : D → K} {hash : D → Z} {comp : D → D → Z}
  `{Hcb : !LhashCallbacks key hash comp}.
Abbreviation entry := (loc * (D * Z))%type.
Implicit Types (t : table D) (e : entry) (l : list entry) (bs : list (list entry)) (m : gmap K D).

(** Every entry is in the bucket of its cached hash. *)
Definition placed bs : Prop := ∀ i l e, bs !! i = Some l → e ∈ l →
  e.2.2 = hash e.2.1 ∧ Z.to_nat (e.2.2 mod Z.of_nat (length bs)) = i.
Definition keys bs : list K := (λ e, key e.2.1) <$> concat bs.
Definition contents bs : gmap K D := list_to_map ((λ e, (key e.2.1, e.2.1)) <$> concat bs).

Record rep t bs m : Prop := {
  rep_chains : chains t bs;
  rep_nodup : NoDup (concat bs).*1;
  rep_dom : dom (items t) = list_to_set (concat bs).*1;
  rep_num_buckets : num_buckets (lh t) = Z.of_nat (length bs);
  rep_min : kMinNumBuckets <= num_buckets (lh t);
  rep_num_items : num_items (lh t) = Z.of_nat (length (concat bs));
  rep_placed : placed bs;
  rep_keys : NoDup (keys bs);
  rep_map : m = contents bs;
}.

Lemma contents_fst bs : ((λ e, (key e.2.1, e.2.1)) <$> concat bs).*1 = keys bs.
Proof. unfold keys. by rewrite <- list_fmap_compose. Qed.

Lemma contents_lookup bs k d : NoDup (keys bs) →
  contents bs !! k = Some d ↔ ∃ e, e ∈ concat bs ∧ e.2.1 = d ∧ key d = k.
Proof.
  intros Hk. unfold contents. rewrite <- elem_of_list_to_map by by rewrite contents_fst.
  rewrite list_elem_of_fmap. split.
  - intros (e & [= -> ->] & ?). by exists e.
  - intros (e & ? & <- & <-). by exists e.
Qed.

Lemma contents_size bs : NoDup (keys bs) → size (contents bs) = length (concat bs).
Proof. intros Hk. rewrite <- length_map_to_list. unfold contents. rewrite map_to_list_to_map by by rewrite contents_fst. by rewrite length_fmap. Qed.

Lemma contents_perm bs bs' : concat bs ≡ₚ concat bs' → NoDup (keys bs) → contents bs = contents bs' ∧ NoDup (keys bs').
Proof.
  intros Hp Hk. split.
  - unfold contents. apply list_to_map_proper; [by rewrite contents_fst|by rewrite Hp].
  - unfold keys in *. by rewrite <- Hp.
Qed.

Lemma elem_of_concat bs e : e ∈ concat bs → ∃ i l, bs !! i = Some l ∧ e ∈ l.
Proof.
  rewrite list_elem_of_In, in_concat. intros (l & Hl & He). apply list_elem_of_In, list_elem_of_lookup in Hl as [i Hi].
  exists i, l. by rewrite list_elem_of_In.
Qed.

(** ** Searching *)

Lemma wp_find_link t bs i l1 l2 fuel (P : D → bool) (Q : link → table D → Prop) :
  chains t bs → bs !! i = Some (l1 ++ l2) → (length l2 ≤ fuel)%nat → (∀ e, e ∈ l1 → P e.2.1 = false) →
  (∀ l1' l2', l1 ++ l2 = l1' ++ l2' → (∀ e, e ∈ l1' → P e.2.1 = false) →
     (∀ e, head l2' = Some e → P e.2.1 = true) → Q (link_at i l1') t) →
  wp (find_link fuel P (link_at i l1)) t Q.
Proof.
  intros Hc. revert l1 fuel. induction l2 as [|e l2 IH]; intros l1 fuel Hi Hf Hn HQ;
    destruct fuel as [|fuel]; try (cbn in Hf; lia); cbn [find_link];
    (apply st_bind; eapply wp_deref; [by eapply read_link_at|]); cbn [hd_addr fmap head option_fmap option_map].
  1,2: apply st_ret; by apply (HQ l1 []).
  apply st_bind. eapply wp_deref.
  { pose proof (Forall_lookup_1 _ _ _ _ (proj2 Hc) Hi) as Hl. by eapply linked_mid. }
  cbn [item_of item_data]. destruct (P e.2.1) eqn:HP.
  - apply st_ret. apply (HQ l1 (e :: l2)); [done|done|]. by intros ? [= <-].
  - rewrite <- (link_at_snoc i l1 e). rewrite cons_middle, app_assoc in Hi. apply IH; [done|cbn in Hf; lia| |].
    + intros x. rewrite elem_of_app, list_elem_of_singleton. intros [?| ->]; eauto.
    + intros l1' l2' E. rewrite <- app_assoc in E. by apply HQ.
Qed.

(** What a search for the key [k] finds. *)
Definition found bs m (k : K) (i : nat) (l1 l2 : list entry) : Prop :=
  bs !! i = Some (l1 ++ l2) ∧
  match l2 with
  | [] => m !! k = None
  | e :: _ => m !! k = Some e.2.1
  end.

Lemma rep_bucket t bs m kh : rep t bs m → 0 <= kh →
  num_buckets (lh t) ≠ 0 ∧ ∃ l, bs !! Z.to_nat (kh mod num_buckets (lh t)) = Some l ∧ (length l ≤ size (items t))%nat.
Proof.
  intros Hr Hk. pose proof (rep_min _ _ _ Hr) as Hm. change kMinNumBuckets with 16 in Hm. split; [lia|].
  destruct (lookup_lt_is_Some_2 bs (Z.to_nat (kh mod num_buckets (lh t)))) as [l Hl].
  { rewrite (rep_num_buckets _ _ _ Hr) in *. pose proof (Z.mod_pos_bound kh (Z.of_nat (length bs))). lia. }
  exists l. split; [done|]. eapply linked_length.
  - eapply Forall_lookup_1; [apply (rep_chains _ _ _ Hr)|done].
  - eapply nodup_bucket; [done|apply Hr].
Qed.

Lemma wp_search t bs m k kh (P : D → bool) (Q : link → table D → Prop) :
  rep t bs m → 0 <= kh → (∀ d, P d = true ↔ key d = k) → (∀ d, key d = k → hash d = kh) →
  (∀ l1 l2, found bs m k (Z.to_nat (kh mod num_buckets (lh t))) l1 l2 → Q (link_at (Z.to_nat (kh mod num_buckets (lh t))) l1) t) →
  wp (find_link (size (items t)) P (LBucket (Z.to_nat (kh mod num_buckets (lh t))))) t Q.
Proof.
  intros Hr Hkh HP Hh HQ. destruct (rep_bucket t bs m kh Hr Hkh) as (_ & l & Hl & Hlen).
  eapply (wp_find_link t bs (Z.to_nat (kh mod num_buckets (lh t))) [] l); [apply Hr|done|done|set_solver|].
  cbn [app]. intros l1 l2 -> Hn1 Hh2. apply (HQ l1 l2). split; [done|]. rewrite (rep_map _ _ _ Hr).
  destruct l2 as [|e l2].
  - apply eq_None_not_Some. intros [d (e & He & Hed & Hd)%contents_lookup]; [|apply Hr].
    apply elem_of_concat in He as (j & l & Hj & He). destruct (rep_placed _ _ _ Hr j l e Hj He) as [Hhash Hb].
    rewrite <- (rep_num_buckets _ _ _ Hr), Hhash, Hed, (Hh d Hd) in Hb. subst j. simplify_eq. rewrite app_nil_r in He.
    specialize (Hn1 e He). apply not_true_iff_false in Hn1. by apply Hn1, HP.
  - apply contents_lookup; [apply Hr|]. exists e. split; [|split; [done|]].
    + eapply elem_of_bucket; [done|]. set_solver.
    + by apply HP, Hh2.
Qed.

Lemma wp_get_next_ptr t bs m d (Q : link * Z → table D → Prop) :
  rep t bs m →
  (∀ i l1 l2, i = Z.to_nat (hash d mod num_buckets (lh t)) → found bs m (key d) i l1 l2 → Q (link_at i l1, hash d) t) →
  wp (get_next_ptr_and_hash hash comp d) t Q.
Proof.
  intros Hr HQ. unfold get_next_ptr_and_hash. do 2 (apply st_bind, wp_gets).
  destruct (hash_range (LhashCallbacks := Hcb) d) as [Hh _]. destruct (rep_bucket _ _ _ _ Hr Hh) as [Hnb _].
  destruct (Z.eqb_spec (num_buckets (lh t)) 0); [done|]. apply st_bind.
  eapply (wp_search t bs m (key d)); [done|done| | |].
  - intros x. rewrite Z.eqb_eq. apply comp_key.
  - intros x Hx. by apply hash_key.
  - intros l1 l2 Hf. apply st_ret. by eapply HQ.
Qed.

Lemma wp_link_data t bs m k i l1 l2 (Q : option D → table D → Prop) :
  rep t bs m → found bs m k i l1 l2 → Q (m !! k) t → wp (link_data (link_at i l1)) t Q.
Proof.
  intros Hr [Hi Hm] HQ. unfold link_data. apply st_bind. eapply wp_deref; [by apply (read_link_at t bs i l1 l2); [apply Hr|]|].
  destruct l2 as [|e l2]; cbn [hd_addr fmap head option_fmap option_map].
  - apply st_ret. by rewrite Hm in HQ.
  - apply st_bind. eapply wp_deref.
    { pose proof (Forall_lookup_1 _ _ _ _ (proj2 (rep_chains _ _ _ Hr)) Hi) as Hl. by eapply linked_mid. }
    apply st_ret. cbn. by rewrite Hm in HQ.
Qed.

Lemma wp_retrieve t bs m d (Q : option D → table D → Prop) :
  rep t bs m → Q (m !! key d) t → wp (OPENSSL_lh_retrieve hash comp d) t Q.
Proof.
  intros Hr HQ. apply st_bind. eapply wp_get_next_ptr; [done|]. intros i l1 l2 _ Hf. by eapply (wp_link_data _ _ _ _ i l1 l2).
Qed.

(** [key_hash] and [cmp_key] are compatible with the callbacks of the table. *)
Lemma wp_retrieve_key {K'} (k' : K') key_hash cmp_key t bs m k (Q : option D → table D → Prop) :
  rep t bs m → 0 <= key_hash → (∀ x, cmp_key k' x = 0 ↔ key x = k) → (∀ x, key x = k → hash x = key_hash) →
  Q (m !! k) t → wp (OPENSSL_lh_retrieve_key k' key_hash cmp_key) t Q.
Proof.
  intros Hr Hk Hc Hh HQ. apply st_bind. unfold get_next_ptr_by_key. do 2 (apply st_bind, wp_gets).
  destruct (rep_bucket _ _ _ _ Hr Hk) as [Hnb _]. destruct (Z.eqb_spec (num_buckets (lh t)) 0); [done|].
  eapply (wp_search t bs m k); [done|done| |done|].
  - intros x. rewrite Z.eqb_eq. apply Hc.
  - intros l1 l2 Hf. by eapply (wp_link_data _ _ _ _ _ l1 l2).
Qed.

(** ** Rebucketing *)

Lemma Forall_linked_insert (h : gmap loc (LHASH_ITEM D)) a it bs : a ∉ (concat bs).*1 →
  Forall (linked h) bs → Forall (linked (<[a := it]> h)) bs.
Proof.
  intros Ha. rewrite !Forall_lookup. intros Hl i l Hi. apply linked_insert; [|by eapply Hl].
  intros Hin. apply Ha. apply list_elem_of_fmap in Hin as (e & -> & He). apply list_elem_of_fmap_2. by eapply elem_of_bucket.
Qed.

Lemma chains_delete t t' a bs : chains t bs → a ∉ (concat bs).*1 → buckets (lh t') = buckets (lh t) →
  items t' = delete a (items t) → chains t' bs.
Proof.
  intros [Hb Hl] Ha Hb' Hi. split; [by rewrite Hb'|]. rewrite Hi. rewrite !Forall_lookup in *. intros i l Hil.
  apply linked_delete; [|by eapply Hl]. intros Hin. apply Ha. apply list_elem_of_fmap in Hin as (e & -> & He).
  apply list_elem_of_fmap_2. by eapply elem_of_bucket.
Qed.

Definition placed_in (N : Z) bs : Prop := ∀ j l e, bs !! j = Some l → e ∈ l → Z.to_nat (e.2.2 mod N) = j.

Lemma placed_in_push N bs l e : bs !! Z.to_nat (e.2.2 mod N) = Some l → placed_in N bs →
  placed_in N (<[Z.to_nat (e.2.2 mod N) := e :: l]> bs).
Proof.
  intros Hj Hp i l' x Hi Hx. apply list_lookup_insert_Some in Hi as [(<- & <- & _)|(Hne & Hi)]; [|by eapply Hp].
  apply elem_of_cons in Hx as [->|Hx]; [done|by eapply Hp].
Qed.

(** What the loops preserve: [l] is the rest of the chain being moved, [nbs]
    the new chains and [ot] the chains to come. *)
Record moving (h : gmap loc (LHASH_ITEM D)) N l nbs ot : Prop := {
  mv_length : length nbs = Z.to_nat N;
  mv_linked : linked h l;
  mv_new : Forall (linked h) nbs;
  mv_rest : Forall (linked h) ot;
  mv_nodup : NoDup (l ++ concat nbs ++ concat ot).*1;
  mv_placed : placed_in N nbs;
}.

Lemma moving_push h N e l nbs ot lj : moving h N (e :: l) nbs ot → nbs !! Z.to_nat (e.2.2 mod N) = Some lj →
  moving (<[e.1 := item_of e (hd_addr lj)]> h) N l (<[Z.to_nat (e.2.2 mod N) := e :: lj]> nbs) ot.
Proof.
  intros [Hlen [He Hl] Hn Ho Hnd Hp] Hj. destruct (concat_bucket nbs _ lj Hj) as (rest & Hc & Hc').
  cbn [app fmap list_fmap] in Hnd. apply NoDup_cons in Hnd as [Hx Hnd].
  rewrite !fmap_app in Hx. rewrite !not_elem_of_app in Hx. destruct Hx as (Hxl & Hxn & Hxo). split.
  - by rewrite length_insert.
  - by apply linked_insert.
  - apply Forall_insert; [by apply Forall_linked_insert|]. split; [by rewrite lookup_insert_eq|].
    apply linked_insert; [|exact (Forall_lookup_1 _ _ _ _ Hn Hj)]. rewrite Hc, fmap_app in Hxn. set_solver.
  - by apply Forall_linked_insert.
  - assert (Heq : l ++ concat (<[Z.to_nat (e.2.2 mod N):=e :: lj]> nbs) ++ concat ot ≡ₚ e :: l ++ concat nbs ++ concat ot).
    { rewrite Hc', Hc. solve_Permutation. }
    rewrite Heq. cbn. apply NoDup_cons. split; [|done]. rewrite !fmap_app, !not_elem_of_app. done.
  - by apply placed_in_push.
Qed.

Lemma wp_rebucket_chain N l fuel t nbs ot (Q : list (option loc) → table D → Prop) :
  0 < N → (length l ≤ fuel)%nat → moving (items t) N l nbs ot →
  (∀ h nbs', dom h = dom (items t) → moving h N [] nbs' ot → concat nbs' ≡ₚ l ++ concat nbs →
     Q (hd_addr <$> nbs') (set_items h t)) →
  wp (rebucket_chain fuel (hd_addr l) (hd_addr <$> nbs) N) t Q.
Proof.
  intros HN. revert fuel t nbs. induction l as [|e l IH]; intros fuel t nbs Hf Hm HQ.
  - assert (HQ' : Q (hd_addr <$> nbs) t) by (destruct t; by apply HQ). by destruct fuel; apply st_ret.
  - destruct fuel as [|fuel]; [cbn in Hf; lia|]. cbn [rebucket_chain hd_addr head fmap option_fmap option_map].
    destruct (mv_linked _ _ _ _ _ Hm) as [He Hl]. apply st_bind. eapply wp_deref; [done|]. cbn [item_of item_hash item_next].
    destruct (lookup_lt_is_Some_2 nbs (Z.to_nat (e.2.2 mod N))) as [lj Hj].
    { rewrite (mv_length _ _ _ _ _ Hm). pose proof (Z.mod_pos_bound e.2.2 N HN). lia. }
    apply st_bind. eapply wp_deref; [by rewrite list_lookup_fmap, Hj|]. apply st_bind, wp_modify.
    change (Some e.1) with (hd_addr (e :: lj)). rewrite <- list_fmap_insert. apply IH; [cbn in Hf; lia| |].
    + by apply moving_push.
    + intros h nbs' Hdom Hm' Hp. cbn in Hdom. rewrite dom_insert_lookup_L in Hdom by by rewrite He. apply (HQ h); [done|done|].
      rewrite Hp. destruct (concat_bucket nbs _ lj Hj) as (rest & Hc & Hc'). rewrite Hc', Hc. solve_Permutation.
Qed.

Lemma wp_rebucket_loop N bs t nbs (Q : list (option loc) → table D → Prop) :
  0 < N → moving (items t) N [] nbs bs →
  (∀ h nbs', dom h = dom (items t) → moving h N [] nbs' [] → concat nbs' ≡ₚ concat bs ++ concat nbs →
     Q (hd_addr <$> nbs') (set_items h t)) →
  wp (rebucket_loop (hd_addr <$> bs) (hd_addr <$> nbs) N) t Q.
Proof.
  intros HN. revert t nbs. induction bs as [|l bs IH]; intros t nbs Hm HQ; cbn [rebucket_loop fmap list_fmap].
  - apply st_ret. destruct t. by apply HQ.
  - apply st_bind, wp_gets. apply st_bind. destruct Hm as [Hlen _ Hn Ho Hnd Hp]. apply Forall_cons in Ho as [Hl Ho].
    apply (wp_rebucket_chain N l _ t nbs bs); [done| | |].
    + apply linked_length; [done|]. cbn in Hnd. rewrite !fmap_app in Hnd. apply NoDup_app in Hnd as (_ & _ & Hnd).
      by apply NoDup_app in Hnd as (? & _).
    + split; [done|done|done|done| |done].
      assert (Heq : l ++ concat nbs ++ concat bs ≡ₚ concat nbs ++ concat (l :: bs)) by (cbn; solve_Permutation).
      by rewrite Heq.
    + intros h nbs' Hdom Hm' Hpm. apply IH; [done|]. intros h' nbs2 Hdom' Hm2 Hp2. cbn in Hdom'. rewrite Hdom in Hdom'.
      apply (HQ h'); [done|done|]. rewrite Hp2, Hpm. cbn. solve_Permutation.
Qed.

Lemma concat_replicate_nil {B} n : concat (replicate n (@nil B)) = [].
Proof. induction n; [done|]. by cbn. Qed.

Lemma wp_rebucket t bs m N (Q : unit → table D → Prop) :
  rep t bs m → kMinNumBuckets <= N →
  (∀ t' bs', rep t' bs' m → callback_depth (lh t') = callback_depth (lh t) →
     (num_buckets (lh t') = num_buckets (lh t) ∧ (NeverFails A → 2 ^ 60 <= N) ∨ num_buckets (lh t') = N) → Q () t') →
  wp (lh_rebucket N) t Q.
Proof.
  intros Hr HN HQ. change kMinNumBuckets with 16 in HN. unfold lh_rebucket. change sizeof_ptr with 8.
  destruct (Z.eqb_spec (8 ⊠[64] N / 8) N) as [E|E]; cbn [negb].
  2: { apply st_ret. apply (HQ t bs); [done|done|left]. split; [done|]. intros _. apply Z.nlt_ge. intros Hlt. apply E.
       rewrite wrap_small by lia. rewrite Z.mul_comm. by apply Z.div_mul. }
  assert (Hsmall : 8 ⊠[64] N = 8 * N ∧ 8 * N < 2 ^ 64).
  { pose proof (wrap_range 64 (8 * N) ltac:(lia)). pose proof (Z.mul_div_le (8 ⊠[64] N) 8 ltac:(lia)).
    destruct (Z.lt_ge_cases (8 * N) (2 ^ 64)); [|lia]. split; [|done]. apply wrap_small. lia. }
  destruct Hsmall as [-> Hsmall]. apply st_bind. unfold wp at 1, allocate. destruct (OPENSSL_zalloc (clock t) (8 * N)) as [b|] eqn:Ea.
  - apply st_bind, wp_gets. apply st_bind. cbn. rewrite (proj1 (rep_chains _ _ _ Hr)).
    change (replicate (Z.to_nat N) None) with (replicate (Z.to_nat N) (hd_addr (D := D) [])).
    rewrite <- fmap_replicate. apply wp_rebucket_loop; [lia| |].
    + split; [by rewrite length_replicate|done|by apply Forall_replicate|apply Hr| |].
      * rewrite concat_replicate_nil. apply Hr.
      * intros j l e Hj He. apply lookup_replicate_1 in Hj as [-> _]. set_solver.
    + intros h nbs Hdom Hm Hp. rewrite concat_replicate_nil, app_nil_r in Hp. apply wp_modify.
      destruct (contents_perm bs nbs) as [Hc Hk]; [done|apply Hr|]. apply (HQ _ nbs); [|done|by right].
      destruct Hm as [Hlen _ Hl _ Hnd Hpl]. cbn in *. rewrite app_nil_r in Hnd. split; cbn; try done.
      * by rewrite Hdom, (rep_dom _ _ _ Hr), Hp.
      * lia.
      * by rewrite (rep_num_items _ _ _ Hr), Hp.
      * intros i l e Hi He. split; [|rewrite Hlen, Z2Nat.id by lia; by eapply Hpl].
        assert (Hin : e ∈ concat bs) by (rewrite <- Hp; by eapply elem_of_bucket).
        apply elem_of_concat in Hin as (j & l' & Hj & He'). by eapply (rep_placed _ _ _ Hr).
      * by rewrite (rep_map _ _ _ Hr).
  - apply st_ret. apply (HQ _ bs); [|done|left].
    + by destruct Hr; split.
    + split; [done|]. intros Hnf. apply Z.nlt_ge. intros Hlt. unfold OPENSSL_zalloc in Ea.
      destruct (OPENSSL_malloc_succeeds (clock t) (8 * N)) as [b Hb]; [lia|]. by rewrite Hb in Ea.
Qed.

(** ** Resizing keeps the chains short *)

(** The load that a table keeps when memory does not run out, and the load
    after one insertion or deletion. *)
Definition balanced t : Prop :=
  num_items (lh t) < 3 * num_buckets (lh t) ∧ (num_buckets (lh t) = kMinNumBuckets ∨ num_buckets (lh t) <= num_items (lh t)).
Definition nearly_balanced t : Prop :=
  num_items (lh t) <= 3 * num_buckets (lh t) ∧ (num_buckets (lh t) = kMinNumBuckets ∨ num_buckets (lh t) <= num_items (lh t) + 1).

Ltac Zify.zify_post_hook ::= Z.to_euclidean_division_equations.

Lemma wp_maybe_resize t bs m (Q : unit → table D → Prop) :
  rep t bs m → 0 <= callback_depth (lh t) →
  (∀ t' bs', rep t' bs' m → callback_depth (lh t') = callback_depth (lh t) →
     (0 < callback_depth (lh t) → bs' = bs) →
     (NeverFails A → callback_depth (lh t) = 0 → nearly_balanced t → Z.of_nat (size m) < 2 ^ 58 → balanced t') → Q () t') →
  wp lh_maybe_resize t Q.
Proof.
  intros Hr Hd HQ. pose proof (rep_min _ _ _ Hr) as Hm. unfold lh_maybe_resize. apply st_bind, wp_gets.
  assert (Hn : num_items (lh t) = Z.of_nat (size m)).
  { rewrite (rep_map _ _ _ Hr), contents_size by apply Hr. apply Hr. }
  change kMinNumBuckets with 16 in *. change kMaxAverageChainLength with 2. change kMinAverageChainLength with 1.
  destruct (Z.gtb_spec (callback_depth (lh t)) 0). { apply st_ret. apply (HQ t bs); [done|done|done|lia]. }
  destruct (Z.eqb_spec (num_buckets (lh t)) 0); [lia|].
  assert (Hsame : (balanced t ∨ ¬ nearly_balanced t ∨ 2 ^ 58 <= Z.of_nat (size m)) → Q () t).
  { intros Hb. apply (HQ t bs); [done|done|lia|]. intros _ _ ? ?. by destruct Hb as [?|[?|?]]; [|done|lia]. }
  assert (Hre : ∀ N, 16 <= N → (balanced (set_lh (mkLhash (num_items (lh t)) [] N 0) t) ∨ ¬ nearly_balanced t) → (nearly_balanced t → 2 ^ 60 <= N → 2 ^ 58 <= Z.of_nat (size m)) → wp (lh_rebucket N) t Q).
  { intros N HN Hb Hbig. eapply wp_rebucket; [done|done|]. intros t' bs' Hr' Hcd Hor. apply (HQ t' bs'); [done|done|lia|].
    intros Hnf _ Hnear Hsz. destruct Hor as [[_ Hor]|Hnb]; [specialize (Hor Hnf); specialize (Hbig Hnear Hor); lia|].
    assert (Hn' : num_items (lh t') = num_items (lh t)).
    { rewrite Hn, (rep_num_items _ _ _ Hr'), (rep_map _ _ _ Hr'), contents_size; [done|apply Hr']. }
    destruct Hb as [Hb|?]; [|done]. unfold balanced in *. cbn in Hb. by rewrite Hn', Hnb. }
  unfold balanced, nearly_balanced in *. change kMinNumBuckets with 16 in *. cbn in Hre. rewrite Hn in *. set (sz := Z.of_nat (size m)) in *. set (nb := num_buckets (lh t)) in *.
  assert (0 <= sz) by lia. clearbody sz nb. clear HQ Hr Hn Hd.
  assert (Hq : (2 < sz / nb → 3 * nb <= sz) ∧ (sz / nb <= 2 → sz < 3 * nb) ∧ (sz / nb < 1 → sz < nb) ∧ (1 <= sz / nb → nb <= sz)).
  { pose proof (Z.mul_div_le sz nb ltac:(lia)). pose proof (Z.mul_succ_div_gt sz nb ltac:(lia)). repeat split; intros; nia. }
  destruct Hq as (Hq1 & Hq2 & Hq3 & Hq4). generalize dependent (sz / nb). intros q Hq1 Hq2 Hq3 Hq4.
  destruct (Z.gtb_spec q 2).
  - destruct (Z.lt_ge_cases (nb * 2) (2 ^ 64)).
    + rewrite wrap_small by lia. destruct (Z.gtb_spec (nb * 2) nb); [|lia]. apply Hre; lia.
    + pose proof (wrap_range 64 (nb * 2) ltac:(lia)). destruct (Z.gtb_spec (nb ⊠[64] 2) nb); [apply Hre; lia|apply st_ret, Hsame; lia].
  - destruct (Z.ltb_spec q 1); cbn [andb]; [|apply st_ret, Hsame; lia].
    destruct (Z.gtb_spec nb 16); [|apply st_ret, Hsame; lia].
    destruct (Z.ltb_spec (nb / 2) 16); apply Hre; lia.
Qed.

(** ** Changing one entry *)

Lemma bucket_perm bs i l1 X : bs !! i = Some (l1 ++ X) →
  ∃ R, concat bs ≡ₚ X ++ R ∧ ∀ Y, concat (<[i := l1 ++ Y]> bs) ≡ₚ Y ++ R.
Proof.
  intros Hi. destruct (concat_bucket bs i _ Hi) as (rest & Hp & Hp'). exists (l1 ++ rest). split.
  - rewrite Hp. solve_Permutation.
  - intros Y. rewrite Hp'. solve_Permutation.
Qed.

(** The contents of a table one of whose entries is [e]. *)
Lemma contents_entry bs e R : concat bs ≡ₚ e :: R → NoDup (keys bs) →
  ∃ m0, contents bs = <[key e.2.1 := e.2.1]> m0 ∧ m0 !! key e.2.1 = None ∧
    NoDup ((λ e : entry, key e.2.1) <$> R) ∧ ∀ bs', concat bs' ≡ₚ R → contents bs' = m0.
Proof.
  intros Hp Hk. unfold keys in Hk. rewrite Hp in Hk. cbn in Hk. apply NoDup_cons in Hk as [Hn Hk].
  assert (HR : NoDup ((λ e : entry, (key e.2.1, e.2.1)) <$> R).*1) by (rewrite <- list_fmap_compose; exact Hk).
  exists (list_to_map ((λ e : entry, (key e.2.1, e.2.1)) <$> R)). split_and!.
  - unfold contents. rewrite (list_to_map_proper _ ((λ e : entry, (key e.2.1, e.2.1)) <$> (e :: R))); [done| |by rewrite Hp].
    rewrite <- list_fmap_compose. rewrite Hp. cbn. by apply NoDup_cons.
  - apply not_elem_of_list_to_map_1. rewrite <- list_fmap_compose. exact Hn.
  - done.
  - intros bs' Hp'. unfold contents. apply list_to_map_proper; [|by rewrite Hp'].
    rewrite <- list_fmap_compose, Hp'. exact Hk.
Qed.

Lemma keys_cons bs e R : concat bs ≡ₚ e :: R → NoDup ((λ e : entry, key e.2.1) <$> R) →
  key e.2.1 ∉ (λ e : entry, key e.2.1) <$> R → NoDup (keys bs).
Proof. intros Hp Hk Hn. unfold keys. rewrite Hp. cbn. by apply NoDup_cons. Qed.

Lemma contents_replace bs bs' e e' R : concat bs ≡ₚ e :: R → concat bs' ≡ₚ e' :: R → key e'.2.1 = key e.2.1 →
  NoDup (keys bs) → NoDup (keys bs') ∧ contents bs' = <[key e.2.1 := e'.2.1]> (contents bs).
Proof.
  intros Hp Hp' He Hk. assert (Hk' : NoDup (keys bs')).
  { unfold keys in *. rewrite Hp', fmap_cons, He. by rewrite Hp in Hk. }
  split; [done|]. destruct (contents_entry bs e R Hp Hk) as (m0 & -> & _ & _ & Hm).
  destruct (contents_entry bs' e' R Hp' Hk') as (m1 & -> & _ & _ & Hm'). rewrite He, insert_insert_eq.
  rewrite <- (Hm [R]), <- (Hm' [R]) by (cbn; by rewrite app_nil_r). done.
Qed.

Lemma contents_add bs bs' e R : concat bs ≡ₚ R → concat bs' ≡ₚ e :: R → contents bs !! key e.2.1 = None →
  NoDup (keys bs) → NoDup (keys bs') ∧ contents bs' = <[key e.2.1 := e.2.1]> (contents bs).
Proof.
  intros Hp Hp' Hn Hk. assert (Hk' : NoDup (keys bs')).
  { eapply keys_cons; [done| |]; [unfold keys in Hk; by rewrite Hp in Hk|].
    intros (x & Hx & HxR)%list_elem_of_fmap. rewrite (proj2 (contents_lookup bs _ x.2.1 Hk)) in Hn; [done|].
    exists x. by rewrite Hp. }
  split; [done|]. destruct (contents_entry bs' e R Hp' Hk') as (m1 & -> & _ & _ & Hm'). by rewrite (Hm' bs).
Qed.

Lemma contents_remove bs bs' e R : concat bs ≡ₚ e :: R → concat bs' ≡ₚ R →
  NoDup (keys bs) → NoDup (keys bs') ∧ contents bs' = delete (key e.2.1) (contents bs).
Proof.
  intros Hp Hp' Hk. destruct (contents_entry bs e R Hp Hk) as (m0 & -> & Hn & HR & Hm).
  split; [unfold keys; by rewrite Hp'|]. rewrite (Hm bs' Hp'), delete_insert_eq, delete_id; [done|exact Hn].
Qed.

Lemma placed_update bs i l l' : bs !! i = Some l → placed bs →
  (∀ e, e ∈ l' → e ∈ l ∨ e.2.2 = hash e.2.1 ∧ Z.to_nat (e.2.2 mod Z.of_nat (length bs)) = i) → placed (<[i := l']> bs).
Proof.
  intros Hi Hp Hl' j lj e Hj He. rewrite length_insert.
  apply list_lookup_insert_Some in Hj as [(<- & <- & _)|(Hne & Hj)]; [|by eapply Hp].
  destruct (Hl' e He) as [?|?]; [by eapply Hp|done].
Qed.

Lemma rep_size t bs m : rep t bs m → num_items (lh t) = Z.of_nat (size m).
Proof. intros Hr. rewrite (rep_map _ _ _ Hr), contents_size by apply Hr. apply Hr. Qed.

Lemma rep_add t t' bs m i l1 a d (bs' := <[i := l1 ++ [(a, (d, hash d))]]> bs) :
  rep t bs m → bs !! i = Some l1 → i = Z.to_nat (hash d mod num_buckets (lh t)) → m !! key d = None → a ∉ (concat bs).*1 →
  chains t' bs' → dom (items t') = {[a]} ∪ dom (items t) →
  num_items (lh t') = num_items (lh t) + 1 → num_buckets (lh t') = num_buckets (lh t) → rep t' bs' (<[key d := d]> m).
Proof.
  intros Hr Hbs Hi Hm Ha Hc' Hdom Hn' Hb'. destruct (bucket_perm bs i l1 []) as (R & HR & HR'); [by rewrite app_nil_r|].
  specialize (HR' [(a, (d, hash d))]). fold bs' in HR'.
  destruct (contents_add bs bs' (a, (d, hash d)) R) as [Hk' Hm']; [done|done|by rewrite <- (rep_map _ _ _ Hr)|apply Hr|].
  destruct Hr as [_ Hnd Hd Hnb Hmin Hni Hpl Hk Hmm].
  split; [done| | |by unfold bs'; rewrite Hb', length_insert|by rewrite Hb'| | |done|by rewrite Hm', Hmm].
  - rewrite HR'. cbn. rewrite HR in Hnd, Ha. by apply NoDup_cons.
  - rewrite Hdom, Hd, HR', HR. cbn. set_solver.
  - rewrite Hn', Hni, HR', HR. cbn. lia.
  - eapply placed_update; [done|done|]. intros e [He| ->%list_elem_of_singleton]%elem_of_app; [by left|right].
    split; [done|]. cbn. by rewrite Hi, Hnb.
Qed.

Lemma rep_replace t bs m i l1 e l2 d : rep t bs m → bs !! i = Some (l1 ++ e :: l2) → key e.2.1 = key d →
  rep (set_items (<[e.1 := mkItem d (hd_addr l2) e.2.2]> (items t)) t) (<[i := l1 ++ (e.1, (d, e.2.2)) :: l2]> bs) (<[key d := d]> m).
Proof.
  intros Hr Hbs He. destruct (bucket_perm bs i l1 (e :: l2) Hbs) as (R & HR & HR'). specialize (HR' ((e.1, (d, e.2.2)) :: l2)).
  destruct (contents_replace bs (<[i := l1 ++ (e.1, (d, e.2.2)) :: l2]> bs) e (e.1, (d, e.2.2)) (l2 ++ R)) as [Hk' Hm'];
    [done|done|done|apply Hr|].
  destruct Hr as [Hc Hnd Hd Hnb Hmin Hni Hpl Hk Hmm]. pose proof (Forall_lookup_1 _ _ _ _ (proj2 Hc) Hbs) as Hl.
  split; cbn; rewrite ?length_insert; try done.
  - eapply (chains_relink t bs i l1 e l2 (e.1, (d, e.2.2)) l2); [done|done|done|done|by eapply (linked_app _ (l1 ++ [e])); rewrite <- app_assoc|].
    pose proof (nodup_bucket _ _ _ Hbs Hnd) as Hndi. rewrite fmap_app in Hndi. cbn in Hndi.
    apply NoDup_app in Hndi as (_ & Hd' & Hndi). apply NoDup_cons in Hndi as [? _].
    intros x [Hx| ->]; [|done]. specialize (Hd' x Hx). set_solver.
  - rewrite HR'. by rewrite HR in Hnd.
  - rewrite dom_insert_lookup_L by by eexists; eapply linked_mid. by rewrite Hd, HR, HR'.
  - by rewrite Hni, HR, HR'.
  - eapply placed_update; [done|done|]. intros x. rewrite elem_of_app, elem_of_cons. intros [?|[->|?]]; [left; set_solver| |left; set_solver].
    right. destruct (Hpl i _ e Hbs) as [Hh Hb]; [set_solver|]. cbn. split; [|done]. rewrite Hh. by apply hash_key.
  - by rewrite Hm', Hmm, He.
Qed.

Lemma rep_remove t t' bs m i l1 e l2 : rep t bs m → bs !! i = Some (l1 ++ e :: l2) →
  chains t' (<[i := l1 ++ l2]> bs) → dom (items t') = dom (items t) ∖ {[e.1]} →
  num_items (lh t') = num_items (lh t) - 1 → num_buckets (lh t') = num_buckets (lh t) →
  rep t' (<[i := l1 ++ l2]> bs) (delete (key e.2.1) m).
Proof.
  intros Hr Hbs Hc' Hdom Hn' Hb'. destruct (bucket_perm bs i l1 (e :: l2) Hbs) as (R & HR & HR'). specialize (HR' l2).
  destruct (contents_remove bs (<[i := l1 ++ l2]> bs) e (l2 ++ R)) as [Hk' Hm']; [done|done|apply Hr|].
  destruct Hr as [_ Hnd Hd Hnb Hmin Hni Hpl Hk Hmm]. rewrite HR in Hnd. cbn in Hnd. apply NoDup_cons in Hnd as [Hne Hnd].
  split; [done|by rewrite HR'| |by rewrite Hb', length_insert|by rewrite Hb'| | |done|by rewrite Hm', Hmm].
  - rewrite Hdom, Hd, HR', HR. cbn. set_solver.
  - rewrite Hn', Hni, HR', HR. cbn. lia.
  - eapply placed_update; [done|done|]. intros x Hx. left. set_solver.
Qed.

Lemma found_entry t bs m k i l1 e l2 : rep t bs m → found bs m k i l1 (e :: l2) →
  items t !! e.1 = Some (item_of e (hd_addr l2)) ∧ key e.2.1 = k ∧ m !! k = Some e.2.1.
Proof.
  intros Hr [Hbs Hm]. split_and!; [|rewrite (rep_map _ _ _ Hr) in Hm|done].
  - pose proof (Forall_lookup_1 _ _ _ _ (proj2 (rep_chains _ _ _ Hr)) Hbs) as Hl. by eapply linked_mid.
  - apply contents_lookup in Hm as (x & _ & _ & ?); [done|apply Hr].
Qed.

Lemma fresh_item t bs m : rep t bs m → fresh (dom (items t)) ∉ (concat bs).*1.
Proof. intros Hr. rewrite <- (elem_of_list_to_set (C := gset loc)), <- (rep_dom _ _ _ Hr). apply is_fresh. Qed.

(** [num_items] after the change. *)
Definition with_num_items (n : Z) t : table D :=
  set_lh (mkLhash n (buckets (lh t)) (num_buckets (lh t)) (callback_depth (lh t))) t.

(** What an operation that takes the contents from [m] to [m'] leaves. *)
Definition keeps_balance t t' m : Prop :=
  NeverFails A → callback_depth (lh t) = 0 → Z.of_nat (size m) < 2 ^ 58 - 1 → balanced t → balanced t'.

Lemma wp_insert t bs m d (Q : Z * option D → table D → Prop) :
  rep t bs m → 0 <= callback_depth (lh t) → Z.of_nat (size m) < 2 ^ 64 - 1 →
  (∀ t' bs' (b : bool), rep t' bs' (if b then <[key d := d]> m else m) → callback_depth (lh t') = callback_depth (lh t) →
     (b = false → m !! key d = None ∧ ¬ NeverFails A) → keeps_balance t t' m → Q (if b then 1 else 0, m !! key d) t') →
  wp (OPENSSL_lh_insert hash comp d) t Q.
Proof.
  intros Hr Hcd Hsz HQ. unfold OPENSSL_lh_insert. apply st_bind. eapply wp_get_next_ptr; [done|]. intros i l1 l2 Hi Hf.
  pose proof (rep_chains _ _ _ Hr) as Hc. pose proof (rep_nodup _ _ _ Hr) as Hnd. pose proof (rep_size _ _ _ Hr) as Hn.
  apply st_bind. eapply wp_deref; [by apply (read_link_at t bs i l1 l2), Hf|].
  destruct l2 as [|e l2]; cbn [hd_addr head fmap option_fmap option_map].
  - destruct Hf as [Hbs Hm]. apply st_bind. unfold wp at 1, allocate.
    destruct (OPENSSL_malloc (clock t) sizeof_LHASH_ITEM) as [block|] eqn:Ea.
    2: { apply st_ret. rewrite <- Hm. apply (HQ _ bs false); [by destruct Hr; split|done| |by intros _ _ _].
         split; [done|]. intros Hnf. destruct (OPENSSL_malloc_succeeds (clock t) sizeof_LHASH_ITEM) as [b Hb]; [done|]. by rewrite Hb in Ea. }
    apply st_bind, wp_gets. apply st_bind, wp_modify. cbn [items]. set (a := fresh (dom (items t))).
    pose proof (fresh_item _ _ _ Hr) as Ha. fold a in Ha.
    change (Some a) with (hd_addr [(a, (d, hash d))]). apply st_bind. rewrite app_nil_r in Hbs.
    apply (wp_write_link _ bs i l1 [] [(a, (d, hash d))]).
    { split; [apply Hc|]. apply Forall_linked_insert; [done|apply Hc]. }
    { done. } { by rewrite app_nil_r. } { split; [|done]. apply lookup_insert_eq. }
    { intros x Hx Hxa. cbn in Hxa. apply list_elem_of_singleton in Hxa as ->. apply Ha.
      apply list_elem_of_fmap in Hx as (e & Hae & He). rewrite Hae. apply list_elem_of_fmap_2. by eapply elem_of_bucket. }
    intros t' Hc' Hdom _ [b Hlh]. pose proof (f_equal num_items Hlh) as Hni. cbn in Hni.
    apply st_bind, wp_gets. apply st_bind, wp_modify. rewrite Hni, Hn, wrap_small by lia.
    apply st_bind. eapply wp_maybe_resize; [eapply (rep_add t (with_num_items (Z.of_nat (size m) + 1) t')); try done| |].
    { cbn. rewrite Hdom. apply dom_insert_L. } { cbn. by rewrite Hn. } { cbn. by rewrite Hlh. } { cbn. by rewrite Hlh. }
    intros t2 bs2 Hr2 Hcd2 _ Hbal. cbn in Hcd2. rewrite Hlh in Hcd2. apply st_ret. rewrite <- Hm.
    apply (HQ t2 bs2 true); [done|done|done|]. intros Hnf Hcd0 Hbig Hb. apply Hbal; [done|cbn; by rewrite Hlh| |].
    + unfold nearly_balanced, balanced in *. cbn. rewrite Hlh. cbn. lia.
    + rewrite map_size_insert_None by done. lia.
  - destruct (found_entry _ _ _ _ _ _ _ _ Hr Hf) as (Hl & He & Hm). apply st_bind. eapply wp_deref; [done|].
    apply st_bind, wp_modify, st_ret. cbn [item_of item_next item_hash item_data]. rewrite <- Hm.
    apply (HQ _ (<[i := l1 ++ (e.1, (d, e.2.2)) :: l2]> bs) true); [|done|done|by intros _ _ _].
    apply rep_replace; [done|apply Hf|done].
Qed.

Lemma wp_delete t bs m d (Q : option D → table D → Prop) :
  rep t bs m → 0 <= callback_depth (lh t) → Z.of_nat (size m) < 2 ^ 64 →
  (∀ t' bs', rep t' bs' (delete (key d) m) → callback_depth (lh t') = callback_depth (lh t) →
     keeps_balance t t' m →
     (0 < callback_depth (lh t) → (m !! key d = None ∧ bs' = bs) ∨
        ∃ i l1 e l2, bs !! i = Some (l1 ++ e :: l2) ∧ key e.2.1 = key d ∧ bs' = <[i := l1 ++ l2]> bs) →
     Q (m !! key d) t') →
  wp (OPENSSL_lh_delete hash comp d) t Q.
Proof.
  intros Hr Hcd Hsz HQ. unfold OPENSSL_lh_delete. apply st_bind. eapply wp_get_next_ptr; [done|]. intros i l1 l2 _ Hf.
  pose proof (rep_chains _ _ _ Hr) as Hc. pose proof (rep_nodup _ _ _ Hr) as Hnd. pose proof (rep_size _ _ _ Hr) as Hn.
  apply st_bind. eapply wp_deref; [by apply (read_link_at t bs i l1 l2), Hf|].
  destruct l2 as [|e l2]; cbn [hd_addr head fmap option_fmap option_map].
  - destruct Hf as [_ Hm]. apply st_ret. rewrite <- Hm. apply (HQ t bs); [by rewrite delete_id|done|by intros _ _ _|by left].
  - destruct (found_entry _ _ _ _ _ _ _ _ Hr Hf) as (Hl & He & Hm). destruct Hf as [Hbs _].
    pose proof (Forall_lookup_1 _ _ _ _ (proj2 Hc) Hbs) as Hli. pose proof (nodup_bucket _ _ _ Hbs Hnd) as Hndi.
    rewrite fmap_app in Hndi. apply NoDup_app in Hndi as (_ & Hd & Hndi). cbn in Hndi. apply NoDup_cons in Hndi as [Hel Hndi].
    apply st_bind. eapply wp_deref; [done|]. cbn [item_of item_next item_data]. apply st_bind.
    eapply (wp_write_link t bs i l1 (e :: l2) l2); [done|done|done|by eapply (linked_app _ (l1 ++ [e])); rewrite <- app_assoc| |].
    { intros a Ha Ha2. apply (Hd a Ha). cbn. set_solver. }
    intros t' Hc' Hdom _ [b Hlh]. pose proof (f_equal num_items Hlh) as Hni. cbn in Hni.
    assert (His : is_Some (items t' !! e.1)) by (apply elem_of_dom; rewrite Hdom; apply elem_of_dom; by eexists).
    destruct His as [it Hit]. apply st_bind. unfold wp at 1, OPENSSL_free. rewrite Hit.
    apply st_bind, wp_gets. apply st_bind, wp_modify. cbn [lh set_items]. rewrite Hni, Hn.
    assert (Hpos : (0 < size m)%nat) by (apply Nat.neq_0_lt_0; intros ->%map_size_empty_inv; by rewrite lookup_empty in Hm).
    rewrite wrap_small by lia. apply st_bind.
    eapply wp_maybe_resize; [eapply (rep_remove t (with_num_items (Z.of_nat (size m) - 1) (set_items (delete e.1 (items t')) t'))); try done| |].
    { apply (chains_delete t' _ e.1); [done| |done|done]. destruct (bucket_perm bs i l1 (e :: l2) Hbs) as (R & HR & HR').
      rewrite HR'. rewrite HR in Hnd. cbn in Hnd. by apply NoDup_cons in Hnd as [? _]. }
    { cbn. by rewrite dom_delete_L, Hdom. } { cbn. by rewrite Hn. } { cbn. by rewrite Hlh. } { cbn. by rewrite Hlh. }
    intros t2 bs2 Hr2 Hcd2 Hbs2 Hbal. cbn in Hcd2. rewrite Hlh in Hcd2. apply st_ret. rewrite He in Hr2. rewrite <- Hm.
    apply (HQ t2 bs2); [done|done| |].
    2: { intros Hpd. right. exists i, l1, e, l2. split_and!; [done|done|]. apply Hbs2. cbn. by rewrite Hlh. }
    intros Hnf Hcd0 Hbig Hb. apply Hbal; [done|cbn; by rewrite Hlh| |].
    + unfold nearly_balanced, balanced in *. cbn. rewrite Hlh. cbn. lia.
    + rewrite He, map_size_delete_Some by by eexists. lia.
Qed.

(** ** Sequences of operations *)

Inductive lh_op := LInsert (d : D) | LDelete (d : D) | LRetrieve (d : D).

(** The return value of the call and the element it yields. *)
Definition run_op (o : lh_op) : ST (table D) (Z * option D) :=
  match o with
  | LInsert d => OPENSSL_lh_insert hash comp d
  | LDelete d => r ← OPENSSL_lh_delete hash comp d; mret (1, r)
  | LRetrieve d => r ← OPENSSL_lh_retrieve hash comp d; mret (1, r)
  end.
Fixpoint run_ops (os : list lh_op) : ST (table D) (list (Z * option D)) :=
  match os with
  | [] => mret []
  | o :: os => r ← run_op o; rs ← run_ops os; mret (r :: rs)
  end.

(** The same on a finite map; an insertion of a new key may fail. *)
Inductive map_step (m : gmap K D) : lh_op → Z * option D → gmap K D → Prop :=
  | step_insert d : map_step m (LInsert d) (1, m !! key d) (<[key d := d]> m)
  | step_no_memory d : m !! key d = None → map_step m (LInsert d) (0, None) m
  | step_delete d : map_step m (LDelete d) (1, m !! key d) (delete (key d) m)
  | step_retrieve d : map_step m (LRetrieve d) (1, m !! key d) m.
Inductive map_steps : gmap K D → list lh_op → list (Z * option D) → gmap K D → Prop :=
  | steps_nil m : map_steps m [] [] m
  | steps_cons m1 m2 m3 o os r rs : map_step m1 o r m2 → map_steps m2 os rs m3 → map_steps m1 (o :: os) (r :: rs) m3.

Definition lh_rep t m : Prop := callback_depth (lh t) = 0 ∧ ∃ bs, rep t bs m.

Lemma wp_lh_op t m o (Q : Z * option D → table D → Prop) :
  lh_rep t m → Z.of_nat (size m) < 2 ^ 58 - 1 →
  (∀ r t' m', map_step m o r m' → lh_rep t' m' → (size m' ≤ S (size m))%nat →
     (NeverFails A → r.1 = 1 ∧ (balanced t → balanced t')) → Q r t') →
  wp (run_op o) t Q.
Proof.
  intros [Hcd [bs Hr]] Hsz HQ. destruct o as [d|d|d]; cbn [run_op].
  - eapply wp_insert; [done|lia|lia|]. intros t' bs' b Hr' Hcd' Hb Hbal. apply (HQ _ t' (if b then <[key d := d]> m else m)).
    + destruct b; [constructor|]. destruct (Hb eq_refl) as [-> _]. constructor. by apply Hb.
    + split; [lia|]. by exists bs'.
    + destruct b; [rewrite map_size_insert; case_match; cbn; lia|lia].
    + intros Hnf. split; [|by intros; apply Hbal]. destruct b; [done|]. by destruct (Hb eq_refl) as [_ ?].
  - apply st_bind. eapply wp_delete; [done|lia|lia|]. intros t' bs' Hr' Hcd' Hbal _. apply st_ret. apply (HQ _ t' (delete (key d) m)).
    + constructor.
    + split; [lia|]. by exists bs'.
    + rewrite map_size_delete. case_match; cbn; lia.
    + intros Hnf. split; [done|]. by intros; apply Hbal.
  - apply st_bind. eapply wp_retrieve; [done|]. apply st_ret. apply (HQ _ t m); [constructor|by split; [|exists bs]|lia|done].
Qed.

Lemma wp_lh_ops os t m (Q : list (Z * option D) → table D → Prop) :
  lh_rep t m → Z.of_nat (size m + length os) < 2 ^ 58 →
  (∀ rs t' m', map_steps m os rs m' → lh_rep t' m' →
     (NeverFails A → Forall (λ r, r.1 = 1) rs ∧ (balanced t → balanced t')) → Q rs t') →
  wp (run_ops os) t Q.
Proof.
  revert t m Q. induction os as [|o os IH]; intros t m Q Hr Hsz HQ; cbn [run_ops].
  - apply st_ret. eapply HQ; [constructor|done|done].
  - cbn [length] in Hsz. apply st_bind. eapply wp_lh_op; [done|lia|]. intros r t' m' Hs Hr' Hsz' Hnf.
    apply st_bind. eapply IH; [done|lia|]. intros rs t2 m2 Hss Hr2 Hnf2. apply st_ret. eapply HQ; [by econstructor|done|].
    intros Hn. destruct (Hnf Hn), (Hnf2 Hn). split; [by constructor|auto].
Qed.

Lemma new_rep n0 (l : lhash_st) (c : nat) : OPENSSL_lh_new n0 = Some l → lh_rep (mkTable l ∅ c) ∅ ∧ balanced (mkTable l ∅ c).
Proof.
  unfold OPENSSL_lh_new. destruct (OPENSSL_zalloc _ _); [|done]. destruct (OPENSSL_calloc _ _ _); [|done]. intros [= <-].
  split; [|split; [done|by left]]. split; [done|]. exists (replicate 16 []). split; try done; try (by vm_compute; constructor).
  - split; [done|]. by apply Forall_replicate.
  - intros i l e Hi He. apply lookup_replicate_1 in Hi as [-> _]. set_solver.
Qed.

(** ** Freeing *)

Lemma wp_free_chain l fuel t bs (Q : unit → table D → Prop) :
  (length l ≤ fuel)%nat → linked (items t) l → Forall (linked (items t)) bs → NoDup (l ++ concat bs).*1 →
  dom (items t) = list_to_set (l ++ concat bs).*1 →
  (∀ h, Forall (linked h) bs → dom h = list_to_set (concat bs).*1 → Q () (set_items h t)) →
  wp (free_chain fuel (hd_addr l)) t Q.
Proof.
  revert fuel t. induction l as [|e l IH]; intros fuel t Hf Hl Hbs Hnd Hd HQ.
  - assert (HQ' : Q () t) by (destruct t; by apply HQ). by destruct fuel; apply st_ret.
  - destruct fuel as [|fuel]; [cbn in Hf; lia|]. cbn [free_chain hd_addr head fmap option_fmap option_map].
    destruct Hl as [He Hl]. apply st_bind. eapply wp_deref; [done|]. apply st_bind. unfold wp at 1, OPENSSL_free. rewrite He.
    cbn in Hnd. apply NoDup_cons in Hnd as [Hn Hnd]. rewrite fmap_app, not_elem_of_app in Hn. destruct Hn as [Hnl Hnb].
    cbn [item_of item_next]. apply IH; [cbn in Hf; lia|by apply linked_delete| |done| |].
    + cbn. rewrite !Forall_lookup in *. intros i x Hi. apply linked_delete; [|by eapply Hbs]. intros Hin. apply Hnb.
      apply list_elem_of_fmap in Hin as (y & -> & Hy). apply list_elem_of_fmap_2. by eapply elem_of_bucket.
    + cbn. rewrite dom_delete_L, Hd. cbn. assert (e.1 ∉ (l ++ concat bs).*1) by (by rewrite fmap_app, not_elem_of_app). set_solver.
    + intros h Hh Hdom. by apply HQ.
Qed.

Lemma wp_free_buckets bs t (Q : unit → table D → Prop) :
  Forall (linked (items t)) bs → NoDup (concat bs).*1 → dom (items t) = list_to_set (concat bs).*1 →
  (∀ t', items t' = ∅ → Q () t') → wp (free_buckets (hd_addr <$> bs)) t Q.
Proof.
  revert t. induction bs as [|l bs IH]; intros t Hl Hnd Hd HQ; cbn [free_buckets fmap list_fmap].
  - apply st_ret, HQ. apply dom_empty_inv_L. by rewrite Hd.
  - apply Forall_cons in Hl as [Hl Hbs]. apply st_bind, wp_gets. apply st_bind.
    eapply (wp_free_chain l _ t bs); [|done|done|done|done|].
    + apply linked_length; [done|]. cbn in Hnd. rewrite fmap_app in Hnd. by apply NoDup_app in Hnd as [? _].
    + intros h Hh Hdom. apply IH; [done| |done|done]. cbn in Hnd. rewrite fmap_app in Hnd. by apply NoDup_app in Hnd as (_ & _ & ?).
Qed.

Lemma wp_free t m (Q : unit → table D → Prop) : lh_rep t m → (∀ t', items t' = ∅ → Q () t') → wp OPENSSL_lh_free t Q.
Proof.
  intros [_ [bs Hr]] HQ. apply st_bind, wp_gets. rewrite (proj1 (rep_chains _ _ _ Hr)).
  apply wp_free_buckets; [apply Hr|apply Hr|apply Hr|done].
Qed.

(** C7: the hash table implements a finite map.  From a new table, every
    sequence of insertions, deletions and searches runs without undefined
    behaviour and yields what the map yields; an insertion fails only when
    memory runs out and then changes nothing.  Afterwards the count and the
    store agree with the map (no item leaks), [OPENSSL_lh_retrieve] answers
    from it, freeing the table frees every item, and, as long as memory lasts,
    the chains hold fewer than three items on average. *)
Theorem lhash_implements_map (n0 : nat) (l : lhash_st) (os : list lh_op)
    (Hnew : OPENSSL_lh_new n0 = Some l) (Hlen : Z.of_nat (length os) < 2 ^ 58) :
  match run_ops os (mkTable l ∅ (n0 + 2)) with
  | None => False
  | Some (rs, t) => ∃ m, map_steps ∅ os rs m ∧
      OPENSSL_lh_num_items (lh t) = Z.of_nat (size m) ∧ size (items t) = size m ∧
      (∀ d, OPENSSL_lh_retrieve hash comp d t = Some (m !! key d, t)) ∧
      (∃ t', OPENSSL_lh_free t = Some ((), t') ∧ items t' = ∅) ∧
      (NeverFails A → Forall (λ r, r.1 = 1) rs ∧ balanced t)
  end.
Proof.
  destruct (new_rep n0 l (n0 + 2) Hnew) as [Hr Hb].
  eapply (wp_lh_ops os _ ∅ (λ rs t, _)); [done|rewrite map_size_empty; lia|]. intros rs t m Hs Hr' Hnf. exists m.
  pose proof Hr' as [_ [bs Hbs]]. split_and!.
  - done.
  - by eapply rep_size.
  - rewrite <- (size_dom (items t)), (rep_dom _ _ _ Hbs), size_list_to_set by apply Hbs.
    rewrite length_fmap, (rep_map _ _ _ Hbs), contents_size; [done|apply Hbs].
  - intros d. assert (Hw : wp (OPENSSL_lh_retrieve hash comp d) t (λ r t', r = m !! key d ∧ t' = t)) by by eapply wp_retrieve.
    unfold wp in Hw. destruct (OPENSSL_lh_retrieve hash comp d t) as [[r t']|]; [|done]. by destruct Hw as [-> ->].
  - assert (Hw : wp OPENSSL_lh_free t (λ _ t', items t' = ∅)) by by eapply wp_free.
    unfold wp in Hw. destruct (OPENSSL_lh_free t) as [[[] t']|]; [|done]. by exists t'.
  - intros Hn. destruct (Hnf Hn). auto.
Qed.

(** ** Iteration *)

Lemma rep_depth t bs m n : rep t bs m →
  rep (set_lh (mkLhash (num_items (lh t)) (buckets (lh t)) (num_buckets (lh t)) n) t) bs m.
Proof. by intros []; split. Qed.

Section doall_proofs.
Context {S : Type} (f : S → D → S) (p : D → bool).

(** A callback that updates its argument and deletes the elements of [p]
    from the table while they are being visited. *)
Definition visit (d : D) (s : S) : ST (table D) S :=
  if p d then _ ← OPENSSL_lh_delete hash comp d; mret (f s d) else mret (f s d).

Definition kept l : list entry := filter (λ e, p e.2.1 = false) l.

Lemma kept_cons e l : kept (e :: l) = if p e.2.1 then kept l else e :: kept l.
Proof. unfold kept. rewrite filter_cons. by destruct (p e.2.1). Qed.

(** An element is in one place only. *)
Lemma entry_unique t bs m i l1 e l2 i' l1' e' l2' : rep t bs m →
  bs !! i = Some (l1 ++ e :: l2) → bs !! i' = Some (l1' ++ e' :: l2') → key e.2.1 = key e'.2.1 →
  <[i := l1 ++ l2]> bs = <[i' := l1' ++ l2']> bs.
Proof.
  intros Hr Hi Hi' Hk.
  destruct (rep_placed _ _ _ Hr i _ e Hi) as [Hh Hb]; [set_solver|].
  destruct (rep_placed _ _ _ Hr i' _ e' Hi') as [Hh' Hb']; [set_solver|].
  assert (i = i') as <- by (rewrite <- Hb, <- Hb', Hh, Hh'; by rewrite (hash_key (LhashCallbacks := Hcb) _ _ Hk)).
  rewrite Hi in Hi'. injection Hi' as E.
  pose proof (rep_keys _ _ _ Hr) as Hnd. unfold keys in Hnd. destruct (bucket_perm bs i [] (l1 ++ e :: l2) Hi) as (R & HR & _).
  rewrite HR, fmap_app in Hnd. apply NoDup_app in Hnd as [Hnd _].
  assert (Hlen : length l1 = length l1').
  { eapply (NoDup_lookup _ _ _ _ Hnd).
    - by rewrite list_lookup_fmap, list_lookup_middle.
    - rewrite E, list_lookup_fmap, list_lookup_middle by done. cbn. by rewrite Hk. }
  by apply app_inj_1 in E as [-> [= _ ->]].
Qed.

Lemma wp_doall_chain l2 fuel t bs i l1 s (Q : S → table D → Prop) :
  (length l2 ≤ fuel)%nat → rep t bs (contents bs) → 0 < callback_depth (lh t) → Z.of_nat (size (contents bs)) < 2 ^ 64 →
  bs !! i = Some (l1 ++ l2) →
  (∀ t', rep t' (<[i := l1 ++ kept l2]> bs) (contents (<[i := l1 ++ kept l2]> bs)) →
     callback_depth (lh t') = callback_depth (lh t) → Q (foldl f s ((λ e, e.2.1) <$> l2)) t') →
  wp (doall_chain visit fuel (hd_addr l2) s) t Q.
Proof.
  revert fuel t bs l1 s. induction l2 as [|e l2 IH]; intros fuel t bs l1 s Hf Hr Hcd Hsz Hbs HQ.
  - assert (HQ' : Q s t) by (apply HQ; [by rewrite list_insert_id|done]). by destruct fuel; apply st_ret.
  - destruct fuel as [|fuel]; [cbn in Hf; lia|]. cbn [doall_chain hd_addr head fmap option_fmap option_map].
    pose proof (Forall_lookup_1 _ _ _ _ (proj2 (rep_chains _ _ _ Hr)) Hbs) as Hl.
    apply st_bind. eapply wp_deref; [by eapply linked_mid|]. cbn [item_of item_next item_data]. apply st_bind.
    assert (Hm : contents bs !! key e.2.1 = Some e.2.1).
    { apply contents_lookup; [apply Hr|]. exists e. split; [|done]. eapply elem_of_bucket; [done|]. set_solver. }
    assert (Hlt : (i < length bs)%nat) by by eapply lookup_lt_Some. cbn in Hf.
    unfold visit at 1. rewrite kept_cons in HQ. destruct (p e.2.1) eqn:Hp.
    + apply st_bind. eapply wp_delete; [done|lia|lia|]. intros t' bs' Hr' Hcd' _ Hor. apply st_ret.
      destruct (Hor Hcd) as [[? _]|(i' & l1' & e' & l2' & Hi' & Hk' & ->)]; [congruence|].
      rewrite (entry_unique _ _ _ i' l1' e' l2' i l1 e l2 Hr Hi' Hbs Hk') in Hr'.
      pose proof (rep_map _ _ _ Hr') as Hm'. rewrite Hm' in Hr'.
      eapply (IH fuel t' (<[i := l1 ++ l2]> bs) l1); [lia|done|lia| |by rewrite list_lookup_insert_eq|].
      { rewrite <- Hm', map_size_delete, Hm. cbn. lia. }
      intros t2 Hr2 Hcd2. rewrite list_insert_insert_eq in Hr2. apply HQ; [done|lia].
    + apply st_ret. rewrite cons_middle, app_assoc in Hbs. eapply (IH fuel t bs (l1 ++ [e])); [lia|done|done|done|done|].
      intros t2 Hr2 Hcd2. rewrite <- app_assoc in Hr2. by apply HQ.
Qed.

Lemma wp_doall_loop bs2 t bs1 fuel s (Q : S → table D → Prop) :
  rep t (bs1 ++ bs2) (contents (bs1 ++ bs2)) → 0 < callback_depth (lh t) → Z.of_nat (size (contents (bs1 ++ bs2))) < 2 ^ 64 →
  (length (concat bs2) ≤ fuel)%nat →
  (∀ t', rep t' (bs1 ++ (kept <$> bs2)) (contents (bs1 ++ (kept <$> bs2))) → callback_depth (lh t') = callback_depth (lh t) →
     Q (foldl f s ((λ e, e.2.1) <$> concat bs2)) t') →
  wp (doall_loop visit fuel (length bs2) (Z.of_nat (length bs1)) s) t Q.
Proof.
  revert t bs1 s. induction bs2 as [|l bs2 IH]; intros t bs1 s Hr Hcd Hsz Hf HQ; cbn [doall_loop length];
    apply st_bind, wp_gets; rewrite (rep_num_buckets _ _ _ Hr), length_app; cbn [length].
  - destruct (Z.ltb_spec (Z.of_nat (length bs1)) (Z.of_nat (length bs1 + 0))); [lia|]. apply st_ret. by apply HQ.
  - destruct (Z.ltb_spec (Z.of_nat (length bs1)) (Z.of_nat (length bs1 + Datatypes.S (length bs2)))); [|lia].
    cbn in Hf. rewrite length_app in Hf. rewrite Nat2Z.id. apply st_bind. eapply wp_deref.
    { rewrite (proj1 (rep_chains _ _ _ Hr)), list_lookup_fmap, list_lookup_middle by done. done. }
    apply st_bind. eapply (wp_doall_chain l fuel t (bs1 ++ l :: bs2) (length bs1) []); [lia|done|done|done|by apply list_lookup_middle|].
    intros t' Hr' Hcd'. cbn [app] in Hr'. rewrite insert_app_r_alt, Nat.sub_diag in Hr' by lia. cbn [insert list_insert] in Hr'.
    rewrite cons_middle, app_assoc in Hr'.
    replace (Z.of_nat (length bs1) + 1) with (Z.of_nat (length (bs1 ++ [kept l]))) by (rewrite length_app; cbn; lia).
    apply IH; [done|lia| |lia|].
    + rewrite contents_size in * by (apply Hr || apply Hr'). rewrite !concat_app in *. cbn in *. rewrite !length_app in *. cbn.
      pose proof (length_filter (λ e : entry, p e.2.1 = false) l). fold (kept l) in *. rewrite ?app_nil_r. cbn. lia.
    + intros t2 Hr2 Hcd2. rewrite <- app_assoc in Hr2. cbn in HQ. rewrite fmap_app, foldl_app in HQ. apply HQ; [done|lia].
Qed.

Lemma concat_kept bs : concat (kept <$> bs) = kept (concat bs).
Proof. induction bs as [|l bs IH]; [done|]. cbn. rewrite IH. unfold kept. by rewrite filter_app. Qed.

Lemma contents_kept bs : NoDup (keys bs) → NoDup (keys (kept <$> bs)) →
  contents (kept <$> bs) = filter (λ kd, p kd.2 = false) (contents bs).
Proof.
  intros Hk Hk'. apply map_eq. intros k. apply option_eq. intros d.
  rewrite contents_lookup, map_lookup_filter_Some, contents_lookup by done. rewrite concat_kept. unfold kept.
  setoid_rewrite list_elem_of_filter. cbn. split.
  - intros (e & [? ?] & <- & <-). split; [|done]. by exists e.
  - intros [(e & ? & <- & <-) ?]. by exists e.
Qed.

Lemma contents_elements bs : NoDup (keys bs) → (map_to_list (contents bs)).*2 ≡ₚ (λ e, e.2.1) <$> concat bs.
Proof.
  intros Hk. unfold contents. rewrite map_to_list_to_map by by rewrite contents_fst. by rewrite <- list_fmap_compose.
Qed.

(** Iterating over the table, with a callback that accumulates into its
    argument and may delete the element it is given, visits every element
    exactly once, touches no freed item, and leaves exactly the elements that
    were not deleted; the array is not resized while the iteration runs. *)
Theorem OPENSSL_lh_doall_arg_visits t m (fuel : nat) (s : S) (Hr : lh_rep t m)
    (Hsz : Z.of_nat (size m) < 2 ^ 58) (Hfuel : (size m ≤ fuel)%nat) :
  match OPENSSL_lh_doall_arg visit fuel s t with
  | None => False
  | Some (s', t') => ∃ ds, ds ≡ₚ (map_to_list m).*2 ∧ s' = foldl f s ds ∧ lh_rep t' (filter (λ kd, p kd.2 = false) m)
  end.
Proof.
  destruct Hr as [Hcd [bs Hr]]. pose proof (rep_map _ _ _ Hr) as ->. pose proof (rep_keys _ _ _ Hr) as Hk.
  eapply (st_mono (OPENSSL_lh_doall_arg visit fuel s) t (λ s' t', s' = foldl f s ((λ e, e.2.1) <$> concat bs) ∧
    lh_rep t' (contents (kept <$> bs)) ∧ NoDup (keys (kept <$> bs)))).
  2: { intros s' t' (-> & Hr' & Hk'). exists ((λ e, e.2.1) <$> concat bs). split_and!; [by rewrite contents_elements|done|].
       by rewrite <- contents_kept. }
  apply st_bind, wp_gets. rewrite Hcd. apply st_bind, wp_modify. apply st_bind, wp_gets. apply st_bind. cbn.
  replace (Z.to_nat (num_buckets (lh t))) with (length bs) by (rewrite (rep_num_buckets _ _ _ Hr); lia).
  eapply (wp_doall_loop bs _ []).
  - by apply rep_depth.
  - done.
  - cbn [app]. lia.
  - by rewrite <- contents_size.
  - intros t1 Hr1 Hcd1. cbn in Hr1, Hcd1. apply st_bind, wp_gets. rewrite Hcd1. apply st_bind, wp_modify. apply st_bind.
    eapply wp_maybe_resize; [|done|].
    + by apply rep_depth.
    + intros t2 bs2 Hr2 Hcd2 _ _. apply st_ret. split_and!; [done| |apply Hr1]. split; [done|]. by exists bs2.
Qed.
End doall_proofs.
End map.

(** A table of integers compared by their last digit, and a hash that takes
    three values only. *)
Definition last_digit (x : Z) : Z := x mod 10.
Definition digit_hash (x : Z) : Z := x mod 10 / 4.
Definition digit_comp (x y : Z) : Z := last_digit x - last_digit y.
Instance digit_callbacks : LhashCallbacks last_digit digit_hash digit_comp.
Proof.
  split; unfold digit_comp, digit_hash, last_digit.
  - intros a b. lia.
  - by intros a b ->.
  - intros d. pose proof (Z.mod_pos_bound d 10 eq_refl). split; [apply Z.div_pos; lia|].
    apply (Z.lt_trans _ 10); [apply Z.div_lt_upper_bound; lia|done].
Qed.

Definition demo_ops : list lh_op := [LInsert 3; LInsert 12; LInsert 23; LDelete 2; LRetrieve 33; LDelete 7].

Lemma lhash_implements_map_witness :
  let l := mkLhash 0 (replicate 16 None) 16 0 in
  match run_ops (A := zero_allocator) (hash := digit_hash) (comp := digit_comp) demo_ops (mkTable l ∅ (0 + 2)) with
  | None => False
  | Some (rs, t) => ∃ m : gmap Z Z, map_steps (key := last_digit) ∅ demo_ops rs m ∧
      OPENSSL_lh_num_items (lh t) = Z.of_nat (size m) ∧ size (items t) = size m ∧
      (∀ d, OPENSSL_lh_retrieve digit_hash digit_comp d t = Some (m !! last_digit d, t)) ∧
      (∃ t', OPENSSL_lh_free t = Some ((), t') ∧ items t' = ∅) ∧
      (NeverFails zero_allocator → Forall (λ r, r.1 = 1) rs ∧ balanced t)
  end.
Proof.
  apply (lhash_implements_map (A := zero_allocator) 0 (mkLhash 0 (replicate 16 None) 16 0) demo_ops); [by vm_compute|done].
Defined.

(** The table after three insertions. *)
Definition demo_table : table Z :=
  match run_ops (A := zero_allocator) (hash := digit_hash) (comp := digit_comp) [LInsert 3; LInsert 12; LInsert 24]
    (mkTable (mkLhash 0 (replicate 16 None) 16 0) ∅ 2) with
  | Some (_, t) => t
  | None => mkTable (mkLhash 0 [] 0 0) ∅ 0
  end.

Definition demo_map : gmap Z Z := {[3 := 3; 2 := 12; 4 := 24]}.

Lemma demo_rep : lh_rep (key := last_digit) (hash := digit_hash) demo_table demo_map.
Proof.
  split; [done|]. exists ([[(0%nat, (3, 0)); (1%nat, (12, 0))]; [(2%nat, (24, 1))]] ++ replicate 14 []).
  split; try (by apply (bool_decide_unpack _); vm_compute).
  - split; [by vm_compute|]. by repeat constructor.
  - intros i l e Hi He.
    do 16 (destruct i as [|i]; [injection Hi as <-; repeat (apply elem_of_cons in He as [->|He]; [done|]); by apply not_elem_of_nil in He|]).
    done.
Qed.

Lemma OPENSSL_lh_doall_arg_visits_witness :
  match OPENSSL_lh_doall_arg (A := zero_allocator) (visit (A := zero_allocator) (hash := digit_hash) (comp := digit_comp) Z.add (λ d, d =? 12)) 3 100 demo_table with
  | None => False
  | Some (s', t') => ∃ ds, ds ≡ₚ (map_to_list demo_map).*2 ∧ s' = foldl Z.add 100 ds ∧
      lh_rep (key := last_digit) (hash := digit_hash) t' (filter (λ kd, (kd.2 =? 12) = false) demo_map)
  end.
Proof.
  apply (OPENSSL_lh_doall_arg_visits (A := zero_allocator) Z.add (λ d, d =? 12) demo_table _ 3 100); [exact demo_rep|done|by vm_compute].
Defined.
