(* ===== verification/Pool.v ===== *)
(** [crypto/pool/pool.c]: reference-counted byte buffers, and the pool that
    shares the buffers with equal contents.

    Buffers live in a store by address.  The pool is a hash table
    ([Lhash]) of their addresses, whose callbacks hash and compare the bytes
    they find in the store: an operation on the table while it holds the
    address of a freed buffer is undefined behaviour.

    The two halves of [crypto_buffer_new] that run under the lock of the pool
    are definitions of their own: other threads can run between them. *)
From S2P Require Import Prelude Mem Cbs State Siphash Refcount Lhash.

Record CRYPTO_BUFFER := mkBuffer {
  pool : bool; (** whether [buf->pool] is the pool or NULL *)
  data : list Z;
  references : Z;
  data_is_static : bool;
}.

Record pool_world := mkPool {
  bufs : gmap loc CRYPTO_BUFFER;
  pool_bufs : table loc;
  pool_hash_key : Z * Z;
}.

Definition sizeof_CRYPTO_BUFFER : Z := 40.

Definition set_bufs (m : gmap loc CRYPTO_BUFFER) (w : pool_world) : pool_world := mkPool m (pool_bufs w) (pool_hash_key w).
Definition set_table (t : table loc) (w : pool_world) : pool_world := mkPool (bufs w) t (pool_hash_key w).
Definition set_references (n : Z) (b : CRYPTO_BUFFER) : CRYPTO_BUFFER := mkBuffer (pool b) (data b) n (data_is_static b).

(** The bytes at an address (those of a freed buffer are never asked for). *)
Definition bytes_at (h : gmap loc CRYPTO_BUFFER) (b : loc) : list Z := default [] (data <$> h !! b).

Definition CRYPTO_BUFFER_hash (hash_key : Z * Z) (h : gmap loc CRYPTO_BUFFER) (buf : loc) : Z :=
  u32 (SIPHASH_24 hash_key (bytes_at h buf)).
Definition CRYPTO_BUFFER_cmp (h : gmap loc CRYPTO_BUFFER) (a b : loc) : Z :=
  if negb (CBS_len (bytes_at h a) =? CBS_len (bytes_at h b)) then 1
  else memcmp (bytes_at h a) (bytes_at h b).

Section pool.
Context {A : Allocator}.
Abbreviation IO := (ST pool_world).

Definition get_buf (b : loc) : IO CRYPTO_BUFFER := deref (λ w, bufs w !! b).
Definition set_buf (b : loc) (x : CRYPTO_BUFFER) : IO unit := modify (λ w, set_bufs (<[b := x]> (bufs w)) w).
Definition free_buf (b : loc) : IO unit := modify (λ w, set_bufs (delete b (bufs w)) w).
Definition new_address : IO loc := gets (λ w, fresh (dom (bufs w))).
(** A clock tick per allocation. *)
Definition pool_allocate {B} (f : nat → option B) : IO (option B) := λ w,
  match allocate f (pool_bufs w) with Some (r, t) => Some (r, set_table t w) | None => None end.

(** A call of the hash table, with the callbacks of the pool. *)
Definition elements_live (w : pool_world) : bool :=
  bool_decide (map_Forall (λ _ it, is_Some (bufs w !! item_data it)) (items (pool_bufs w))).
Definition in_table {B} (m : (loc → Z) → (loc → loc → Z) → ST (table loc) B) : IO B := λ w,
  if elements_live w then
    match m (CRYPTO_BUFFER_hash (pool_hash_key w) (bufs w)) (CRYPTO_BUFFER_cmp (bufs w)) (pool_bufs w) with
    | Some (r, t) => Some (r, set_table t w)
    | None => None
    end
  else None.

Definition refcount_inc (b : loc) : IO unit :=
  x ← get_buf b;
  set_buf b (set_references (refcount_inc_alone (references x)) x).
(** [abort()] is undefined behaviour here. *)
Definition refcount_dec (b : loc) : IO bool :=
  x ← get_buf b;
  '(n, zero) ← deref (λ _, refcount_dec_alone (references x));
  _ ← set_buf b (set_references n x);
  mret zero.

Definition CRYPTO_BUFFER_POOL_new (hash_key : Z * Z) (t0 : nat) : option pool_world :=
  match OPENSSL_zalloc t0 24 with
  | None => None
  | Some _ =>
      match OPENSSL_lh_new (S t0) with
      | None => None
      | Some l => Some (mkPool ∅ (mkTable l ∅ (t0 + 3)) hash_key)
      end
  end.

(** With its (debug) assertion that the pool is empty. *)
Definition CRYPTO_BUFFER_POOL_free : IO unit :=
  n ← gets (λ w, OPENSSL_lh_num_items (lh (pool_bufs w)));
  if negb (n =? 0) then ub else in_table (λ _ _, OPENSSL_lh_free).

(** [OPENSSL_free(buf->data)]: the bytes of a buffer are a part of its record,
    and lost. *)
Definition free_data (buf : loc) : IO unit :=
  x ← get_buf buf;
  set_buf buf (mkBuffer (pool x) [] (references x) (data_is_static x)).

Definition crypto_buffer_free_object (buf : loc) : IO unit :=
  x ← get_buf buf;
  _ ← (if negb (data_is_static x) then free_data buf else mret ());
  free_buf buf.

(** [if (data_is_static && duplicate != NULL && !duplicate->data_is_static)
    duplicate = NULL;] *)
Definition skip_duplicate (is_static : bool) (duplicate : option loc) : IO (option loc) :=
  match duplicate with
  | None => mret None
  | Some d => x ← get_buf d; mret (if is_static && negb (data_is_static x) then None else Some d)
  end.

(** The first half of [crypto_buffer_new], under the read lock; [tmp] is a
    buffer on the stack. *)
Definition crypto_buffer_lookup (bytes : list Z) (is_static : bool) : IO (option loc) :=
  tmp ← new_address;
  _ ← set_buf tmp (mkBuffer true bytes 0 false);
  duplicate ← in_table (λ hash comp, OPENSSL_lh_retrieve hash comp tmp);
  duplicate ← skip_duplicate is_static duplicate;
  _ ← free_buf tmp;
  match duplicate with
  | None => mret None
  | Some d => _ ← refcount_inc d; mret (Some d)
  end.

(** The allocation of the struct and the copy of the bytes. *)
Definition crypto_buffer_alloc (bytes : list Z) (is_static in_pool : bool) : IO (option loc) :=
  block ← pool_allocate (λ t, OPENSSL_zalloc t sizeof_CRYPTO_BUFFER);
  match block with
  | None => mret None
  | Some _ =>
      copy ← (if is_static then mret (Some bytes)
              else
                copy ← pool_allocate (λ t, OPENSSL_memdup t bytes);
                mret (if negb (CBS_len bytes =? 0) && bool_decide (copy = None) then None else Some (default [] copy)));
      match copy with
      | None => mret None
      | Some d =>
          buf ← new_address;
          _ ← set_buf buf (mkBuffer in_pool d 1 is_static);
          mret (Some buf)
      end
  end.

(** The second half, under the write lock: whether [buf] was inserted, and the
    duplicate. *)
Definition crypto_buffer_insert (buf : loc) : IO (bool * option loc) :=
  x ← get_buf buf;
  duplicate ← in_table (λ hash comp, OPENSSL_lh_retrieve hash comp buf);
  duplicate ← skip_duplicate (data_is_static x) duplicate;
  match duplicate with
  | None =>
      '(inserted, _) ← in_table (λ hash comp, OPENSSL_lh_insert hash comp buf);
      mret (negb (inserted =? 0), None)
  | Some d => _ ← refcount_inc d; mret (false, Some d)
  end.

Definition crypto_buffer_new (bytes : list Z) (is_static in_pool : bool) : IO (option loc) :=
  duplicate ← (if in_pool then crypto_buffer_lookup bytes is_static else mret None);
  match duplicate with
  | Some d => mret (Some d)
  | None =>
      buf ← crypto_buffer_alloc bytes is_static in_pool;
      match buf with
      | None => mret None
      | Some buf =>
          if negb in_pool then mret (Some buf)
          else
            '(inserted, duplicate) ← crypto_buffer_insert buf;
            if negb inserted then
              _ ← crypto_buffer_free_object buf;
              mret duplicate
            else mret (Some buf)
      end
  end.

Definition CRYPTO_BUFFER_new (bytes : list Z) (in_pool : bool) : IO (option loc) := crypto_buffer_new bytes false in_pool.
Definition CRYPTO_BUFFER_new_from_CBS (cbs : CBS) (in_pool : bool) : IO (option loc) :=
  CRYPTO_BUFFER_new (CBS_data cbs) in_pool.
Definition CRYPTO_BUFFER_new_from_static_data_unsafe (bytes : list Z) (in_pool : bool) : IO (option loc) :=
  crypto_buffer_new bytes true in_pool.

(** The new buffer holds what [malloc] left in the block. *)
Definition CRYPTO_BUFFER_alloc (len : Z) : IO (option loc) :=
  block ← pool_allocate (λ t, OPENSSL_zalloc t sizeof_CRYPTO_BUFFER);
  match block with
  | None => mret None
  | Some _ =>
      block ← pool_allocate (λ t, OPENSSL_malloc t len);
      if negb (len =? 0) && bool_decide (block = None) then mret None
      else
        buf ← new_address;
        _ ← set_buf buf (mkBuffer false (default [] block) 1 false);
        mret (Some buf)
  end.

(** [CRYPTO_BUFFER_free] up to the release of the object (the part that runs
    under the lock when there is a pool): whether it is to be released. *)
Definition crypto_buffer_drop (buf : loc) : IO bool :=
  x ← get_buf buf;
  zero ← refcount_dec buf;
  if negb (pool x) then mret zero
  else if negb zero then mret false
  else
    found ← in_table (λ hash comp, OPENSSL_lh_retrieve hash comp buf);
    _ ← (if bool_decide (found = Some buf) then in_table (λ hash comp, OPENSSL_lh_delete hash comp buf) else mret None);
    mret true.

Definition CRYPTO_BUFFER_free (buf : option loc) : IO unit :=
  match buf with
  | None => mret ()
  | Some buf =>
      release ← crypto_buffer_drop buf;
      if release : bool then crypto_buffer_free_object buf else mret ()
  end.

Definition CRYPTO_BUFFER_up_ref (buf : loc) : IO Z :=
  _ ← refcount_inc buf;
  mret 1.

Definition CRYPTO_BUFFER_data (buf : loc) : IO (list Z) := x ← get_buf buf; mret (data x).
Definition CRYPTO_BUFFER_len (buf : loc) : IO Z := x ← get_buf buf; mret (CBS_len (data x)).
Definition CRYPTO_BUFFER_init_CBS (buf : loc) : IO CBS := x ← get_buf buf; mret (data x).
End pool.
