(* ===== verification/PoolSpec.v ===== *)
(** The rules of [Pool]: what each operation does to the store of buffers and
    to the finite map, from bytes to addresses, that the pool implements. *)
From S2P Require Import Prelude Mem Cbs State Siphash Refcount Lhash LhashMap Pool.

(** ** The table while the store changes

    The callbacks look at the store of buffers.  A table stays a table for
    the callbacks of another store that agrees on its elements. *)
Section ext.
Context {D K : Type} `{Countable K}.

Lemma rep_ext (key key' : D → K) (hash hash' : D → Z) t bs m :
  rep (key := key) (hash := hash) t bs m →
  (∀ k d, m !! k = Some d → key' d = key d ∧ hash' d = hash d) →
  rep (key := key') (hash := hash') t bs m.
Proof.
  intros [Hc Hnd Hdom Hnb Hmin Hni Hp Hk Hm] Hagree.
  assert (He : ∀ e, e ∈ concat bs → key' e.2.1 = key e.2.1 ∧ hash' e.2.1 = hash e.2.1).
  { intros e He. apply (Hagree (key e.2.1)). rewrite Hm. apply contents_lookup; [done|]. by exists e. }
  assert (Hext : ∀ (B : Type) (f g : loc * (D * Z) → B), (∀ e, e ∈ concat bs → f e = g e) → f <$> concat bs = g <$> concat bs).
  { intros B f g Hfg. apply list_fmap_ext. intros i e Hi. apply Hfg. by eapply list_elem_of_lookup_2. }
  split; try done.
  - intros i l e Hi Hel. destruct (Hp i l e Hi Hel) as [Hh Hb]. split; [|done].
    destruct (He e) as [_ ->]; [by eapply elem_of_bucket|done].
  - unfold keys in *. by rewrite (Hext _ _ (λ e, key e.2.1)) by (intros; by apply He).
  - rewrite Hm. unfold contents. f_equal. symmetry. apply Hext. intros e Hel. by destruct (He e Hel) as [-> _].
Qed.

Lemma rep_item (key : D → K) (hash : D → Z) t bs m a it :
  rep (key := key) (hash := hash) t bs m → items t !! a = Some it → ∃ k, m !! k = Some (item_data it).
Proof.
  intros [Hc Hnd Hdom Hnb Hmin Hni Hp Hk Hm] Hit.
  assert (Ha : a ∈ dom (items t)) by by eapply elem_of_dom_2.
  rewrite Hdom, elem_of_list_to_set, list_elem_of_fmap in Ha. destruct Ha as (e & -> & He).
  destruct (elem_of_concat _ _ He) as (i & l & Hi & Hl). pose proof (Forall_lookup_1 _ _ _ _ (proj2 Hc) Hi) as Hlk.
  apply list_elem_of_split in Hl as (l1 & l2 & ->). apply linked_mid in Hlk. rewrite Hlk in Hit. injection Hit as <-.
  exists (key e.2.1). rewrite Hm. apply contents_lookup; [done|]. by exists e.
Qed.
End ext.

#[export] Instance pool_callbacks hk h :
  LhashCallbacks (bytes_at h) (CRYPTO_BUFFER_hash hk h) (CRYPTO_BUFFER_cmp h).
Proof.
  split.
  - intros a b. unfold CRYPTO_BUFFER_cmp. destruct (Z.eqb_spec (CBS_len (bytes_at h a)) (CBS_len (bytes_at h b))) as [E|Hne]; cbn [negb].
    + apply memcmp_eq. unfold CBS_len in E. lia.
    + split; [done|]. by intros E; rewrite E in Hne.
  - intros a b E. unfold CRYPTO_BUFFER_hash. by rewrite E.
  - intros a. unfold CRYPTO_BUFFER_hash. by apply wrap_range.
Qed.

Section spec.
Context {A : Allocator}.
Implicit Types (w : pool_world) (m : gmap (list Z) loc) (b : loc) (x : CRYPTO_BUFFER) (h : gmap loc CRYPTO_BUFFER).

(** The pool of [w] is the map [m], whose addresses are live. *)
Record table_ok w m : Prop := {
  table_rep : lh_rep (key := bytes_at (bufs w)) (hash := CRYPTO_BUFFER_hash (pool_hash_key w) (bufs w)) (pool_bufs w) m;
  table_live k b : m !! k = Some b → ∃ x, bufs w !! b = Some x ∧ data x = k;
}.

Lemma bytes_at_live h b x : h !! b = Some x → bytes_at h b = data x.
Proof. unfold bytes_at. by intros ->. Qed.

(** The store may change as long as the bytes of the elements do not. *)
Lemma table_ok_bufs w m h :
  table_ok w m → (∀ k b x, m !! k = Some b → bufs w !! b = Some x → ∃ x', h !! b = Some x' ∧ data x' = data x) →
  table_ok (set_bufs h w) m.
Proof.
  intros [[Hd [bs Hr]] Hl] Hh. split.
  - split; [done|]. exists bs. eapply rep_ext; [done|]. intros k b Hb. destruct (Hl k b Hb) as (x & Hx & _).
    destruct (Hh k b x Hb Hx) as (x' & Hx' & E). cbn [set_bufs bufs pool_hash_key]. unfold CRYPTO_BUFFER_hash.
    rewrite (bytes_at_live _ _ _ Hx), (bytes_at_live _ _ _ Hx'), E. done.
  - intros k b Hb. destruct (Hl k b Hb) as (x & Hx & <-). by apply (Hh (data x)).
Qed.

Lemma table_ok_insert w m b x : table_ok w m → bufs w !! b = None → table_ok (set_bufs (<[b := x]> (bufs w)) w) m.
Proof.
  intros Ht Hb. apply table_ok_bufs; [done|]. intros k b' x' _ Hx'. exists x'. rewrite lookup_insert_ne; [done|congruence].
Qed.

Lemma table_ok_delete w m b : table_ok w m → (∀ k, m !! k ≠ Some b) → table_ok (set_bufs (delete b (bufs w)) w) m.
Proof.
  intros Ht Hb. apply table_ok_bufs; [done|]. intros k b' x' Hk Hx'. exists x'. rewrite lookup_delete_ne; [done|congruence].
Qed.

Lemma table_ok_references w m b x n : table_ok w m → bufs w !! b = Some x →
  table_ok (set_bufs (<[b := set_references n x]> (bufs w)) w) m.
Proof.
  intros Ht Hb. apply table_ok_bufs; [done|]. intros k b' x' _ Hx'. destruct (decide (b' = b)) as [->|].
  - simplify_eq. eexists. rewrite lookup_insert_eq. split; [done|]. done.
  - exists x'. by rewrite lookup_insert_ne.
Qed.

Lemma elements_live_ok w m : table_ok w m → elements_live w = true.
Proof.
  intros [[_ [bs Hr]] Hl]. apply bool_decide_eq_true. intros a it Hit.
  destruct (rep_item _ _ _ _ _ _ _ Hr Hit) as [k Hk]. destruct (Hl _ _ Hk) as (x & Hx & _). by exists x.
Qed.

Lemma wp_in_table {B} (f : (loc → Z) → (loc → loc → Z) → ST (table loc) B) w m (Q : B → pool_world → Prop) :
  table_ok w m →
  wp (f (CRYPTO_BUFFER_hash (pool_hash_key w) (bufs w)) (CRYPTO_BUFFER_cmp (bufs w))) (pool_bufs w) (λ r t, Q r (set_table t w)) →
  wp (in_table f) w Q.
Proof. intros Ht. unfold wp, in_table. rewrite (elements_live_ok w m Ht). by destruct (f _ _ _) as [[??]|]. Qed.

Lemma set_table_same w : set_table (pool_bufs w) w = w.
Proof. by destruct w. Qed.
Lemma set_bufs_same w : set_bufs (bufs w) w = w.
Proof. by destruct w. Qed.

Lemma wp_pool_retrieve w m b x (Q : option loc → pool_world → Prop) :
  table_ok w m → bufs w !! b = Some x → Q (m !! data x) w → wp (in_table (λ hash comp, OPENSSL_lh_retrieve hash comp b)) w Q.
Proof.
  intros Ht Hb HQ. eapply wp_in_table; [done|]. destruct Ht as [[_ [bs Hr]] _].
  eapply wp_retrieve; [done|]. by rewrite set_table_same, (bytes_at_live _ _ _ Hb).
Qed.

Lemma wp_get_buf w b x (Q : CRYPTO_BUFFER → pool_world → Prop) : bufs w !! b = Some x → Q x w → wp (get_buf b) w Q.
Proof. intros. by eapply wp_deref. Qed.

Definition upd_references b n x w : pool_world := set_bufs (<[b := set_references n x]> (bufs w)) w.

Lemma wp_refcount_inc w b x (Q : unit → pool_world → Prop) :
  bufs w !! b = Some x → Q () (upd_references b (refcount_inc_alone (references x)) x w) → wp (refcount_inc b) w Q.
Proof. intros Hb HQ. apply st_bind. eapply wp_get_buf; [done|]. by apply wp_modify. Qed.

(** Which duplicate is used. *)
Definition usable (is_static : bool) h (o : option loc) : option loc :=
  b ← o; x ← h !! b; if is_static && negb (data_is_static x) then None else Some b.

Lemma wp_skip_duplicate w m k st (Q : option loc → pool_world → Prop) :
  table_ok w m → Q (usable st (bufs w) (m !! k)) w → wp (skip_duplicate st (m !! k)) w Q.
Proof.
  intros Ht HQ. destruct (m !! k) as [b|] eqn:Hk; [|by apply st_ret]. destruct (table_live _ _ Ht _ _ Hk) as (x & Hx & _).
  apply st_bind. eapply wp_get_buf; [done|]. apply st_ret. unfold usable in HQ. cbn in HQ. by rewrite Hx in HQ.
Qed.

Lemma usable_Some st h o b : usable st h o = Some b → o = Some b ∧ ∃ x, h !! b = Some x ∧ (st = true → data_is_static x = true).
Proof.
  unfold usable. destruct o as [b'|]; [|done]. cbn. destruct (h !! b') as [x|] eqn:Hx; [|done]. cbn.
  destruct st, (data_is_static x) eqn:E; cbn; intros [= <-]; split; try done; by exists x.
Qed.

(** ** The first half of [crypto_buffer_new] *)
Lemma wp_lookup w m bytes st (Q : option loc → pool_world → Prop) :
  table_ok w m →
  (usable st (bufs w) (m !! bytes) = None → Q None w) →
  (∀ b x, m !! bytes = Some b → usable st (bufs w) (m !! bytes) = Some b → bufs w !! b = Some x → data x = bytes →
     Q (Some b) (upd_references b (refcount_inc_alone (references x)) x w)) →
  wp (crypto_buffer_lookup bytes st) w Q.
Proof.
  intros Ht Hnone Hsome. apply st_bind, wp_gets. set (tmp := fresh (dom (bufs w))).
  assert (Htmp : bufs w !! tmp = None) by (apply not_elem_of_dom, is_fresh).
  set (x0 := mkBuffer true bytes 0 false). apply st_bind, wp_modify.
  assert (Ht' : table_ok (set_bufs (<[tmp := x0]> (bufs w)) w) m) by by apply table_ok_insert.
  apply st_bind. eapply (wp_pool_retrieve _ m tmp x0); [done|apply lookup_insert_eq|]. cbn [data x0].
  apply st_bind. eapply wp_skip_duplicate; [done|]. cbn [bufs set_bufs].
  assert (Eu : usable st (<[tmp := x0]> (bufs w)) (m !! bytes) = usable st (bufs w) (m !! bytes)).
  { destruct (m !! bytes) as [b|] eqn:Hb; [|done]. destruct (table_live _ _ Ht _ _ Hb) as (x & Hx & _).
    unfold usable. cbn. by rewrite lookup_insert_ne by congruence. }
  rewrite Eu. apply st_bind, wp_modify. cbn [bufs set_bufs].
  assert (Ew : set_bufs (delete tmp (<[tmp := x0]> (bufs w))) (set_bufs (<[tmp := x0]> (bufs w)) w) = w).
  { rewrite delete_insert_id by done. by destruct w. }
  rewrite Ew. clear Ew Eu. destruct (usable st (bufs w) (m !! bytes)) as [b|] eqn:Hu; [|by apply st_ret, Hnone].
  apply usable_Some in Hu as Hu'. destruct Hu' as (Hb & x & Hx & _). destruct (table_live _ _ Ht _ _ Hb) as (x' & Hx' & E).
  simplify_eq. apply st_bind. eapply wp_refcount_inc; [done|]. apply st_ret. by apply Hsome.
Qed.

(** ** The second half *)
Lemma wp_insert_buffer w m b x (Q : bool * option loc → pool_world → Prop) :
  table_ok w m → bufs w !! b = Some x → Z.of_nat (size m) < 2 ^ 64 - 1 →
  (∀ d y, m !! data x = Some d → usable (data_is_static x) (bufs w) (m !! data x) = Some d → bufs w !! d = Some y → data y = data x →
     Q (false, Some d) (upd_references d (refcount_inc_alone (references y)) y w)) →
  (∀ t, usable (data_is_static x) (bufs w) (m !! data x) = None → table_ok (set_table t w) (<[data x := b]> m) → Q (true, None) (set_table t w)) →
  (∀ t, usable (data_is_static x) (bufs w) (m !! data x) = None → table_ok (set_table t w) m → Q (false, None) (set_table t w)) →
  wp (crypto_buffer_insert b) w Q.
Proof.
  intros Ht Hb Hsz Hdup Hins Hfail. apply st_bind. eapply wp_get_buf; [done|]. apply st_bind.
  eapply wp_pool_retrieve; [done|done|]. apply st_bind. eapply wp_skip_duplicate; [done|].
  destruct (usable (data_is_static x) (bufs w) (m !! data x)) as [d|] eqn:Hu.
  { apply usable_Some in Hu as Hu'. destruct Hu' as (Hd & y & Hy & _). destruct (table_live _ _ Ht _ _ Hd) as (y' & Hy' & E).
    simplify_eq. apply st_bind. eapply wp_refcount_inc; [done|]. apply st_ret. by apply Hdup. }
  apply st_bind. eapply wp_in_table; [done|]. destruct Ht as [[Hcd [bs Hr]] Hl].
  eapply wp_insert; [done|lia|done|]. intros t bs' ok Hr' Hcd' _ _. rewrite (bytes_at_live _ _ _ Hb) in Hr'.
  apply st_ret. destruct ok; cbn [Z.eqb negb].
  - apply Hins; [done|]. split; [split; [cbn; lia|by exists bs']|]. cbn [set_table bufs]. intros k b' Hk.
    destruct (decide (k = data x)) as [->|]; [rewrite lookup_insert_eq in Hk; simplify_eq; by exists x|].
    rewrite lookup_insert_ne in Hk by done. by apply Hl.
  - apply Hfail; [done|]. split; [split; [cbn; lia|by exists bs']|done].
Qed.

(** ** Dropping a reference *)
Lemma wp_drop w m b x n zero (Q : bool → pool_world → Prop) :
  table_ok w m → bufs w !! b = Some x → Z.of_nat (size m) < 2 ^ 64 - 1 →
  refcount_dec_alone (references x) = Some (n, zero) →
  (pool x = false ∨ zero = false → Q zero (upd_references b n x w)) →
  (∀ t, pool x = true → zero = true →
     let m' := if bool_decide (m !! data x = Some b) then delete (data x) m else m in
     table_ok (set_table t (upd_references b n x w)) m' → Q true (set_table t (upd_references b n x w))) →
  wp (crypto_buffer_drop b) w Q.
Proof.
  intros Ht Hb Hsz Hdec Hleft Hzero. apply st_bind. eapply wp_get_buf; [done|]. unfold refcount_dec. apply st_bind.
  apply st_bind. eapply wp_get_buf; [done|]. apply st_bind. eapply wp_deref; [done|]. apply st_bind, wp_modify, st_ret.
  fold (upd_references b n x w). destruct (pool x) eqn:Ep; cbn [negb]; [|apply st_ret; auto].
  destruct zero; cbn [negb]; [|apply st_ret; auto].
  assert (Ht' : table_ok (upd_references b n x w) m) by by apply table_ok_references.
  assert (Hb' : bufs (upd_references b n x w) !! b = Some (set_references n x)) by apply lookup_insert_eq.
  apply st_bind. eapply wp_pool_retrieve; [done|done|]. cbn [data set_references].
  specialize (Hzero). destruct (decide (m !! data x = Some b)) as [Hm|Hm].
  - rewrite (bool_decide_eq_true_2 _ Hm) in *. apply st_bind. eapply wp_in_table; [done|]. destruct Ht' as [[Hcd [bs Hr]] Hl].
    eapply wp_delete; [done|lia|lia|]. intros t bs' Hr' Hcd' _ _. rewrite (bytes_at_live _ _ _ Hb') in Hr'. cbn [data set_references] in Hr'.
    apply st_ret, Hzero; [done..|]. split; [split; [cbn; lia|by exists bs']|]. cbn [set_table bufs]. intros k b' Hk.
    apply lookup_delete_Some in Hk as [_ Hk]. by apply Hl.
  - rewrite (bool_decide_eq_false_2 _ Hm) in *. apply st_bind, st_ret, st_ret.
    rewrite <- (set_table_same (upd_references b n x w)). apply Hzero; [done..|]. by rewrite set_table_same.
Qed.

(** ** Allocation *)
Lemma table_ok_clock w m c : table_ok w m → table_ok (set_table (mkTable (lh (pool_bufs w)) (items (pool_bufs w)) c) w) m.
Proof. intros [[Hd [bs []]] Hl]. split; [|done]. split; [done|]. by exists bs. Qed.

Lemma wp_pool_allocate {B} (f : nat → option B) w m (Q : option B → pool_world → Prop) :
  table_ok w m → (∀ t, table_ok (set_table t w) m → Q (f (clock (pool_bufs w))) (set_table t w)) →
  wp (pool_allocate f) w Q.
Proof. intros Ht HQ. unfold wp, pool_allocate, allocate. cbn. apply HQ. by apply table_ok_clock. Qed.

Lemma OPENSSL_memdup_Some t bytes copy : CBS_len bytes < 2 ^ 64 → OPENSSL_memdup t bytes = Some copy → copy = bytes.
Proof.
  unfold OPENSSL_memdup, CBS_len. intros Hlen. destruct (Z.of_nat (length bytes) =? 0); [done|].
  destruct (OPENSSL_malloc t (Z.of_nat (length bytes))) as [ret|] eqn:E; [|done]. intros [= <-].
  apply OPENSSL_malloc_length in E; [|lia]. rewrite drop_ge by lia. by rewrite app_nil_r.
Qed.

Lemma wp_buffer_alloc w m bytes st p (Q : option loc → pool_world → Prop) :
  table_ok w m → CBS_len bytes < 2 ^ 64 →
  (∀ t, table_ok (set_table t w) m → Q None (set_table t w)) →
  (∀ t b, table_ok (set_table t w) m → bufs w !! b = None →
     Q (Some b) (set_bufs (<[b := mkBuffer p bytes 1 st]> (bufs w)) (set_table t w))) →
  wp (crypto_buffer_alloc bytes st p) w Q.
Proof.
  intros Ht Hlen Hnone Hsome. apply st_bind. eapply wp_pool_allocate; [done|]. intros t Ht1.
  destruct (OPENSSL_zalloc _ _) as [blk|]; [|by apply st_ret, Hnone].
  assert (Hfresh : bufs w !! fresh (dom (bufs w)) = None) by apply not_elem_of_dom, is_fresh.
  apply st_bind. destruct st.
  { apply st_ret, st_bind, wp_gets, st_bind, wp_modify, st_ret. by apply Hsome. }
  apply st_bind. eapply wp_pool_allocate; [done|]. intros t' Ht2. apply st_ret.
  destruct (OPENSSL_memdup (clock (pool_bufs (set_table t w))) bytes) as [copy|] eqn:Ec.
  - rewrite bool_decide_eq_false_2, andb_false_r by done. apply OPENSSL_memdup_Some in Ec as ->; [|done].
    apply st_bind, wp_gets, st_bind, wp_modify, st_ret. by apply (Hsome t').
  - rewrite bool_decide_eq_true_2, andb_true_r by done. destruct (Z.eqb_spec (CBS_len bytes) 0) as [E|]; cbn [negb].
    + assert (bytes = []) as -> by (destruct bytes; [done|unfold CBS_len in E; cbn in E; lia]).
      apply st_bind, wp_gets, st_bind, wp_modify, st_ret. by apply (Hsome t').
    + apply st_ret. by apply (Hnone t').
Qed.

Lemma wp_free_object w b x (Q : unit → pool_world → Prop) :
  bufs w !! b = Some x → Q () (set_bufs (delete b (bufs w)) w) → wp (crypto_buffer_free_object b) w Q.
Proof.
  intros Hb HQ. apply st_bind. eapply wp_get_buf; [done|]. apply st_bind. destruct (data_is_static x); cbn [negb].
  - apply st_ret, wp_modify, HQ.
  - apply st_bind. eapply wp_get_buf; [done|]. apply wp_modify, wp_modify. cbn.
    unfold set_bufs in *. cbn in *. by rewrite delete_insert_eq.
Qed.
End spec.
