(* ===== verification/PoolRun.v ===== *)
(** The pool used by several threads.  What runs under its lock is one step
    ([crypto_buffer_lookup] only reads the table, its increment is atomic);
    the steps of the threads interleave in any order. *)
From S2P Require Import Prelude Mem Cbs State Refcount Lhash LhashMap Pool PoolSpec.

(** Where a thread is: between calls; in [crypto_buffer_new] after a lookup
    without success, with its new buffer, or having lost the race with the
    buffer it will return; in [CRYPTO_BUFFER_free] after the last reference
    has been dropped. *)
Inductive pool_pc :=
  | PIdle
  | PMissed (bytes : list Z) (is_static : bool)
  | PNew (b : loc) (bytes : list Z)
  | PLost (b : loc) (bytes : list Z) (duplicate : option loc)
  | PRelease (b : loc).

(** [owned]: the references a thread owns, with the bytes it has asked for. *)
Record pthread := mkPThread { ppc : pool_pc; owned : list (loc * list Z) }.

(** What a thread may do next. *)
Inductive pool_action :=
  | ALookup (bytes : list Z) (is_static : bool)
  | AAlloc
  | AInsert
  | ADiscard
  | ANewUnpooled (bytes : list Z) (is_static : bool)
  | AUpRef (b : loc) (bytes : list Z)
  | AFree (i : nat)
  | ARelease.

Section system.
Context {A : Allocator}.

(** The step of an action, [None] if the thread cannot take it now.  A thread
    uses only references that it owns. *)
Definition pool_act (a : pool_action) (t : pthread) : option (ST pool_world pthread) :=
  match a, ppc t with
  | ALookup bytes st, PIdle => Some (
      r ← crypto_buffer_lookup bytes st;
      mret match r with
           | Some b => mkPThread PIdle ((b, bytes) :: owned t)
           | None => mkPThread (PMissed bytes st) (owned t)
           end)
  | AAlloc, PMissed bytes st => Some (
      r ← crypto_buffer_alloc bytes st true;
      mret match r with
           | Some b => mkPThread (PNew b bytes) (owned t)
           | None => mkPThread PIdle (owned t)
           end)
  | AInsert, PNew b bytes => Some (
      '(inserted, duplicate) ← crypto_buffer_insert b;
      mret (if inserted : bool then mkPThread PIdle ((b, bytes) :: owned t)
            else mkPThread (PLost b bytes duplicate) (owned t)))
  | ADiscard, PLost b bytes duplicate => Some (
      _ ← crypto_buffer_free_object b;
      mret (mkPThread PIdle (match duplicate with Some d => (d, bytes) :: owned t | None => owned t end)))
  | ANewUnpooled bytes st, PIdle => Some (
      r ← crypto_buffer_new bytes st false;
      mret match r with
           | Some b => mkPThread PIdle ((b, bytes) :: owned t)
           | None => t
           end)
  | AUpRef b bytes, PIdle =>
      if bool_decide ((b, bytes) ∈ owned t) then Some (
        _ ← CRYPTO_BUFFER_up_ref b;
        mret (mkPThread PIdle ((b, bytes) :: owned t)))
      else None
  | AFree i, PIdle =>
      match owned t !! i with
      | Some (b, _) => Some (
          release ← crypto_buffer_drop b;
          mret (mkPThread (if release : bool then PRelease b else PIdle) (delete i (owned t))))
      | None => None
      end
  | ARelease, PRelease b => Some (
      _ ← crypto_buffer_free_object b;
      mret (mkPThread PIdle (owned t)))
  | _, _ => None
  end.

(** The lengths are of type [size_t]; buffers over static data are made only
    where they are allowed. *)
Definition action_ok (allow_static : bool) (a : pool_action) : Prop :=
  match a with
  | ALookup bytes st | ANewUnpooled bytes st => CBS_len bytes < 2 ^ 64 ∧ (allow_static = false → st = false)
  | _ => True
  end.

Definition pool_system : Type := pool_world * list pthread.

(** The memory has room for fewer than 2^63 buffers. *)
Definition fits (w : pool_world) : Prop := Z.of_nat (size (bufs w)) < 2 ^ 63.

Inductive pool_step (allow_static : bool) : pool_system → pool_system → Prop :=
  | do_action a i t m t' w w' ts :
      ts !! i = Some t → pool_act a t = Some m → action_ok allow_static a →
      fits w → m w = Some (t', w') → pool_step allow_static (w, ts) (w', <[i := t']> ts).
End system.

(** ** What the threads hold *)
Definition held (t : pthread) : list (loc * list Z) :=
  match ppc t with
  | PNew b d => [(b, d)]
  | PLost b d o => (b, d) :: match o with Some r => [(r, d)] | None => [] end
  | _ => []
  end ++ owned t.
(** Buffers that no other thread has seen yet. *)
Definition private (t : pthread) : list loc :=
  match ppc t with PNew b _ | PLost b _ _ => [b] | _ => [] end.
(** Buffers about to be freed. *)
Definition releasing (t : pthread) : list loc := match ppc t with PRelease b => [b] | _ => [] end.

Definition refs_of (b : loc) (H : list (loc * list Z)) : nat := length (filter (λ x, x.1 = b) H).

Lemma refs_of_cons b x H : refs_of b (x :: H) = ((if decide (x.1 = b) then 1 else 0) + refs_of b H)%nat.
Proof. unfold refs_of. rewrite filter_cons. by destruct (decide (x.1 = b)). Qed.

Lemma refs_of_elem b d H : (b, d) ∈ H → (1 ≤ refs_of b H)%nat.
Proof.
  intros Hb. unfold refs_of. assert (Hf : (b, d) ∈ filter (λ x, x.1 = b) H) by by apply list_elem_of_filter.
  destruct (filter _ _); [set_solver|cbn; lia].
Qed.

Lemma refs_of_0 b H : refs_of b H = 0%nat ↔ ∀ d, (b, d) ∉ H.
Proof.
  split.
  - intros H0 d Hb. pose proof (refs_of_elem _ _ _ Hb). lia.
  - intros Hb. unfold refs_of. destruct (filter (λ x, x.1 = b) H) as [|[b' d] l] eqn:E; [done|].
    assert (Hf : (b', d) ∈ filter (λ x, x.1 = b) H) by (rewrite E; left).
    apply list_elem_of_filter in Hf as [<- Hf]. by destruct (Hb d).
Qed.

#[export] Instance refs_of_proper b : Proper ((≡ₚ) ==> (=)) (refs_of b).
Proof. intros H H' Hp. unfold refs_of. by rewrite Hp. Qed.

Abbreviation MAX := CRYPTO_REFCOUNT_MAX.

Section inv.
Context {A : Allocator} (allow_static : bool).
Implicit Types (w : pool_world) (m : gmap (list Z) loc) (b : loc) (x : CRYPTO_BUFFER).
Implicit Types (H : list (loc * list Z)) (P L : list loc).

(** The state in terms of the references held [H], the private buffers [P], the
    buffers about to be freed [L], and the map [m] of the pool. *)
Record pool_inv w H P L m : Prop := {
  pi_table : table_ok w m;
  pi_map k b : m !! k = Some b → b ∉ P ∧ ∃ x, bufs w !! b = Some x ∧ references x ≠ 0 ∧ pool x = true;
  pi_held b d : (b, d) ∈ H → ∃ x, bufs w !! b = Some x ∧ data x = d;
  pi_refs b x : bufs w !! b = Some x →
    references x = MAX ∨ references x = Z.of_nat (refs_of b H) ∧ Z.of_nat (refs_of b H) < MAX;
  pi_private b : b ∈ P → refs_of b H = 1%nat ∧ ∃ x, bufs w !! b = Some x ∧ references x = 1 ∧ pool x = true;
  pi_releasing b : b ∈ L → ∃ x, bufs w !! b = Some x ∧ references x = 0;
  pi_releasing_once : NoDup L;
  pi_reach b x : bufs w !! b = Some x → references x = 0 → b ∈ L;
  pi_private_once : NoDup P;
  pi_shared : allow_static = false →
    (∀ b d x, (b, d) ∈ H → b ∉ P → bufs w !! b = Some x → pool x = true → m !! d = Some b) ∧
    (∀ b x, bufs w !! b = Some x → data_is_static x = false);
}.

#[export] Instance pool_inv_proper w :
  Proper ((≡ₚ) ==> (≡ₚ) ==> (≡ₚ) ==> (=) ==> (iff)) (pool_inv w).
Proof.
  assert (Himp : ∀ H H' P P' L L' m, H ≡ₚ H' → P ≡ₚ P' → L ≡ₚ L' → pool_inv w H P L m → pool_inv w H' P' L' m).
  { intros H H' P P' L L' m EH EP EL [? Hm Hh Hr Hp Hl Hlo Hre Hpo Hs]. split; try done.
    - intros k b Hk. destruct (Hm k b Hk). by rewrite <- EP.
    - intros b d. rewrite <- EH. apply Hh.
    - intros b x. rewrite <- EH. apply Hr.
    - intros b. rewrite <- EH, <- EP. apply Hp.
    - intros b. rewrite <- EL. apply Hl.
    - by rewrite <- EL.
    - intros b x. rewrite <- EL. apply Hre.
    - by rewrite <- EP.
    - intros Ha. destruct (Hs Ha) as [Hs1 Hs2]. split; [|done]. intros b d x. rewrite <- EH, <- EP. apply Hs1. }
  intros H H' EH P P' EP L L' EL m m' <-. split; by apply Himp.
Qed.

(** The count after an increment and a decrement. *)
Lemma refcount_inc_count n c : n = MAX ∨ n = Z.of_nat c ∧ Z.of_nat c < MAX →
  refcount_inc_alone n = MAX ∨ refcount_inc_alone n = Z.of_nat (S c) ∧ Z.of_nat (S c) < MAX.
Proof.
  change MAX with (2 ^ 32 - 1). unfold refcount_inc_alone, CRYPTO_refcount_inc, compare_exchange_weak.
  change CRYPTO_REFCOUNT_MAX with (2 ^ 32 - 1). rewrite Z.eqb_refl. cbn [andb negb].
  destruct (Z.eqb_spec n (2 ^ 32 - 1)); cbn [negb fst]; [auto|]. intros [?|[-> ?]]; [done|].
  rewrite wrap_small by lia. lia.
Qed.

Lemma refcount_dec_count n c : (1 ≤ c)%nat → n = MAX ∨ n = Z.of_nat c ∧ Z.of_nat c < MAX →
  ∃ n' zero, refcount_dec_alone n = Some (n', zero) ∧
    (n' = MAX ∨ n' = Z.of_nat (pred c) ∧ Z.of_nat (pred c) < MAX) ∧ zero = bool_decide (n' = 0).
Proof.
  change MAX with (2 ^ 32 - 1). unfold refcount_dec_alone, CRYPTO_refcount_dec_and_test_zero, compare_exchange_weak.
  change CRYPTO_REFCOUNT_MAX with (2 ^ 32 - 1). rewrite Z.eqb_refl. cbn [andb negb]. intros Hc Hn.
  destruct (Z.eqb_spec n 0); [lia|]. destruct (Z.eqb_spec n (2 ^ 32 - 1)).
  { exists n, false. split_and!; [done|by left|]. symmetry. apply bool_decide_eq_false_2. lia. }
  rewrite wrap_small by lia. eexists _, _. split_and!; [done|lia|].
  destruct (Z.eqb_spec (n - 1) 0); symmetry; [by apply bool_decide_eq_true_2|by apply bool_decide_eq_false_2].
Qed.

(** The map has no more elements than there are buffers. *)
Lemma map_fits w H P L m : pool_inv w H P L m → fits w → Z.of_nat (size m) < 2 ^ 64 - 1.
Proof.
  intros Hi Hf. enough (size m ≤ size (bufs w))%nat by (unfold fits in Hf; lia).
  rewrite <- (length_map_to_list m), <- (size_dom (bufs w)). rewrite <- (length_fmap snd).
  assert (Hnd : NoDup (map_to_list m).*2).
  { apply NoDup_fmap_2_strong; [|apply NoDup_map_to_list]. intros [k b] [k' b'] Hk Hk'. cbn. intros <-.
    apply elem_of_map_to_list in Hk, Hk'. destruct (table_live _ _ (pi_table _ _ _ _ _ Hi) _ _ Hk) as (x & Hx & <-).
    destruct (table_live _ _ (pi_table _ _ _ _ _ Hi) _ _ Hk') as (x' & Hx' & <-). by simplify_eq. }
  rewrite <- (size_list_to_set (C := gset loc)) by done. apply subseteq_size. intros b.
  rewrite elem_of_list_to_set, list_elem_of_fmap. intros ([k b'] & -> & Hk). apply elem_of_map_to_list in Hk.
  destruct (table_live _ _ (pi_table _ _ _ _ _ Hi) _ _ Hk) as (x & Hx & _). by eapply elem_of_dom_2.
Qed.

Lemma bufs_upd w b n x b' : bufs (upd_references b n x w) !! b' =
  if decide (b' = b) then Some (set_references n x) else bufs w !! b'.
Proof.
  unfold upd_references. cbn [set_bufs bufs]. destruct (decide (b' = b)) as [->|]; [apply lookup_insert_eq|].
  by rewrite lookup_insert_ne.
Qed.

(** *** The transitions *)

(** A reference is taken to a buffer that is not private. *)
Lemma inv_take w H P L m b x :
  pool_inv w H P L m → bufs w !! b = Some x → references x ≠ 0 → b ∉ P →
  (m !! data x = Some b ∨ (b, data x) ∈ H) →
  pool_inv (upd_references b (refcount_inc_alone (references x)) x w) ((b, data x) :: H) P L m.
Proof.
  intros [Ht Hm Hh Hr Hp Hl Hlo Hre Hpo Hs] Hb Hnz HbP Hsrc.
  pose proof (refcount_inc_count _ _ (Hr _ _ Hb)) as Hinc.
  assert (Hnz' : refcount_inc_alone (references x) ≠ 0) by (change MAX with (2 ^ 32 - 1) in *; lia).
  assert (Hother : ∀ b' y, bufs w !! b' = Some y → ∃ y', bufs (upd_references b (refcount_inc_alone (references x)) x w) !! b' = Some y' ∧
    data y' = data y ∧ pool y' = pool y ∧ data_is_static y' = data_is_static y ∧ (b' ≠ b → y' = y) ∧ (references y' = 0 ↔ references y = 0)).
  { intros b' y Hy. rewrite bufs_upd. destruct (decide (b' = b)) as [->|]; [simplify_eq; by eexists|by exists y]. }
  split; try done.
  - by apply table_ok_references.
  - intros k b' Hk. destruct (Hm k b' Hk) as (? & y & Hy & Hny & Hpy). split; [done|]. destruct (Hother _ _ Hy) as (y' & Hy' & _ & Ep & _ & _ & E).
    exists y'. rewrite E, Ep. done.
  - intros b' d Hbd. apply elem_of_cons in Hbd as [[= -> ->]|Hbd].
    + destruct (Hother _ _ Hb) as (y' & Hy' & E & _). by exists y'.
    + destruct (Hh b' d Hbd) as (y & Hy & <-). destruct (Hother _ _ Hy) as (y' & Hy' & E & _). by exists y'.
  - intros b' y. rewrite bufs_upd, refs_of_cons. cbn [fst]. destruct (decide (b' = b)) as [->|Hne].
    + intros [= <-]. cbn [set_references references]. by rewrite decide_True.
    + rewrite decide_False by done. apply Hr.
  - intros b' Hb'. rewrite refs_of_cons. cbn [fst]. rewrite decide_False by congruence. destruct (Hp b' Hb') as (E & y & Hy & ?).
    split; [done|]. exists y. rewrite bufs_upd, decide_False by congruence. done.
  - intros b' Hb'. destruct (Hl b' Hb') as (y & Hy & E). destruct (Hother _ _ Hy) as (y' & Hy' & _ & _ & _ & _ & E'). exists y'. by rewrite E'.
  - intros b' y. rewrite bufs_upd. destruct (decide (b' = b)); [|apply Hre]. by intros [= <-].
  - intros Ha. destruct (Hs Ha) as [Hs1 Hs2]. split.
    + intros b' d y Hbd HbP' Hy Hpy. rewrite bufs_upd in Hy.
      assert (∃ z, bufs w !! b' = Some z ∧ pool z = true) as (z & Hz & Hpz).
      { destruct (decide (b' = b)) as [->|]; [simplify_eq; by exists x|by exists y]. }
      apply elem_of_cons in Hbd as [[= -> ->]|Hbd]; [|by eapply Hs1]. destruct Hsrc as [|Hsrc]; [done|].
      eapply Hs1; eauto.
    + intros b' y. rewrite bufs_upd. destruct (decide (b' = b)) as [->|]; [|apply Hs2]. intros [= <-]. by apply (Hs2 b x).
Qed.

(** A new buffer, private when it is to go to the pool. *)
Lemma inv_new w H P L m t b x :
  pool_inv w H P L m → bufs w !! b = None → table_ok (set_table t w) m → references x = 1 →
  (allow_static = false → data_is_static x = false) →
  pool_inv (set_bufs (<[b := x]> (bufs w)) (set_table t w)) ((b, data x) :: H) (if pool x then b :: P else P) L m.
Proof.
  intros [Ht Hm Hh Hr Hp Hl Hlo Hre Hpo Hs] Hb Ht' Hx Hst.
  assert (Hlook : ∀ b' y, bufs w !! b' = Some y → b' ≠ b ∧ <[b := x]> (bufs w) !! b' = Some y).
  { intros b' y Hy. assert (b' ≠ b) by congruence. by rewrite lookup_insert_ne. }
  assert (HbH : refs_of b H = 0%nat) by (apply refs_of_0; intros d (y & Hy & _)%Hh; congruence).
  assert (HbP : b ∉ P) by (intros (_ & y & Hy & _)%Hp; congruence).
  assert (Hsub : ∀ b', b' ≠ b → b' ∈ (if pool x then b :: P else P) ↔ b' ∈ P) by (intros b' Hne; destruct (pool x); set_solver).
  split; cbn [set_bufs bufs set_table]; try done.
  - apply (table_ok_insert (set_table t w)); done.
  - intros k b' Hk. destruct (Hm k b' Hk) as (HP & y & Hy & ?). destruct (Hlook _ _ Hy). rewrite Hsub by done. eauto.
  - intros b' d Hbd. apply elem_of_cons in Hbd as [[= -> ->]|Hbd]; [exists x; by rewrite lookup_insert_eq|].
    destruct (Hh b' d Hbd) as (y & Hy & <-). destruct (Hlook _ _ Hy). by exists y.
  - intros b' y Hy. rewrite refs_of_cons. cbn [fst]. destruct (decide (b = b')) as [<-|Hne].
    + rewrite lookup_insert_eq in Hy. injection Hy as <-. right. rewrite HbH, Hx. change MAX with (2 ^ 32 - 1). lia.
    + rewrite lookup_insert_ne in Hy by done. by apply Hr.
  - intros b' Hb'. rewrite refs_of_cons. cbn [fst]. destruct (decide (b = b')) as [<-|Hne].
    + rewrite HbH. split; [done|]. exists x. rewrite lookup_insert_eq. destruct (pool x); done.
    + apply Hsub in Hb'; [|done]. destruct (Hp b' Hb') as (E & y & Hy & ?). destruct (Hlook _ _ Hy). eauto.
  - intros b' Hb'. destruct (Hl b' Hb') as (y & Hy & E). destruct (Hlook _ _ Hy). eauto.
  - intros b' y Hy Hy0. destruct (decide (b = b')) as [<-|Hne]; [rewrite lookup_insert_eq in Hy; simplify_eq; lia|].
    rewrite lookup_insert_ne in Hy by done. by eapply Hre.
  - destruct (pool x); [by constructor|done].
  - intros Ha. destruct (Hs Ha) as [Hs1 Hs2]. split.
    + intros b' d y Hbd HbP' Hy Hpy. destruct (decide (b = b')) as [<-|Hne].
      * rewrite lookup_insert_eq in Hy. simplify_eq. rewrite Hpy in HbP'. set_solver.
      * rewrite lookup_insert_ne in Hy by done. apply elem_of_cons in Hbd as [[= -> ->]|Hbd]; [done|].
        eapply Hs1; [done| |done|done]. by rewrite <- Hsub.
    + intros b' y Hy. destruct (decide (b = b')) as [<-|Hne]; [rewrite lookup_insert_eq in Hy; simplify_eq; auto|].
      rewrite lookup_insert_ne in Hy by done. by eapply Hs2.
Qed.

(** The table changes behind the same map. *)
Lemma inv_table w H P L m t : pool_inv w H P L m → table_ok (set_table t w) m → pool_inv (set_table t w) H P L m.
Proof. by intros [] ?; split. Qed.

(** A private buffer enters the pool. *)
Lemma inv_publish w H P L m t b x :
  pool_inv w H (b :: P) L m → bufs w !! b = Some x → table_ok (set_table t w) (<[data x := b]> m) →
  usable (data_is_static x) (bufs w) (m !! data x) = None →
  pool_inv (set_table t w) H P L (<[data x := b]> m).
Proof.
  intros [Ht Hm Hh Hr Hp Hl Hlo Hre Hpo Hs] Hb Ht' Hu. apply NoDup_cons in Hpo as [HbP Hpo].
  destruct (Hp b) as (Hb1 & x' & Hx' & Hx1 & Hxp); [left|]. assert (x' = x) as -> by congruence.
  split; cbn [set_table bufs]; try done.
  - intros k b' Hk. destruct (decide (k = data x)) as [->|Hne].
    + rewrite lookup_insert_eq in Hk. injection Hk as <-. split; [done|]. exists x. split_and!; [done|lia|done].
    + rewrite lookup_insert_ne in Hk by done. destruct (Hm k b' Hk) as (? & ?). set_solver.
  - intros b' Hb'. apply Hp. by right.
  - intros Ha. destruct (Hs Ha) as [Hs1 Hs2]. split; [|done].
    assert (Hnone : m !! data x = None).
    { destruct (m !! data x) as [b'|] eqn:E; [|done]. destruct (Hm _ _ E) as (_ & y & Hy & _).
      unfold usable in Hu. cbn in Hu. rewrite Hy, (Hs2 b x Hb) in Hu. done. }
    intros b' d y Hbd HbP' Hy Hpy. destruct (decide (b' = b)) as [->|Hne].
    + destruct (Hh b d Hbd) as (z & Hz & <-). assert (z = x) as -> by congruence. apply lookup_insert_eq.
    + assert (Hd : m !! d = Some b') by (eapply Hs1; [done|set_solver|done|done]).
      rewrite lookup_insert_ne; [done|congruence].
Qed.

(** A buffer that nobody can reach is freed. *)
Lemma inv_delete w H0 H P P' L L' m b :
  pool_inv w H0 P L m → H0 = H ∨ (∃ d, H0 = (b, d) :: H) → refs_of b H = 0%nat → (∀ k, m !! k ≠ Some b) →
  (∀ b', b' ∈ P' ↔ b' ∈ P ∧ b' ≠ b) → NoDup P' → (∀ b', b' ∈ L' ↔ b' ∈ L ∧ b' ≠ b) → NoDup L' →
  pool_inv (set_bufs (delete b (bufs w)) w) H P' L' m.
Proof.
  intros [Ht Hm Hh Hr Hp Hl Hlo Hre Hpo Hs] HH H0b Hbm HP HP' HL HL'.
  assert (HbH : ∀ d, (b, d) ∉ H) by by apply refs_of_0.
  assert (Hin : ∀ b' d, (b', d) ∈ H → b' ≠ b ∧ (b', d) ∈ H0).
  { intros b' d Hbd. split; [intros ->; by apply (HbH d)|]. destruct HH as [->|[d' ->]]; [done|by right]. }
  assert (Hrefs : ∀ b', b' ≠ b → refs_of b' H0 = refs_of b' H).
  { intros b' Hne. destruct HH as [->|[d' ->]]; [done|]. rewrite refs_of_cons. cbn [fst]. by rewrite decide_False by done. }
  split; cbn [set_bufs bufs]; try done.
  - by apply table_ok_delete.
  - intros k b' Hk. destruct (Hm k b' Hk) as (? & y & Hy). split; [by rewrite HP; intros [? _]|]. exists y.
    rewrite lookup_delete_ne; [done|]. intros <-. by apply (Hbm k).
  - intros b' d Hbd. apply Hin in Hbd as [Hne Hbd]. destruct (Hh b' d Hbd) as (y & Hy). exists y. by rewrite lookup_delete_ne.
  - intros b' y [? Hy]%lookup_delete_Some. rewrite <- Hrefs by done. by apply Hr.
  - intros b' Hb'. apply HP in Hb' as [Hb' Hne]. destruct (Hp b' Hb') as (E & y & Hy). rewrite Hrefs in E by done.
    split; [done|]. exists y. by rewrite lookup_delete_ne.
  - intros b' Hb'. apply HL in Hb' as [Hb' Hne]. destruct (Hl b' Hb') as (y & Hy). exists y. by rewrite lookup_delete_ne.
  - intros b' y [? Hy]%lookup_delete_Some Hy0. apply HL. split; [by eapply Hre|done].
  - intros Ha. destruct (Hs Ha) as [Hs1 Hs2]. split.
    + intros b' d y Hbd HbP [? Hy]%lookup_delete_Some Hpy. apply Hin in Hbd as [Hne Hbd]. eapply Hs1; [done| |done|done].
      intros Hb'. apply HbP, HP. done.
    + intros b' y [? Hy]%lookup_delete_Some. by eapply Hs2.
Qed.

(** A reference is dropped: others are left, or the buffer leaves the pool and
    is about to be freed. *)
Lemma inv_drop w H P L m b d x n :
  pool_inv w ((b, d) :: H) P L m → b ∉ P → bufs w !! b = Some x →
  (n = MAX ∨ n = Z.of_nat (refs_of b H) ∧ Z.of_nat (refs_of b H) < MAX) →
  ∀ t m' L',
  (n ≠ 0 ∧ L' = L ∧ m' = m ∧ t = pool_bufs w) ∨ (n = 0 ∧ L' = b :: L ∧ (∀ k, m' !! k = if decide (m !! k = Some b) then None else m !! k)) →
  table_ok (set_table t (upd_references b n x w)) m' →
  pool_inv (set_table t (upd_references b n x w)) H P L' m'.
Proof.
  intros [Ht Hm Hh Hr Hp Hl Hlo Hre Hpo Hs] HbP Hb Hn t m' L' Hcase Ht'.
  assert (Hmsub : ∀ k b', m' !! k = Some b' → m !! k = Some b' ∧ (n = 0 → b' ≠ b)).
  { intros k b' Hk. destruct Hcase as [(? & _ & -> & _)|(_ & _ & E)]; [done|]. rewrite E in Hk.
    destruct (decide (m !! k = Some b)); [done|]. split; [done|]. intros _ ->. done. }
  assert (Hx0 : references x ≠ 0).
  { destruct (Hr b x Hb) as [->|[-> _]]; [done|]. rewrite refs_of_cons. cbn [fst]. rewrite decide_True by done. lia. }
  assert (HbL : b ∉ L) by (intros (y & Hy & E)%Hl; congruence).
  assert (H0 : n = 0 → refs_of b H = 0%nat) by (change MAX with (2 ^ 32 - 1) in *; lia).
  assert (Hrefs : ∀ b', b' ≠ b → refs_of b' ((b, d) :: H) = refs_of b' H).
  { intros b' Hne. rewrite refs_of_cons. cbn [fst]. by rewrite decide_False by done. }
  split; cbn [set_table bufs]; try done.
  - intros k b' Hk. destruct (Hmsub _ _ Hk) as [Hk' Hne]. destruct (Hm k b' Hk') as (? & y & Hy & Hy0 & Hyp). split; [done|].
    rewrite bufs_upd. destruct (decide (b' = b)) as [->|]; [|by exists y]. eexists. split; [done|]. cbn.
    split; [intros E; by destruct (Hne E)|]. by simplify_eq.
  - intros b' d' Hbd. destruct (Hh b' d') as (y & Hy & <-); [by right|]. rewrite bufs_upd.
    destruct (decide (b' = b)) as [->|]; [eexists; split; [done|]; by simplify_eq|by exists y].
  - intros b' y. rewrite bufs_upd. destruct (decide (b' = b)) as [->|Hne]; [by intros [= <-]|].
    intros Hy. rewrite <- (Hrefs b') by done. by apply Hr.
  - intros b' Hb'. assert (b' ≠ b) by congruence. destruct (Hp b' Hb') as (E & y & Hy & ?). rewrite Hrefs in E by done.
    split; [done|]. exists y. rewrite bufs_upd. by rewrite decide_False.
  - intros b' Hb'. rewrite bufs_upd. destruct Hcase as [(_ & -> & _)|(Hn0 & -> & _)].
    + rewrite decide_False by congruence. by apply Hl.
    + apply elem_of_cons in Hb' as [->|Hb']; [rewrite decide_True by done; by eexists|]. rewrite decide_False by congruence. by apply Hl.
  - destruct Hcase as [(_ & -> & _)|(_ & -> & _)]; [done|by constructor].
  - intros b' y. rewrite bufs_upd. destruct (decide (b' = b)) as [->|Hne].
    + intros [= <-] Hn0. cbn in Hn0. destruct Hcase as [(? & _)|(_ & -> & _)]; [done|left].
    + intros Hy Hy0. specialize (Hre _ _ Hy Hy0). destruct Hcase as [(_ & -> & _)|(_ & -> & _)]; [done|by right].
  - intros Ha. destruct (Hs Ha) as [Hs1 Hs2]. split.
    + intros b' d' y Hbd HbP' Hy Hpy. rewrite bufs_upd in Hy.
      assert (Hd' : m !! d' = Some b').
      { destruct (decide (b' = b)) as [->|]; [|eapply Hs1; [by right|done|done|done]].
        eapply (Hs1 b d' x); [by right|done|done|]. by simplify_eq. }
      destruct Hcase as [(_ & _ & -> & _)|(Hn0 & _ & E)]; [done|]. rewrite E. destruct (decide (m !! d' = Some b)) as [Hd|]; [|done].
      assert (b' = b) as -> by congruence. apply H0 in Hn0. pose proof (refs_of_elem _ _ _ Hbd). lia.
    + intros b' y. rewrite bufs_upd. destruct (decide (b' = b)) as [->|]; [|apply Hs2]. intros [= <-]. by apply (Hs2 b x).
Qed.

(** *** The operations on a state with the invariant *)
Lemma inv_lookup w H P L m bytes st :
  pool_inv w H P L m →
  wp (crypto_buffer_lookup bytes st) w (λ r w', ∃ m', pool_inv w' (match r with Some b => [(b, bytes)] | None => [] end ++ H) P L m').
Proof.
  intros Hi. eapply wp_lookup; [by apply Hi|intros _; by exists m|]. intros b x Hb _ Hx <-.
  destruct (pi_map _ _ _ _ _ Hi _ _ Hb) as (HP & y & Hy & Hy0 & _). assert (y = x) as -> by congruence.
  exists m. apply inv_take; auto.
Qed.

Lemma inv_alloc w H P L m bytes st (p : bool) :
  pool_inv w H P L m → CBS_len bytes < 2 ^ 64 → (allow_static = false → st = false) →
  wp (crypto_buffer_alloc bytes st p) w (λ r w',
    match r with
    | Some b => pool_inv w' ((b, bytes) :: H) (if p then b :: P else P) L m
    | None => pool_inv w' H P L m
    end).
Proof.
  intros Hi Hlen Hst. eapply wp_buffer_alloc; [by apply Hi|done|intros t Ht; by apply inv_table|]. intros t b Ht Hb.
  by apply (inv_new w H P L m t b (mkBuffer p bytes 1 st)).
Qed.

Lemma inv_insert w H P L m b d :
  pool_inv w ((b, d) :: H) (b :: P) L m → fits w →
  wp (crypto_buffer_insert b) w (λ r w', ∃ m',
    let '(inserted, o) := r in
    if inserted : bool then pool_inv w' ((b, d) :: H) P L m'
    else pool_inv w' (match o with Some r => [(r, d)] | None => [] end ++ (b, d) :: H) (b :: P) L m').
Proof.
  intros Hi Hf. pose proof (map_fits _ _ _ _ _ Hi Hf). destruct (pi_held _ _ _ _ _ Hi b d) as (x & Hx & <-); [left|].
  eapply wp_insert_buffer; [by apply Hi|done|done| | |].
  - intros b' y Hb' Hu Hy Ey. exists m. destruct (pi_map _ _ _ _ _ Hi _ _ Hb') as (HP & z & Hz & Hz0 & _).
    assert (z = y) as -> by congruence. rewrite <- Ey in *. apply inv_take; auto.
  - intros t Hu Ht. exists (<[data x := b]> m). by apply inv_publish.
  - intros t _ Ht. exists m. by apply inv_table.
Qed.

Lemma inv_discard w H P L m b d :
  pool_inv w ((b, d) :: H) (b :: P) L m →
  wp (crypto_buffer_free_object b) w (λ _ w', pool_inv w' H P L m).
Proof.
  intros Hi. destruct (pi_private _ _ _ _ _ Hi b) as (E & x & Hx & Hx1 & _); [left|].
  rewrite refs_of_cons in E. cbn [fst] in E. rewrite decide_True in E by done.
  pose proof (pi_private_once _ _ _ _ _ Hi) as [Hb HP]%NoDup_cons.
  assert (HbL : b ∉ L) by (intros (y & Hy & E')%(pi_releasing _ _ _ _ _ Hi); simplify_eq; lia).
  eapply wp_free_object; [done|]. eapply (inv_delete w _ H (b :: P) P L L m b); [done|by right; exists d|lia| | |done| |by apply Hi].
  - intros k (Hbad & _)%(pi_map _ _ _ _ _ Hi). apply Hbad. left.
  - intros b'. rewrite elem_of_cons. naive_solver.
  - naive_solver.
Qed.

Lemma inv_release w H P L m b :
  pool_inv w H P (b :: L) m → wp (crypto_buffer_free_object b) w (λ _ w', pool_inv w' H P L m).
Proof.
  intros Hi. destruct (pi_releasing _ _ _ _ _ Hi b) as (x & Hx & Hx0); [left|].
  pose proof (pi_releasing_once _ _ _ _ _ Hi) as [Hb HL]%NoDup_cons.
  assert (HbP : b ∉ P) by (intros (_ & y & Hy & ? & _)%(pi_private _ _ _ _ _ Hi); simplify_eq; lia).
  eapply wp_free_object; [done|]. eapply (inv_delete w _ H P P (b :: L) L m b); [done|by left| | | |by apply Hi| |done].
  - destruct (pi_refs _ _ _ _ _ Hi _ _ Hx) as [?|[? _]]; [change MAX with (2 ^ 32 - 1) in *; lia|lia].
  - intros k (_ & y & Hy & ? & _)%(pi_map _ _ _ _ _ Hi). by simplify_eq.
  - naive_solver.
  - intros b'. rewrite elem_of_cons. naive_solver.
Qed.

Lemma inv_up_ref w H P L m b d :
  pool_inv w H P L m → (b, d) ∈ H → b ∉ P →
  wp (CRYPTO_BUFFER_up_ref b) w (λ _ w', pool_inv w' ((b, d) :: H) P L m).
Proof.
  intros Hi Hbd HbP. destruct (pi_held _ _ _ _ _ Hi b d Hbd) as (x & Hx & <-). apply st_bind. eapply wp_refcount_inc; [done|].
  apply st_ret. apply inv_take; auto. pose proof (refs_of_elem _ _ _ Hbd).
  destruct (pi_refs _ _ _ _ _ Hi _ _ Hx) as [?|[? _]]; [change MAX with (2 ^ 32 - 1) in *|]; lia.
Qed.

Lemma inv_free w H P L m b d :
  pool_inv w ((b, d) :: H) P L m → b ∉ P → fits w →
  wp (crypto_buffer_drop b) w (λ release w', ∃ m', pool_inv w' H P (if release then b :: L else L) m').
Proof.
  intros Hi HbP Hf. pose proof (map_fits _ _ _ _ _ Hi Hf). destruct (pi_held _ _ _ _ _ Hi b d) as (x & Hx & <-); [left|].
  pose proof (pi_refs _ _ _ _ _ Hi b x Hx) as Hr. destruct (refcount_dec_count (references x) (refs_of b ((b, data x) :: H)))
    as (n & zero & E & Hn & ->); [eapply refs_of_elem; left|done|].
  assert (Hp : pred (refs_of b ((b, data x) :: H)) = refs_of b H) by (rewrite refs_of_cons; cbn [fst]; by rewrite decide_True).
  rewrite Hp in Hn. pose proof (pi_table _ _ _ _ _ Hi) as Ht.
  eapply wp_drop; [done|done|done|done| |].
  - intros Hcase. exists m. rewrite <- (set_table_same (upd_references b n x w)).
    eapply (inv_drop w H P L m b); [done..| |rewrite set_table_same; by apply table_ok_references].
    destruct (decide (n = 0)) as [->|Hn0]; [rewrite bool_decide_eq_true_2 in * by done|left; by rewrite bool_decide_eq_false_2 by done].
    right. split_and!; [done|done|]. intros k. destruct (decide (m !! k = Some b)) as [Hk|]; [|done]. exfalso.
    destruct (pi_map _ _ _ _ _ Hi _ _ Hk) as (_ & y & Hy & _ & Hpy). destruct Hcase as [Hc|Hc]; [congruence|done].
  - intros t Hpool Hz. cbv zeta. intros Ht'. apply bool_decide_eq_true in Hz as Hn0. eexists.
    eapply (inv_drop w H P L m b); [done..| |exact Ht'].
    right. split_and!; [done|done|]. intros k. destruct (decide (m !! data x = Some b)) as [Hm|Hm].
    + rewrite bool_decide_eq_true_2 by done. destruct (decide (k = data x)) as [->|Hk].
      * rewrite lookup_delete_eq. by rewrite decide_True.
      * rewrite lookup_delete_ne by done. destruct (decide (m !! k = Some b)) as [Hkb|]; [|done].
        destruct (table_live _ _ Ht _ _ Hkb) as (y & Hy & <-). by simplify_eq.
    + rewrite bool_decide_eq_false_2 by done. destruct (decide (m !! k = Some b)) as [Hkb|]; [|done].
      destruct (table_live _ _ Ht _ _ Hkb) as (y & Hy & <-). by simplify_eq.
Qed.

(** The whole calls, when they are not interrupted. *)
Lemma crypto_buffer_new_spec w H P L m bytes st (p : bool) :
  pool_inv w H P L m → fits w → CBS_len bytes < 2 ^ 64 → (allow_static = false → st = false) →
  (∀ w' x b, bufs w !! b = None → bufs w' = <[b := x]> (bufs w) → fits w') →
  wp (crypto_buffer_new bytes st p) w (λ r w', ∃ m',
    pool_inv w' (match r with Some b => [(b, bytes)] | None => [] end ++ H) P L m').
Proof.
  intros Hi Hf Hlen Hst Hroom. unfold crypto_buffer_new. apply st_bind.
  apply (st_mono _ _ (λ r w', ∃ m', pool_inv w' (match r with Some b => [(b, bytes)] | None => [] end ++ H) P L m' ∧ (r = None → bufs w' = bufs w))).
  { destruct p; [|apply st_ret; by exists m]. eapply wp_lookup; [by apply Hi|intros _; by exists m|]. intros b x Hb _ Hx <-.
    destruct (pi_map _ _ _ _ _ Hi _ _ Hb) as (HP & y & Hy & Hy0 & _). assert (y = x) as -> by congruence.
    exists m. split; [apply inv_take; auto|done]. }
  intros [b|] w1 (m1 & Hi1 & Hw1); [apply st_ret; by exists m1|]. cbn [app] in Hi1. specialize (Hw1 eq_refl). apply st_bind.
  eapply wp_buffer_alloc; [by apply Hi1|done| |].
  { intros t Ht. apply st_ret. exists m1. by apply inv_table. }
  intros t b Ht Hb. pose proof (inv_new w1 H P L m1 t b (mkBuffer p bytes 1 st) Hi1 Hb Ht eq_refl Hst) as Hi2.
  destruct p; cbn [negb]; [|apply st_ret; by exists m1]. cbn [pool data] in Hi2. apply st_bind.
  eapply st_mono; [eapply inv_insert; [done|]|].
  { eapply (Hroom _ _ b); [by rewrite <- Hw1|]. cbn. by rewrite Hw1. }
  intros [[|] o] w3 (m3 & Hi3); cbn [negb]; [apply st_ret; by exists m3|].
  apply st_bind. destruct o as [r|]; cbn [app] in Hi3.
  - eapply pool_inv_proper in Hi3; [|apply Permutation_swap|done..]. eapply st_mono; [by eapply inv_discard|].
    intros [] w4 Hi4. apply st_ret. by exists m3.
  - eapply st_mono; [by eapply inv_discard|]. intros [] w4 Hi4. apply st_ret. by exists m3.
Qed.

Lemma CRYPTO_BUFFER_free_spec w H P L m b d :
  pool_inv w ((b, d) :: H) P L m → b ∉ P → fits w →
  wp (CRYPTO_BUFFER_free (Some b)) w (λ _ w', ∃ m', pool_inv w' H P L m').
Proof.
  intros Hi HbP Hf. apply st_bind. eapply st_mono; [by eapply inv_free|]. intros [|] w' (m' & Hi'); [|apply st_ret; by exists m'].
  eapply st_mono; [by eapply inv_release|]. intros [] w2 Hi2. by exists m'.
Qed.

(** ** The threads *)
Definition all_held (ts : list pthread) : list (loc * list Z) := concat (held <$> ts).
Definition all_private (ts : list pthread) : list loc := concat (private <$> ts).
Definition all_releasing (ts : list pthread) : list loc := concat (releasing <$> ts).

(** The call a thread is in was allowed. *)
Definition pthread_ok (t : pthread) : Prop :=
  match ppc t with
  | PMissed bytes st => CBS_len bytes < 2 ^ 64 ∧ (allow_static = false → st = false)
  | _ => True
  end.

Definition system_inv (s : pool_system) : Prop :=
  Forall pthread_ok s.2 ∧ ∃ m, pool_inv s.1 (all_held s.2) (all_private s.2) (all_releasing s.2) m.

Lemma concat_update {B} (f : pthread → list B) ts1 t ts2 :
  concat (f <$> ts1 ++ t :: ts2) ≡ₚ f t ++ concat (f <$> ts1 ++ ts2).
Proof. rewrite !fmap_app, fmap_cons, !concat_app. cbn [concat]. solve_Permutation. Qed.

Lemma private_held t b : b ∈ private t → ∃ d, (b, d) ∈ held t.
Proof.
  unfold private, held. destruct (ppc t) as [| | b' d|b' d o|]; intros Hb; try (by apply elem_of_nil in Hb);
    apply list_elem_of_singleton in Hb as ->; exists d; left.
Qed.

(** The rest of the threads, as thread [i] changes. *)
Lemma split_threads ts i t : ts !! i = Some t →
  ∃ RH RP RL, (∀ b, b ∈ RP → ∃ d, (b, d) ∈ RH) ∧
    ∀ t', all_held (<[i := t']> ts) ≡ₚ held t' ++ RH ∧ all_private (<[i := t']> ts) ≡ₚ private t' ++ RP ∧
          all_releasing (<[i := t']> ts) ≡ₚ releasing t' ++ RL.
Proof.
  intros Hi. pose proof (lookup_lt_Some _ _ _ Hi). set (R := take i ts ++ drop (S i) ts).
  exists (concat (held <$> R)), (concat (private <$> R)), (concat (releasing <$> R)). split.
  - intros b Hb. apply list_elem_of_In, in_concat in Hb as (l & Hl & Hb). apply list_elem_of_In, list_elem_of_fmap in Hl as (u & -> & Hu).
    apply list_elem_of_In, private_held in Hb as [d Hd]. exists d. apply list_elem_of_In, in_concat. exists (held u).
    split; [|by apply list_elem_of_In]. by apply list_elem_of_In, list_elem_of_fmap_2.
  - intros t'. rewrite insert_take_drop by done. split_and!; apply concat_update.
Qed.

(** A reference of a thread that is between calls is not to a private buffer. *)
Lemma owned_not_private w own RH RP L m b d :
  pool_inv w (own ++ RH) RP L m → (∀ b, b ∈ RP → ∃ d, (b, d) ∈ RH) → (b, d) ∈ own → b ∉ RP.
Proof.
  intros Hi HRP Hb HbP. destruct (HRP b HbP) as [d' Hd']. destruct (pi_private _ _ _ _ _ Hi b HbP) as [E _].
  unfold refs_of in E. rewrite filter_app, length_app in E. fold (refs_of b own) (refs_of b RH) in E.
  pose proof (refs_of_elem _ _ _ Hb). pose proof (refs_of_elem _ _ _ Hd'). lia.
Qed.

Lemma act_inv w ts i t a act :
  system_inv (w, ts) → ts !! i = Some t → pool_act a t = Some act → action_ok allow_static a → fits w →
  wp act w (λ t' w', system_inv (w', <[i := t']> ts)).
Proof.
  intros [Hok [m Hm]] Hi Ha Hact Hfit. cbn [fst snd] in *. pose proof (Forall_lookup_1 _ _ _ _ Hok Hi) as Hti.
  destruct (split_threads ts i t Hi) as (RH & RP & RL & HRP & Hsplit).
  pose proof (Hsplit t) as (EH & EP & EL). rewrite list_insert_id in EH, EP, EL by done. rewrite EH, EP, EL in Hm. clear EH EP EL.
  assert (Hdone : ∀ w' m' t', pthread_ok t' → pool_inv w' (held t' ++ RH) (private t' ++ RP) (releasing t' ++ RL) m' →
    system_inv (w', <[i := t']> ts)).
  { intros w' m' t' Ht' Hinv. split; [by apply Forall_insert|]. exists m'. cbn [fst snd]. destruct (Hsplit t') as (-> & -> & ->). done. }
  destruct t as [pc own]. unfold held, private, releasing in Hm. cbn [ppc owned] in *.
  destruct a as [bytes st|  | | |bytes st|b bytes|j|], pc as [|bytes' st'|b' d|b' d o|b']; cbn in Ha; try discriminate Ha;
    repeat case_match; simplify_eq; apply st_bind; cbn [app] in Hm.
  - eapply st_mono; [by eapply inv_lookup|]. intros [b|] w' [m' Hm']; apply st_ret; by eapply Hdone.
  - eapply st_mono; [eapply inv_alloc; [exact Hm|apply Hti..]|]. intros [b|] w' Hm'; apply st_ret; by eapply Hdone.
  - eapply st_mono; [by eapply inv_insert|]. intros [[|] o] w' [m' Hm']; apply st_ret; eapply Hdone; try done.
    eapply pool_inv_proper; [|done..|exact Hm']. unfold held. cbn [ppc owned]. destruct o; cbn; [|done]. apply Permutation_swap.
  - eapply st_mono; [by eapply inv_discard|]. intros [] w' Hm'. apply st_ret. by eapply Hdone.
  - eapply st_mono; [by eapply inv_discard|]. intros [] w' Hm'. apply st_ret. by eapply Hdone.
  - apply st_bind, st_ret, st_bind. eapply st_mono; [eapply (inv_alloc _ _ _ _ _ _ _ false); [exact Hm|apply Hact..]|].
    intros [b|] w' Hm'; apply st_ret; by eapply Hdone.
  - match goal with H : bool_decide _ = true |- _ => apply bool_decide_eq_true in H as Hb end.
    eapply st_mono; [eapply (inv_up_ref _ _ _ _ _ b bytes); [done|by apply elem_of_app; left|by eapply owned_not_private]|].
    intros r w' Hm'. apply st_ret. eapply Hdone; [done|exact Hm'].
  - match goal with H : own !! j = Some (?b, ?d) |- _ => rename H into Hj end. pose proof (delete_Permutation _ _ _ Hj) as Hperm.
    eapply st_mono; [eapply inv_free; [by rewrite Hperm in Hm|eapply owned_not_private; [done|done|by eapply list_elem_of_lookup_2]|done]|].
    intros [|] w' [m' Hm']; apply st_ret; by eapply Hdone.
  - eapply st_mono; [by eapply inv_release|]. intros [] w' Hm'. apply st_ret. by eapply Hdone.
Qed.
End inv.

(** ** Results *)
Section results.
Context {A : Allocator}.

Definition idle : pthread := mkPThread PIdle [].

(** A new pool and [n] threads without references. *)
Definition pool_start (hash_key : Z * Z) (t0 n : nat) (s : pool_system) : Prop :=
  CRYPTO_BUFFER_POOL_new hash_key t0 = Some s.1 ∧ s.2 = replicate n idle.

Lemma start_inv allow_static hk t0 n s : pool_start hk t0 n s → system_inv allow_static s.
Proof.
  destruct s as [w ts]. intros [Hnew Hts]. unfold CRYPTO_BUFFER_POOL_new in Hnew. cbn [fst snd] in *. subst ts.
  destruct (OPENSSL_zalloc t0 24); [|done]. destruct (OPENSSL_lh_new (S t0)) as [tbl|] eqn:El; [|done]. injection Hnew as <-.
  assert (E : ∀ B (f : pthread → list B), f idle = [] → concat (f <$> replicate n idle) = []).
  { intros B f Hf. rewrite fmap_replicate, Hf. clear. by induction n. }
  split; [by apply Forall_replicate|]. exists ∅. cbn [fst snd]. unfold all_held, all_private, all_releasing. rewrite !E by done.
  split; cbn [bufs]; try done; try set_solver; try (intros; by rewrite lookup_empty in *); try constructor.
  - by eapply new_rep.
  - intros k b Hb. by rewrite lookup_empty in Hb.
Qed.

Lemma step_system_inv allow_static s s' : system_inv allow_static s → pool_step allow_static s s' → system_inv allow_static s'.
Proof.
  intros Hi Hs. destruct Hs as [a i t m t' w w' ts Ht Ha Hact Hf E]. pose proof (act_inv _ _ _ _ _ _ _ Hi Ht Ha Hact Hf) as Hw.
  unfold wp in Hw. by rewrite E in Hw.
Qed.

Lemma reachable_system_inv allow_static hk t0 n s s' :
  pool_start hk t0 n s → rtc (pool_step allow_static) s s' → system_inv allow_static s'.
Proof.
  intros Hst Hs. apply (start_inv allow_static) in Hst. induction Hs; [done|]. eauto using step_system_inv.
Qed.

Lemma owned_held ts i t b d : ts !! i = Some t → (b, d) ∈ owned t → (b, d) ∈ all_held ts.
Proof.
  intros Hi Hb. unfold all_held. apply list_elem_of_In, in_concat. exists (held t). split.
  - apply list_elem_of_In, list_elem_of_fmap_2. by eapply list_elem_of_lookup_2.
  - apply list_elem_of_In. unfold held. apply elem_of_app. by right.
Qed.

Lemma owned_shared allow_static w ts m i t b d :
  pool_inv allow_static w (all_held ts) (all_private ts) (all_releasing ts) m → ts !! i = Some t → (b, d) ∈ owned t → b ∉ all_private ts.
Proof.
  intros Hi Ht Hb HP. destruct (pi_private _ _ _ _ _ _ Hi b HP) as [E _].
  destruct (split_threads ts i t Ht) as (RH & RP & RL & HRP & Hsplit). destruct (Hsplit t) as (EH & EP & _).
  rewrite list_insert_id in EH, EP by done. rewrite EH in E. rewrite EP in HP. unfold held in E.
  unfold refs_of in E. rewrite !filter_app, !length_app in E. fold (refs_of b (owned t)) (refs_of b RH) in E.
  pose proof (refs_of_elem _ _ _ Hb). apply elem_of_app in HP as [HP|HP].
  - assert (Hpc : ∃ d', (b, d') ∈ match ppc t with PNew b d => [(b, d)] | PLost b d o => (b, d) :: match o with Some r => [(r, d)] | None => [] end | _ => [] end).
    { unfold private in HP. destruct (ppc t); try (by apply elem_of_nil in HP); apply list_elem_of_singleton in HP as ->; eexists; left. }
    destruct Hpc as [d' Hd']. apply refs_of_elem in Hd'. unfold refs_of in Hd'. lia.
  - destruct (HRP b HP) as [d' Hd']. apply refs_of_elem in Hd'. lia.
Qed.

(** C12: buffers shared through a pool are safe under every interleaving of the
    threads that use it.  No step has undefined behaviour; a reference that a
    thread owns leads to a buffer with the bytes the thread asked for; the
    count of a buffer is the number of references to it, or is saturated; and
    if no buffer is made over static data, two references to pooled buffers
    with equal bytes are the same address. *)
Theorem pool_safe (allow_static : bool) (hash_key : Z * Z) (t0 n : nat) (s : pool_system) (w : pool_world) (ts : list pthread)
    (Hstart : pool_start hash_key t0 n s) (Hsteps : rtc (pool_step allow_static) s (w, ts)) :
  (∀ i t a act, ts !! i = Some t → pool_act a t = Some act → action_ok allow_static a → fits w → is_Some (act w)) ∧
  (∀ i t b d, ts !! i = Some t → (b, d) ∈ owned t → CRYPTO_BUFFER_data b w = Some (d, w)) ∧
  (∀ b x, bufs w !! b = Some x → references x = MAX ∨ references x = Z.of_nat (refs_of b (all_held ts))) ∧
  (allow_static = false → ∀ i t b j u c d, ts !! i = Some t → (b, d) ∈ owned t → ts !! j = Some u → (c, d) ∈ owned u →
     pool <$> bufs w !! b = Some true → pool <$> bufs w !! c = Some true → b = c).
Proof.
  pose proof (reachable_system_inv _ _ _ _ _ _ Hstart Hsteps) as Hinv. pose proof Hinv as [_ [m Hm]]. cbn [fst snd] in Hm. split_and!.
  - intros i t a act Ht Ha Hact Hf. pose proof (act_inv _ _ _ _ _ _ _ Hinv Ht Ha Hact Hf) as Hw. unfold wp in Hw.
    destruct (act w); [by eexists|done].
  - intros i t b d Ht Hb. destruct (pi_held _ _ _ _ _ _ Hm b d) as (x & Hx & <-); [by eapply owned_held|].
    unfold CRYPTO_BUFFER_data, get_buf, deref, mbind, ST_bind. by rewrite Hx.
  - intros b x Hx. destruct (pi_refs _ _ _ _ _ _ Hm b x Hx) as [?|[? _]]; auto.
  - intros Hst i t b j u c d Ht Hb Hu Hc Hpb Hpc. destruct (pi_shared _ _ _ _ _ _ Hm Hst) as [Hs _].
    apply fmap_Some in Hpb as (x & Hx & Ex). apply fmap_Some in Hpc as (y & Hy & Ey).
    assert (m !! d = Some b) by (eapply Hs; [exact (owned_held _ _ _ _ _ Ht Hb)|exact (owned_shared _ _ _ _ _ _ _ _ Hm Ht Hb)|done|done]).
    assert (m !! d = Some c) by (eapply Hs; [exact (owned_held _ _ _ _ _ Hu Hc)|exact (owned_shared _ _ _ _ _ _ _ _ Hm Hu Hc)|done|done]). congruence.
Qed.

(** C22: nothing leaks.  When every call has returned and all references have
    been dropped, the only buffers left are those whose count has saturated;
    if there are none, the store is empty and the pool can be freed, which
    frees every item of its table. *)
Theorem pool_no_leak (allow_static : bool) (hash_key : Z * Z) (t0 n : nat) (s : pool_system) (w : pool_world) (ts : list pthread)
    (Hstart : pool_start hash_key t0 n s) (Hsteps : rtc (pool_step allow_static) s (w, ts))
    (Hdone : Forall (λ t, t = idle) ts) :
  (∀ b x, bufs w !! b = Some x → references x = MAX) ∧
  ((∀ b x, bufs w !! b = Some x → references x ≠ MAX) →
     bufs w = ∅ ∧ ∃ w', CRYPTO_BUFFER_POOL_free w = Some ((), w') ∧ items (pool_bufs w') = ∅).
Proof.
  destruct (reachable_system_inv _ _ _ _ _ _ Hstart Hsteps) as [_ [m Hm]]. cbn [fst snd] in Hm.
  assert (E : ∀ B (f : pthread → list B), f idle = [] → concat (f <$> ts) = []).
  { intros B f Hf. clear -Hdone Hf. induction Hdone as [|t ts -> _ IH]; [done|]. cbn. by rewrite Hf. }
  unfold all_held, all_private, all_releasing in Hm. rewrite !E in Hm by done.
  assert (Hsat : ∀ b x, bufs w !! b = Some x → references x = MAX).
  { intros b x Hx. destruct (pi_refs _ _ _ _ _ _ Hm b x Hx) as [|[E0 _]]; [done|]. cbn in E0.
    pose proof (pi_reach _ _ _ _ _ _ Hm b x Hx E0) as Hbad. set_solver. }
  split; [done|]. intros Hns. assert (Hb : bufs w = ∅) by (apply map_empty; intros b; destruct (bufs w !! b) eqn:Hx; [by destruct (Hns _ _ Hx (Hsat _ _ Hx))|done]).
  split; [done|]. pose proof (pi_table _ _ _ _ _ _ Hm) as Ht.
  assert (m = ∅) as ->.
  { apply map_empty. intros k. destruct (m !! k) as [b|] eqn:Hk; [|done]. destruct (table_live _ _ Ht _ _ Hk) as (x & Hx & _).
    by rewrite Hb, lookup_empty in Hx. }
  assert (Hn : OPENSSL_lh_num_items (lh (pool_bufs w)) = 0).
  { destruct Ht as [[_ [bs Hr]] _]. unfold OPENSSL_lh_num_items. by rewrite (rep_size _ _ _ Hr), map_size_empty. }
  assert (Hw : wp CRYPTO_BUFFER_POOL_free w (λ _ w', items (pool_bufs w') = ∅)).
  { unfold CRYPTO_BUFFER_POOL_free. apply st_bind, wp_gets. rewrite Hn. cbn [Z.eqb negb]. eapply wp_in_table; [done|].
    eapply wp_free; [by apply Ht|]. by intros t' Ht'. }
  unfold wp in Hw. destruct (CRYPTO_BUFFER_POOL_free w) as [[[] w']|]; [|done]. by exists w'.
Qed.
End results.

(** ** A run *)
#[export] Instance action_ok_dec allow_static a : Decision (action_ok allow_static a).
Proof. destruct a; cbn; apply _. Defined.
#[export] Instance fits_dec w : Decision (fits w).
Proof. unfold fits. apply _. Defined.

(** The system after a schedule of actions, each by the thread named first. *)
Fixpoint run_schedule `{Allocator} (allow_static : bool) (schedule : list (nat * pool_action)) (s : pool_system) : option pool_system :=
  match schedule with
  | [] => Some s
  | (i, a) :: schedule =>
      t ← s.2 !! i;
      act ← pool_act a t;
      if bool_decide (action_ok allow_static a ∧ fits s.1) then
        '(t', w') ← act s.1;
        run_schedule allow_static schedule (w', <[i := t']> s.2)
      else None
  end.

Lemma run_schedule_steps `{Allocator} allow_static schedule s s' :
  run_schedule allow_static schedule s = Some s' → rtc (pool_step allow_static) s s'.
Proof.
  revert s. induction schedule as [|[i a] schedule IH]; intros [w ts] E; cbn in E; [injection E as ->; done|].
  destruct (ts !! i) as [t|] eqn:Ht; [|done]. cbn in E. destruct (pool_act a t) as [act|] eqn:Ha; [|done]. cbn in E.
  destruct (decide (action_ok allow_static a ∧ fits w)) as [[Hok Hf]|Hn];
    [rewrite bool_decide_eq_true_2 in E by done|by rewrite bool_decide_eq_false_2 in E].
  destruct (act w) as [[t' w']|] eqn:Hw; [|done]. cbn in E. eapply rtc_l; [by econstructor|]. by apply IH.
Qed.

(** Two threads ask for the same bytes at the same time: one of them inserts
    its buffer, the other finds it and gives its own up. *)
Definition race : list (nat * pool_action) :=
  [(0%nat, ALookup [1; 2] false); (1%nat, ALookup [1; 2] false); (0%nat, AAlloc); (1%nat, AAlloc); (1%nat, AInsert); (0%nat, AInsert); (0%nat, ADiscard)].
Definition after_race : list (nat * pool_action) :=
  [(1%nat, AUpRef 1%nat [1; 2]); (1%nat, AFree 0%nat); (0%nat, AFree 0%nat); (1%nat, AFree 0%nat); (1%nat, ARelease)].

#[local] Existing Instance zero_allocator.
Definition demo_start : pool_system :=
  (default (mkPool ∅ (mkTable (mkLhash 0 [] 0 0) ∅ 0) (0, 0)) (CRYPTO_BUFFER_POOL_new (1, 2) 0), [idle; idle]).
Definition race_end : pool_system := default demo_start (run_schedule false race demo_start).
Definition demo_end : pool_system := default demo_start (run_schedule false (race ++ after_race) demo_start).

Lemma demo_starts : pool_start (1, 2) 0 2 demo_start.
Proof. by vm_compute. Qed.
Lemma race_owned : owned <$> race_end.2 = [[(1%nat, [1; 2])]; [(1%nat, [1; 2])]].
Proof. by vm_compute. Qed.
Lemma race_steps : rtc (pool_step false) demo_start race_end.
Proof. apply (run_schedule_steps false race). by vm_compute. Qed.
Lemma demo_steps : rtc (pool_step false) demo_start demo_end.
Proof. apply (run_schedule_steps false (race ++ after_race)). by vm_compute. Qed.

Lemma pool_safe_witness :
  (∀ i t a act, race_end.2 !! i = Some t → pool_act a t = Some act → action_ok false a → fits race_end.1 → is_Some (act race_end.1)) ∧
  (∀ i t b d, race_end.2 !! i = Some t → (b, d) ∈ owned t → CRYPTO_BUFFER_data b race_end.1 = Some (d, race_end.1)) ∧
  (∀ b x, bufs race_end.1 !! b = Some x → references x = MAX ∨ references x = Z.of_nat (refs_of b (all_held race_end.2))) ∧
  (false = false → ∀ i t b j u c d, race_end.2 !! i = Some t → (b, d) ∈ owned t → race_end.2 !! j = Some u → (c, d) ∈ owned u →
     pool <$> bufs race_end.1 !! b = Some true → pool <$> bufs race_end.1 !! c = Some true → b = c).
Proof.
  apply (pool_safe false (1, 2) 0 2 demo_start race_end.1 race_end.2 demo_starts).
  rewrite <- surjective_pairing. exact race_steps.
Defined.

Lemma pool_no_leak_witness :
  (∀ b x, bufs demo_end.1 !! b = Some x → references x = MAX) ∧
  ((∀ b x, bufs demo_end.1 !! b = Some x → references x ≠ MAX) →
     bufs demo_end.1 = ∅ ∧ ∃ w', CRYPTO_BUFFER_POOL_free demo_end.1 = Some ((), w') ∧ items (pool_bufs w') = ∅).
Proof.
  apply (pool_no_leak false (1, 2) 0 2 demo_start demo_end.1 demo_end.2 demo_starts).
  - rewrite <- surjective_pairing. exact demo_steps.
  - by vm_compute; repeat constructor.
Defined.
