(* ===== verification/Bio.v ===== *)
(** [crypto/bio/bio.c]: the BIO struct, its reference counts and chains, and
    the calls that dispatch to the method of a BIO.

    BIOs live in a store by address; [ptr], the state of the method, is a value
    of type [P].  A method is an entry of the table [methods]; its functions
    may be NULL.  Reading a missing BIO is undefined behaviour. *)
From S2P Require Import Prelude Mem State Refcount.

Abbreviation bid := nat.

Record BIO {P : Type} := mkBIO {
  method : option nat;
  init : Z;
  shutdown : Z;
  flags : Z;
  retry_reason : Z;
  num : Z;
  references : Z;
  ptr : option P;
  next_bio : option bid;
  num_read : Z;
  num_write : Z;
}.
Arguments BIO : clear implicits.
Arguments mkBIO {_} _ _ _ _ _ _ _ _ _ _ _.

Record bio_world {P : Type} := mkBios { bios : gmap bid (BIO P); clock : nat }.
Arguments bio_world : clear implicits.
Arguments mkBios {_} _ _.

Definition sizeof_BIO : Z := 72.
Definition BIO_FLAGS_READ : Z := 0x01.
Definition BIO_FLAGS_WRITE : Z := 0x02.
Definition BIO_FLAGS_IO_SPECIAL : Z := 0x04.
Definition BIO_FLAGS_RWS : Z := BIO_FLAGS_READ .| BIO_FLAGS_WRITE .| BIO_FLAGS_IO_SPECIAL.
Definition BIO_FLAGS_SHOULD_RETRY : Z := 0x08.
Definition kRetryFlags : Z := BIO_FLAGS_RWS .| BIO_FLAGS_SHOULD_RETRY.
Definition BIO_TYPE_SOURCE_SINK : Z := 0x0400.
Definition BIO_TYPE_MEM : Z := 1 .| BIO_TYPE_SOURCE_SINK.
Definition BIO_TYPE_BIO : Z := 19 .| BIO_TYPE_SOURCE_SINK.
Definition BIO_TYPE_START : Z := 128.
Definition BIO_CTRL_RESET : Z := 1.
Definition BIO_CTRL_EOF : Z := 2.
Definition BIO_CTRL_INFO : Z := 3.
Definition BIO_CTRL_GET_CLOSE : Z := 8.
Definition BIO_CTRL_SET_CLOSE : Z := 9.
Definition BIO_CTRL_PENDING : Z := 10.
Definition BIO_CTRL_FLUSH : Z := 11.
Definition BIO_CTRL_WPENDING : Z := 13.
Definition BIO_C_SET_BUF_MEM : Z := 114.
Definition BIO_C_GET_BUF_MEM_PTR : Z := 115.
Definition BIO_C_SET_BUF_MEM_EOF_RETURN : Z := 130.
Definition BIO_C_GET_WRITE_BUF_SIZE : Z := 137.
Definition BIO_C_GET_WRITE_GUARANTEE : Z := 140.
Definition BIO_C_GET_READ_REQUEST : Z := 141.
Definition BIO_C_SHUTDOWN_WR : Z := 142.
Definition BIO_C_RESET_READ_REQUEST : Z := 147.

(** Conversion to [int]. *)
Definition to_int (x : Z) : Z := (x + 2 ^ 31) mod 2 ^ 32 - 2 ^ 31.

Section bio.
Context {A : Allocator} {P : Type}.
Abbreviation IO := (ST (bio_world P)).

(** A buffer argument is [None] for NULL; a read yields the return value and
    the bytes it has stored.  [create] and the others are NULL in the method of
    [BIO_meth_new]. *)
Record BIO_METHOD := mkMethod {
  mtype : Z;
  bwrite : option (bid → option (list Z) → Z → IO Z);
  bread : option (bid → bool → Z → IO (Z * list Z));
  bgets : option (bid → bool → Z → IO (Z * list Z));
  ctrl : option (bid → Z → Z → option bid → IO Z);
  create : option (bid → IO Z);
  destroy : option (bid → IO Z);
  callback_ctrl : option (bid → Z → nat → IO Z);
}.

Definition get_bio (b : bid) : IO (BIO P) := deref (λ w, bios w !! b).
Definition set_bio (b : bid) (x : BIO P) : IO unit := modify (λ w, mkBios (<[b := x]> (bios w)) (clock w)).
Definition update_bio (b : bid) (f : BIO P → BIO P) : IO unit := x ← get_bio b; set_bio b (f x).

Definition with_flags (v : Z) (x : BIO P) : BIO P :=
  mkBIO (method x) (init x) (shutdown x) v (retry_reason x) (num x) (references x) (ptr x) (next_bio x) (num_read x) (num_write x).
Definition with_retry_reason (v : Z) (x : BIO P) : BIO P :=
  mkBIO (method x) (init x) (shutdown x) (flags x) v (num x) (references x) (ptr x) (next_bio x) (num_read x) (num_write x).
Definition with_init (v : Z) (x : BIO P) : BIO P :=
  mkBIO (method x) v (shutdown x) (flags x) (retry_reason x) (num x) (references x) (ptr x) (next_bio x) (num_read x) (num_write x).
Definition with_shutdown (v : Z) (x : BIO P) : BIO P :=
  mkBIO (method x) (init x) v (flags x) (retry_reason x) (num x) (references x) (ptr x) (next_bio x) (num_read x) (num_write x).
Definition with_num (v : Z) (x : BIO P) : BIO P :=
  mkBIO (method x) (init x) (shutdown x) (flags x) (retry_reason x) v (references x) (ptr x) (next_bio x) (num_read x) (num_write x).
Definition with_references (v : Z) (x : BIO P) : BIO P :=
  mkBIO (method x) (init x) (shutdown x) (flags x) (retry_reason x) (num x) v (ptr x) (next_bio x) (num_read x) (num_write x).
Definition with_ptr (v : option P) (x : BIO P) : BIO P :=
  mkBIO (method x) (init x) (shutdown x) (flags x) (retry_reason x) (num x) (references x) v (next_bio x) (num_read x) (num_write x).
Definition with_next (v : option bid) (x : BIO P) : BIO P :=
  mkBIO (method x) (init x) (shutdown x) (flags x) (retry_reason x) (num x) (references x) (ptr x) v (num_read x) (num_write x).
Definition with_num_read (v : Z) (x : BIO P) : BIO P :=
  mkBIO (method x) (init x) (shutdown x) (flags x) (retry_reason x) (num x) (references x) (ptr x) (next_bio x) v (num_write x).
Definition with_num_write (v : Z) (x : BIO P) : BIO P :=
  mkBIO (method x) (init x) (shutdown x) (flags x) (retry_reason x) (num x) (references x) (ptr x) (next_bio x) (num_read x) v.

(** *** Flags *)
Definition BIO_set_flags (bio : bid) (f : Z) : IO unit := update_bio bio (λ x, with_flags (flags x .| f) x).
Definition BIO_test_flags (bio : bid) (f : Z) : IO Z := x ← get_bio bio; mret (flags x .& f).
Definition BIO_should_read (bio : bid) : IO Z := BIO_test_flags bio BIO_FLAGS_READ.
Definition BIO_should_write (bio : bid) : IO Z := BIO_test_flags bio BIO_FLAGS_WRITE.
Definition BIO_should_retry (bio : bid) : IO Z := BIO_test_flags bio BIO_FLAGS_SHOULD_RETRY.
Definition BIO_should_io_special (bio : bid) : IO Z := BIO_test_flags bio BIO_FLAGS_IO_SPECIAL.
Definition BIO_get_retry_reason (bio : bid) : IO Z := x ← get_bio bio; mret (retry_reason x).
Definition BIO_set_retry_reason (bio : bid) (reason : Z) : IO unit := update_bio bio (with_retry_reason reason).
Definition BIO_clear_flags (bio : bid) (f : Z) : IO unit := update_bio bio (λ x, with_flags (flags x .& Z.lnot f) x).
Definition BIO_set_retry_read (bio : bid) : IO unit :=
  update_bio bio (λ x, with_flags (flags x .| (BIO_FLAGS_READ .| BIO_FLAGS_SHOULD_RETRY)) x).
Definition BIO_set_retry_write (bio : bid) : IO unit :=
  update_bio bio (λ x, with_flags (flags x .| (BIO_FLAGS_WRITE .| BIO_FLAGS_SHOULD_RETRY)) x).
Definition BIO_set_retry_special (bio : bid) : IO unit :=
  update_bio bio (λ x, with_flags (flags x .| (BIO_FLAGS_READ .| BIO_FLAGS_IO_SPECIAL)) x).
Definition BIO_get_retry_flags (bio : bid) : IO Z := x ← get_bio bio; mret (flags x .& kRetryFlags).
Definition BIO_clear_retry_flags (bio : bid) : IO unit :=
  update_bio bio (λ x, with_retry_reason 0 (with_flags (flags x .& Z.lnot kRetryFlags) x)).
Definition BIO_copy_next_retry (bio : bid) : IO unit :=
  _ ← BIO_clear_retry_flags bio;
  x ← get_bio bio;
  next ← deref (λ _, next_bio x);
  f ← BIO_get_retry_flags next;
  _ ← BIO_set_flags bio f;
  n ← get_bio next;
  BIO_set_retry_reason bio (retry_reason n).

Definition BIO_set_init (bio : bid) (init : Z) : IO unit := update_bio bio (with_init init).
Definition BIO_get_init (bio : bid) : IO Z := x ← get_bio bio; mret (init x).
Definition BIO_set_shutdown (bio : bid) (shutdown : Z) : IO unit := update_bio bio (with_shutdown shutdown).
Definition BIO_get_shutdown (bio : bid) : IO Z := x ← get_bio bio; mret (shutdown x).
Definition BIO_set_data (bio : bid) (p : option P) : IO unit := update_bio bio (with_ptr p).
Definition BIO_get_data (bio : bid) : IO (option P) := x ← get_bio bio; mret (ptr x).

(** *** Chains *)
Fixpoint last_of_chain (fuel : nat) (last_bio : bid) : IO bid :=
  x ← get_bio last_bio;
  match next_bio x with
  | None => mret last_bio
  | Some next => match fuel with O => ub | S fuel => last_of_chain fuel next end
  end.
Definition BIO_push (bio appended_bio : option bid) : IO (option bid) :=
  match bio with
  | None => mret None
  | Some b =>
      fuel ← gets (λ w, size (bios w));
      last_bio ← last_of_chain fuel b;
      _ ← update_bio last_bio (with_next appended_bio);
      mret (Some b)
  end.
Definition BIO_pop (bio : option bid) : IO (option bid) :=
  match bio with
  | None => mret None
  | Some b =>
      x ← get_bio b;
      _ ← set_bio b (with_next None x);
      mret (next_bio x)
  end.
Definition BIO_next (bio : option bid) : IO (option bid) :=
  match bio with
  | None => mret None
  | Some b => x ← get_bio b; mret (next_bio x)
  end.

(** *** Building a method

    The table entry, with the functions set so far; the setters return one. *)
Definition sizeof_BIO_METHOD : Z := 80.
Definition BIO_meth_new (type : Z) : IO (option BIO_METHOD) :=
  block ← (λ w, Some (OPENSSL_zalloc (clock w) sizeof_BIO_METHOD, mkBios (bios w) (S (clock w))));
  mret (match block with
        | None => None
        | Some _ => Some (mkMethod type None None None None None None None)
        end).
Definition BIO_meth_set_create (m : BIO_METHOD) (f : option (bid → IO Z)) : BIO_METHOD :=
  mkMethod (mtype m) (bwrite m) (bread m) (bgets m) (ctrl m) f (destroy m) (callback_ctrl m).
Definition BIO_meth_set_destroy (m : BIO_METHOD) (f : option (bid → IO Z)) : BIO_METHOD :=
  mkMethod (mtype m) (bwrite m) (bread m) (bgets m) (ctrl m) (create m) f (callback_ctrl m).
Definition BIO_meth_set_write (m : BIO_METHOD) (f : option (bid → option (list Z) → Z → IO Z)) : BIO_METHOD :=
  mkMethod (mtype m) f (bread m) (bgets m) (ctrl m) (create m) (destroy m) (callback_ctrl m).
Definition BIO_meth_set_read (m : BIO_METHOD) (f : option (bid → bool → Z → IO (Z * list Z))) : BIO_METHOD :=
  mkMethod (mtype m) (bwrite m) f (bgets m) (ctrl m) (create m) (destroy m) (callback_ctrl m).
Definition BIO_meth_set_gets (m : BIO_METHOD) (f : option (bid → bool → Z → IO (Z * list Z))) : BIO_METHOD :=
  mkMethod (mtype m) (bwrite m) (bread m) f (ctrl m) (create m) (destroy m) (callback_ctrl m).
Definition BIO_meth_set_ctrl (m : BIO_METHOD) (f : option (bid → Z → Z → option bid → IO Z)) : BIO_METHOD :=
  mkMethod (mtype m) (bwrite m) (bread m) (bgets m) f (create m) (destroy m) (callback_ctrl m).
(** The parameter is ignored: [BIO_puts] calls [BIO_write]. *)
Definition BIO_meth_set_puts (m : BIO_METHOD) : BIO_METHOD := m.

(** The next type number, with the counter [g_index] (read and written under
    its lock). *)
Definition BIO_get_new_index (g_index : Z) : Z * Z := if g_index >? 255 then (-1, g_index) else (g_index, g_index + 1).

(** *** Dispatch *)
Section dispatch.
Context (methods : nat → option BIO_METHOD).

Definition method_of (x : BIO P) : option BIO_METHOD := method x ≫= methods.

Definition BIO_new (m : nat) : IO (option bid) :=
  block ← (λ w, Some (OPENSSL_zalloc (clock w) sizeof_BIO, mkBios (bios w) (S (clock w))));
  match block with
  | None => mret None
  | Some _ =>
      ret ← gets (λ w, fresh (dom (bios w)));
      _ ← set_bio ret (mkBIO (Some m) 0 1 0 0 0 1 None None 0 0);
      meth ← deref (λ _, methods m);
      match create meth with
      | None => mret (Some ret)
      | Some f =>
          ok ← f ret;
          if ok =? 0 then
            _ ← modify (λ w, mkBios (delete ret (bios w)) (clock w));
            mret None
          else mret (Some ret)
      end
  end.

(** Frees the chain from [bio] on, as far as the references are the last ones. *)
Fixpoint free_loop (fuel : nat) (bio : option bid) : IO Z :=
  match bio with
  | None => mret 1
  | Some b =>
      match fuel with
      | O => ub
      | S fuel =>
          x ← get_bio b;
          '(refs, zero) ← deref (λ _, refcount_dec_alone (references x));
          _ ← set_bio b (with_references refs x);
          if negb zero then mret 0
          else
            next ← BIO_pop (Some b);
            _ ← (match method_of x ≫= destroy with
                 | None => mret ()
                 | Some f => _ ← f b; mret ()
                 end);
            _ ← modify (λ w, mkBios (delete b (bios w)) (clock w));
            free_loop fuel next
      end
  end.
Definition BIO_free (bio : option bid) : IO Z :=
  fuel ← gets (λ w, size (bios w));
  free_loop (S fuel) bio.
Definition BIO_up_ref (bio : bid) : IO Z :=
  _ ← update_bio bio (λ x, with_references (refcount_inc_alone (references x)) x);
  mret 1.

(** [bio] is [None] for NULL. *)
Definition BIO_read (bio : option bid) (has_buf : bool) (len : Z) : IO (Z * list Z) :=
  match bio with
  | None => mret (-2, [])
  | Some b =>
      x ← get_bio b;
      match method_of x ≫= bread with
      | None => mret (-2, [])
      | Some f =>
          if init x =? 0 then mret (-2, [])
          else if len <=? 0 then mret (0, [])
          else
            '(ret, out) ← f b has_buf len;
            _ ← (if ret >? 0 then update_bio b (λ x, with_num_read (num_read x ⊞[64] ret) x) else mret ());
            mret (ret, out)
      end
  end.

Definition BIO_gets (bio : option bid) (has_buf : bool) (len : Z) : IO (Z * list Z) :=
  match bio with
  | None => mret (-2, [])
  | Some b =>
      x ← get_bio b;
      match method_of x ≫= bgets with
      | None => mret (-2, [])
      | Some f =>
          if init x =? 0 then mret (-2, [])
          else if len <=? 0 then mret (0, [])
          else
            '(ret, out) ← f b has_buf len;
            _ ← (if ret >? 0 then update_bio b (λ x, with_num_read (num_read x ⊞[64] ret) x) else mret ());
            mret (ret, out)
      end
  end.

Definition BIO_write (bio : option bid) (inp : option (list Z)) (inl : Z) : IO Z :=
  match bio with
  | None => mret (-2)
  | Some b =>
      x ← get_bio b;
      match method_of x ≫= bwrite with
      | None => mret (-2)
      | Some f =>
          if init x =? 0 then mret (-2)
          else if inl <=? 0 then mret 0
          else
            ret ← f b inp inl;
            _ ← (if ret >? 0 then update_bio b (λ x, with_num_write (num_write x ⊞[64] ret) x) else mret ());
            mret ret
      end
  end.

(** Each turn of [while (len > 0)] writes a byte or more. *)
Fixpoint write_all_loop (fuel : nat) (bio : option bid) (data : list Z) : IO Z :=
  let len := Z.of_nat (length data) in
  if len >? 0 then
    match fuel with
    | O => ub
    | S fuel =>
        ret ← BIO_write bio (Some data) (if len >? INT_MAX then INT_MAX else to_int len);
        if ret <=? 0 then mret 0
        else write_all_loop fuel bio (drop (Z.to_nat ret) data)
    end
  else mret 1.
Definition BIO_write_all (bio : option bid) (data : list Z) : IO Z := write_all_loop (length data) bio data.

(** [in] is the bytes before the NUL. *)
Definition BIO_puts (bio : option bid) (inp : list Z) : IO Z :=
  let len := Z.of_nat (length inp) in
  if len >? INT_MAX then mret (-1) else BIO_write bio (Some inp) (to_int len).

(** [while (indent--)] *)
Fixpoint indent_loop (indent : nat) (bio : option bid) : IO Z :=
  match indent with
  | O => mret 1
  | S indent => r ← BIO_puts bio [32]; if negb (r =? 1) then mret 0 else indent_loop indent bio
  end.
Definition BIO_indent (bio : option bid) (indent max_indent : Z) : IO Z :=
  let indent := if indent >? max_indent then max_indent else indent in
  indent_loop (Z.to_nat indent) bio.

Definition BIO_ctrl (bio : option bid) (cmd larg : Z) (parg : option bid) : IO Z :=
  match bio with
  | None => mret 0
  | Some b =>
      x ← get_bio b;
      match method_of x ≫= ctrl with
      | None => mret (-2)
      | Some f => f b cmd larg parg
      end
  end.
Definition BIO_flush (bio : option bid) : IO Z := r ← BIO_ctrl bio BIO_CTRL_FLUSH 0 None; mret (to_int r).
Definition BIO_reset (bio : option bid) : IO Z := r ← BIO_ctrl bio BIO_CTRL_RESET 0 None; mret (to_int r).
Definition BIO_eof (bio : option bid) : IO Z := r ← BIO_ctrl bio BIO_CTRL_EOF 0 None; mret (to_int r).
Definition BIO_pending (bio : option bid) : IO Z :=
  r ← BIO_ctrl bio BIO_CTRL_PENDING 0 None;
  mret (if r <? 0 then 0 else r).
Definition BIO_ctrl_pending (bio : option bid) : IO Z := BIO_pending bio.
Definition BIO_wpending (bio : option bid) : IO Z :=
  r ← BIO_ctrl bio BIO_CTRL_WPENDING 0 None;
  mret (if r <? 0 then 0 else r).
Definition BIO_set_close (bio : option bid) (close_flag : Z) : IO Z :=
  r ← BIO_ctrl bio BIO_CTRL_SET_CLOSE close_flag None; mret (to_int r).
Definition BIO_callback_ctrl (bio : option bid) (cmd : Z) (fp : nat) : IO Z :=
  match bio with
  | None => mret 0
  | Some b =>
      x ← get_bio b;
      match method_of x ≫= callback_ctrl with
      | None => mret 0
      | Some f => f b cmd fp
      end
  end.
Definition BIO_method_type (bio : bid) : IO Z := x ← get_bio bio; m ← deref (λ _, method_of x); mret (mtype m).

(** The [do ... while (bio != NULL)] loop over the chain. *)
Fixpoint find_type_loop (fuel : nat) (bio : bid) (type mask : Z) : IO (option bid) :=
  match fuel with
  | O => ub
  | S fuel =>
      x ← get_bio bio;
      let found :=
        match method_of x with
        | Some m =>
            let method_type := mtype m in
            if mask =? 0 then negb (method_type .& type =? 0) else method_type =? type
        | None => false
        end in
      if found then mret (Some bio)
      else match next_bio x with
           | Some bio => find_type_loop fuel bio type mask
           | None => mret None
           end
  end.
Definition BIO_find_type (bio : option bid) (type : Z) : IO (option bid) :=
  match bio with
  | None => mret None
  | Some b => fuel ← gets (λ w, size (bios w)); find_type_loop fuel b type (type .& 0xff)
  end.

Definition BIO_number_read (bio : bid) : IO Z := x ← get_bio bio; mret (num_read x).
Definition BIO_number_written (bio : bid) : IO Z := x ← get_bio bio; mret (num_write x).
End dispatch.
End bio.
Arguments BIO_METHOD : clear implicits.

(** ** The store *)
Lemma wp_get_bio {P} (w : bio_world P) b x (Q : BIO P → bio_world P → Prop) :
  bios w !! b = Some x → Q x w → wp (get_bio b) w Q.
Proof. intros E HQ. by eapply wp_deref. Qed.

Lemma wp_update_bio {P} (w : bio_world P) b x f (Q : unit → bio_world P → Prop) :
  bios w !! b = Some x → Q () (mkBios (<[b := f x]> (bios w)) (clock w)) → wp (update_bio b f) w Q.
Proof. intros E HQ. apply st_bind. by eapply wp_deref. Qed.

(** Replacing one BIO of the store. *)
Definition put_bio {P} (w : bio_world P) (b : bid) (x : BIO P) : bio_world P := mkBios (<[b := x]> (bios w)) (clock w).

Lemma put_bio_same {P} (w : bio_world P) b x : bios (put_bio w b x) !! b = Some x.
Proof. apply lookup_insert_eq. Qed.
Lemma put_bio_twice {P} (w : bio_world P) b x y : put_bio (put_bio w b x) b y = put_bio w b y.
Proof. unfold put_bio. cbn. by rewrite insert_insert_eq. Qed.

Lemma wp_get_put {P} (w : bio_world P) b x (Q : BIO P → bio_world P → Prop) :
  Q x (put_bio w b x) → wp (get_bio b) (put_bio w b x) Q.
Proof. apply wp_get_bio, put_bio_same. Qed.

Lemma wp_update_put {P} (w : bio_world P) b x f (Q : unit → bio_world P → Prop) :
  Q () (put_bio w b (f x)) → wp (update_bio b f) (put_bio w b x) Q.
Proof.
  intros HQ. eapply wp_update_bio; [apply put_bio_same|]. unfold put_bio in HQ. cbn. by rewrite insert_insert_eq.
Qed.

(** A known BIO of the store is put where it is. *)
Lemma put_bio_id {P} (w : bio_world P) b x : bios w !! b = Some x → w = put_bio w b x.
Proof. intros H. destruct w as [bs t]. unfold put_bio. cbn in *. by rewrite insert_id. Qed.
