(* ===== verification/BioMem.v ===== *)
(** [crypto/bio/bio_mem.c]: a BIO over a growing buffer, or over bytes of the
    caller that it only reads.

    The state of the BIO is its [BUF_MEM]; [BIO_get_mem_ptr] and
    [BIO_set_mem_buf], which share that struct with the caller, are left out. *)
From S2P Require Import Prelude Mem State Bio Buf.

Abbreviation mem_world := (bio_world BUF_MEM).
Abbreviation IO := (ST mem_world).

Definition BIO_FLAGS_MEM_RDONLY : Z := 0x200.

(** A computation of [buf.c]: the clock counts its allocations. *)
Definition in_buf {B} (m : ST nat B) : IO B := λ w,
  match m (clock w) with Some (b, t) => Some (b, mkBios (bios w) t) | None => None end.

Definition get_mem_buf (b : bid) : IO BUF_MEM := deref (λ w, bios w !! b ≫= ptr).
Definition set_mem_buf (b : bid) (buf : BUF_MEM) : IO unit := update_bio b (with_ptr (Some buf)).

Section mem_bio.
Context {A : Allocator}.

Definition mem_new (bio : bid) : IO Z :=
  b ← in_buf BUF_MEM_new;
  match b with
  | None => mret 0
  | Some buf =>
      _ ← update_bio bio (λ x, with_ptr (Some buf) (with_num (-1) (with_init 1 (with_shutdown 1 x))));
      mret 1
  end.

(** The buffer goes with [ptr]; the bytes of the caller stay. *)
Definition mem_free (bio : bid) : IO Z :=
  x ← get_bio bio;
  if (shutdown x =? 0) || (init x =? 0) || negb (if ptr x then true else false) then mret 1
  else
    _ ← update_bio bio (with_ptr None);
    mret 1.

(** The bytes that are left: [memcpy(out, b->data, n)]. *)
Definition data_range (buf : BUF_MEM) (n : Z) : option (list Z) :=
  '(block, off) ← bm_data buf; read_range block off n.

(** The buffer after [n] bytes are gone: the pointer moves over the bytes of
    the caller, the bytes move down in a buffer of the BIO. *)
Definition consume (readonly : bool) (buf : BUF_MEM) (n : Z) : option BUF_MEM :=
  '(block, off) ← bm_data buf;
  let len := bm_length buf ⊟[64] n in
  if readonly then Some (mkBuf len (Some (block, off + n)) (bm_max buf))
  else
    moved ← read_range block (off + n) len;
    block ← write_range block off moved;
    Some (mkBuf len (Some (block, off)) (bm_max buf)).

Definition mem_read (bio : bid) (has_buf : bool) (outl : Z) : IO (Z * list Z) :=
  _ ← BIO_clear_retry_flags bio;
  if outl <=? 0 then mret (0, [])
  else
    b ← get_mem_buf bio;
    let ret := if outl >? bm_length b then to_int (bm_length b) else outl in
    if ret >? 0 then
      out ← deref (λ _, data_range b ret);
      x ← get_bio bio;
      b ← deref (λ _, consume (negb (flags x .& BIO_FLAGS_MEM_RDONLY =? 0)) b ret);
      _ ← set_mem_buf bio b;
      mret (ret, out)
    else if bm_length b =? 0 then
      x ← get_bio bio;
      let ret := num x in
      _ ← (if negb (ret =? 0) then BIO_set_retry_read bio else mret ());
      mret (ret, [])
    else mret (ret, []).

Definition mem_write (bio : bid) (inp : option (list Z)) (inl : Z) : IO Z :=
  _ ← BIO_clear_retry_flags bio;
  if inl <=? 0 then mret 0
  else
    x ← get_bio bio;
    if negb (flags x .& BIO_FLAGS_MEM_RDONLY =? 0) then mret (-1)
    else
      b ← get_mem_buf bio;
      data ← deref (λ _, inp ← inp; read_range inp 0 inl);
      '(ok, b) ← in_buf (BUF_MEM_append b data);
      _ ← set_mem_buf bio b;
      if ok =? 0 then mret (-1) else mret inl.

(** The bytes stored in [buf], with the NUL behind them. *)
Definition mem_gets (bio : bid) (has_buf : bool) (size : Z) : IO (Z * list Z) :=
  _ ← BIO_clear_retry_flags bio;
  if size <=? 0 then mret (0, [])
  else
    b ← get_mem_buf bio;
    let ret := size - 1 in
    let ret := if ret >? bm_length b then to_int (bm_length b) else ret in
    line ← (if ret =? 0 then mret [] else deref (λ _, data_range b ret));
    let ret := match list_find (λ c, c = 10) line with Some (i, _) => Z.of_nat i + 1 | None => ret end in
    '(ret, out) ← mem_read bio has_buf ret;
    mret (ret, if ret >=? 0 then out ++ [0] else out).

(** [ptr] is NULL: the three commands that pass a pointer to a [BUF_MEM] or to
    the bytes of one share memory with the caller, and are outside the model
    when they do. *)
Definition mem_ctrl (bio : bid) (cmd num_ : Z) (parg : option bid) : IO Z :=
  if cmd =? BIO_CTRL_RESET then
    b ← get_mem_buf bio;
    x ← get_bio bio;
    match bm_data b with
    | None => mret 1
    | Some (block, off) =>
        _ ← (if negb (flags x .& BIO_FLAGS_MEM_RDONLY =? 0) then
               set_mem_buf bio (mkBuf (bm_max b) (Some (block, off - (bm_max b - bm_length b))) (bm_max b))
             else
               block ← deref (λ _, write_range block off (replicate (Z.to_nat (bm_max b)) 0));
               set_mem_buf bio (mkBuf 0 (Some (block, off)) (bm_max b)));
        mret 1
    end
  else if cmd =? BIO_CTRL_EOF then b ← get_mem_buf bio; mret (if bm_length b =? 0 then 1 else 0)
  else if cmd =? BIO_C_SET_BUF_MEM_EOF_RETURN then _ ← update_bio bio (with_num (to_int num_)); mret 1
  else if cmd =? BIO_CTRL_INFO then
    b ← get_mem_buf bio;
    if parg then ub else mret (bm_length b)
  else if cmd =? BIO_C_SET_BUF_MEM then
    if parg then ub
    else
      _ ← mem_free bio;
      _ ← update_bio bio (λ x, with_ptr None (with_shutdown (to_int num_) x));
      mret 1
  else if cmd =? BIO_C_GET_BUF_MEM_PTR then if parg then ub else mret 1
  else if cmd =? BIO_CTRL_GET_CLOSE then x ← get_bio bio; mret (shutdown x)
  else if cmd =? BIO_CTRL_SET_CLOSE then _ ← update_bio bio (with_shutdown (to_int num_)); mret 1
  else if cmd =? BIO_CTRL_WPENDING then mret 0
  else if cmd =? BIO_CTRL_PENDING then b ← get_mem_buf bio; mret (bm_length b)
  else if cmd =? BIO_CTRL_FLUSH then mret 1
  else mret 0.

Definition mem_method : BIO_METHOD BUF_MEM :=
  mkMethod BIO_TYPE_MEM (Some mem_write) (Some mem_read) (Some mem_gets) (Some mem_ctrl) (Some mem_new) (Some mem_free) None.
(** The method table: number 1 is [BIO_s_mem()]. *)
Definition BIO_s_mem : nat := 1.
Definition mem_methods (m : nat) : option (BIO_METHOD BUF_MEM) := if (m =? BIO_s_mem)%nat then Some mem_method else None.

(** [buf] is the bytes of the caller, [len] of them are readable. *)
Definition BIO_new_mem_buf (buf : option (list Z)) (len : Z) : IO (option bid) :=
  size ← deref (λ _, if len <? 0 then s ← buf; '(i, _) ← list_find (λ c, c = 0) s; Some (Z.of_nat i) else Some len);
  if negb (if buf then true else false) && negb (len =? 0) then mret None
  else
    ret ← BIO_new mem_methods BIO_s_mem;
    match ret with
    | None => mret None
    | Some ret =>
        _ ← set_mem_buf ret (mkBuf size ((λ s, (s, 0)) <$> buf) size);
        _ ← update_bio ret (λ x, with_flags (flags x .| BIO_FLAGS_MEM_RDONLY) x);
        _ ← update_bio ret (with_num 0);
        mret (Some ret)
    end.

(** [BIO_mem_contents]: the bytes at [*out_contents], [*out_len] of them. *)
Definition BIO_mem_contents (bio : bid) : IO (option (list Z)) :=
  x ← get_bio bio;
  if negb (if decide (method x = Some BIO_s_mem) then true else false) then mret None
  else
    b ← get_mem_buf bio;
    if bm_length b =? 0 then mret (Some [])
    else s ← deref (λ _, data_range b (bm_length b)); mret (Some s).

Definition BIO_set_mem_eof_return (bio : option bid) (eof_value : Z) : IO Z :=
  r ← BIO_ctrl mem_methods bio BIO_C_SET_BUF_MEM_EOF_RETURN eof_value None; mret (to_int r).
End mem_bio.

Example mem_bio_example :
  let m := mem_methods (A := zero_allocator) in
  match (b ← BIO_new (A := zero_allocator) m BIO_s_mem;
         n ← BIO_write m b (Some [104; 105; 10; 111; 107]) 5;
         l ← BIO_gets m b true 100;
         r ← BIO_read m b true 1;
         p ← BIO_pending m b;
         r2 ← BIO_read m b true 9;
         r3 ← BIO_read m b true 9;
         ro ← BIO_new_mem_buf (A := zero_allocator) (Some [1; 2; 3]) 3;
         r4 ← BIO_read m ro true 2;
         _ ← BIO_reset m ro;
         r5 ← BIO_read m ro true 9;
         r6 ← BIO_read m ro true 9;
         mret (n, l, r, p, r2, r3, r4, r5, r6)) (mkBios ∅ 0) with
  | Some (r, _) => r = (5, (3, [104; 105; 10; 0]), (1, [111]), 1, (1, [107]), (-1, []), (2, [1; 2]), (3, [1; 2; 3]), (0, []))
  | None => False
  end.
Proof. by vm_compute. Qed.

(** ** The bytes a memory BIO holds *)
Definition is_rdonly (x : BIO BUF_MEM) : bool := negb (flags x .& BIO_FLAGS_MEM_RDONLY =? 0).

(** [data] of a read-only BIO points at the bytes that are left. *)
Definition view (buf : BUF_MEM) (q : list Z) : Prop :=
  bm_length buf = Z.of_nat (length q) ∧ Z.of_nat (length q) < 2 ^ 64 ∧ bytes_ok q ∧
  match bm_data buf with
  | None => q = []
  | Some (block, off) => 0 <= off ∧ off + Z.of_nat (length q) <= Z.of_nat (length block) ∧ take (length q) (drop (Z.to_nat off) block) = q
  end.

Record mem_rep (x : BIO BUF_MEM) (q : list Z) : Prop := {
  mr_method : method x = Some BIO_s_mem;
  mr_init : init x ≠ 0;
  mr_buf : ∃ buf, ptr x = Some buf ∧ (if is_rdonly x then view buf q else buf_rep buf q);
}.

Lemma buf_rep_view buf q : buf_rep buf q → view buf q.
Proof.
  intros [Hl Hm Hb Hd]. split; [done|]. split; [lia|]. split; [done|].
  destruct (bm_data buf) as [[block off]|]; [|by destruct Hd].
  destruct Hd as (-> & Hbl & Hq). split; [done|]. split; [lia|]. by rewrite drop_0.
Qed.

Lemma read_range_take bs off n : 0 <= off → 0 <= n → off + n <= Z.of_nat (length bs) →
  read_range bs off n = Some (take (Z.to_nat n) (drop (Z.to_nat off) bs)).
Proof.
  intros. unfold read_range. destruct (Z.leb_spec 0 off), (Z.leb_spec 0 n), (Z.leb_spec (off + n) (Z.of_nat (length bs))); done || lia.
Qed.

Lemma data_range_view buf q n : view buf q → 0 < n <= Z.of_nat (length q) → data_range buf n = Some (take (Z.to_nat n) q).
Proof.
  intros (Hl & _ & _ & Hd) Hn. unfold data_range. destruct (bm_data buf) as [[block off]|]; [|subst q; cbn in Hn; lia].
  destruct Hd as (Ho & Hlen & Hq). cbn [mbind option_bind]. rewrite read_range_take by lia.
  rewrite <- Hq. rewrite take_take, Nat.min_l by lia. done.
Qed.

Lemma consume_view buf q n : view buf q → 0 < n <= Z.of_nat (length q) →
  ∃ buf', consume true buf n = Some buf' ∧ view buf' (drop (Z.to_nat n) q).
Proof.
  intros (Hl & Hlt & Hb & Hd) Hn. unfold consume. destruct (bm_data buf) as [[block off]|]; [|subst q; cbn in Hn; lia].
  destruct Hd as (Ho & Hlen & Hq). eexists. split; [reflexivity|]. rewrite Hl, wrap_small by lia.
  split; [cbn [bm_length]; rewrite length_drop; lia|]. split; [rewrite length_drop; lia|]. split; [by apply Forall_drop|].
  cbn [bm_data]. rewrite length_drop. split; [lia|]. split; [lia|].
  replace (Z.to_nat (off + n)) with (Z.to_nat off + Z.to_nat n)%nat by lia. rewrite <- Hq at 2.
  rewrite <- drop_drop, skipn_firstn_comm. done.
Qed.

Lemma consume_buf buf q n : buf_rep buf q → 0 < n <= Z.of_nat (length q) →
  ∃ buf', consume false buf n = Some buf' ∧ buf_rep buf' (drop (Z.to_nat n) q).
Proof.
  intros [Hl Hm Hb Hd] Hn. unfold consume. destruct (bm_data buf) as [[block off]|]; [|destruct Hd; subst q; cbn in Hn; lia].
  destruct Hd as (-> & Hbl & Hq). cbn [mbind option_bind]. rewrite Hl, wrap_small by lia.
  rewrite read_range_take by lia. cbn [mbind option_bind].
  assert (E : take (Z.to_nat (Z.of_nat (length q) - n)) (drop (Z.to_nat (0 + n)) block) = drop (Z.to_nat n) q).
  { rewrite <- Hq at 2. rewrite skipn_firstn_comm. f_equal. lia. }
  rewrite E, write_range_spec by (rewrite ?length_drop; lia). cbn [mbind option_bind].
  eexists. split; [reflexivity|]. split; cbn [bm_length bm_data bm_max].
  - rewrite length_drop. lia.
  - rewrite length_drop. lia.
  - by apply Forall_drop.
  - split; [done|]. change (Z.to_nat 0) with 0%nat. rewrite take_0. cbn [app]. rewrite take_app_length. rewrite length_app, !length_drop. split; [lia|done].
Qed.

Definition cleared (x : BIO BUF_MEM) : BIO BUF_MEM := with_retry_reason 0 (with_flags (flags x .& Z.lnot kRetryFlags) x).
Definition retrying (x : BIO BUF_MEM) : BIO BUF_MEM := with_flags (flags x .| (BIO_FLAGS_READ .| BIO_FLAGS_SHOULD_RETRY)) x.

Lemma rdonly_cleared x : is_rdonly (cleared x) = is_rdonly x.
Proof. unfold is_rdonly, cleared. cbn [flags with_flags with_retry_reason]. by rewrite <- Z.land_assoc. Qed.
Lemma rdonly_retrying x : is_rdonly (retrying x) = is_rdonly x.
Proof.
  unfold is_rdonly, retrying. cbn [flags with_flags]. rewrite Z.land_lor_distr_l.
  change ((BIO_FLAGS_READ .| BIO_FLAGS_SHOULD_RETRY) .& BIO_FLAGS_MEM_RDONLY) with 0. by rewrite Z.lor_0_r.
Qed.

Lemma mem_rep_flags x x' q : mem_rep x q → method x' = method x → init x' = init x → ptr x' = ptr x → is_rdonly x' = is_rdonly x → mem_rep x' q.
Proof. intros [Hm Hi Hb] E1 E2 E3 E4. split; [by rewrite E1|by rewrite E2|by rewrite E3, E4]. Qed.

Lemma mem_rep_view x q : mem_rep x q → ∃ buf, ptr x = Some buf ∧ view buf q.
Proof. intros [_ _ (buf & Hp & Hb)]. exists buf. split; [done|]. destruct (is_rdonly x); [done|by apply buf_rep_view]. Qed.

Section mem_proofs.
Context {A : Allocator}.

Lemma wp_get_mem_buf w b x buf (Q : BUF_MEM → mem_world → Prop) :
  ptr x = Some buf → Q buf (put_bio w b x) → wp (get_mem_buf b) (put_bio w b x) Q.
Proof. intros Hp HQ. eapply wp_deref; [|exact HQ]. by rewrite put_bio_same. Qed.

Lemma wp_clear w b x (Q : unit → mem_world → Prop) :
  bios w !! b = Some x → Q () (put_bio w b (cleared x)) → wp (BIO_clear_retry_flags b) w Q.
Proof. intros Hx HQ. by eapply wp_update_bio. Qed.

(** Reading: the oldest bytes, or the value for the end of the data. *)
Definition mem_read_result (n : Z) (q : list Z) (eof : Z) : Z * list Z :=
  if decide (q = []) then (eof, []) else (n `min` Z.of_nat (length q), take (Z.to_nat n) q).

Lemma wp_mem_read w b x q n (Q : Z * list Z → mem_world → Prop) :
  bios w !! b = Some x → mem_rep x q → 0 < n <= INT_MAX →
  (∀ x', mem_rep x' (drop (Z.to_nat n) q) → num x' = num x → num_read x' = num_read x → is_rdonly x' = is_rdonly x →
     Q (mem_read_result n q (num x)) (put_bio w b x')) →
  wp (mem_read b true n) w Q.
Proof.
  intros Hx Hr Hn HQ. unfold INT_MAX in Hn. unfold mem_read. apply st_bind. eapply wp_clear; [done|].
  assert (Hc : mem_rep (cleared x) q) by (eapply mem_rep_flags; [exact Hr|done..|apply rdonly_cleared]).
  destruct (Z.leb_spec n 0); [lia|]. destruct (mem_rep_view _ _ Hc) as (buf & Hp & Hv).
  apply st_bind. eapply wp_get_mem_buf; [done|]. cbv zeta. pose proof Hv as (Hl & _). rewrite Hl.
  assert (Eret : (if n >? Z.of_nat (length q) then to_int (Z.of_nat (length q)) else n) = n `min` Z.of_nat (length q)).
  { destruct (Z.gtb_spec n (Z.of_nat (length q))); [|lia]. unfold to_int. rewrite Z.mod_small by lia. lia. }
  rewrite Eret. unfold mem_read_result in HQ. destruct (decide (q = [])) as [->|Hne].
  - rewrite Z.min_r by (cbn; lia). cbn [length Z.of_nat Z.gtb Z.compare Z.eqb]. apply st_bind, wp_get_put. cbv zeta.
    rewrite drop_nil in HQ. change (num (cleared x)) with (num x). apply st_bind. destruct (Z.eqb_spec (num x) 0); cbn [negb].
    + apply st_ret, st_ret. apply HQ; [exact Hc|done|done|apply rdonly_cleared].
    + apply wp_update_put, st_ret. apply (HQ (retrying (cleared x))); [|done|done|by rewrite rdonly_retrying, rdonly_cleared].
      eapply mem_rep_flags; [exact Hc|done..|apply rdonly_retrying].
  - assert (Hlen : (0 < length q)%nat) by (destruct q; [done|cbn; lia]). set (k := n `min` Z.of_nat (length q)) in *.
    assert (Hk : 0 < k <= Z.of_nat (length q)) by lia. destruct (Z.gtb_spec k 0); [|lia].
    apply st_bind. eapply wp_deref; [by apply data_range_view|]. apply st_bind, wp_get_put.
    assert (Ek : drop (Z.to_nat k) q = drop (Z.to_nat n) q).
    { destruct (Z.le_gt_cases n (Z.of_nat (length q))); [f_equal; lia|]. by rewrite !drop_ge by lia. }
    assert (Et : take (Z.to_nat k) q = take (Z.to_nat n) q).
    { destruct (Z.le_gt_cases n (Z.of_nat (length q))); [f_equal; lia|]. by rewrite !take_ge by lia. }
    assert (Hcon : ∃ buf', consume (is_rdonly (cleared x)) buf k = Some buf' ∧
      (if is_rdonly (cleared x) then view buf' (drop (Z.to_nat k) q) else buf_rep buf' (drop (Z.to_nat k) q))).
    { destruct Hc as [_ _ (buf0 & Hp0 & Hb0)]. rewrite Hp in Hp0. injection Hp0 as <-.
      destruct (is_rdonly (cleared x)); [by apply consume_view|by apply consume_buf]. }
    destruct Hcon as (buf' & Ec & Hb'). apply st_bind. eapply wp_deref; [exact Ec|]. apply st_bind.
    apply wp_update_put, st_ret. rewrite Et. apply HQ; [|done|done|apply rdonly_cleared]. rewrite <- Ek.
    split; [apply Hc|apply Hc|]. exists buf'. split; [done|exact Hb'].
Qed.

Lemma wp_mem_write w b x q d (Q : Z → mem_world → Prop) :
  bios w !! b = Some x → mem_rep x q → is_rdonly x = false → bytes_ok d → 0 < Z.of_nat (length d) <= INT_MAX →
  (∀ x' t, ¬ (NeverFails A ∧ Z.of_nat (length q + length d) < 2 ^ 62) → mem_rep x' q → num x' = num x → num_write x' = num_write x →
     is_rdonly x' = false → Q (-1) (mkBios (<[b := x']> (bios w)) t)) →
  (∀ x' t, mem_rep x' (q ++ d) → num x' = num x → num_write x' = num_write x → is_rdonly x' = false →
     Q (Z.of_nat (length d)) (mkBios (<[b := x']> (bios w)) t)) →
  wp (mem_write b (Some d) (Z.of_nat (length d))) w Q.
Proof.
  intros Hx Hr Hro Hd Hn HN HS. unfold INT_MAX in Hn. unfold mem_write. apply st_bind. eapply wp_clear; [done|].
  destruct (Z.leb_spec (Z.of_nat (length d)) 0); [lia|]. apply st_bind, wp_get_put.
  assert (Ero : is_rdonly (cleared x) = false) by by rewrite rdonly_cleared.
  change (negb (flags (cleared x) .& BIO_FLAGS_MEM_RDONLY =? 0)) with (is_rdonly (cleared x)). rewrite Ero.
  destruct Hr as [Hm Hi (buf & Hp & Hb)]. rewrite Hro in Hb. apply st_bind. eapply wp_get_mem_buf; [exact Hp|].
  apply st_bind. eapply wp_deref; [cbn [mbind option_bind]; apply read_range_take; lia|].
  change (Z.to_nat 0) with 0%nat. rewrite drop_0, Nat2Z.id, take_ge by lia.
  apply st_bind. unfold wp at 1, in_buf. cbn [Bio.clock put_bio bios].
  pose proof (wp_append buf q d (Bio.clock w) (λ r t,
    (r.1 = 0 ∧ ¬ (NeverFails A ∧ Z.of_nat (length q + length d) < 2 ^ 62) ∧ buf_rep r.2 q) ∨ (r.1 = 1 ∧ buf_rep r.2 (q ++ d)))) as Hap.
  specialize (Hap Hb Hd ltac:(lia) ltac:(intros; left; done) ltac:(intros; right; done)). unfold wp in Hap.
  destruct (BUF_MEM_append buf d (Bio.clock w)) as [[[ok buf'] t]|]; [|done]. cbn [fst snd] in Hap.
  fold (put_bio (mkBios (bios w) t) b (cleared x)). apply st_bind. change (mkBios (<[b:=cleared x]> (bios w)) t) with (put_bio (mkBios (bios w) t) b (cleared x)).
  apply wp_update_put. destruct Hap as [(-> & Hnf & Hb')|(-> & Hb')]; cbn [Z.eqb]; apply st_ret.
  - apply HN; [done| |done|done|done]. split; [exact Hm|exact Hi|]. exists buf'. split; [done|].
    change (is_rdonly (with_ptr (Some buf') (cleared x))) with (is_rdonly (cleared x)). by rewrite Ero.
  - apply HS; [|done|done|done]. split; [exact Hm|exact Hi|]. exists buf'. split; [done|].
    change (is_rdonly (with_ptr (Some buf') (cleared x))) with (is_rdonly (cleared x)). by rewrite Ero.
Qed.
End mem_proofs.

(** ** The calls of [bio.c] *)
Section mem_calls.
Context {A : Allocator}.

Lemma wp_BIO_read_mem w b x q n (Q : Z * list Z → mem_world → Prop) :
  bios w !! b = Some x → mem_rep x q → n <= INT_MAX →
  (∀ x', mem_rep x' (drop (Z.to_nat n) q) → num x' = num x → is_rdonly x' = is_rdonly x →
     Q (if n <=? 0 then (0, []) else mem_read_result n q (num x)) (put_bio w b x')) →
  wp (BIO_read mem_methods (Some b) true n) w Q.
Proof.
  intros Hx Hr Hn HQ. unfold BIO_read. apply st_bind. eapply wp_get_bio; [done|]. unfold method_of.
  rewrite (mr_method _ _ Hr). cbn [mbind option_bind mem_methods BIO_s_mem Nat.eqb mem_method bread].
  destruct (Z.eqb_spec (init x) 0) as [E|_]; [by destruct (mr_init _ _ Hr)|].
  destruct (Z.leb_spec n 0).
  { apply st_ret. rewrite (put_bio_id w b x Hx). apply HQ; [|done|done]. by replace (Z.to_nat n) with 0%nat by lia. }
  apply st_bind. eapply wp_mem_read; [done|done|lia|]. intros x' Hx' En _ Ero.
  destruct (mem_read_result n q (num x)) as [ret out] eqn:Er. apply st_bind. destruct (ret >? 0).
  - apply wp_update_put, st_ret. apply HQ; [|done|done]. eapply mem_rep_flags; [exact Hx'|done..].
  - by apply st_ret, st_ret, HQ.
Qed.

Lemma wp_BIO_write_mem w b x q d (Q : Z → mem_world → Prop) :
  bios w !! b = Some x → mem_rep x q → is_rdonly x = false → bytes_ok d → Z.of_nat (length d) <= INT_MAX →
  (∀ x' t, d ≠ [] → ¬ (NeverFails A ∧ Z.of_nat (length q + length d) < 2 ^ 62) → mem_rep x' q → num x' = num x →
     is_rdonly x' = false → Q (-1) (mkBios (<[b := x']> (bios w)) t)) →
  (∀ x' t, mem_rep x' (q ++ d) → num x' = num x → is_rdonly x' = false →
     Q (Z.of_nat (length d)) (mkBios (<[b := x']> (bios w)) t)) →
  wp (BIO_write mem_methods (Some b) (Some d) (Z.of_nat (length d))) w Q.
Proof.
  intros Hx Hr Hro Hd Hn HN HS. unfold BIO_write. apply st_bind. eapply wp_get_bio; [done|]. unfold method_of.
  rewrite (mr_method _ _ Hr). cbn [mbind option_bind mem_methods BIO_s_mem Nat.eqb mem_method bwrite].
  destruct (Z.eqb_spec (init x) 0) as [E|_]; [by destruct (mr_init _ _ Hr)|].
  destruct (Z.leb_spec (Z.of_nat (length d)) 0).
  { destruct d; [|cbn in *; lia]. apply st_ret. rewrite app_nil_r in HS. specialize (HS x (Bio.clock w) Hr eq_refl Hro).
    rewrite insert_id in HS by done. by destruct w. }
  apply st_bind. eapply wp_mem_write; [done|done|done|done|lia| |].
  - intros x' t Hnf Hx' En _ Ero. cbn [Z.gtb Z.compare]. apply st_bind, st_ret, st_ret. apply HN; try done. by intros ->.
  - intros x' t Hx' En _ Ero. apply st_bind. destruct (Z.gtb_spec (Z.of_nat (length d)) 0); [|lia].
    change (mkBios (<[b:=x']> (bios w)) t) with (put_bio (mkBios (bios w) t) b x').
    apply wp_update_put, st_ret. apply HS; [|done|done]. eapply mem_rep_flags; [exact Hx'|done..].
Qed.

Definition fresh_mem : BIO BUF_MEM := mkBIO (Some BIO_s_mem) 1 1 0 0 (-1) 1 (Some (mkBuf 0 None 0)) None 0 0.

Lemma fresh_mem_rep : mem_rep fresh_mem [].
Proof. split; [done|done|]. exists (mkBuf 0 None 0). split; [done|]. apply buf_rep_nil. Qed.

Lemma wp_BIO_new_mem w (Q : option bid → mem_world → Prop) :
  (∀ t, ¬ NeverFails A → Q None (mkBios (bios w) t)) →
  (∀ b t, b ∉ dom (bios w) → Q (Some b) (mkBios (<[b := fresh_mem]> (bios w)) t)) →
  wp (BIO_new mem_methods BIO_s_mem) w Q.
Proof.
  intros HN HS. assert (Hz : ∀ t n, 0 <= n < 2 ^ 32 → OPENSSL_zalloc t n = None → ¬ NeverFails A).
  { intros t n Hn E Hnf. unfold OPENSSL_zalloc in E. destruct (OPENSSL_malloc_succeeds t n) as [b Hb]; [lia|]. by rewrite Hb in E. }
  unfold BIO_new. apply st_bind. unfold wp at 1. cbn [Bio.clock bios].
  destruct (OPENSSL_zalloc (Bio.clock w) sizeof_BIO) as [block|] eqn:E; [|by apply st_ret, HN; eapply Hz; [|exact E]].
  apply st_bind, wp_gets. cbn [bios]. set (b := fresh (dom (bios w))). assert (Hb : b ∉ dom (bios w)) by apply is_fresh.
  clearbody b. apply st_bind, wp_modify. apply st_bind. eapply wp_deref; [done|]. cbn [create mem_method].
  apply st_bind. unfold mem_new. apply st_bind. unfold wp at 1, in_buf, BUF_MEM_new, mbind, ST_bind, alloc_call, mret, ST_ret. cbn [Bio.clock bios].
  destruct (OPENSSL_zalloc (S (Bio.clock w)) sizeof_BUF_MEM) as [block2|] eqn:E2; cbn [fmap option_fmap option_map].
  - apply st_bind. eapply wp_update_bio; [by apply lookup_insert_eq|]. apply st_ret. cbn [Z.eqb]. apply st_ret.
    cbn [bios]. rewrite insert_insert_eq. by apply HS.
  - apply st_ret. cbn [Z.eqb]. apply st_bind, wp_modify, st_ret. cbn [bios Bio.clock]. rewrite delete_insert_id.
    + apply HN. by eapply Hz; [|exact E2].
    + by apply not_elem_of_dom.
Qed.

(** ** Runs *)
Inductive mem_op := MWrite (data : list Z) | MRead (n : Z).

Definition run_mem_op (o : mem_op) (b : bid) : IO (Z * list Z) :=
  match o with
  | MWrite data => r ← BIO_write mem_methods (Some b) (Some data) (Z.of_nat (length data)); mret (r, [])
  | MRead n => BIO_read mem_methods (Some b) true n
  end.
Fixpoint run_mem (os : list mem_op) (b : bid) : IO (list (Z * list Z)) :=
  match os with
  | [] => mret []
  | o :: os => r ← run_mem_op o b; rs ← run_mem os b; mret (r :: rs)
  end.

(** The queue: all bytes are accepted, and an empty queue is "try again". *)
Definition queue_op (o : mem_op) (q : list Z) : (Z * list Z) * list Z :=
  match o with
  | MWrite data => ((Z.of_nat (length data), []), q ++ data)
  | MRead n => (if n <=? 0 then (0, []) else mem_read_result n q (-1), drop (Z.to_nat n) q)
  end.
Fixpoint queue_run (os : list mem_op) (q : list Z) : list (Z * list Z) * list Z :=
  match os with
  | [] => ([], q)
  | o :: os => let '(r, q) := queue_op o q in let '(rs, q) := queue_run os q in (r :: rs, q)
  end.

Definition mem_op_ok (o : mem_op) : Prop :=
  match o with MWrite data => bytes_ok data ∧ Z.of_nat (length data) <= INT_MAX | MRead n => n <= INT_MAX end.
Fixpoint written (os : list mem_op) : nat :=
  match os with [] => 0 | MWrite data :: os => length data + written os | MRead _ :: os => written os end.

Lemma wp_run_mem `{!NeverFails A} os w b x q : bios w !! b = Some x → mem_rep x q → num x = -1 → is_rdonly x = false →
  Forall mem_op_ok os → Z.of_nat (length q + written os) < 2 ^ 62 →
  wp (run_mem os b) w (λ rs w', rs = (queue_run os q).1 ∧ ∃ x', bios w' !! b = Some x' ∧ mem_rep x' (queue_run os q).2 ∧ dom (bios w') = dom (bios w)).
Proof.
  intros Hx Hr Hnum Hro Hok Hlt. revert w x q Hx Hr Hnum Hro Hlt. induction Hok as [|o os Ho _ IH]; intros w x q Hx Hr Hnum Hro Hlt; cbn [run_mem].
  { apply st_ret. split; [done|]. by exists x. }
  apply st_bind. cbn [queue_run]. cbn [written] in Hlt.
  assert (Hdom : ∀ x' : BIO BUF_MEM, dom (<[b := x']> (bios w)) = dom (bios w)).
  { intros x'. apply dom_insert_lookup_L. by eexists. }
  destruct o as [data|n]; cbn [run_mem_op queue_op mem_op_ok] in *.
  - destruct Ho as [Hd Hlen]. apply st_bind. eapply wp_BIO_write_mem; [done|done|done|done|done| |].
    + intros x' t _ Hnf. destruct Hnf. split; [done|lia].
    + intros x' t Hx' En Ero. apply st_ret, st_bind. eapply st_mono.
      * apply (IH (mkBios (<[b:=x']> (bios w)) t) x' (q ++ data)); [apply lookup_insert_eq|done|congruence|done|].
        rewrite length_app. lia.
      * intros rs w' (-> & x'' & H1 & H2 & H3). apply st_ret. destruct (queue_run os (q ++ data)) as [rs q']. cbn [fst snd] in *.
        split; [done|]. exists x''. split; [done|]. split; [done|]. rewrite H3. cbn [bios]. apply Hdom.
  - eapply wp_BIO_read_mem; [done|done|done|]. intros x' Hx' En Ero. rewrite Hnum. apply st_bind. eapply st_mono.
    * apply (IH (put_bio w b x') x' (drop (Z.to_nat n) q)); [apply put_bio_same|done|congruence|congruence|].
      rewrite length_drop. lia.
    * intros rs w' (-> & x'' & H1 & H2 & H3). apply st_ret. destruct (queue_run os (drop (Z.to_nat n) q)) as [rs q']. cbn [fst snd] in *.
      split; [done|]. exists x''. split; [done|]. split; [done|]. rewrite H3. cbn [bios put_bio]. apply Hdom.
Qed.

(** C37: a memory BIO is an unbounded queue of bytes: after [BIO_new] every
    sequence of writes and reads is defined and returns what the queue
    returns, all bytes are accepted, none is lost or reordered, and reading
    from an empty one is -1; the buffer behind it always holds the queue. *)
Theorem mem_bio_is_queue `{!NeverFails A} os w : Forall mem_op_ok os → Z.of_nat (written os) < 2 ^ 62 →
  wp (b ← BIO_new mem_methods BIO_s_mem;
      match b with Some b => rs ← run_mem os b; mret (Some (b, rs)) | None => mret None end) w
    (λ r w', ∃ b x, r = Some (b, (queue_run os []).1) ∧ bios w' !! b = Some x ∧ mem_rep x (queue_run os []).2).
Proof.
  intros Hok Hlt. apply st_bind. eapply wp_BIO_new_mem; [by intros t H|]. intros b t Hb. apply st_bind.
  eapply st_mono; [apply (wp_run_mem os _ b fresh_mem []); [apply lookup_insert_eq|apply fresh_mem_rep|done|done|done|exact Hlt]|].
  intros rs w' (-> & x & H1 & H2 & _). apply st_ret. by exists b, x.
Qed.
End mem_calls.

Definition mem_demo : list mem_op := [MWrite [1; 2; 3]; MRead 2; MWrite [4]; MRead 9; MRead 1].
Lemma mem_bio_is_queue_witness :
  Forall mem_op_ok mem_demo ∧ Z.of_nat (written mem_demo) < 2 ^ 62 ∧
  wp (b ← BIO_new (A := zero_allocator) (mem_methods (A := zero_allocator)) BIO_s_mem;
      match b with Some b => rs ← run_mem (A := zero_allocator) mem_demo b; mret (Some (b, rs)) | None => mret None end) (mkBios ∅ 0)
    (λ r w', ∃ b x, r = Some (b, (queue_run mem_demo []).1) ∧ bios w' !! b = Some x ∧ mem_rep x (queue_run mem_demo []).2).
Proof.
  assert (H : Forall mem_op_ok mem_demo).
  { unfold mem_demo. repeat constructor; cbn; unfold INT_MAX; lia. }
  assert (Hl : Z.of_nat (written mem_demo) < 2 ^ 62) by (vm_compute; reflexivity).
  split; [exact H|]. split; [exact Hl|]. exact (mem_bio_is_queue (A := zero_allocator) mem_demo (mkBios ∅ 0) H Hl).
Defined.
