(* ===== verification/BioRead.v ===== *)
(** Reading a whole object from a BIO ([bio_read_full], [bio_read_all] and
    [BIO_read_asn1] of [crypto/bio/bio.c]), over any BIO that delivers a byte
    string in pieces of its choice. *)
From S2P Require Import Prelude Radix Mem Cbs State Refcount Bio Buf BioMem.

(** What the error queue gets with a failure; [NO_MEMORY] stands for none. *)
Inductive asn1_reason := HEADER_TOO_LONG | NOT_ENOUGH_DATA | DECODE_ERROR | TOO_LONG | NO_MEMORY.
#[export] Instance asn1_reason_eq_dec : EqDecision asn1_reason.
Proof. solve_decision. Defined.
(** [*out] and [*out_len] after a success, or the reason of the failure. *)
Inductive asn1_result := Element (bytes : list Z) | Failure (r : asn1_reason).

Definition kChunkSize : Z := 4096.
Definition kInitialHeaderLen : Z := 2.

Section read.
Context {A : Allocator} {P : Type} (methods : nat → option (BIO_METHOD P)).
Abbreviation IO := (ST (bio_world P)).

Definition bio_alloc {B} (f : nat → option B) : IO (option B) := λ w, Some (f (clock w), mkBios (bios w) (S (clock w))).

(** Each turn that goes on has read a byte or more.  It yields the bytes
    stored at [out], the return value and [*out_eof_on_first_read].  A method
    that claims to have read more than it was asked for breaks its contract. *)
Fixpoint read_full_loop (fuel : nat) (bio : option bid) (len : Z) (first_read : bool) : IO (list Z * (Z * bool)) :=
  if len >? 0 then
    match fuel with
    | O => ub
    | S fuel =>
        let todo := if len <=? INT_MAX then to_int len else INT_MAX in
        '(ret, bytes) ← BIO_read methods bio true todo;
        if ret <=? 0 then mret (bytes, (0, first_read && (ret =? 0)))
        else if (ret >? todo) || negb (Z.of_nat (length bytes) =? ret) then ub
        else
          '(more, r) ← read_full_loop fuel bio (len ⊟[64] ret) false;
          mret (bytes ++ more, r)
    end
  else mret ([], (1, false)).
Definition bio_read_full (bio : option bid) (len : Z) : IO (list Z * (Z * bool)) :=
  read_full_loop (Z.to_nat len) bio len true.

(** The [for (;;)] loop: [fuel] bounds its turns; [out] is the block of [len]
    bytes, of which [done] are filled. *)
Fixpoint read_all_loop (fuel : nat) (bio : option bid) (out : list Z) (len max_len done : Z) : IO (option (list Z)) :=
  match fuel with
  | O => ub
  | S fuel =>
      if done =? len then mret None
      else
        let todo := len ⊟[64] done in
        let todo := if todo >? INT_MAX then INT_MAX else todo in
        '(n, bytes) ← BIO_read methods bio true (to_int todo);
        out ← deref (λ _, match bytes with [] => Some out | _ => write_range out done bytes end);
        if n =? 0 then mret (Some (take (Z.to_nat done) out))
        else if n =? -1 then mret None
        else
          let done := done ⊞[64] n in
          if (len <? max_len) && (len ⊟[64] done <? kChunkSize / 2) then
            let len := len ⊞[64] kChunkSize in
            let len := if (len <? kChunkSize) || (len >? max_len) then max_len else len in
            new_buf ← bio_alloc (λ t, OPENSSL_realloc t out len);
            match new_buf with
            | None => mret None
            | Some new_buf => read_all_loop fuel bio new_buf len max_len done
            end
          else read_all_loop fuel bio out len max_len done
  end.
Definition bio_read_all (fuel : nat) (bio : option bid) (prefix : list Z) (max_len : Z) : IO (option (list Z)) :=
  let prefix_len := Z.of_nat (length prefix) in
  let len := prefix_len ⊞[64] kChunkSize in
  let len := if len >? max_len then max_len else len in
  if len <? prefix_len then mret None
  else
    out ← bio_alloc (λ t, OPENSSL_malloc t len);
    match out with
    | None => mret None
    | Some out =>
        out ← deref (λ _, write_range out 0 prefix);
        read_all_loop fuel bio out len max_len prefix_len
    end.

(** The part after the header: [len] bytes of contents. *)
Definition read_contents (bio : option bid) (header : list Z) (len max_len : Z) : IO asn1_result :=
  let header_len := Z.of_nat (length header) in
  if (len ⊞[64] header_len <? len) || (len ⊞[64] header_len >? max_len) || (len >? INT_MAX) then mret (Failure TOO_LONG)
  else
    let len := len ⊞[64] header_len in
    out ← bio_alloc (λ t, OPENSSL_malloc t len);
    match out with
    | None => mret (Failure NO_MEMORY)
    | Some out =>
        out ← deref (λ _, write_range out 0 header);
        '(bytes, (ok, _)) ← bio_read_full bio (len ⊟[64] header_len);
        out ← deref (λ _, write_range out header_len bytes);
        if ok =? 0 then mret (Failure NOT_ENOUGH_DATA) else mret (Element out)
    end.

Definition BIO_read_asn1 (fuel : nat) (bio : option bid) (max_len : Z) : IO asn1_result :=
  '(header, (ok, eof_on_first_read)) ← bio_read_full bio kInitialHeaderLen;
  if ok =? 0 then mret (Failure (if (eof_on_first_read : bool) then HEADER_TOO_LONG else NOT_ENOUGH_DATA))
  else
    let tag := byte_at header 0 in
    let length_byte := byte_at header 1 in
    if tag .& 0x1f =? 0x1f then mret (Failure DECODE_ERROR)
    else if length_byte .& 0x80 =? 0 then read_contents bio header length_byte max_len
    else
      let num_bytes := length_byte .& 0x7f in
      if negb (tag .& 0x20 =? 0) && (num_bytes =? 0) then
        all ← bio_read_all fuel bio header max_len;
        match all with
        | None => mret (Failure NOT_ENOUGH_DATA)
        | Some bytes => mret (Element bytes)
        end
      else if (num_bytes =? 0) || (num_bytes >? 4) then mret (Failure DECODE_ERROR)
      else
        '(more, (ok, _)) ← bio_read_full bio num_bytes;
        if ok =? 0 then mret (Failure NOT_ENOUGH_DATA)
        else
          let len32 := foldl (λ len32 i : Z, (len32 ≪[32] 8) .| byte_at more i) 0 (seqZ 0 num_bytes) in
          if len32 <? 128 then mret (Failure DECODE_ERROR)
          else if len32 ≫ ((num_bytes - 1) * 8) =? 0 then mret (Failure DECODE_ERROR)
          else read_contents bio (header ++ more) len32 max_len.

(** ** BIOs that deliver bytes

    [src s w]: in the world [w] the BIO [b] still delivers the bytes [s].  A
    read gets at least one of them and at most as many as it asked for; behind
    them it returns [eof]: 0, or a negative number for "try again" and errors. *)
Class ByteSource (b : bid) (src : list Z → bio_world P → Prop) (eof : Z) : Prop := {
  source_bytes s w : src s w → bytes_ok s;
  source_read s w n : src s w → 0 < n <= INT_MAX → s ≠ [] →
    wp (BIO_read methods (Some b) true n) w (λ r w',
      ∃ k, (0 < k ≤ length s)%nat ∧ Z.of_nat k <= n ∧ r = (Z.of_nat k, take k s) ∧ src (drop k s) w');
  source_end w n : src [] w → 0 < n <= INT_MAX →
    wp (BIO_read methods (Some b) true n) w (λ r w', r = (eof, []) ∧ src [] w');
  source_alloc s w t : src s w → src s (mkBios (bios w) t);
  source_eof : eof <= 0;
}.

Section source.
Context (b : bid) (src : list Z → bio_world P → Prop) (eof : Z) `{!ByteSource b src eof}.

Definition is_nil (s : list Z) : bool := match s with [] => true | _ => false end.

Lemma wp_read_full_loop fuel len first s w (Q : list Z * (Z * bool) → bio_world P → Prop) :
  src s w → 0 <= len < 2 ^ 64 → (Z.to_nat len ≤ fuel)%nat →
  (len <= Z.of_nat (length s) → ∀ w', src (drop (Z.to_nat len) s) w' → Q (take (Z.to_nat len) s, (1, false)) w') →
  (Z.of_nat (length s) < len → ∀ w', src [] w' → Q (s, (0, first && is_nil s && (eof =? 0))) w') →
  wp (read_full_loop fuel (Some b) len first) w Q.
Proof.
  revert len first s w Q. induction fuel as [|fuel IH]; intros len first s w Q Hs Hlen Hf HS HN; cbn [read_full_loop];
    (destruct (Z.gtb_spec len 0) as [Hpos|Hz]; [|replace len with 0 in HS by lia; apply st_ret; apply HS; [lia|exact Hs]]); [lia|].
  set (todo := if len <=? INT_MAX then to_int len else INT_MAX).
  assert (Htodo : 0 < todo <= INT_MAX ∧ todo <= len).
  { unfold todo, INT_MAX, to_int. destruct (Z.leb_spec len (2 ^ 31 - 1)); [rewrite Z.mod_small by lia|]; lia. }
  clearbody todo. apply st_bind. destruct (decide (s = [])) as [->|Hne].
  - eapply st_mono; [apply source_end; [done|lia]|]. intros r w' [-> Hs']. cbn [fst snd].
    pose proof (source_eof (b := b) (src := src) (eof := eof)). destruct (Z.leb_spec eof 0); [|lia]. apply st_ret.
    specialize (HN ltac:(cbn; lia) w' Hs'). cbn [is_nil] in HN. by rewrite andb_true_r in HN.
  - eapply st_mono; [apply source_read; [done|lia|done]|]. intros r w' (k & Hk & Hkt & -> & Hs').
    destruct (Z.leb_spec (Z.of_nat k) 0); [lia|]. rewrite length_take, Nat.min_l by lia. rewrite Z.eqb_refl.
    destruct (Z.gtb_spec (Z.of_nat k) todo); [lia|]. cbn [orb negb]. apply st_bind. rewrite wrap_small by lia.
    apply (IH _ _ (drop k s) w'); [done|lia|lia| |].
    + intros Hl w'' Hs''. apply st_ret. rewrite length_drop in Hl. rewrite drop_drop in Hs''.
      replace (k + Z.to_nat (len - Z.of_nat k))%nat with (Z.to_nat len) in Hs'' by lia.
      assert (E : take k s ++ take (Z.to_nat (len - Z.of_nat k)) (drop k s) = take (Z.to_nat len) s).
      { rewrite take_take_drop. f_equal. lia. }
      rewrite E. apply HS; [lia|done].
    + intros Hl w'' Hs''. apply st_ret. rewrite length_drop in Hl. rewrite take_drop. cbn [andb].
      specialize (HN ltac:(lia) w'' Hs''). destruct s; [done|]. cbn [is_nil] in HN. by rewrite andb_false_r in HN.
Qed.

Lemma wp_read_full len s w (Q : list Z * (Z * bool) → bio_world P → Prop) :
  src s w → 0 <= len < 2 ^ 64 →
  (len <= Z.of_nat (length s) → ∀ w', src (drop (Z.to_nat len) s) w' → Q (take (Z.to_nat len) s, (1, false)) w') →
  (Z.of_nat (length s) < len → ∀ w', src [] w' → Q (s, (0, is_nil s && (eof =? 0))) w') →
  wp (bio_read_full (Some b) len) w Q.
Proof. intros Hs Hl HS HN. by apply (wp_read_full_loop _ len true s). Qed.

(** Filling a block from [done_] on. *)
Lemma write_range_fill out done_ d : 0 <= done_ → done_ + Z.of_nat (length d) <= Z.of_nat (length out) →
  ∃ out', write_range out done_ d = Some out' ∧ length out' = length out ∧
    take (Z.to_nat done_ + length d) out' = take (Z.to_nat done_) out ++ d.
Proof.
  intros H0 Hl. unfold write_range.
  destruct (Z.leb_spec 0 done_), (Z.leb_spec (done_ + Z.of_nat (length d)) (Z.of_nat (length out))); try lia. cbn [andb].
  eexists. split; [reflexivity|]. split.
  - rewrite !length_app, length_take, length_drop. lia.
  - rewrite app_assoc. apply take_app_length'. rewrite length_app, length_take. lia.
Qed.



(** ** One object *)
(** An element whose tag has one octet and whose length is definite and minimal. *)
Definition short_tag (t : Z) : Prop := is_byte t ∧ t .& 0x1f ≠ 0x1f.
Definition definite_element (e : list Z) : Prop :=
  ∃ t c, short_tag t ∧ bytes_ok c ∧ CBS_len c <= INT_MAX ∧ e = t :: der_len_bytes (CBS_len c) ++ c.

(** [e] is what a call gets from the bytes [s], and [rest] what it leaves: the
    first element, or all bytes if they start with a tag and an indefinite
    length. *)
Definition delivered (max_len : Z) (s e rest : list Z) : Prop :=
  (definite_element e ∧ CBS_len e <= max_len ∧ s = e ++ rest) ∨
  (∃ t body, short_tag t ∧ t .& 0x20 ≠ 0 ∧ e = t :: 0x80 :: body ∧ s = e ∧ rest = [] ∧ eof = 0 ∧ CBS_len e < max_len).

Lemma delivered_cases max_len t l s e rest : delivered max_len (t :: l :: s) e rest →
  short_tag t ∧
  ((l < 128 ∧ ∃ c, CBS_len c = l ∧ CBS_len (t :: l :: c) <= max_len ∧ s = c ++ rest ∧ e = t :: l :: c) ∨
   (l = 128 ∧ t .& 0x20 ≠ 0 ∧ eof = 0 ∧ CBS_len (t :: l :: s) < max_len ∧ e = t :: l :: s ∧ rest = []) ∨
   (∃ k c, (1 ≤ k ≤ 4)%nat ∧ l = 128 + Z.of_nat k ∧ 128 <= CBS_len c <= INT_MAX ∧ 256 ^ (Z.of_nat k - 1) <= CBS_len c < 256 ^ Z.of_nat k ∧
      CBS_len (t :: l :: be_bytes k (CBS_len c) ++ c) <= max_len ∧ s = be_bytes k (CBS_len c) ++ c ++ rest ∧
      e = t :: l :: be_bytes k (CBS_len c) ++ c)).
Proof.
  intros [((t' & c & Ht & Hb & Hc & ->) & Hm & Hs)|(t' & body & Ht & Hcon & -> & Hs & -> & He & Hm)].
  - unfold der_len_bytes in *. pose proof (CBS_len_nonneg c). destruct (Z.ltb_spec (CBS_len c) 128); cbn [app] in *.
    + injection Hs as -> -> ->. split; [done|]. left. split; [done|]. by exists c.
    + unfold INT_MAX in Hc. destruct (der_len_digits (CBS_len c) ltac:(lia)) as (Hk & Hr & _). cbv zeta in *.
      set (k := ndigits 256 8 (CBS_len c)) in *. injection Hs as -> -> ->. split; [done|]. right. right. exists k, c.
      rewrite <- app_assoc. unfold INT_MAX. split_and!; done || lia.
  - injection Hs as -> -> ->. split; [done|]. right. left. done.
Qed.

(** There is at most one. *)
Lemma delivered_unique max_len s e rest e' rest' : delivered max_len s e rest → delivered max_len s e' rest' → e = e' ∧ rest = rest'.
Proof.
  intros Hd Hd'. assert (Hs : ∃ t l s0, s = t :: l :: s0).
  { destruct Hd as [((t & c & _ & _ & Hc & ->) & _ & ->)|(t & body & _ & _ & -> & -> & _)]; [|by do 3 eexists].
    unfold INT_MAX in Hc. pose proof (CBS_len_nonneg c). pose proof (length_der_len_bytes (CBS_len c) ltac:(lia)) as Hl.
    destruct (der_len_bytes (CBS_len c)); [cbn in Hl; lia|]. by do 3 eexists. }
  destruct Hs as (t & l & s0 & ->).
  apply delivered_cases in Hd as [_ Hd]. apply delivered_cases in Hd' as [_ Hd'].
  destruct Hd as [(? & c & Hc & _ & Hs & ->)|[(? & _ & _ & _ & -> & ->)|(k & c & Hk & El & Hc & Hr & _ & Hs & ->)]];
    destruct Hd' as [(? & c' & Hc' & _ & Hs' & ->)|[(? & _ & _ & _ & -> & ->)|(k' & c' & Hk' & El' & Hc' & Hr' & _ & Hs' & ->)]]; try lia.
  - rewrite Hs in Hs'. apply app_inj_1 in Hs' as [-> ->]; [done|]. unfold CBS_len in *. lia.
  - done.
  - assert (k' = k) as -> by lia. rewrite Hs in Hs'.
    apply app_inj_1 in Hs' as [Eb Hs']; [|by rewrite !length_digits_be]. apply (f_equal (be_val)) in Eb.
    pose proof (CBS_len_nonneg c). pose proof (CBS_len_nonneg c').
    rewrite !val_digits_be_small in Eb by lia. rewrite Eb. apply app_inj_1 in Hs' as [-> ->]; [done|]. unfold CBS_len in *. lia.
Qed.











(** Any other negative value at the end of the input is taken for a number of
    bytes by [bio_read_all]: [done] decreases at each turn and the loop does not
    end. *)
Lemma read_all_spins k fuel w out len max_len p :
  - 2 ^ 31 <= eof <= -2 → src [] w → Z.of_nat (k + fuel) <= 2 ^ 30 → 0 <= p < 2 ^ 32 → len = p + kChunkSize →
  read_all_loop fuel (Some b) out len max_len (wrap 64 (p + Z.of_nat k * eof)) w = None.
Proof.
  intros He. unfold kChunkSize. revert k w out. induction fuel as [|fuel IH]; intros k w out Hs Hk Hp ->; [done|].
  cbn [read_all_loop]. change (kChunkSize / 2) with 2048. set (d := - (Z.of_nat k * eof)).
  assert (Hd : 0 <= d < 2 ^ 62) by (unfold d; nia).
  replace (p + Z.of_nat k * eof) with (p - d) by (unfold d; lia).
  assert (Esub : ∀ e, 0 <= e < 2 ^ 63 → (p + 4096) ⊟[64] wrap 64 (p - e) = 4096 + e).
  { intros e He'. unfold wrap. rewrite Zminus_mod_idemp_r, Z.mod_small; lia. }
  destruct (Z.eqb_spec (wrap 64 (p - d)) (p + 4096)) as [E|_].
  { specialize (Esub d ltac:(lia)). rewrite E, Z.sub_diag in Esub. change (wrap 64 0) with 0 in Esub. lia. }
  rewrite Esub by lia. set (todo := if 4096 + d >? INT_MAX then INT_MAX else 4096 + d).
  assert (Htodo : 0 < todo <= INT_MAX) by (unfold todo, INT_MAX; destruct (Z.gtb_spec (4096 + d) (2 ^ 31 - 1)); lia).
  clearbody todo. cbv zeta. assert (Ei : to_int todo = todo) by (unfold to_int, INT_MAX in *; rewrite Z.mod_small by lia; lia). rewrite Ei.
  pose proof (source_end (src := src) w todo Hs Htodo) as Hr. unfold wp in Hr.
  unfold mbind, ST_bind. destruct (BIO_read methods (Some b) true todo w) as [[r w']|]; [|done]. destruct Hr as [-> Hs'].
  cbn [deref]. destruct (Z.eqb_spec eof 0), (Z.eqb_spec eof (-1)); try lia.
  assert (Ew : wrap 64 (p - d) ⊞[64] eof = wrap 64 (p + Z.of_nat (S k) * eof)).
  { unfold wrap. rewrite Zplus_mod_idemp_l. f_equal. unfold d. lia. }
  rewrite Ew. replace (p + Z.of_nat (S k) * eof) with (p - (d - eof)) by (unfold d; lia). rewrite Esub by lia.
  destruct (Z.ltb_spec (4096 + (d - eof)) 2048); [lia|]. rewrite andb_false_r.
  replace (p - (d - eof)) with (p + Z.of_nat (S k) * eof) by (unfold d; lia). apply IH; [done|lia|done|done].
Qed.

(** So [BIO_read_asn1] has not returned after 2^29 reads of such a BIO: the
    model runs out of any smaller fuel. *)
Lemma BIO_read_asn1_spins fuel w t max_len :
  NeverFails A → - 2 ^ 31 <= eof <= -2 → src [t; 0x80] w → short_tag t → t .& 0x20 ≠ 0 →
  Z.of_nat fuel <= 2 ^ 29 → 4098 <= max_len < 2 ^ 64 - 8 →
  BIO_read_asn1 fuel (Some b) max_len w = None.
Proof.
  intros Hnf He Hs [Ht Htag] Hcon Hf Hmax. unfold BIO_read_asn1.
  assert (Hfull : wp (bio_read_full (Some b) kInitialHeaderLen) w (λ r w', r = ([t; 0x80], (1, false)) ∧ src [] w')).
  { eapply wp_read_full; [done|done| |]; cbn [length]; unfold kInitialHeaderLen; [|lia]. intros _ w' Hw'. done. }
  unfold wp in Hfull. unfold mbind, ST_bind. destruct (bio_read_full (Some b) kInitialHeaderLen w) as [[r w']|]; [|done].
  destruct Hfull as [-> Hw']. cbn [Z.eqb]. change (byte_at [t; 128] 0) with t. change (byte_at [t; 128] 1) with 128. cbv zeta.
  destruct (Z.eqb_spec (t .& 0x1f) 0x1f); [done|]. change (128 .& 0x80 =? 0) with false. change (128 .& 0x7f) with 0.
  destruct (Z.eqb_spec (t .& 0x20) 0); [done|]. cbn [negb andb Z.eqb]. unfold bio_read_all. cbv zeta.
  change (Z.of_nat (length [t; 128]) ⊞[64] kChunkSize) with 4098. change (Z.of_nat (length [t; 128])) with 2.
  destruct (Z.gtb_spec 4098 max_len); [lia|]. cbn [Z.ltb Z.compare Pos.compare Pos.compare_cont].
  unfold mbind, ST_bind, bio_alloc. destruct (OPENSSL_malloc_succeeds (clock w') 4098) as [out Em]; [lia|]. rewrite Em.
  apply OPENSSL_malloc_length in Em; [|lia]. destruct (write_range_fill out 0 [t; 128]) as (out' & Ew & _ & _); [lia|cbn [length]; lia|].
  unfold deref. rewrite Ew. pose proof (read_all_spins 0 fuel (mkBios (bios w') (S (clock w'))) out' 4098 max_len 2) as Hspin.
  change (wrap 64 (2 + Z.of_nat 0 * eof)) with (wrap 64 2) in Hspin. change (wrap 64 2) with 2 in Hspin.
  by rewrite Hspin; [|lia|apply source_alloc|lia|lia|].
Qed.
End source.
End read.

(** ** A memory BIO is such a BIO *)
Definition mem_source {A : Allocator} (b : bid) (eof : Z) (s : list Z) (w : bio_world BUF_MEM) : Prop :=
  ∃ x, bios w !! b = Some x ∧ mem_rep x s ∧ num x = eof.

#[export] Instance mem_byte_source {A : Allocator} b eof (He : TCEq (eof <=? 0) true) : ByteSource mem_methods b (mem_source b eof) eof.
Proof.
  assert (Heof : eof <= 0) by (apply Z.leb_le; by apply TCEq_eq). split.
  - intros s w (x & Hx & Hr & _). destruct (mem_rep_view _ _ Hr) as (buf & _ & _ & _ & Hb & _). done.
  - intros s w n (x & Hx & Hr & En) Hn Hne. eapply wp_BIO_read_mem; [done|done|lia|]. intros x' Hx' En' _.
    destruct (Z.leb_spec n 0); [lia|]. unfold mem_read_result. destruct (decide (s = [])); [done|].
    assert (0 < length s)%nat by (destruct s; [done|cbn; lia]).
    exists (Nat.min (Z.to_nat n) (length s)). split; [lia|]. split; [lia|]. split.
    + f_equal; [lia|]. destruct (Nat.min_spec (Z.to_nat n) (length s)) as [[? ->]|[? ->]]; [done|]. by rewrite !take_ge by lia.
    + exists x'. split; [apply put_bio_same|]. split; [|congruence].
      destruct (Nat.min_spec (Z.to_nat n) (length s)) as [[? ->]|[? ->]]; [done|]. rewrite drop_ge in * by lia. done.
  - intros w n (x & Hx & Hr & En) Hn. eapply wp_BIO_read_mem; [done|done|lia|]. intros x' Hx' En' _.
    destruct (Z.leb_spec n 0); [lia|]. unfold mem_read_result. rewrite decide_True by done. rewrite drop_nil in Hx'.
    split; [by rewrite En|]. exists x'. split; [apply put_bio_same|]. split; [done|congruence].
  - intros s w t (x & Hx & Hr). by exists x.
  - done.
Qed.

(** A memory BIO holding an element and a byte more. *)
Definition asn1_demo : list Z := [0x30; 0x03; 0x02; 0x01; 0x05; 0xff].
Definition asn1_demo_bio : BIO BUF_MEM :=
  mkBIO (Some BIO_s_mem) 1 1 BIO_FLAGS_MEM_RDONLY 0 0 1 (Some (mkBuf 6 (Some (asn1_demo, 0)) 6)) None 0 0.
Definition asn1_demo_world : bio_world BUF_MEM := mkBios {[0%nat := asn1_demo_bio]} 0.


Example asn1_demo_reads :
  match (r ← BIO_read_asn1 (A := zero_allocator) (mem_methods (A := zero_allocator)) 7 (Some 0%nat) 100;
         r2 ← BIO_read_asn1 (A := zero_allocator) (mem_methods (A := zero_allocator)) 7 (Some 0%nat) 100;
         r3 ← BIO_read_asn1 (A := zero_allocator) (mem_methods (A := zero_allocator)) 7 (Some 0%nat) 100;
         mret (r, r2, r3)) asn1_demo_world with
  | Some (rs, _) => rs = (Element [0x30; 0x03; 0x02; 0x01; 0x05], Failure NOT_ENOUGH_DATA, Failure HEADER_TOO_LONG)
  | None => False
  end.
Proof. by vm_compute. Qed.
