(* ===== verification/BioPair.v ===== *)
(** [crypto/bio/pair.c]: two BIOs joined by a ring buffer in each direction.
    The state of each BIO holds the buffer of what is written to it; reading
    goes to the buffer of the peer. *)
From S2P Require Import Prelude Mem State Bio.

Record bio_bio_st := mkPair {
  b_peer : option bid;
  b_closed : bool;
  b_len : Z;
  b_offset : Z;
  b_size : Z;
  b_buf : option (list Z);
  b_request : Z;
}.
Definition sizeof_bio_bio_st : Z := 56.

Abbreviation world := (bio_world bio_bio_st).
Abbreviation IO := (ST world).

Definition set_peer (v : option bid) (b : bio_bio_st) : bio_bio_st :=
  mkPair v (b_closed b) (b_len b) (b_offset b) (b_size b) (b_buf b) (b_request b).
Definition set_closed (v : bool) (b : bio_bio_st) : bio_bio_st :=
  mkPair (b_peer b) v (b_len b) (b_offset b) (b_size b) (b_buf b) (b_request b).
Definition set_len (v : Z) (b : bio_bio_st) : bio_bio_st :=
  mkPair (b_peer b) (b_closed b) v (b_offset b) (b_size b) (b_buf b) (b_request b).
Definition set_offset (v : Z) (b : bio_bio_st) : bio_bio_st :=
  mkPair (b_peer b) (b_closed b) (b_len b) v (b_size b) (b_buf b) (b_request b).
Definition set_size (v : Z) (b : bio_bio_st) : bio_bio_st :=
  mkPair (b_peer b) (b_closed b) (b_len b) (b_offset b) v (b_buf b) (b_request b).
Definition set_buf (v : option (list Z)) (b : bio_bio_st) : bio_bio_st :=
  mkPair (b_peer b) (b_closed b) (b_len b) (b_offset b) (b_size b) v (b_request b).
Definition set_request (v : Z) (b : bio_bio_st) : bio_bio_st :=
  mkPair (b_peer b) (b_closed b) (b_len b) (b_offset b) (b_size b) (b_buf b) v.

(** [bio->ptr], and an update of what it points to. *)
Definition get_ptr (b : bid) : IO bio_bio_st := deref (λ w, bios w !! b ≫= ptr).
Definition update_ptr (b : bid) (f : bio_bio_st → bio_bio_st) : IO unit :=
  x ← get_bio b;
  p ← deref (λ _, ptr x);
  set_bio b (with_ptr (Some (f p)) x).

Section pair.
Context {A : Allocator}.

Definition alloc {B} (f : nat → option B) : IO (option B) := λ w, Some (f (clock w), mkBios (bios w) (S (clock w))).

Definition bio_new (bio : bid) : IO Z :=
  b ← alloc (λ t, OPENSSL_zalloc t sizeof_bio_bio_st);
  match b with
  | None => mret 0
  | Some _ =>
      _ ← update_bio bio (with_ptr (Some (mkPair None false 0 0 (17 * 1024) None 0)));
      mret 1
  end.

Definition bio_destroy_pair (bio : bid) : IO unit :=
  x ← get_bio bio;
  match ptr x with
  | None => mret ()
  | Some b =>
      match b_peer b with
      | None => mret ()
      | Some peer_bio =>
          _ ← update_ptr peer_bio (set_peer None);
          _ ← update_bio peer_bio (with_init 0);
          _ ← update_ptr peer_bio (λ b, set_offset 0 (set_len 0 b));
          _ ← update_ptr bio (set_peer None);
          _ ← update_bio bio (with_init 0);
          update_ptr bio (λ b, set_offset 0 (set_len 0 b))
      end
  end.

(** The struct and its buffer go with [ptr]. *)
Definition bio_free (bio : bid) : IO Z :=
  b ← get_ptr bio;
  _ ← (if b_peer b then bio_destroy_pair bio else mret ());
  _ ← update_bio bio (with_ptr None);
  mret 1.

(** The [do ... while (rest)] loop of [bio_read] takes one or two iterations. *)
Fixpoint read_loop (fuel : nat) (peer : bid) (rest : Z) : IO (list Z) :=
  match fuel with
  | O => ub
  | S fuel =>
      peer_b ← get_ptr peer;
      let chunk := if b_offset peer_b ⊞[64] rest <=? b_size peer_b then rest else b_size peer_b ⊟[64] b_offset peer_b in
      out ← deref (λ _, buf ← b_buf peer_b; read_range buf (b_offset peer_b) chunk);
      _ ← update_ptr peer (set_len (b_len peer_b ⊟[64] chunk));
      peer_b ← get_ptr peer;
      _ ← update_ptr peer (set_offset
            (if negb (b_len peer_b =? 0) then
               let offset := b_offset peer_b ⊞[64] chunk in
               if offset =? b_size peer_b then 0 else offset
             else 0));
      let rest := rest ⊟[64] chunk in
      if rest =? 0 then mret out
      else more ← read_loop fuel peer rest; mret (out ++ more)
  end.

Definition bio_read (bio : bid) (has_buf : bool) (size_ : Z) : IO (Z * list Z) :=
  let size := wrap 64 size_ in
  _ ← BIO_clear_retry_flags bio;
  x ← get_bio bio;
  if init x =? 0 then mret (0, [])
  else
    b ← get_ptr bio;
    peer ← deref (λ _, b_peer b);
    _ ← update_ptr peer (set_request 0);
    if negb has_buf || (size =? 0) then mret (0, [])
    else
      peer_b ← get_ptr peer;
      if b_len peer_b =? 0 then
        if b_closed peer_b then mret (0, [])
        else
          _ ← BIO_set_retry_read bio;
          _ ← update_ptr peer (set_request (if size <=? b_size peer_b then size else b_size peer_b));
          mret (-1, [])
      else
        let size := if b_len peer_b <? size then b_len peer_b else size in
        out ← read_loop 2 peer size;
        mret (to_int size, out).

(** Likewise for [bio_write]. *)
Fixpoint write_loop (fuel : nat) (bio : bid) (data : list Z) (rest : Z) : IO unit :=
  match fuel with
  | O => ub
  | S fuel =>
      b ← get_ptr bio;
      let write_offset := b_offset b ⊞[64] b_len b in
      let write_offset := if write_offset >=? b_size b then write_offset ⊟[64] b_size b else write_offset in
      let chunk := if write_offset ⊞[64] rest <=? b_size b then rest else b_size b ⊟[64] write_offset in
      buf ← deref (λ _, d ← read_range data 0 chunk; buf ← b_buf b; write_range buf write_offset d);
      _ ← update_ptr bio (set_buf (Some buf));
      _ ← update_ptr bio (set_len (b_len b ⊞[64] chunk));
      let rest := rest ⊟[64] chunk in
      if rest =? 0 then mret () else write_loop fuel bio (drop (Z.to_nat chunk) data) rest
  end.

Definition bio_write (bio : bid) (buf : option (list Z)) (num_ : Z) : IO Z :=
  let num := wrap 64 num_ in
  _ ← BIO_clear_retry_flags bio;
  x ← get_bio bio;
  match buf with
  | None => mret 0
  | Some data =>
      if (init x =? 0) || (num =? 0) then mret 0
      else
        b ← get_ptr bio;
        _ ← update_ptr bio (set_request 0);
        if b_closed b then mret (-1)
        else if b_len b =? b_size b then
          _ ← BIO_set_retry_write bio;
          mret (-1)
        else
          let num := if num >? b_size b ⊟[64] b_len b then b_size b ⊟[64] b_len b else num in
          _ ← write_loop 2 bio data num;
          mret (to_int num)
  end.

(** [if (b->buf == NULL) { ... }] for one side. *)
Definition make_buffer (bio : bid) (writebuf_len : Z) : IO bool :=
  b ← get_ptr bio;
  match b_buf b with
  | Some _ => mret true
  | None =>
      _ ← (if negb (writebuf_len =? 0) then update_ptr bio (set_size writebuf_len) else mret ());
      b ← get_ptr bio;
      block ← alloc (λ t, OPENSSL_malloc t (b_size b));
      _ ← update_ptr bio (set_buf block);
      match block with
      | None => mret false
      | Some _ =>
          _ ← update_ptr bio (set_len 0);
          _ ← update_ptr bio (set_offset 0);
          mret true
      end
  end.

Definition bio_make_pair (bio1 bio2 : bid) (writebuf1_len writebuf2_len : Z) : IO Z :=
  b1 ← get_ptr bio1;
  b2 ← get_ptr bio2;
  match b_peer b1, b_peer b2 with
  | None, None =>
      ok ← make_buffer bio1 writebuf1_len;
      if negb ok then mret 0
      else
        ok ← make_buffer bio2 writebuf2_len;
        if negb ok then mret 0
        else
          _ ← update_ptr bio1 (λ b, set_request 0 (set_closed false (set_peer (Some bio2) b)));
          _ ← update_ptr bio2 (λ b, set_request 0 (set_closed false (set_peer (Some bio1) b)));
          _ ← update_bio bio1 (with_init 1);
          _ ← update_bio bio2 (with_init 1);
          mret 1
  | _, _ => mret 0
  end.

Definition bio_ctrl (bio : bid) (cmd num : Z) (parg : option bid) : IO Z :=
  b ← get_ptr bio;
  if cmd =? BIO_C_GET_WRITE_BUF_SIZE then mret (b_size b)
  else if cmd =? BIO_C_GET_WRITE_GUARANTEE then
    mret (match b_peer b with
          | Some _ => if b_closed b then 0 else b_size b - b_len b
          | None => 0
          end)
  else if cmd =? BIO_C_GET_READ_REQUEST then mret (b_request b)
  else if cmd =? BIO_C_RESET_READ_REQUEST then _ ← update_ptr bio (set_request 0); mret 1
  else if cmd =? BIO_C_SHUTDOWN_WR then _ ← update_ptr bio (set_closed true); mret 1
  else if cmd =? BIO_CTRL_GET_CLOSE then x ← get_bio bio; mret (shutdown x)
  else if cmd =? BIO_CTRL_SET_CLOSE then _ ← update_bio bio (with_shutdown (to_int num)); mret 1
  else if cmd =? BIO_CTRL_PENDING then
    match b_peer b with
    | Some peer => peer_b ← get_ptr peer; mret (b_len peer_b)
    | None => mret 0
    end
  else if cmd =? BIO_CTRL_WPENDING then mret (if b_buf b then b_len b else 0)
  else if cmd =? BIO_CTRL_FLUSH then mret 1
  else if cmd =? BIO_CTRL_EOF then
    match parg with
    | Some other_bio => other_b ← get_ptr other_bio; mret (if (b_len other_b =? 0) && b_closed other_b then 1 else 0)
    | None => mret 1
    end
  else mret 0.

Definition methods_biop : BIO_METHOD bio_bio_st :=
  mkMethod BIO_TYPE_BIO (Some bio_write) (Some bio_read) None (Some bio_ctrl) (Some bio_new) (Some bio_free) None.
(** The method table: number 0 is [bio_s_bio()]. *)
Definition bio_s_bio : nat := 0.
Definition methods (m : nat) : option (BIO_METHOD bio_bio_st) := if (m =? bio_s_bio)%nat then Some methods_biop else None.

(** [*bio1_p] and [*bio2_p], [None] when the function returns 0. *)
Definition BIO_new_bio_pair (writebuf1_len writebuf2_len : Z) : IO (option (bid * bid)) :=
  bio1 ← BIO_new methods bio_s_bio;
  bio2 ← BIO_new methods bio_s_bio;
  ok ← (match bio1, bio2 with
        | Some b1, Some b2 => r ← bio_make_pair b1 b2 writebuf1_len writebuf2_len; mret (negb (r =? 0))
        | _, _ => mret false
        end);
  match bio1, bio2, ok with
  | Some b1, Some b2, true => mret (Some (b1, b2))
  | _, _, _ =>
      _ ← BIO_free methods bio1;
      _ ← BIO_free methods bio2;
      mret None
  end.

Definition BIO_ctrl_get_read_request (bio : option bid) : IO Z := r ← BIO_ctrl methods bio BIO_C_GET_READ_REQUEST 0 None; mret (wrap 64 r).
Definition BIO_ctrl_get_write_guarantee (bio : option bid) : IO Z := r ← BIO_ctrl methods bio BIO_C_GET_WRITE_GUARANTEE 0 None; mret (wrap 64 r).
Definition BIO_shutdown_wr (bio : option bid) : IO Z := r ← BIO_ctrl methods bio BIO_C_SHUTDOWN_WR 0 None; mret (to_int r).
End pair.

(** A pair with buffers of 4 and 3 bytes: wrap-around, and end of file. *)
Lemma bio_pair_example :
  let m := methods (A := zero_allocator) in
  match (p ← BIO_new_bio_pair (A := zero_allocator) 4 3;
         match p with
         | None => ub
         | Some (b1, b2) =>
             n1 ← BIO_write m (Some b1) (Some [1; 2; 3]) 3;
             r1 ← BIO_read m (Some b2) true 2;
             n2 ← BIO_write m (Some b1) (Some [4; 5; 6; 7]) 4;
             n3 ← BIO_write m (Some b1) (Some [8]) 1;
             g ← BIO_should_retry b1;
             _ ← BIO_shutdown_wr (A := zero_allocator) (Some b1);
             r2 ← BIO_read m (Some b2) true 100;
             r3 ← BIO_read m (Some b2) true 100;
             _ ← BIO_free m (Some b1);
             r4 ← BIO_read m (Some b2) true 100;
             mret (n1, r1, n2, n3, g, r2, r3, r4)
         end) (mkBios ∅ 0) with
  | Some (r, w) => r = (3, (2, [1; 2]), 3, -1, 8, (4, [3; 4; 5; 6]), (0, []), (-2, [])) ∧ size (bios w) = 1%nat
  | None => False
  end.
Proof. by vm_compute. Qed.
