(* ===== verification/BioPairSpec.v ===== *)
(** BIO pairs as two bounded FIFO channels: the ring buffer against its queue,
    the refinement of every operation, and what follows for whole runs. *)
From S2P Require Import Prelude Mem State Refcount Bio BioPair.

(** ** The store *)
Lemma wp_get_ptr (w : world) b x p (Q : bio_bio_st → world → Prop) :
  bios w !! b = Some x → ptr x = Some p → Q p w → wp (get_ptr b) w Q.
Proof. intros E Ep HQ. eapply wp_deref; [|done]. by rewrite E. Qed.

Lemma wp_update_ptr (w : world) b x p f (Q : unit → world → Prop) :
  bios w !! b = Some x → ptr x = Some p → Q () (mkBios (<[b := with_ptr (Some (f p)) x]> (bios w)) (clock w)) →
  wp (update_ptr b f) w Q.
Proof. intros E Ep HQ. apply st_bind. eapply wp_get_bio; [done|]. apply st_bind. by eapply wp_deref. Qed.

(** ** The ring buffer

    [ring bs off q]: the queue [q] is in the buffer [bs] from [off] on, around
    its end. *)
Definition ring_index (bs : list Z) (off : Z) (i : nat) : nat :=
  let j := off + Z.of_nat i in Z.to_nat (if j <? Z.of_nat (length bs) then j else j - Z.of_nat (length bs)).
Definition ring (bs : list Z) (off : Z) (q : list Z) : Prop :=
  ∀ i, (i < length q)%nat → bs !! ring_index bs off i = q !! i.

Lemma ring_nil bs off : ring bs off [].
Proof. intros i Hi. cbn in Hi. lia. Qed.

Lemma read_range_ring bs off q n : ring bs off q → 0 <= off → 0 <= n <= Z.of_nat (length q) → off + n <= Z.of_nat (length bs) →
  read_range bs off n = Some (take (Z.to_nat n) q).
Proof.
  intros Hr Ho Hn Hb. unfold read_range. destruct (Z.leb_spec 0 off), (Z.leb_spec 0 n), (Z.leb_spec (off + n) (Z.of_nat (length bs))); try lia.
  cbn [andb]. f_equal. apply list_eq_same_length with (Z.to_nat n).
  - rewrite length_take. lia.
  - rewrite length_take, length_drop. lia.
  - intros i x y Hi. rewrite !lookup_take_lt, lookup_drop by done. rewrite <- (Hr i) by lia.
    unfold ring_index. destruct (Z.ltb_spec (off + Z.of_nat i) (Z.of_nat (length bs))); [|lia].
    replace (Z.to_nat (off + Z.of_nat i)) with (Z.to_nat off + i)%nat by lia. congruence.
Qed.

Lemma ring_drop bs off off' q n : ring bs off q → 0 <= off < Z.of_nat (length bs) → (n ≤ length q ≤ length bs)%nat →
  (off' = off + Z.of_nat n ∧ off + Z.of_nat n < Z.of_nat (length bs) ∨ off' = off + Z.of_nat n - Z.of_nat (length bs)) →
  0 <= off' → ring bs off' (drop n q).
Proof.
  intros Hr Ho Hn Hoff Hoff' i Hi. rewrite length_drop in Hi. rewrite lookup_drop, <- Hr by lia. f_equal.
  unfold ring_index. destruct Hoff as [[-> ?]| ->];
    repeat match goal with |- context [?x <? ?y] => destruct (Z.ltb_spec x y) end; lia.
Qed.

(** Appending at the write offset, when it does not cross the end. *)
Lemma ring_append bs off wo q d : ring bs off q → 0 <= off < Z.of_nat (length bs) → (length q + length d ≤ length bs)%nat →
  wo = (if off + Z.of_nat (length q) >=? Z.of_nat (length bs) then off + Z.of_nat (length q) - Z.of_nat (length bs) else off + Z.of_nat (length q)) →
  wo + Z.of_nat (length d) <= Z.of_nat (length bs) → d ≠ [] →
  ∃ bs', write_range bs wo d = Some bs' ∧ length bs' = length bs ∧ ring bs' off (q ++ d).
Proof.
  intros Hr Ho Hl Hwo Hw Hd. assert (Hlen : (0 < length d)%nat) by (destruct d; [done|cbn; lia]).
  unfold write_range. assert (0 <= wo) by (destruct (Z.geb_spec (off + Z.of_nat (length q)) (Z.of_nat (length bs))); lia).
  destruct (Z.leb_spec 0 wo), (Z.leb_spec (wo + Z.of_nat (length d)) (Z.of_nat (length bs))); try lia. cbn [andb].
  assert (Hlen' : length (take (Z.to_nat wo) bs ++ d ++ drop (Z.to_nat wo + length d) bs) = length bs).
  { rewrite !length_app, length_take, length_drop. lia. }
  eexists. split; [done|]. split; [done|]. intros i Hi. rewrite length_app in Hi. unfold ring_index. rewrite Hlen'.
  destruct (Nat.lt_ge_cases i (length q)) as [Hq|Hq].
  - rewrite (lookup_app_l q) by done. rewrite <- Hr by done. unfold ring_index.
    set (j := Z.to_nat (if off + Z.of_nat i <? Z.of_nat (length bs) then off + Z.of_nat i else off + Z.of_nat i - Z.of_nat (length bs))).
    assert (Hj : (j < Z.to_nat wo ∨ Z.to_nat wo + length d ≤ j)%nat ∧ (j < length bs)%nat).
    { subst j. destruct (Z.ltb_spec (off + Z.of_nat i) (Z.of_nat (length bs))), (Z.geb_spec (off + Z.of_nat (length q)) (Z.of_nat (length bs))); lia. }
    destruct Hj as [[?|?] ?].
    + rewrite lookup_app_l by (rewrite length_take; lia). by rewrite lookup_take_lt.
    + rewrite lookup_app_r, lookup_app_r by (rewrite ?length_take; lia). rewrite lookup_drop, length_take. f_equal. lia.
  - rewrite (lookup_app_r q) by lia.
    replace (Z.to_nat _) with (Z.to_nat wo + (i - length q))%nat.
    + rewrite lookup_app_r by (rewrite length_take; lia). rewrite length_take, lookup_app_l by lia. f_equal. lia.
    + destruct (Z.ltb_spec (off + Z.of_nat i) (Z.of_nat (length bs))), (Z.geb_spec (off + Z.of_nat (length q)) (Z.of_nat (length bs))); lia.
Qed.

(** ** Channels *)
Record chan := mkChan { queue : list Z; cap : Z; shut : bool; wanted : Z }.

Record chan_rep (b : bio_bio_st) (c : chan) : Prop := {
  cr_buf : ∃ bs, b_buf b = Some bs ∧ Z.of_nat (length bs) = cap c ∧ ring bs (b_offset b) (queue c);
  cr_size : b_size b = cap c;
  cr_cap : 0 < cap c < 2 ^ 63;
  cr_offset : 0 <= b_offset b < cap c;
  cr_len : b_len b = Z.of_nat (length (queue c));
  cr_full : Z.of_nat (length (queue c)) <= cap c;
  cr_closed : b_closed b = shut c;
  cr_request : b_request b = wanted c;
}.

Definition with_queue (q : list Z) (c : chan) : chan := mkChan q (cap c) (shut c) (wanted c).
Definition with_wanted (n : Z) (c : chan) : chan := mkChan (queue c) (cap c) (shut c) n.

(** What a read of [n > 0] bytes and a write of [data] do to a channel. *)
Definition chan_read (n : Z) (c : chan) : Z * list Z * chan :=
  if decide (queue c = []) then
    if shut c then (0, [], with_wanted 0 c) else (-1, [], with_wanted (n `min` cap c) c)
  else
    let k := n `min` Z.of_nat (length (queue c)) in
    (k, take (Z.to_nat k) (queue c), with_wanted 0 (with_queue (drop (Z.to_nat k) (queue c)) c)).
Definition chan_write (data : list Z) (c : chan) : Z * chan :=
  if shut c then (-1, with_wanted 0 c)
  else if Z.of_nat (length (queue c)) =? cap c then (-1, with_wanted 0 c)
  else
    let k := Z.of_nat (length data) `min` (cap c - Z.of_nat (length (queue c))) in
    (k, with_wanted 0 (with_queue (queue c ++ take (Z.to_nat k) data) c)).

Section loops.
Context {A : Allocator}.

(** One turn of the loop of [bio_read]. *)
Lemma wp_read_iter fuel w peer x b c n (Q : list Z → world → Prop) (k := n `min` (cap c - b_offset b)) :
  bios w !! peer = Some x → ptr x = Some b → chan_rep b c → 0 < n <= Z.of_nat (length (queue c)) →
  (∀ b' (w' := mkBios (<[peer := with_ptr (Some b') x]> (bios w)) (Bio.clock w)),
     chan_rep b' (with_queue (drop (Z.to_nat k) (queue c)) c) → b_peer b' = b_peer b → (k < n → b_offset b' = 0) →
     if n - k =? 0 then Q (take (Z.to_nat k) (queue c)) w'
     else wp (read_loop fuel peer (n - k)) w' (λ more, Q (take (Z.to_nat k) (queue c) ++ more))) →
  wp (read_loop (S fuel) peer n) w Q.
Proof.
  intros Hx Hp [(bs & Hb & Hbl & Hr) Hs Hcap Ho Hl Hf Hc Hq] Hn HQ. cbn [read_loop].
  apply st_bind. eapply wp_get_ptr; [done|done|]. rewrite (wrap_small 64 (b_offset b + n)) by lia. rewrite Hs.
  assert (Hk : (if b_offset b + n <=? cap c then n else cap c ⊟[64] b_offset b) = k).
  { subst k. rewrite wrap_small by lia. destruct (Z.leb_spec (b_offset b + n) (cap c)); lia. }
  rewrite Hk. assert (Hkr : 0 < k <= n ∧ b_offset b + k <= cap c ∧ (k = n ∨ b_offset b + k = cap c)) by lia.
  destruct Hkr as (Hk1 & Hk2 & Hk3). clearbody k.
  apply st_bind. eapply wp_deref; [rewrite Hb; cbn; apply (read_range_ring bs _ (queue c)); [done|lia|lia|lia]|].
  apply st_bind. eapply wp_update_ptr; [done|done|]. apply st_bind. eapply wp_get_ptr; [by apply lookup_insert_eq|done|].
  apply st_bind. eapply wp_update_ptr; [by apply lookup_insert_eq|done|]. cbn [bios]. rewrite insert_insert_eq.
  cbn [b_len set_len b_offset b_size]. rewrite Hl, !wrap_small by lia. rewrite Hs.
  match goal with |- context [set_offset ?o] => set (off := o) end.
  specialize (HQ (set_offset off (set_len (Z.of_nat (length (queue c)) - k) b))). cbn zeta in HQ.
  assert (Hoff : 0 <= off < cap c ∧ (k < n → off = 0) ∧ (Z.of_nat (length (queue c)) = k ∨ Z.of_nat (length (queue c)) ≠ k ∧
      (off = b_offset b + k ∧ b_offset b + k < cap c ∨ off = b_offset b + k - cap c))).
  { subst off. destruct (Z.eqb_spec (Z.of_nat (length (queue c)) - k) 0); cbn [negb]; [lia|].
    destruct (Z.eqb_spec (b_offset b + k) (cap c)); lia. }
  clearbody off. destruct Hoff as (Hoff1 & Hoff2 & Hoff3).
  destruct (n - k =? 0); [apply st_ret, HQ|apply st_bind; eapply st_mono; [apply HQ|by intros; apply st_ret]]; try done;
    (split; cbn; try done; rewrite ?length_drop; try lia; exists bs; split; [done|]; split; [done|];
     destruct Hoff3 as [E|[E Hoff3]]; [rewrite drop_ge by lia; apply ring_nil|eapply ring_drop; [done|lia|lia|lia|lia]]).
Qed.

Lemma wp_read_loop w peer x b c n (Q : list Z → world → Prop) :
  bios w !! peer = Some x → ptr x = Some b → chan_rep b c → 0 < n <= Z.of_nat (length (queue c)) →
  (∀ b', chan_rep b' (with_queue (drop (Z.to_nat n) (queue c)) c) → b_peer b' = b_peer b →
     Q (take (Z.to_nat n) (queue c)) (mkBios (<[peer := with_ptr (Some b') x]> (bios w)) (Bio.clock w))) →
  wp (read_loop 2 peer n) w Q.
Proof.
  intros Hx Hp Hc Hn HQ. eapply wp_read_iter; [done|done|done|done|]. intros b' w' Hc' Hpe Ho.
  pose proof (cr_full _ _ Hc) as Hfull. pose proof (cr_offset _ _ Hc) as Hoff. pose proof (cr_cap _ _ Hc) as Hcap.
  set (k := n `min` (cap c - b_offset b)) in *. assert (Hk : 0 < k <= n) by lia.
  destruct (Z.eqb_spec (n - k) 0) as [E|E]. { replace k with n in * by lia. by apply HQ. }
  specialize (Ho ltac:(lia)). clearbody k. unfold w'.
  eapply wp_read_iter; [by apply lookup_insert_eq|done|done|cbn; rewrite length_drop; lia|].
  intros b2 w2 Hc2 Hpe2 _. rewrite Ho in Hc2 |- *. cbn [cap with_queue queue] in *.
  assert (E2 : (n - k) `min` (cap c - 0) = n - k) by lia. rewrite E2 in Hc2 |- *. destruct (Z.eqb_spec (n - k - (n - k)) 0); [|lia].
  unfold w2. cbn [bios Bio.clock]. rewrite insert_insert_eq.
  unfold with_queue in Hc2. cbn [queue cap shut wanted] in Hc2. rewrite drop_drop in Hc2. replace (Z.to_nat k + Z.to_nat (n - k))%nat with (Z.to_nat n) in Hc2 by lia.
  replace (take (Z.to_nat k) (queue c) ++ take (Z.to_nat (n - k)) (drop (Z.to_nat k) (queue c))) with (take (Z.to_nat n) (queue c)).
  - apply HQ; [exact Hc2|by rewrite Hpe2].
  - replace (Z.to_nat n) with (Z.to_nat k + Z.to_nat (n - k))%nat by lia. by rewrite take_take_drop.
Qed.

(** One turn of the loop of [bio_write]. *)
Definition write_offset (b : bio_bio_st) : Z :=
  if b_offset b + b_len b >=? b_size b then b_offset b + b_len b - b_size b else b_offset b + b_len b.

Lemma wp_write_iter fuel w bio x b c data n (Q : unit → world → Prop) (k := n `min` (cap c - write_offset b)) :
  bios w !! bio = Some x → ptr x = Some b → chan_rep b c →
  0 < n <= Z.of_nat (length data) → n <= cap c - Z.of_nat (length (queue c)) →
  (∀ b' (w' := mkBios (<[bio := with_ptr (Some b') x]> (bios w)) (Bio.clock w)),
     chan_rep b' (with_queue (queue c ++ take (Z.to_nat k) data) c) → b_peer b' = b_peer b → (k < n → write_offset b' = 0) →
     if n - k =? 0 then Q () w' else wp (write_loop fuel bio (drop (Z.to_nat k) data) (n - k)) w' Q) →
  wp (write_loop (S fuel) bio data n) w Q.
Proof.
  intros Hx Hp [(bs & Hb & Hbl & Hr) Hs Hcap Ho Hl Hf Hc Hq] Hn Hn2 HQ. cbn [write_loop].
  apply st_bind. eapply wp_get_ptr; [done|done|]. rewrite (wrap_small 64 (b_offset b + b_len b)) by lia.
  assert (Hwo : (if b_offset b + b_len b >=? b_size b then (b_offset b + b_len b) ⊟[64] b_size b else b_offset b + b_len b) = write_offset b).
  { unfold write_offset. rewrite Hs. destruct (Z.geb_spec (b_offset b + b_len b) (cap c)); [|done]. rewrite wrap_small; lia. }
  rewrite Hwo. assert (Hwr : 0 <= write_offset b < cap c).
  { unfold write_offset. rewrite Hs. destruct (Z.geb_spec (b_offset b + b_len b) (cap c)); lia. }
  rewrite (wrap_small 64 (write_offset b + n)) by lia. rewrite Hs.
  assert (Hk : (if write_offset b + n <=? cap c then n else cap c ⊟[64] write_offset b) = k).
  { subst k. rewrite wrap_small by lia. destruct (Z.leb_spec (write_offset b + n) (cap c)); lia. }
  rewrite Hk. assert (Hkr : 0 < k <= n ∧ write_offset b + k <= cap c ∧ (k = n ∨ write_offset b + k = cap c)) by lia.
  destruct Hkr as (Hk1 & Hk2 & Hk3). clearbody k.
  destruct (ring_append bs (b_offset b) (write_offset b) (queue c) (take (Z.to_nat k) data)) as (bs' & Hw & Hbl' & Hr').
  { done. } { lia. } { rewrite length_take. lia. } { unfold write_offset. rewrite Hs, Hl, Hbl. done. }
  { rewrite length_take. lia. } { intros E%(f_equal length). rewrite length_take in E. cbn in E. lia. }
  apply st_bind. eapply wp_deref.
  { rewrite Hb. unfold read_range at 1. destruct (Z.leb_spec 0 k), (Z.leb_spec (0 + k) (Z.of_nat (length data))); try lia. cbn. exact Hw. }
  apply st_bind. eapply wp_update_ptr; [done|done|]. apply st_bind. eapply wp_update_ptr; [by apply lookup_insert_eq|done|].
  cbn [bios Bio.clock]. rewrite insert_insert_eq, Hl, !wrap_small by lia.
  specialize (HQ (set_len (Z.of_nat (length (queue c)) + k) (set_buf (Some bs') b))). cbn zeta in HQ.
  assert (Hlen : Z.of_nat (length (queue c ++ take (Z.to_nat k) data)) = Z.of_nat (length (queue c)) + k) by (rewrite length_app, length_take; lia).
  destruct (n - k =? 0); apply HQ; try done;
    first [split; cbn; try done; try lia; exists bs'; split_and!; [done|by rewrite Hbl'|done]
          |intros Hlt; unfold write_offset in *; cbn; rewrite Hs, Hl in *;
           destruct (Z.geb_spec (b_offset b + Z.of_nat (length (queue c))) (cap c)), (Z.geb_spec (b_offset b + (Z.of_nat (length (queue c)) + k)) (cap c)); lia].
Qed.

Lemma wp_write_loop w bio x b c data n (Q : unit → world → Prop) :
  bios w !! bio = Some x → ptr x = Some b → chan_rep b c →
  0 < n <= Z.of_nat (length data) → n <= cap c - Z.of_nat (length (queue c)) →
  (∀ b', chan_rep b' (with_queue (queue c ++ take (Z.to_nat n) data) c) → b_peer b' = b_peer b →
     Q () (mkBios (<[bio := with_ptr (Some b') x]> (bios w)) (Bio.clock w))) →
  wp (write_loop 2 bio data n) w Q.
Proof.
  intros Hx Hp Hc Hn Hn2 HQ. eapply wp_write_iter; [done|done|done|done|done|]. intros b' w' Hc' Hpe Ho.
  pose proof (cr_full _ _ Hc) as Hfull. pose proof (cr_offset _ _ Hc) as Hoff. pose proof (cr_cap _ _ Hc) as Hcap.
  assert (Hwr : 0 <= write_offset b < cap c).
  { unfold write_offset. rewrite (cr_size _ _ Hc), (cr_len _ _ Hc). destruct (Z.geb_spec (b_offset b + Z.of_nat (length (queue c))) (cap c)); lia. }
  set (k := n `min` (cap c - write_offset b)) in *. assert (Hk : 0 < k <= n) by lia.
  destruct (Z.eqb_spec (n - k) 0) as [E|E]. { replace k with n in * by lia. by apply HQ. }
  specialize (Ho ltac:(lia)). clearbody k. unfold w'.
  eapply wp_write_iter; [by apply lookup_insert_eq|done|done|rewrite length_drop; lia|cbn; rewrite length_app, length_take; lia|].
  intros b2 w2 Hc2 Hpe2 _. rewrite Ho in Hc2 |- *. cbn [cap with_queue queue] in *.
  assert (E2 : (n - k) `min` (cap c - 0) = n - k) by lia. rewrite E2 in Hc2 |- *. destruct (Z.eqb_spec (n - k - (n - k)) 0); [|lia].
  unfold w2. cbn [bios Bio.clock]. rewrite insert_insert_eq. apply HQ; [|by rewrite Hpe2].
  unfold with_queue in *. cbn [queue cap shut wanted] in Hc2. rewrite <- app_assoc, take_take_drop in Hc2.
  by replace (Z.to_nat k + Z.to_nat (n - k))%nat with (Z.to_nat n) in Hc2 by lia.
Qed.
End loops.

(** ** The two ends *)
Record endpoint := mkEnd { out : chan; e_flags : Z; e_read : Z; e_written : Z }.

Record bio_rep (x : BIO bio_bio_st) (peer : bid) (e : endpoint) : Prop := {
  br_ptr : ∃ b, ptr x = Some b ∧ b_peer b = Some peer ∧ chan_rep b (out e);
  br_method : method x = Some bio_s_bio;
  br_init : Bio.init x = 1;
  br_references : references x = 1;
  br_next : next_bio x = None;
  br_flags : flags x = e_flags e;
  br_read : num_read x = e_read e;
  br_written : num_write x = e_written e;
}.

(** The world holds the two BIOs and nothing else. *)
Definition two (b1 b2 : bid) (x1 x2 : BIO bio_bio_st) (t : nat) : world := mkBios (<[b1 := x1]> {[b2 := x2]}) t.

Section two.
Context (b1 b2 : bid) (Hne : b1 ≠ b2).
Implicit Types (x : BIO bio_bio_st) (p : bio_bio_st).

Lemma two_swap x1 x2 t : two b1 b2 x1 x2 t = two b2 b1 x2 x1 t.
Proof. unfold two. f_equal. by apply insert_insert_ne. Qed.
Lemma two_1 x1 x2 t : bios (two b1 b2 x1 x2 t) !! b1 = Some x1.
Proof. apply lookup_insert_eq. Qed.
Lemma two_2 x1 x2 t : bios (two b1 b2 x1 x2 t) !! b2 = Some x2.
Proof. unfold two. cbn. rewrite lookup_insert_ne by done. apply lookup_singleton_eq. Qed.
Lemma two_set_1 x1 x1' x2 t t' : mkBios (<[b1 := x1']> (bios (two b1 b2 x1 x2 t))) t' = two b1 b2 x1' x2 t'.
Proof. unfold two. cbn. by rewrite insert_insert_eq. Qed.
Lemma two_set_2 x1 x2 x2' t t' : mkBios (<[b2 := x2']> (bios (two b1 b2 x1 x2 t))) t' = two b1 b2 x1 x2' t'.
Proof. unfold two. cbn. rewrite insert_insert_ne by done. by rewrite insert_singleton_eq. Qed.

Lemma wp_get_1 x1 x2 t (Q : BIO bio_bio_st → world → Prop) : Q x1 (two b1 b2 x1 x2 t) → wp (get_bio b1) (two b1 b2 x1 x2 t) Q.
Proof. intros. eapply wp_get_bio; [apply two_1|done]. Qed.
Lemma wp_update_1 x1 x2 t f (Q : unit → world → Prop) : Q () (two b1 b2 (f x1) x2 t) → wp (update_bio b1 f) (two b1 b2 x1 x2 t) Q.
Proof. intros. eapply wp_update_bio; [apply two_1|]. by rewrite two_set_1. Qed.
Lemma wp_ptr_1 x1 x2 t p (Q : bio_bio_st → world → Prop) : ptr x1 = Some p → Q p (two b1 b2 x1 x2 t) → wp (get_ptr b1) (two b1 b2 x1 x2 t) Q.
Proof. intros. eapply wp_get_ptr; [apply two_1|done|done]. Qed.
Lemma wp_ptr_2 x1 x2 t p (Q : bio_bio_st → world → Prop) : ptr x2 = Some p → Q p (two b1 b2 x1 x2 t) → wp (get_ptr b2) (two b1 b2 x1 x2 t) Q.
Proof. intros. eapply wp_get_ptr; [apply two_2|done|done]. Qed.
Lemma wp_update_ptr_1 x1 x2 t p f (Q : unit → world → Prop) : ptr x1 = Some p →
  Q () (two b1 b2 (with_ptr (Some (f p)) x1) x2 t) → wp (update_ptr b1 f) (two b1 b2 x1 x2 t) Q.
Proof. intros. eapply wp_update_ptr; [apply two_1|done|]. by rewrite two_set_1. Qed.
Lemma wp_update_ptr_2 x1 x2 t p f (Q : unit → world → Prop) : ptr x2 = Some p →
  Q () (two b1 b2 x1 (with_ptr (Some (f p)) x2) t) → wp (update_ptr b2 f) (two b1 b2 x1 x2 t) Q.
Proof. intros. eapply wp_update_ptr; [apply two_2|done|]. by rewrite two_set_2. Qed.
End two.

Lemma to_int_small n : - 2 ^ 31 <= n < 2 ^ 31 → to_int n = n.
Proof. intros. unfold to_int. rewrite Z.mod_small by lia. lia. Qed.

(** What the calls do to the caller's end and to the channel. *)
Definition clear_retry (f : Z) : Z := f .& Z.lnot kRetryFlags.
Definition end_read (r : Z) (e : endpoint) : endpoint :=
  mkEnd (out e) (if r =? -1 then clear_retry (e_flags e) .| (BIO_FLAGS_READ .| BIO_FLAGS_SHOULD_RETRY) else clear_retry (e_flags e))
    (if r >? 0 then e_read e ⊞[64] r else e_read e) (e_written e).
Definition with_out (c : chan) (e : endpoint) : endpoint := mkEnd c (e_flags e) (e_read e) (e_written e).
Definition end_write (r : Z) (c : chan) (e : endpoint) : endpoint :=
  mkEnd c (if (r =? -1) && negb (shut (out e)) then clear_retry (e_flags e) .| (BIO_FLAGS_WRITE .| BIO_FLAGS_SHOULD_RETRY)
           else clear_retry (e_flags e))
    (e_read e) (if r >? 0 then e_written e ⊞[64] r else e_written e).

Section ops.
Context {A : Allocator}.

Lemma wp_BIO_read b1 b2 x1 x2 t e1 e2 n (Q : Z * list Z → world → Prop) :
  b1 ≠ b2 → bio_rep x1 b2 e1 → bio_rep x2 b1 e2 → 0 < n <= INT_MAX →
  (∀ x1' x2' r o c, chan_read n (out e2) = (r, o, c) → bio_rep x1' b2 (end_read r e1) → bio_rep x2' b1 (with_out c e2) →
     Q (r, o) (two b1 b2 x1' x2' t)) →
  wp (BIO_read methods (Some b1) true n) (two b1 b2 x1 x2 t) Q.
Proof.
  intros Hne [(p1 & Hp1 & Hpe1 & Hc1) Hm1 Hi1 Hr1 Hn1 Hf1 Hnr1 Hnw1] [(p2 & Hp2 & Hpe2 & Hc2) Hm2 Hi2 Hr2 Hn2 Hf2 Hnr2 Hnw2] Hn HQ.
  unfold INT_MAX in Hn. unfold BIO_read. apply st_bind, wp_get_1. unfold method_of. rewrite Hm1. cbn [mbind option_bind methods bio_s_bio Nat.eqb methods_biop bread].
  rewrite Hi1. destruct (Z.leb_spec n 0); [lia|]. cbn [Z.eqb]. apply st_bind.
  unfold bio_read. rewrite wrap_small by lia. apply st_bind, wp_update_1. apply st_bind, wp_get_1. cbn [Bio.init with_retry_reason with_flags].
  rewrite Hi1. cbn [Z.eqb]. apply st_bind. eapply wp_ptr_1; [done|]. apply st_bind. eapply wp_deref; [done|].
  apply st_bind. eapply wp_update_ptr_2; [done|done|]. cbn [negb orb]. destruct (Z.eqb_spec n 0); [lia|].
  apply st_bind. eapply wp_ptr_2; [done|done|]. cbn [b_len set_request b_closed b_size].
  unfold chan_read in HQ. rewrite (cr_len _ _ Hc2), (cr_closed _ _ Hc2), (cr_size _ _ Hc2). pose proof (cr_cap _ _ Hc2) as Hcap.
  destruct (Z.eqb_spec (Z.of_nat (length (queue (out e2)))) 0) as [El|El].
  - assert (Eq : queue (out e2) = []) by (by apply nil_length_inv; lia). rewrite decide_True in HQ by done. destruct (shut (out e2)) eqn:Es.
    + do 3 apply st_ret. apply (HQ _ _ 0 [] (with_wanted 0 (out e2))); [done| |].
      * split; cbn; try done; [by exists p1|by rewrite Hf1].
      * split; cbn; try done. exists (set_request 0 p2). split_and!; [done|done|]. destruct Hc2; by split.
    + apply st_bind, wp_update_1. apply st_bind. eapply wp_update_ptr_2; [done|done|]. do 3 apply st_ret.
      replace (if n <=? cap (out e2) then n else cap (out e2)) with (n `min` cap (out e2)) by (destruct (Z.leb_spec n (cap (out e2))); lia).
      eapply (HQ _ _ (-1) []); [done| |].
      * split; cbn; try done; [by exists p1|by rewrite Hf1].
      * split; cbn; try done. eexists. split_and!; [done|done|]. destruct Hc2; by split.
  - assert (Eq : queue (out e2) ≠ []) by (intros E; by rewrite E in El). rewrite decide_False in HQ by done.
    replace (if _ <? _ then _ else _) with (n `min` Z.of_nat (length (queue (out e2)))) by (destruct (Z.ltb_spec (Z.of_nat (length (queue (out e2)))) n); lia).
    set (k := n `min` Z.of_nat (length (queue (out e2)))) in *. assert (Hk : 0 < k <= n ∧ k <= Z.of_nat (length (queue (out e2)))) by lia. clearbody k.
    apply st_bind. eapply (wp_read_loop _ b2 _ _ (with_wanted 0 (out e2))); [by apply two_2|done|destruct Hc2; by split|cbn; lia|].
    intros b' Hb' Hpe'. rewrite two_set_2 by done. do 2 apply st_ret. rewrite to_int_small by lia. cbn beta.
    destruct (Z.gtb_spec k 0); [|lia]. apply st_bind, wp_update_1, st_ret.
    eapply (HQ _ _ k); [done| |].
    + split; cbn; try done; [by exists p1| |by rewrite Hnr1; destruct (Z.gtb_spec k 0); [|lia]].
      rewrite Hf1. by destruct (Z.eqb_spec k (-1)); [lia|].
    + split; cbn; try done. exists b'. split_and!; [done|by rewrite Hpe'|done].
Qed.

Lemma wp_BIO_write b1 b2 x1 x2 t e1 e2 data (Q : Z → world → Prop) :
  b1 ≠ b2 → bio_rep x1 b2 e1 → bio_rep x2 b1 e2 → 0 < Z.of_nat (length data) <= INT_MAX →
  (∀ x1' r c, chan_write data (out e1) = (r, c) → bio_rep x1' b2 (end_write r c e1) → Q r (two b1 b2 x1' x2 t)) →
  wp (BIO_write methods (Some b1) (Some data) (Z.of_nat (length data))) (two b1 b2 x1 x2 t) Q.
Proof.
  intros Hne [(p1 & Hp1 & Hpe1 & Hc1) Hm1 Hi1 Hr1 Hn1 Hf1 Hnr1 Hnw1] _ Hn HQ.
  unfold INT_MAX in Hn. unfold BIO_write. apply st_bind, wp_get_1. unfold method_of. rewrite Hm1. cbn [mbind option_bind methods bio_s_bio Nat.eqb methods_biop bwrite].
  rewrite Hi1. destruct (Z.leb_spec (Z.of_nat (length data)) 0); [lia|]. cbn [Z.eqb]. apply st_bind.
  unfold bio_write. rewrite (wrap_small 64 (Z.of_nat (length data))) by lia. apply st_bind, wp_update_1. apply st_bind, wp_get_1.
  cbn [Bio.init with_retry_reason with_flags]. rewrite Hi1. cbn [Z.eqb orb]. destruct (Z.eqb_spec (Z.of_nat (length data)) 0); [lia|].
  apply st_bind. eapply wp_ptr_1; [done|]. apply st_bind. eapply wp_update_ptr_1; [done|].
  pose proof (cr_cap _ _ Hc1) as Hcap. pose proof (cr_full _ _ Hc1) as Hfull.
  rewrite (cr_len _ _ Hc1), (cr_closed _ _ Hc1), (cr_size _ _ Hc1). unfold chan_write in HQ.
  assert (Hw0 : chan_rep (set_request 0 p1) (with_wanted 0 (out e1))) by (destruct Hc1; by split).
  destruct (shut (out e1)) eqn:Es.
  { do 3 apply st_ret. eapply (HQ _ (-1)); [done|]. split; cbn; try done; [by exists (set_request 0 p1)|by rewrite Es, Hf1]. }
  destruct (Z.eqb_spec (Z.of_nat (length (queue (out e1)))) (cap (out e1))).
  { apply st_bind, wp_update_1. do 3 apply st_ret. eapply (HQ _ (-1)); [done|].
    split; cbn; try done; [by exists (set_request 0 p1)|by rewrite Es, Hf1]. }
  rewrite (wrap_small 64 (cap (out e1) - Z.of_nat (length (queue (out e1))))) by lia.
  replace (if _ >? _ then _ else _) with (Z.of_nat (length data) `min` (cap (out e1) - Z.of_nat (length (queue (out e1)))))
    by (destruct (Z.gtb_spec (Z.of_nat (length data)) (cap (out e1) - Z.of_nat (length (queue (out e1))))); lia).
  set (k := Z.of_nat (length data) `min` (cap (out e1) - Z.of_nat (length (queue (out e1))))) in *.
  assert (Hk : 0 < k <= Z.of_nat (length data) ∧ k <= cap (out e1) - Z.of_nat (length (queue (out e1)))) by lia. clearbody k.
  apply st_bind. eapply (wp_write_loop _ b1 _ _ (with_wanted 0 (out e1))); [by apply two_1|done|done|lia|cbn; lia|].
  intros b' Hb' Hpe'. rewrite two_set_1. apply st_ret. rewrite to_int_small by lia. cbn beta.
  apply st_bind. destruct (Z.gtb_spec k 0); [|lia]. apply wp_update_1, st_ret. eapply (HQ _ k); [done|]. split; cbn; try done.
  - exists b'. split_and!; [done|by rewrite Hpe'|done].
  - rewrite Hf1. by destruct (Z.eqb_spec k (-1)); [lia|].
  - rewrite Hnw1. by destruct (Z.gtb_spec k 0); [|lia].
Qed.

Lemma wp_BIO_shutdown_wr b1 b2 x1 x2 t e1 (Q : Z → world → Prop) : bio_rep x1 b2 e1 →
  (∀ x1', bio_rep x1' b2 (with_out (mkChan (queue (out e1)) (cap (out e1)) true (wanted (out e1))) e1) → Q 1 (two b1 b2 x1' x2 t)) →
  wp (BIO_shutdown_wr (Some b1)) (two b1 b2 x1 x2 t) Q.
Proof.
  intros [(p1 & Hp1 & Hpe1 & Hc1) Hm1 Hi1 Hr1 Hn1 Hf1 Hnr1 Hnw1] HQ. apply st_bind. unfold BIO_ctrl. apply st_bind, wp_get_1.
  unfold method_of. rewrite Hm1. cbn [mbind option_bind methods bio_s_bio Nat.eqb methods_biop ctrl].
  unfold bio_ctrl. apply st_bind. eapply wp_ptr_1; [done|]. cbn. apply st_bind. eapply wp_update_ptr_1; [done|].
  do 2 apply st_ret. apply HQ. split; cbn; try done. exists (set_closed true p1). split_and!; [done|done|]. destruct Hc1; by split.
Qed.

Lemma wp_BIO_pending b1 b2 x1 x2 t e1 e2 (Q : Z → world → Prop) : b1 ≠ b2 → bio_rep x1 b2 e1 → bio_rep x2 b1 e2 →
  Q (Z.of_nat (length (queue (out e2)))) (two b1 b2 x1 x2 t) → wp (BIO_pending methods (Some b1)) (two b1 b2 x1 x2 t) Q.
Proof.
  intros Hne [(p1 & Hp1 & Hpe1 & Hc1) Hm1 Hi1 Hr1 Hn1 Hf1 Hnr1 Hnw1] [(p2 & Hp2 & Hpe2 & Hc2) _ _ _ _ _ _ _] HQ.
  apply st_bind. unfold BIO_ctrl. apply st_bind, wp_get_1. unfold method_of. rewrite Hm1.
  cbn [mbind option_bind methods bio_s_bio Nat.eqb methods_biop ctrl]. unfold bio_ctrl. apply st_bind. eapply wp_ptr_1; [done|].
  cbn. rewrite Hpe1. apply st_bind. eapply wp_ptr_2; [done|done|]. do 2 apply st_ret. rewrite (cr_len _ _ Hc2).
  destruct (Z.ltb_spec (Z.of_nat (length (queue (out e2)))) 0); [lia|done].
Qed.

(** ** Creating and freeing *)

Lemma wp_alloc {B} (f : nat → option B) w (Q : option B → world → Prop) :
  Q (f (Bio.clock w)) (mkBios (bios w) (S (Bio.clock w))) → wp (alloc f) w Q.
Proof. done. Qed.

Definition fresh_pair : bio_bio_st := mkPair None false 0 0 (17 * 1024) None 0.
Definition fresh_bio : BIO bio_bio_st := mkBIO (Some bio_s_bio) 0 1 0 0 0 1 (Some fresh_pair) None 0 0.

Lemma wp_BIO_new w (Q : option bid → world → Prop) :
  (∀ t, ¬ NeverFails A → Q None (mkBios (bios w) t)) →
  (∀ b t, b ∉ dom (bios w) → Q (Some b) (mkBios (<[b := fresh_bio]> (bios w)) t)) →
  wp (BIO_new methods bio_s_bio) w Q.
Proof.
  intros HN HS. unfold BIO_new. apply st_bind. unfold wp at 1. cbn [Bio.clock bios].
  destruct (OPENSSL_zalloc (Bio.clock w) sizeof_BIO) as [block|] eqn:E.
  2: { apply st_ret, HN. intros Hnf. unfold OPENSSL_zalloc in E.
       destruct (OPENSSL_malloc_succeeds (Bio.clock w) sizeof_BIO) as [b Hb]; [done|]. by rewrite Hb in E. }
  apply st_bind, wp_gets. cbn [bios]. set (b := fresh (dom (bios w))). assert (Hb : b ∉ dom (bios w)) by apply is_fresh.
  clearbody b. apply st_bind, wp_modify. apply st_bind. eapply wp_deref; [done|]. cbn [create methods_biop].
  apply st_bind. unfold bio_new. apply st_bind, wp_alloc. cbn [Bio.clock bios].
  destruct (OPENSSL_zalloc (S (Bio.clock w)) sizeof_bio_bio_st) as [block2|] eqn:E2.
  - apply st_bind. eapply wp_update_bio; [by apply lookup_insert_eq|]. apply st_ret. cbn [Z.eqb]. apply st_ret.
    cbn [bios]. rewrite insert_insert_eq. by apply HS.
  - apply st_ret. cbn [Z.eqb]. apply st_bind, wp_modify, st_ret. cbn [bios Bio.clock]. rewrite delete_insert_id.
    + apply HN. intros Hnf. unfold OPENSSL_zalloc in E2.
      destruct (OPENSSL_malloc_succeeds (S (Bio.clock w)) sizeof_bio_bio_st) as [b' Hb']; [done|]. by rewrite Hb' in E2.
    + by apply not_elem_of_dom.
Qed.

Definition buffer_size (n : Z) : Z := if n =? 0 then 17 * 1024 else n.

Lemma wp_make_buffer w b x n (Q : bool → world → Prop) :
  bios w !! b = Some x → ptr x = Some fresh_pair → 0 <= n < 2 ^ 63 →
  (∀ t p, ¬ NeverFails A → b_peer p = None → Q false (mkBios (<[b := with_ptr (Some p) x]> (bios w)) t)) →
  (∀ t bs, Z.of_nat (length bs) = buffer_size n →
     Q true (mkBios (<[b := with_ptr (Some (mkPair None false 0 0 (buffer_size n) (Some bs) 0)) x]> (bios w)) t)) →
  wp (make_buffer b n) w Q.
Proof.
  intros Hb Hp Hn HN HS. unfold make_buffer. apply st_bind. eapply wp_get_ptr; [done|done|]. cbn [b_buf fresh_pair].
  assert (Hsz : ∀ (x' : BIO bio_bio_st) p t, x' = with_ptr (Some p) x → p = set_size (buffer_size n) fresh_pair →
    wp (b0 ← get_ptr b; block ← alloc (λ t, OPENSSL_malloc t (b_size b0)); _ ← update_ptr b (set_buf block);
        match block with
        | None => mret false
        | Some _ => _ ← update_ptr b (set_len 0); _ ← update_ptr b (set_offset 0); mret true
        end) (mkBios (<[b := x']> (bios w)) t) Q).
  { intros x' p t -> ->. apply st_bind. eapply wp_get_ptr; [by apply lookup_insert_eq|done|]. apply st_bind, wp_alloc. cbn [Bio.clock bios b_size set_size].
    assert (Hsize : 0 <= buffer_size n < 2 ^ 64 - 8) by (unfold buffer_size; destruct (Z.eqb_spec n 0); lia).
    apply st_bind. eapply wp_update_ptr; [by apply lookup_insert_eq|done|]. cbn [bios Bio.clock]. rewrite insert_insert_eq.
    destruct (OPENSSL_malloc t (buffer_size n)) as [block|] eqn:E.
    - apply st_bind. eapply wp_update_ptr; [by apply lookup_insert_eq|done|]. cbn [bios Bio.clock]. rewrite insert_insert_eq.
      apply st_bind. eapply wp_update_ptr; [by apply lookup_insert_eq|done|]. cbn [bios Bio.clock]. rewrite insert_insert_eq.
      apply st_ret, HS. eapply OPENSSL_malloc_length; [|done]. lia.
    - apply st_ret. apply HN; [|done]. intros Hnf. destruct (OPENSSL_malloc_succeeds t (buffer_size n)) as [b' Hb']; [done|]. by rewrite Hb' in E. }
  apply st_bind. unfold buffer_size in Hsz. destruct (Z.eqb_spec n 0); cbn [negb].
  - apply st_ret. destruct w as [m t]. cbn in *. rewrite <- (insert_id m b x) at 1 by done.
    eapply (Hsz _ fresh_pair); [|done]. destruct x. cbn in *. by subst.
  - eapply wp_update_ptr; [done|done|]. by eapply Hsz.
Qed.

(** [BIO_free] of a BIO that is not, or no longer, in a pair. *)
Lemma wp_BIO_free_single w b x p (Q : Z → world → Prop) :
  bios w !! b = Some x → ptr x = Some p → b_peer p = None → method x = Some bio_s_bio → references x = 1 → next_bio x = None →
  (∀ t, Q 1 (mkBios (delete b (bios w)) t)) → wp (BIO_free methods (Some b)) w Q.
Proof.
  intros Hb Hp Hpe Hm Hr Hnx HQ. apply st_bind, wp_gets. cbn [free_loop]. apply st_bind. eapply wp_get_bio; [done|].
  rewrite Hr. apply st_bind. eapply wp_deref; [reflexivity|]. apply st_bind, wp_modify. cbn [negb].
  apply st_bind. cbn [BIO_pop]. apply st_bind. eapply wp_get_bio; [by apply lookup_insert_eq|]. apply st_bind, wp_modify, st_ret.
  cbn [next_bio with_references bios]. rewrite Hnx, insert_insert_eq. unfold method_of. rewrite Hm.
  cbn [mbind option_bind methods bio_s_bio Nat.eqb methods_biop destroy]. apply st_bind, st_bind. unfold bio_free.
  apply st_bind. eapply wp_get_ptr; [by apply lookup_insert_eq|done|]. rewrite Hpe. apply st_bind, st_ret.
  apply st_bind. eapply wp_update_bio; [by apply lookup_insert_eq|]. do 2 apply st_ret. apply st_bind, wp_modify. cbn [bios Bio.clock].
  rewrite !delete_insert_eq. destruct (size (bios w)); apply st_ret; apply HQ.
Qed.

(** What is left of an end whose peer has been freed. *)
Record orphan (x : BIO bio_bio_st) : Prop := {
  or_ptr : ∃ p, ptr x = Some p ∧ b_peer p = None;
  or_init : Bio.init x = 0;
  or_method : method x = Some bio_s_bio;
  or_references : references x = 1;
  or_next : next_bio x = None;
}.

Lemma wp_BIO_free_pair b1 b2 x1 x2 t e1 e2 (Q : Z → world → Prop) : b1 ≠ b2 → bio_rep x1 b2 e1 → bio_rep x2 b1 e2 →
  (∀ x2' t, orphan x2' → Q 1 (mkBios {[b2 := x2']} t)) → wp (BIO_free methods (Some b1)) (two b1 b2 x1 x2 t) Q.
Proof.
  intros Hne [(p1 & Hp1 & Hpe1 & Hc1) Hm1 Hi1 Hr1 Hn1 _ _ _] [(p2 & Hp2 & Hpe2 & Hc2) Hm2 Hi2 Hr2 Hn2 _ _ _] HQ.
  apply st_bind, wp_gets. cbn [free_loop]. apply st_bind, wp_get_1.
  rewrite Hr1. apply st_bind. eapply wp_deref; [reflexivity|]. apply st_bind, wp_modify. rewrite two_set_1. cbn [negb].
  apply st_bind. cbn [BIO_pop]. apply st_bind, wp_get_1. apply st_bind, wp_modify, st_ret. rewrite two_set_1.
  cbn [next_bio with_references]. rewrite Hn1. unfold method_of. rewrite Hm1.
  cbn [mbind option_bind methods bio_s_bio Nat.eqb methods_biop destroy]. apply st_bind, st_bind. unfold bio_free.
  apply st_bind. eapply wp_ptr_1; [done|]. rewrite Hpe1. apply st_bind. unfold bio_destroy_pair. apply st_bind, wp_get_1.
  cbn [ptr with_next with_references]. rewrite Hp1, Hpe1. apply st_bind. eapply wp_update_ptr_2; [done|done|].
  rewrite two_swap by done. apply st_bind, wp_update_1. rewrite two_swap by done.
  apply st_bind. eapply wp_update_ptr_2; [done|done|]. apply st_bind. eapply wp_update_ptr_1; [done|].
  apply st_bind, wp_update_1. eapply wp_update_ptr_1; [done|]. apply st_bind, wp_update_1. do 2 apply st_ret.
  apply st_bind, wp_modify. unfold two. cbn [bios Bio.clock]. rewrite delete_insert_id by by rewrite lookup_singleton_ne.
  match goal with |- wp (free_loop ?m ?f _) _ _ => destruct f end; apply st_ret; apply HQ; split; cbn; try done; by eexists.
Qed.

Definition new_end (n : Z) : endpoint := mkEnd (mkChan [] (buffer_size n) false 0) 0 0 0.

Lemma new_chan n bs p : 0 <= n < 2 ^ 63 → Z.of_nat (length bs) = buffer_size n →
  p = mkPair (b_peer p) false 0 0 (buffer_size n) (Some bs) 0 → chan_rep p (out (new_end n)).
Proof.
  intros Hn Hbs ->. assert (0 < buffer_size n < 2 ^ 63) by (unfold buffer_size; destruct (Z.eqb_spec n 0); lia).
  split; cbn; try done; try lia. exists bs. split_and!; [done|done|apply ring_nil].
Qed.

Lemma wp_BIO_new_bio_pair t n1 n2 (Q : option (bid * bid) → world → Prop) : 0 <= n1 < 2 ^ 63 → 0 <= n2 < 2 ^ 63 →
  (∀ t, ¬ NeverFails A → Q None (mkBios ∅ t)) →
  (∀ b1 b2 x1 x2 t, b1 ≠ b2 → bio_rep x1 b2 (new_end n1) → bio_rep x2 b1 (new_end n2) → Q (Some (b1, b2)) (two b1 b2 x1 x2 t)) →
  wp (BIO_new_bio_pair n1 n2) (mkBios ∅ t) Q.
Proof.
  intros Hn1 Hn2 HN HS. unfold BIO_new_bio_pair. apply st_bind, wp_BIO_new.
  - (* the first BIO_new fails *)
    intros t1 Hnf. apply st_bind, wp_BIO_new.
    + intros t2 _. apply st_bind, st_ret. apply st_bind, st_bind, wp_gets. apply st_ret. apply st_bind, st_bind, wp_gets. apply st_ret, st_ret, HN. done.
    + intros b t2 Hb. apply st_bind, st_ret. apply st_bind, st_bind, wp_gets. apply st_ret. apply st_bind.
      eapply wp_BIO_free_single; [by apply lookup_insert_eq|done|done|done|done|done|]. intros t3. apply st_ret. cbn. rewrite delete_insert_id by done. by apply HN.
  - intros b1 t1 Hb1. cbn [bios]. apply st_bind, wp_BIO_new.
    + intros t2 Hnf. apply st_bind, st_ret. apply st_bind.
      eapply wp_BIO_free_single; [by apply lookup_insert_eq|done|done|done|done|done|]. intros t3. cbn [bios Bio.clock].
      apply st_bind, st_bind, wp_gets. apply st_ret, st_ret. rewrite delete_insert_id by done. by apply HN.
    + intros b2 t2 Hb2. cbn [bios] in *. assert (Hne : b1 ≠ b2) by (intros ->; apply Hb2; set_solver).
      change (mkBios (<[b2 := fresh_bio]> (<[b1 := fresh_bio]> ∅)) t2) with (two b2 b1 fresh_bio fresh_bio t2). rewrite two_swap by done.
      (* the BIOs are freed when a buffer cannot be allocated *)
      assert (Hfail : ∀ x1 x2 p1 p2 t, ¬ NeverFails A → x1 = with_ptr (Some p1) fresh_bio → x2 = with_ptr (Some p2) fresh_bio →
        b_peer p1 = None → b_peer p2 = None →
        wp (_ ← BIO_free methods (Some b1); _ ← BIO_free methods (Some b2); mret None) (two b1 b2 x1 x2 t) Q).
      { intros x1 x2 p1 p2 t3 Hnf -> -> Hp1 Hp2. apply st_bind. eapply wp_BIO_free_single; [apply two_1|done|done|done|done|done|]. intros t4.
        apply st_bind. unfold two. cbn [bios Bio.clock]. rewrite delete_insert_id by by rewrite lookup_singleton_ne.
        eapply wp_BIO_free_single; [by apply lookup_singleton_eq|done|done|done|done|done|]. intros t5. apply st_ret. cbn [bios Bio.clock].
        rewrite delete_singleton_eq. by apply HN. }
      apply st_bind, st_bind. unfold bio_make_pair. apply st_bind. eapply wp_ptr_1; [done|]. apply st_bind. eapply wp_ptr_2; [done|done|].
      cbn [b_peer fresh_pair]. apply st_bind. eapply wp_make_buffer; [apply two_1|done|done| |].
      * intros t3 p Hnf Hp. cbn [negb]. do 2 apply st_ret. cbn [Z.eqb negb]. rewrite two_set_1. by eapply Hfail.
      * intros t3 bs1 Hbs1. rewrite two_set_1. cbn [negb]. apply st_bind. eapply wp_make_buffer; [by apply two_2|done|done| |].
        -- intros t4 p Hnf Hp. cbn [negb]. do 2 apply st_ret. cbn [Z.eqb negb]. rewrite two_set_2 by done. by eapply Hfail.
        -- intros t4 bs2 Hbs2. rewrite two_set_2 by done. cbn [negb]. apply st_bind. eapply wp_update_ptr_1; [done|].
           apply st_bind. eapply wp_update_ptr_2; [done|done|]. apply st_bind, wp_update_1. rewrite two_swap by done. apply st_bind, wp_update_1.
           rewrite two_swap by done. do 3 apply st_ret. apply HS; [done| |];
             (split; cbn; try done; eexists; split_and!; [done|done|by eapply new_chan]).
Qed.
End ops.
