(* ===== verification/BioPairRun.v ===== *)
(** Whole runs of a BIO pair: every sequence of calls behaves as two bounded
    FIFO channels, no byte is lost, duplicated or reordered, and a transfer of
    any length gets through buffers of any size. *)
From S2P Require Import Prelude Mem State Refcount Bio BioPair BioPairSpec.

(** Calls on either end; [true] is the first BIO of the pair. *)
Inductive pair_op := PWrite (s : bool) (data : list Z) | PRead (s : bool) (n : Z) | PShutdown (s : bool).

Definition valid_op (o : pair_op) : Prop :=
  match o with
  | PWrite _ data => Z.of_nat (length data) <= INT_MAX
  | PRead _ n => n <= INT_MAX
  | PShutdown _ => True
  end.

(** ** The abstract pair *)
Definition ends : Type := endpoint * endpoint.
Definition turn (s : bool) (e : ends) : ends := if s then e else (e.2, e.1).

Definition shut_chan (c : chan) : chan := mkChan (queue c) (cap c) true (wanted c).
Definition end_op (o : pair_op) (e : ends) : (Z * list Z) * ends :=
  let '(me, other) := e in
  match o with
  | PWrite _ [] => ((0, []), e)
  | PWrite _ data => let '(r, c) := chan_write data (out me) in ((r, []), (end_write r c me, other))
  | PRead _ n =>
      if n <=? 0 then ((0, []), e)
      else let '(r, o, c) := chan_read n (out other) in ((r, o), (end_read r me, with_out c other))
  | PShutdown _ => ((1, []), (with_out (shut_chan (out me)) me, other))
  end.
Definition side (o : pair_op) : bool := match o with PWrite s _ | PRead s _ | PShutdown s => s end.
Definition fifo_op (o : pair_op) (e : ends) : (Z * list Z) * ends :=
  let '(r, e') := end_op o (turn (side o) e) in (r, turn (side o) e').
Fixpoint fifo_run (os : list pair_op) (e : ends) : list (Z * list Z) * ends :=
  match os with
  | [] => ([], e)
  | o :: os => let '(r, e) := fifo_op o e in let '(rs, e) := fifo_run os e in (r :: rs, e)
  end.

Section run.
Context {A : Allocator}.

Definition run_end_op (o : pair_op) (b : bid) : IO (Z * list Z) :=
  match o with
  | PWrite _ data => r ← BIO_write methods (Some b) (Some data) (Z.of_nat (length data)); mret (r, [])
  | PRead _ n => BIO_read methods (Some b) true n
  | PShutdown _ => r ← BIO_shutdown_wr (Some b); mret (r, [])
  end.
Definition run_op (o : pair_op) (b1 b2 : bid) : IO (Z * list Z) := run_end_op o (if side o then b1 else b2).
Fixpoint run_ops (os : list pair_op) (b1 b2 : bid) : IO (list (Z * list Z)) :=
  match os with
  | [] => mret []
  | o :: os => r ← run_op o b1 b2; rs ← run_ops os b1 b2; mret (r :: rs)
  end.

(** ** Refinement *)
Definition pair_rep (w : world) (b1 b2 : bid) (e : ends) : Prop :=
  b1 ≠ b2 ∧ ∃ x1 x2 t, w = two b1 b2 x1 x2 t ∧ bio_rep x1 b2 e.1 ∧ bio_rep x2 b1 e.2.

Lemma pair_rep_swap w b1 b2 e : pair_rep w b1 b2 e → pair_rep w b2 b1 (e.2, e.1).
Proof. intros (Hne & x1 & x2 & t & -> & H1 & H2). split; [done|]. exists x2, x1, t. by rewrite two_swap. Qed.

Lemma wp_end_op o w b1 b2 e (Q : Z * list Z → world → Prop) : valid_op o → pair_rep w b1 b2 e →
  (∀ w', pair_rep w' b1 b2 (end_op o e).2 → Q (end_op o e).1 w') → wp (run_end_op o b1) w Q.
Proof.
  intros Hv (Hne & x1 & x2 & t & -> & H1 & H2) HQ. destruct e as [e1 e2]. cbn [fst snd] in *.
  destruct o as [s data|s n|s]; cbn [run_end_op valid_op] in *.
  - destruct data as [|d data].
    + apply st_bind. unfold BIO_write. apply st_bind, wp_get_1. unfold method_of. rewrite (br_method _ _ _ H1).
      cbn [mbind option_bind methods bio_s_bio Nat.eqb methods_biop bwrite]. rewrite (br_init _ _ _ H1). cbn.
      do 2 apply st_ret. apply HQ. split; [done|]. by exists x1, x2, t.
    + apply st_bind. eapply wp_BIO_write; [done|done|done|cbn [length] in *; lia|]. intros x1' r c E Hx. apply st_ret.
      cbn [end_op] in HQ. rewrite E in HQ. apply HQ. split; [done|]. by exists x1', x2, t.
  - cbn [end_op] in HQ. destruct (Z.leb_spec n 0).
    + unfold BIO_read. apply st_bind, wp_get_1. unfold method_of. rewrite (br_method _ _ _ H1).
      cbn [mbind option_bind methods bio_s_bio Nat.eqb methods_biop bread]. rewrite (br_init _ _ _ H1). cbn [Z.eqb].
      destruct (Z.leb_spec n 0); [|lia]. apply st_ret, HQ. split; [done|]. by exists x1, x2, t.
    + eapply wp_BIO_read; [done|done|done|lia|]. intros x1' x2' r o c E Hx1 Hx2. rewrite E in HQ. apply HQ.
      split; [done|]. by exists x1', x2', t.
  - apply st_bind. eapply wp_BIO_shutdown_wr; [done|]. intros x1' Hx. apply st_ret, HQ. split; [done|]. by exists x1', x2, t.
Qed.

Lemma wp_run_op o w b1 b2 e (Q : Z * list Z → world → Prop) : valid_op o → pair_rep w b1 b2 e →
  (∀ w', pair_rep w' b1 b2 (fifo_op o e).2 → Q (fifo_op o e).1 w') → wp (run_op o b1 b2) w Q.
Proof.
  intros Hv Hr HQ. unfold run_op, fifo_op, turn in *. destruct e as [e1 e2]. destruct (side o).
  - eapply wp_end_op; [done|done|]. intros w' Hw. destruct (end_op o (e1, e2)) as [r [e1' e2']]. by apply HQ.
  - apply pair_rep_swap in Hr. eapply wp_end_op; [done|done|]. intros w' Hw%pair_rep_swap. cbn [fst snd] in *.
    destruct (end_op o (e2, e1)) as [r [e1' e2']]. by apply HQ.
Qed.

Lemma wp_run_ops os w b1 b2 e (Q : list (Z * list Z) → world → Prop) : Forall valid_op os → pair_rep w b1 b2 e →
  (∀ w', pair_rep w' b1 b2 (fifo_run os e).2 → Q (fifo_run os e).1 w') → wp (run_ops os b1 b2) w Q.
Proof.
  revert w e Q. induction os as [|o os IH]; intros w e Q Hv Hr HQ; cbn [run_ops fifo_run] in *.
  - by apply st_ret, HQ.
  - apply Forall_cons in Hv as [Hv Hvs]. apply st_bind. eapply wp_run_op; [done|done|]. intros w' Hw.
    apply st_bind. eapply IH; [done|done|]. intros w2 Hw2. apply st_ret.
    destruct (fifo_op o e) as [r e']. cbn in *. destruct (fifo_run os e') as [rs e2]. by apply HQ.
Qed.

Lemma wp_run_pending w b1 b2 e (Q : Z → world → Prop) : pair_rep w b1 b2 e →
  Q (Z.of_nat (length (queue (out e.2)))) w → wp (BIO_pending methods (Some b1)) w Q.
Proof. intros (Hne & x1 & x2 & t & -> & H1 & H2) HQ. by eapply wp_BIO_pending. Qed.

Lemma wp_run_flags w b1 b2 e (Q : Z → world → Prop) : pair_rep w b1 b2 e →
  Q (e_flags e.1 .& kRetryFlags) w → wp (BIO_get_retry_flags b1) w Q.
Proof.
  intros (Hne & x1 & x2 & t & -> & H1 & H2) HQ. apply st_bind, wp_get_1, st_ret. by rewrite (br_flags _ _ _ H1).
Qed.

(** The life of the pair after its last call. *)
Lemma wp_free_both w b1 b2 e (Q : Z * list Z → world → Prop) : pair_rep w b1 b2 e →
  (∀ w', bios w' = ∅ → Q (-2, []) w') →
  wp (_ ← BIO_free methods (Some b1); r ← BIO_read methods (Some b2) true 1; _ ← BIO_free methods (Some b2); mret r) w Q.
Proof.
  intros (Hne & x1 & x2 & t & -> & H1 & H2) HQ. apply st_bind. eapply wp_BIO_free_pair; [done|done|done|].
  intros x2' t' [(p & Hp & Hpe) Hi Hm Hre Hnx]. apply st_bind. unfold BIO_read. apply st_bind. eapply wp_get_bio; [by apply lookup_singleton_eq|].
  unfold method_of. rewrite Hm. cbn [mbind option_bind methods bio_s_bio Nat.eqb methods_biop bread]. rewrite Hi. cbn [Z.eqb].
  apply st_ret, st_bind. eapply wp_BIO_free_single; [by apply lookup_singleton_eq|done|done|done|done|done|].
  intros t2. apply st_ret, HQ. cbn. apply delete_singleton_eq.
Qed.

Lemma wp_eq {W B} (m : ST W B) w a (P : W → Prop) : wp m w (λ r w', r = a ∧ P w') → ∃ w', m w = Some (a, w') ∧ P w'.
Proof. unfold wp. destruct (m w) as [[r w']|]; [|done]. intros [-> ?]. by exists w'. Qed.

(** C15: a BIO pair implements two bounded FIFO channels.  Creating one either
    fails for lack of memory and leaves nothing behind, or yields two ends on
    which every sequence of reads, writes and shutdowns runs without undefined
    behaviour and returns exactly what the abstract channels return: the bytes
    in order, -1 with the retry flags when a buffer is empty or full, 0 at the
    end of the data after a shutdown.  Freeing one end makes calls on the
    other fail with -2, and freeing both leaves no BIO. *)
Theorem bio_pair_refines (t : nat) (n1 n2 : Z) (os : list pair_op)
    (Hn1 : 0 <= n1 < 2 ^ 63) (Hn2 : 0 <= n2 < 2 ^ 63) (Hos : Forall valid_op os) :
  match BIO_new_bio_pair n1 n2 (mkBios ∅ t) with
  | None => False
  | Some (None, w) => bios w = ∅ ∧ ¬ NeverFails A
  | Some (Some (b1, b2), w) =>
      let '(rs, (e1, e2)) := fifo_run os (new_end n1, new_end n2) in
      ∃ w', run_ops os b1 b2 w = Some (rs, w') ∧
        BIO_pending methods (Some b2) w' = Some (Z.of_nat (length (queue (out e1))), w') ∧
        BIO_pending methods (Some b1) w' = Some (Z.of_nat (length (queue (out e2))), w') ∧
        BIO_get_retry_flags b1 w' = Some (e_flags e1 .& kRetryFlags, w') ∧
        BIO_get_retry_flags b2 w' = Some (e_flags e2 .& kRetryFlags, w') ∧
        ∃ w'', (_ ← BIO_free methods (Some b1); r ← BIO_read methods (Some b2) true 1; _ ← BIO_free methods (Some b2); mret r) w' =
                 Some ((-2, []), w'') ∧ bios w'' = ∅
  end.
Proof.
  eapply (wp_BIO_new_bio_pair t n1 n2 (λ r w, _)); [done|done|done|]. intros b1 b2 x1 x2 t' Hne H1 H2.
  destruct (fifo_run os (new_end n1, new_end n2)) as [rs [e1 e2]] eqn:E.
  assert (Hrun : ∃ w', run_ops os b1 b2 (two b1 b2 x1 x2 t') = Some (rs, w') ∧ pair_rep w' b1 b2 (e1, e2)).
  { apply wp_eq. eapply (wp_run_ops os _ b1 b2 (new_end n1, new_end n2)); [done|split; [done|by exists x1, x2, t']|].
    rewrite E. intros w' Hw. by split. }
  destruct Hrun as (w' & Hrun & Hr). exists w'. pose proof (pair_rep_swap _ _ _ _ Hr) as Hr'. split; [done|].
  assert (Heq : ∀ B (m : IO B) a, wp m w' (λ r w2, r = a ∧ w2 = w') → m w' = Some (a, w')).
  { intros B m a Hw. apply wp_eq in Hw as (w2 & ? & ->). done. }
  split_and!; [| | | |apply wp_eq; eapply wp_free_both; [done|]; by intros]; apply Heq;
    first [by eapply wp_run_pending | by eapply wp_run_flags].
Qed.

(** ** Conservation *)

(** The bytes of a call of end [s] that were accepted, or returned. *)
Definition accepted1 (s : bool) (o : pair_op) (r : Z * list Z) : list Z :=
  match o with PWrite s' data => if Bool.eqb s s' then take (Z.to_nat r.1) data else [] | _ => [] end.
Definition received1 (s : bool) (o : pair_op) (r : Z * list Z) : list Z :=
  match o with PRead s' _ => if Bool.eqb s s' then r.2 else [] | _ => [] end.
Definition accepted (s : bool) (os : list pair_op) (rs : list (Z * list Z)) : list Z := concat (zip_with (accepted1 s) os rs).
Definition received (s : bool) (os : list pair_op) (rs : list (Z * list Z)) : list Z := concat (zip_with (received1 s) os rs).

Definition end_of (s : bool) (e : ends) : endpoint := if s then e.1 else e.2.

Lemma end_of_turn s s' e : end_of s (turn s' e) = end_of (Bool.eqb s s') e.
Proof. by destruct s, s'. Qed.

(** From [e] to [e'] the end [s] has accepted [a] and its peer received [r]. *)
Record flow (s : bool) (e e' : ends) (a r : list Z) : Prop := {
  fl_queue : queue (out (end_of s e)) ++ a = r ++ queue (out (end_of s e'));
  fl_cap : cap (out (end_of s e')) = cap (out (end_of s e));
  fl_full : Z.of_nat (length (queue (out (end_of s e')))) <= cap (out (end_of s e'));
  fl_written : e_written (end_of s e') = u64 (e_written (end_of s e) + Z.of_nat (length a));
  fl_read : e_read (end_of (negb s) e') = u64 (e_read (end_of (negb s) e) + Z.of_nat (length r));
}.

Lemma flow_trans s e e1 e2 a r a' r' : flow s e e1 a r → flow s e1 e2 a' r' → flow s e e2 (a ++ a') (r ++ r').
Proof.
  intros [Hq Hc Hf Hw Hr] [Hq' Hc' Hf' Hw' Hr']. split; [|congruence|done|rewrite Hw', Hw|rewrite Hr', Hr];
    [|unfold wrap; rewrite Z.add_mod_idemp_l, length_app by lia; f_equal; lia..].
  by rewrite app_assoc, Hq, <- app_assoc, Hq', app_assoc.
Qed.

Lemma flow_id s e : Z.of_nat (length (queue (out (end_of s e)))) <= cap (out (end_of s e)) →
  in_range 64 (e_written (end_of s e)) → in_range 64 (e_read (end_of (negb s) e)) → flow s e e [] [].
Proof. intros. split; [by rewrite app_nil_r|done|done|by rewrite Z.add_0_r, wrap_small..]. Qed.

Lemma count_step v r (l : list Z) : in_range 64 v → (if r >? 0 then Z.of_nat (length l) = r else l = []) →
  (if r >? 0 then v ⊞[64] r else v) = u64 (v + Z.of_nat (length l)).
Proof. intros Hv. destruct (r >? 0); [by intros ->|]. intros ->. by rewrite Z.add_0_r, wrap_small. Qed.

Lemma count_same v : in_range 64 v → v = u64 (v + Z.of_nat (@length Z [])).
Proof. intros. rewrite wrap_small; cbn; lia. Qed.

Ltac flow_auto :=
  split; split; cbn [fst snd end_of out end_read end_write with_out shut_chan with_wanted with_queue queue cap e_written e_read negb Z.gtb Z.compare];
  rewrite ?app_nil_r, ?length_app, ?length_drop, ?take_drop; try done; try lia; try (by apply count_same).

(** One call, seen from the end that makes it: its own channel takes what it
    writes, and the other one gives what it reads. *)
Lemma end_op_flow o s e : s = side o → (∀ s, flow s e e [] []) →
  flow true e (end_op o e).2 (accepted1 s o (end_op o e).1) [] ∧
  flow false e (end_op o e).2 [] (received1 s o (end_op o e).1).
Proof.
  intros -> Hid. pose proof (Hid true) as H1. pose proof (Hid false) as H2. destruct e as [[c1 f1 r1 w1] [c2 f2 r2 w2]].
  assert (Hw1 : in_range 64 w1) by (pose proof (fl_written _ _ _ _ _ H1) as E; cbn in E; rewrite E; apply wrap_range; lia).
  assert (Hr1 : in_range 64 r1) by (pose proof (fl_read _ _ _ _ _ H2) as E; cbn in E; rewrite E; apply wrap_range; lia).
  pose proof (fl_full _ _ _ _ _ H1) as Hf1. pose proof (fl_full _ _ _ _ _ H2) as Hf2. cbn in Hf1, Hf2.
  assert (Hr2 : in_range 64 r2) by (pose proof (fl_read _ _ _ _ _ H1) as E; cbn in E; rewrite E; apply wrap_range; lia).
  assert (Hw2 : in_range 64 w2) by (pose proof (fl_written _ _ _ _ _ H2) as E; cbn in E; rewrite E; apply wrap_range; lia).
  destruct o as [s data|s n|s]; cbn [end_op accepted1 received1 side].
  - rewrite eqb_reflx. destruct data as [|d data]; [by rewrite take_nil|]. unfold chan_write. cbn [out].
    destruct (shut c1); [flow_auto|]. destruct (Z.eqb_spec (Z.of_nat (length (queue c1))) (cap c1)); [flow_auto|].
    set (k := Z.of_nat (length (d :: data)) `min` (cap c1 - Z.of_nat (length (queue c1)))).
    assert (Hk : 0 < k <= Z.of_nat (length (d :: data)) ∧ k <= cap c1 - Z.of_nat (length (queue c1))) by (cbn [length] in *; lia).
    clearbody k. assert (Hl : Z.of_nat (length (take (Z.to_nat k) (d :: data))) = k) by (rewrite length_take; lia).
    flow_auto. apply count_step; [done|]. by destruct (Z.gtb_spec k 0); [|lia].
  - rewrite eqb_reflx. destruct (Z.leb_spec n 0); [done|]. unfold chan_read. cbn [out]. destruct (decide (queue c2 = [])) as [Eq|Eq].
    { destruct (shut c2); flow_auto. }
    assert (Hp : (0 < length (queue c2))%nat) by (by destruct (queue c2); [|cbn; lia]).
    set (k := n `min` Z.of_nat (length (queue c2))). assert (Hk : 0 < k <= Z.of_nat (length (queue c2))) by lia. clearbody k.
    flow_auto. apply count_step; [done|]. destruct (Z.gtb_spec k 0); [|lia]. rewrite length_take. lia.
  - flow_auto.
Qed.

Lemma flow_turn s0 s e e' a r : flow s (turn s0 e) e' a r → flow (Bool.eqb s s0) e (turn s0 e') a r.
Proof. destruct e, e'. intros [????]. by destruct s, s0; split. Qed.

Lemma fifo_op_flow o e : (∀ s, flow s e e [] []) →
  ∀ s, flow s e (fifo_op o e).2 (accepted1 s o (fifo_op o e).1) (received1 (negb s) o (fifo_op o e).1).
Proof.
  intros Hid s. unfold fifo_op. destruct (end_op_flow o (side o) (turn (side o) e) eq_refl) as [H1 H2].
  { intros s'. pose proof (Hid (Bool.eqb s' (side o))) as Hf. destruct e as [e1 e2].
    destruct Hf as [????]. destruct s', (side o); by split. }
  destruct (end_op o (turn (side o) e)) as [r e']. cbn [fst snd] in *.
  apply flow_turn in H1, H2. destruct (Bool.eqb s (side o)) eqn:E.
  - apply eqb_prop in E as ->. assert (Hr : received1 (negb (side o)) o r = []).
    { by destruct o as [s0 d|s0 n|s0]; cbn; [|destruct s0|]. }
    rewrite Hr. by destruct (side o).
  - assert (Ha : accepted1 s o r = []) by (destruct o; cbn in *; by rewrite ?E).
    assert (Hs : negb s = side o) by (by destruct s, (side o)). rewrite Ha, Hs. by destruct s, (side o).
Qed.

Lemma fifo_run_flow os e : (∀ s, flow s e e [] []) →
  ∀ s, flow s e (fifo_run os e).2 (accepted s os (fifo_run os e).1) (received (negb s) os (fifo_run os e).1).
Proof.
  revert e. induction os as [|o os IH]; intros e Hid s; [apply Hid|]. cbn [fifo_run].
  pose proof (fifo_op_flow o e Hid) as Ho. destruct (fifo_op o e) as [r e1]. cbn [fst snd] in Ho.
  assert (Hid1 : ∀ s, flow s e1 e1 [] []).
  { intros s'. apply flow_id; [apply (Ho s')|rewrite (fl_written _ _ _ _ _ (Ho s')); apply wrap_range; lia|].
    rewrite (fl_read _ _ _ _ _ (Ho s')). apply wrap_range. lia. }
  specialize (IH e1 Hid1 s). destruct (fifo_run os e1) as [rs e2]. cbn [fst snd] in *. by eapply flow_trans.
Qed.

Lemma new_end_flow n1 n2 s : 0 <= n1 → 0 <= n2 → flow s (new_end n1, new_end n2) (new_end n1, new_end n2) [] [].
Proof.
  intros. apply flow_id; destruct s; cbn; try lia; unfold buffer_size;
    [destruct (Z.eqb_spec n1 0); lia|destruct (Z.eqb_spec n2 0); lia].
Qed.

(** A BIO pair is a reliable stream in each direction.  After any sequence
    of calls the bytes that one end accepted are those that the other end
    returned, in order, followed by at most a buffer of pending bytes, whose
    number [BIO_pending] reports; [BIO_number_written] and [BIO_number_read]
    count them. *)
Theorem bio_pair_stream (t : nat) (n1 n2 : Z) (os : list pair_op)
    (Hn1 : 0 <= n1 < 2 ^ 63) (Hn2 : 0 <= n2 < 2 ^ 63) (Hos : Forall valid_op os) :
  match BIO_new_bio_pair n1 n2 (mkBios ∅ t) with
  | None => False
  | Some (None, w) => True
  | Some (Some (b1, b2), w) =>
      ∃ rs w' q1 q2, run_ops os b1 b2 w = Some (rs, w') ∧
        accepted true os rs = received false os rs ++ q1 ∧ Z.of_nat (length q1) <= buffer_size n1 ∧
        accepted false os rs = received true os rs ++ q2 ∧ Z.of_nat (length q2) <= buffer_size n2 ∧
        BIO_pending methods (Some b2) w' = Some (Z.of_nat (length q1), w') ∧
        BIO_pending methods (Some b1) w' = Some (Z.of_nat (length q2), w') ∧
        BIO_number_written b1 w' = Some (u64 (Z.of_nat (length (accepted true os rs))), w') ∧
        BIO_number_read b2 w' = Some (u64 (Z.of_nat (length (received false os rs))), w')
  end.
Proof.
  eapply (wp_BIO_new_bio_pair t n1 n2 (λ r w, _)); [done|done|done|]. intros b1 b2 x1 x2 t' Hne H1 H2.
  pose proof (fifo_run_flow os (new_end n1, new_end n2) (λ s, new_end_flow n1 n2 s (proj1 Hn1) (proj1 Hn2))) as Hfl.
  destruct (fifo_run os (new_end n1, new_end n2)) as [rs e] eqn:E. cbn [fst snd] in Hfl.
  assert (Hrun : ∃ w', run_ops os b1 b2 (two b1 b2 x1 x2 t') = Some (rs, w') ∧ pair_rep w' b1 b2 e).
  { apply wp_eq. eapply (wp_run_ops os _ b1 b2 (new_end n1, new_end n2)); [done|split; [done|by exists x1, x2, t']|].
    rewrite E. intros w' Hw. by split. }
  destruct Hrun as (w' & Hrun & Hr). pose proof (pair_rep_swap _ _ _ _ Hr) as Hr'.
  exists rs, w', (queue (out e.1)), (queue (out e.2)). destruct (Hfl true) as [Hq1 Hc1 Hf1 Hw1 Hrd1], (Hfl false) as [Hq2 Hc2 Hf2 _ _].
  cbn in Hq1, Hq2, Hc1, Hc2, Hf1, Hf2, Hw1, Hrd1.
  assert (Heq : ∀ (m : IO Z) a, wp m w' (λ r w2, r = a ∧ w2 = w') → m w' = Some (a, w')).
  { intros m a Hw. apply wp_eq in Hw as (w2 & ? & ->). done. }
  split_and!; [done|done|lia|done|lia| | | |]; apply Heq; [by eapply wp_run_pending|by eapply wp_run_pending|..].
  - destruct Hr as (_ & y1 & y2 & t2 & -> & Hy1 & _). apply st_bind, wp_get_1, st_ret. by rewrite (br_written _ _ _ Hy1), Hw1.
  - destruct Hr' as (_ & y1 & y2 & t2 & -> & Hy1 & _). apply st_bind, wp_get_1, st_ret. rewrite (br_read _ _ _ Hy1). cbn [fst snd]. by rewrite Hrd1.
Qed.

(** ** Transfers *)

(** One end writes what is left of [data], the other reads [k] bytes at a
    time, until it has [todo] bytes: the loop of two peers that take turns. *)
Fixpoint transfer (fuel : nat) (b1 b2 : bid) (data : list Z) (todo : nat) (k : Z) : IO (list Z) :=
  match todo with
  | O => mret []
  | _ =>
      match fuel with
      | O => ub
      | S fuel =>
          r ← BIO_write methods (Some b1) (Some data) (Z.of_nat (length data));
          '(_, o) ← BIO_read methods (Some b2) true k;
          more ← transfer fuel b1 b2 (drop (Z.to_nat r) data) (todo - length o) k;
          mret (o ++ more)
      end
  end.

Lemma wp_transfer fuel w b1 b2 e data todo k (Q : list Z → world → Prop) :
  pair_rep w b1 b2 e → shut (out e.1) = false → 0 < cap (out e.1) → Z.of_nat (length (queue (out e.1))) <= cap (out e.1) →
  Z.of_nat (length data) <= INT_MAX → 0 < k <= INT_MAX →
  todo = (length (queue (out e.1)) + length data)%nat → (todo ≤ fuel)%nat →
  (∀ w', Q (queue (out e.1) ++ data) w') → wp (transfer fuel b1 b2 data todo k) w Q.
Proof.
  revert w e data todo Q. induction fuel as [|fuel IH]; intros w e data todo Q Hr Hs Hc Hf Hd Hk Ht Hfuel HQ; (destruct todo as [|todo];
    [apply st_ret; destruct (queue (out e.1)), data; cbn in *; (lia || apply HQ)|]); [lia|]. cbn [transfer].
  assert (Hw : wp (r ← BIO_write methods (Some b1) (Some data) (Z.of_nat (length data)); mret (r, @nil Z)) w
    (λ r w', pair_rep w' b1 b2 (end_op (PWrite true data) e).2 ∧ r = (end_op (PWrite true data) e).1)).
  { by eapply (wp_end_op (PWrite true data)). }
  apply st_bind. unfold wp, mbind at 1, ST_bind in Hw. unfold wp at 1.
  destruct (BIO_write methods (Some b1) (Some data) (Z.of_nat (length data)) w) as [[r w1]|]; [|done]. destruct Hw as [Hr1 Hres].
  set (e1 := (end_op (PWrite true data) e).2) in *.
  assert (He1 : shut (out e1.1) = false ∧ cap (out e1.1) = cap (out e.1) ∧ queue (out e1.1) ++ drop (Z.to_nat r) data = queue (out e.1) ++ data ∧
    (0 < length (queue (out e1.1)))%nat ∧ Z.of_nat (length (queue (out e1.1))) <= cap (out e1.1)).
  { subst e1. destruct e as [[c1 f1 r1 w1'] e2]. cbn [fst snd out] in *. destruct data as [|d data]; cbn [end_op fst snd out].
    - split_and!; [done|done|by rewrite drop_nil|cbn in Ht; lia|done].
    - cbn [end_op out] in Hres. unfold chan_write in *. rewrite Hs in *.
      destruct (Z.eqb_spec (Z.of_nat (length (queue c1))) (cap c1)); cbn [fst snd out end_write with_wanted with_queue shut cap queue] in *; injection Hres as ->.
      + split_and!; [done|done|done|lia|lia].
      + rewrite <- app_assoc, take_drop, length_app, length_take. cbn [length] in *. split_and!; [done|done|done|lia|lia]. }
  destruct He1 as (Hs1 & Hc1 & Hq1 & Hp1 & Hf1). clearbody e1.
  apply st_bind. apply pair_rep_swap in Hr1. eapply (wp_end_op (PRead true k)); [cbn; lia|done|]. intros w2 Hr2. apply pair_rep_swap in Hr2.
  cbn [end_op fst snd] in Hr2 |- *. destruct (Z.leb_spec k 0); [lia|]. unfold chan_read in *. rewrite decide_False in Hr2 |- * by (intros E; rewrite E in Hp1; cbn in Hp1; lia).
  set (m := k `min` Z.of_nat (length (queue (out e1.1)))) in *. assert (Hm : 0 < m <= Z.of_nat (length (queue (out e1.1)))) by lia. clearbody m.
  cbn [fst snd] in *. apply st_bind. apply (f_equal length) in Hq1 as Hlen. rewrite !length_app in Hlen. eapply IH; [exact Hr2|..]; cbn [fst snd out with_out with_wanted with_queue queue cap shut].
  - done.
  - lia.
  - rewrite length_drop. lia.
  - rewrite length_drop in *. lia.
  - done.
  - rewrite length_drop, length_take in *. rewrite length_drop. lia.
  - rewrite length_take. lia.
  - intros w3. apply st_ret. rewrite app_assoc, take_drop, Hq1. apply HQ.
Qed.

(** C20: transfers complete.  Whatever the size of the buffer and of the reads,
    two peers that take turns deliver any message: after at most one round per
    byte the reader has exactly the bytes of the writer. *)
Theorem bio_pair_transfer (t : nat) (n1 n2 : Z) (data : list Z) (k : Z)
    (Hn1 : 0 <= n1 < 2 ^ 63) (Hn2 : 0 <= n2 < 2 ^ 63) (Hdata : Z.of_nat (length data) <= INT_MAX) (Hk : 0 < k <= INT_MAX) :
  match BIO_new_bio_pair n1 n2 (mkBios ∅ t) with
  | None => False
  | Some (None, w) => True
  | Some (Some (b1, b2), w) => ∃ w', transfer (length data) b1 b2 data (length data) k w = Some (data, w')
  end.
Proof.
  eapply (wp_BIO_new_bio_pair t n1 n2 (λ r w, _)); [done|done|done|]. intros b1 b2 x1 x2 t' Hne H1 H2.
  pose proof (new_end_flow n1 n2 true (proj1 Hn1) (proj1 Hn2)) as Hfl.
  assert (Hw : wp (transfer (length data) b1 b2 data (length data) k) (two b1 b2 x1 x2 t') (λ r w', r = data ∧ True)).
  { apply (wp_transfer _ _ b1 b2 (new_end n1, new_end n2)); try done; cbn; try lia;
      [split; [done|by exists x1, x2, t']|unfold buffer_size; destruct (Z.eqb_spec n1 0); lia..]. }
  apply wp_eq in Hw as (w' & ? & _). by exists w'.
Qed.
End run.

(** Buffers of 4 and 3 bytes; the second write wraps around. *)
Definition demo_ops : list pair_op :=
  [PWrite true [1; 2; 3]; PRead false 2; PWrite true [4; 5; 6; 7]; PWrite true [8]; PShutdown true; PRead false 9; PRead false 9; PRead true 1].

Lemma demo_valid : Forall valid_op demo_ops.
Proof. repeat constructor; by vm_compute. Qed.

Lemma demo_results : (fifo_run demo_ops (new_end 4, new_end 3)).1 =
  [(3, []); (2, [1; 2]); (3, []); (-1, []); (1, []); (4, [3; 4; 5; 6]); (0, []); (-1, [])].
Proof. by vm_compute. Qed.

Lemma bio_pair_refines_witness :
  match BIO_new_bio_pair (A := zero_allocator) 4 3 (mkBios ∅ 0) with
  | None => False
  | Some (None, w) => bios w = ∅ ∧ ¬ NeverFails zero_allocator
  | Some (Some (b1, b2), w) =>
      let '(rs, (e1, e2)) := fifo_run demo_ops (new_end 4, new_end 3) in
      ∃ w', run_ops (A := zero_allocator) demo_ops b1 b2 w = Some (rs, w') ∧
        BIO_pending (methods (A := zero_allocator)) (Some b2) w' = Some (Z.of_nat (length (queue (out e1))), w') ∧
        BIO_pending (methods (A := zero_allocator)) (Some b1) w' = Some (Z.of_nat (length (queue (out e2))), w') ∧
        BIO_get_retry_flags b1 w' = Some (e_flags e1 .& kRetryFlags, w') ∧
        BIO_get_retry_flags b2 w' = Some (e_flags e2 .& kRetryFlags, w') ∧
        ∃ w'', (_ ← BIO_free (methods (A := zero_allocator)) (Some b1);
                r ← BIO_read (methods (A := zero_allocator)) (Some b2) true 1;
                _ ← BIO_free (methods (A := zero_allocator)) (Some b2); mret r) w' = Some ((-2, []), w'') ∧ bios w'' = ∅
  end.
Proof. apply (bio_pair_refines (A := zero_allocator) 0 4 3 demo_ops); [done|done|exact demo_valid]. Defined.

Lemma bio_pair_stream_witness :
  match BIO_new_bio_pair (A := zero_allocator) 4 3 (mkBios ∅ 0) with
  | None => False
  | Some (None, w) => True
  | Some (Some (b1, b2), w) =>
      ∃ rs w' q1 q2, run_ops (A := zero_allocator) demo_ops b1 b2 w = Some (rs, w') ∧
        accepted true demo_ops rs = received false demo_ops rs ++ q1 ∧ Z.of_nat (length q1) <= buffer_size 4 ∧
        accepted false demo_ops rs = received true demo_ops rs ++ q2 ∧ Z.of_nat (length q2) <= buffer_size 3 ∧
        BIO_pending (methods (A := zero_allocator)) (Some b2) w' = Some (Z.of_nat (length q1), w') ∧
        BIO_pending (methods (A := zero_allocator)) (Some b1) w' = Some (Z.of_nat (length q2), w') ∧
        BIO_number_written b1 w' = Some (u64 (Z.of_nat (length (accepted true demo_ops rs))), w') ∧
        BIO_number_read b2 w' = Some (u64 (Z.of_nat (length (received false demo_ops rs))), w')
  end.
Proof. apply (bio_pair_stream (A := zero_allocator) 0 4 3 demo_ops); [done|done|exact demo_valid]. Defined.

Lemma bio_pair_transfer_witness :
  match BIO_new_bio_pair (A := zero_allocator) 4 3 (mkBios ∅ 0) with
  | None => False
  | Some (None, w) => True
  | Some (Some (b1, b2), w) =>
      ∃ w', transfer (A := zero_allocator) 7 b1 b2 [1; 2; 3; 4; 5; 6; 7] 7 3 w = Some ([1; 2; 3; 4; 5; 6; 7], w')
  end.
Proof. apply (bio_pair_transfer (A := zero_allocator) 0 4 3 [1; 2; 3; 4; 5; 6; 7] 3); by split || by vm_compute. Defined.
