(* ===== verification/Kyber.v ===== *)
(** Kyber768, [crypto/kyber/kyber.c]: the key encapsulation mechanism, over the
    Keccak sponge, the parser [CBS] and the builder [CBB].

    A [scalar] is the list of its 256 coefficients.  [None] stands for a read
    past the end of an array, [abort()], or a rejection loop that has not ended
    within its fuel. *)
From S2P Require Import Prelude Mem Cbs CString ConstTime Cbb Keccak.

Definition prf (out_len : nat) (inp : list Z) : option (list Z) := BORINGSSL_keccak out_len inp boringssl_shake256.
Definition hash_h (inp : list Z) : option (list Z) := BORINGSSL_keccak 32 inp boringssl_sha3_256.
Definition hash_g (inp : list Z) : option (list Z) := BORINGSSL_keccak 64 inp boringssl_sha3_512.
Definition kdf (out_len : nat) (inp : list Z) : option (list Z) := BORINGSSL_keccak out_len inp boringssl_shake256.

Definition DEGREE : nat := 256.
Definition RANK : nat := 3.
Definition kBarrettMultiplier : Z := 5039.
Definition kBarrettShift : Z := 24.
Definition kPrime : Z := 3329.
Definition kLog2Prime : nat := 12.
Definition kHalfPrime : Z := (3329 - 1) / 2.
Definition kDU : nat := 10.
Definition kDV : nat := 4.
Definition kInverseDegree : Z := 3303.
Definition kEncodedVectorSize : nat := 12 * DEGREE / 8 * RANK.
Definition kCompressedVectorSize : nat := 10 * RANK * DEGREE / 8.
Definition KYBER_PUBLIC_KEY_BYTES : nat := 1184.
Definition KYBER_CIPHERTEXT_BYTES : nat := 1088.
Definition KYBER_PRIVATE_KEY_BYTES : nat := 2400.
Definition KYBER_SHARED_SECRET_BYTES : nat := 32.

Definition scalar : Type := list Z.
Definition vector : Type := list scalar.
Definition matrix : Type := list vector.
(** [s->c[i]], [a->v[i]] *)
Definition coeff (s : scalar) (i : nat) : Z := nth i s 0.
Definition entry (a : vector) (i : nat) : scalar := nth i a [].
Definition cell (m : matrix) (i j : nat) : scalar := entry (nth i m []) j.

Definition kNTTRoots : list Z :=
  [1; 1729; 2580; 3289; 2642; 630; 1897; 848; 1062; 1919; 193; 797; 2786; 3260; 569; 1746;
   296; 2447; 1339; 1476; 3046; 56; 2240; 1333; 1426; 2094; 535; 2882; 2393; 2879; 1974; 821;
   289; 331; 3253; 1756; 1197; 2304; 2277; 2055; 650; 1977; 2513; 632; 2865; 33; 1320; 1915;
   2319; 1435; 807; 452; 1438; 2868; 1534; 2402; 2647; 2617; 1481; 648; 2474; 3110; 1227; 910;
   17; 2761; 583; 2649; 1637; 723; 2288; 1100; 1409; 2662; 3281; 233; 756; 2156; 3015; 3050;
   1703; 1651; 2789; 1789; 1847; 952; 1461; 2687; 939; 2308; 2437; 2388; 733; 2337; 268; 641;
   1584; 2298; 2037; 3220; 375; 2549; 2090; 1645; 1063; 319; 2773; 757; 2099; 561; 2466; 2594;
   2804; 1092; 403; 1026; 1143; 2150; 2775; 886; 1722; 1212; 1874; 1029; 2110; 2935; 885; 2154].
Definition kInverseNTTRoots : list Z :=
  [1; 1600; 40; 749; 2481; 1432; 2699; 687; 1583; 2760; 69; 543; 2532; 3136; 1410; 2267;
   2508; 1355; 450; 936; 447; 2794; 1235; 1903; 1996; 1089; 3273; 283; 1853; 1990; 882; 3033;
   2419; 2102; 219; 855; 2681; 1848; 712; 682; 927; 1795; 461; 1891; 2877; 2522; 1894; 1010;
   1414; 2009; 3296; 464; 2697; 816; 1352; 2679; 1274; 1052; 1025; 2132; 1573; 76; 2998; 3040;
   1175; 2444; 394; 1219; 2300; 1455; 2117; 1607; 2443; 554; 1179; 2186; 2303; 2926; 2237; 525;
   735; 863; 2768; 1230; 2572; 556; 3010; 2266; 1684; 1239; 780; 2954; 109; 1292; 1031; 1745;
   2688; 3061; 992; 2596; 941; 892; 1021; 2390; 642; 1868; 2377; 1482; 1540; 540; 1678; 1626;
   279; 314; 1173; 2573; 3096; 48; 667; 1920; 2229; 1041; 2606; 1692; 680; 2746; 568; 3312].
Definition kModRoots : list Z :=
  [17; 3312; 2761; 568; 583; 2746; 2649; 680; 1637; 1692; 723; 2606; 2288; 1041; 1100; 2229;
   1409; 1920; 2662; 667; 3281; 48; 233; 3096; 756; 2573; 2156; 1173; 3015; 314; 3050; 279;
   1703; 1626; 1651; 1678; 2789; 540; 1789; 1540; 1847; 1482; 952; 2377; 1461; 1868; 2687; 642;
   939; 2390; 2308; 1021; 2437; 892; 2388; 941; 733; 2596; 2337; 992; 268; 3061; 641; 2688;
   1584; 1745; 2298; 1031; 2037; 1292; 3220; 109; 375; 2954; 2549; 780; 2090; 1239; 1645; 1684;
   1063; 2266; 319; 3010; 2773; 556; 757; 2572; 2099; 1230; 561; 2768; 2466; 863; 2594; 735;
   2804; 525; 1092; 2237; 403; 2926; 1026; 2303; 1143; 2186; 2150; 1179; 2775; 554; 886; 2443;
   1722; 1607; 1212; 2117; 1874; 1455; 1029; 2300; 2110; 1219; 2935; 394; 885; 2444; 2154; 1175].


(** ** Arithmetic modulo [kPrime] *)
Definition reduce_once (x : Z) : Z :=
  let subtracted := x ⊟[16] kPrime in
  let mask := wrap 16 (0 - (subtracted ≫ 15)) in
  wrap 16 ((mask .& x) .| (Z.lnot mask .& subtracted)).

Definition reduce (x : Z) : Z :=
  let product := x ⊠[64] kBarrettMultiplier in
  let quotient := wrap 32 (product ≫ kBarrettShift) in
  let remainder := x ⊟[32] (quotient ⊠[32] kPrime) in
  reduce_once (wrap 16 remainder).

Definition scalar_zero : scalar := replicate DEGREE 0.
Definition vector_zero : vector := replicate RANK scalar_zero.

(** One turn of the inner loop. *)
Definition ntt_butterfly (step_root : Z) (offset : nat) (s : scalar) (j : nat) : scalar :=
  let odd := reduce (step_root ⊠[32] coeff s (j + offset)) in
  let even := coeff s j in
  let s := <[j := reduce_once (wrap 16 (odd + even))]> s in
  <[(j + offset)%nat := reduce_once (wrap 16 (even - odd + kPrime))]> s.

(** The loop over [i], which carries [k]. *)
Definition ntt_layer (step offset : nat) (s : scalar) : scalar :=
  (foldl (λ '(s, k) i,
    let step_root := coeff kNTTRoots (i + step) in
    (foldl (ntt_butterfly step_root offset) s (seq k offset), (k + 2 * offset)%nat)) (s, 0%nat) (seq 0 step)).1.

(** [for (step = 1; step < DEGREE / 2; step <<= 1)]: [step] doubles. *)
Fixpoint ntt_loop (fuel step offset : nat) (s : scalar) : scalar :=
  match fuel with
  | O => s
  | S fuel =>
      if (step <? DEGREE / 2)%nat then
        let offset := (offset / 2)%nat in
        ntt_loop fuel (step * 2) offset (ntt_layer step offset s)
      else s
  end.
Definition scalar_ntt (s : scalar) : scalar := ntt_loop DEGREE 1 DEGREE s.
Definition vector_ntt (a : vector) : vector := scalar_ntt <$> a.

Definition inverse_butterfly (step_root : Z) (offset : nat) (s : scalar) (j : nat) : scalar :=
  let odd := coeff s (j + offset) in
  let even := coeff s j in
  let s := <[j := reduce_once (wrap 16 (odd + even))]> s in
  <[(j + offset)%nat := reduce (step_root ⊠[32] wrap 32 (even - odd + kPrime))]> s.
Definition inverse_layer (step offset : nat) (s : scalar) : scalar :=
  (foldl (λ '(s, k) i,
    let step_root := coeff kInverseNTTRoots (i + step) in
    (foldl (inverse_butterfly step_root offset) s (seq k offset), (k + 2 * offset)%nat)) (s, 0%nat) (seq 0 step)).1.

(** [for (offset = 2; offset < DEGREE; offset <<= 1)] *)
Fixpoint inverse_loop (fuel step offset : nat) (s : scalar) : scalar :=
  match fuel with
  | O => s
  | S fuel =>
      if (offset <? DEGREE)%nat then
        let step := (step / 2)%nat in
        inverse_loop fuel step (offset * 2) (inverse_layer step offset s)
      else s
  end.
Definition scalar_inverse_ntt (s : scalar) : scalar :=
  (λ c, reduce (c ⊠[32] kInverseDegree)) <$> inverse_loop DEGREE (DEGREE / 2) 2 s.
Definition vector_inverse_ntt (a : vector) : vector := scalar_inverse_ntt <$> a.

Definition scalar_add (lhs rhs : scalar) : scalar := (λ i, reduce_once (wrap 16 (coeff lhs i + coeff rhs i))) <$> seq 0 DEGREE.
Definition scalar_sub (lhs rhs : scalar) : scalar := (λ i, reduce_once (wrap 16 (coeff lhs i - coeff rhs i + kPrime))) <$> seq 0 DEGREE.

(** Entries [2 i] and [2 i + 1] of the product. *)
Definition mult_pair (lhs rhs : scalar) (i : nat) : list Z :=
  let real_real := coeff lhs (2 * i) ⊠[32] coeff rhs (2 * i) in
  let img_img := coeff lhs (2 * i + 1) ⊠[32] coeff rhs (2 * i + 1) in
  let real_img := coeff lhs (2 * i) ⊠[32] coeff rhs (2 * i + 1) in
  let img_real := coeff lhs (2 * i + 1) ⊠[32] coeff rhs (2 * i) in
  [reduce (real_real ⊞[32] (reduce img_img ⊠[32] coeff kModRoots i)); reduce (img_real ⊞[32] real_img)].
Definition scalar_mult (lhs rhs : scalar) : scalar := concat (mult_pair lhs rhs <$> seq 0 (DEGREE / 2)).

Definition vector_add (lhs rhs : vector) : vector := (λ i, scalar_add (entry lhs i) (entry rhs i)) <$> seq 0 RANK.
Definition matrix_mult (m : matrix) (a : vector) : vector :=
  (λ i, foldl (λ out j, scalar_add out (scalar_mult (cell m i j) (entry a j))) scalar_zero (seq 0 RANK)) <$> seq 0 RANK.
Definition matrix_mult_transpose (m : matrix) (a : vector) : vector :=
  (λ i, foldl (λ out j, scalar_add out (scalar_mult (cell m j i) (entry a j))) scalar_zero (seq 0 RANK)) <$> seq 0 RANK.
Definition scalar_inner_product (lhs rhs : vector) : scalar :=
  foldl (λ out i, scalar_add out (scalar_mult (entry lhs i) (entry rhs i))) scalar_zero (seq 0 RANK).

(** ** Sampling *)

(** The [for] loop over one block: [out] is the coefficients found so far. *)
Fixpoint block_candidates (block : list Z) (out : scalar) : scalar :=
  match block with
  | b0 :: b1 :: b2 :: block =>
      if (length out <? DEGREE)%nat then
        let d1 := b0 + 256 * (b1 mod 16) in
        let d2 := b1 / 16 + 16 * b2 in
        let out := if d1 <? kPrime then out ++ [d1] else out in
        let out := if (d2 <? kPrime) && (length out <? DEGREE)%nat then out ++ [d2] else out in
        block_candidates block out
      else out
  | _ => out
  end.

(** [while (done < DEGREE)]: [fuel] bounds the number of blocks. *)
Fixpoint from_keccak_loop (fuel : nat) (out : scalar) (keccak_ctx : BORINGSSL_keccak_st) : option scalar :=
  if (length out <? DEGREE)%nat then
    match fuel with
    | O => None
    | S fuel =>
        let '(keccak_ctx, block) := BORINGSSL_keccak_squeeze keccak_ctx 168 in
        from_keccak_loop fuel (block_candidates block out) keccak_ctx
    end
  else Some out.
Definition scalar_from_keccak_vartime (fuel : nat) (keccak_ctx : BORINGSSL_keccak_st) : option scalar :=
  from_keccak_loop fuel [] keccak_ctx.

(** The coefficient of four bits. *)
Definition cbd_value (byte : Z) : Z :=
  let value := kPrime in
  let value := value ⊞[16] ((byte .& 1) + (byte ≫ 1 .& 1)) in
  let value := value ⊟[16] ((byte ≫ 2 .& 1) + (byte ≫ 3 .& 1)) in
  reduce_once value.
Definition scalar_centered_binomial_distribution_eta_2_with_prf (inp : list Z) : option scalar :=
  entropy ← prf 128 inp;
  Some (concat ((λ byte, [cbd_value byte; cbd_value (byte ≫ 4)]) <$> entropy)).

(** The vector, and the counter after it. *)
Definition vector_generate_secret_eta_2 (counter : Z) (seed : list Z) : option (vector * Z) :=
  foldl (λ acc _,
    '(out, counter) ← acc;
    s ← scalar_centered_binomial_distribution_eta_2_with_prf (take 32 seed ++ [counter]);
    Some (out ++ [s], counter ⊞[8] 1)) (Some ([], counter)) (seq 0 RANK).

Definition expand_cell (fuel : nat) (rho : list Z) (i j : nat) : option scalar :=
  keccak_ctx ← BORINGSSL_keccak_init boringssl_shake128;
  keccak_ctx ← BORINGSSL_keccak_absorb keccak_ctx (take 32 rho ++ [Z.of_nat i; Z.of_nat j]);
  scalar_from_keccak_vartime fuel keccak_ctx.
Definition matrix_expand (fuel : nat) (rho : list Z) : option matrix :=
  mapM (λ i, mapM (λ j, expand_cell fuel rho i j) (seq 0 RANK)) (seq 0 RANK).

(** ** Packing of coefficients *)
Definition kMasks : list Z := [0x01; 0x03; 0x07; 0x0f; 0x1f; 0x3f; 0x7f; 0xff].
Definition chunk_mask (chunk_bits : nat) : Z := coeff kMasks (chunk_bits - 1).

(** The bytes written so far, [out_byte] and [out_byte_bits]. *)
Definition encoder : Type := list Z * Z * nat.

(** [while (element_bits_done < bits)]; [left_] is what is left of [bits]. *)
Fixpoint encode_element (fuel left_ : nat) (element : Z) (st : encoder) : encoder :=
  match fuel with
  | O => st
  | S fuel =>
      if (0 <? left_)%nat then
        let '(out, out_byte, out_byte_bits) := st in
        let chunk_bits := left_ in
        let out_bits_remaining := (8 - out_byte_bits)%nat in
        if (out_bits_remaining <=? chunk_bits)%nat then
          let chunk_bits := out_bits_remaining in
          let out_byte := u8 (out_byte .| ((element .& chunk_mask chunk_bits) ≪ Z.of_nat out_byte_bits)) in
          encode_element fuel (left_ - chunk_bits) (element ≫ Z.of_nat chunk_bits) (out ++ [out_byte], 0, 0%nat)
        else
          let out_byte := u8 (out_byte .| ((element .& chunk_mask chunk_bits) ≪ Z.of_nat out_byte_bits)) in
          encode_element fuel (left_ - chunk_bits) (element ≫ Z.of_nat chunk_bits) (out, out_byte, (out_byte_bits + chunk_bits)%nat)
      else st
  end.
Definition scalar_encode (s : scalar) (bits : nat) : list Z :=
  let '(out, out_byte, out_byte_bits) :=
    foldl (λ st i, encode_element bits bits (coeff s i) st) ([], 0, 0%nat) (seq 0 DEGREE) in
  if (0 <? out_byte_bits)%nat then out ++ [out_byte] else out.

Definition scalar_encode_1 (s : scalar) : list Z :=
  (λ i, foldl (λ out_byte j, u8 (out_byte .| ((coeff s (8 * i + j) .& 1) ≪ Z.of_nat j))) 0 (seq 0 8)) <$> seq 0 (DEGREE / 8).
Definition vector_encode (a : vector) (bits : nat) : list Z := concat ((λ i, scalar_encode (entry a i) bits) <$> seq 0 RANK).

(** The bytes not read yet, [in_byte] and [in_byte_bits_left]. *)
Definition decoder : Type := list Z * Z * nat.
Fixpoint decode_element (fuel bits element_bits_done : nat) (element : Z) (st : decoder) : option (Z * decoder) :=
  if (element_bits_done <? bits)%nat then
    match fuel with
    | O => None
    | S fuel =>
        let '(inp, in_byte, in_byte_bits_left) := st in
        '(inp, in_byte, in_byte_bits_left) ←
          (if (in_byte_bits_left =? 0)%nat then
             match inp with [] => None | b :: inp => Some (inp, b, 8%nat) end
           else Some (inp, in_byte, in_byte_bits_left));
        let chunk_bits := (bits - element_bits_done)%nat in
        let chunk_bits := if (in_byte_bits_left <? chunk_bits)%nat then in_byte_bits_left else chunk_bits in
        let element := wrap 16 (element .| ((in_byte .& chunk_mask chunk_bits) ≪ Z.of_nat element_bits_done)) in
        decode_element fuel bits (element_bits_done + chunk_bits) element
          (inp, in_byte ≫ Z.of_nat chunk_bits, (in_byte_bits_left - chunk_bits)%nat)
    end
  else Some (element, st).

(** The loop over [i]; [Some None] is [return 0]. *)
Fixpoint decode_loop (n bits : nat) (out : scalar) (st : decoder) : option (option scalar) :=
  match n with
  | O => Some (Some out)
  | S n =>
      '(element, st) ← decode_element bits bits 0 0 st;
      if element >=? kPrime then Some None else decode_loop n bits (out ++ [element]) st
  end.
Definition scalar_decode (inp : list Z) (bits : nat) : option (option scalar) := decode_loop DEGREE bits [] (inp, 0, 0%nat).

Definition scalar_decode_1 (inp : list Z) : scalar :=
  concat ((λ in_byte, (λ j, in_byte ≫ Z.of_nat j .& 1) <$> seq 0 8) <$> take (DEGREE / 8) inp).

Fixpoint vector_decode_loop (idx : list nat) (inp : list Z) (bits : nat) : option (option vector) :=
  match idx with
  | [] => Some (Some [])
  | i :: idx =>
      s ← scalar_decode (drop (i * bits * DEGREE / 8) inp) bits;
      match s with
      | None => Some None
      | Some s =>
          r ← vector_decode_loop idx inp bits;
          Some (match r with Some r => Some (s :: r) | None => None end)
      end
  end.
Definition vector_decode (inp : list Z) (bits : nat) : option (option vector) := vector_decode_loop (seq 0 RANK) inp bits.

(** ** Compression *)
Definition compress (x : Z) (bits : nat) : Z :=
  let shifted := x ≪[32] Z.of_nat bits in
  let product := shifted ⊠[64] kBarrettMultiplier in
  let quotient := wrap 32 (product ≫ kBarrettShift) in
  let remainder := shifted ⊟[32] (quotient ⊠[32] kPrime) in
  let quotient := quotient ⊞[32] (1 .& constant_time_lt_w kHalfPrime remainder) in
  let quotient := quotient ⊞[32] (1 .& constant_time_lt_w (kPrime + kHalfPrime) remainder) in
  quotient .& (2 ^ Z.of_nat bits - 1).

Definition decompress (x : Z) (bits : nat) : Z :=
  let product := x ⊠[32] kPrime in
  let power := 1 ≪ Z.of_nat bits in
  let remainder := product .& (power - 1) in
  let lower := product ≫ Z.of_nat bits in
  wrap 16 (lower ⊞[32] (remainder ≫ Z.of_nat (bits - 1))).

Definition scalar_compress (s : scalar) (bits : nat) : scalar := (λ c, compress c bits) <$> s.
Definition scalar_decompress (s : scalar) (bits : nat) : scalar := (λ c, decompress c bits) <$> s.
Definition vector_compress (a : vector) (bits : nat) : vector := (λ s, scalar_compress s bits) <$> a.
Definition vector_decompress (a : vector) (bits : nat) : vector := (λ s, scalar_decompress s bits) <$> a.

(** ** Keys *)
Record public_key := mkPublic {
  key_t : vector;
  key_rho : list Z;
  public_key_hash : list Z;
  key_m : matrix;
}.
Record private_key := mkPrivate {
  key_pub : public_key;
  key_s : vector;
  fo_failure_secret : list Z;
}.

Section kyber.
Context {A : Allocator}.

(** *** CPA-secure encryption *)
Definition encrypt_cpa (pub : public_key) (message randomness : list Z) : option (list Z) :=
  let counter := 0 in
  '(secret, counter) ← vector_generate_secret_eta_2 counter randomness;
  let secret := vector_ntt secret in
  '(error, counter) ← vector_generate_secret_eta_2 counter randomness;
  scalar_error ← scalar_centered_binomial_distribution_eta_2_with_prf (take 32 randomness ++ [counter]);
  let u := matrix_mult (key_m pub) secret in
  let u := vector_inverse_ntt u in
  let u := vector_add u error in
  let v := scalar_inner_product (key_t pub) secret in
  let v := scalar_inverse_ntt v in
  let v := scalar_add v scalar_error in
  let expanded_message := scalar_decompress (scalar_decode_1 message) 1 in
  let v := scalar_add v expanded_message in
  Some (vector_encode (vector_compress u kDU) kDU ++ scalar_encode (scalar_compress v kDV) kDV).

Definition decrypt_cpa (priv : private_key) (ciphertext : list Z) : option (list Z) :=
  u ← vector_decode ciphertext kDU;
  u ← u;    (* a failure would leave [u] uninitialized *)
  let u := vector_ntt (vector_decompress u kDU) in
  v ← scalar_decode (drop kCompressedVectorSize ciphertext) kDV;
  v ← v;
  let v := scalar_decompress v kDV in
  let mask := scalar_inverse_ntt (scalar_inner_product (key_s priv) u) in
  let v := scalar_compress (scalar_sub v mask) 1 in
  Some (scalar_encode_1 v).

(** *** The Fujisaki-Okamoto transform: the ciphertext and the shared secret *)
Definition KYBER_encap_external_entropy (pub : public_key) (entropy : list Z) : option (list Z * list Z) :=
  let input := entropy ++ public_key_hash pub in
  prekey_and_randomness ← hash_g input;
  ciphertext ← encrypt_cpa pub entropy (drop 32 prekey_and_randomness);
  h ← hash_h ciphertext;
  shared_secret ← kdf KYBER_SHARED_SECRET_BYTES (take 32 prekey_and_randomness ++ h);
  Some (ciphertext, shared_secret).

Definition KYBER_decap (ciphertext : list Z) (priv : private_key) : option (list Z) :=
  message ← decrypt_cpa priv ciphertext;
  prekey_and_randomness ← hash_g (message ++ public_key_hash (key_pub priv));
  expected_ciphertext ← encrypt_cpa (key_pub priv) message (drop 32 prekey_and_randomness);
  let mask := constant_time_eq_int_8 (CRYPTO_memcmp ciphertext expected_ciphertext (Z.of_nat KYBER_CIPHERTEXT_BYTES)) 0 in
  let input := (λ i, constant_time_select_8 mask (coeff prekey_and_randomness i) (coeff (fo_failure_secret priv) i)) <$> seq 0 32 in
  h ← hash_h ciphertext;
  kdf KYBER_SHARED_SECRET_BYTES (input ++ h).

(** *** Encoding of keys *)
Definition kyber_marshal_public_key (out : loc) (pub : public_key) : B unit :=
  vector_output ← CBB_add_space out (Z.of_nat kEncodedVectorSize);
  _ ← write_space out vector_output (vector_encode (key_t pub) kLog2Prime);
  CBB_add_bytes out (key_rho pub).
Definition KYBER_marshal_public_key (out : loc) (pub : public_key) : B unit := kyber_marshal_public_key out pub.

Definition KYBER_marshal_private_key (out : loc) (priv : private_key) : B unit :=
  s_output ← CBB_add_space out (Z.of_nat kEncodedVectorSize);
  _ ← write_space out s_output (vector_encode (key_s priv) kLog2Prime);
  _ ← kyber_marshal_public_key out (key_pub priv);
  _ ← CBB_add_bytes out (public_key_hash (key_pub priv));
  CBB_add_bytes out (fo_failure_secret priv).

(** What [f] leaves in an array of [n] bytes; [None] is [abort()]. *)
Definition into_array (n : nat) (f : loc → B unit) : option (list Z) :=
  match (_ ← CBB_init_fixed 0%nat (replicate n 0); f 0%nat) (mkWorld ∅ ∅ 0) with
  | Ok _ w => match bufs w !! 0%nat with Some b => Some (take n (buf b)) | None => None end
  | _ => None
  end.

(** [CBS_len(in) != 0] is a failure. *)
Definition require_end : M CBS unit := λ inp, require (CBS_len inp =? 0) inp.

(** A key that has been read is [None] when the expansion of the matrix has not
    ended within its fuel. *)
Definition kyber_parse_public_key_no_hash (fuel : nat) : M CBS (option public_key) :=
  t_bytes ← CBS_get_bytes (Z.of_nat kEncodedVectorSize);
  match vector_decode t_bytes kLog2Prime with
  | Some (Some t) =>
      rho ← CBS_copy_bytes 32;
      mret (match matrix_expand fuel rho with Some m => Some (mkPublic t rho [] m) | None => None end)
  | _ => fail
  end.

Definition KYBER_parse_public_key (fuel : nat) : M CBS (option public_key) := λ orig_in,
  ((pub ← kyber_parse_public_key_no_hash fuel;
   _ ← require_end;
   mret (pub ← pub;
         h ← hash_h orig_in;
         Some (mkPublic (key_t pub) (key_rho pub) h (key_m pub)))) : M CBS (option public_key)) orig_in.

Definition KYBER_parse_private_key (fuel : nat) : M CBS (option private_key) :=
  s_bytes ← CBS_get_bytes (Z.of_nat kEncodedVectorSize);
  match vector_decode s_bytes kLog2Prime with
  | Some (Some s) =>
      pub ← kyber_parse_public_key_no_hash fuel;
      public_key_hash ← CBS_copy_bytes 32;
      fo_failure_secret ← CBS_copy_bytes 32;
      _ ← require_end;
      mret (match pub with
            | Some pub => Some (mkPrivate (mkPublic (key_t pub) (key_rho pub) public_key_hash (key_m pub)) s fo_failure_secret)
            | None => None
            end)
  | _ => fail
  end.

(** *** Key generation *)
Definition KYBER_generate_key_external_entropy (fuel : nat) (entropy : list Z) : option (list Z * private_key) :=
  hashed ← hash_g (take 32 entropy);
  let rho := take 32 hashed in
  let sigma := drop 32 hashed in
  m ← matrix_expand fuel rho;
  let counter := 0 in
  '(s, counter) ← vector_generate_secret_eta_2 counter sigma;
  let s := vector_ntt s in
  '(error, counter) ← vector_generate_secret_eta_2 counter sigma;
  let error := vector_ntt error in
  let t := matrix_mult_transpose m s in
  let t := vector_add t error in
  encoded ← into_array KYBER_PUBLIC_KEY_BYTES (λ cbb, kyber_marshal_public_key cbb (mkPublic t rho [] m));
  public_key_hash ← hash_h encoded;
  Some (encoded, mkPrivate (mkPublic t rho public_key_hash m) s (drop 32 entropy)).

Definition KYBER_public_from_private (private_key : private_key) : public_key := key_pub private_key.

(** *** The functions that draw their entropy: [RAND_bytes n] is the bytes that
    the generator gives. *)
Definition KYBER_generate_key (RAND_bytes : nat → list Z) (fuel : nat) : option (list Z * private_key) :=
  KYBER_generate_key_external_entropy fuel (RAND_bytes 64%nat).
Definition KYBER_encap (RAND_bytes : nat → list Z) (pub : public_key) : option (list Z * list Z) :=
  KYBER_encap_external_entropy pub (RAND_bytes 32%nat).
End kyber.
