(* ===== verification/KyberRing.v ===== *)
(** Arithmetic modulo [kPrime] = 3329: the reductions of kyber.c are exact, and
    polynomials modulo X^2 - z as pairs. *)
From S2P Require Import Prelude Keccak Kyber.

(** ** Field elements *)
Abbreviation fe x := (0 <= x < kPrime).
Definition scalar_ok (s : scalar) : Prop := length s = DEGREE ∧ Forall (λ x, fe x) s.

Lemma ones_pow w : 0 <= w → 2 ^ w - 1 = Z.ones w.
Proof. intros. rewrite Z.ones_equiv. lia. Qed.

Lemma ones_land w a : 0 <= w → in_range w a → (2 ^ w - 1) .& a = a.
Proof. intros Hw Ha. rewrite Z.land_comm, ones_pow, Z.land_ones by done. by apply Z.mod_small. Qed.

Lemma lnot_ones_land w a : 0 <= w → in_range w a → Z.lnot (2 ^ w - 1) .& a = 0.
Proof.
  intros Hw Ha. rewrite ones_pow by done. rewrite Z.land_comm, <- Z.ldiff_land, Z.ldiff_ones_r by lia.
  rewrite Z.shiftr_div_pow2, Z.div_small by lia. apply Z.shiftl_0_l.
Qed.

Lemma mod_once x : 0 <= x < 2 * kPrime → x mod kPrime = if x <? kPrime then x else x - kPrime.
Proof.
  unfold kPrime. intros Hx. destruct (Z.ltb_spec x 3329); [apply Z.mod_small; lia|].
  symmetry. apply (Z.mod_unique x 3329 1); lia.
Qed.

Lemma reduce_once_spec x : 0 <= x < 2 * kPrime → reduce_once x = x mod kPrime.
Proof.
  intros Hx. rewrite mod_once by done. unfold reduce_once, kPrime in *. destruct (Z.ltb_spec x 3329).
  - assert (E : x ⊟[16] 3329 = x - 3329 + 2 ^ 16) by (symmetry; apply (Z.mod_unique _ _ (-1)); lia).
    rewrite E. assert (Es : (x - 3329 + 2 ^ 16) ≫ 15 = 1) by (rewrite Z.shiftr_div_pow2 by lia; symmetry; apply (Z.div_unique _ _ _ (x - 3329 + 2 ^ 15)); lia).
    rewrite Es. change (wrap 16 (0 - 1)) with (2 ^ 16 - 1). rewrite ones_land, lnot_ones_land, Z.lor_0_r by lia. apply wrap_small. lia.
  - rewrite (wrap_small 16 (x - 3329)) by lia.
    assert (Es : (x - 3329) ≫ 15 = 0) by (rewrite Z.shiftr_div_pow2 by lia; apply Z.div_small; lia).
    rewrite Es. change (wrap 16 (0 - 0)) with 0. change (Z.lnot 0) with (-1). rewrite Z.land_0_l, Z.lor_0_l, Z.land_m1_l. apply wrap_small. lia.
Qed.

(** Barrett reduction: the quotient is too small by at most one. *)
Lemma reduce_spec x : 0 <= x < kPrime + 2 * kPrime ^ 2 → reduce x = x mod kPrime.
Proof.
  unfold reduce, kBarrettMultiplier, kBarrettShift. intros Hx. cbv zeta.
  assert (Hb : 0 <= x < 22167812) by (unfold kPrime in Hx; lia).
  rewrite (wrap_small 64) by lia. rewrite Z.shiftr_div_pow2 by lia.
  pose proof (Z.div_mod (x * 5039) (2 ^ 24) ltac:(lia)) as Hd. pose proof (Z.mod_pos_bound (x * 5039) (2 ^ 24) ltac:(lia)).
  set (Q := x * 5039 / 2 ^ 24) in *. unfold kPrime in *.
  rewrite !(wrap_small 32 Q), !(wrap_small 32 (Q * 3329)), (wrap_small 32 (x - _)), (wrap_small 16) by lia.
  rewrite reduce_once_spec by (unfold kPrime; lia). unfold kPrime. replace (x - Q * 3329) with (x + (- Q) * 3329) by lia. apply Z_mod_plus_full.
Qed.

(** ** Congruence *)
Record cong (x y : Z) : Prop := Cong { residue : x mod kPrime = y mod kPrime }.
Infix "≃" := cong (at level 70) : Z_scope.

#[export] Instance cong_equivalence : Equivalence cong.
Proof. split; [by intros ?|intros ?? [?]; by split|intros ??? [?] [?]; split; congruence]. Qed.
#[export] Instance cong_add : Proper (cong ==> cong ==> cong) Z.add.
Proof. intros x x' [Hx] y y' [Hy]. split. by rewrite Zplus_mod, Hx, Hy, <- Zplus_mod. Qed.
#[export] Instance cong_sub : Proper (cong ==> cong ==> cong) Z.sub.
Proof. intros x x' [Hx] y y' [Hy]. split. by rewrite Zminus_mod, Hx, Hy, <- Zminus_mod. Qed.
#[export] Instance cong_mul : Proper (cong ==> cong ==> cong) Z.mul.
Proof. intros x x' [Hx] y y' [Hy]. split. by rewrite Zmult_mod, Hx, Hy, <- Zmult_mod. Qed.
#[export] Instance cong_opp : Proper (cong ==> cong) Z.opp.
Proof. intros x x' Hx. rewrite <- !Z.sub_0_l. by rewrite Hx. Qed.

Lemma cong_mod x : x mod kPrime ≃ x.
Proof. split. apply Zmod_mod. Qed.
Lemma cong_of_eq x y : x = y → x ≃ y.
Proof. by intros ->. Qed.
Lemma cong_fe x y : fe x → fe y → x ≃ y → x = y.
Proof. intros Hx Hy [H]. by rewrite !Z.mod_small in H. Qed.
Lemma mod_fe x : fe (x mod kPrime).
Proof. apply Z.mod_pos_bound. done. Qed.
Lemma cong_dec_true x y : (x mod kPrime =? y mod kPrime) = true → x ≃ y.
Proof. intros H. split. by apply Z.eqb_eq. Qed.

(** Lists of the same residues. *)
Abbreviation lcong := (Forall2 cong).

Lemma lcong_eq a b : Forall (λ x, fe x) a → Forall (λ x, fe x) b → lcong a b → a = b.
Proof.
  intros Ha Hb H. induction H as [|x y a b Hxy _ IH]; [done|]. apply Forall_cons in Ha as [? ?], Hb as [? ?].
  f_equal; [by apply cong_fe|by apply IH].
Qed.

(** ** Polynomials modulo X^2 - z

    [ev z l] is the list as a polynomial, reduced to [(r, i)] for [r + i X]. *)
Definition xmul (z : Z) (p : Z * Z) : Z * Z := (z * p.2, p.1).
Definition paddp (p q : Z * Z) : Z * Z := (p.1 + q.1, p.2 + q.2).
Definition pscale (k : Z) (p : Z * Z) : Z * Z := (k * p.1, k * p.2).
Definition pmulp (z : Z) (p q : Z * Z) : Z * Z := (p.1 * q.1 + z * (p.2 * q.2), p.1 * q.2 + p.2 * q.1).
Fixpoint ev (z : Z) (l : list Z) : Z * Z :=
  match l with [] => (0, 0) | x :: l => paddp (x, 0) (xmul z (ev z l)) end.
Definition pcong (p q : Z * Z) : Prop := p.1 ≃ q.1 ∧ p.2 ≃ q.2.

#[export] Instance pcong_equivalence : Equivalence pcong.
Proof. split; [by split|intros ?? [? ?]; by split|intros ??? [? ?] [? ?]; split; by etrans]. Qed.
#[export] Instance paddp_proper : Proper (pcong ==> pcong ==> pcong) paddp.
Proof. intros p p' [H1 H2] q q' [H3 H4]. split; cbn; [by rewrite H1, H3|by rewrite H2, H4]. Qed.
#[export] Instance xmul_proper : Proper (cong ==> pcong ==> pcong) xmul.
Proof. intros z z' Hz p p' [H1 H2]. split; cbn; [by rewrite Hz, H2|done]. Qed.
#[export] Instance pscale_proper : Proper (cong ==> pcong ==> pcong) pscale.
Proof. intros z z' Hz p p' [H1 H2]. split; cbn; [by rewrite Hz, H1|by rewrite Hz, H2]. Qed.
#[export] Instance pmulp_proper : Proper (cong ==> pcong ==> pcong ==> pcong) pmulp.
Proof. intros z z' Hz p p' [H1 H2] q q' [H3 H4]. split; cbn; [by rewrite Hz, H1, H2, H3, H4|by rewrite H1, H2, H3, H4]. Qed.
#[export] Instance ev_proper : Proper (cong ==> lcong ==> pcong) ev.
Proof. intros z z' Hz a b H. induction H as [|x y a b Hxy _ IH]; [done|]. cbn [ev]. apply paddp_proper; [by split|by apply xmul_proper]. Qed.

Ltac pring := unfold paddp, pscale, xmul, pmulp; cbn [fst snd]; f_equal; ring.

(** X^(2 h) is z^h. *)
Lemma ev_app z a b h : length a = (2 * h)%nat → ev z (a ++ b) = paddp (ev z a) (pscale (z ^ Z.of_nat h) (ev z b)).
Proof.
  revert a. induction h as [|h IH]; intros a Ha.
  - destruct a; [|done]. cbn [app ev]. change (z ^ Z.of_nat 0) with 1. destruct (ev z b). pring.
  - destruct a as [|x [|y a]]; [done|cbn in Ha; lia|]. cbn [length] in Ha. cbn [app ev]. rewrite (IH a) by lia.
    rewrite Nat2Z.inj_succ, Z.pow_succ_r by lia. generalize (z ^ Z.of_nat h) as k. intros k. destruct (ev z a), (ev z b). pring.
Qed.

(** A linear combination of lists of the same length. *)
Lemma ev_linear z (f : Z → Z → Z) j k a b : length a = length b → (∀ x y, In x a → In y b → f x y ≃ j * x + k * y) →
  pcong (ev z (zip_with f a b)) (paddp (pscale j (ev z a)) (pscale k (ev z b))).
Proof.
  revert b. induction a as [|x a IH]; intros [|y b] Hl Hf; try done.
  - cbn. split; cbn; apply cong_of_eq; ring.
  - cbn [zip_with ev]. cbn [length] in Hl.
    assert (IH' := IH b ltac:(lia) ltac:(intros; apply Hf; by right)).
    assert (Hxy : pcong (f x y, 0) (j * x + k * y, 0)) by (split; [apply Hf; by left|reflexivity]).
    rewrite Hxy, IH'.
    destruct (ev z a), (ev z b). apply reflexive_eq. cbn [fst snd]. pring.
Qed.
