(* ===== verification/KyberNtt.v ===== *)
(** The number theoretic transform of kyber.c: what the in-place loops do to
    the blocks of a scalar, the transform as evaluation at the roots, its
    inverse, and the product of polynomials. *)
From S2P Require Import Prelude Keccak Kyber KyberRing.

(** ** The loops

    A turn of an inner loop replaces the pair at [j] and [j + offset]. *)
Definition pair_step (f g : Z → Z → Z) (offset : nat) (s : scalar) (j : nat) : scalar :=
  <[(j + offset)%nat := g (coeff s j) (coeff s (j + offset))]> (<[j := f (coeff s j) (coeff s (j + offset))]> s).

Lemma coeff_middle P x Q : coeff (P ++ x :: Q) (length P) = x.
Proof. unfold coeff. by rewrite app_nth2, Nat.sub_diag by lia. Qed.

Lemma insert_at_middle (P : list Z) x y Q i : i = length P → <[i := y]> (P ++ x :: Q) = P ++ y :: Q.
Proof. intros ->. rewrite insert_app_r_alt, Nat.sub_diag by lia. done. Qed.

Lemma pair_loop f g P D1 D2 Q : length D1 = length D2 → ∀ c1 c2, length c1 = length c2 →
  foldl (pair_step f g (length D1 + length c1)) (P ++ D1 ++ c1 ++ D2 ++ c2 ++ Q) (seq (length P + length D1) (length c1)) =
  P ++ (D1 ++ zip_with f c1 c2) ++ (D2 ++ zip_with g c1 c2) ++ Q.
Proof.
  intros HD c1. revert D1 D2 HD. induction c1 as [|x c1 IH]; intros D1 D2 HD [|y c2] Hc; try done.
  - cbn. by rewrite !app_nil_r.
  - cbn [length seq foldl]. set (o := (length D1 + S (length c1))%nat).
    assert (Ex : coeff (P ++ D1 ++ (x :: c1) ++ D2 ++ (y :: c2) ++ Q) (length P + length D1) = x).
    { replace (P ++ D1 ++ (x :: c1) ++ D2 ++ (y :: c2) ++ Q) with ((P ++ D1) ++ x :: (c1 ++ D2 ++ (y :: c2) ++ Q)) by (by rewrite <- !app_assoc).
      rewrite <- length_app. apply coeff_middle. }
    assert (Ey : coeff (P ++ D1 ++ (x :: c1) ++ D2 ++ (y :: c2) ++ Q) (length P + length D1 + o) = y).
    { replace (P ++ D1 ++ (x :: c1) ++ D2 ++ (y :: c2) ++ Q) with ((P ++ D1 ++ (x :: c1) ++ D2) ++ y :: (c2 ++ Q)) by (by rewrite <- !app_assoc).
      replace (length P + length D1 + o)%nat with (length (P ++ D1 ++ (x :: c1) ++ D2)) by (rewrite !length_app; cbn; unfold o; lia).
      apply coeff_middle. }
    assert (Es : pair_step f g o (P ++ D1 ++ (x :: c1) ++ D2 ++ (y :: c2) ++ Q) (length P + length D1) =
      P ++ (D1 ++ [f x y]) ++ c1 ++ (D2 ++ [g x y]) ++ c2 ++ Q).
    { unfold pair_step. rewrite Ex, Ey.
      replace (P ++ D1 ++ (x :: c1) ++ D2 ++ (y :: c2) ++ Q) with ((P ++ D1) ++ x :: (c1 ++ D2 ++ (y :: c2) ++ Q)) by (by rewrite <- !app_assoc).
      rewrite insert_at_middle by (by rewrite length_app).
      replace ((P ++ D1) ++ f x y :: (c1 ++ D2 ++ (y :: c2) ++ Q)) with ((P ++ D1 ++ f x y :: c1 ++ D2) ++ y :: (c2 ++ Q))
        by (rewrite <- !app_assoc; cbn; by rewrite <- !app_assoc).
      rewrite insert_at_middle by (rewrite !length_app; cbn; rewrite length_app; unfold o; lia).
      rewrite <- !app_assoc. cbn. by rewrite <- !app_assoc. }
    rewrite Es. specialize (IH (D1 ++ [f x y]) (D2 ++ [g x y]) ltac:(rewrite !length_app; cbn; lia) c2 ltac:(cbn in Hc; lia)).
    rewrite !length_app in IH. cbn [length] in IH.
    replace (length D1 + 1 + length c1)%nat with o in IH by (unfold o; lia).
    replace (length P + (length D1 + 1))%nat with (S (length P + length D1)) in IH by lia.
    rewrite IH. cbn [zip_with]. by rewrite <- !app_assoc.
Qed.

(** What an inner loop does to a block of two halves. *)
Definition block_step (f g : Z → Z → Z) (offset : nat) (b : list Z) : list Z :=
  let c1 := take offset b in let c2 := drop offset b in zip_with f c1 c2 ++ zip_with g c1 c2.

Lemma block_loop f g offset P b Q : length b = (2 * offset)%nat →
  foldl (pair_step f g offset) (P ++ b ++ Q) (seq (length P) offset) = P ++ block_step f g offset b ++ Q.
Proof.
  intros Hb. pose proof (pair_loop f g P [] [] Q eq_refl (take offset b) (drop offset b)) as H.
  rewrite length_take, length_drop, Nat.min_l in H by lia. cbn [length app] in H. rewrite !Nat.add_0_r, !Nat.add_0_l in H.
  rewrite app_assoc with (l := take offset b), take_drop in H. rewrite H by lia. unfold block_step. by rewrite <- app_assoc.
Qed.

Lemma length_block_step f g offset b : length b = (2 * offset)%nat → length (block_step f g offset b) = (2 * offset)%nat.
Proof. intros. unfold block_step. rewrite length_app, !length_zip_with, !length_take, length_drop. lia. Qed.

(** The loop over the blocks. *)
Definition layer (F : nat → scalar → nat → scalar) (offset : nat) (acc : scalar * nat) (i : nat) : scalar * nat :=
  (foldl (F i) acc.1 (seq acc.2 offset), (acc.2 + 2 * offset)%nat).

Lemma layer_blocks (f g : nat → Z → Z → Z) offset bs : Forall (λ b, length b = (2 * offset)%nat) bs → ∀ P i0,
  foldl (layer (λ i, pair_step (f i) (g i) offset) offset) (P ++ concat bs, length P) (seq i0 (length bs)) =
  (P ++ concat (imap (λ i b, block_step (f (i0 + i)%nat) (g (i0 + i)%nat) offset b) bs), (length P + length (concat bs))%nat).
Proof.
  induction 1 as [|b bs Hb Hbs IH]; intros P i0; cbn [length seq foldl concat imap]; [by rewrite Nat.add_0_r|].
  unfold layer at 2. cbn [fst snd]. rewrite block_loop by done. rewrite Nat.add_0_r.
  rewrite app_assoc. replace (length P + 2 * offset)%nat with (length (P ++ block_step (f i0) (g i0) offset b))
    by (rewrite length_app, length_block_step; done).
  rewrite IH. f_equal.
  - rewrite <- app_assoc. f_equal. f_equal. f_equal. apply imap_ext. intros i x _. cbn. by rewrite Nat.add_succ_r.
  - rewrite !length_app, length_block_step by done. lia.
Qed.

(** ** Slices

    Slice [b] of width [w]; a layer works on each slice of two halves. *)
Definition slice (w b : nat) (s : scalar) : scalar := take w (drop (b * w) s).

Lemma slice_halves o b s : slice o (2 * b) s = take o (slice (2 * o) b s) ∧ slice o (2 * b + 1) s = drop o (slice (2 * o) b s).
Proof.
  unfold slice. split.
  - rewrite take_take, Nat.min_l by lia. do 2 f_equal. lia.
  - rewrite <- take_drop_commute, drop_drop || rewrite skipn_firstn_comm, drop_drop. f_equal; [|f_equal]; lia.
Qed.

Lemma length_slice w b n s : length s = (n * w)%nat → (b < n)%nat → length (slice w b s) = w.
Proof. intros Hl Hb. unfold slice. rewrite length_take, length_drop, Hl. nia. Qed.

Lemma slice_concat w bs b : Forall (λ x, length x = w) bs → (b < length bs)%nat → slice w b (concat bs) = nth b bs [].
Proof.
  intros H. revert b. induction H as [|x bs Hx H IH]; intros [|b] Hb; cbn [length concat nth] in *; try lia.
  - unfold slice. cbn [Nat.mul]. rewrite drop_0. by apply take_app_length'.
  - rewrite <- IH by lia. unfold slice. f_equal. cbn [Nat.mul]. rewrite <- drop_drop. by rewrite drop_app_length' by done.
Qed.

Lemma concat_slices w n s : length s = (n * w)%nat → concat ((λ b, slice w b s) <$> seq 0 n) = s.
Proof.
  revert s. induction n as [|n IH]; intros s Hl; [by destruct s|].
  cbn [seq]. rewrite fmap_cons, <- seq_shift, <- list_fmap_compose. cbn [concat].
  transitivity (take w s ++ drop w s); [|apply take_drop]. f_equal.
  rewrite <- (IH (drop w s)) at 1 by (rewrite length_drop; lia). f_equal. apply list_fmap_ext. intros i x _. unfold compose, slice. by rewrite drop_drop.
Qed.

Lemma length_concat_all (w : nat) (bs : list (list Z)) : Forall (λ x, length x = w) bs → length (concat bs) = (length bs * w)%nat.
Proof. induction 1 as [|x bs Hx _ IH]; [done|]. cbn [concat length]. rewrite length_app. lia. Qed.

Lemma layer_slices (f g : nat → Z → Z → Z) offset n s : length s = (n * (2 * offset))%nat →
  let out := (foldl (layer (λ i, pair_step (f i) (g i) offset) offset) (s, 0%nat) (seq 0 n)).1 in
  length out = length s ∧ ∀ b, (b < n)%nat → slice (2 * offset) b out = block_step (f b) (g b) offset (slice (2 * offset) b s).
Proof.
  intros Hl. cbv zeta. set (bs := ((λ b, slice (2 * offset) b s) <$> seq 0 n) : list (list Z)).
  assert (Hbs : Forall (λ b, length b = (2 * offset)%nat) bs).
  { apply Forall_fmap, Forall_forall. intros b Hb%elem_of_seq. cbn. eapply length_slice; [done|lia]. }
  assert (En : length bs = n) by (unfold bs; by rewrite length_fmap, length_seq).
  assert (Ec : concat bs = s) by (by apply concat_slices).
  assert (Hnth : ∀ b, (b < n)%nat → bs !! b = Some (slice (2 * offset) b s)).
  { intros b Hb. unfold bs. by rewrite list_lookup_fmap, lookup_seq_lt. }
  clearbody bs. pose proof (layer_blocks f g offset bs Hbs [] 0) as H. rewrite En, Ec in H. cbn [app length] in H. rewrite H. cbn [fst].
  set (out := imap _ bs).
  assert (Hout : Forall (λ b, length b = (2 * offset)%nat) out).
  { apply Forall_lookup. intros i x Hx. unfold out in Hx. rewrite list_lookup_imap in Hx.
    destruct (bs !! i) as [b|] eqn:Eb; [|done]. injection Hx as <-. apply length_block_step. by eapply Forall_lookup in Hbs. }
  assert (Eo : length out = n) by (unfold out; by rewrite length_imap). split.
  - rewrite (length_concat_all (2 * offset)) by done. lia.
  - intros b Hb. rewrite slice_concat by (done || lia). unfold out. rewrite (nth_lookup_Some _ b [] (block_step (f b) (g b) offset (slice (2 * offset) b s))); [done|].
    by rewrite list_lookup_imap, Hnth.
Qed.

Lemma slices_rel (R : Z → Z → Prop) w n x y : length x = (n * w)%nat → length y = (n * w)%nat →
  (∀ b, (b < n)%nat → Forall2 R (slice w b x) (slice w b y)) → Forall2 R x y.
Proof.
  intros Hx Hy H. rewrite <- (concat_slices w n x), <- (concat_slices w n y) by done.
  assert (Hall : ∀ l, Forall (λ b, (b < n)%nat) l → Forall2 R (concat ((λ b, slice w b x) <$> l)) (concat ((λ b, slice w b y) <$> l))).
  { induction 1 as [|b l Hb _ IH]; [constructor|]. cbn. apply Forall2_app; [by apply H|done]. }
  apply Hall, Forall_forall. intros b Hb%elem_of_seq. lia.
Qed.

Lemma Forall_slice (P : Z → Prop) w b s : Forall P s → Forall P (slice w b s).
Proof. intros. by apply Forall_take, Forall_drop. Qed.

Lemma Forall_slices (P : Z → Prop) w n s : length s = (n * w)%nat → (∀ b, (b < n)%nat → Forall P (slice w b s)) → Forall P s.
Proof.
  intros Hs H. rewrite <- (concat_slices w n s) by done. apply Forall_concat, Forall_fmap, Forall_forall.
  intros b Hb%elem_of_seq. apply H. lia.
Qed.

(** ** The layers on field elements *)
Definition fN (r x y : Z) : Z := (x + r * y) mod kPrime.
Definition gN (r x y : Z) : Z := (x - r * y) mod kPrime.
Definition fI (x y : Z) : Z := (x + y) mod kPrime.
Definition gI (r x y : Z) : Z := (r * (x - y)) mod kPrime.

Lemma foldl_ext_eq {A B} (f g : A → B → A) l : (∀ a x, f a x = g a x) → ∀ a, foldl f a l = foldl g a l.
Proof. intros H. induction l as [|x l IH]; intros a; [done|]. cbn. by rewrite H, IH. Qed.

Lemma Forall_coeff (P : Z → Prop) l i : Forall P l → (i < length l)%nat → P (coeff l i).
Proof. intros H Hi. unfold coeff. rewrite List.Forall_forall in H. apply H, nth_In, Hi. Qed.

Definition roots_ok (l : list Z) : bool := (length l =? 128)%nat && forallb (λ x, (0 <=? x) && (x <? kPrime)) l.
Lemma roots_fe l i : roots_ok l = true → (i < 128)%nat → fe (coeff l i).
Proof.
  intros [El%Nat.eqb_eq Hl]%andb_true_iff Hi. rewrite forallb_forall in Hl.
  specialize (Hl (coeff l i) ltac:(apply nth_In; lia)). lia.
Qed.

Lemma mult_bound x y : fe x → fe y → 0 <= x * y <= 3328 * 3328.
Proof. unfold kPrime. nia. Qed.

Lemma ntt_pair r x y : fe r → fe x → fe y →
  reduce_once (wrap 16 (reduce (r ⊠[32] y) + x)) = fN r x y ∧ reduce_once (wrap 16 (x - reduce (r ⊠[32] y) + kPrime)) = gN r x y.
Proof.
  intros Hr Hx Hy. pose proof (mult_bound r y Hr Hy). unfold kPrime in Hx, Hy.
  rewrite (wrap_small 32), reduce_spec by (unfold kPrime; lia). pose proof (mod_fe (r * y)) as Hm. unfold kPrime in Hm.
  unfold kPrime at 2. rewrite !(wrap_small 16) by (unfold kPrime; lia). rewrite !reduce_once_spec by (unfold kPrime; lia). split; apply residue.
  - rewrite cong_mod. apply cong_of_eq. ring.
  - rewrite cong_mod. split. rewrite <- (Z_mod_plus_full (x - r * y) 1). by f_equal; unfold kPrime; ring.
Qed.

Lemma inverse_pair r x y : fe r → fe x → fe y →
  reduce_once (wrap 16 (y + x)) = fI x y ∧ reduce (r ⊠[32] wrap 32 (x - y + kPrime)) = gI r x y.
Proof.
  intros Hr Hx Hy. unfold kPrime in Hx, Hy, Hr. unfold kPrime at 1.
  rewrite (wrap_small 16), (wrap_small 32 (x - y + 3329)) by lia. assert (0 <= r * (x - y + 3329) <= 3328 * 6657) by nia.
  rewrite (wrap_small 32), reduce_once_spec, reduce_spec by (unfold kPrime; lia). split; apply residue.
  - apply cong_of_eq. ring.
  - split. rewrite <- (Z_mod_plus_full (r * (x - y)) r). f_equal. unfold kPrime. ring.
Qed.

Lemma zip_with_In {A B C} (f g : A → B → C) a b : (∀ x y, In x a → In y b → f x y = g x y) → zip_with f a b = zip_with g a b.
Proof.
  revert b. induction a as [|x a IH]; intros [|y b] H; try done. cbn [zip_with]. f_equal; [apply H; by left|].
  apply IH. intros; apply H; by right.
Qed.

Lemma block_step_ext (f f' g g' : Z → Z → Z) o b : Forall (λ x, fe x) b →
  (∀ x y, fe x → fe y → f x y = f' x y ∧ g x y = g' x y) → block_step f g o b = block_step f' g' o b.
Proof.
  intros Hb H. rewrite List.Forall_forall in Hb. unfold block_step.
  assert (Ht : ∀ x, In x (take o b) → fe x) by (intros x Hx; apply Hb; rewrite <- (take_drop o b); apply in_or_app; by left).
  assert (Hd : ∀ x, In x (drop o b) → fe x) by (intros x Hx; apply Hb; rewrite <- (take_drop o b); apply in_or_app; by right).
  f_equal; apply zip_with_In; intros; apply H; auto.
Qed.

Lemma Forall_zip_mod (f : Z → Z → Z) a b : (∀ x y, fe (f x y)) → Forall (λ x, fe x) (zip_with f a b).
Proof. intros H. revert b. induction a as [|x a IH]; intros [|y b]; [constructor..|]. constructor; [apply H|apply IH]. Qed.

(** A layer, slice by slice: [F i] is the loop body, [f i] and [g i] what it
    does to a pair of field elements. *)
Lemma layer_spec (F : nat → nat → scalar → nat → scalar) (f g f' g' : nat → Z → Z → Z) offset n s :
  (∀ i, (i < n)%nat → ∀ s j, F i offset s j = pair_step (f i) (g i) offset s j) →
  (∀ i, (i < n)%nat → ∀ x y, fe x → fe y → f i x y = f' i x y ∧ g i x y = g' i x y) →
  (∀ i x y, fe (f' i x y) ∧ fe (g' i x y)) →
  (n * (2 * offset) = DEGREE)%nat → scalar_ok s →
  let out := (foldl (λ '(s, k) i, (foldl (F i offset) s (seq k offset), (k + 2 * offset)%nat)) (s, 0%nat) (seq 0 n)).1 in
  scalar_ok out ∧ ∀ b, (b < n)%nat → slice (2 * offset) b out = block_step (f' b) (g' b) offset (slice (2 * offset) b s).
Proof.
  intros HF Hf Hfe Hn [Hl Hs]. cbv zeta.
  assert (E : ∀ l acc, Forall (λ i, (i < n)%nat) l →
    foldl (λ '(s, k) i, (foldl (F i offset) s (seq k offset), (k + 2 * offset)%nat)) acc l =
    foldl (layer (λ i, pair_step (f i) (g i) offset) offset) acc l).
  { intros l. induction l as [|i l IH]; intros [s1 k] Hi; [done|]. apply Forall_cons in Hi as [Hi Hl']. cbn [foldl].
    rewrite IH by done. f_equal. unfold layer. cbn [fst snd]. f_equal. apply foldl_ext_eq. intros. by apply HF. }
  rewrite E by (apply Forall_forall; intros i Hi%elem_of_seq; lia).
  destruct (layer_slices f g offset n s) as [Hlen Hsl]; [by rewrite Hl|]. set (out := (foldl _ _ _).1) in *.
  assert (Hb : ∀ b, (b < n)%nat → slice (2 * offset) b out = block_step (f' b) (g' b) offset (slice (2 * offset) b s)).
  { intros b Hb. rewrite Hsl by done. apply block_step_ext; [by apply Forall_slice|]. intros. by apply Hf. }
  split; [|done]. split; [by rewrite Hlen|]. apply (Forall_slices _ (2 * offset) n); [by rewrite Hlen, Hl|].
  intros b Hbn. rewrite Hb by done. unfold block_step. apply Forall_app_2; apply Forall_zip_mod; intros; apply Hfe.
Qed.

Lemma ntt_layer_spec step o s : (step * (2 * o) = DEGREE)%nat → (2 * step ≤ 128)%nat → scalar_ok s →
  scalar_ok (ntt_layer step o s) ∧ ∀ b, (b < step)%nat →
    slice (2 * o) b (ntt_layer step o s) =
    block_step (fN (coeff kNTTRoots (b + step))) (gN (coeff kNTTRoots (b + step))) o (slice (2 * o) b s).
Proof.
  intros Hn Hst Hs. unfold ntt_layer.
  apply (layer_spec (λ i, ntt_butterfly (coeff kNTTRoots (i + step)))
    (λ i x y, reduce_once (wrap 16 (reduce (coeff kNTTRoots (i + step) ⊠[32] y) + x)))
    (λ i x y, reduce_once (wrap 16 (x - reduce (coeff kNTTRoots (i + step) ⊠[32] y) + kPrime)))
    (λ i, fN (coeff kNTTRoots (i + step))) (λ i, gN (coeff kNTTRoots (i + step)))); [done| |split; apply mod_fe|done|done].
  intros i Hi x y Hx Hy. apply ntt_pair; [|done|done]. apply roots_fe; [by vm_compute|lia].
Qed.

Lemma inverse_layer_spec step o s : (step * (2 * o) = DEGREE)%nat → (2 * step ≤ 128)%nat → scalar_ok s →
  scalar_ok (inverse_layer step o s) ∧ ∀ b, (b < step)%nat →
    slice (2 * o) b (inverse_layer step o s) =
    block_step fI (gI (coeff kInverseNTTRoots (b + step))) o (slice (2 * o) b s).
Proof.
  intros Hn Hst Hs. unfold inverse_layer.
  apply (layer_spec (λ i, inverse_butterfly (coeff kInverseNTTRoots (i + step)))
    (λ i x y, reduce_once (wrap 16 (y + x)))
    (λ i x y, reduce (coeff kInverseNTTRoots (i + step) ⊠[32] wrap 32 (x - y + kPrime)))
    (λ i, fI) (λ i, gI (coeff kInverseNTTRoots (i + step)))); [done| |split; apply mod_fe|done|done].
  intros i Hi x y Hx Hy. apply inverse_pair; [|done|done]. apply roots_fe; [by vm_compute|lia].
Qed.

(** ** The transform evaluates at the roots *)
Definition zeta (i : nat) : Z := coeff kModRoots i.

Lemma ntt_turn fuel step offset s : (step <? DEGREE / 2)%nat = true →
  ntt_loop (S fuel) step offset s = ntt_loop fuel (step * 2) (offset / 2) (ntt_layer step (offset / 2) s).
Proof. intros H. cbn [ntt_loop]. by rewrite H. Qed.
Lemma ntt_end fuel step offset s : (step <? DEGREE / 2)%nat = false → ntt_loop (S fuel) step offset s = s.
Proof. intros H. cbn [ntt_loop]. by rewrite H. Qed.
Lemma scalar_ntt_layers s : scalar_ntt s = foldl (λ s h, ntt_layer (64 / h) (2 * h) s) s [64; 32; 16; 8; 4; 2; 1]%nat.
Proof.
  unfold scalar_ntt. change DEGREE with (8 + 248)%nat at 1. cbn [Nat.add].
  do 7 (rewrite ntt_turn by reflexivity). rewrite ntt_end by reflexivity. cbn [foldl].
  reflexivity.
Qed.

(** The powers of the roots that the layer with slices of [4 h] splits by. *)
Definition root_check (h : nat) : bool :=
  forallb (λ i, zeta i ^ Z.of_nat h mod kPrime =?
    (if Nat.even (i / h) then coeff kNTTRoots (i / (2 * h) + 64 / h) else - coeff kNTTRoots (i / (2 * h) + 64 / h)) mod kPrime) (seq 0 128).
Lemma root_checks : forallb root_check [64; 32; 16; 8; 4; 2; 1]%nat = true.
Proof. by vm_compute. Qed.

(** The slice of width [2 h] that leads to the root [i] has the value of [a]. *)
Definition evaluates (h : nat) (a s : scalar) : Prop :=
  scalar_ok s ∧ ∀ i, (i < 128)%nat → pcong (ev (zeta i) (slice (2 * h) (i / h) s)) (ev (zeta i) a).

Lemma div_halves h i : (0 < h)%nat →
  (i / h = 2 * (i / (2 * h)) ∧ Nat.even (i / h) = true ∨ i / h = 2 * (i / (2 * h)) + 1 ∧ Nat.even (i / h) = false)%nat.
Proof.
  intros Hh. rewrite Nat.mul_comm with (n := 2%nat) (m := h) at 1 2. rewrite <- !Nat.Div0.div_div.
  pose proof (Nat.div_mod (i / h) 2 ltac:(lia)) as E. pose proof (Nat.mod_upper_bound (i / h) 2 ltac:(lia)).
  destruct ((i / h) mod 2)%nat as [|[|?]] eqn:Em; [left|right|lia]; (split; [lia|]).
  - rewrite Nat.even_spec. exists (i / h / 2)%nat. lia.
  - rewrite <- Nat.negb_odd, negb_false_iff, Nat.odd_spec. exists (i / h / 2)%nat. lia.
Qed.

Lemma take_block_step f g o b : length b = (2 * o)%nat → take o (block_step f g o b) = zip_with f (take o b) (drop o b) ∧
  drop o (block_step f g o b) = zip_with g (take o b) (drop o b).
Proof.
  intros Hb. assert (El : length (zip_with f (take o b) (drop o b)) = o) by (rewrite length_zip_with, length_take, length_drop; lia).
  unfold block_step. split; [by apply take_app_length'|by apply drop_app_length'].
Qed.

Lemma evaluates_layer h a s : (0 < h)%nat → (64 / h * (4 * h) = DEGREE)%nat → (64 / h ≤ 64)%nat → root_check h = true →
  evaluates (2 * h) a s → evaluates h a (ntt_layer (64 / h) (2 * h) s).
Proof.
  intros Hh Hdeg Hst Hr [Hs Hev].
  destruct (ntt_layer_spec (64 / h) (2 * h) s) as [Hok Hsl]; [lia|lia|done|]. split; [done|]. intros i Hi.
  unfold root_check in Hr. rewrite forallb_forall in Hr. specialize (Hr i ltac:(apply in_seq; lia)). apply cong_dec_true in Hr.
  specialize (Hev i Hi). set (b := (i / (2 * h))%nat) in *.
  assert (Hb : (b < 64 / h)%nat).
  { unfold DEGREE in Hdeg. apply Nat.Div0.div_lt_upper_bound. replace (2 * h * (64 / h))%nat with 128%nat by lia. done. }
  specialize (Hsl b Hb). set (r := coeff kNTTRoots (b + 64 / h)) in *. set (old := slice (2 * (2 * h)) b s) in *.
  assert (Hold : length old = (2 * (2 * h))%nat) by (eapply (length_slice _ _ (64 / h)); [destruct Hs as [-> _]; rewrite <- Hdeg; lia|done]).
  assert (E1 : length (take (2 * h) old) = (2 * h)%nat) by (rewrite length_take; lia).
  assert (E2 : length (drop (2 * h) old) = (2 * h)%nat) by (rewrite length_drop; lia).
  rewrite <- (take_drop (2 * h) old), (ev_app _ _ _ h E1) in Hev. rewrite <- Hev.
  destruct (take_block_step (fN r) (gN r) (2 * h) old Hold) as [Et Ed].
  destruct (slice_halves (2 * h) b (ntt_layer (64 / h) (2 * h) s)) as [H0 H1]. rewrite Hsl, Et in H0. rewrite Hsl, Ed in H1.
  destruct (div_halves h i Hh) as [[Ec Heven]|[Ec Heven]]; rewrite Heven in Hr; fold b in Ec; rewrite Ec; [rewrite H0|rewrite H1].
  - rewrite (ev_linear _ _ 1 r) by (lia || (intros; unfold fN; rewrite cong_mod; apply cong_of_eq; ring)).
    rewrite Hr. destruct (ev (zeta i) (take (2 * h) old)), (ev (zeta i) (drop (2 * h) old)). apply reflexive_eq. pring.
  - rewrite (ev_linear _ _ 1 (- r)) by (lia || (intros; unfold gN; rewrite cong_mod; apply cong_of_eq; ring)).
    rewrite Hr. destruct (ev (zeta i) (take (2 * h) old)), (ev (zeta i) (drop (2 * h) old)). apply reflexive_eq. pring.
Qed.

Lemma evaluates_start a : scalar_ok a → evaluates 128 a a.
Proof.
  intros Ha. split; [done|]. intros i Hi. rewrite Nat.div_small by done. unfold slice. rewrite Nat.mul_0_l, drop_0.
  rewrite take_ge by (destruct Ha as [-> _]; done). done.
Qed.

Lemma ntt_evaluates a : scalar_ok a → evaluates 1 a (scalar_ntt a).
Proof.
  intros Ha. rewrite scalar_ntt_layers. cbn [foldl]. pose proof root_checks as H. rewrite forallb_forall in H.
  do 6 (apply evaluates_layer; [lia|reflexivity|by vm_compute; lia|apply H; cbn; tauto|]).
  apply evaluates_layer; [lia|reflexivity|cbn; lia|apply H; cbn; tauto|]. by apply evaluates_start.
Qed.

(** ** The inverse

    [x] is [k] times [y]. *)
Definition scaled (k : Z) (x y : scalar) : Prop := Forall2 (λ u v, u ≃ k * v) x y.

Lemma pairs_undo (f g f' g' : Z → Z → Z) (k k' : Z) u v c1 c2 : length c1 = length c2 →
  (∀ a b x y, a ≃ k * f x y → b ≃ k * g x y → f' a b ≃ k' * x ∧ g' a b ≃ k' * y) →
  scaled k u (zip_with f c1 c2) → scaled k v (zip_with g c1 c2) →
  scaled k' (zip_with f' u v) c1 ∧ scaled k' (zip_with g' u v) c2.
Proof.
  intros Hl H. revert u v c2 Hl. induction c1 as [|x c1 IH]; intros u v [|y c2] Hl Hu Hv; try done.
  - inversion Hu; inversion Hv; subst. by split; constructor.
  - cbn [zip_with] in Hu, Hv. inversion Hu as [|a ? u' ? Ha Hu']; inversion Hv as [|b ? v' ? Hb Hv']; subst. cbn [zip_with].
    destruct (H a b x y Ha Hb), (IH u' v' c2 ltac:(cbn in Hl; lia) Hu' Hv'). split; by constructor.
Qed.

Lemma block_undo (f g f' g' : Z → Z → Z) k k' o xs ys : length ys = (2 * o)%nat →
  (∀ a b x y, a ≃ k * f x y → b ≃ k * g x y → f' a b ≃ k' * x ∧ g' a b ≃ k' * y) →
  scaled k xs (block_step f g o ys) → scaled k' (block_step f' g' o xs) ys.
Proof.
  intros Hl H Hs. destruct (take_block_step f g o ys Hl) as [Et Ed].
  assert (Hu : scaled k (take o xs) (zip_with f (take o ys) (drop o ys))) by (rewrite <- Et; by apply Forall2_take).
  assert (Hv : scaled k (drop o xs) (zip_with g (take o ys) (drop o ys))) by (rewrite <- Ed; by apply Forall2_drop).
  assert (El : length (take o ys) = length (drop o ys)) by (rewrite length_take, length_drop; lia).
  destruct (pairs_undo f g f' g' k k' _ _ _ _ El H Hu Hv) as [H1 H2]. unfold block_step.
  rewrite <- (take_drop o ys). by apply Forall2_app.
Qed.

Definition inverse_check : bool := forallb (λ i, (coeff kInverseNTTRoots i * coeff kNTTRoots i) mod kPrime =? 1) (seq 0 128).
Lemma inverse_roots i : (i < 128)%nat → coeff kInverseNTTRoots i * coeff kNTTRoots i ≃ 1.
Proof.
  intros Hi. assert (H : inverse_check = true) by (by vm_compute). unfold inverse_check in H. rewrite forallb_forall in H.
  specialize (H i ltac:(apply in_seq; lia)). split. by apply Z.eqb_eq.
Qed.

Lemma cong_by k x y : x - y = k * kPrime → x ≃ y.
Proof. intros H. split. replace x with (y + k * kPrime) by lia. apply Z_mod_plus_full. Qed.

Lemma undo_forward r r' k a b x y : r' * r ≃ 1 → a ≃ k * fN r x y → b ≃ k * gN r x y → fI a b ≃ 2 * k * x ∧ gI r' a b ≃ 2 * k * y.
Proof.
  intros Hr. unfold fN, gN, fI, gI. rewrite !cong_mod. intros -> ->. split; [apply cong_of_eq; ring|].
  transitivity (2 * k * (r' * r) * y); [apply cong_of_eq; ring|]. rewrite Hr. apply cong_of_eq. ring.
Qed.

Lemma undo_inverse r r' k a b x y : r' * r ≃ 1 → a ≃ k * fI x y → b ≃ k * gI r' x y → fN r a b ≃ 2 * k * x ∧ gN r a b ≃ 2 * k * y.
Proof.
  intros Hr. unfold fN, gN, fI, gI. rewrite !cong_mod. intros -> ->.
  split; [transitivity (k * (x + y) + k * (r' * r) * (x - y))|transitivity (k * (x + y) - k * (r' * r) * (x - y))];
    (apply cong_of_eq; ring) || (rewrite Hr; apply cong_of_eq; ring).
Qed.

Section layers.
Context (h : nat) (Hdeg : (64 / h * (2 * (2 * h)) = DEGREE)%nat) (Hst : (64 / h ≤ 64)%nat).

Lemma slices_undo (F G : scalar → scalar) (f g : nat → Z → Z → Z) k k' x y :
  scalar_ok x → scalar_ok y → length (F x) = DEGREE → length (G y) = DEGREE →
  (∀ b, (b < 64 / h)%nat → slice (2 * (2 * h)) b (F x) = block_step (f b) (g b) (2 * h) (slice (2 * (2 * h)) b x)) →
  ∀ f' g' : nat → Z → Z → Z,
  (∀ b, (b < 64 / h)%nat → slice (2 * (2 * h)) b (G y) = block_step (f' b) (g' b) (2 * h) (slice (2 * (2 * h)) b y)) →
  (∀ i a b x y, (i < 64 / h)%nat → a ≃ k * f' i x y → b ≃ k * g' i x y → f i a b ≃ k' * x ∧ g i a b ≃ k' * y) →
  scaled k x (G y) → scaled k' (F x) y.
Proof.
  intros [Lx _] [Ly _] LF LG HF f' g' HG H Hs. apply (slices_rel _ (2 * (2 * h)) (64 / h)); [by rewrite LF|by rewrite Ly|].
  intros b Hb. rewrite HF by done. apply (block_undo (f' b) (g' b) _ _ k).
  - by apply (length_slice _ _ (64 / h)); [rewrite Ly|].
  - intros. by apply H.
  - rewrite <- HG by done. by apply Forall2_take, Forall2_drop.
Qed.

Lemma inverse_undoes k x y : scalar_ok x → scalar_ok y →
  scaled k x (ntt_layer (64 / h) (2 * h) y) → scaled (2 * k) (inverse_layer (64 / h) (2 * h) x) y.
Proof.
  intros Hx Hy. destruct (ntt_layer_spec (64 / h) (2 * h) y Hdeg ltac:(lia) Hy) as [[Ly _] HN].
  destruct (inverse_layer_spec (64 / h) (2 * h) x Hdeg ltac:(lia) Hx) as [[Lx _] HI].
  apply (slices_undo (inverse_layer (64 / h) (2 * h)) (ntt_layer (64 / h) (2 * h))
    (λ _, fI) (λ i, gI (coeff kInverseNTTRoots (i + 64 / h))) k (2 * k) x y Hx Hy Lx Ly HI _ _ HN).
  intros i a b u v Hi. apply undo_forward, inverse_roots. lia.
Qed.

Lemma forward_undoes k x y : scalar_ok x → scalar_ok y →
  scaled k x (inverse_layer (64 / h) (2 * h) y) → scaled (2 * k) (ntt_layer (64 / h) (2 * h) x) y.
Proof.
  intros Hx Hy. destruct (ntt_layer_spec (64 / h) (2 * h) x Hdeg ltac:(lia) Hx) as [[Lx _] HN].
  destruct (inverse_layer_spec (64 / h) (2 * h) y Hdeg ltac:(lia) Hy) as [[Ly _] HI].
  apply (slices_undo (ntt_layer (64 / h) (2 * h)) (inverse_layer (64 / h) (2 * h))
    (λ i, fN (coeff kNTTRoots (i + 64 / h))) (λ i, gN (coeff kNTTRoots (i + 64 / h))) k (2 * k) x y Hx Hy Lx Ly HN _ _ HI).
  intros i a b u v Hi. apply undo_inverse, inverse_roots. lia.
Qed.

Lemma ntt_layer_ok s : scalar_ok s → scalar_ok (ntt_layer (64 / h) (2 * h) s).
Proof. intros Hs. apply (ntt_layer_spec (64 / h) (2 * h) s Hdeg ltac:(lia) Hs). Qed.
Lemma inverse_layer_ok s : scalar_ok s → scalar_ok (inverse_layer (64 / h) (2 * h) s).
Proof. intros Hs. apply (inverse_layer_spec (64 / h) (2 * h) s Hdeg ltac:(lia) Hs). Qed.
End layers.

(** ** All the layers *)
Definition good (h : nat) : Prop := (64 / h * (2 * (2 * h)) = DEGREE)%nat ∧ (64 / h ≤ 64)%nat.
Definition widths : list nat := [64; 32; 16; 8; 4; 2; 1]%nat.
Lemma widths_good : Forall good widths.
Proof. repeat constructor; vm_compute; lia. Qed.

Lemma inverse_turn fuel step offset s : (offset <? DEGREE)%nat = true →
  inverse_loop (S fuel) step offset s = inverse_loop fuel (step / 2) (offset * 2) (inverse_layer (step / 2) offset s).
Proof. intros H. cbn [inverse_loop]. by rewrite H. Qed.
Lemma inverse_end fuel step offset s : (offset <? DEGREE)%nat = false → inverse_loop (S fuel) step offset s = s.
Proof. intros H. cbn [inverse_loop]. by rewrite H. Qed.
Lemma inverse_layers s : inverse_loop DEGREE (DEGREE / 2) 2 s = foldl (λ s h, inverse_layer (64 / h) (2 * h) s) s (rev widths).
Proof.
  change DEGREE with (8 + 248)%nat at 1. cbn [Nat.add].
  do 7 (rewrite inverse_turn by reflexivity). rewrite inverse_end by reflexivity. cbn [rev widths app foldl]. reflexivity.
Qed.

Lemma layers_ok (L : nat → scalar → scalar) hs s : (∀ h s, good h → scalar_ok s → scalar_ok (L h s)) → Forall good hs →
  scalar_ok s → scalar_ok (foldl (λ s h, L h s) s hs).
Proof. intros HL Hhs. revert s. induction Hhs as [|h hs Hh _ IH]; intros s Hs; [done|]. cbn. apply IH, HL; done. Qed.

Lemma layers_undo (F G : nat → scalar → scalar) hs :
  (∀ h s, good h → scalar_ok s → scalar_ok (F h s) ∧ scalar_ok (G h s)) →
  (∀ h k x y, good h → scalar_ok x → scalar_ok y → scaled k x (G h y) → scaled (2 * k) (F h x) y) →
  Forall good hs → ∀ k x y, scalar_ok x → scalar_ok y → scaled k x (foldl (λ s h, G h s) y hs) →
  scaled (2 ^ Z.of_nat (length hs) * k) (foldl (λ s h, F h s) x (rev hs)) y.
Proof.
  intros Hok HF. induction hs as [|h hs IH] using rev_ind; intros Hhs k x y Hx Hy Hs.
  - cbn in *. by rewrite Z.mul_1_l.
  - apply Forall_app in Hhs as [Hhs [Hh _]%Forall_cons]. rewrite foldl_app in Hs. cbn [foldl] in Hs.
    rewrite rev_app_distr, length_app. cbn [rev app foldl length].
    replace (2 ^ Z.of_nat (length hs + 1) * k) with (2 ^ Z.of_nat (length hs) * (2 * k))
      by (rewrite Nat2Z.inj_add, Z.pow_add_r by lia; change (2 ^ Z.of_nat 1) with 2; ring).
    apply IH; [done|by apply Hok|done|]. apply HF; [done|done| |done].
    apply (layers_ok G); [|done|done]. intros. by apply Hok.
Qed.

Lemma both_ok h s : good h → scalar_ok s → scalar_ok (inverse_layer (64 / h) (2 * h) s) ∧ scalar_ok (ntt_layer (64 / h) (2 * h) s).
Proof. intros [H1 H2] Hs. split; [by apply inverse_layer_ok|by apply ntt_layer_ok]. Qed.

Lemma scaled_refl x : scaled 1 x x.
Proof. induction x; constructor; [apply cong_of_eq; ring|done]. Qed.

Lemma scaled_one x y : scalar_ok x → scalar_ok y → scaled 1 x y → x = y.
Proof.
  intros [_ Hx] [_ Hy] H. apply lcong_eq; [done..|]. eapply Forall2_impl; [exact H|]. intros a b Hab. cbn in Hab. by rewrite Z.mul_1_l in Hab.
Qed.

Lemma scale_spec s : scalar_ok s →
  scalar_ok ((λ c, reduce (c ⊠[32] kInverseDegree)) <$> s) ∧ scaled kInverseDegree ((λ c, reduce (c ⊠[32] kInverseDegree)) <$> s) s.
Proof.
  intros [Hl Hs]. assert (H : Forall (λ c, reduce (c ⊠[32] kInverseDegree) = (c * kInverseDegree) mod kPrime) s).
  { eapply Forall_impl; [exact Hs|]. intros c Hc. cbn in Hc. unfold kPrime in Hc. unfold kInverseDegree.
    rewrite wrap_small, reduce_spec by (unfold kPrime; lia). done. }
  split; [split; [by rewrite length_fmap|]|].
  - apply Forall_fmap. eapply Forall_impl; [exact H|]. intros c Hc. unfold compose. rewrite Hc. apply mod_fe.
  - clear Hl Hs. induction H as [|c s Hc _ IH]; cbn; constructor; [|done]. rewrite Hc, cong_mod. apply cong_of_eq. ring.
Qed.

Lemma scaled_trans j k x y z : scaled j x y → scaled k y z → scaled (j * k) x z.
Proof.
  intros H. revert z. induction H as [|a b x y Hab _ IH]; intros z Hz; inversion Hz as [|? c ? z' Hbc Hz']; subst; constructor; [|by apply IH].
  rewrite Hab, Hbc. apply cong_of_eq. ring.
Qed.

Lemma scaled_cong j k x y : j ≃ k → scaled j x y → scaled k x y.
Proof. intros Hjk H. eapply Forall2_impl; [exact H|]. intros a b Hab. cbn in *. by rewrite Hab, Hjk. Qed.

Lemma inverse_degree : 128 * kInverseDegree ≃ 1.
Proof. by split. Qed.

Lemma scalar_ntt_ok s : scalar_ok s → scalar_ok (scalar_ntt s).
Proof.
  intros Hs. rewrite scalar_ntt_layers. apply (layers_ok (λ h, ntt_layer (64 / h) (2 * h))); [|apply widths_good|done].
  intros. by apply both_ok.
Qed.
Lemma scalar_inverse_ntt_ok s : scalar_ok s → scalar_ok (scalar_inverse_ntt s).
Proof.
  intros Hs. unfold scalar_inverse_ntt. apply scale_spec. rewrite inverse_layers.
  apply (layers_ok (λ h, inverse_layer (64 / h) (2 * h))); [|apply Forall_rev, widths_good|done]. intros. by apply both_ok.
Qed.

Lemma inverse_ntt_ntt a : scalar_ok a → scalar_inverse_ntt (scalar_ntt a) = a.
Proof.
  intros Ha. pose proof (scalar_ntt_ok a Ha) as Hn. apply scaled_one; [by apply scalar_inverse_ntt_ok|done|].
  pose proof (layers_undo (λ h, inverse_layer (64 / h) (2 * h)) (λ h, ntt_layer (64 / h) (2 * h)) widths both_ok) as H.
  specialize (H ltac:(intros h k x y [? ?]; by apply inverse_undoes) widths_good 1 (scalar_ntt a) a Hn Ha).
  rewrite <- scalar_ntt_layers in H. specialize (H (scaled_refl _)). rewrite <- inverse_layers in H.
  unfold scalar_inverse_ntt. set (y := inverse_loop _ _ _ _) in *.
  assert (Hy : scalar_ok y).
  { unfold y. rewrite inverse_layers. apply (layers_ok (λ h, inverse_layer (64 / h) (2 * h))); [|apply Forall_rev, widths_good|done].
    intros. by apply both_ok. }
  destruct (scale_spec y Hy) as [_ Hsc]. eapply scaled_cong; [|by eapply scaled_trans].
  change (2 ^ Z.of_nat (length widths) * 1) with 128. rewrite <- inverse_degree. apply cong_of_eq. ring.
Qed.

Lemma ntt_inverse_ntt b : scalar_ok b → scalar_ntt (scalar_inverse_ntt b) = b.
Proof.
  intros Hb. pose proof (scalar_inverse_ntt_ok b Hb) as Hn. apply scaled_one; [by apply scalar_ntt_ok|done|].
  set (y := inverse_loop DEGREE (DEGREE / 2) 2 b).
  assert (Ey : y = foldl (λ s h, inverse_layer (64 / h) (2 * h) s) b (rev widths)) by apply inverse_layers.
  assert (Hy : scalar_ok y).
  { rewrite Ey. apply (layers_ok (λ h, inverse_layer (64 / h) (2 * h))); [|apply Forall_rev, widths_good|done].
    intros. by apply both_ok. }
  pose proof (layers_undo (λ h, ntt_layer (64 / h) (2 * h)) (λ h, inverse_layer (64 / h) (2 * h)) (rev widths)) as H.
  specialize (H ltac:(intros; split; by apply both_ok) ltac:(intros h k u v [? ?]; by apply forward_undoes) ltac:(apply Forall_rev, widths_good)
    kInverseDegree (scalar_inverse_ntt b) b Hn Hb).
  cbv beta in H. rewrite <- Ey, rev_involutive in H. specialize (H ltac:(by apply scale_spec)). unfold widths in H at 2. rewrite <- scalar_ntt_layers in H.
  eapply scaled_cong; [|exact H]. change (2 ^ Z.of_nat (length (rev widths)) * kInverseDegree) with (128 * kInverseDegree). apply inverse_degree.
Qed.
