(* ===== verification/KyberPoly.v ===== *)
(** The ring Z_3329[X]/(X^256 + 1) of the Kyber specification, and the proof
    that kyber.c computes in it through the number theoretic transform. *)
From S2P Require Import Prelude Keccak Kyber KyberRing KyberNtt.

(** ** The ring, by the schoolbook

    A polynomial is the list of its 256 coefficients, residues modulo 3329. *)
Definition poly_zero : list Z := replicate DEGREE 0.
Definition poly_add : list Z → list Z → list Z := zip_with (λ x y, (x + y) mod kPrime).
Definition poly_sub : list Z → list Z → list Z := zip_with (λ x y, (x - y) mod kPrime).
Definition poly_scale (k : Z) (a : list Z) : list Z := (λ x, (k * x) mod kPrime) <$> a.
(** The product by X, with X^256 = -1. *)
Definition poly_shift (a : list Z) : list Z := ((- List.last a 0) mod kPrime) :: removelast a.
Fixpoint poly_mul (a b : list Z) : list Z :=
  match a with
  | [] => poly_zero
  | x :: a => poly_add (poly_scale x b) (poly_shift (poly_mul a b))
  end.

Lemma poly_zero_ok : scalar_ok poly_zero.
Proof. split; [done|]. apply Forall_replicate. by vm_compute. Qed.
Lemma poly_add_ok a b : length a = DEGREE → length b = DEGREE → scalar_ok (poly_add a b).
Proof. intros Ha Hb. split; [unfold poly_add; rewrite length_zip_with; lia|apply Forall_zip_mod; intros; apply mod_fe]. Qed.
Lemma poly_sub_ok a b : length a = DEGREE → length b = DEGREE → scalar_ok (poly_sub a b).
Proof. intros Ha Hb. split; [unfold poly_sub; rewrite length_zip_with; lia|apply Forall_zip_mod; intros; apply mod_fe]. Qed.
Lemma poly_scale_ok k a : length a = DEGREE → scalar_ok (poly_scale k a).
Proof. intros Ha. split; [unfold poly_scale; by rewrite length_fmap|]. apply Forall_fmap, Forall_forall. intros x _. apply mod_fe. Qed.
Lemma poly_shift_ok a : scalar_ok a → scalar_ok (poly_shift a).
Proof.
  intros [Hl Ha]. unfold poly_shift. destruct (exists_last (l := a)) as (a0 & x & ->); [by intros ->|].
  rewrite removelast_last, List.last_last. rewrite length_app in Hl. cbn in Hl. split; [cbn; lia|].
  apply Forall_app in Ha as [Ha _]. constructor; [apply mod_fe|done].
Qed.
Lemma poly_mul_ok a b : length b = DEGREE → scalar_ok (poly_mul a b).
Proof.
  intros Hb. induction a as [|x a IH]; [apply poly_zero_ok|]. cbn [poly_mul].
  apply poly_add_ok; [by apply poly_scale_ok|by apply poly_shift_ok].
Qed.

#[local] Opaque scalar_ntt scalar_inverse_ntt.

(** ** Values at the roots *)
Lemma ev_add z a b : length a = length b → pcong (ev z (poly_add a b)) (paddp (ev z a) (ev z b)).
Proof.
  intros Hl. unfold poly_add. rewrite (ev_linear z _ 1 1 a b Hl) by (intros; rewrite cong_mod; apply cong_of_eq; ring).
  destruct (ev z a), (ev z b). apply reflexive_eq. pring.
Qed.
Definition psubp (p q : Z * Z) : Z * Z := (p.1 - q.1, p.2 - q.2).
#[export] Instance psubp_proper : Proper (pcong ==> pcong ==> pcong) psubp.
Proof. intros p p' [H1 H2] q q' [H3 H4]. split; cbn; [by rewrite H1, H3|by rewrite H2, H4]. Qed.
Lemma ev_sub z a b : length a = length b → pcong (ev z (poly_sub a b)) (psubp (ev z a) (ev z b)).
Proof.
  intros Hl. unfold poly_sub. rewrite (ev_linear z _ 1 (-1) a b Hl) by (intros; rewrite cong_mod; apply cong_of_eq; ring).
  destruct (ev z a), (ev z b). apply reflexive_eq. unfold psubp. pring.
Qed.
Lemma ev_zero z n : ev z (replicate n 0) = (0, 0).
Proof. induction n as [|n IH]; [done|]. cbn [replicate ev]. rewrite IH. unfold paddp, xmul. cbn [fst snd]. f_equal; ring. Qed.
Lemma ev_scale z k a : pcong (ev z (poly_scale k a)) (pscale k (ev z a)).
Proof.
  induction a as [|x a IH]; [split; cbn; apply cong_of_eq; ring|]. cbn [poly_scale fmap list_fmap ev]. fold (poly_scale k a).
  assert (Hx : pcong ((k * x) mod kPrime, 0) (k * x, 0)) by (split; [apply cong_mod|reflexivity]). unfold poly_scale in IH. cbn in IH |- *.
  rewrite Hx, IH. destruct (ev z a). apply reflexive_eq. pring.
Qed.

(** z is a root of X^128 + 1, so X^256 is -1 modulo X^2 - z. *)
Definition is_root (z : Z) : Prop := z ^ 128 ≃ -1.
Lemma zeta_root i : (i < 128)%nat → is_root (zeta i).
Proof.
  intros Hi. assert (H : forallb (λ i, zeta i ^ 128 mod kPrime =? -1 mod kPrime) (seq 0 128) = true) by (by vm_compute).
  rewrite forallb_forall in H. apply cong_dec_true, H, in_seq. lia.
Qed.

Lemma ev_shift z a : is_root z → length a = DEGREE → pcong (ev z (poly_shift a)) (xmul z (ev z a)).
Proof.
  intros Hz Hl. unfold poly_shift. destruct (exists_last (l := a)) as (a0 & x & ->); [by intros ->|].
  rewrite removelast_last, List.last_last. rewrite length_app in Hl. cbn in Hl.
  transitivity (ev z ((0 :: a0) ++ [x])); [|cbn [app ev]; destruct (ev z (a0 ++ [x])); apply reflexive_eq; pring].
  rewrite (ev_app z (0 :: a0) [x] 128) by (cbn; unfold DEGREE in Hl; lia). change (z ^ Z.of_nat 128) with (z ^ 128).
  assert (Hx : pcong ((- x) mod kPrime, 0) (- x, 0)) by (split; [apply cong_mod|reflexivity]). cbn [ev]. rewrite Hx.
  unfold is_root in Hz. rewrite Hz. destruct (ev z a0). apply reflexive_eq. pring.
Qed.

Lemma ev_mul z a b : is_root z → length b = DEGREE → pcong (ev z (poly_mul a b)) (pmulp z (ev z a) (ev z b)).
Proof.
  intros Hz Hb. induction a as [|x a IH].
  - cbn [poly_mul ev]. unfold poly_zero. rewrite ev_zero. destruct (ev z b). apply reflexive_eq. pring.
  - cbn [poly_mul]. destruct (poly_mul_ok a b Hb) as [Hm Hf]. pose proof (poly_shift_ok _ (conj Hm Hf)) as [Hs _].
    rewrite ev_add by (unfold poly_scale; rewrite length_fmap, Hs; done). rewrite ev_scale, ev_shift, IH by done. cbn [ev].
    destruct (ev z a), (ev z b). apply reflexive_eq. pring.
Qed.

(** ** The transform of the code *)
Definition pair_at (s : scalar) (i : nat) : Z * Z := (coeff s (2 * i), coeff s (2 * i + 1)).

Lemma slice_pair s i : length s = DEGREE → (i < 128)%nat → slice 2 i s = [coeff s (2 * i); coeff s (2 * i + 1)].
Proof.
  intros Hl Hi. assert (E : length (slice 2 i s) = 2%nat) by (apply (length_slice 2 i 128); [by rewrite Hl|done]).
  destruct (slice 2 i s) as [|x [|y [|? ?]]] eqn:Es; try discriminate E.
  assert (Hn : ∀ j, (j < 2)%nat → nth j (slice 2 i s) 0 = coeff s (2 * i + j)).
  { intros j Hj. unfold slice, coeff. rewrite nth_firstn, nth_skipn. destruct (Nat.ltb_spec j 2); [|lia]. f_equal. lia. }
  pose proof (Hn 0%nat ltac:(lia)) as H0. pose proof (Hn 1%nat ltac:(lia)) as H1. rewrite Es in H0, H1. cbn [nth] in H0, H1.
  rewrite Nat.add_0_r in H0. by rewrite H0, H1.
Qed.

Lemma ntt_pairs a i : scalar_ok a → (i < 128)%nat → pcong (pair_at (scalar_ntt a) i) (ev (zeta i) a).
Proof.
  intros Ha Hi. destruct (ntt_evaluates a Ha) as [[Hl _] H]. specialize (H i Hi). rewrite Nat.div_1_r in H. rewrite Nat.mul_1_r in H.
  rewrite slice_pair in H; [|exact Hl|exact Hi]. rewrite <- H. unfold pair_at.
  generalize (coeff (scalar_ntt a) (2 * i)), (coeff (scalar_ntt a) (2 * i + 1)). intros x y. cbn [ev]. apply reflexive_eq. pring.
Qed.

Lemma pairs_eq a b : scalar_ok a → scalar_ok b → (∀ i, (i < 128)%nat → pcong (pair_at a i) (pair_at b i)) → a = b.
Proof.
  intros [La Ha] [Lb Hb] H. apply lcong_eq; [done..|]. apply (slices_rel _ 2 128); [rewrite La; reflexivity|rewrite Lb; reflexivity|]. intros i Hi.
  rewrite !slice_pair by done. specialize (H i Hi) as [H1 H2]. constructor; [exact H1|]. constructor; [exact H2|constructor].
Qed.

(** A polynomial is determined by its values. *)
Lemma values_eq a b : scalar_ok a → scalar_ok b → (∀ i, (i < 128)%nat → pcong (ev (zeta i) a) (ev (zeta i) b)) → a = b.
Proof.
  intros Ha Hb H. rewrite <- (inverse_ntt_ntt a), <- (inverse_ntt_ntt b) by done. f_equal.
  apply pairs_eq; [by apply scalar_ntt_ok..|]. intros i Hi. rewrite !ntt_pairs by done. by apply H.
Qed.

Lemma inverse_value b i : scalar_ok b → (i < 128)%nat → pcong (ev (zeta i) (scalar_inverse_ntt b)) (pair_at b i).
Proof. intros Hb Hi. rewrite <- ntt_pairs by (done || by apply scalar_inverse_ntt_ok). by rewrite ntt_inverse_ntt. Qed.

(** *** Sums and products of the code *)
Lemma zip_coeff (f : Z → Z → Z) n a b : length a = n → length b = n → (λ i, f (coeff a i) (coeff b i)) <$> seq 0 n = zip_with f a b.
Proof.
  revert a b. induction n as [|n IH]; intros [|x a] [|y b] Ha Hb; try done. cbn [seq fmap list_fmap zip_with]. f_equal.
  rewrite <- (IH a b) by (cbn in Ha, Hb; lia). rewrite <- seq_shift, <- list_fmap_compose. done.
Qed.

Lemma coeff_zip (f : Z → Z → Z) n a b j : length a = n → length b = n → (j < n)%nat →
  coeff (zip_with f a b) j = f (coeff a j) (coeff b j).
Proof.
  intros Ha Hb Hj. rewrite <- (zip_coeff f n a b Ha Hb). unfold coeff at 1.
  apply nth_lookup_Some. by rewrite list_lookup_fmap, lookup_seq_lt.
Qed.

Lemma fe_in a x : Forall (λ x, fe x) a → In x a → fe x.
Proof. intros H Hx. rewrite List.Forall_forall in H. by apply H. Qed.

Lemma scalar_add_spec a b : scalar_ok a → scalar_ok b → scalar_add a b = poly_add a b.
Proof.
  intros [La Ha] [Lb Hb]. unfold scalar_add. rewrite (zip_coeff (λ x y, reduce_once (wrap 16 (x + y)))) by done.
  apply zip_with_In. intros x y Hx%(fe_in _ _ Ha) Hy%(fe_in _ _ Hb). unfold kPrime in Hx, Hy.
  rewrite wrap_small, reduce_once_spec by (unfold kPrime; lia). done.
Qed.
Lemma scalar_sub_spec a b : scalar_ok a → scalar_ok b → scalar_sub a b = poly_sub a b.
Proof.
  intros [La Ha] [Lb Hb]. unfold scalar_sub. rewrite (zip_coeff (λ x y, reduce_once (wrap 16 (x - y + kPrime)))) by done.
  apply zip_with_In. intros x y Hx%(fe_in _ _ Ha) Hy%(fe_in _ _ Hb). unfold kPrime in Hx, Hy.
  rewrite wrap_small, reduce_once_spec by (unfold kPrime; lia). rewrite <- (Z_mod_plus_full (x - y) 1). f_equal; ring.
Qed.

Lemma coeff_fe a i : scalar_ok a → (i < DEGREE)%nat → fe (coeff a i).
Proof. intros [Hl Ha] Hi. apply (Forall_coeff (λ x, fe x)); [done|lia]. Qed.

Lemma mult_pair_spec a b i : scalar_ok a → scalar_ok b → (i < 128)%nat →
  ∃ r m, mult_pair a b i = [r; m] ∧ fe r ∧ fe m ∧ pcong (r, m) (pmulp (zeta i) (pair_at a i) (pair_at b i)).
Proof.
  intros Ha Hb Hi. unfold mult_pair, pair_at. fold (zeta i).
  pose proof (coeff_fe a (2 * i) Ha ltac:(unfold DEGREE; lia)) as H1. pose proof (coeff_fe a (2 * i + 1) Ha ltac:(unfold DEGREE; lia)) as H2.
  pose proof (coeff_fe b (2 * i) Hb ltac:(unfold DEGREE; lia)) as H3. pose proof (coeff_fe b (2 * i + 1) Hb ltac:(unfold DEGREE; lia)) as H4.
  assert (Hz : fe (zeta i)) by (apply roots_fe; [by vm_compute|done]).
  generalize dependent (coeff a (2 * i)). generalize dependent (coeff a (2 * i + 1)). intros a1 H2 a0 H1.
  generalize dependent (coeff b (2 * i)). generalize dependent (coeff b (2 * i + 1)). intros b1 H4 b0 H3.
  generalize dependent (zeta i). intros z Hz. cbv zeta.
  pose proof (mult_bound a0 b0 H1 H3). pose proof (mult_bound a1 b1 H2 H4). pose proof (mult_bound a0 b1 H1 H4). pose proof (mult_bound a1 b0 H2 H3).
  rewrite !(wrap_small 32 (a0 * b0)), !(wrap_small 32 (a1 * b1)), !(wrap_small 32 (a0 * b1)), !(wrap_small 32 (a1 * b0)) by lia.
  rewrite (reduce_spec (a1 * b1)) by (unfold kPrime; lia). pose proof (mult_bound _ _ (mod_fe (a1 * b1)) Hz).
  rewrite (wrap_small 32 ((a1 * b1) mod kPrime * z)) by lia. rewrite !(wrap_small 32) by lia.
  rewrite !reduce_spec by (unfold kPrime in *; lia).
  eexists _, _. split; [reflexivity|]. split; [apply mod_fe|]. split; [apply mod_fe|]. split; cbn [fst snd pmulp]; rewrite cong_mod.
  - rewrite cong_mod. apply cong_of_eq. ring.
  - apply cong_of_eq. ring.
Qed.

Lemma scalar_mult_spec a b : scalar_ok a → scalar_ok b →
  scalar_ok (scalar_mult a b) ∧ ∀ i, (i < 128)%nat → pcong (pair_at (scalar_mult a b) i) (pmulp (zeta i) (pair_at a i) (pair_at b i)).
Proof.
  intros Ha Hb. unfold scalar_mult. change (DEGREE / 2)%nat with 128%nat. set (bs := (mult_pair a b <$> seq 0 128) : list (list Z)).
  assert (H2 : Forall (λ x, length x = 2%nat) bs) by (apply Forall_fmap, Forall_forall; intros; done).
  assert (Hlen : length bs = 128%nat) by (unfold bs; by rewrite length_fmap, length_seq).
  assert (Hok : scalar_ok (concat bs)).
  { split; [by rewrite (length_concat_all 2), Hlen|]. apply Forall_concat, Forall_fmap, Forall_forall. intros i Hi%elem_of_seq.
    destruct (mult_pair_spec a b i Ha Hb ltac:(lia)) as (r & m & E & Hr & Hm & _). unfold compose. rewrite E.
    apply Forall_cons_2; [exact Hr|]. apply Forall_cons_2; [exact Hm|constructor]. }
  split; [done|]. intros i Hi. destruct (mult_pair_spec a b i Ha Hb Hi) as (r & m & E & _ & _ & Hp).
  pose proof (slice_pair (concat bs) i (proj1 Hok) Hi) as Hs. rewrite slice_concat in Hs by (done || lia).
  rewrite (nth_lookup_Some bs i [] (mult_pair a b i)) in Hs by (unfold bs; by rewrite list_lookup_fmap, lookup_seq_lt).
  rewrite E in Hs. clearbody bs. pose proof (f_equal (λ l, nth 0 l 0) Hs) as E0. pose proof (f_equal (λ l, nth 1 l 0) Hs) as E1. cbn [nth] in E0, E1.
  unfold pair_at at 1. rewrite <- E0, <- E1. exact Hp.
Qed.

(** The code multiplies polynomials. *)
Lemma mult_is_poly_mul a b : scalar_ok a → scalar_ok b →
  scalar_inverse_ntt (scalar_mult (scalar_ntt a) (scalar_ntt b)) = poly_mul a b.
Proof.
  intros Ha Hb. pose proof (scalar_ntt_ok a Ha) as Hna. pose proof (scalar_ntt_ok b Hb) as Hnb.
  destruct (scalar_mult_spec _ _ Hna Hnb) as [Hm Hp].
  apply values_eq; [by apply scalar_inverse_ntt_ok|apply poly_mul_ok, Hb|]. intros i Hi.
  rewrite inverse_value, Hp, !ntt_pairs by done. symmetry. apply ev_mul; [by apply zeta_root|apply Hb].
Qed.

(** Seven bits in the reverse order. *)
Fixpoint bitreverse (n : nat) (i acc : Z) : Z :=
  match n with O => acc | S n => bitreverse n (i ≫ 1) (2 * acc + i mod 2) end.
Lemma zeta_power i : (i < 128)%nat → zeta i = 17 ^ (2 * bitreverse 7 (Z.of_nat i) 0 + 1) mod kPrime.
Proof.
  intros Hi. assert (H : forallb (λ i, zeta i =? 17 ^ (2 * bitreverse 7 (Z.of_nat i) 0 + 1) mod kPrime) (seq 0 128) = true) by (by vm_compute).
  rewrite forallb_forall in H. apply Z.eqb_eq, H, in_seq. lia.
Qed.

(** The remainder of a polynomial modulo X^2 - z. *)
Definition remainder (z : Z) (a : list Z) : Z * Z := ((ev z a).1 mod kPrime, (ev z a).2 mod kPrime).

(** C3: the number theoretic transform of kyber.c.  Entries [2 i] and [2 i + 1]
    of the transform are the remainder modulo X^2 - 17^(2 bitreverse(i) + 1);
    the inverse transform is its inverse on both sides; and multiplying
    transforms with [scalar_mult] is multiplying the polynomials modulo
    X^256 + 1.  All results are in [0, 3329). *)
Theorem ntt_is_ring_isomorphism a b : scalar_ok a → scalar_ok b →
  scalar_ok (scalar_ntt a) ∧ scalar_ok (scalar_inverse_ntt a) ∧
  (∀ i, (i < 128)%nat → (coeff (scalar_ntt a) (2 * i), coeff (scalar_ntt a) (2 * i + 1)) =
     remainder (17 ^ (2 * bitreverse 7 (Z.of_nat i) 0 + 1) mod kPrime) a) ∧
  scalar_inverse_ntt (scalar_ntt a) = a ∧ scalar_ntt (scalar_inverse_ntt a) = a ∧
  scalar_inverse_ntt (scalar_add (scalar_ntt a) (scalar_ntt b)) = poly_add a b ∧
  scalar_inverse_ntt (scalar_mult (scalar_ntt a) (scalar_ntt b)) = poly_mul a b.
Proof.
  intros Ha Hb. pose proof (scalar_ntt_ok a Ha) as Hna. pose proof (scalar_ntt_ok b Hb) as Hnb.
  split; [done|]. split; [by apply scalar_inverse_ntt_ok|]. split.
  - intros i Hi. rewrite <- zeta_power by done. destruct (ntt_pairs a i Ha Hi) as [[H1] [H2]]. unfold pair_at in *. cbn [fst snd] in H1, H2.
    unfold remainder. rewrite <- H1, <- H2. rewrite !Z.mod_small; [reflexivity|apply coeff_fe; [done|unfold DEGREE; lia]..].
  - split; [by apply inverse_ntt_ntt|]. split; [by apply ntt_inverse_ntt|]. split; [|by apply mult_is_poly_mul].
    rewrite scalar_add_spec by done. pose proof (poly_add_ok _ _ (proj1 Hna) (proj1 Hnb)) as Hs.
    apply values_eq; [by apply scalar_inverse_ntt_ok|apply poly_add_ok; [apply Ha|apply Hb]|]. intros i Hi.
    rewrite inverse_value by done. rewrite (ev_add _ a b) by (by rewrite (proj1 Ha), (proj1 Hb)).
    rewrite <- (ntt_pairs a i), <- (ntt_pairs b i) by done.
    unfold pair_at, poly_add. rewrite !(coeff_zip _ DEGREE) by (apply Hna || apply Hnb || (unfold DEGREE; lia)).
    split; cbn [fst snd paddp]; apply cong_mod.
Qed.

(** 1 + 2 X, and the polynomial with every coefficient -1. *)
Definition example_a : scalar := 1 :: 2 :: replicate 254 0.
Definition example_b : scalar := replicate 256 3328.
Lemma example_a_ok : scalar_ok example_a.
Proof. split; [done|]. apply Forall_cons_2; [done|]. apply Forall_cons_2; [done|]. by apply Forall_replicate. Qed.
Lemma example_b_ok : scalar_ok example_b.
Proof. split; [done|]. by apply Forall_replicate. Qed.

Lemma ntt_is_ring_isomorphism_witness :
  scalar_ok (scalar_ntt example_a) ∧ scalar_ok (scalar_inverse_ntt example_a) ∧
  (∀ i, (i < 128)%nat → (coeff (scalar_ntt example_a) (2 * i), coeff (scalar_ntt example_a) (2 * i + 1)) =
     remainder (17 ^ (2 * bitreverse 7 (Z.of_nat i) 0 + 1) mod kPrime) example_a) ∧
  scalar_inverse_ntt (scalar_ntt example_a) = example_a ∧ scalar_ntt (scalar_inverse_ntt example_a) = example_a ∧
  scalar_inverse_ntt (scalar_add (scalar_ntt example_a) (scalar_ntt example_b)) = poly_add example_a example_b ∧
  scalar_inverse_ntt (scalar_mult (scalar_ntt example_a) (scalar_ntt example_b)) = poly_mul example_a example_b.
Proof. exact (ntt_is_ring_isomorphism example_a example_b example_a_ok example_b_ok). Defined.
