(* ===== verification/KyberCode.v ===== *)
(** Packing and compression of coefficients: [scalar_encode] and
    [scalar_decode] as bit streams, [compress] and [decompress] as rounding. *)
From S2P Require Import Prelude Bits ConstTime Keccak Kyber KyberRing KyberNtt.

(** ** Bits of a number *)
Lemma bits_from_S n x : bits_from (S n) x = Z.odd x :: bits_from n (x ≫ 1).
Proof.
  unfold bits_from. cbn [seq fmap list_fmap]. rewrite Z.bit0_odd. f_equal. rewrite <- seq_shift, <- list_fmap_compose.
  apply list_fmap_ext. intros i k _. unfold compose. rewrite Z.shiftr_spec by lia. f_equal. lia.
Qed.

Lemma length_bits_from n x : length (bits_from n x) = n.
Proof. unfold bits_from. by rewrite length_fmap, length_seq. Qed.

Lemma bits_from_app a b x : bits_from (a + b) x = bits_from a x ++ bits_from b (x ≫ Z.of_nat a).
Proof.
  unfold bits_from. rewrite seq_app, fmap_app. f_equal. cbn.
  apply list_eq. intros i. rewrite !list_lookup_fmap. destruct (decide (i < b)%nat).
  - rewrite !lookup_seq_lt by done. cbn. rewrite Z.shiftr_spec by lia. do 2 f_equal. lia.
  - by rewrite !lookup_seq_ge by lia.
Qed.

Lemma bits_from_ext n x y : (∀ i, 0 <= i < Z.of_nat n → Z.testbit x i = Z.testbit y i) → bits_from n x = bits_from n y.
Proof. intros H. unfold bits_from. apply list_fmap_ext. intros i k Hk%lookup_seq. apply H. lia. Qed.

Lemma bits_from_lor a b x y : 0 <= x < 2 ^ Z.of_nat a → bits_from (a + b) (x .| (y ≪ Z.of_nat a)) = bits_from a x ++ bits_from b y.
Proof.
  intros Hx. rewrite bits_from_app. f_equal.
  - apply bits_from_ext. intros i Hi. rewrite Z.lor_spec, Z.shiftl_spec_low by lia. apply orb_false_r.
  - apply bits_from_ext. intros i Hi. rewrite Z.shiftr_spec, Z.lor_spec, Z.shiftl_spec by lia.
    rewrite (testbit_range (Z.of_nat a) x) by lia. cbn. f_equal. lia.
Qed.

Lemma bits_from_inj n x y : in_range (Z.of_nat n) x → in_range (Z.of_nat n) y → bits_from n x = bits_from n y → x = y.
Proof. intros Hx Hy H. by rewrite <- (word_bits n x Hx), <- (word_bits n y Hy), H. Qed.

Lemma chunk_mask_spec c : (0 < c ≤ 8)%nat → chunk_mask c = Z.ones (Z.of_nat c).
Proof. intros H. do 9 (destruct c as [|c]; [try lia; by vm_compute|]). lia. Qed.

Lemma chunk_range c e : (0 < c ≤ 8)%nat → 0 <= e .& chunk_mask c < 2 ^ Z.of_nat c.
Proof. intros H. rewrite chunk_mask_spec, Z.land_ones by lia. apply Z.mod_pos_bound. lia. Qed.

Lemma bits_chunk c e : (0 < c ≤ 8)%nat → bits_from c (e .& chunk_mask c) = bits_from c e.
Proof.
  intros H. apply bits_from_ext. intros i Hi. rewrite chunk_mask_spec, Z.land_ones by lia. apply Z.mod_pow2_bits_low. lia.
Qed.

(** The bits of a byte string, and of coefficients of a width. *)
Definition stream (n : nat) (l : list Z) : list bool := concat (bits_from n <$> l).
Lemma stream_app n a b : stream n (a ++ b) = stream n a ++ stream n b.
Proof. unfold stream. by rewrite fmap_app, concat_app. Qed.
Lemma length_stream n l : length (stream n l) = (length l * n)%nat.
Proof.
  unfold stream. induction l as [|x l IH]; [done|]. cbn. rewrite length_app, length_bits_from. unfold stream in IH. lia.
Qed.
Lemma stream_inj n a b : (0 < n)%nat → Forall (λ x, in_range (Z.of_nat n) x) a → Forall (λ x, in_range (Z.of_nat n) x) b →
  stream n a = stream n b → a = b.
Proof.
  intros Hn Ha. revert b. induction Ha as [|x a Hx _ IH]; intros [|y b] Hb H.
  - done.
  - apply (f_equal length) in H. rewrite !length_stream in H. cbn in H. lia.
  - apply (f_equal length) in H. rewrite !length_stream in H. cbn in H. lia.
  - apply Forall_cons in Hb as [Hy Hb]. unfold stream in H. cbn in H. apply app_inj_1 in H as [H1 H2]; [|by rewrite !length_bits_from].
    f_equal; [by apply (bits_from_inj n)|by apply IH].
Qed.

(** ** The encoder

    The bits that have been emitted. *)
Definition emitted (st : encoder) : list bool := let '(out, out_byte, n) := st in stream 8 out ++ bits_from n out_byte.
Definition encoder_ok (st : encoder) : Prop :=
  let '(out, out_byte, n) := st in bytes_ok out ∧ 0 <= out_byte < 2 ^ Z.of_nat n ∧ (n < 8)%nat.

Lemma put_bits n c x e : 0 <= x < 2 ^ Z.of_nat n → (0 < c)%nat → (n + c ≤ 8)%nat →
  0 <= u8 (x .| ((e .& chunk_mask c) ≪ Z.of_nat n)) < 2 ^ Z.of_nat (n + c) ∧
  bits_from (n + c) (u8 (x .| ((e .& chunk_mask c) ≪ Z.of_nat n))) = bits_from n x ++ bits_from c e.
Proof.
  intros Hx Hc Hn. pose proof (chunk_range c e ltac:(lia)) as Hr.
  assert (Hb : 0 <= x .| ((e .& chunk_mask c) ≪ Z.of_nat n) < 2 ^ Z.of_nat (n + c)).
  { rewrite Nat2Z.inj_add. assert (2 ^ Z.of_nat n <= 2 ^ (Z.of_nat n + Z.of_nat c)) by (apply Z.pow_le_mono_r; lia).
    apply lor_range; [lia|lia|]. rewrite Z.shiftl_mul_pow2, Z.pow_add_r by lia. nia. }
  assert (2 ^ Z.of_nat (n + c) <= 2 ^ 8) by (apply Z.pow_le_mono_r; lia).
  rewrite wrap_small by lia. split; [done|]. rewrite bits_from_lor by done. by rewrite bits_chunk by lia.
Qed.

Lemma encode_element_spec fuel left_ element st : (left_ ≤ fuel)%nat → 0 <= element → encoder_ok st →
  encoder_ok (encode_element fuel left_ element st) ∧
  emitted (encode_element fuel left_ element st) = emitted st ++ bits_from left_ element.
Proof.
  revert left_ element st. induction fuel as [|fuel IH]; intros left_ element [[out x] n] Hf He Hst; cbn [encode_element].
  { replace left_ with 0%nat by lia. by rewrite app_nil_r. }
  destruct (Nat.ltb_spec 0 left_) as [Hpos|]; [|replace left_ with 0%nat by lia; by rewrite app_nil_r].
  destruct Hst as (Ho & Hx & Hn). destruct (Nat.leb_spec (8 - n) left_) as [Hge|Hlt].
  - destruct (put_bits n (8 - n) x element Hx ltac:(lia) ltac:(lia)) as [Hr Hb]. replace (n + (8 - n))%nat with 8%nat in * by lia.
    destruct (IH (left_ - (8 - n))%nat (element ≫ Z.of_nat (8 - n)) (out ++ [u8 (x .| ((element .& chunk_mask (8 - n)) ≪ Z.of_nat n))], 0, 0%nat))
      as [Hok Hem]; [lia|by apply Z.shiftr_nonneg|split; [by apply Forall_app_2; [done|]; constructor|cbn; lia]|].
    split; [done|]. rewrite Hem. unfold emitted. rewrite stream_app. unfold stream at 2. cbn [fmap list_fmap concat]. rewrite Hb.
    replace left_ with ((8 - n) + (left_ - (8 - n)))%nat at 2 by lia. rewrite bits_from_app. cbn [bits_from seq fmap list_fmap].
    unfold bits_from at 3. cbn. rewrite !app_nil_r. by rewrite <- !app_assoc.
  - destruct (put_bits n left_ x element Hx ltac:(lia) ltac:(lia)) as [Hr Hb].
    destruct (IH (left_ - left_)%nat (element ≫ Z.of_nat left_) (out, u8 (x .| ((element .& chunk_mask left_) ≪ Z.of_nat n)), (n + left_)%nat))
      as [Hok Hem]; [lia|by apply Z.shiftr_nonneg|split; [done|]; split; [done|lia]|].
    split; [done|]. rewrite Hem, Nat.sub_diag. unfold emitted. rewrite Hb. unfold bits_from at 3. cbn. by rewrite app_nil_r, <- app_assoc.
Qed.

Lemma coeff_seq (s : scalar) : length s = DEGREE → coeff s <$> seq 0 DEGREE = s.
Proof.
  intros Hl. apply list_eq. intros i. rewrite list_lookup_fmap. destruct (decide (i < DEGREE)%nat) as [Hi|Hi].
  - rewrite lookup_seq_lt by done. cbn. destruct (lookup_lt_is_Some_2 s i ltac:(lia)) as [x Hx]. rewrite Hx. f_equal.
    unfold coeff. by apply nth_lookup_Some.
  - by rewrite lookup_seq_ge, lookup_ge_None_2 by lia.
Qed.

Lemma encode_loop_spec bits l st : Forall (λ x, 0 <= x) l → encoder_ok st →
  encoder_ok (foldl (λ st e, encode_element bits bits e st) st l) ∧
  emitted (foldl (λ st e, encode_element bits bits e st) st l) = emitted st ++ stream bits l.
Proof.
  intros Hl. revert st. induction Hl as [|e l He _ IH]; intros st Hst; [by rewrite app_nil_r|]. cbn [foldl].
  destruct (encode_element_spec bits bits e st ltac:(lia) He Hst) as [H1 H2]. destruct (IH _ H1) as [H3 H4].
  split; [done|]. rewrite H4, H2. unfold stream. cbn. by rewrite <- app_assoc.
Qed.

Lemma foldl_fmap' {A B C} (f : A → B → A) (g : C → B) l a : foldl (λ a c, f a (g c)) a l = foldl f a (g <$> l).
Proof. revert a. induction l as [|c l IH]; intros a; [done|]. apply IH. Qed.

(** The bytes of [scalar_encode] are the bits of the coefficients. *)
Lemma scalar_encode_spec s bits : length s = DEGREE → Forall (λ x, 0 <= x) s →
  bytes_ok (scalar_encode s bits) ∧ length (scalar_encode s bits) = (32 * bits)%nat ∧ stream 8 (scalar_encode s bits) = stream bits s.
Proof.
  intros Hl Hs. unfold scalar_encode. rewrite (foldl_fmap' (λ st e, encode_element bits bits e st)), coeff_seq by done.
  destruct (encode_loop_spec bits s ([], 0, 0%nat) Hs) as [H1 H2]; [split; [constructor|cbn; lia]|].
  destruct (foldl _ _ s) as [[out x] n]. destruct H1 as (Ho & Hx & Hn). cbn [emitted] in H2.
  assert (Hlen : (length out * 8 + n = 256 * bits)%nat).
  { apply (f_equal length) in H2. rewrite !length_app, !length_stream, !length_bits_from, Hl in H2. unfold DEGREE in H2. cbn in H2. lia. }
  assert (n = 0%nat) as -> by (assert ((length out * 8 + n) mod 8 = (256 * bits) mod 8)%nat as E by (by rewrite Hlen);
    rewrite Nat.add_comm, Nat.Div0.mod_add, Nat.mod_small in E by done; replace (256 * bits)%nat with (0 + (32 * bits) * 8)%nat in E by lia;
    rewrite Nat.Div0.mod_add in E; done).
  cbn. split; [done|]. split; [lia|]. unfold bits_from in H2. cbn in H2. by rewrite app_nil_r in H2.
Qed.

(** ** The decoder

    The bits that are left to read. *)
Definition available (st : decoder) : list bool := let '(inp, in_byte, n) := st in bits_from n in_byte ++ stream 8 inp.
Definition decoder_ok (st : decoder) : Prop :=
  let '(inp, in_byte, n) := st in bytes_ok inp ∧ 0 <= in_byte < 2 ^ Z.of_nat n ∧ (n ≤ 8)%nat.

Lemma take_app_split {A} (k n : nat) (a b : list A) : length a = n → (n ≤ k)%nat → take k (a ++ b) = a ++ take (k - n) b.
Proof. intros Ha Hk. rewrite take_app, take_ge by lia. by rewrite Ha. Qed.

Lemma decode_turn bits done_ element x n inp c : (n ≤ 8)%nat → 0 <= x < 2 ^ Z.of_nat n → (0 < c ≤ n)%nat → (done_ + c ≤ bits)%nat → (bits ≤ 16)%nat →
  0 <= element < 2 ^ Z.of_nat done_ → bytes_ok inp →
  let element' := wrap 16 (element .| ((x .& chunk_mask c) ≪ Z.of_nat done_)) in
  0 <= element' < 2 ^ Z.of_nat (done_ + c) ∧ bits_from (done_ + c) element' = bits_from done_ element ++ bits_from c x ∧
  decoder_ok (inp, x ≫ Z.of_nat c, (n - c)%nat) ∧
  available (inp, x, n) = bits_from c x ++ available (inp, x ≫ Z.of_nat c, (n - c)%nat).
Proof.
  intros Hn Hx Hc Hd Hb He Hi. cbv zeta. pose proof (chunk_range c x ltac:(lia)) as Hr.
  assert (Hbd : 0 <= element .| ((x .& chunk_mask c) ≪ Z.of_nat done_) < 2 ^ Z.of_nat (done_ + c)).
  { rewrite Nat2Z.inj_add. assert (2 ^ Z.of_nat done_ <= 2 ^ (Z.of_nat done_ + Z.of_nat c)) by (apply Z.pow_le_mono_r; lia).
    apply lor_range; [lia|lia|]. rewrite Z.shiftl_mul_pow2, Z.pow_add_r by lia. nia. }
  assert (2 ^ Z.of_nat (done_ + c) <= 2 ^ 16) by (apply Z.pow_le_mono_r; lia). rewrite wrap_small by lia.
  split; [done|]. split; [rewrite bits_from_lor by done; by rewrite bits_chunk by lia|]. split.
  - split; [done|]. split; [|lia]. apply (shiftr_range_div (Z.of_nat n)); lia.
  - unfold available. rewrite app_assoc, <- bits_from_app. by replace (c + (n - c))%nat with n by lia.
Qed.

Lemma decode_element_spec fuel bits done_ element st : (bits ≤ 16)%nat → (done_ ≤ bits)%nat → (bits - done_ ≤ fuel)%nat →
  0 <= element < 2 ^ Z.of_nat done_ → decoder_ok st → (bits - done_ ≤ length (available st))%nat →
  ∃ e st', decode_element fuel bits done_ element st = Some (e, st') ∧ decoder_ok st' ∧ 0 <= e < 2 ^ Z.of_nat bits ∧
    bits_from bits e = bits_from done_ element ++ take (bits - done_) (available st) ∧
    available st' = drop (bits - done_) (available st).
Proof.
  intros Hb16. revert done_ element st. induction fuel as [|fuel IH]; intros done_ element st Hd Hf He Hst Hav;
    cbn [decode_element]; destruct (Nat.ltb_spec done_ bits) as [Hlt|Hge].
  - lia.
  - assert (done_ = bits) as -> by lia. rewrite Nat.sub_diag, take_0, drop_0, app_nil_r. by exists element, st.
  - destruct st as [[inp x] n]. set (st1 := if (n =? 0)%nat then _ else _).
    assert (H1 : ∃ inp1 x1 n1, st1 = Some (inp1, x1, n1) ∧ decoder_ok (inp1, x1, n1) ∧ (0 < n1)%nat ∧ available (inp1, x1, n1) = available (inp, x, n)).
    { destruct Hst as (Hi & Hx & Hn). unfold st1. destruct (Nat.eqb_spec n 0) as [->|].
      - destruct inp as [|b inp]; [cbn in Hav; lia|]. apply Forall_cons in Hi as [Hbb Hi].
        exists inp, b, 8%nat. split; [done|]. split; [split; [done|]; split; [done|lia]|]. split; [lia|].
        unfold available, stream. cbn [fmap list_fmap concat bits_from seq app]. done.
      - exists inp, x, n. split; [done|]. split; [done|]. split; [lia|done]. }
    destruct H1 as (inp1 & x1 & n1 & -> & (Hi1 & Hx1 & Hn1) & Hpos & Eav). cbn [mbind option_bind].
    set (c := if (n1 <? bits - done_)%nat then n1 else (bits - done_)%nat).
    assert (Hc : (0 < c ≤ n1)%nat ∧ (done_ + c ≤ bits)%nat) by (unfold c; destruct (Nat.ltb_spec n1 (bits - done_)); lia).
    clearbody c. destruct (decode_turn bits done_ element x1 n1 inp1 c) as (Hr & Hbits & Hok & Hsplit); try done; try lia.
    rewrite <- Eav, Hsplit in Hav |- *. rewrite length_app, length_bits_from in Hav.
    edestruct (IH (done_ + c)%nat) as (e & st' & -> & Hst' & Hre & Hbe & Hav'); [lia|lia|exact Hr|exact Hok|lia|].
    exists e, st'. split; [done|]. split; [done|]. split; [done|]. replace (bits - (done_ + c))%nat with (bits - done_ - c)%nat in * by lia. split.
    + rewrite Hbe, Hbits, <- app_assoc. f_equal. by rewrite (take_app_split _ c) by (rewrite ?length_bits_from; lia).
    + rewrite Hav'. rewrite drop_app_ge by (rewrite length_bits_from; lia). by rewrite length_bits_from.
  - assert (done_ = bits) as -> by lia. rewrite Nat.sub_diag, take_0, drop_0, app_nil_r. by exists element, st.
Qed.

(** The decoder reads the coefficients whose bits come next, up to the first
    that is not a residue. *)
Lemma decode_loop_spec n bits out st : (0 < bits ≤ 16)%nat → decoder_ok st → (n * bits ≤ length (available st))%nat →
  ∃ s, length s = n ∧ Forall (λ e, 0 <= e < 2 ^ Z.of_nat bits) s ∧ stream bits s = take (n * bits) (available st) ∧
    decode_loop n bits out st = Some (if forallb (λ e, e <? kPrime) s then Some (out ++ s) else None).
Proof.
  intros Hb. revert out st. induction n as [|n IH]; intros out st Hst Hav.
  { exists []. cbn. rewrite app_nil_r. split; [done|]. by split; [constructor|]. }
  cbn [decode_loop]. destruct (decode_element_spec bits bits 0 0 st) as (e & st' & -> & Hst' & He & Hbe & Hav'); try lia; try done.
  rewrite Nat.sub_0_r in *. cbn [bits_from seq fmap list_fmap app] in Hbe. cbn [mbind option_bind].
  destruct (IH (out ++ [e]) st' Hst') as (s & Hl & Hs & Hbits & Hd); [rewrite Hav', length_drop; lia|].
  exists (e :: s). split; [cbn; lia|]. split; [by constructor|]. split.
  - unfold stream in *. cbn [fmap list_fmap concat]. rewrite Hbits, Hbe, Hav'. cbn [Nat.mul]. by rewrite take_take_drop.
  - cbn [forallb]. destruct (Z.ltb_spec e kPrime), (Z.geb_spec e kPrime); try lia; [|done]. cbn [andb]. rewrite Hd, <- app_assoc. done.
Qed.

Lemma scalar_decode_spec inp bits : (0 < bits ≤ 16)%nat → bytes_ok inp → (32 * bits ≤ length inp)%nat →
  ∃ s, length s = DEGREE ∧ Forall (λ e, 0 <= e < 2 ^ Z.of_nat bits) s ∧ scalar_encode s bits = take (32 * bits) inp ∧
    scalar_decode inp bits = Some (if forallb (λ e, e <? kPrime) s then Some s else None).
Proof.
  intros Hb Hi Hl. unfold scalar_decode.
  destruct (decode_loop_spec DEGREE bits [] (inp, 0, 0%nat) Hb) as (s & Hs & Hr & Hbits & Hd).
  { split; [done|]. split; [cbn; lia|lia]. }
  { cbn [available bits_from seq fmap list_fmap app]. rewrite length_stream. unfold DEGREE. lia. }
  exists s. split; [done|]. split; [done|]. split; [|done].
  assert (Hs0 : Forall (λ x, 0 <= x) s) by (eapply Forall_impl; [exact Hr|]; cbn; lia).
  destruct (scalar_encode_spec s bits Hs Hs0) as (Hbo & Hle & Hst).
  apply (stream_inj 8); [lia|exact Hbo|by apply Forall_take|]. rewrite Hst, Hbits. cbn [available bits_from seq fmap list_fmap app].
  rewrite <- (take_drop (32 * bits) inp) at 1. rewrite stream_app. rewrite take_app_length'; [done|].
  rewrite length_stream, length_take. unfold DEGREE. lia.
Qed.

(** ** Vectors *)
Definition residues (s : scalar) : bool := forallb (λ e, e <? kPrime) s.
Definition fits (bits : nat) (s : scalar) : Prop := length s = DEGREE ∧ Forall (λ e, 0 <= e < 2 ^ Z.of_nat bits) s.

Lemma fits_nonneg bits s : fits bits s → Forall (λ x, 0 <= x) s.
Proof. intros [_ H]. eapply Forall_impl; [exact H|]. cbn. lia. Qed.
Lemma fits_residues bits s : (bits ≤ 11)%nat → fits bits s → residues s = true.
Proof.
  intros Hb [_ H]. apply forallb_forall. rewrite List.Forall_forall in H. intros e He. specialize (H e He). cbn in H.
  assert (2 ^ Z.of_nat bits <= 2 ^ 11) by (apply Z.pow_le_mono_r; lia). unfold kPrime. lia.
Qed.

Lemma vector_encode_3 a b c bits : vector_encode [a; b; c] bits = scalar_encode a bits ++ scalar_encode b bits ++ scalar_encode c bits.
Proof. unfold vector_encode, RANK, entry. cbn [seq fmap list_fmap concat nth]. by rewrite app_nil_r. Qed.

(** A vector is read back: the bytes are those of the only vector whose
    coefficients have them, and it is refused when one is not a residue. *)
Lemma vector_decode_spec inp bits : (0 < bits ≤ 16)%nat → bytes_ok inp → (96 * bits ≤ length inp)%nat →
  ∃ v, length v = RANK ∧ Forall (fits bits) v ∧ vector_encode v bits = take (96 * bits) inp ∧
    vector_decode inp bits = Some (if forallb residues v then Some v else None).
Proof.
  intros Hb Hi Hl.
  assert (Hd : ∀ i, (i < 3)%nat → ∃ s, fits bits s ∧ scalar_encode s bits = take (32 * bits) (drop (i * (32 * bits)) inp) ∧
    scalar_decode (drop (i * bits * DEGREE / 8) inp) bits = Some (if residues s then Some s else None)).
  { intros i Hi3. replace (i * bits * DEGREE / 8)%nat with (i * (32 * bits))%nat
      by (replace (i * bits * DEGREE)%nat with (i * (32 * bits) * 8)%nat by (unfold DEGREE; lia); by rewrite Nat.div_mul).
    destruct (scalar_decode_spec (drop (i * (32 * bits)) inp) bits Hb) as (s & H1 & H2 & H3 & H4).
    - by apply Forall_drop.
    - rewrite length_drop. nia.
    - exists s. by split_and!. }
  destruct (Hd 0%nat ltac:(lia)) as (s0 & F0 & E0 & D0), (Hd 1%nat ltac:(lia)) as (s1 & F1 & E1 & D1), (Hd 2%nat ltac:(lia)) as (s2 & F2 & E2 & D2).
  exists [s0; s1; s2]. split; [done|]. split; [by apply Forall_cons_2; [|apply Forall_cons_2; [|apply Forall_cons_2; [|constructor]]]|]. split.
  - rewrite vector_encode_3, E0, E1, E2, Nat.mul_0_l, drop_0.
    replace (96 * bits)%nat with (32 * bits + (32 * bits + 32 * bits))%nat by lia.
    rewrite <- (take_take_drop inp (32 * bits) (32 * bits + 32 * bits)). f_equal.
    rewrite <- (take_take_drop _ (32 * bits) (32 * bits)), drop_drop. rewrite Nat.mul_1_l. by replace (2 * (32 * bits))%nat with (32 * bits + 32 * bits)%nat by lia.
  - unfold vector_decode, RANK. cbn [seq vector_decode_loop]. rewrite D0. cbn [mbind option_bind forallb].
    destruct (residues s0); [|done]. rewrite D1. cbn [mbind option_bind andb]. destruct (residues s1); [|done]. rewrite D2. cbn [mbind option_bind andb].
    by destruct (residues s2).
Qed.

Lemma scalar_encode_inj bits a b : (0 < bits ≤ 16)%nat → fits bits a → fits bits b → scalar_encode a bits = scalar_encode b bits → a = b.
Proof.
  intros Hb Ha Hb' E. destruct (scalar_encode_spec a bits (proj1 Ha) (fits_nonneg _ _ Ha)) as (_ & _ & Sa).
  destruct (scalar_encode_spec b bits (proj1 Hb') (fits_nonneg _ _ Hb')) as (_ & _ & Sb).
  apply (stream_inj bits); [lia|apply Ha|apply Hb'|]. by rewrite <- Sa, <- Sb, E.
Qed.

Lemma vector_encode_spec v bits : length v = RANK → Forall (fits bits) v →
  bytes_ok (vector_encode v bits) ∧ length (vector_encode v bits) = (96 * bits)%nat.
Proof.
  intros Hl Hv. destruct v as [|a [|b [|c [|? ?]]]]; try discriminate Hl. rewrite vector_encode_3.
  apply Forall_cons in Hv as [Ha Hv]. apply Forall_cons in Hv as [Hb Hv]. apply Forall_cons in Hv as [Hc _].
  destruct (scalar_encode_spec a bits (proj1 Ha) (fits_nonneg _ _ Ha)) as (Ba & La & _).
  destruct (scalar_encode_spec b bits (proj1 Hb) (fits_nonneg _ _ Hb)) as (Bb & Lb & _).
  destruct (scalar_encode_spec c bits (proj1 Hc) (fits_nonneg _ _ Hc)) as (Bc & Lc & _).
  split; [by repeat apply Forall_app_2|]. rewrite !length_app. lia.
Qed.

Lemma vector_encode_inj bits a b : (0 < bits ≤ 16)%nat → length a = RANK → length b = RANK → Forall (fits bits) a → Forall (fits bits) b →
  vector_encode a bits = vector_encode b bits → a = b.
Proof.
  intros Hw La Lb Ha Hb. destruct a as [|a0 [|a1 [|a2 [|? ?]]]]; try discriminate La. destruct b as [|b0 [|b1 [|b2 [|? ?]]]]; try discriminate Lb.
  apply Forall_cons in Ha as [Ha0 Ha]. apply Forall_cons in Ha as [Ha1 Ha]. apply Forall_cons in Ha as [Ha2 _].
  apply Forall_cons in Hb as [Hb0 Hb]. apply Forall_cons in Hb as [Hb1 Hb]. apply Forall_cons in Hb as [Hb2 _].
  assert (Hlen : ∀ s, fits bits s → length (scalar_encode s bits) = (32 * bits)%nat)
    by (intros s Hs; apply (scalar_encode_spec s bits (proj1 Hs) (fits_nonneg _ _ Hs))).
  rewrite !vector_encode_3. intros E. apply app_inj_1 in E as [E0 E]; [|by rewrite !Hlen]. apply app_inj_1 in E as [E1 E2]; [|by rewrite !Hlen].
  apply (scalar_encode_inj bits) in E0, E1, E2; try done. by subst.
Qed.

Lemma vector_decode_encode v bits rest : (0 < bits ≤ 16)%nat → length v = RANK → Forall (fits bits) v → bytes_ok rest →
  vector_decode (vector_encode v bits ++ rest) bits = Some (if forallb residues v then Some v else None).
Proof.
  intros Hb Hl Hv Hr. destruct (vector_encode_spec v bits Hl Hv) as [Bv Lv].
  destruct (vector_decode_spec (vector_encode v bits ++ rest) bits Hb) as (w & Lw & Hw & Ew & ->); [by apply Forall_app_2|rewrite length_app; lia|].
  rewrite take_app_length' in Ew by done. by apply vector_encode_inj in Ew as ->.
Qed.

(** ** Messages: one bit per coefficient *)
Lemma decode_1_spec msg : length msg = 32%nat → bytes_ok msg → scalar_decode_1 msg = Z.b2z <$> stream 8 msg.
Proof.
  intros Hl Hm. unfold scalar_decode_1. rewrite take_ge by (rewrite Hl; cbn; lia). clear Hl. unfold stream.
  induction Hm as [|b msg Hb _ IH]; [done|]. cbn [fmap list_fmap concat]. rewrite fmap_app. f_equal; [|exact IH].
  unfold bits_from. rewrite <- list_fmap_compose. apply list_fmap_ext. intros i k _. unfold compose.
  apply Z.bits_inj'. intros j Hj. rewrite Z.land_spec, Z.shiftr_spec by lia.
  destruct (decide (j = 0)) as [->|]; [|rewrite (testbit_range 1 1) by lia; rewrite andb_false_r; symmetry; apply (testbit_range 1); [|lia|lia]].
  - by rewrite andb_true_r, Z.b2z_bit0.
  - destruct (Z.testbit b (Z.of_nat k)); cbn; lia.
Qed.

Lemma pack_byte (f : nat → bool) :
  foldl (λ out_byte j, u8 (out_byte .| ((Z.b2z (f j) .& 1) ≪ Z.of_nat j))) 0 (seq 0 8) = word_of (f <$> seq 0 8).
Proof.
  cbn [seq foldl fmap list_fmap]. destruct (f 0%nat), (f 1%nat), (f 2%nat), (f 3%nat), (f 4%nat), (f 5%nat), (f 6%nat), (f 7%nat); by vm_compute.
Qed.

(** Coefficients that are bits pack to the bytes with these bits. *)
Lemma encode_1_spec msg : length msg = 32%nat → bytes_ok msg → scalar_encode_1 (Z.b2z <$> stream 8 msg) = msg.
Proof.
  intros Hl Hm. unfold scalar_encode_1. change (DEGREE / 8)%nat with 32%nat. rewrite <- Hl. clear Hl.
  induction Hm as [|b msg Hb _ IH]; [done|]. cbn [length seq fmap list_fmap]. f_equal.
  - transitivity (foldl (λ out_byte j, u8 (out_byte .| ((Z.b2z (Z.testbit b (Z.of_nat j)) .& 1) ≪ Z.of_nat j))) 0 (seq 0 8)).
    + unfold stream, coeff. cbn [fmap list_fmap concat seq foldl bits_from app Nat.mul Nat.add nth]. done.
    + rewrite pack_byte. fold (bits_from 8 b). apply word_bits. cbn. lia.
  - rewrite <- seq_shift, <- list_fmap_compose. etrans; [|exact IH]. apply list_fmap_ext. intros i k _. unfold compose.
    assert (Ec : ∀ j, coeff (Z.b2z <$> stream 8 (b :: msg)) (8 * S k + j) = coeff (Z.b2z <$> stream 8 msg) (8 * k + j)).
    { intros j. unfold coeff, stream. cbn [fmap list_fmap concat]. rewrite fmap_app, app_nth2 by (rewrite length_fmap, length_bits_from; lia).
      f_equal. rewrite length_fmap, length_bits_from. lia. }
    cbn [seq foldl]. by rewrite !Ec.
Qed.

(** ** Rounding *)
Definition round_div (a b : Z) : Z := (2 * a + b) / (2 * b).

Lemma compress_spec x bits : fe x → (bits = 1 ∨ bits = 4 ∨ bits = 10)%nat →
  compress x bits = round_div (2 ^ Z.of_nat bits * x) kPrime mod 2 ^ Z.of_nat bits.
Proof.
  intros Hx Hb. assert (Hp : 2 <= 2 ^ Z.of_nat bits <= 1024) by (destruct Hb as [->|[->| ->]]; by vm_compute).
  unfold compress. cbv zeta. rewrite Z.shiftl_mul_pow2 by lia. unfold kPrime in Hx, Hp.
  replace (2 ^ Z.of_nat bits - 1) with (Z.ones (Z.of_nat bits)) by (rewrite Z.ones_equiv; lia). rewrite Z.land_ones by lia. f_equal.
  set (p := x * 2 ^ Z.of_nat bits). replace (2 ^ Z.of_nat bits * x) with p by (unfold p; ring).
  assert (Hr : 0 <= p <= 3328 * 1024) by (unfold p; nia). clearbody p. clear Hx Hp Hb x bits.
  rewrite (wrap_small 32 p) by lia. unfold kBarrettMultiplier, kBarrettShift, kPrime, kHalfPrime, round_div. change ((3329 - 1) / 2) with 1664.
  rewrite (wrap_small 64) by lia. rewrite Z.shiftr_div_pow2 by lia.
  pose proof (Z.div_mod (p * 5039) (2 ^ 24) ltac:(lia)) as Hd. pose proof (Z.mod_pos_bound (p * 5039) (2 ^ 24) ltac:(lia)).
  set (q := p * 5039 / 2 ^ 24) in *. rewrite !(wrap_small 32 q), (wrap_small 32 (q * 3329)), (wrap_small 32 (p - _)) by lia.
  rewrite !lt_w_spec by lia. change (3329 + 1664) with 4993.
  destruct (Z.ltb_spec 1664 (p - q * 3329)), (Z.ltb_spec 4993 (p - q * 3329)); cbn [ConstTime.mask_of]; try lia.
  - change (1 .& CONSTTIME_TRUE_W) with 1. change (1 .& CONSTTIME_FALSE_W) with 0. rewrite (wrap_small 32 (q + 1)), (wrap_small 32 (q + 1 + 0)) by lia.
    apply (Z.div_unique _ _ _ (2 * p + 3329 - 6658 * (q + 1))); lia.
  - change (1 .& CONSTTIME_FALSE_W) with 0. rewrite (wrap_small 32 (q + 0)), (wrap_small 32 (q + 0 + 0)) by lia. apply (Z.div_unique _ _ _ (2 * p + 3329 - 6658 * q)); lia.
Qed.

Lemma decompress_spec x bits : (bits = 1 ∨ bits = 4 ∨ bits = 10)%nat → 0 <= x < 2 ^ Z.of_nat bits →
  decompress x bits = round_div (kPrime * x) (2 ^ Z.of_nat bits) ∧ fe (decompress x bits).
Proof.
  intros Hb Hx. assert (H : decompress x bits = round_div (kPrime * x) (2 ^ Z.of_nat bits) ∧ 0 <= round_div (kPrime * x) (2 ^ Z.of_nat bits) < 3329);
    [|destruct H as [H1 H2]; rewrite H1; split; [done|exact H2]].
  unfold decompress, round_div, kPrime. cbv zeta.
  destruct Hb as [->|[->| ->]]; cbn [Nat.sub] in *;
    [change (Z.of_nat 1) with 1 in *|change (Z.of_nat 4) with 4 in *|change (Z.of_nat 10) with 10 in *];
    rewrite (wrap_small 32 (x * 3329)) by lia;
    [change (1 ≪ 1 - 1) with (Z.ones 1)|change (1 ≪ 4 - 1) with (Z.ones 4)|change (1 ≪ 10 - 1) with (Z.ones 10)];
    rewrite Z.land_ones, !Z.shiftr_div_pow2 by lia; rewrite (wrap_small 32 (_ + _)), (wrap_small 16 (_ + _)) by (Z.to_euclidean_division_equations; lia);
    Z.to_euclidean_division_equations; lia.
Qed.

(** The largest error of a width: 3329 / 2^(bits + 1), rounded. *)
Definition kept (bits : nat) : Prop := (bits = 1 ∨ bits = 4 ∨ bits = 10)%nat.
Definition max_error (bits : nat) : Z := round_div kPrime (2 ^ (Z.of_nat bits + 1)).

Lemma round_div_near a b : 0 < b → Z.abs (2 * b * round_div a b - 2 * a) <= b.
Proof.
  intros Hb. unfold round_div. pose proof (Z.div_mod (2 * a + b) (2 * b) ltac:(lia)).
  pose proof (Z.mod_pos_bound (2 * a + b) (2 * b) ltac:(lia)). lia.
Qed.
Lemma round_div_unique a b y : 0 < b → - b < 2 * b * y - 2 * a <= b → round_div a b = y.
Proof.
  intros Hb H. unfold round_div. symmetry. apply (Z.div_unique_pos _ _ _ (2 * a + b - 2 * b * y)); lia.
Qed.

Lemma kept_cases (P : Z → Z → Prop) : P 2 832 → P 16 104 → P 1024 2 →
  ∀ bits, kept bits → P (2 ^ Z.of_nat bits) (max_error bits).
Proof. intros H1 H2 H3 bits [->|[->| ->]]; done. Qed.

Lemma decompress_near bits y z : kept bits → Z.abs (2 * (2 ^ Z.of_nat bits * z) - 2 * kPrime * y) <= kPrime →
  Z.abs (round_div (kPrime * y) (2 ^ Z.of_nat bits) - z) <= max_error bits.
Proof.
  intros Hb. revert bits Hb. apply (kept_cases (λ d m, Z.abs (2 * (d * z) - 2 * kPrime * y) <= kPrime → Z.abs (round_div (kPrime * y) d - z) <= m)); unfold kPrime; intros H;
    [pose proof (round_div_near (3329 * y) 2 ltac:(lia))|pose proof (round_div_near (3329 * y) 16 ltac:(lia))|
     pose proof (round_div_near (3329 * y) 1024 ltac:(lia))]; lia.
Qed.

(** Dropping bits and restoring them is off by [max_error] at most, modulo
    3329. *)
Lemma compress_error x bits : fe x → kept bits →
  ∃ e, Z.abs e <= max_error bits ∧ decompress (compress x bits) bits ≃ x + e.
Proof.
  intros Hx Hb. rewrite compress_spec by done. set (d := 2 ^ Z.of_nat bits). set (y := round_div (d * x) kPrime).
  assert (Hd : 2 <= d) by (unfold d; destruct Hb as [->|[->| ->]]; done).
  pose proof (round_div_near (d * x) kPrime ltac:(done)) as Hn. fold y in Hn.
  pose proof (decompress_near bits y x Hb ltac:(fold d; unfold kPrime in *; lia)) as He. fold d in He.
  assert (Hy : 0 <= y <= d) by (unfold kPrime in *; nia).
  exists (round_div (kPrime * y) d - x). split; [done|].
  replace (x + (round_div (kPrime * y) d - x)) with (round_div (kPrime * y) d) by ring.
  pose proof (Z.mod_pos_bound y d ltac:(lia)). rewrite (proj1 (decompress_spec (y mod d) bits Hb ltac:(fold d; lia))). fold d.
  destruct (decide (y = d)) as [E|]; [|by rewrite Z.mod_small by lia].
  rewrite E, Z_mod_same_full, Z.mul_0_r.
  rewrite (round_div_unique 0 d 0), (round_div_unique (kPrime * d) d kPrime) by lia. by split.
Qed.

Lemma compress_decompress bits y : kept bits → 0 <= y < 2 ^ Z.of_nat bits → compress (decompress y bits) bits = y.
Proof.
  intros Hb Hy. destruct (decompress_spec y bits Hb Hy) as [-> Hf]. rewrite compress_spec by done.
  set (d := 2 ^ Z.of_nat bits) in *. assert (Hd : d = 2 ∨ d = 16 ∨ d = 1024) by (unfold d; destruct Hb as [->|[->| ->]]; tauto).
  rewrite (round_div_unique _ _ y); [by apply Z.mod_small|done|].
  pose proof (round_div_near (kPrime * y) d ltac:(lia)). unfold kPrime in *. destruct Hd as [E|[E|E]]; rewrite E in *; lia.
Qed.

(** C38: rounding.  For the three widths the code uses, [compress] (Barrett
    quotient and two masked corrections) is the nearest integer to
    2^bits x / 3329, modulo 2^bits; [decompress] is the nearest to
    3329 y / 2^bits and a residue; [compress] undoes [decompress]; and the
    error of dropping bits is at most 3329 / 2^(bits + 1) rounded, 832, 104 and
    2, modulo 3329. *)
Theorem compress_rounds (x y : Z) (bits : nat) (Hx : fe x) (Hbits : bits = 1%nat ∨ bits = 4%nat ∨ bits = 10%nat)
    (Hy : 0 <= y < 2 ^ Z.of_nat bits) :
  compress x bits = round_div (2 ^ Z.of_nat bits * x) kPrime mod 2 ^ Z.of_nat bits ∧
  decompress y bits = round_div (kPrime * y) (2 ^ Z.of_nat bits) ∧ fe (decompress y bits) ∧
  compress (decompress y bits) bits = y ∧
  ∃ e, Z.abs e <= max_error bits ∧ decompress (compress x bits) bits = (x + e) mod kPrime.
Proof.
  destruct (decompress_spec y bits Hbits Hy) as [Ed Hd].
  split; [by apply compress_spec|]. split; [done|]. split; [done|]. split; [by apply compress_decompress|].
  destruct (compress_error x bits Hx Hbits) as (e & He & [Hc]). exists e. split; [done|]. rewrite <- Hc. symmetry. apply Z.mod_small.
  apply decompress_spec; [done|]. rewrite compress_spec by done. apply Z.mod_pos_bound. lia.
Qed.

Lemma compress_rounds_witness :
  compress 1700 4 = round_div (2 ^ Z.of_nat 4 * 1700) kPrime mod 2 ^ Z.of_nat 4 ∧
  decompress 8 4 = round_div (kPrime * 8) (2 ^ Z.of_nat 4) ∧ fe (decompress 8 4) ∧
  compress (decompress 8 4) 4 = 8 ∧
  ∃ e, Z.abs e <= max_error 4 ∧ decompress (compress 1700 4) 4 = (1700 + e) mod kPrime.
Proof. apply (compress_rounds 1700 8 4); [done|tauto|done]. Defined.
