(* ===== verification/KyberSample.v ===== *)
(** Sampling of kyber.c: the hashes as sponges, the rejection sampler of the
    matrix and the centred binomial distribution of the secrets. *)
From S2P Require Import Prelude Bits Keccak Kyber KyberRing KyberCode.

#[local] Opaque keccak_f.

(** ** The hashes *)
Lemma sponge_bytes cfg m n : bytes_ok (sponge_of cfg m n).
Proof.
  unfold sponge_of, sponge. apply Forall_fmap, Forall_forall. intros i _. unfold compose, state_byte.
  change 0xff with (Z.ones 8). rewrite Z.land_ones by lia. apply Z.mod_pos_bound. lia.
Qed.
Lemma length_sponge cfg m n : length (sponge_of cfg m n) = n.
Proof. unfold sponge_of, sponge. by rewrite length_fmap, length_seq. Qed.

Lemma keccak_is_sponge cfg n m : bytes_ok m → required_out_len cfg = 0%nat ∨ n = required_out_len cfg →
  BORINGSSL_keccak n m cfg = Some (sponge_of cfg m n).
Proof.
  intros Hm Hn. unfold BORINGSSL_keccak, keccak_init.
  change (mkKeccak cfg boringssl_keccak_phase_absorb (replicate 25 0) (200 - capacity_bytes cfg) 0 0) with (absorbed cfg (rate_of cfg) []).
  rewrite absorb_step by (done || apply rate_of_ok). cbn [app mbind option_bind].
  pose proof (squeeze_ready cfg m 0 _ n (start_absorbed cfg m)) as H.
  destruct (BORINGSSL_keccak_squeeze _ n) as [ctx' out]. destruct H as (_ & Hout & _). cbn [Nat.add snd] in *. rewrite Hout.
  destruct (Nat.eqb_spec (required_out_len cfg) 0), (Nat.eqb_spec n (required_out_len cfg)); done || tauto.
Qed.

(** The sponges of the specification: XOF, H, G, PRF and KDF. *)
Definition H_ (m : list Z) : list Z := sponge_of boringssl_sha3_256 m 32.
Definition G_ (m : list Z) : list Z := sponge_of boringssl_sha3_512 m 64.
Definition SHAKE256 (m : list Z) (n : nat) : list Z := sponge_of boringssl_shake256 m n.
Definition SHAKE128 (m : list Z) (n : nat) : list Z := sponge_of boringssl_shake128 m n.
Lemma hash_h_spec m : bytes_ok m → hash_h m = Some (H_ m).
Proof. intros. apply keccak_is_sponge; [done|by right]. Qed.
Lemma hash_g_spec m : bytes_ok m → hash_g m = Some (G_ m).
Proof. intros. apply keccak_is_sponge; [done|by right]. Qed.
Lemma prf_spec n m : bytes_ok m → prf n m = Some (SHAKE256 m n).
Proof. intros. apply keccak_is_sponge; [done|by left]. Qed.
Lemma kdf_spec n m : bytes_ok m → kdf n m = Some (SHAKE256 m n).
Proof. intros. apply keccak_is_sponge; [done|by left]. Qed.

(** ** The rejection sampler

    Three bytes give two candidates of twelve bits. *)
Fixpoint candidates (l : list Z) : list Z :=
  match l with
  | b0 :: b1 :: b2 :: l => (b0 + 256 * (b1 mod 16)) :: (b1 / 16 + 16 * b2) :: candidates l
  | _ => []
  end.
Definition accepted (l : list Z) : list Z := List.filter (λ d, d <? kPrime) (candidates l).

(** What the loop does with an accepted candidate. *)
Definition push (out : scalar) (d : Z) : scalar := if (d <? kPrime) && (length out <? DEGREE)%nat then out ++ [d] else out.

Lemma push_full l out : (DEGREE ≤ length out)%nat → foldl push out l = out.
Proof.
  intros H. induction l as [|d l IH]; [done|]. cbn [foldl]. unfold push at 2.
  destruct (Nat.ltb_spec (length out) DEGREE); [lia|]. by rewrite andb_false_r.
Qed.
Lemma push_take l out : foldl push out l = out ++ take (DEGREE - length out) (List.filter (λ d, d <? kPrime) l).
Proof.
  revert out. induction l as [|d l IH]; intros out; cbn [foldl List.filter]; [by rewrite take_nil, app_nil_r|].
  rewrite IH. unfold push. destruct (d <? kPrime); [|done]. cbn [andb].
  destruct (Nat.ltb_spec (length out) DEGREE) as [Hl|Hl].
  - rewrite length_app. cbn [length]. replace (DEGREE - length out)%nat with (S (DEGREE - (length out + 1))) by lia.
    cbn [take]. by rewrite <- app_assoc.
  - by replace (DEGREE - length out)%nat with 0%nat by lia.
Qed.

Lemma list_ind3 {A} (P : list A → Prop) : (∀ l, (length l < 3)%nat → P l) → (∀ a b c l, P l → P (a :: b :: c :: l)) → ∀ l, P l.
Proof.
  intros H0 H3. fix IH 1. intros [|a [|b [|c l]]]; [apply H0; cbn; lia..|]. apply H3, IH.
Qed.

Lemma block_candidates_spec block out : block_candidates block out = foldl push out (candidates block).
Proof.
  revert out. induction block as [l Hl|b0 b1 b2 l IH] using list_ind3; intros out.
  - destruct l as [|? [|? [|? ?]]]; try done. cbn in Hl. lia.
  - cbn [block_candidates candidates foldl]. destruct (Nat.ltb_spec (length out) DEGREE) as [Hlt|Hge].
    + rewrite IH. f_equal. unfold push. destruct (Nat.ltb_spec (length out) DEGREE); [|lia].
      rewrite andb_true_r. done.
    + unfold push at 2 3. destruct (Nat.ltb_spec (length out) DEGREE); [lia|]. rewrite andb_false_r.
      destruct (Nat.ltb_spec (length out) DEGREE); [lia|]. rewrite andb_false_r. by rewrite push_full by lia.
Qed.

Lemma candidates_app a b : (length a mod 3 = 0)%nat → candidates (a ++ b) = candidates a ++ candidates b.
Proof.
  induction a as [l Hl|x y z l IH] using list_ind3; intros Hm.
  - destruct l as [|? [|? [|? ?]]]; try done. cbn in Hl. lia.
  - cbn [candidates app]. rewrite IH; [done|]. cbn [length] in Hm. replace (S (S (S (length l)))) with (length l + 1 * 3)%nat in Hm by lia.
    by rewrite Nat.Div0.mod_add in Hm.
Qed.

Lemma sponge_prefix cfg m a b : (a ≤ b)%nat → take a (sponge_of cfg m b) = sponge_of cfg m a.
Proof.
  intros H. unfold sponge_of, sponge. rewrite <- fmap_take. f_equal. replace b with (a + (b - a))%nat by lia. rewrite seq_app.
  apply take_app_length'. by rewrite length_seq.
Qed.

Lemma from_keccak_loop_spec cfg m fuel out ctx n : squeezing cfg m n (start_squeeze ctx) → (length out ≤ DEGREE)%nat →
  from_keccak_loop fuel out ctx =
    let out' := foldl push out (candidates (drop n (sponge_of cfg m (n + 168 * fuel)))) in
    if (length out' <? DEGREE)%nat then None else Some out'.
Proof.
  revert out ctx n. induction fuel as [|fuel IH]; intros out ctx n Hs Ho; cbv zeta; cbn [from_keccak_loop].
  - rewrite Nat.mul_0_r, Nat.add_0_r, drop_ge by (by rewrite length_sponge). cbn [candidates foldl]. done.
  - destruct (Nat.ltb_spec (length out) DEGREE) as [Hlt|Hge].
    2: { rewrite push_full by done. destruct (Nat.ltb_spec (length out) DEGREE); [lia|done]. }
    pose proof (squeeze_ready cfg m n ctx 168 Hs) as H. destruct (BORINGSSL_keccak_squeeze ctx 168) as [ctx' block].
    destruct H as (Hs' & Hsp & Hlb).
    assert (Hn : drop n (sponge_of cfg m (n + 168 * S fuel)) = block ++ drop (n + 168) (sponge_of cfg m (n + 168 + 168 * fuel))).
    { replace (n + 168 + 168 * fuel)%nat with (n + 168 * S fuel)%nat by lia.
      rewrite <- (take_drop (n + 168) (sponge_of cfg m (n + 168 * S fuel))) at 1. rewrite sponge_prefix, Hsp by lia.
      rewrite <- app_assoc. rewrite drop_app_length' by (by rewrite length_sponge). done. }
    rewrite (IH (block_candidates block out) ctx' (n + 168)%nat).
    + cbv zeta. rewrite Hn, candidates_app, foldl_app, block_candidates_spec by (by rewrite Hlb). done.
    + by erewrite start_squeezing.
    + rewrite block_candidates_spec, push_take, length_app, length_take. lia.
Qed.

(** What [expand_cell] returns on [fuel] blocks. *)
Definition cell_stream (fuel : nat) (rho : list Z) (i j : nat) : list Z :=
  accepted (SHAKE128 (take 32 rho ++ [Z.of_nat i; Z.of_nat j]) (168 * fuel)).

Lemma expand_cell_eq fuel rho i j : bytes_ok rho → (i < RANK)%nat → (j < RANK)%nat →
  expand_cell fuel rho i j =
    (if (length (cell_stream fuel rho i j) <? DEGREE)%nat then None else Some (take DEGREE (cell_stream fuel rho i j))).
Proof.
  intros Hrho Hi Hj. unfold cell_stream. unfold expand_cell, BORINGSSL_keccak_init, keccak_init.
  change (mkKeccak boringssl_shake128 boringssl_keccak_phase_absorb (replicate 25 0) (200 - capacity_bytes boringssl_shake128) 0 0)
    with (absorbed boringssl_shake128 (rate_of boringssl_shake128) []). cbn [required_out_len Nat.eqb negb mbind option_bind].
  assert (Hb : bytes_ok (take 32 rho ++ [Z.of_nat i; Z.of_nat j])).
  { unfold RANK in *. apply Forall_app_2; [by apply Forall_take|]. apply Forall_cons_2; [lia|]. apply Forall_cons_2; [lia|constructor]. }
  rewrite absorb_step by (done || apply rate_of_ok). cbn [mbind option_bind app].
  set (m := take 32 rho ++ [Z.of_nat i; Z.of_nat j]). unfold scalar_from_keccak_vartime.
  rewrite (from_keccak_loop_spec boringssl_shake128 m fuel [] _ 0) by (apply start_absorbed || (cbn; lia)).
  cbv zeta. rewrite push_take. cbn [length app Nat.add]. rewrite Nat.sub_0_r, drop_0. unfold accepted, SHAKE128.
  set (l := List.filter _ _). rewrite length_take.
  destruct (Nat.ltb_spec (length l) DEGREE), (Nat.ltb_spec (DEGREE `min` length l) DEGREE); done || lia.
Qed.

Lemma candidates_range l : bytes_ok l → Forall (λ d, 0 <= d) (candidates l).
Proof.
  induction l as [l Hl|x y z l IH] using list_ind3; intros Hb.
  - destruct l as [|? [|? [|? ?]]]; [constructor..|cbn in Hl; lia].
  - apply Forall_cons in Hb as [Hx Hb]. apply Forall_cons in Hb as [Hy Hb]. apply Forall_cons in Hb as [Hz Hb].
    cbn [candidates]. pose proof (Z.mod_pos_bound y 16 ltac:(lia)). pose proof (Z.div_pos y 16 ltac:(lia) ltac:(lia)).
    apply Forall_cons_2; [lia|]. apply Forall_cons_2; [lia|]. by apply IH.
Qed.
Lemma accepted_fe l : bytes_ok l → Forall (λ d, fe d) (accepted l).
Proof.
  intros Hb%candidates_range. rewrite List.Forall_forall in *. unfold accepted. intros d [Hd Hlt]%filter_In.
  specialize (Hb d Hd). unfold kPrime in *. lia.
Qed.
Lemma cell_stream_more fuel more rho i j : cell_stream fuel rho i j `prefix_of` cell_stream (fuel + more) rho i j.
Proof.
  unfold cell_stream, SHAKE128. set (m := take 32 rho ++ _).
  rewrite <- (take_drop (168 * fuel) (sponge_of _ m (168 * (fuel + more)))), sponge_prefix by lia. unfold accepted.
  rewrite candidates_app, List.filter_app by (rewrite length_sponge, Nat.mul_comm; by replace (fuel * 168)%nat with (fuel * 56 * 3)%nat by lia; apply Nat.Div0.mod_mul).
  by apply prefix_app_r.
Qed.

Lemma expand_cell_ok fuel rho i j s : bytes_ok rho → (i < RANK)%nat → (j < RANK)%nat → expand_cell fuel rho i j = Some s → scalar_ok s.
Proof.
  intros Hr Hi Hj. rewrite expand_cell_eq by done. destruct (Nat.ltb_spec (length (cell_stream fuel rho i j)) DEGREE); [done|]. intros [= <-].
  split; [rewrite length_take; lia|]. apply Forall_take, accepted_fe, sponge_bytes.
Qed.

(** C39: rejection sampling.  [expand_cell] on [fuel] blocks of SHAKE128 is the
    first 256 values below 3329 among the 12-bit little-endian groups of the
    stream, exactly when there are that many; they are residues, and more
    blocks never change the result. *)
Theorem expand_cell_samples (fuel more : nat) (rho : list Z) (i j : nat) (Hrho : bytes_ok rho) (Hi : (i < RANK)%nat) (Hj : (j < RANK)%nat) :
  let c := accepted (SHAKE128 (take 32 rho ++ [Z.of_nat i; Z.of_nat j]) (168 * fuel)) in
  expand_cell fuel rho i j = (if (length c <? DEGREE)%nat then None else Some (take DEGREE c)) ∧
  ∀ s, expand_cell fuel rho i j = Some s → scalar_ok s ∧ expand_cell (fuel + more) rho i j = Some s.
Proof.
  cbv zeta. fold (cell_stream fuel rho i j). split; [by apply expand_cell_eq|].
  intros s Hs. split; [by apply (expand_cell_ok fuel rho i j)|].
  rewrite expand_cell_eq in * by done. destruct (cell_stream_more fuel more rho i j) as [k Hk]. rewrite Hk.
  destruct (Nat.ltb_spec (length (cell_stream fuel rho i j)) DEGREE); [done|]. rewrite length_app.
  destruct (Nat.ltb_spec (length (cell_stream fuel rho i j) + length k) DEGREE); [lia|].
  by rewrite take_app_le by lia.
Qed.

Lemma expand_cell_samples_witness :
  let c := accepted (SHAKE128 (take 32 [1; 2; 3] ++ [Z.of_nat 0; Z.of_nat 1]) (168 * 3)) in
  expand_cell 3 [1; 2; 3] 0 1 = (if (length c <? DEGREE)%nat then None else Some (take DEGREE c)) ∧
  ∀ s, expand_cell 3 [1; 2; 3] 0 1 = Some s → scalar_ok s ∧ expand_cell (3 + 2) [1; 2; 3] 0 1 = Some s.
Proof. apply (expand_cell_samples 3 2 [1; 2; 3] 0 1); [by apply (bool_decide_unpack _)|unfold RANK; lia..]. Defined.

(** ** The centred binomial distribution

    Four bits give a coefficient. *)
Fixpoint cbd (l : list bool) : list Z :=
  match l with
  | a0 :: a1 :: b0 :: b1 :: l => (Z.b2z a0 + Z.b2z a1 - (Z.b2z b0 + Z.b2z b1)) mod kPrime :: cbd l
  | _ => []
  end.
(** Between -2 and 2. *)
Definition small (x : Z) : Prop := 0 <= x <= 2 ∨ kPrime - 2 <= x < kPrime.
Definition small_scalar (s : scalar) : Prop := length s = DEGREE ∧ Forall small s.

Lemma small_fe x : small x → fe x.
Proof. unfold small, kPrime. lia. Qed.
Lemma small_scalar_ok s : small_scalar s → scalar_ok s.
Proof. intros [Hl Hs]. split; [done|]. eapply Forall_impl; [exact Hs|apply small_fe]. Qed.

Lemma land_1 b k : 0 <= k → b ≫ k .& 1 = Z.b2z (Z.testbit b k).
Proof.
  intros Hk. change 1 with (Z.ones 1). rewrite Z.land_ones by lia. rewrite <- Z.bit0_mod, Z.shiftr_spec by lia. done.
Qed.

Lemma cbd_value_spec b : cbd_value b =
  (Z.b2z (Z.testbit b 0) + Z.b2z (Z.testbit b 1) - (Z.b2z (Z.testbit b 2) + Z.b2z (Z.testbit b 3))) mod kPrime.
Proof.
  unfold cbd_value. cbv zeta. rewrite <- (Z.shiftr_0_r b) at 1. rewrite !land_1 by lia.
  destruct (Z.testbit b 0), (Z.testbit b 1), (Z.testbit b 2), (Z.testbit b 3); by vm_compute.
Qed.

Lemma cbd_bytes l : concat ((λ byte, [cbd_value byte; cbd_value (byte ≫ 4)]) <$> l) = cbd (stream 8 l).
Proof.
  induction l as [|b l IH]; [done|]. unfold stream in *. cbn [fmap list_fmap concat bits_from seq app cbd]. fold (cbd (stream 8 l)).
  cbn in IH. rewrite !cbd_value_spec, !Z.shiftr_spec by lia. cbn [Z.of_nat Z.add Pos.of_succ_nat Pos.succ Pos.add].
  apply (f_equal2 cons); [reflexivity|]. apply (f_equal2 cons); [reflexivity|exact IH].
Qed.

Lemma length_cbd n l : length l = (4 * n)%nat → length (cbd l) = n ∧ Forall small (cbd l).
Proof.
  revert l. induction n as [|n IH]; intros l Hl; [by destruct l|].
  destruct l as [|a0 [|a1 [|b0 [|b1 l]]]]; cbn [length] in Hl; try lia. cbn [cbd]. destruct (IH l ltac:(lia)) as [H1 H2].
  split; [cbn; by rewrite H1|]. apply Forall_cons_2; [|exact H2]. destruct a0, a1, b0, b1; vm_compute; intuition congruence.
Qed.

(** The [n]-th polynomial drawn from a seed. *)
Definition sampled (seed : list Z) (n : Z) : scalar := cbd (stream 8 (SHAKE256 (take 32 seed ++ [n]) 128)).
Lemma sampled_small seed n : small_scalar (sampled seed n).
Proof. apply length_cbd. unfold SHAKE256. by rewrite length_stream, length_sponge. Qed.
Lemma sampled_ok seed n : scalar_ok (sampled seed n).
Proof. apply small_scalar_ok, sampled_small. Qed.

Lemma cbd_prf_spec seed n : bytes_ok seed → is_byte n →
  scalar_centered_binomial_distribution_eta_2_with_prf (take 32 seed ++ [n]) = Some (sampled seed n).
Proof.
  intros Hs Hn. unfold scalar_centered_binomial_distribution_eta_2_with_prf.
  rewrite prf_spec by (apply Forall_app_2; [by apply Forall_take|by apply Forall_cons_2]). cbn [mbind option_bind]. by rewrite cbd_bytes.
Qed.

Definition sampled_vector (seed : list Z) (n : Z) : vector := [sampled seed n; sampled seed (n + 1); sampled seed (n + 2)].
Lemma generate_secret_spec seed n : bytes_ok seed → 0 <= n < 253 →
  vector_generate_secret_eta_2 n seed = Some (sampled_vector seed n, n + 3).
Proof.
  intros Hs Hn. unfold vector_generate_secret_eta_2, RANK. cbn [seq foldl mbind option_bind].
  rewrite cbd_prf_spec by (done || lia). cbn [mbind option_bind].
  rewrite (wrap_small 8 (n + 1)) by lia. rewrite cbd_prf_spec by (done || lia). cbn [mbind option_bind].
  rewrite (wrap_small 8 (n + 1 + 1)) by lia. replace (n + 1 + 1) with (n + 2) by ring. rewrite cbd_prf_spec by (done || lia).
  cbn [mbind option_bind app]. rewrite (wrap_small 8 (n + 2 + 1)) by lia. by replace (n + 2 + 1) with (n + 3) by ring.
Qed.
