(* ===== verification/KyberCpa.v ===== *)
(** The public-key encryption inside kyber.c, [encrypt_cpa] and [decrypt_cpa],
    as the equations of the Kyber specification in the schoolbook ring. *)
From S2P Require Import Prelude Bits Keccak Kyber KyberRing KyberNtt KyberPoly KyberCode KyberSample.

#[local] Opaque scalar_ntt scalar_inverse_ntt scalar_mult poly_mul keccak_f scalar_encode scalar_decode vector_encode vector_decode sponge_of.

(** ** Sums of products *)
Definition sum_products (f g : nat → scalar) : scalar := foldl (λ acc j, poly_add acc (poly_mul (f j) (g j))) poly_zero (seq 0 RANK).

Lemma sum_from_ok (l : list nat) (f g : nat → scalar) a : scalar_ok a → (∀ j, In j l → length (g j) = DEGREE) →
  scalar_ok (foldl (λ acc j, poly_add acc (poly_mul (f j) (g j))) a l).
Proof.
  revert a. induction l as [|j l IH]; intros a Ha Hg; [done|]. cbn [foldl]. apply IH; [|intros k Hk; apply Hg; by right].
  apply poly_add_ok; [apply Ha|]. apply poly_mul_ok, Hg. by left.
Qed.
Lemma sum_products_ok f g : (∀ j, (j < RANK)%nat → length (g j) = DEGREE) → scalar_ok (sum_products f g).
Proof. intros Hg. apply sum_from_ok; [apply poly_zero_ok|]. intros j Hj%in_seq. apply Hg. lia. Qed.

(** Addition and product of transforms. *)
Lemma inverse_ntt_add a b : scalar_ok a → scalar_ok b →
  scalar_ok (scalar_add a b) ∧ scalar_inverse_ntt (scalar_add a b) = poly_add (scalar_inverse_ntt a) (scalar_inverse_ntt b).
Proof.
  intros Ha Hb. rewrite scalar_add_spec by done. pose proof (poly_add_ok a b (proj1 Ha) (proj1 Hb)) as Hs. split; [done|].
  pose proof (scalar_inverse_ntt_ok a Ha) as [La _]. pose proof (scalar_inverse_ntt_ok b Hb) as [Lb _].
  apply values_eq; [by apply scalar_inverse_ntt_ok|by apply poly_add_ok|]. intros i Hi.
  rewrite inverse_value by done. rewrite (ev_add _ (scalar_inverse_ntt a)) by (by rewrite La, Lb). rewrite !inverse_value by done.
  unfold pair_at, poly_add. rewrite !(coeff_zip _ DEGREE) by (apply Ha || apply Hb || (unfold DEGREE; lia)).
  split; cbn [fst snd paddp]; apply cong_mod.
Qed.
Lemma inverse_ntt_mult a b : scalar_ok a → scalar_ok b →
  scalar_ok (scalar_mult a b) ∧ scalar_inverse_ntt (scalar_mult a b) = poly_mul (scalar_inverse_ntt a) (scalar_inverse_ntt b).
Proof.
  intros Ha Hb. split; [by apply scalar_mult_spec|].
  rewrite <- (mult_is_poly_mul (scalar_inverse_ntt a)) by (by apply scalar_inverse_ntt_ok). by rewrite !ntt_inverse_ntt.
Qed.
Lemma inverse_ntt_zero : scalar_ok scalar_zero ∧ scalar_inverse_ntt scalar_zero = poly_zero.
Proof.
  assert (H0 : scalar_ok scalar_zero) by exact poly_zero_ok. split; [done|].
  apply values_eq; [by apply scalar_inverse_ntt_ok|done|]. intros i Hi. rewrite inverse_value by done.
  unfold poly_zero. rewrite ev_zero. unfold pair_at, coeff, scalar_zero.
  assert (Hn : ∀ k n, nth k (replicate n 0) 0 = 0) by (intros k n; revert k; induction n; intros [|k]; cbn; auto). by rewrite !Hn.
Qed.

Lemma inverse_ntt_sum_from (l : list nat) (f g : nat → scalar) a : scalar_ok a → (∀ j, In j l → scalar_ok (f j) ∧ scalar_ok (g j)) →
  let s := foldl (λ out j, scalar_add out (scalar_mult (f j) (g j))) a l in
  scalar_ok s ∧ scalar_inverse_ntt s =
    foldl (λ acc j, poly_add acc (poly_mul (scalar_inverse_ntt (f j)) (scalar_inverse_ntt (g j)))) (scalar_inverse_ntt a) l.
Proof.
  revert a. induction l as [|j l IH]; intros a Ha H; [done|]. cbn [foldl]. destruct (H j (or_introl eq_refl)) as [Hf Hg].
  destruct (inverse_ntt_mult _ _ Hf Hg) as [Hm Em]. destruct (inverse_ntt_add _ _ Ha Hm) as [Hs Es].
  destruct (IH _ Hs) as [Ho E]; [intros k Hk; apply H; by right|]. split; [done|]. by rewrite E, Es, Em.
Qed.
Lemma inverse_ntt_sum (f g : nat → scalar) : (∀ j, (j < RANK)%nat → scalar_ok (f j) ∧ scalar_ok (g j)) →
  let s := foldl (λ out j, scalar_add out (scalar_mult (f j) (g j))) scalar_zero (seq 0 RANK) in
  scalar_ok s ∧ scalar_inverse_ntt s = sum_products (λ j, scalar_inverse_ntt (f j)) (λ j, scalar_inverse_ntt (g j)).
Proof.
  intros H. destruct inverse_ntt_zero as [H0 E0].
  destruct (inverse_ntt_sum_from (seq 0 RANK) f g scalar_zero H0) as [Hs Es]; [intros j Hj%in_seq; apply H; lia|].
  split; [exact Hs|]. rewrite Es, E0. reflexivity.
Qed.

Lemma sum_products_ext f g f' g' : (∀ j, (j < RANK)%nat → f j = f' j ∧ g j = g' j) → sum_products f g = sum_products f' g'.
Proof.
  intros H. unfold sum_products, RANK. cbn [seq foldl].
  destruct (H 0%nat ltac:(unfold RANK; lia)) as [-> ->], (H 1%nat ltac:(unfold RANK; lia)) as [-> ->], (H 2%nat ltac:(unfold RANK; lia)) as [-> ->]. done.
Qed.

(** ** Vectors and matrices *)
Definition vector_ok (v : vector) : Prop := length v = RANK ∧ Forall scalar_ok v.
Definition matrix_ok (m : matrix) : Prop := length m = RANK ∧ Forall vector_ok m.

Lemma entry_ok v i : vector_ok v → (i < RANK)%nat → scalar_ok (entry v i).
Proof. intros [Hl Hv] Hi. rewrite List.Forall_forall in Hv. apply Hv, nth_In. lia. Qed.
Lemma cell_ok m i j : matrix_ok m → (i < RANK)%nat → (j < RANK)%nat → scalar_ok (cell m i j).
Proof. intros [Hl Hm] Hi Hj. rewrite List.Forall_forall in Hm. apply entry_ok; [|done]. apply Hm, nth_In. lia. Qed.

Lemma entry_seq (f : nat → scalar) i : (i < RANK)%nat → entry (f <$> seq 0 RANK) i = f i.
Proof. unfold RANK, entry. intros Hi. destruct i as [|[|[|i]]]; [done..|lia]. Qed.
Lemma entry_fmap (f : scalar → scalar) v i : length v = RANK → (i < RANK)%nat → entry (f <$> v) i = f (entry v i).
Proof.
  intros Hl Hi. unfold entry. rewrite !nth_lookup, list_lookup_fmap. destruct (lookup_lt_is_Some_2 v i ltac:(lia)) as [s ->]. done.
Qed.
Lemma vector_seq_ok (f : nat → scalar) : (∀ i, (i < RANK)%nat → scalar_ok (f i)) → vector_ok (f <$> seq 0 RANK).
Proof. intros H. split; [done|]. apply Forall_fmap, Forall_forall. intros i Hi%elem_of_seq. apply H. lia. Qed.
Lemma vector_fmap_ok (f : scalar → scalar) v : (∀ s, scalar_ok s → scalar_ok (f s)) → vector_ok v → vector_ok (f <$> v).
Proof. intros H [Hl Hv]. split; [by rewrite length_fmap|]. apply Forall_fmap. eapply Forall_impl; [exact Hv|exact H]. Qed.
Lemma vector_seq v : vector_ok v → v = entry v <$> seq 0 RANK.
Proof. intros [Hl _]. destruct v as [|a [|b [|c [|? ?]]]]; try discriminate Hl. done. Qed.
Lemma sampled_vector_ok seed n : vector_ok (sampled_vector seed n).
Proof. split; [done|]. repeat (apply Forall_cons_2; [apply sampled_ok|]). constructor. Qed.

(** ** The specification

    The matrix in the schoolbook ring, and the polynomial of a message. *)
Definition A_ (m : matrix) (i j : nat) : scalar := scalar_inverse_ntt (cell m i j).
Definition message_poly (msg : list Z) : scalar := (λ b : bool, if b then 1665 else 0) <$> stream 8 msg.
(** u = A r + e1 and v = t r + e2 + message *)
Definition enc_u (m : matrix) (r e1 : vector) (i : nat) : scalar := poly_add (sum_products (A_ m i) (entry r)) (entry e1 i).
Definition enc_v (t : vector) (r : vector) (e2 : scalar) (msg : list Z) : scalar :=
  poly_add (poly_add (sum_products (λ i, scalar_inverse_ntt (entry t i)) (entry r)) e2) (message_poly msg).

Lemma A_ok m i j : matrix_ok m → (i < RANK)%nat → (j < RANK)%nat → scalar_ok (A_ m i j).
Proof. intros. by apply scalar_inverse_ntt_ok, cell_ok. Qed.
Lemma enc_u_ok m r e1 i : matrix_ok m → vector_ok r → vector_ok e1 → (i < RANK)%nat → scalar_ok (enc_u m r e1 i).
Proof.
  intros Hm Hr He Hi. apply poly_add_ok; [|by apply entry_ok]. apply sum_products_ok. intros j Hj. by apply entry_ok.
Qed.
Lemma message_poly_ok msg : length msg = 32%nat → scalar_ok (message_poly msg).
Proof.
  intros Hl. split; [unfold message_poly; rewrite length_fmap, length_stream, Hl; done|].
  apply Forall_fmap, Forall_forall. intros [] _; unfold compose, kPrime; lia.
Qed.
Lemma enc_v_ok t r e2 msg : vector_ok r → scalar_ok e2 → length msg = 32%nat → scalar_ok (enc_v t r e2 msg).
Proof.
  intros Hr He Hl. apply poly_add_ok; [|by apply message_poly_ok]. apply poly_add_ok; [|apply He]. apply sum_products_ok.
  intros j Hj. by apply entry_ok.
Qed.

(** *** The equations of the code *)
Lemma vector_ntt_entry v i : vector_ok v → (i < RANK)%nat →
  scalar_ok (entry (vector_ntt v) i) ∧ scalar_inverse_ntt (entry (vector_ntt v) i) = entry v i.
Proof.
  intros Hv Hi. pose proof (entry_ok v i Hv Hi) as Ho. unfold vector_ntt. rewrite entry_fmap by (apply Hv || done).
  split; [by apply scalar_ntt_ok|by apply inverse_ntt_ntt].
Qed.

(** The product of a matrix and a transformed vector. *)
Lemma matrix_row (c : nat → scalar) v : (∀ j, (j < RANK)%nat → scalar_ok (c j)) → vector_ok v →
  let s := foldl (λ out j, scalar_add out (scalar_mult (c j) (entry (vector_ntt v) j))) scalar_zero (seq 0 RANK) in
  scalar_ok s ∧ scalar_inverse_ntt s = sum_products (λ j, scalar_inverse_ntt (c j)) (entry v).
Proof.
  intros Hc Hv. destruct (inverse_ntt_sum c (entry (vector_ntt v))) as [Hs Es].
  - intros j Hj. split; [by apply Hc|by apply vector_ntt_entry].
  - split; [done|]. rewrite Es. apply sum_products_ext. intros j Hj. split; [done|by apply vector_ntt_entry].
Qed.

Lemma code_u m r e1 : matrix_ok m → vector_ok r → vector_ok e1 →
  vector_add (vector_inverse_ntt (matrix_mult m (vector_ntt r))) e1 = enc_u m r e1 <$> seq 0 RANK.
Proof.
  intros Hm Hr He. unfold vector_add. apply list_fmap_ext. intros i k Hk%lookup_seq. assert (Hi : (k < RANK)%nat) by lia.
  unfold vector_inverse_ntt. rewrite entry_fmap by done. unfold matrix_mult. rewrite entry_seq by done.
  destruct (matrix_row (cell m k) r) as [Hs Es]; [intros; by apply cell_ok|done|].
  rewrite Es, scalar_add_spec; [done| |by apply entry_ok]. apply sum_products_ok. intros j Hj. by apply entry_ok.
Qed.

Lemma code_inner a v : (∀ i, (i < RANK)%nat → scalar_ok (entry a i)) → vector_ok v →
  scalar_inverse_ntt (scalar_inner_product a (vector_ntt v)) = sum_products (λ i, scalar_inverse_ntt (entry a i)) (entry v) ∧
  scalar_ok (sum_products (λ i, scalar_inverse_ntt (entry a i)) (entry v)).
Proof.
  intros Ha Hv. destruct (matrix_row (entry a) v Ha Hv) as [_ Es]. split; [exact Es|]. apply sum_products_ok. intros j Hj. by apply entry_ok.
Qed.

Lemma code_message msg : length msg = 32%nat → bytes_ok msg → scalar_decompress (scalar_decode_1 msg) 1 = message_poly msg.
Proof.
  intros Hl Hm. rewrite decode_1_spec by done. unfold scalar_decompress, message_poly. rewrite <- list_fmap_compose.
  apply list_fmap_ext. intros _ [] _; by vm_compute.
Qed.

(** What a ciphertext packs. *)
Definition pack (u : vector) (v : scalar) : list Z :=
  vector_encode (vector_compress u kDU) kDU ++ scalar_encode (scalar_compress v kDV) kDV.

(** The public half of a key, as the encryption needs it. *)
Definition public_ok (pub : public_key) : Prop := matrix_ok (key_m pub) ∧ ∀ i, (i < RANK)%nat → scalar_ok (entry (key_t pub) i).

Definition ciphertext_of (pub : public_key) (msg coins : list Z) : list Z :=
  pack (enc_u (key_m pub) (sampled_vector coins 0) (sampled_vector coins 3) <$> seq 0 RANK)
       (enc_v (key_t pub) (sampled_vector coins 0) (sampled coins 6) msg).

Lemma encrypt_cpa_spec pub msg coins : public_ok pub → length msg = 32%nat → bytes_ok msg → bytes_ok coins →
  encrypt_cpa pub msg coins = Some (ciphertext_of pub msg coins).
Proof.
  intros [Hm Ht] Hl Hmsg Hc. unfold encrypt_cpa. rewrite generate_secret_spec by (done || lia). cbn [mbind option_bind].
  rewrite generate_secret_spec by (done || lia). cbn [mbind option_bind]. rewrite cbd_prf_spec by (done || lia). cbn [mbind option_bind].
  pose proof (sampled_vector_ok coins 0) as Hr. pose proof (sampled_vector_ok coins 3) as He. pose proof (sampled_ok coins 6) as He2.
  change (0 + 3) with 3. change (3 + 3) with 6. rewrite (code_u _ _ _ Hm Hr He), (code_message msg Hl Hmsg). destruct (code_inner (key_t pub) (sampled_vector coins 0) Ht Hr) as [Ev Hv].
  rewrite Ev. unfold ciphertext_of, pack, enc_v.
  pose proof (message_poly_ok msg Hl) as Hp. set (x := sum_products _ (entry (sampled_vector coins 0))) in *.
  rewrite (scalar_add_spec x) by done. rewrite scalar_add_spec; [reflexivity|by apply poly_add_ok; [apply Hv|apply He2]|exact Hp].
Qed.

(** *** Decryption *)
Lemma compress_range x bits : 0 <= compress x bits < 2 ^ Z.of_nat bits.
Proof.
  unfold compress. cbv zeta. rewrite ones_pow, Z.land_ones by lia. apply Z.mod_pos_bound. lia.
Qed.
#[local] Opaque compress decompress.
Lemma compress_fits s bits : length s = DEGREE → fits bits (scalar_compress s bits).
Proof.
  intros Hl. split; [unfold scalar_compress; by rewrite length_fmap|]. apply Forall_fmap, Forall_forall. intros x _. exact (compress_range x bits).
Qed.
Lemma decompress_ok s bits : kept bits → fits bits s → scalar_ok (scalar_decompress s bits).
Proof.
  intros Hb [Hl Hs]. split; [unfold scalar_decompress; by rewrite length_fmap|]. apply Forall_fmap. eapply Forall_impl; [exact Hs|].
  intros x Hx. exact (proj2 (decompress_spec x bits Hb Hx)).
Qed.

(** The message of a ciphertext that packs [us] and [vs]. *)
Definition message_of (s : vector) (us : vector) (vs : scalar) : list Z :=
  scalar_encode_1 (scalar_compress (poly_sub (scalar_decompress vs kDV) (sum_products (entry s) (λ i, scalar_decompress (entry us i) kDU))) 1).

Lemma decrypt_packed priv s us vs : vector_ok s → key_s priv = vector_ntt s → length us = RANK → Forall (fits kDU) us → fits kDV vs →
  decrypt_cpa priv (vector_encode us kDU ++ scalar_encode vs kDV) = Some (message_of s us vs).
Proof.
  intros Hs Ek Lu Hu Hv. unfold decrypt_cpa. destruct (vector_encode_spec us kDU Lu Hu) as [Bu Eu].
  destruct (scalar_encode_spec vs kDV (proj1 Hv) (fits_nonneg _ _ Hv)) as (Bv & Ev & _).
  assert (Hdu : (0 < kDU ≤ 16)%nat) by (unfold kDU; lia). assert (Hdv : (0 < kDV ≤ 16)%nat) by (unfold kDV; lia).
  rewrite (vector_decode_encode us kDU _ Hdu Lu Hu Bv).
  assert (Hr : forallb residues us = true).
  { apply forallb_forall. rewrite List.Forall_forall in Hu. intros x Hx. apply (fits_residues kDU); [unfold kDU; lia|by apply Hu]. }
  rewrite Hr. cbn [mbind option_bind]. rewrite drop_app_length' by (rewrite Eu; done).
  destruct (scalar_decode_spec (scalar_encode vs kDV) kDV Hdv Bv) as (w & Lw & Fw & Ew & Dw); [by rewrite Ev|].
  rewrite take_ge in Ew by (rewrite Ev; done). apply (scalar_encode_inj kDV _ _ Hdv (conj Lw Fw) Hv) in Ew as ->.
  rewrite Dw. change (forallb (λ e, e <? kPrime) vs) with (residues vs). rewrite (fits_residues kDV vs ltac:(unfold kDV; lia) Hv). cbn [mbind option_bind].
  assert (Hok : vector_ok (vector_decompress us kDU)).
  { split; [unfold vector_decompress; by rewrite length_fmap|]. apply Forall_fmap. eapply Forall_impl; [exact Hu|].
    intros x Hx. apply decompress_ok; [unfold kept, kDU; tauto|done]. }
  rewrite Ek. destruct (code_inner (vector_ntt s) (vector_decompress us kDU)) as [Em Hm]; [intros; by apply vector_ntt_entry|done|].
  rewrite Em, scalar_sub_spec; [|apply decompress_ok; [unfold kept, kDV; tauto|done]|exact Hm].
  unfold message_of. apply (f_equal (λ p, Some (scalar_encode_1 (scalar_compress (poly_sub (scalar_decompress vs kDV) p) 1)))).
  apply sum_products_ext. intros i Hi. split; [by apply vector_ntt_entry|]. unfold vector_decompress. by rewrite entry_fmap.
Qed.

Lemma decrypt_cpa_total priv s c : vector_ok s → key_s priv = vector_ntt s → bytes_ok c → length c = KYBER_CIPHERTEXT_BYTES →
  ∃ us vs, length us = RANK ∧ Forall (fits kDU) us ∧ fits kDV vs ∧ c = vector_encode us kDU ++ scalar_encode vs kDV ∧
    decrypt_cpa priv c = Some (message_of s us vs).
Proof.
  intros Hs Ek Hc Lc. unfold KYBER_CIPHERTEXT_BYTES in Lc.
  destruct (vector_decode_spec c kDU) as (us & Lu & Fu & Eu & _); [unfold kDU; lia|done|unfold kDU; lia|].
  destruct (scalar_decode_spec (drop 960 c) kDV) as (vs & Lv & Fv & Ev & _); [unfold kDV; lia|by apply Forall_drop|rewrite length_drop; unfold kDV; lia|].
  exists us, vs. assert (E : c = vector_encode us kDU ++ scalar_encode vs kDV).
  { rewrite Eu, Ev. change (96 * kDU)%nat with 960%nat. rewrite (take_ge (drop 960 c)) by (rewrite length_drop; unfold kDV; lia). by rewrite take_drop. }
  split; [exact Lu|]. split; [exact Fu|]. split; [exact (conj Lv Fv)|]. split; [exact E|].
  rewrite E. exact (decrypt_packed priv s us vs Hs Ek Lu Fu (conj Lv Fv)).
Qed.
