(* ===== verification/KyberNoise.v ===== *)
(** Decryption in kyber.c against encryption: the message polynomial comes out
    with a noise that is small enough to round away. *)
From S2P Require Import Prelude Bits Keccak Kyber KyberRing KyberNtt KyberPoly KyberCode KyberSample KyberCpa.

#[local] Opaque scalar_ntt scalar_inverse_ntt scalar_mult poly_mul keccak_f scalar_encode scalar_decode vector_encode vector_decode
  sponge_of compress decompress.

(** ** Values of a sum of products *)
Definition psum (h : nat → Z * Z) : Z * Z := paddp (paddp (h 0%nat) (h 1%nat)) (h 2%nat).
#[export] Instance psum_proper : Proper (pointwise_relation nat pcong ==> pcong) psum.
Proof. intros h h' H. unfold psum. by rewrite !(H _). Qed.

Lemma ev_sum z f g : is_root z → (∀ j, (j < RANK)%nat → scalar_ok (g j)) →
  pcong (ev z (sum_products f g)) (psum (λ j, pmulp z (ev z (f j)) (ev z (g j)))).
Proof.
  intros Hz Hg. assert (Hl : ∀ j, (j < 3)%nat → length (poly_mul (f j) (g j)) = DEGREE) by (intros j Hj; apply poly_mul_ok, Hg; exact Hj).
  assert (Hm : ∀ j, (j < 3)%nat → pcong (ev z (poly_mul (f j) (g j))) (pmulp z (ev z (f j)) (ev z (g j))))
    by (intros j Hj; apply ev_mul; [done|apply Hg; exact Hj]).
  assert (H0 : length poly_zero = DEGREE) by done. unfold sum_products, RANK. cbn [seq foldl].
  pose proof (Hl 0%nat ltac:(lia)) as L0. pose proof (Hl 1%nat ltac:(lia)) as L1. pose proof (Hl 2%nat ltac:(lia)) as L2.
  pose proof (poly_add_ok _ _ H0 L0) as [A0 _]. pose proof (poly_add_ok _ _ A0 L1) as [A1 _].
  rewrite !ev_add by congruence. rewrite !Hm by lia. unfold poly_zero. rewrite ev_zero. unfold psum.
  generalize (pmulp z (ev z (f 0%nat)) (ev z (g 0%nat))), (pmulp z (ev z (f 1%nat)) (ev z (g 1%nat))), (pmulp z (ev z (f 2%nat)) (ev z (g 2%nat))).
  intros [] [] []. apply reflexive_eq. pring.
Qed.

(** ** The noise *)
Definition rounded (bits : nat) (s : scalar) : scalar := scalar_decompress (scalar_compress s bits) bits.

(** e r + e2 + (v' - v) - s (e1 + (u' - u)), where u' and v' are u and v after
    compression. *)
Definition noise (m : matrix) (t s e r e1 : vector) (e2 : scalar) (msg : list Z) : scalar :=
  let u := enc_u m r e1 in
  let v := enc_v t r e2 msg in
  poly_sub (poly_add (poly_add (sum_products (entry e) (entry r)) e2) (poly_sub (rounded kDV v) v))
           (sum_products (entry s) (λ i, poly_add (entry e1 i) (poly_sub (rounded kDU (u i)) (u i)))).

Lemma rounded_ok bits s : kept bits → length s = DEGREE → scalar_ok (rounded bits s).
Proof. intros Hb Hl. apply decompress_ok; [done|]. by apply compress_fits. Qed.

(** The algebra of it, at a root. *)
Lemma noise_identity z (A : nat → nat → Z * Z) (s e r e1 u' : nat → Z * Z) (e2 m v' : Z * Z) :
  let t i := paddp (psum (λ j, pmulp z (A j i) (s j))) (e i) in
  let u i := paddp (psum (λ j, pmulp z (A i j) (r j))) (e1 i) in
  let v := paddp (paddp (psum (λ i, pmulp z (t i) (r i))) e2) m in
  psubp v' (psum (λ i, pmulp z (s i) (u' i))) =
  paddp m (psubp (paddp (paddp (psum (λ i, pmulp z (e i) (r i))) e2) (psubp v' v))
                 (psum (λ i, pmulp z (s i) (paddp (e1 i) (psubp (u' i) (u i)))))).
Proof. cbv zeta. unfold psum, paddp, psubp, pmulp. cbn [fst snd]. f_equal; ring. Qed.

Lemma psum_ext h h' : (∀ j, (j < RANK)%nat → pcong (h j) (h' j)) → pcong (psum h) (psum h').
Proof. intros H. unfold psum. rewrite !H by (unfold RANK; lia). reflexivity. Qed.

Section noise.
Context (m : matrix) (t s e r e1 : vector) (e2 : scalar) (msg : list Z).
Context (Hm : matrix_ok m) (Hs : vector_ok s) (He : vector_ok e) (Hr : vector_ok r) (He1 : vector_ok e1) (He2 : scalar_ok e2)
  (Hmsg : length msg = 32%nat).
(** t = A^T s + e *)
Context (Ht : ∀ i, (i < RANK)%nat →
  scalar_inverse_ntt (entry t i) = poly_add (sum_products (λ j, A_ m j i) (entry s)) (entry e i)).

Let U := enc_u m r e1.
Let V := enc_v t r e2 msg.

Lemma sum_entry_ok f v : vector_ok v → scalar_ok (sum_products f (entry v)).
Proof. intros Hv. apply sum_products_ok. intros j Hj. by apply entry_ok. Qed.
Lemma u_ok i : (i < RANK)%nat → scalar_ok (U i).
Proof. intros Hi. by apply enc_u_ok. Qed.
Lemma v_ok : scalar_ok V.
Proof. by apply enc_v_ok. Qed.
Lemma rounded_u_ok i : (i < RANK)%nat → scalar_ok (rounded kDU (U i)).
Proof. intros Hi. apply rounded_ok; [unfold kept, kDU; tauto|apply u_ok, Hi]. Qed.
Lemma rounded_v_ok : scalar_ok (rounded kDV V).
Proof. apply rounded_ok; [unfold kept, kDV; tauto|apply v_ok]. Qed.

Lemma sub_ok a b : scalar_ok a → scalar_ok b → scalar_ok (poly_sub a b).
Proof. intros [Ha _] [Hb _]. by apply poly_sub_ok. Qed.
Lemma add_ok a b : scalar_ok a → scalar_ok b → scalar_ok (poly_add a b).
Proof. intros [Ha _] [Hb _]. by apply poly_add_ok. Qed.

Lemma ev_add_ok z a b : scalar_ok a → scalar_ok b → pcong (ev z (poly_add a b)) (paddp (ev z a) (ev z b)).
Proof. intros [Ha _] [Hb _]. apply ev_add. congruence. Qed.
Lemma ev_sub_ok z a b : scalar_ok a → scalar_ok b → pcong (ev z (poly_sub a b)) (psubp (ev z a) (ev z b)).
Proof. intros [Ha _] [Hb _]. apply ev_sub. congruence. Qed.
Lemma ev_sum_entry z f v : is_root z → vector_ok v → pcong (ev z (sum_products f (entry v))) (psum (λ j, pmulp z (ev z (f j)) (ev z (entry v j)))).
Proof. intros Hz Hv. apply ev_sum; [done|]. intros j Hj. by apply entry_ok. Qed.

(** The terms of the noise. *)
Let W i := poly_add (entry e1 i) (poly_sub (rounded kDU (U i)) (U i)).
Lemma w_ok i : (i < RANK)%nat → scalar_ok (W i).
Proof. intros Hi. apply add_ok; [by apply entry_ok|]. apply sub_ok; [by apply rounded_u_ok|by apply u_ok]. Qed.
Lemma noise_ok : scalar_ok (noise m t s e r e1 e2 msg).
Proof.
  apply sub_ok; [|apply sum_products_ok, w_ok]. apply add_ok; [|apply sub_ok; [apply rounded_v_ok|apply v_ok]].
  apply add_ok; [by apply sum_entry_ok|done].
Qed.

Section root.
Context (z : Z) (Hz : is_root z).
Let A i j := ev z (A_ m i j).
Let T i := paddp (psum (λ j, pmulp z (A j i) (ev z (entry s j)))) (ev z (entry e i)).
Let U' i := paddp (psum (λ j, pmulp z (A i j) (ev z (entry r j)))) (ev z (entry e1 i)).
Let V' := paddp (paddp (psum (λ i, pmulp z (T i) (ev z (entry r i)))) (ev z e2)) (ev z (message_poly msg)).

Lemma ev_u i : (i < RANK)%nat → pcong (ev z (U i)) (U' i).
Proof. intros Hi. unfold U, enc_u. rewrite ev_add_ok by (by apply sum_entry_ok || by apply entry_ok). by rewrite ev_sum_entry. Qed.
Lemma ev_t i : (i < RANK)%nat → pcong (ev z (scalar_inverse_ntt (entry t i))) (T i).
Proof. intros Hi. rewrite Ht by done. rewrite ev_add_ok by (by apply sum_entry_ok || by apply entry_ok). by rewrite ev_sum_entry. Qed.
Lemma ev_v : pcong (ev z V) V'.
Proof.
  unfold V, enc_v. pose proof (message_poly_ok msg Hmsg) as Hp.
  pose proof (sum_entry_ok (λ i, scalar_inverse_ntt (entry t i)) r Hr) as Htr. pose proof (add_ok _ _ Htr He2) as Hsum.
  rewrite ev_add_ok by assumption. rewrite ev_add_ok by assumption. rewrite ev_sum_entry by assumption.
  apply paddp_proper; [|reflexivity]. apply paddp_proper; [|reflexivity]. apply psum_ext. intros j Hj. cbn beta. by rewrite ev_t.
Qed.

Lemma ev_noise : pcong (ev z (noise m t s e r e1 e2 msg))
  (psubp (paddp (paddp (psum (λ i, pmulp z (ev z (entry e i)) (ev z (entry r i)))) (ev z e2)) (psubp (ev z (rounded kDV V)) V'))
         (psum (λ i, pmulp z (ev z (entry s i)) (paddp (ev z (entry e1 i)) (psubp (ev z (rounded kDU (U i))) (U' i)))))).
Proof.
  unfold noise. fold U V. pose proof rounded_v_ok as Hrv. pose proof v_ok as Hv. pose proof (sum_entry_ok (entry e) r Hr) as Her.
  pose proof (sub_ok _ _ Hrv Hv) as Hd. pose proof (add_ok _ _ Her He2) as Ha. pose proof (add_ok _ _ Ha Hd) as Hb.
  fold W. pose proof (sum_products_ok (entry s) W (λ j Hj, proj1 (w_ok j Hj))) as Hw.
  rewrite ev_sub_ok by assumption. rewrite ev_add_ok by assumption. rewrite ev_add_ok by assumption. rewrite ev_sub_ok by assumption.
  rewrite ev_sum_entry by assumption. rewrite ev_v. rewrite (ev_sum z (entry s) W Hz w_ok).
  apply psubp_proper; [reflexivity|]. apply psum_ext. intros j Hj. cbn beta. unfold W.
  pose proof (entry_ok e1 j He1 Hj) as Hej. pose proof (rounded_u_ok j Hj) as Hru. pose proof (u_ok j Hj) as Hu.
  pose proof (sub_ok _ _ Hru Hu) as Hdu. rewrite ev_add_ok by assumption. rewrite ev_sub_ok by assumption. by rewrite ev_u.
Qed.
End root.

(** v' - s u' = message + noise *)
Lemma decrypted_noise :
  poly_sub (rounded kDV V) (sum_products (entry s) (λ i, rounded kDU (U i))) = poly_add (message_poly msg) (noise m t s e r e1 e2 msg).
Proof.
  pose proof rounded_v_ok as Hv. pose proof (message_poly_ok msg Hmsg) as Hp.
  pose proof (sum_products_ok (entry s) (λ i, rounded kDU (U i)) (λ j Hj, proj1 (rounded_u_ok j Hj))) as Hsum.
  apply values_eq; [by apply sub_ok|by apply add_ok, noise_ok|]. intros i Hi. pose proof (zeta_root i Hi) as Hz.
  rewrite ev_sub_ok by assumption. rewrite ev_add_ok by (exact Hp || exact noise_ok). rewrite (ev_noise _ Hz).
  rewrite (ev_sum _ _ _ Hz rounded_u_ok). apply reflexive_eq.
  exact (noise_identity (zeta i) (λ k j, ev (zeta i) (A_ m k j)) (λ j, ev (zeta i) (entry s j)) (λ j, ev (zeta i) (entry e j))
    (λ j, ev (zeta i) (entry r j)) (λ j, ev (zeta i) (entry e1 j)) (λ j, ev (zeta i) (rounded kDU (U j))) _ _ _).
Qed.
End noise.
