(* ===== verification/KyberKeys.v ===== *)
(** The encodings of the keys of kyber.c, over [CBS] and [CBB]. *)
From S2P Require Import Prelude Mem Cbs Cbb CbbSpec CbbFlush CbbOps Bits Keccak Kyber KyberRing KyberNtt KyberPoly KyberCode KyberSample KyberCpa.

#[local] Opaque scalar_ntt scalar_inverse_ntt keccak_f scalar_encode scalar_decode vector_encode vector_decode sponge_of.

Lemma ok_fits s : scalar_ok s → fits 12 s ∧ residues s = true.
Proof.
  intros [Hl Hs]. split; [split; [done|]; eapply Forall_impl; [exact Hs|]; cbn; unfold kPrime; lia|].
  apply forallb_forall. rewrite List.Forall_forall in Hs. intros x Hx. specialize (Hs x Hx). lia.
Qed.
Lemma fits_ok bits s : fits bits s → residues s = true → scalar_ok s.
Proof.
  intros [Hl Hs] Hr. split; [done|]. unfold residues in Hr. rewrite forallb_forall in Hr. rewrite List.Forall_forall in *.
  intros x Hx. specialize (Hs x Hx). specialize (Hr x Hx). cbn in *. lia.
Qed.
Lemma vector_fits v : vector_ok v → length v = RANK ∧ Forall (fits kLog2Prime) v ∧ forallb residues v = true.
Proof.
  intros [Hl Hv]. split; [done|]. split; [eapply Forall_impl; [exact Hv|]; intros s Hs; by apply ok_fits|].
  apply forallb_forall. rewrite List.Forall_forall in Hv. intros s Hs. by apply ok_fits, Hv.
Qed.
Lemma fits_vector v : length v = RANK → Forall (fits kLog2Prime) v → forallb residues v = true → vector_ok v.
Proof.
  intros Hl Hv Hr. split; [done|]. rewrite forallb_forall in Hr. rewrite List.Forall_forall in *. intros s Hs.
  apply (fits_ok kLog2Prime); [by apply Hv|by apply Hr].
Qed.

Lemma log2_width : (0 < kLog2Prime ≤ 16)%nat.
Proof. unfold kLog2Prime. lia. Qed.

Lemma encode_t v : vector_ok v → bytes_ok (vector_encode v kLog2Prime) ∧ length (vector_encode v kLog2Prime) = kEncodedVectorSize.
Proof. intros (Hl & Hf & _)%vector_fits. exact (vector_encode_spec v kLog2Prime Hl Hf). Qed.
Lemma decode_t v rest : vector_ok v → bytes_ok rest → vector_decode (vector_encode v kLog2Prime ++ rest) kLog2Prime = Some (Some v).
Proof. intros (Hl & Hf & Hr)%vector_fits Hb. rewrite vector_decode_encode by (done || apply log2_width). by rewrite Hr. Qed.

(** ** The formats *)
Definition public_bytes (t : vector) (rho : list Z) : list Z := vector_encode t kLog2Prime ++ rho.
Definition private_bytes (s t : vector) (rho hash secret : list Z) : list Z :=
  vector_encode s kLog2Prime ++ public_bytes t rho ++ hash ++ secret.
(** [n] bytes. *)
Definition block (n : nat) (l : list Z) : Prop := length l = n ∧ bytes_ok l.

Section keys.
Context {A : Allocator}.

Lemma appends_vector (l : loc) (v : vector) (m : B unit) ox : vector_ok v → appends [] m l ox →
  appends [] (off ← CBB_add_space l (Z.of_nat kEncodedVectorSize); _ ← write_space l off (vector_encode v kLog2Prime); m) l
    (x ← ox; Some (vector_encode v kLog2Prime ++ x)).
Proof.
  intros Hv Hm. destruct (encode_t v Hv) as [Hb Hl].
  pose proof (appends_space_write [] l (vector_encode v kLog2Prime) Hb) as Hw. unfold CBS_len in Hw. rewrite Hl in Hw.
  eapply appends_eq; [intros w; apply B_assoc|].
  exact (appends_seq [] _ (λ _, m) l _ ox (Hw ltac:(by vm_compute)) (λ _, Hm)).
Qed.

Lemma marshal_public_spec (l : loc) pub : vector_ok (key_t pub) → block 32 (key_rho pub) →
  appends [] (KYBER_marshal_public_key l pub) l (Some (public_bytes (key_t pub) (key_rho pub))).
Proof.
  intros Ht [Hl Hb]. apply (appends_vector l (key_t pub) _ (Some (key_rho pub)) Ht). apply appends_add_bytes; [done|]. unfold CBS_len. lia.
Qed.

Lemma marshal_private_spec (l : loc) priv : vector_ok (key_s priv) → vector_ok (key_t (key_pub priv)) → block 32 (key_rho (key_pub priv)) →
  block 32 (public_key_hash (key_pub priv)) → block 32 (fo_failure_secret priv) →
  appends [] (KYBER_marshal_private_key l priv) l
    (Some (private_bytes (key_s priv) (key_t (key_pub priv)) (key_rho (key_pub priv)) (public_key_hash (key_pub priv)) (fo_failure_secret priv))).
Proof.
  intros Hs Ht Hr [Lh Bh] [Lf Bf]. unfold KYBER_marshal_private_key, private_bytes.
  assert (Ah : appends [] (CBB_add_bytes l (public_key_hash (key_pub priv))) l (Some (public_key_hash (key_pub priv))))
    by (apply appends_add_bytes; [done|unfold CBS_len; lia]).
  assert (Af : appends [] (CBB_add_bytes l (fo_failure_secret priv)) l (Some (fo_failure_secret priv)))
    by (apply appends_add_bytes; [done|unfold CBS_len; lia]).
  pose proof (appends_seq [] _ (λ _ : unit, _) l _ _ Ah (λ _, Af)) as Ahf.
  pose proof (appends_seq [] _ (λ _ : unit, _) l _ _ (marshal_public_spec l (key_pub priv) Ht Hr) (λ _, Ahf)) as Ap.
  exact (appends_vector l (key_s priv) _ _ Hs Ap).
Qed.

(** A builder on an array of exactly the right size. *)
Lemma into_array_spec n (f : loc → B unit) data : (∀ l, appends [] (f l) l (Some data)) → length data = n → Z.of_nat n < 2 ^ 64 →
  into_array n f = Some data.
Proof.
  intros Hf Hl Hn. unfold into_array. set (b0 := mkBuffer (replicate n 0) 0 (Z.of_nat (length (replicate n 0))) false false).
  set (w0 := mkWorld {[0%nat := mkCBB None UBase]} {[0%nat := b0]} 0).
  assert (E : CBB_init_fixed 0%nat (replicate n 0) (mkWorld ∅ ∅ 0) = Ok () w0).
  { unfold CBB_init_fixed, CBB_zero, cbb_init, store_cbb, store_buf, mbind, B_bind. cbn -[replicate]. unfold set_cbbs, set_bufs. cbn -[replicate].
    unfold w0. by rewrite !insert_insert_eq. }
  unfold mbind, B_bind. rewrite E. clear E.
  assert (Hb0 : holds b0 []).
  { unfold holds, b0. rewrite length_replicate. split_and!; cbn; try done; try lia. - by rewrite length_replicate. - apply Forall_replicate. lia. }
  assert (Hrep : rep w0 0 ([] ++ 0%nat :: []) ([] ++ (PFixed 0, []) :: [])).
  { split_and!; [done|done|apply NoDup_singleton| |].
    - split; [|done]. eexists. split; [apply lookup_insert_eq|]. by repeat split.
    - exists b0. split; [apply lookup_insert_eq|exact Hb0]. }
  pose proof (Hf 0%nat w0 0%nat [] [] (PFixed 0) [] [] [] Hrep eq_refl ltac:(set_solver)) as H. unfold builds, wp in H.
  destruct (f 0%nat w0) as [a w|w|]; [| |done].
  - destruct H as (F & EF & (_ & _ & _ & _ & b & Eb & Hb) & _). cbn in EF. injection EF as <-. rewrite Eb.
    destruct Hb as (_ & _ & _ & _ & _ & Ht & _). cbn [flat plen replicate app] in Ht. rewrite app_nil_r in Ht. rewrite Hl in Ht. by rewrite Ht.
  - destruct H as (_ & _ & _ & Hno). exfalso. apply (Hno _ eq_refl). exists b0. split; [apply lookup_insert_eq|]. left.
    cbn [flat plen replicate app]. rewrite app_nil_r. unfold b0, CBS_len. cbn [cap]. rewrite length_replicate. lia.
Qed.
End keys.

(** ** Parsing *)
Lemma cbs_get_block n a b : length a = n → cbs_get (Z.of_nat n) (a ++ b) = (Some a, b).
Proof.
  intros Hl. unfold cbs_get, CBS_len. rewrite length_app. destruct (Z.ltb_spec (Z.of_nat (length a + length b)) (Z.of_nat n)); [lia|].
  rewrite Nat2Z.id, take_app_length', drop_app_length' by done. done.
Qed.
Lemma cbs_get_cases n inp : ∃ r s, cbs_get (Z.of_nat n) inp = (r, s) ∧
  match r with Some a => inp = a ++ s ∧ length a = n | None => (length inp < n)%nat ∧ s = inp end.
Proof.
  unfold cbs_get, CBS_len. destruct (Z.ltb_spec (Z.of_nat (length inp)) (Z.of_nat n)).
  - eexists _, _. split; [done|]. split; [lia|done].
  - eexists _, _. split; [done|]. rewrite Nat2Z.id, take_drop, length_take. split; [done|lia].
Qed.

(** The key a parser returns, when the matrix expands within the fuel. *)
Definition expanded {T} (fuel : nat) (rho : list Z) (k : matrix → T) : option T :=
  match matrix_expand fuel rho with Some m => Some (k m) | None => None end.

Lemma parse_no_hash_app fuel t rho rest : vector_ok t → length rho = 32%nat →
  kyber_parse_public_key_no_hash fuel (public_bytes t rho ++ rest) = (Some (expanded fuel rho (mkPublic t rho [])), rest).
Proof.
  intros Ht Hr. unfold kyber_parse_public_key_no_hash, public_bytes, CBS_get_bytes, CBS_copy_bytes. rewrite <- app_assoc.
  erewrite M_bind_Some; [|apply cbs_get_block; apply (encode_t t Ht)].
  pose proof (decode_t t [] Ht (Forall_nil_2 _)) as Hd. rewrite app_nil_r in Hd. rewrite Hd.
  erewrite M_bind_Some; [|apply (cbs_get_block 32); exact Hr]. done.
Qed.

Lemma parse_vector inp a s : bytes_ok inp → inp = a ++ s → length a = kEncodedVectorSize →
  match vector_decode a kLog2Prime with
  | Some (Some t) => vector_ok t ∧ a = vector_encode t kLog2Prime
  | Some None => ∀ t, vector_ok t → a ≠ vector_encode t kLog2Prime
  | None => False
  end.
Proof.
  intros Hb -> Hl. apply Forall_app in Hb as [Ha _].
  destruct (vector_decode_spec a kLog2Prime log2_width Ha) as (v & Lv & Fv & Ev & Dv); [rewrite Hl; done|].
  rewrite take_ge in Ev by (rewrite Hl; done). rewrite Dv. destruct (forallb residues v) eqn:Er; [split; [by apply fits_vector|done]|].
  intros t Ht E. destruct (vector_fits t Ht) as (Lt & Ft & Rt). rewrite <- Ev in E.
  apply (vector_encode_inj kLog2Prime v t log2_width Lv Lt Fv Ft) in E. congruence.
Qed.

Lemma parse_no_hash_inv fuel inp r s : bytes_ok inp → kyber_parse_public_key_no_hash fuel inp = (r, s) →
  match r with
  | Some _ => ∃ t rho, vector_ok t ∧ length rho = 32%nat ∧ inp = public_bytes t rho ++ s
  | None => ∀ t rho rest, vector_ok t → length rho = 32%nat → inp ≠ public_bytes t rho ++ rest
  end.
Proof.
  intros Hb E. destruct r as [r|].
  - unfold kyber_parse_public_key_no_hash, CBS_get_bytes, CBS_copy_bytes in E.
    apply M_bind_inv in E as (a & s1 & E1 & E2). destruct (cbs_get_cases kEncodedVectorSize inp) as (r1 & s1' & E1' & H1).
    rewrite E1 in E1'. injection E1' as <- <-. destruct H1 as [Hi Hla]. pose proof (parse_vector inp a s1 Hb Hi Hla) as Hp.
    destruct (vector_decode a kLog2Prime) as [[t|]|]; [|discriminate E2|done].
    apply M_bind_inv in E2 as (rho & s2 & E3 & E4). destruct (cbs_get_cases 32 s1) as (r2 & s2' & E3' & H3).
    change 32 with (Z.of_nat 32) in E3. rewrite E3 in E3'. injection E3' as <- <-. injection E4 as _ <-. destruct H3 as [Hs1 Hlr], Hp as [Ht Ha].
    exists t, rho. split; [done|]. split; [done|]. rewrite Hi, Hs1, Ha. unfold public_bytes. rewrite <- app_assoc. reflexivity.
  - intros t rho rest Ht Hr ->. by rewrite (parse_no_hash_app fuel t rho rest Ht Hr) in E.
Qed.

Lemma length_public t rho : vector_ok t → length rho = 32%nat → length (public_bytes t rho) = KYBER_PUBLIC_KEY_BYTES.
Proof. intros Ht Hr. unfold public_bytes. rewrite length_app, (proj2 (encode_t t Ht)), Hr. done. Qed.
Lemma length_private s t rho hash secret : vector_ok s → vector_ok t → length rho = 32%nat → length hash = 32%nat → length secret = 32%nat →
  length (private_bytes s t rho hash secret) = KYBER_PRIVATE_KEY_BYTES.
Proof.
  intros Hs Ht Hr Hh Hf. unfold private_bytes. rewrite !length_app, (proj2 (encode_t s Hs)), (length_public t rho Ht Hr), Hh, Hf. reflexivity.
Qed.
Lemma public_bytes_ok t rho : vector_ok t → bytes_ok rho → bytes_ok (public_bytes t rho).
Proof. intros Ht Hr. apply Forall_app_2; [by apply encode_t|done]. Qed.

Lemma require_end_nil : require_end [] = (Some (), []).
Proof. done. Qed.
Lemma require_end_inv s u s' : require_end s = (Some u, s') → s = [].
Proof. unfold require_end, CBS_len. destruct s; [done|]. cbn. done. Qed.

Lemma parse_public_spec fuel t rho : vector_ok t → block 32 rho →
  KYBER_parse_public_key fuel (public_bytes t rho) =
    (Some (expanded fuel rho (mkPublic t rho (H_ (public_bytes t rho)))), []).
Proof.
  intros Ht [Hl Hb]. unfold KYBER_parse_public_key.
  pose proof (parse_no_hash_app fuel t rho [] Ht Hl) as E. rewrite app_nil_r in E.
  erewrite M_bind_Some; [|exact E]. erewrite M_bind_Some; [|exact require_end_nil].
  rewrite hash_h_spec by (by apply public_bytes_ok). unfold expanded. by destruct (matrix_expand fuel rho).
Qed.

Lemma parse_public_inv fuel inp r s : bytes_ok inp → KYBER_parse_public_key fuel inp = (Some r, s) →
  ∃ t rho, vector_ok t ∧ block 32 rho ∧ inp = public_bytes t rho.
Proof.
  intros Hb E. unfold KYBER_parse_public_key in E. apply M_bind_inv in E as (pub & s1 & E1 & E).
  apply M_bind_inv in E as (u & s2 & E2%require_end_inv & E). subst s1.
  destruct (parse_no_hash_inv fuel inp _ _ Hb E1) as (t & rho & Ht & Hr & Hi). rewrite app_nil_r in Hi.
  exists t, rho. split; [done|]. split; [|done]. split; [done|]. rewrite Hi in Hb. by apply Forall_app in Hb as [_ ?].
Qed.

Lemma parse_private_spec fuel s t rho hash secret : vector_ok s → vector_ok t → block 32 rho → block 32 hash → block 32 secret →
  KYBER_parse_private_key fuel (private_bytes s t rho hash secret) =
    (Some (expanded fuel rho (λ m, mkPrivate (mkPublic t rho hash m) s secret)), []).
Proof.
  intros Hs Ht [Hr _] [Hh _] [Hf _]. unfold KYBER_parse_private_key, private_bytes, CBS_get_bytes, CBS_copy_bytes.
  erewrite M_bind_Some; [|apply cbs_get_block; apply (encode_t s Hs)].
  pose proof (decode_t s [] Hs (Forall_nil_2 _)) as Hd. rewrite app_nil_r in Hd. rewrite Hd.
  erewrite M_bind_Some; [|by apply parse_no_hash_app].
  erewrite M_bind_Some; [|apply (cbs_get_block 32); exact Hh].
  pose proof (cbs_get_block 32 secret [] Hf) as E. rewrite app_nil_r in E. erewrite M_bind_Some; [|exact E].
  erewrite M_bind_Some; [|exact require_end_nil]. unfold expanded. by destruct (matrix_expand fuel rho).
Qed.

Lemma parse_private_inv fuel inp r rest : bytes_ok inp → KYBER_parse_private_key fuel inp = (Some r, rest) →
  ∃ s t rho hash secret, vector_ok s ∧ vector_ok t ∧ block 32 rho ∧ block 32 hash ∧ block 32 secret ∧ inp = private_bytes s t rho hash secret.
Proof.
  intros Hb E. unfold KYBER_parse_private_key, CBS_get_bytes, CBS_copy_bytes in E.
  apply M_bind_inv in E as (a & s1 & E1 & E). destruct (cbs_get_cases kEncodedVectorSize inp) as (r1 & s1' & E1' & H1).
  rewrite E1 in E1'. injection E1' as <- <-. destruct H1 as [Hi Hla]. pose proof (parse_vector inp a s1 Hb Hi Hla) as Hp.
  destruct (vector_decode a kLog2Prime) as [[s|]|]; [|discriminate E|done]. destruct Hp as [Hs Ha].
  apply M_bind_inv in E as (pub & s2 & E2 & E). rewrite Hi in Hb. apply Forall_app in Hb as [_ Hb1].
  destruct (parse_no_hash_inv fuel s1 _ _ Hb1 E2) as (t & rho & Ht & Hr & Hs1). rewrite Hs1 in Hb1. apply Forall_app in Hb1 as [Hbp Hb2].
  apply M_bind_inv in E as (hash & s3 & E3 & E). destruct (cbs_get_cases 32 s2) as (r3 & s3' & E3' & H3).
  change 32 with (Z.of_nat 32) in E3. rewrite E3 in E3'. injection E3' as <- <-. destruct H3 as [Hs2 Hlh].
  apply M_bind_inv in E as (secret & s4 & E4 & E). destruct (cbs_get_cases 32 s3) as (r4 & s4' & E4' & H4).
  change 32 with (Z.of_nat 32) in E4. rewrite E4 in E4'. injection E4' as <- <-. destruct H4 as [Hs3 Hlf].
  apply M_bind_inv in E as (u & s5 & E5%require_end_inv & E). subst s4. rewrite app_nil_r in Hs3. subst s3.
  rewrite Hs2 in Hb2. apply Forall_app in Hb2 as [Bh Bf]. apply Forall_app in Hbp as [_ Br].
  exists s, t, rho, hash, secret. split; [exact Hs|]. split; [exact Ht|].
  split; [exact (conj Hr Br)|]. split; [exact (conj Hlh Bh)|]. split; [exact (conj Hlf Bf)|].
  unfold private_bytes. rewrite Hi, Ha, Hs1, Hs2. reflexivity.
Qed.

(** C11: the encodings of the keys.  [KYBER_marshal_public_key] and
    [KYBER_marshal_private_key] append t || rho and s || t || rho || hash ||
    secret, with twelve bits per coefficient, to any builder; the parsers read
    exactly these bytes back, and consume them; and whatever the parsers
    accept is the encoding of such a key, so that a coefficient of 3329 or
    more, a missing byte and a byte too many are refused. *)
Theorem kyber_key_encodings `{A : Allocator} (fuel : nat) (l : loc) (m : matrix) (s t : vector) (rho hash secret : list Z)
    (Hs : vector_ok s) (Ht : vector_ok t) (Hrho : block 32 rho) (Hhash : block 32 hash) (Hsecret : block 32 secret) :
  let public := public_bytes t rho in
  let private := private_bytes s t rho hash secret in
  length public = KYBER_PUBLIC_KEY_BYTES ∧ length private = KYBER_PRIVATE_KEY_BYTES ∧
  appends [] (KYBER_marshal_public_key l (mkPublic t rho hash m)) l (Some public) ∧
  appends [] (KYBER_marshal_private_key l (mkPrivate (mkPublic t rho hash m) s secret)) l (Some private) ∧
  KYBER_parse_public_key fuel public = (Some (expanded fuel rho (mkPublic t rho (H_ public))), []) ∧
  KYBER_parse_private_key fuel private = (Some (expanded fuel rho (λ m, mkPrivate (mkPublic t rho hash m) s secret)), []) ∧
  ∀ inp, bytes_ok inp →
    ((KYBER_parse_public_key fuel inp).1 ≠ None → ∃ t rho, vector_ok t ∧ block 32 rho ∧ inp = public_bytes t rho) ∧
    ((KYBER_parse_private_key fuel inp).1 ≠ None →
       ∃ s t rho hash secret, vector_ok s ∧ vector_ok t ∧ block 32 rho ∧ block 32 hash ∧ block 32 secret ∧
         inp = private_bytes s t rho hash secret).
Proof.
  cbv zeta. split; [apply length_public; [exact Ht|apply Hrho]|].
  split; [apply length_private; [exact Hs|exact Ht|apply Hrho|apply Hhash|apply Hsecret]|].
  split; [by apply (marshal_public_spec l (mkPublic t rho hash m))|].
  split; [by apply (marshal_private_spec l (mkPrivate (mkPublic t rho hash m) s secret))|].
  split; [by apply parse_public_spec|]. split; [by apply parse_private_spec|]. intros inp Hb. split; intros Hne.
  - destruct (KYBER_parse_public_key fuel inp) as [[r|] rest] eqn:E; [|done]. by eapply parse_public_inv.
  - destruct (KYBER_parse_private_key fuel inp) as [[r|] rest] eqn:E; [|done]. by eapply parse_private_inv.
Qed.

Lemma vector_zero_ok : vector_ok vector_zero.
Proof. split; [done|]. apply Forall_replicate. exact poly_zero_ok. Qed.
Lemma zero_block n : block n (replicate n 0).
Proof. split; [apply length_replicate|apply Forall_replicate; lia]. Qed.

Lemma kyber_key_encodings_witness :
  let z := replicate 32 0 in
  let public := public_bytes vector_zero z in
  let private := private_bytes vector_zero vector_zero z z z in
  length public = KYBER_PUBLIC_KEY_BYTES ∧ length private = KYBER_PRIVATE_KEY_BYTES ∧
  appends (A := zero_allocator) [] (KYBER_marshal_public_key (A := zero_allocator) 5 (mkPublic vector_zero z z [])) 5 (Some public) ∧
  appends (A := zero_allocator) [] (KYBER_marshal_private_key (A := zero_allocator) 5 (mkPrivate (mkPublic vector_zero z z []) vector_zero z)) 5 (Some private) ∧
  KYBER_parse_public_key 3 public = (Some (expanded 3 z (mkPublic vector_zero z (H_ public))), []) ∧
  KYBER_parse_private_key 3 private = (Some (expanded 3 z (λ m, mkPrivate (mkPublic vector_zero z z m) vector_zero z)), []) ∧
  ∀ inp, bytes_ok inp →
    ((KYBER_parse_public_key 3 inp).1 ≠ None → ∃ t rho, vector_ok t ∧ block 32 rho ∧ inp = public_bytes t rho) ∧
    ((KYBER_parse_private_key 3 inp).1 ≠ None →
       ∃ s t rho hash secret, vector_ok s ∧ vector_ok t ∧ block 32 rho ∧ block 32 hash ∧ block 32 secret ∧
         inp = private_bytes s t rho hash secret).
Proof.
  exact (kyber_key_encodings (A := zero_allocator) 3 5 [] vector_zero vector_zero (replicate 32 0) (replicate 32 0) (replicate 32 0)
    vector_zero_ok vector_zero_ok (zero_block 32) (zero_block 32) (zero_block 32)).
Defined.
