(* ===== verification/KyberKem.v ===== *)
(** The key encapsulation of kyber.c: generated keys are good, decapsulation
    recovers the encapsulated secret, and implicit rejection. *)
From S2P Require Import Prelude Radix Mem Cbs CString ConstTime Cbb CbbSpec CbbOps Bits Keccak Kyber KyberRing KyberNtt KyberPoly KyberCode.
From S2P Require Import KyberSample KyberCpa KyberNoise KyberKeys.

#[local] Opaque scalar_ntt scalar_inverse_ntt scalar_mult poly_mul keccak_f scalar_encode scalar_decode vector_encode vector_decode
  sponge_of compress decompress.

(** ** Rounding the noise away *)
(** Noise between -832 and 831. *)
Definition quiet (n : Z) : bool := (n <=? 831) || (kPrime - 832 <=? n).

Lemma compress_1 x : fe x → compress x 1 = if (833 <=? x) && (x <=? 2496) then 1 else 0.
Proof.
  intros Hx. rewrite compress_spec by (done || tauto). change (2 ^ Z.of_nat 1) with 2.
  assert (H : ∀ y, - kPrime < 2 * kPrime * y - 2 * (2 * x) <= kPrime → round_div (2 * x) kPrime = y) by (intros; by apply round_div_unique).
  unfold kPrime in *. destruct (Z.leb_spec 833 x), (Z.leb_spec x 2496); cbn [andb]; try lia.
  - by rewrite (H 1) by lia.
  - by rewrite (H 2) by lia.
  - by rewrite (H 0) by lia.
Qed.

Lemma compress_message (b : bool) n : fe n → quiet n = true → compress (((if b then 1665 else 0) + n) mod kPrime) 1 = Z.b2z b.
Proof.
  intros Hn Hq. rewrite compress_1 by apply mod_fe. rewrite mod_once by (unfold kPrime in *; destruct b; lia).
  unfold quiet, kPrime in *. destruct b; cbn [Z.b2z].
  - destruct (Z.ltb_spec (1665 + n) 3329); [destruct (Z.leb_spec 833 (1665 + n)), (Z.leb_spec (1665 + n) 2496)|
      destruct (Z.leb_spec 833 (1665 + n - 3329)), (Z.leb_spec (1665 + n - 3329) 2496)]; cbn; lia.
  - destruct (Z.ltb_spec (0 + n) 3329); [|lia]. destruct (Z.leb_spec 833 (0 + n)), (Z.leb_spec (0 + n) 2496); cbn; lia.
Qed.

Lemma message_recovered msg n : length msg = 32%nat → bytes_ok msg → scalar_ok n → forallb quiet n = true →
  scalar_encode_1 (scalar_compress (poly_add (message_poly msg) n) 1) = msg.
Proof.
  intros Hl Hm [Ln Fn] Hq. transitivity (scalar_encode_1 (Z.b2z <$> stream 8 msg)); [|by apply encode_1_spec]. f_equal.
  unfold message_poly, scalar_compress. assert (Ls : length (stream 8 msg) = length n) by (rewrite length_stream, Hl, Ln; done).
  revert Ls. generalize (stream 8 msg). clear Ln Hl Hm msg. intros l Hl. revert l Hl. induction Fn as [|x n Hx _ IH]; intros [|b l] Hl; try done.
  cbn [forallb] in Hq. apply andb_true_iff in Hq as [Hqx Hq]. cbn [fmap list_fmap poly_add zip_with].
  apply (f_equal2 cons); [by apply compress_message|]. apply IH; [done|]. cbn in Hl. lia.
Qed.

(** ** Keys *)
Record valid_key (priv : private_key) (s e : vector) : Prop := ValidKey {
  valid_m : matrix_ok (key_m (key_pub priv));
  valid_s : vector_ok s;
  valid_e : vector_ok e;
  valid_key_s : key_s priv = vector_ntt s;
  valid_t : vector_ok (key_t (key_pub priv));
  (** t = A^T s + e *)
  valid_lwe : ∀ i, (i < RANK)%nat → scalar_inverse_ntt (entry (key_t (key_pub priv)) i) =
    poly_add (sum_products (λ j, A_ (key_m (key_pub priv)) j i) (entry s)) (entry e i);
  valid_hash : block 32 (public_key_hash (key_pub priv));
  valid_secret : block 32 (fo_failure_secret priv);
}.

Lemma valid_public priv s e : valid_key priv s e → public_ok (key_pub priv).
Proof. intros H. split; [apply H|]. intros i Hi. apply entry_ok; [apply H|done]. Qed.

(** The noise of the ciphertext of [msg] under the coins. *)
Definition noise_of (priv : private_key) (s e : vector) (msg coins : list Z) : scalar :=
  noise (key_m (key_pub priv)) (key_t (key_pub priv)) s e (sampled_vector coins 0) (sampled_vector coins 3) (sampled coins 6) msg.

Lemma length_ciphertext pub msg coins : public_ok pub → length msg = 32%nat → block KYBER_CIPHERTEXT_BYTES (ciphertext_of pub msg coins).
Proof.
  intros [Hm Ht] Hl. unfold ciphertext_of, pack.
  set (us := enc_u _ _ _ <$> seq 0 RANK). set (v := enc_v _ _ _ _).
  assert (Hu : vector_ok us) by (apply vector_seq_ok; intros i Hi; apply enc_u_ok; auto using sampled_vector_ok).
  assert (Hv : scalar_ok v) by (apply enc_v_ok; auto using sampled_vector_ok, sampled_ok).
  destruct (vector_encode_spec (vector_compress us kDU) kDU) as [Bu Lu].
  { unfold vector_compress. rewrite length_fmap. apply Hu. }
  { apply Forall_fmap. eapply Forall_impl; [apply Hu|]. intros x Hx. apply compress_fits, Hx. }
  pose proof (compress_fits v kDV (proj1 Hv)) as Fv. destruct (scalar_encode_spec (scalar_compress v kDV) kDV (proj1 Fv) (fits_nonneg _ _ Fv)) as (Bv & Lv & _).
  split; [rewrite length_app, Lu, Lv; reflexivity|by apply Forall_app_2].
Qed.

(** Decrypting an honest ciphertext. *)
Lemma decrypt_honest priv s e msg coins : valid_key priv s e → length msg = 32%nat → bytes_ok msg →
  forallb quiet (noise_of priv s e msg coins) = true →
  decrypt_cpa priv (ciphertext_of (key_pub priv) msg coins) = Some msg.
Proof.
  intros Hk Hl Hm Hq. pose proof (valid_m _ _ _ Hk) as HA. pose proof (valid_s _ _ _ Hk) as Hs. pose proof (valid_e _ _ _ Hk) as He.
  pose proof (sampled_vector_ok coins 0) as Hr. pose proof (sampled_vector_ok coins 3) as He1. pose proof (sampled_ok coins 6) as He2.
  unfold noise_of in Hq. pose proof (noise_ok (key_m (key_pub priv)) (key_t (key_pub priv)) s e _ _ _ msg HA Hr He1 He2 Hl) as Hn.
  pose proof (decrypted_noise (key_m (key_pub priv)) (key_t (key_pub priv)) s e _ _ _ msg HA Hs He Hr He1 He2 Hl (valid_lwe _ _ _ Hk)) as Hd.
  unfold ciphertext_of, pack. set (r := sampled_vector coins 0) in *. set (e1 := sampled_vector coins 3) in *. set (e2 := sampled coins 6) in *.
  clearbody r e1 e2. set (U := enc_u (key_m (key_pub priv)) r e1) in *. set (V := enc_v (key_t (key_pub priv)) r e2 msg) in *.
  assert (HU : vector_ok (U <$> seq 0 RANK)) by (apply vector_seq_ok; intros i Hi; by apply enc_u_ok).
  assert (HV : scalar_ok V) by by apply enc_v_ok.
  rewrite (decrypt_packed priv s _ _ Hs (valid_key_s _ _ _ Hk)).
  - apply (f_equal Some). etrans; [|exact (message_recovered msg _ Hl Hm Hn Hq)]. rewrite <- Hd. unfold message_of.
    apply (f_equal (λ p, scalar_encode_1 (scalar_compress (poly_sub (rounded kDV V) p) 1))). apply sum_products_ext.
    intros i Hi. split; [reflexivity|]. unfold vector_compress. rewrite entry_fmap by (apply HU || exact Hi). by rewrite entry_seq.
  - unfold vector_compress. rewrite length_fmap. apply HU.
  - apply Forall_fmap. eapply Forall_impl; [apply HU|]. intros x Hx. apply compress_fits, Hx.
  - apply compress_fits, HV.
Qed.

(** ** Encapsulation *)
Lemma block_app m n a b : block m a → block n b → block (m + n) (a ++ b).
Proof. intros [La Ba] [Lb Bb]. split; [rewrite length_app; lia|by apply Forall_app_2]. Qed.
Lemma sponge_block cfg m n : block n (sponge_of cfg m n).
Proof. split; [apply length_sponge|apply sponge_bytes]. Qed.
Lemma take_block m n l : block n l → (m ≤ n)%nat → block m (take m l).
Proof. intros [Hl Hb] H. split; [rewrite length_take; lia|by apply Forall_take]. Qed.
Lemma drop_block m n l : block (m + n) l → block n (drop m l).
Proof. intros [Hl Hb]. split; [rewrite length_drop; lia|by apply Forall_drop]. Qed.

(** G gives the prekey and the coins. *)
Definition prekey (pub : public_key) (msg : list Z) : list Z := take 32 (G_ (msg ++ public_key_hash pub)).
Definition coins_of (pub : public_key) (msg : list Z) : list Z := drop 32 (G_ (msg ++ public_key_hash pub)).
Definition reencrypted (pub : public_key) (msg : list Z) : list Z := ciphertext_of pub msg (coins_of pub msg).

Lemma prekey_block pub msg : block 32 (prekey pub msg).
Proof. apply (take_block 32 64); [apply sponge_block|lia]. Qed.
Lemma coins_block pub msg : block 32 (coins_of pub msg).
Proof. apply (drop_block 32 32). exact (sponge_block _ _ 64). Qed.

Lemma bind_Some {T S} (x : option T) (f : T → option S) a : x = Some a → (x ≫= f) = f a.
Proof. by intros ->. Qed.

Lemma encap_spec pub msg : public_ok pub → block 32 (public_key_hash pub) → block 32 msg →
  KYBER_encap_external_entropy pub msg = Some (reencrypted pub msg, SHAKE256 (prekey pub msg ++ H_ (reencrypted pub msg)) 32).
Proof.
  intros Hp Hh Hm. pose proof (hash_g_spec _ (proj2 (block_app 32 32 _ _ Hm Hh))) as Eg.
  pose proof (coins_block pub msg) as [_ Bk]. pose proof (prekey_block pub msg) as [_ Bp].
  pose proof (encrypt_cpa_spec pub msg _ Hp (proj1 Hm) (proj2 Hm) Bk) as Ee.
  pose proof (length_ciphertext pub msg (coins_of pub msg) Hp (proj1 Hm)) as [_ Bc].
  unfold reencrypted, coins_of, prekey in *. set (g := G_ (msg ++ public_key_hash pub)) in *. clearbody g.
  unfold KYBER_encap_external_entropy. cbv zeta. rewrite (bind_Some _ _ _ Eg), (bind_Some _ _ _ Ee).
  set (c := ciphertext_of pub msg (drop 32 g)) in *. clearbody c. pose proof (hash_h_spec c Bc) as Eh. rewrite (bind_Some _ _ _ Eh).
  assert (Bk' : bytes_ok (take 32 g ++ H_ c)) by (apply Forall_app_2; [exact Bp|apply sponge_bytes]).
  rewrite (bind_Some _ _ _ (kdf_spec KYBER_SHARED_SECRET_BYTES _ Bk')). reflexivity.
Qed.

(** ** Decapsulation *)
Lemma byte_at_range a i : bytes_ok a → in_range 64 (byte_at a i).
Proof.
  intros Ha. unfold byte_at. destruct (nth_in_or_default (Z.to_nat i) a 0) as [Hin| ->]; [|lia].
  unfold bytes_ok in Ha. rewrite List.Forall_forall in Ha. specialize (Ha _ Hin). cbn in Ha. lia.
Qed.
Lemma memcmp_range a b n : bytes_ok a → bytes_ok b → in_range 64 (CRYPTO_memcmp a b n).
Proof.
  intros Ha Hb. unfold CRYPTO_memcmp. generalize (seqZ 0 n). intros l.
  assert (H : ∀ x, in_range 64 x → in_range 64 (foldl (λ x i, x .| (byte_at a i .^ byte_at b i)) x l)); [|apply H; lia].
  induction l as [|i l IH]; intros x Hx; [exact Hx|]. cbn [foldl]. apply IH, lor_range; [lia|exact Hx|].
  apply lxor_range; [lia|by apply byte_at_range..].
Qed.

Lemma same_mask a b n : block n a → block n b →
  constant_time_eq_int_8 (CRYPTO_memcmp a b (Z.of_nat n)) 0 = mask8_of (bool_decide (a = b)).
Proof.
  intros [La Ba] [Lb Bb]. pose proof (memcmp_range a b (Z.of_nat n) Ba Bb) as Hr.
  unfold constant_time_eq_int_8, constant_time_eq_8. rewrite (wrap_small 64 (CRYPTO_memcmp a b (Z.of_nat n)) Hr).
  rewrite eq_w_spec by (exact Hr || by vm_compute). rewrite u8_mask. f_equal. change (u64 0) with 0.
  apply Bool.eq_true_iff_eq. rewrite bool_decide_eq_true, Z.eqb_eq. unfold CRYPTO_memcmp. rewrite memcmp_zero. split; [|by intros ->].
  intros [_ H]. apply byte_at_ext; [congruence|]. intros i Hi. apply H. congruence.
Qed.

Lemma select_list (c : bool) n a b : block n a → block n b →
  (λ i, constant_time_select_8 (mask8_of c) (coeff a i) (coeff b i)) <$> seq 0 n = if c then a else b.
Proof.
  intros [La Ba] [Lb Bb]. rewrite (zip_coeff (λ x y, constant_time_select_8 (mask8_of c) x y) n a b La Lb).
  rewrite (zip_with_In _ (λ x y, if c then x else y)).
  2: { intros x y Hx Hy. unfold bytes_ok in *. rewrite List.Forall_forall in *. apply select_8_spec; [by apply Ba|by apply Bb]. }
  clear Ba Bb. subst n. revert b Lb. induction a as [|x a IH]; intros [|y b] Lb; try done; [by destruct c|].
  cbn [zip_with]. rewrite IH by (cbn in Lb; lia). by destruct c.
Qed.

Lemma decap_spec priv s e c msg : valid_key priv s e → block KYBER_CIPHERTEXT_BYTES c → decrypt_cpa priv c = Some msg → block 32 msg →
  KYBER_decap c priv = Some (SHAKE256 ((if bool_decide (c = reencrypted (key_pub priv) msg) then prekey (key_pub priv) msg
                                        else fo_failure_secret priv) ++ H_ c) 32).
Proof.
  intros Hk Hc Hd Hm. pose proof (valid_public _ _ _ Hk) as Hp. pose proof (valid_secret _ _ _ Hk) as Hz.
  pose proof (valid_hash _ _ _ Hk) as Hh. clear Hk. set (pub := key_pub priv) in *.
  pose proof (hash_g_spec _ (proj2 (block_app 32 32 _ _ Hm Hh))) as Eg.
  pose proof (coins_block pub msg) as [_ Bk]. pose proof (prekey_block pub msg) as Bp.
  pose proof (encrypt_cpa_spec pub msg _ Hp (proj1 Hm) (proj2 Hm) Bk) as Ee.
  pose proof (length_ciphertext pub msg (coins_of pub msg) Hp (proj1 Hm)) as Hc'.
  unfold reencrypted, coins_of, prekey in *. set (g := G_ (msg ++ public_key_hash pub)) in *. clearbody g.
  unfold KYBER_decap. rewrite (bind_Some _ _ _ Hd), (bind_Some _ _ _ Eg), (bind_Some _ _ _ Ee).
  set (c' := ciphertext_of pub msg (drop 32 g)) in *. clearbody c'. cbv zeta.
  rewrite (same_mask c c' KYBER_CIPHERTEXT_BYTES Hc Hc'), (bind_Some _ _ _ (hash_h_spec c (proj2 Hc))).
  assert (Es : (λ i, constant_time_select_8 (mask8_of (bool_decide (c = c'))) (coeff g i) (coeff (fo_failure_secret priv) i)) <$> seq 0 32 =
               if bool_decide (c = c') then take 32 g else fo_failure_secret priv).
  { rewrite <- (select_list _ 32 _ _ Bp Hz). apply list_fmap_ext. intros i k Hi%lookup_seq.
    apply (f_equal2 (constant_time_select_8 _)); [|reflexivity]. unfold coeff. rewrite nth_firstn. destruct (Nat.ltb_spec k 32); [reflexivity|lia]. }
  rewrite Es. apply kdf_spec. apply Forall_app_2; [|apply sponge_bytes].
  destruct (bool_decide (c = c')); [apply Bp|apply Hz].
Qed.

Lemma encode_1_block s : block 32 (scalar_encode_1 s).
Proof.
  split; [reflexivity|]. unfold scalar_encode_1. apply Forall_fmap, Forall_forall. intros i _. unfold compose.
  change (seq 0 8) with (seq 0 7 ++ [7%nat]). rewrite foldl_app. exact (wrap_range 8 _ ltac:(lia)).
Qed.

(** ** Key generation *)
Lemma mapM_seq_ok {T} (f : nat → option T) (P : T → Prop) n r : mapM f (seq 0 n) = Some r →
  (∀ i x, (i < n)%nat → f i = Some x → P x) → length r = n ∧ Forall P r.
Proof.
  intros E%mapM_Some_1 H. pose proof (Forall2_length _ _ _ E) as Hl. rewrite length_seq in Hl. split; [done|].
  apply Forall_lookup_2. intros k x Hx. destruct (Forall2_lookup_r _ _ _ _ _ E Hx) as (i & Hi%lookup_seq & Hf). apply (H i); [lia|done].
Qed.
Lemma matrix_expand_ok fuel rho m : bytes_ok rho → matrix_expand fuel rho = Some m → matrix_ok m.
Proof.
  intros Hr E. unfold matrix_expand in E. apply (mapM_seq_ok _ vector_ok) in E; [exact E|]. intros i row Hi Er.
  apply (mapM_seq_ok _ scalar_ok) in Er; [exact Er|]. intros j s Hj Es. exact (expand_cell_ok fuel rho i j s Hr Hi Hj Es).
Qed.

(** The public vector of the code. *)
Definition key_vector (m : matrix) (s e : vector) : vector := vector_add (matrix_mult_transpose m (vector_ntt s)) (vector_ntt e).
Lemma key_vector_spec m s e : matrix_ok m → vector_ok s → vector_ok e →
  vector_ok (key_vector m s e) ∧ ∀ i, (i < RANK)%nat →
    scalar_inverse_ntt (entry (key_vector m s e) i) = poly_add (sum_products (λ j, A_ m j i) (entry s)) (entry e i).
Proof.
  intros Hm Hs He. assert (H : ∀ i, (i < RANK)%nat → scalar_ok (entry (key_vector m s e) i) ∧
    scalar_inverse_ntt (entry (key_vector m s e) i) = poly_add (sum_products (λ j, A_ m j i) (entry s)) (entry e i)).
  { intros i Hi. unfold key_vector, vector_add, matrix_mult_transpose. rewrite !entry_seq by exact Hi.
    destruct (matrix_row (λ j, cell m j i) s) as [Hr Er]; [intros j Hj; by apply cell_ok|exact Hs|].
    destruct (vector_ntt_entry e i He Hi) as [Hn En]. destruct (inverse_ntt_add _ _ Hr Hn) as [Ha Ea].
    split; [exact Ha|]. rewrite Ea, En, Er. reflexivity. }
  split; [|intros i Hi; by apply H]. split; [reflexivity|]. unfold key_vector, vector_add. apply Forall_fmap, Forall_forall.
  intros i Hi%elem_of_seq. destruct (H i ltac:(lia)) as [Ho _]. unfold key_vector, vector_add in Ho. by rewrite entry_seq in Ho by lia.
Qed.

Section generate.
Context {A : Allocator}.

Definition generated (m : matrix) (rho sigma secret : list Z) : list Z * private_key :=
  let s := sampled_vector sigma 0 in
  let t := key_vector m s (sampled_vector sigma 3) in
  (public_bytes t rho, mkPrivate (mkPublic t rho (H_ (public_bytes t rho)) m) (vector_ntt s) secret).

Lemma generate_key_spec fuel entropy : block 64 entropy →
  KYBER_generate_key_external_entropy fuel entropy =
    expanded fuel (take 32 (G_ (take 32 entropy))) (λ m, generated m (take 32 (G_ (take 32 entropy))) (drop 32 (G_ (take 32 entropy))) (drop 32 entropy)).
Proof.
  intros He. pose proof (take_block 32 64 _ He ltac:(lia)) as [_ B1]. pose proof (hash_g_spec _ B1) as Eg.
  pose proof (sponge_block boringssl_sha3_512 (take 32 entropy) 64) as Hg. fold (G_ (take 32 entropy)) in Hg.
  unfold KYBER_generate_key_external_entropy. rewrite (bind_Some _ _ _ Eg). set (g := G_ (take 32 entropy)) in *. clearbody g. cbv zeta.
  pose proof (take_block 32 64 _ Hg ltac:(lia)) as Hr. pose proof (drop_block 32 32 _ Hg) as [_ Bs].
  unfold expanded. destruct (matrix_expand fuel (take 32 g)) as [m|] eqn:Em; [|reflexivity]. rewrite (bind_Some _ _ m eq_refl).
  pose proof (matrix_expand_ok fuel _ m (proj2 Hr) Em) as Hm.
  rewrite (bind_Some _ _ _ (generate_secret_spec (drop 32 g) 0 Bs ltac:(lia))). change (0 + 3) with 3.
  rewrite (bind_Some _ _ _ (generate_secret_spec (drop 32 g) 3 Bs ltac:(lia))).
  pose proof (key_vector_spec m _ _ Hm (sampled_vector_ok (drop 32 g) 0) (sampled_vector_ok (drop 32 g) 3)) as [Ht _].
  unfold generated. fold (key_vector m (sampled_vector (drop 32 g) 0) (sampled_vector (drop 32 g) 3)).
  set (t := key_vector _ _ _) in *. clearbody t. cbv zeta.
  pose proof (length_public t _ Ht (proj1 Hr)) as Lp.
  pose proof (into_array_spec KYBER_PUBLIC_KEY_BYTES (λ cbb, kyber_marshal_public_key cbb (mkPublic t (take 32 g) [] m)) _
    (λ l, marshal_public_spec l (mkPublic t (take 32 g) [] m) Ht Hr) Lp ltac:(by vm_compute)) as Ei.
  rewrite (bind_Some _ _ _ Ei). cbn [key_t key_rho]. rewrite (bind_Some _ _ _ (hash_h_spec _ (public_bytes_ok t _ Ht (proj2 Hr)))). reflexivity.
Qed.

Lemma generated_valid m rho sigma secret : matrix_ok m → block 32 rho → block 32 secret →
  valid_key (generated m rho sigma secret).2 (sampled_vector sigma 0) (sampled_vector sigma 3).
Proof.
  intros Hm Hr Hz. pose proof (key_vector_spec m _ _ Hm (sampled_vector_ok sigma 0) (sampled_vector_ok sigma 3)) as [Ht El].
  unfold generated. set (t := key_vector _ _ _) in *. clearbody t.
  split; cbn [snd key_pub key_m key_t key_s public_key_hash fo_failure_secret];
    [exact Hm|apply sampled_vector_ok..|reflexivity|exact Ht|exact El|apply sponge_block|exact Hz].
Qed.
End generate.

(** The condition on the noise holds in particular, whatever the message and
    the coins, for the key with zero secrets: what is left is e2 and the error
    of one compression, below 107. *)
Lemma quiet_near x : fe x → (∃ k, Z.abs k <= 106 ∧ x ≃ k) → quiet x = true.
Proof.
  intros Hx (k & Hk & [Hm]). rewrite (Z.mod_small x) in Hm by exact Hx. unfold quiet, kPrime in *.
  destruct (Z.lt_ge_cases k 0); [rewrite <- (Z_mod_plus_full k 1) in Hm|]; rewrite Z.mod_small in Hm by lia; lia.
Qed.
Lemma small_near x : small x → ∃ k, Z.abs k <= 2 ∧ x ≃ k.
Proof.
  intros [H|H]; [exists x; split; [lia|reflexivity]|]. exists (x - kPrime). split; [lia|]. apply (cong_by 1). ring.
Qed.

Lemma sum_products_zero g : (∀ j, (j < RANK)%nat → scalar_ok (g j)) → sum_products (entry vector_zero) g = poly_zero.
Proof.
  intros Hg. apply values_eq; [apply sum_products_ok; intros j Hj; by apply Hg|exact poly_zero_ok|]. intros i Hi.
  rewrite (ev_sum _ _ _ (zeta_root i Hi) Hg). unfold poly_zero. rewrite ev_zero.
  rewrite (psum_ext _ (λ _, (0, 0))); [reflexivity|]. intros j Hj.
  assert (E : entry vector_zero j = replicate DEGREE 0) by (unfold RANK in Hj; destruct j as [|[|[|j]]]; [done..|lia]).
  rewrite E, ev_zero. destruct (ev (zeta i) (g j)). apply reflexive_eq. pring.
Qed.

Lemma zero_key_quiet m t r e1 e2 msg : matrix_ok m → vector_ok r → vector_ok e1 → small_scalar e2 → length msg = 32%nat →
  forallb quiet (noise m t vector_zero vector_zero r e1 e2 msg) = true.
Proof.
  intros Hm Hr He1 He2 Hl. unfold noise. rewrite (sum_products_zero (entry r)) by (intros j Hj; by apply entry_ok).
  pose proof (w_ok m r e1 Hm Hr He1) as Hw. cbv zeta. rewrite (sum_products_zero _ Hw). clear Hw Hm He1.
  pose proof (enc_v_ok t r e2 msg Hr (small_scalar_ok _ He2) Hl) as [Lv Fv]. revert Lv Fv. generalize (enc_v t r e2 msg). intros v Lv Fv.
  destruct He2 as [Le Fe]. unfold poly_zero. rewrite <- Lv at 1 2. assert (Hlen : length e2 = length v) by congruence. clear Le Lv.
  revert v Hlen Fv. induction Fe as [|x e2 Hx _ IH]; intros [|y v] Hlen Fv; try done. apply Forall_cons in Fv as [Hy Fv].
  cbn [length] in Hlen. specialize (IH v ltac:(lia) Fv). unfold poly_sub, poly_add, rounded, scalar_decompress, scalar_compress in *.
  cbn [length replicate fmap list_fmap zip_with forallb]. rewrite andb_true_iff. split; [|exact IH].
  destruct (small_near x Hx) as (k & Hk & Hxk). destruct (compress_error y kDV Hy ltac:(unfold kept, kDV; tauto)) as (d & Hd & Hyd).
  change (max_error kDV) with 104 in Hd. apply quiet_near; [apply mod_fe|]. exists (k + d). split; [lia|].
  rewrite !cong_mod, Hxk, Hyd. apply cong_of_eq. ring.
Qed.

(** ** The mechanism *)
Section kem.
Context {A : Allocator}.

(** C1: the mechanism is correct.  From any 64 bytes key generation gives,
    unless the rejection sampling of the matrix needs more blocks than the
    fuel, a key with small secrets s and e with t = A^T s + e in the schoolbook
    ring, and its 1184-byte encoding; encapsulating any 32 bytes to that key
    gives a ciphertext of 1088 bytes and a secret of 32 bytes; and when the
    noise e r + e2 + dv - s (e1 + du) of that encryption, du and dv being the
    errors of the compression, lies between -832 and 831 in every coefficient,
    decapsulation gives the same secret. *)
Theorem KYBER_correct (fuel : nat) (entropy message : list Z) (Hentropy : block 64 entropy) (Hmessage : block 32 message) :
  match KYBER_generate_key_external_entropy fuel entropy with
  | None => matrix_expand fuel (take 32 (G_ (take 32 entropy))) = None
  | Some (encoded, priv) =>
      let pub := KYBER_public_from_private priv in
      encoded = public_bytes (key_t pub) (key_rho pub) ∧ length encoded = KYBER_PUBLIC_KEY_BYTES ∧
      ∃ s e, Forall small_scalar s ∧ Forall small_scalar e ∧ valid_key priv s e ∧
        ∃ ct ss, KYBER_encap_external_entropy pub message = Some (ct, ss) ∧
          block KYBER_CIPHERTEXT_BYTES ct ∧ block KYBER_SHARED_SECRET_BYTES ss ∧
          (forallb quiet (noise_of priv s e message (coins_of pub message)) = true → KYBER_decap ct priv = Some ss)
  end.
Proof.
  rewrite generate_key_spec by exact Hentropy. unfold expanded.
  destruct (matrix_expand fuel (take 32 (G_ (take 32 entropy)))) as [m|] eqn:Em; [|reflexivity].
  set (g := G_ (take 32 entropy)) in *. assert (Hg : block 64 g) by apply sponge_block. clearbody g.
  pose proof (take_block 32 64 _ Hg ltac:(lia)) as Hr. pose proof (matrix_expand_ok fuel _ m (proj2 Hr) Em) as Hm.
  pose proof (generated_valid m _ (drop 32 g) _ Hm Hr (drop_block 32 32 _ Hentropy)) as Hk.
  pose proof (length_public (key_vector m (sampled_vector (drop 32 g) 0) (sampled_vector (drop 32 g) 3)) _
    (proj1 (key_vector_spec m _ _ Hm (sampled_vector_ok _ _) (sampled_vector_ok _ _))) (proj1 Hr)) as Lp.
  unfold generated in *. cbn [fst snd] in Hk. set (priv := mkPrivate _ _ _) in *. cbv zeta. split; [reflexivity|]. clearbody priv. split; [exact Lp|].
  assert (Hsm : ∀ n, Forall small_scalar (sampled_vector (drop 32 g) n)) by (intros n; repeat (apply Forall_cons_2; [apply sampled_small|]); constructor).
  exists (sampled_vector (drop 32 g) 0), (sampled_vector (drop 32 g) 3). split; [apply Hsm|]. split; [apply Hsm|]. split; [exact Hk|].
  unfold KYBER_public_from_private. pose proof (valid_public _ _ _ Hk) as Hp. pose proof (length_ciphertext _ message (coins_of (key_pub priv) message) Hp (proj1 Hmessage)) as Hc.
  eexists _, _. split; [exact (encap_spec _ message Hp (valid_hash _ _ _ Hk) Hmessage)|]. split; [exact Hc|]. split; [apply sponge_block|].
  intros Hq. pose proof (decrypt_honest priv _ _ message _ Hk (proj1 Hmessage) (proj2 Hmessage) Hq) as Hd.
  etrans; [exact (decap_spec priv _ _ _ message Hk Hc Hd Hmessage)|]. by rewrite bool_decide_eq_true_2 by reflexivity.
Qed.

(** C4: implicit rejection.  Decapsulating any 1088 bytes with a good key never
    fails: the ciphertext decrypts to some 32-byte message, and the result is
    the secret that encapsulating this message gives when that gives this very
    ciphertext, and the hash of the key's failure secret and the ciphertext
    otherwise.  The comparison and the selection without branches are exact. *)
Theorem KYBER_decap_rejects (priv : private_key) (s e : vector) (ct : list Z) (Hkey : valid_key priv s e) (Hct : block KYBER_CIPHERTEXT_BYTES ct) :
  ∃ message, block 32 message ∧ decrypt_cpa priv ct = Some message ∧
    KYBER_decap ct priv =
      match KYBER_encap_external_entropy (key_pub priv) message with
      | Some (ct', ss) => if bool_decide (ct = ct') then Some ss else kdf KYBER_SHARED_SECRET_BYTES (fo_failure_secret priv ++ H_ ct)
      | None => None
      end.
Proof.
  destruct (decrypt_cpa_total priv s ct (valid_s _ _ _ Hkey) (valid_key_s _ _ _ Hkey) (proj2 Hct) (proj1 Hct)) as (us & vs & _ & _ & _ & _ & Hd).
  exists (message_of s us vs). pose proof (encode_1_block (scalar_compress (poly_sub (scalar_decompress vs kDV)
    (sum_products (entry s) (λ i, scalar_decompress (entry us i) kDU))) 1)) as Hm. fold (message_of s us vs) in Hm.
  split; [exact Hm|]. split; [exact Hd|]. rewrite (decap_spec priv s e ct _ Hkey Hct Hd Hm).
  rewrite (encap_spec _ _ (valid_public _ _ _ Hkey) (valid_hash _ _ _ Hkey) Hm).
  set (m := message_of s us vs) in *. clearbody m. destruct (bool_decide (ct = reencrypted (key_pub priv) m)) eqn:E.
  - apply bool_decide_eq_true in E as <-. reflexivity.
  - symmetry. apply kdf_spec. apply Forall_app_2; [apply (valid_secret _ _ _ Hkey)|apply sponge_bytes].
Qed.
End kem.

Lemma zero_matrix_ok : matrix_ok (replicate RANK vector_zero).
Proof. split; [reflexivity|]. apply Forall_replicate. exact vector_zero_ok. Qed.

Lemma KYBER_correct_witness :
  match KYBER_generate_key_external_entropy (A := zero_allocator) 4 (replicate 64 0) with
  | None => matrix_expand 4 (take 32 (G_ (take 32 (replicate 64 0)))) = None
  | Some (encoded, priv) =>
      let pub := KYBER_public_from_private priv in
      encoded = public_bytes (key_t pub) (key_rho pub) ∧ length encoded = KYBER_PUBLIC_KEY_BYTES ∧
      ∃ s e, Forall small_scalar s ∧ Forall small_scalar e ∧ valid_key priv s e ∧
        ∃ ct ss, KYBER_encap_external_entropy pub (replicate 32 0) = Some (ct, ss) ∧
          block KYBER_CIPHERTEXT_BYTES ct ∧ block KYBER_SHARED_SECRET_BYTES ss ∧
          (forallb quiet (noise_of priv s e (replicate 32 0) (coins_of pub (replicate 32 0))) = true → KYBER_decap ct priv = Some ss)
  end.
Proof. exact (KYBER_correct (A := zero_allocator) 4 (replicate 64 0) (replicate 32 0) (zero_block 64) (zero_block 32)). Defined.

Lemma KYBER_decap_rejects_witness :
  let z := replicate 32 0 in
  let priv := (generated (replicate RANK vector_zero) z z z).2 in
  let ct := replicate 1088 0 in
  ∃ message, block 32 message ∧ decrypt_cpa priv ct = Some message ∧
    KYBER_decap ct priv =
      match KYBER_encap_external_entropy (key_pub priv) message with
      | Some (ct', ss) => if bool_decide (ct = ct') then Some ss else kdf KYBER_SHARED_SECRET_BYTES (fo_failure_secret priv ++ H_ ct)
      | None => None
      end.
Proof.
  exact (KYBER_decap_rejects _ _ _ _ (generated_valid _ _ _ _ zero_matrix_ok (zero_block 32) (zero_block 32)) (zero_block 1088)).
Defined.
