(* ===== verification/Aead.v ===== *)
(** The AEAD interface, [crypto/fipsmodule/cipher/aead.c.inc]: the dispatch
    through the table of an algorithm, the checks on lengths and aliasing, and
    the clearing of the output on failure.

    A caller's buffer is a [region]: its address, which only the alias checks
    look at, and its bytes.  [None] is undefined behaviour. *)
From S2P Require Import Prelude Mem Cbs.

Record region := mkRegion { addr : Z; bytes : list Z }.

Definition buffers_alias (a a_bytes b b_bytes : Z) : bool := (b <? a ⊞[64] a_bytes) && (a <? b ⊞[64] b_bytes).
Definition check_alias (inp in_len out out_len : Z) : bool :=
  if negb (buffers_alias inp in_len out out_len) then true else inp =? out.

Inductive evp_aead_direction_t := evp_aead_open | evp_aead_seal.

(** The table of an algorithm with key state [C].  The functions take the
    fields of the context they use, the state and [tag_len]; [None] is a return
    of 0.  [open_gather] also says what it has written. *)
Record EVP_AEAD (C : Type) := mkAEAD {
  key_len : Z;
  nonce_len : Z;
  overhead : Z;
  max_tag_len : Z;
  seal_scatter_supports_extra_in : bool;
  (** key, tag_len *)
  init : option (list Z → Z → option (C * Z));
  init_with_direction : option (list Z → Z → evp_aead_direction_t → option (C * Z));
  cleanup : C → C;
  (** max_out_len, nonce, in, ad *)
  open : option (C → Z → Z → list Z → list Z → list Z → option (list Z));
  (** max_out_tag_len, nonce, in, extra_in, ad; the bytes at [out] and at [out_tag] *)
  seal_scatter : C → Z → Z → list Z → list Z → list Z → list Z → option (list Z * list Z);
  (** nonce, in, in_tag, ad *)
  open_gather : option (C → Z → list Z → list Z → list Z → list Z → bool * option (list Z));
  get_iv : option (C → option (list Z));
  get_tag_len : option (C → Z → Z → Z);
}.
Arguments mkAEAD {C}. Arguments key_len {C}. Arguments nonce_len {C}. Arguments overhead {C}. Arguments max_tag_len {C}.
Arguments seal_scatter_supports_extra_in {C}. Arguments init {C}. Arguments init_with_direction {C}. Arguments cleanup {C}. Arguments open {C}.
Arguments seal_scatter {C}. Arguments open_gather {C}. Arguments get_iv {C}. Arguments get_tag_len {C}.

Section ctx.
Context {C : Type}.
Implicit Types a : EVP_AEAD C.

Definition EVP_AEAD_key_length a : Z := key_len a.
Definition EVP_AEAD_nonce_length a : Z := nonce_len a.
Definition EVP_AEAD_max_overhead a : Z := overhead a.
Definition EVP_AEAD_max_tag_len a : Z := max_tag_len a.

(** A context whose [aead] is NULL is not initialised. *)
Record EVP_AEAD_CTX := mkCtx { aead : option (EVP_AEAD C); state : option C; tag_len : Z }.

Definition EVP_AEAD_CTX_zero : EVP_AEAD_CTX := mkCtx None None 0.
Definition no_aead (ctx : EVP_AEAD_CTX) : EVP_AEAD_CTX := mkCtx None (state ctx) (tag_len ctx).

Definition EVP_AEAD_CTX_init_with_direction (ctx : EVP_AEAD_CTX) a (key : list Z) (tag_len : Z) (dir : evp_aead_direction_t)
    : option (bool * EVP_AEAD_CTX) :=
  if negb (CBS_len key =? key_len a) then Some (false, no_aead ctx)
  else
    ok ← (match init a with
          | Some f => Some (f key tag_len)
          | None => f ← init_with_direction a; Some (f key tag_len dir)
          end);
    Some (match ok with
          | Some (st, tag_len) => (true, mkCtx (Some a) (Some st) tag_len)
          | None => (false, no_aead ctx)
          end).

Definition EVP_AEAD_CTX_init (ctx : EVP_AEAD_CTX) a (key : list Z) (tag_len : Z) : option (bool * EVP_AEAD_CTX) :=
  match init a with
  | None => Some (false, no_aead ctx)
  | Some _ => EVP_AEAD_CTX_init_with_direction ctx a key tag_len evp_aead_open
  end.

Definition EVP_AEAD_CTX_cleanup (ctx : EVP_AEAD_CTX) : EVP_AEAD_CTX :=
  match aead ctx with
  | None => ctx
  | Some a => no_aead (mkCtx (aead ctx) (cleanup a <$> state ctx) (tag_len ctx))
  end.

(** The new context, or NULL.  The block is cleared before it is compared with
    NULL. *)
Definition EVP_AEAD_CTX_new {A : Allocator} (clock : nat) (sizeof_ctx : Z) a (key : list Z) (tag_len : Z) : option (option EVP_AEAD_CTX) :=
  match OPENSSL_malloc clock sizeof_ctx with
  | None => None
  | Some _ => '(ok, ctx) ← EVP_AEAD_CTX_init EVP_AEAD_CTX_zero a key tag_len; Some (if ok : bool then Some ctx else None)
  end.

(** Without memory the NULL is dereferenced. *)
Lemma EVP_AEAD_CTX_new_no_memory {A : Allocator} clock sizeof_ctx a key tag_len :
  OPENSSL_malloc clock sizeof_ctx = None → EVP_AEAD_CTX_new clock sizeof_ctx a key tag_len = None.
Proof. unfold EVP_AEAD_CTX_new. by intros ->. Qed.

(** [OPENSSL_memset(out, 0, max_out_len)] *)
Definition clear (l : list Z) : list Z := replicate (length l) 0.
(** The buffer after [w] has been written at its start. *)
Definition overwrite (w l : list Z) : list Z := w ++ drop (length w) l.

(** The return value, the bytes of [out] and [*out_len]. *)
Definition EVP_AEAD_CTX_seal (ctx : EVP_AEAD_CTX) (out : region) (nonce : list Z) (inp : region) (ad : list Z) : option (bool * list Z * Z) :=
  a ← aead ctx;
  st ← state ctx;
  let in_len := CBS_len (bytes inp) in
  let max_out_len := CBS_len (bytes out) in
  let error := Some (false, clear (bytes out), 0) in
  if in_len ⊞[64] overhead a <? in_len then error
  else if max_out_len <? in_len then error
  else if negb (check_alias (addr inp) in_len (addr out) max_out_len) then error
  else
    match seal_scatter a st (tag_len ctx) (max_out_len - in_len) nonce (bytes inp) [] ad with
    | Some (c, t) => Some (true, overwrite (c ++ t) (bytes out), in_len + CBS_len t)
    | None => error
    end.

(** The return value, the bytes of [out] and of [out_tag], and [*out_tag_len]. *)
Definition EVP_AEAD_CTX_seal_scatter (ctx : EVP_AEAD_CTX) (out out_tag : region) (nonce : list Z) (inp : region) (extra_in ad : list Z)
    : option (bool * list Z * list Z * Z) :=
  a ← aead ctx;
  st ← state ctx;
  let in_len := CBS_len (bytes inp) in
  let max_out_tag_len := CBS_len (bytes out_tag) in
  let error := Some (false, overwrite (clear (bytes inp)) (bytes out), clear (bytes out_tag), 0) in
  if negb (check_alias (addr inp) in_len (addr out) in_len) || buffers_alias (addr out) in_len (addr out_tag) max_out_tag_len
     || buffers_alias (addr inp) in_len (addr out_tag) max_out_tag_len then error
  else if negb (seal_scatter_supports_extra_in a) && negb (CBS_len extra_in =? 0) then error
  else
    match seal_scatter a st (tag_len ctx) max_out_tag_len nonce (bytes inp) extra_in ad with
    | Some (c, t) => Some (true, overwrite c (bytes out), overwrite t (bytes out_tag), CBS_len t)
    | None => error
    end.

Definition EVP_AEAD_CTX_open_gather (ctx : EVP_AEAD_CTX) (out : region) (nonce : list Z) (inp : region) (in_tag ad : list Z)
    : option (bool * list Z) :=
  a ← aead ctx;
  st ← state ctx;
  let in_len := CBS_len (bytes inp) in
  let error := Some (false, overwrite (clear (bytes inp)) (bytes out)) in
  if negb (check_alias (addr inp) in_len (addr out) in_len) then error
  else
    match open_gather a with
    | None => error
    | Some open_gather =>
        match open_gather st (tag_len ctx) nonce (bytes inp) in_tag ad with
        | (true, p) => Some (true, match p with Some p => overwrite p (bytes out) | None => bytes out end)
        | (false, _) => error
        end
    end.

Definition EVP_AEAD_CTX_open (ctx : EVP_AEAD_CTX) (out : region) (nonce : list Z) (inp : region) (ad : list Z) : option (bool * list Z * Z) :=
  a ← aead ctx;
  st ← state ctx;
  let in_len := CBS_len (bytes inp) in
  let max_out_len := CBS_len (bytes out) in
  let error := Some (false, clear (bytes out), 0) in
  if negb (check_alias (addr inp) in_len (addr out) max_out_len) then error
  else
    match open a with
    | Some open =>
        match open st (tag_len ctx) max_out_len nonce (bytes inp) ad with
        | Some p => Some (true, overwrite p (bytes out), CBS_len p)
        | None => error
        end
    | None =>
        if in_len <? tag_len ctx then error
        else
          let plaintext_len := in_len - tag_len ctx in
          if max_out_len <? plaintext_len then error
          else
            '(ok, o) ← EVP_AEAD_CTX_open_gather ctx out nonce (mkRegion (addr inp) (take (Z.to_nat plaintext_len) (bytes inp)))
                         (drop (Z.to_nat plaintext_len) (bytes inp)) ad;
            if ok : bool then Some (true, o, plaintext_len) else error
    end.

Definition EVP_AEAD_CTX_aead (ctx : EVP_AEAD_CTX) : option (EVP_AEAD C) := aead ctx.
Definition EVP_AEAD_CTX_get_iv (ctx : EVP_AEAD_CTX) : option (option (list Z)) :=
  a ← aead ctx;
  match get_iv a with
  | None => Some None
  | Some f => st ← state ctx; Some (f st)
  end.
(** The return value and [*out_tag_len]. *)
Definition EVP_AEAD_CTX_tag_len (ctx : EVP_AEAD_CTX) (in_len extra_in_len : Z) : option (bool * Z) :=
  a ← aead ctx;
  match get_tag_len a with
  | Some f => st ← state ctx; Some (true, f st in_len extra_in_len)
  | None =>
      if extra_in_len ⊞[64] tag_len ctx <? extra_in_len then Some (false, 0)
      else Some (true, extra_in_len ⊞[64] tag_len ctx)
  end.
End ctx.
Arguments EVP_AEAD_CTX : clear implicits.

(** ** What an algorithm promises

    [good st n] holds of the states and tag lengths that [init] gives, and an
    input of [limit] bytes is too long. *)
Class AeadLaws {C} (a : EVP_AEAD C) (good : C → Z → Prop) (limit : Z) := {
  law_init : ∀ f key n st m, 0 <= n → init a = Some f → f key n = Some (st, m) → good st m;
  law_overhead : 0 <= overhead a < 2 ^ 8;
  law_limit : limit <= 2 ^ 63;
  law_tag : ∀ st n, good st n → 0 < n <= overhead a;
  law_no_open : open a = None;
  (** sealing gives as many bytes as the input has, and the extra input and a
      tag that fit *)
  law_seal_length : ∀ st n room nonce inp extra ad c t, good st n → CBS_len extra < 2 ^ 63 → seal_scatter a st n room nonce inp extra ad = Some (c, t) →
    CBS_len c = CBS_len inp ∧ CBS_len t = CBS_len extra + n ∧ CBS_len t <= room;
  law_seal_some : ∀ st n room nonce inp ad, good st n →
    is_Some (seal_scatter a st n room nonce inp [] ad) ↔ n <= room ∧ CBS_len nonce = nonce_len a ∧ CBS_len inp < limit;
  (** opening inverts sealing, and nothing else opens *)
  law_open_gather : ∃ f, open_gather a = Some f ∧ ∀ st n nonce c t ad p, good st n →
    f st n nonce c t ad = (true, Some p) ↔ ∃ room, seal_scatter a st n room nonce p [] ad = Some (c, t);
  law_written : ∀ f st n nonce c t ad p, good st n → open_gather a = Some f → f st n nonce c t ad = (true, p) → is_Some p;
}.

Section client.
Context {C : Type} (a : EVP_AEAD C) (good : C → Z → Prop) (limit : Z) {L : AeadLaws a good limit}.

(** A context of the algorithm. *)
Definition ctx_ok (ctx : EVP_AEAD_CTX C) : Prop :=
  aead ctx = Some a ∧ ∃ st, state ctx = Some st ∧ good st (tag_len ctx).

(** The buffers are apart or the same. *)
Definition apart (inp out : region) : Prop := check_alias (addr inp) (CBS_len (bytes inp)) (addr out) (CBS_len (bytes out)) = true.

Lemma len_take n (l : list Z) : 0 <= n <= CBS_len l → CBS_len (take (Z.to_nat n) l) = n.
Proof. unfold CBS_len. intros H. rewrite length_take. lia. Qed.

(** Regions that do not wrap around the address space. *)
Definition region_ok (r : region) : Prop := 0 <= addr r ∧ addr r + CBS_len (bytes r) < 2 ^ 64.

Lemma alias_within x y n m n' m' : 0 <= x → 0 <= y → 0 <= n <= n' → 0 <= m <= m' → x + n' < 2 ^ 64 → y + m' < 2 ^ 64 →
  check_alias x n' y m' = true → check_alias x n y m = true.
Proof.
  intros Hx Hy Hn Hm Hx' Hy'. unfold check_alias, buffers_alias. rewrite !wrap_small by lia.
  destruct (Z.eqb_spec x y); [by repeat case_match|].
  destruct (Z.ltb_spec y (x + n')), (Z.ltb_spec x (y + m')), (Z.ltb_spec y (x + n)), (Z.ltb_spec x (y + m)); cbn; done || lia.
Qed.

(** Opening with the table. *)
Lemma open_spec ctx st f out nonce inp ad : aead ctx = Some a → state ctx = Some st → open_gather a = Some f → good st (tag_len ctx) →
  region_ok inp → region_ok out → apart inp out →
  let n := CBS_len (bytes inp) - tag_len ctx in
  EVP_AEAD_CTX_open ctx out nonce inp ad =
    if (n <? 0) || (CBS_len (bytes out) <? n) then Some (false, clear (bytes out), 0)
    else match f st (tag_len ctx) nonce (take (Z.to_nat n) (bytes inp)) (drop (Z.to_nat n) (bytes inp)) ad with
         | (true, Some p) => Some (true, overwrite p (bytes out), n)
         | (true, None) => Some (true, bytes out, n)
         | (false, _) => Some (false, clear (bytes out), 0)
         end.
Proof using L.
  intros Ea Es Ef Hg [Hi Hi'] [Ho Ho'] Hap. cbv zeta. unfold EVP_AEAD_CTX_open. rewrite Ea, Es. cbn [mbind option_bind]. unfold apart in Hap. rewrite Hap.
  cbn [negb]. rewrite law_no_open. set (n := CBS_len (bytes inp) - tag_len ctx). pose proof (law_tag _ _ Hg) as Ht.
  destruct (Z.ltb_spec (CBS_len (bytes inp)) (tag_len ctx)), (Z.ltb_spec n 0); try lia; [done|]. cbn [orb].
  destruct (Z.ltb_spec (CBS_len (bytes out)) n) as [|Hroom]; [done|].
  unfold EVP_AEAD_CTX_open_gather. rewrite Ea, Es. cbn [mbind option_bind addr bytes]. rewrite Ef, len_take by lia.
  rewrite (alias_within (addr inp) (addr out) n n (CBS_len (bytes inp)) (CBS_len (bytes out))) by (lia || exact Hap). cbn [negb].
  by destruct (f _ _ _ _ _ _) as [[] [p|]].
Qed.

Lemma seal_length {st n room nonce inp ad c t} : good st n → seal_scatter a st n room nonce inp [] ad = Some (c, t) →
  CBS_len c = CBS_len inp ∧ CBS_len t = n ∧ CBS_len t <= room.
Proof using L.
  intros Hg E. assert (H0 : CBS_len [] < 2 ^ 63) by done.
  destruct (law_seal_length _ _ _ _ _ _ _ _ _ Hg H0 E) as (? & Lt & ?). change (CBS_len []) with 0 in Lt. lia.
Qed.

(** The calls of [EVP_AEAD_CTX_seal] that succeed. *)
Definition seal_allowed (n : Z) (out inp : region) (nonce : list Z) : bool :=
  (CBS_len (bytes inp) + n <=? CBS_len (bytes out)) && (CBS_len nonce =? nonce_len a) && (CBS_len (bytes inp) <? limit)
  && check_alias (addr inp) (CBS_len (bytes inp)) (addr out) (CBS_len (bytes out)).

Lemma seal_spec ctx st out inp nonce ad : aead ctx = Some a → state ctx = Some st → good st (tag_len ctx) → region_ok out → region_ok inp →
  EVP_AEAD_CTX_seal ctx out nonce inp ad =
    if seal_allowed (tag_len ctx) out inp nonce then
      match seal_scatter a st (tag_len ctx) (CBS_len (bytes out) - CBS_len (bytes inp)) nonce (bytes inp) [] ad with
      | Some (c, t) => Some (true, overwrite (c ++ t) (bytes out), CBS_len (bytes inp) + tag_len ctx)
      | None => None
      end
    else Some (false, clear (bytes out), 0).
Proof using L.
  intros Ea Es Hg [] []. unfold EVP_AEAD_CTX_seal. rewrite Ea, Es. cbn [mbind option_bind]. cbv zeta. unfold seal_allowed.
  pose proof law_overhead. pose proof law_limit. pose proof (law_tag _ _ Hg). pose proof (CBS_len_nonneg (bytes inp)).
  pose proof (law_seal_some st (tag_len ctx) (CBS_len (bytes out) - CBS_len (bytes inp)) nonce (bytes inp) ad Hg) as Hs.
  destruct (seal_scatter a st _ _ _ _ _ _) as [[c t]|] eqn:E.
  - destruct (proj1 Hs (ex_intro _ _ eq_refl)) as (? & Hn & ?). destruct (seal_length Hg E) as (_ & Lt & _).
    rewrite Lt, wrap_small, Hn, Z.eqb_refl by lia.
    destruct (Z.ltb_spec (CBS_len (bytes inp) + overhead a) (CBS_len (bytes inp))); [lia|].
    destruct (Z.ltb_spec (CBS_len (bytes out)) (CBS_len (bytes inp))); [lia|].
    destruct (Z.leb_spec (CBS_len (bytes inp) + tag_len ctx) (CBS_len (bytes out))); [|lia].
    destruct (Z.ltb_spec (CBS_len (bytes inp)) limit); [|lia]. cbn [andb]. by destruct (check_alias _ _ _ _).
  - destruct (_ && _ && _ && _) eqn:Eal; [|by repeat case_match].
    exfalso. rewrite !andb_true_iff, Z.leb_le, Z.eqb_eq, Z.ltb_lt in Eal. destruct Eal as [[[? Hn] ?] _].
    by destruct (proj2 Hs) as [r Hr]; [split; [lia|done]|].
Qed.

(** What [EVP_AEAD_CTX_seal] has written opens, with the same nonce and
    additional data, into any buffer with room for it. *)
Lemma seal_then_open ctx out out' inp nonce ad : ctx_ok ctx → region_ok out → region_ok out' → region_ok inp →
  ∃ ok o n, EVP_AEAD_CTX_seal ctx out nonce inp ad = Some (ok, o, n) ∧ ok = seal_allowed (tag_len ctx) out inp nonce ∧
    if ok : bool then
      n = CBS_len (bytes inp) + tag_len ctx ∧
      (let sealed := mkRegion (addr out) (take (Z.to_nat n) o) in
       apart sealed out' → CBS_len (bytes inp) <= CBS_len (bytes out') →
       EVP_AEAD_CTX_open ctx out' nonce sealed ad = Some (true, overwrite (bytes inp) (bytes out'), CBS_len (bytes inp)))
    else o = clear (bytes out) ∧ n = 0.
Proof using L.
  intros (Ea & st & Es & Hg) Hout Hout' Hinp. destruct law_open_gather as (f & Ef & Hf). pose proof (law_tag _ _ Hg) as Ht.
  rewrite (seal_spec ctx st) by done. destruct (seal_allowed _ _ _ _) eqn:Eal; [|by eexists _, _, _].
  unfold seal_allowed in Eal. rewrite !andb_true_iff, Z.leb_le, Z.eqb_eq, Z.ltb_lt in Eal. destruct Eal as [[[Hroom Hn] Hlim] _].
  destruct (proj2 (law_seal_some st (tag_len ctx) (CBS_len (bytes out) - CBS_len (bytes inp)) nonce (bytes inp) ad Hg)) as [[c t] Esc]; [split; [lia|done]|].
  destruct (seal_length Hg Esc) as (Lc & Lt & _).
  rewrite Esc. eexists _, _, _. split; [done|]. split; [done|]. split; [done|]. intros sealed Hap Hr'.
  pose proof (CBS_len_nonneg (bytes inp)) as Hnn.
  assert (Eb : bytes sealed = c ++ t).
  { unfold sealed. cbn [bytes]. unfold overwrite. rewrite take_app_length'; [done|]. unfold CBS_len in *. rewrite length_app. lia. }
  assert (Hsl : CBS_len (bytes sealed) = CBS_len (bytes inp) + tag_len ctx) by (rewrite Eb, CBS_len_app; lia).
  rewrite (open_spec ctx st f out' nonce sealed ad Ea Es Ef Hg); [|by destruct Hout; split; [|rewrite Hsl; unfold sealed; cbn [addr]; lia]|done|done].
  cbv zeta. rewrite Hsl. replace (CBS_len (bytes inp) + tag_len ctx - tag_len ctx) with (CBS_len (bytes inp)) by ring.
  destruct (Z.ltb_spec (CBS_len (bytes inp)) 0); [lia|]. destruct (Z.ltb_spec (CBS_len (bytes out')) (CBS_len (bytes inp))); [lia|].
  cbn [orb]. rewrite Eb, <- Lc. unfold CBS_len at 1 2. rewrite Nat2Z.id, take_app_length, drop_app_length.
  by rewrite (proj2 (Hf st (tag_len ctx) nonce c t ad (bytes inp) Hg)) by eauto.
Qed.

(** [EVP_AEAD_CTX_open] returns 1 only on a sealing of what it returns, and
    leaves zeros otherwise. *)
Lemma open_only_sealed ctx out inp nonce ad : ctx_ok ctx → region_ok out → region_ok inp →
  ∃ ok o n, EVP_AEAD_CTX_open ctx out nonce inp ad = Some (ok, o, n) ∧
    if ok : bool then ∃ p st c t room, o = overwrite p (bytes out) ∧ n = CBS_len p ∧ state ctx = Some st ∧ bytes inp = c ++ t ∧
      seal_scatter a st (tag_len ctx) room nonce p [] ad = Some (c, t)
    else o = clear (bytes out) ∧ n = 0.
Proof using L.
  intros (Ea & st & Es & Hg) Hout Hinp. destruct law_open_gather as (f & Ef & Hf). pose proof (law_tag _ _ Hg) as Ht.
  destruct (check_alias (addr inp) (CBS_len (bytes inp)) (addr out) (CBS_len (bytes out))) eqn:Hap.
  2: { exists false, (clear (bytes out)), 0. split; [|done]. unfold EVP_AEAD_CTX_open. rewrite Ea, Es. cbn [mbind option_bind]. by rewrite Hap. }
  rewrite (open_spec ctx st f out nonce inp ad Ea Es Ef Hg Hinp Hout Hap). cbv zeta. set (n := CBS_len (bytes inp) - tag_len ctx).
  destruct (Z.ltb_spec n 0); [by eexists _, _, _|]. destruct (Z.ltb_spec (CBS_len (bytes out)) n); [by eexists _, _, _|]. cbn [orb].
  destruct (f st (tag_len ctx) nonce (take (Z.to_nat n) (bytes inp)) (drop (Z.to_nat n) (bytes inp)) ad) as [[] p] eqn:E; [|by eexists _, _, _].
  destruct (law_written _ _ _ _ _ _ _ _ Hg Ef E) as [q ->]. eexists _, _, _. split; [done|]. cbn beta iota.
  destruct (proj1 (Hf _ _ _ _ _ _ _ Hg) E) as [room Esc]. exists q, st, (take (Z.to_nat n) (bytes inp)), (drop (Z.to_nat n) (bytes inp)), room.
  destruct (seal_length Hg Esc) as (Lc & _). rewrite len_take in Lc by (unfold n in *; lia).
  split; [done|]. split; [done|]. split; [done|]. split; [by rewrite take_drop|done].
Qed.
End client.
