(* ===== verification/ChachaPoly.v ===== *)
(** The AEADs of [crypto/cipher_extra/e_chacha20poly1305.c]: ChaCha20-Poly1305
    of RFC 8439 and its variant with a nonce of 24 bytes.

    The repository is built with OPENSSL_NO_ASM, so that
    [chacha20_poly1305_asm_capable] is the constant 0 and the branches that call
    the assembly code are dead: the portable branches are modelled.  The
    theorem relates them to RFC 8439, for any extra input; [ChachaAead] has the
    round trip through the AEAD interface. *)
From S2P Require Import Prelude Radix Mem Cbs CString ConstTime Words Poly1305 Chacha Aead.

Definition POLY1305_TAG_LEN : Z := 16.

(** The new state, which is the key, and the new [ctx->tag_len]. *)
Definition aead_chacha20_poly1305_init (key : list Z) (tag_len : Z) : option (list Z * Z) :=
  let tag_len := if tag_len =? 0 then POLY1305_TAG_LEN else tag_len in
  if POLY1305_TAG_LEN <? tag_len then None
  else if negb (CBS_len key =? 32) then None
  else Some (key, tag_len).

(** [for (i = 0; i < sizeof(length_bytes); i++) { length_bytes[i] = data_len; data_len >>= 8; }] *)
Fixpoint length_bytes (n : nat) (data_len : Z) : list Z :=
  match n with
  | O => []
  | S n => u8 data_len :: length_bytes n (data_len ≫ 8)
  end.
Definition poly1305_update_length (poly1305 : poly1305_state_st) (data_len : Z) : poly1305_state_st :=
  CRYPTO_poly1305_update poly1305 (length_bytes 8 data_len).

(** [if (len % 16 != 0) CRYPTO_poly1305_update(&ctx, padding, sizeof(padding) - (len % 16));] *)
Definition poly1305_pad (ctx : poly1305_state_st) (len : Z) : poly1305_state_st :=
  if negb (len mod 16 =? 0) then CRYPTO_poly1305_update ctx (replicate (Z.to_nat (16 - len mod 16)) 0) else ctx.

(** [stack] is what the stack holds where [ctx] will have its buffer. *)
Definition calc_tag (stack key nonce ad ciphertext ciphertext_extra : list Z) : list Z :=
  let poly1305_key := replicate 32 0 in
  let poly1305_key := CRYPTO_chacha_20 poly1305_key key nonce 0 in
  let ctx := CRYPTO_poly1305_init stack poly1305_key in
  let ctx := CRYPTO_poly1305_update ctx ad in
  let ctx := poly1305_pad ctx (CBS_len ad) in
  let ctx := CRYPTO_poly1305_update ctx ciphertext in
  let ctx := CRYPTO_poly1305_update ctx ciphertext_extra in
  let ciphertext_total := CBS_len ciphertext ⊞[64] CBS_len ciphertext_extra in
  let ctx := poly1305_pad ctx ciphertext_total in
  let ctx := poly1305_update_length ctx (CBS_len ad) in
  let ctx := poly1305_update_length ctx ciphertext_total in
  CRYPTO_poly1305_finish ctx.

(** [for (done = 0; done < extra_in_len; block_counter++)] with the loop inside
    it; each turn consumes a byte or more, [offset] being less than 64. *)
Fixpoint seal_extra (fuel : nat) (key nonce : list Z) (block_counter : Z) (offset : nat) (extra_in : list Z) : list Z :=
  match fuel with
  | O => []
  | S fuel =>
      if (0 <? length extra_in)%nat then
        let block := CRYPTO_chacha_20 (replicate 64 0) key nonce block_counter in
        let todo := (64 - offset)%nat in
        xor_block (take todo extra_in) (drop offset block) ++ seal_extra fuel key nonce (block_counter ⊞[32] 1) 0 (drop todo extra_in)
      else []
  end.

(** [None] is a return of 0; otherwise the bytes at [out] and at [out_tag]. *)
Definition chacha20_poly1305_seal_scatter (stack key : list Z) (max_out_tag_len : Z) (nonce inp extra_in ad : list Z) (tag_len : Z)
    : option (list Z * list Z) :=
  if CBS_len extra_in ⊞[64] tag_len <? tag_len then None
  else if max_out_tag_len <? tag_len ⊞[64] CBS_len extra_in then None
  else if negb (CBS_len nonce =? 12) then None
  else if (1 ≪ 32) * 64 - 64 <=? CBS_len inp then None
  else if max_out_tag_len <? tag_len then None
  else
    let out_extra :=
      if negb (CBS_len extra_in =? 0) then
        seal_extra (length extra_in) key nonce (u32 (1 + CBS_len inp / 64)) (Z.to_nat (CBS_len inp mod 64)) extra_in
      else [] in
    let out := CRYPTO_chacha_20 inp key nonce 1 in
    let tag := calc_tag stack key nonce ad out out_extra in
    Some (out, out_extra ++ take (Z.to_nat tag_len) tag).

(** The return value, and the bytes written at [out], if any. *)
Definition chacha20_poly1305_open_gather (stack key nonce inp in_tag ad : list Z) (tag_len : Z) : bool * option (list Z) :=
  if negb (CBS_len nonce =? 12) then (false, None)
  else if negb (CBS_len in_tag =? tag_len) then (false, None)
  else if (1 ≪ 32) * 64 - 64 <=? CBS_len inp then (false, None)
  else
    let tag := calc_tag stack key nonce ad inp [] in
    let out := CRYPTO_chacha_20 inp key nonce 1 in
    if negb (CRYPTO_memcmp tag in_tag tag_len =? 0) then (false, Some out) else (true, Some out).

Definition aead_chacha20_poly1305_seal_scatter (stack key : list Z) (tag_len max_out_tag_len : Z) (nonce inp extra_in ad : list Z)
    : option (list Z * list Z) :=
  chacha20_poly1305_seal_scatter stack key max_out_tag_len nonce inp extra_in ad tag_len.

Definition aead_chacha20_poly1305_open_gather (stack key : list Z) (tag_len : Z) (nonce inp in_tag ad : list Z) : bool * option (list Z) :=
  chacha20_poly1305_open_gather stack key nonce inp in_tag ad tag_len.

(** [memset(derived_nonce, 0, 4); memcpy(&derived_nonce[4], &nonce[16], 8);] *)
Definition derived_nonce (nonce : list Z) : list Z := replicate 4 0 ++ take 8 (drop 16 nonce).

Definition aead_xchacha20_poly1305_seal_scatter (stack key : list Z) (tag_len max_out_tag_len : Z) (nonce inp extra_in ad : list Z)
    : option (list Z * list Z) :=
  if negb (CBS_len nonce =? 24) then None
  else
    let derived_key := CRYPTO_hchacha20 key nonce in
    chacha20_poly1305_seal_scatter stack derived_key max_out_tag_len (derived_nonce nonce) inp extra_in ad tag_len.

Definition aead_xchacha20_poly1305_open_gather (stack key : list Z) (tag_len : Z) (nonce inp in_tag ad : list Z) : bool * option (list Z) :=
  if negb (CBS_len nonce =? 24) then (false, None)
  else
    let derived_key := CRYPTO_hchacha20 key nonce in
    chacha20_poly1305_open_gather stack derived_key (derived_nonce nonce) inp in_tag ad tag_len.

Definition aead_chacha20_poly1305_cleanup (ctx : list Z) : list Z := ctx.

Definition aead_chacha20_poly1305 (stack : list Z) : EVP_AEAD (list Z) :=
  mkAEAD 32 12 POLY1305_TAG_LEN POLY1305_TAG_LEN true (Some aead_chacha20_poly1305_init) None
    aead_chacha20_poly1305_cleanup None
    (aead_chacha20_poly1305_seal_scatter stack) (Some (aead_chacha20_poly1305_open_gather stack)) None None.

Definition aead_xchacha20_poly1305 (stack : list Z) : EVP_AEAD (list Z) :=
  mkAEAD 32 24 POLY1305_TAG_LEN POLY1305_TAG_LEN true (Some aead_chacha20_poly1305_init) None
    aead_chacha20_poly1305_cleanup None
    (aead_xchacha20_poly1305_seal_scatter stack) (Some (aead_xchacha20_poly1305_open_gather stack)) None None.

(** The AEAD example of RFC 8439, 2.8.2: the first bytes of the ciphertext and the tag. *)
Definition rfc_aead_key : list Z := seqZ 0x80 32.
Definition rfc_aead_nonce : list Z := [7; 0; 0; 0; 0x40; 0x41; 0x42; 0x43; 0x44; 0x45; 0x46; 0x47].
Definition rfc_aead_ad : list Z := [0x50; 0x51; 0x52; 0x53; 0xc0; 0xc1; 0xc2; 0xc3; 0xc4; 0xc5; 0xc6; 0xc7].
Definition rfc_aead_text : list Z := be_bytes 114
  0x4c616469657320616e642047656e746c656d656e206f662074686520636c617373206f66202739393a204966204920636f756c64206f6666657220796f75206f6e6c79206f6e652074697020666f7220746865206675747572652c2073756e73637265656e20776f756c642062652069742e.

Lemma rfc_aead_example :
  (λ '(c, t), (take 4 c, t)) <$> aead_chacha20_poly1305_seal_scatter (replicate 16 1) rfc_aead_key 16 16 rfc_aead_nonce rfc_aead_text [] rfc_aead_ad
  = Some ([0xd3; 0x1a; 0x8d; 0x34], be_bytes 16 0x1ae10b594f09e26a7e902ecbd0600691).
Proof. vm_compute. reflexivity. Qed.

(** ** The AEAD of RFC 8439 *)
Definition pad16 (l : list Z) : list Z := replicate ((16 - length l mod 16) mod 16) 0.
Definition rfc_stream (key nonce : list Z) : nat → list Z := rfc_block (load_words 8 key) (load_words 3 nonce) 1.
Definition rfc_otk (key nonce : list Z) : list Z := take 32 (rfc_block (load_words 8 key) (load_words 3 nonce) 0 0).
Definition mac_data (ad ct : list Z) : list Z :=
  ad ++ pad16 ad ++ ct ++ pad16 ct ++ num_to_le 8 (CBS_len ad) ++ num_to_le 8 (CBS_len ct).
(** The tag, but for the accumulators of which Poly1305 loses a carry. *)
Definition is_mac (key nonce ad ct mac : list Z) : Prop :=
  let otk := rfc_otk key nonce in
  let a := rfc_acc (rfc_r otk) (mac_data ad ct) in
  mac = rfc_tag otk (mac_data ad ct) ∨
  carry_dropped a = true ∧ mac = num_to_le 16 ((a - 2 ^ 26 + rfc_s otk) mod 2 ^ 128).

(** ** The tag does not depend on what the stack held *)
Definition same_state (st st' : poly1305_state_st) : Prop :=
  ∃ b, st' = set_buf st b (buf_used st) ∧ (buf_used st < 16)%nat ∧ length (buf st) = 16%nat ∧ length b = 16%nat ∧
    take (buf_used st) b = take (buf_used st) (buf st).

#[local] Opaque wrap mul32x32_64 Z.shiftr Z.shiftl Z.land Z.lor Z.add.
Lemma mul_add_set_buf st b n mp hi :
  poly1305_donna_mul (poly1305_add (set_buf st b n) mp hi) = set_buf (poly1305_donna_mul (poly1305_add st mp hi)) b n.
Proof. destruct st. reflexivity. Qed.
Lemma carry_set_buf st b n : poly1305_carry (set_buf st b n) = set_buf (poly1305_carry st) b n.
Proof. destruct st. reflexivity. Qed.
Lemma select_set_buf st b n : poly1305_select (set_buf st b n) = set_buf (poly1305_select st) b n.
Proof. destruct st. reflexivity. Qed.
Lemma output_set_buf st b n : poly1305_output (set_buf st b n) = poly1305_output st.
Proof. destruct st. reflexivity. Qed.
#[local] Transparent wrap mul32x32_64 Z.shiftr Z.shiftl Z.land Z.lor Z.add.

Lemma donna_16bytes_set_buf fuel st b n inp :
  poly1305_donna_16bytes fuel (set_buf st b n) inp =
  (set_buf (fst (poly1305_donna_16bytes fuel st inp)) b n, snd (poly1305_donna_16bytes fuel st inp)).
Proof.
  revert st inp. induction fuel as [|fuel IH]; intros st inp; [done|]. cbn [poly1305_donna_16bytes].
  destruct (16 <=? length inp)%nat; [|done]. by rewrite mul_add_set_buf, IH.
Qed.

Lemma poly1305_update_set_buf st b n inp : poly1305_update (set_buf st b n) inp = set_buf (poly1305_update st inp) b n.
Proof.
  unfold poly1305_update. rewrite donna_16bytes_set_buf. destruct (poly1305_donna_16bytes _ st inp) as [st1 rest]. cbn [fst snd].
  unfold poly1305_donna_atmost15bytes. destruct (length rest =? 0)%nat; [done|apply mul_add_set_buf].
Qed.

Lemma poly1305_update_buf st inp : buf (poly1305_update st inp) = buf st ∧ buf_used (poly1305_update st inp) = buf_used st.
Proof.
  assert (E : st = set_buf st (buf st) (buf_used st)) by by destruct st. rewrite E, poly1305_update_set_buf. done.
Qed.

Lemma same_init stack stack' k : length stack = 16%nat → length stack' = 16%nat →
  same_state (CRYPTO_poly1305_init stack k) (CRYPTO_poly1305_init stack' k).
Proof. intros. exists stack'. split_and!; [reflexivity|cbn; lia|done|done|reflexivity]. Qed.

(** What [CRYPTO_poly1305_update] does once the buffer is dealt with. *)
Definition after_buffer (st : poly1305_state_st) (inp : list Z) : poly1305_state_st :=
  let '(st, inp) :=
    if (16 <=? length inp)%nat then
      let todo := (length inp - length inp mod 16)%nat in
      (poly1305_update st (take todo inp), drop todo inp)
    else (st, inp) in
  if negb (length inp =? 0)%nat then set_buf st (list_inserts 0 inp (buf st)) (length inp) else st.

Lemma same_buffered st b n d : length (buf st) = 16%nat → length b = 16%nat → (n + length d < 16)%nat → take n b = take n (buf st) →
  same_state (set_buf st (list_inserts n d (buf st)) (n + length d)) (set_buf st (list_inserts n d b) (n + length d)).
Proof.
  intros Hl Hb Hlt Ht. exists (list_inserts n d b). cbn [set_buf buf buf_used]. rewrite !length_inserts.
  split_and!; [done|lia|done|done|]. rewrite !list_inserts_fit by lia. rewrite Ht, !(app_assoc (take n (buf st))).
  rewrite !take_app_length'; [done|rewrite length_app, length_take; lia..].
Qed.

Lemma same_after_buffer st b inp : length (buf st) = 16%nat → length b = 16%nat →
  same_state (after_buffer (set_buf st (buf st) 0) inp) (after_buffer (set_buf st b 0) inp).
Proof.
  intros Hl Hb.
  assert (Hlast : ∀ st b rest, length (buf st) = 16%nat → length b = 16%nat → (length rest < 16)%nat →
    same_state (if negb (length rest =? 0)%nat then set_buf st (list_inserts 0 rest (buf st)) (length rest) else set_buf st (buf st) 0)
      (if negb (length rest =? 0)%nat then set_buf st (list_inserts 0 rest b) (length rest) else set_buf st b 0)).
  { intros s c rest Hs Hc Hr. destruct (Nat.eqb_spec (length rest) 0) as [E|E]; cbn [negb].
    - exists c. split_and!; [done|cbn; lia|done..].
    - exact (same_buffered s c 0 rest Hs Hc Hr eq_refl). }
  unfold after_buffer. destruct (Nat.leb_spec 16 (length inp)) as [Hn|Hn]; cbv zeta.
  - set (todo := (length inp - length inp mod 16)%nat). rewrite !poly1305_update_set_buf.
    destruct (poly1305_update_buf st (take todo inp)) as [Eb _]. set (U := poly1305_update st _) in *. clearbody U. rewrite <- Eb.
    apply (Hlast U b); [by rewrite Eb|done|]. rewrite length_drop. unfold todo. pose proof (Nat.mod_upper_bound (length inp) 16). lia.
  - by apply (Hlast st b).
Qed.

Lemma same_update st st' inp : same_state st st' → same_state (CRYPTO_poly1305_update st inp) (CRYPTO_poly1305_update st' inp).
Proof.
  intros (b & -> & Hu & Hl & Hb & Ht). unfold CRYPTO_poly1305_update. cbn [set_buf buf_used buf].
  destruct (Nat.eqb_spec (length inp) 0); [by exists b|]. destruct (Nat.eqb_spec (buf_used st) 0) as [E|E]; cbn [negb].
  - pose proof (same_after_buffer st b inp Hl Hb) as H. rewrite E in *.
    replace (set_buf st (buf st) 0) with st in H by (destruct st; cbn in E |- *; by subst). exact H.
  - set (todo := if (length inp <? 16 - buf_used st)%nat then length inp else (16 - buf_used st)%nat).
    assert (Hlen : length (take todo inp) = todo) by (rewrite length_take; unfold todo; destruct (Nat.ltb_spec (length inp) (16 - buf_used st)); lia).
    destruct (Nat.eqb_spec (buf_used st + todo) 16) as [Ef|Ef].
    + assert (Ei : list_inserts (buf_used st) (take todo inp) (buf st) = list_inserts (buf_used st) (take todo inp) b).
      { rewrite !list_inserts_fit by lia. rewrite Ht, !(drop_ge _ (buf_used st + _)) by lia. done. }
      rewrite Ei. set (B := list_inserts (buf_used st) (take todo inp) b). rewrite Ef.
      set (s := poly1305_update (set_buf st B 16) (take 16 B)).
      assert (Es : buf s = B) by apply (poly1305_update_buf (set_buf st B 16)).
      assert (HB : length (buf s) = 16%nat) by (rewrite Es; unfold B; by rewrite length_inserts).
      exact (same_after_buffer s (buf s) (drop todo inp) HB HB).
    + assert (todo = length inp ∧ buf_used st + length inp < 16)%nat as [Et Hlt].
      { unfold todo in *. destruct (Nat.ltb_spec (length inp) (16 - buf_used st)); lia. }
      rewrite Et, drop_all. cbn [length Nat.leb Nat.eqb negb]. rewrite take_ge by lia. exact (same_buffered st b (buf_used st) inp Hl Hb Hlt Ht).
Qed.

Lemma same_finish st st' : same_state st st' → CRYPTO_poly1305_finish st = CRYPTO_poly1305_finish st'.
Proof.
  intros (b & -> & Hu & Hl & Hb & Ht). unfold CRYPTO_poly1305_finish. cbn [set_buf buf_used buf]. rewrite Ht.
  destruct (negb _); rewrite ?poly1305_update_set_buf, carry_set_buf, select_set_buf, output_set_buf; reflexivity.
Qed.

(** ** The tag *)
Lemma update_nil st : CRYPTO_poly1305_update st [] = st.
Proof. done. Qed.

Lemma length_bytes_le n x : length_bytes n x = num_to_le n x.
Proof.
  revert x. induction n as [|n IH]; intros x; [done|]. cbn [length_bytes]. rewrite IH. rewrite (num_to_le_app 1 n).
  rewrite Z.shiftr_div_pow2 by done. reflexivity.
Qed.

Lemma pad16_length l : (length (pad16 l) < 16)%nat.
Proof. unfold pad16. rewrite length_replicate. apply Nat.mod_upper_bound. lia. Qed.

Lemma poly1305_pad_spec ctx l : poly1305_pad ctx (CBS_len l) = CRYPTO_poly1305_update ctx (pad16 l).
Proof.
  unfold poly1305_pad, pad16, CBS_len. change 16 with (Z.of_nat 16). rewrite <- Nat2Z.inj_mod.
  pose proof (Nat.mod_upper_bound (length l) 16 ltac:(lia)).
  destruct (Z.eqb_spec (Z.of_nat (length l mod 16)) 0) as [E|E]; cbn [negb].
  - replace (length l mod 16)%nat with 0%nat by lia. done.
  - rewrite <- Nat2Z.inj_sub, Nat2Z.id by lia. rewrite (Nat.mod_small (16 - _)) by lia. done.
Qed.

Lemma calc_tag_pieces stack key nonce ad ct extra : CBS_len (ct ++ extra) < 2 ^ 64 →
  calc_tag stack key nonce ad ct extra =
  poly1305_tag stack (CRYPTO_chacha_20 (replicate 32 0) key nonce 0)
    [ad; pad16 ad; ct; extra; pad16 (ct ++ extra); num_to_le 8 (CBS_len ad); num_to_le 8 (CBS_len (ct ++ extra))].
Proof.
  intros Hsz. unfold calc_tag, poly1305_update_length. cbv zeta. rewrite <- CBS_len_app, wrap_small by (pose proof (CBS_len_nonneg (ct ++ extra)); lia).
  rewrite !poly1305_pad_spec, !length_bytes_le. unfold poly1305_tag. cbn [foldl]. reflexivity.
Qed.

Lemma otk_spec key nonce : CRYPTO_chacha_20 (replicate 32 0) key nonce 0 = rfc_otk key nonce.
Proof.
  rewrite chacha_20_spec by done. rewrite ctr_xor_one by (rewrite length_replicate; lia). unfold rfc_otk, xor_block.
  set (block := rfc_block _ _ _ _). assert (H : length block = 64%nat) by apply length_rfc_block. clearbody block.
  do 32 (destruct block as [|? block]; [done|]). done.
Qed.

Lemma store_u32_bytes v : bytes_ok (CRYPTO_store_u32_le v).
Proof. rewrite store_u32_num. unfold num_to_le. apply Forall_rev, (digits_be_ok 256). lia. Qed.

Lemma chacha_core_bytes input : bytes_ok (chacha_core input).
Proof.
  unfold chacha_core, store_words. generalize ((λ i, word (chacha_rounds input) i ⊞[32] word input i) <$> seq 0 16).
  intros l. induction l as [|v l IH]; [constructor|]. cbn [fmap list_fmap concat]. apply bytes_ok_cat; [apply store_u32_bytes|exact IH].
Qed.

Lemma zeros_bytes n : bytes_ok (replicate n 0).
Proof. apply Forall_replicate. lia. Qed.

Lemma num_to_le_bytes n x : bytes_ok (num_to_le n x).
Proof. unfold num_to_le. apply Forall_rev, (digits_be_ok 256). lia. Qed.

Lemma rfc_otk_ok key nonce : bytes_ok (rfc_otk key nonce) ∧ length (rfc_otk key nonce) = 32%nat.
Proof.
  unfold rfc_otk. split; [apply bytes_ok_take, chacha_core_bytes|]. rewrite length_take, length_rfc_block. done.
Qed.

(** Memory for the buffer of the struct. *)
Definition stack_ok (stack : list Z) : Prop := length stack = 16%nat ∧ bytes_ok stack.

Lemma calc_tag_stack stack stack' key nonce ad ct extra : length stack = 16%nat → length stack' = 16%nat →
  CBS_len (ct ++ extra) < 2 ^ 64 → calc_tag stack key nonce ad ct extra = calc_tag stack' key nonce ad ct extra.
Proof.
  intros Hs Hs' Hsz. rewrite !calc_tag_pieces by done. unfold poly1305_tag. apply same_finish.
  generalize (same_init stack stack' (CRYPTO_chacha_20 (replicate 32 0) key nonce 0) Hs Hs').
  generalize (CRYPTO_poly1305_init stack (CRYPTO_chacha_20 (replicate 32 0) key nonce 0))
    (CRYPTO_poly1305_init stack' (CRYPTO_chacha_20 (replicate 32 0) key nonce 0)).
  match goal with |- ∀ s s', _ → same_state (foldl _ _ ?l) _ => generalize l end.
  intros l. induction l as [|d l IH]; intros s s' H; [exact H|]. cbn [foldl]. apply IH, same_update, H.
Qed.

Lemma calc_tag_is_mac stack key nonce ad ct extra : stack_ok stack → bytes_ok ad → bytes_ok (ct ++ extra) → CBS_len (ct ++ extra) < 2 ^ 64 →
  is_mac key nonce ad (ct ++ extra) (calc_tag stack key nonce ad ct extra).
Proof.
  intros [Hs Hb] Had Hct Hsz. rewrite calc_tag_pieces, otk_spec by done. destruct (rfc_otk_ok key nonce) as [Hk Hl].
  unfold is_mac. set (otk := rfc_otk key nonce) in *. clearbody otk. apply Forall_app in Hct as [Hc He]. cbv zeta. unfold poly1305_tag.
  set (pieces := [ad; pad16 ad; ct; extra; pad16 (ct ++ extra); num_to_le 8 (CBS_len ad); num_to_le 8 (CBS_len (ct ++ extra))]).
  assert (Hp : Forall bytes_ok pieces).
  { unfold pieces, pad16. rewrite !Forall_cons. repeat split; try assumption; try apply zeros_bytes; apply num_to_le_bytes || constructor. }
  assert (Hd : concat pieces = mac_data ad (ct ++ extra)).
  { unfold pieces, mac_data. cbn [concat]. by rewrite app_nil_r, <- !app_assoc. }
  assert (Hr : poly1305_rep otk [] (CRYPTO_poly1305_init stack otk)) by (apply rep_init; [done|lia|done..]).
  apply (rep_pieces _ _ _ pieces) in Hr; [|done]. cbn [app] in Hr. rewrite Hd in Hr. clearbody pieces.
  destruct (finish_spec _ _ _ Hr Hk Hl) as (v & E & [->|[Hv ->]]); rewrite E; [by left|by right].
Qed.

Lemma calc_tag_length stack key nonce ad ct extra : length (calc_tag stack key nonce ad ct extra) = 16%nat.
Proof. unfold calc_tag, CRYPTO_poly1305_finish, poly1305_output. cbv zeta. by rewrite !length_app. Qed.

(** ** The extra input continues the key stream *)
Lemma chacha_block key nonce c i : in_range 32 c →
  CRYPTO_chacha_20 (replicate 64 0) key nonce (u32 (c + Z.of_nat i)) = rfc_block (load_words 8 key) (load_words 3 nonce) c i.
Proof.
  intros Hc. rewrite chacha_20_spec by by apply wrap_range. rewrite ctr_xor_one by (rewrite length_replicate; lia).
  rewrite rfc_block_shift, Nat.add_0_r. set (b := rfc_block _ _ _ _). assert (H : length b = 64%nat) by apply length_rfc_block.
  clearbody b. unfold xor_block. rewrite <- H. clear H. induction b as [|x b IH]; [done|]. cbn [length replicate zip_with]. by rewrite IH, Z.lxor_0_l.
Qed.

Lemma length_rfc_stream key nonce i : length (rfc_stream key nonce i) = 64%nat.
Proof. unfold rfc_stream. apply length_rfc_block. Qed.

Lemma drop_stream key nonce q a : drop (length a) (ctr_xor (λ i, rfc_stream key nonce (q + i)) (a ++ [])) = [].
Proof. apply drop_ge. rewrite (length_ctr_xor _ (λ i, length_rfc_stream _ _ _)), app_nil_r. done. Qed.

Lemma seal_extra_nil fuel key nonce c o : seal_extra fuel key nonce c o [] = [].
Proof. by destruct fuel. Qed.

Lemma seal_extra_spec fuel key nonce q a e : (length e ≤ fuel)%nat → (length a < 64)%nat →
  seal_extra fuel key nonce (u32 (1 + Z.of_nat q)) (length a) e =
  drop (length a) (ctr_xor (λ i, rfc_stream key nonce (q + i)%nat) (a ++ e)).
Proof.
  revert q a e. induction fuel as [|fuel IH]; intros q a e Hf Ha.
  { destruct e; [|cbn in Hf; lia]. by rewrite drop_stream. }
  cbn [seal_extra]. destruct (Nat.ltb_spec 0 (length e)) as [Hn|Hn].
  2: { destruct e; [|cbn in Hn; lia]. by rewrite drop_stream. }
  rewrite chacha_block by done. fold (rfc_stream key nonce).
  assert (Hnext : u32 (1 + Z.of_nat q) ⊞[32] 1 = u32 (1 + Z.of_nat (q + 1))).
  { unfold wrap. rewrite Z.add_mod_idemp_l by done. f_equal. lia. }
  rewrite Hnext. pose proof (length_rfc_stream key nonce) as Hb.
  destruct (decide (length a + length e ≤ 64)%nat) as [Hle|Hgt].
  - rewrite take_ge, (drop_ge e) by lia. rewrite ctr_xor_one by (rewrite length_app; lia).
    unfold xor_block. rewrite Nat.add_0_r, zip_with_drop, drop_app_length. by rewrite seal_extra_nil, app_nil_r.
  - rewrite <- (take_drop (64 - length a) e) at 3. rewrite app_assoc.
    assert (Hl : length (a ++ take (64 - length a) e) = 64%nat) by (rewrite length_app, length_take; lia).
    rewrite (ctr_xor_app _ (λ i, Hb _) 1) by done. rewrite ctr_xor_one by (rewrite Hl; lia).
    rewrite drop_app_le by (unfold xor_block; rewrite length_zip_with, Hl, Nat.add_0_r, Hb; lia).
    unfold xor_block. rewrite Nat.add_0_r, zip_with_drop, drop_app_length. f_equal.
    pose proof (IH (q + 1)%nat [] (drop (64 - length a) e)) as E. cbn [length app] in E.
    rewrite drop_0 in E. rewrite E by (rewrite ?length_drop; lia). apply ctr_xor_ext.
    intros i. exact (f_equal (rfc_stream key nonce) (eq_sym (Nat.add_assoc q 1 i))).
Qed.

(** ** Results *)
Lemma ctr_xor_bytes key nonce l : bytes_ok l → bytes_ok (ctr_xor (rfc_stream key nonce) l).
Proof.
  unfold ctr_xor, keystream, xor_block. intros Hl.
  assert (Hk : bytes_ok (concat (rfc_stream key nonce <$> seq 0 ((length l + 63) / 64)))).
  { generalize (seq 0 ((length l + 63) / 64)). intros is'. induction is' as [|i is' IH]; [constructor|].
    cbn [fmap list_fmap concat]. apply bytes_ok_cat; [apply chacha_core_bytes|exact IH]. }
  revert Hk. generalize (concat (rfc_stream key nonce <$> seq 0 ((length l + 63) / 64))).
  induction Hl as [|x l Hx Hl IH]; intros [|y k] Hk; [constructor..|]. apply Forall_cons in Hk as [Hy Hk].
  cbn [zip_with]. constructor; [by apply (lxor_range 8)|by apply IH].
Qed.

Lemma take_ctr_xor key nonce a b : take (length a) (ctr_xor (rfc_stream key nonce) (a ++ b)) = ctr_xor (rfc_stream key nonce) a.
Proof.
  pose proof (length_rfc_stream key nonce) as Hb. unfold ctr_xor, keystream, xor_block.
  revert Hb. generalize (rfc_stream key nonce). intros s Hb. rewrite zip_with_take, take_app_length.
  assert (Hle : ((length a + 63) / 64 ≤ (length (a ++ b) + 63) / 64)%nat) by (apply Nat.Div0.div_le_mono; rewrite length_app; lia).
  replace ((length (a ++ b) + 63) / 64)%nat with ((length a + 63) / 64 + ((length (a ++ b) + 63) / 64 - (length a + 63) / 64))%nat by lia.
  rewrite seq_app, fmap_app, concat_app. pose proof (length_blocks s Hb ((length a + 63) / 64) 0) as Hl.
  pose proof (Nat.div_mod_eq (length a + 63) 64). pose proof (Nat.mod_upper_bound (length a + 63) 64).
  rewrite take_app_le by lia. apply zip_with_take_r.
Qed.

(** The extra output of sealing. *)
Lemma seal_out_extra key nonce inp extra : CBS_len inp < 2 ^ 64 →
  (if negb (CBS_len extra =? 0) then
     seal_extra (length extra) key nonce (u32 (1 + CBS_len inp / 64)) (Z.to_nat (CBS_len inp mod 64)) extra
   else []) = drop (length inp) (ctr_xor (rfc_stream key nonce) (inp ++ extra)).
Proof.
  intros Hsz. pose proof (length_rfc_stream key nonce) as Hb.
  destruct (Z.eqb_spec (CBS_len extra) 0) as [E|E]; cbn [negb].
  { destruct extra; [|done]. rewrite app_nil_r, drop_ge; [done|]. by rewrite (length_ctr_xor _ Hb). }
  unfold CBS_len. change 64 with (Z.of_nat 64). rewrite <- Nat2Z.inj_div, <- Nat2Z.inj_mod, Nat2Z.id.
  set (q := (length inp / 64)%nat). pose proof (Nat.div_mod_eq (length inp) 64) as Hdm. fold q in Hdm.
  pose proof (Nat.mod_upper_bound (length inp) 64 ltac:(lia)) as Hr.
  set (a := drop (64 * q) inp). assert (Ha : length a = (length inp mod 64)%nat) by (unfold a; rewrite length_drop; lia).
  assert (Hh : length (take (64 * q) inp) = (64 * q)%nat) by (rewrite length_take; lia).
  rewrite <- Ha, seal_extra_spec by lia. rewrite <- (take_drop (64 * q) inp) at 2. rewrite <- app_assoc. fold a.
  clearbody a. revert Hb. generalize (rfc_stream key nonce). intros s Hb.
  rewrite (ctr_xor_app s Hb q _ (a ++ extra) Hh). replace (length inp) with (64 * q + length a)%nat by lia.
  rewrite <- drop_drop, (drop_app_length' _ _ (64 * q)); [done|]. by rewrite (length_ctr_xor _ Hb).
Qed.

Lemma byte_at_take n l i : (i < n)%nat → byte_at (take n l) (Z.of_nat i) = byte_at l (Z.of_nat i).
Proof. intros H. unfold byte_at. rewrite Nat2Z.id, nth_firstn. by apply Nat.ltb_lt in H as ->. Qed.

(** [CRYPTO_memcmp] of the tag with a tag of [n] bytes. *)
Lemma tag_memcmp tag in_tag n : length tag = 16%nat → CBS_len in_tag = n → n <= 16 →
  (CRYPTO_memcmp tag in_tag n =? 0) = bool_decide (in_tag = take (Z.to_nat n) tag).
Proof.
  intros Ht <- Hn. unfold CBS_len in *. rewrite Nat2Z.id. apply Bool.eq_true_iff_eq. rewrite Z.eqb_eq, bool_decide_eq_true.
  unfold CRYPTO_memcmp. rewrite memcmp_zero. split.
  - intros [_ H]. apply byte_at_ext; [rewrite length_take; lia|]. intros i Hi. rewrite <- H by done.
    by rewrite byte_at_take.
  - intros E. split; [done|]. intros i Hi. rewrite E.
    by rewrite byte_at_take.
Qed.

Lemma limit_val : (1 ≪ 32) * 64 - 64 = 2 ^ 38 - 64.
Proof. done. Qed.

Definition seal_ok (room : Z) (nonce inp extra : list Z) (tag_len : Z) : bool :=
  (CBS_len nonce =? 12) && (CBS_len inp <? 2 ^ 38 - 64) && (tag_len + CBS_len extra <=? room).
Definition open_ok (nonce inp in_tag : list Z) (tag_len : Z) : bool :=
  (CBS_len nonce =? 12) && (CBS_len in_tag =? tag_len) && (CBS_len inp <? 2 ^ 38 - 64).

(** Sealing, with the tag as the code computes it. *)
Lemma seal_scatter_eq stack key room nonce inp extra ad n : 0 < n <= 16 → CBS_len extra + n < 2 ^ 64 →
  chacha20_poly1305_seal_scatter stack key room nonce inp extra ad n =
  if seal_ok room nonce inp extra n then
    let ct := ctr_xor (rfc_stream key nonce) (inp ++ extra) in
    Some (take (length inp) ct, drop (length inp) ct ++
      take (Z.to_nat n) (calc_tag stack key nonce ad (take (length inp) ct) (drop (length inp) ct)))
  else None.
Proof.
  intros Hn Hsz. pose proof (CBS_len_nonneg inp). pose proof (CBS_len_nonneg extra).
  unfold chacha20_poly1305_seal_scatter, seal_ok. rewrite limit_val, (Z.add_comm (CBS_len extra)), wrap_small by lia.
  destruct (Z.ltb_spec (n + CBS_len extra) n); [lia|].
  destruct (Z.ltb_spec room (n + CBS_len extra)), (Z.leb_spec (n + CBS_len extra) room); try lia; [by rewrite andb_false_r|].
  destruct (CBS_len nonce =? 12); cbn [negb andb]; [|done].
  destruct (Z.leb_spec (2 ^ 38 - 64) (CBS_len inp)), (Z.ltb_spec (CBS_len inp) (2 ^ 38 - 64)); try lia; [done|]. cbn [andb].
  destruct (Z.ltb_spec room n); [lia|]. rewrite seal_out_extra by lia. rewrite chacha_20_spec by done. fold (rfc_stream key nonce).
  cbv zeta. by rewrite take_ctr_xor.
Qed.

Lemma open_gather_eq stack key nonce inp in_tag ad n :0 < n <= 16 →
  chacha20_poly1305_open_gather stack key nonce inp in_tag ad n =
  if open_ok nonce inp in_tag n then
    (bool_decide (in_tag = take (Z.to_nat n) (calc_tag stack key nonce ad inp [])), Some (ctr_xor (rfc_stream key nonce) inp))
  else (false, None).
Proof.
  intros Hn. unfold chacha20_poly1305_open_gather, open_ok. rewrite limit_val.
  destruct (CBS_len nonce =? 12); cbn [negb andb]; [|done]. destruct (Z.eqb_spec (CBS_len in_tag) n); cbn [negb andb]; [|done].
  destruct (Z.leb_spec (2 ^ 38 - 64) (CBS_len inp)), (Z.ltb_spec (CBS_len inp) (2 ^ 38 - 64)); try lia; [done|].
  rewrite tag_memcmp by (done || lia || apply calc_tag_length). rewrite chacha_20_spec by done. fold (rfc_stream key nonce). by destruct (bool_decide _).
Qed.

Lemma open_inverts stack key nonce n c t ad p : 0 < n <= 16 →
  chacha20_poly1305_open_gather stack key nonce c t ad n = (true, Some p) ↔
  ∃ room, chacha20_poly1305_seal_scatter stack key room nonce p [] ad n = Some (c, t).
Proof.
  intros Hn. pose proof (length_rfc_stream key nonce) as Hb. assert (He : CBS_len [] + n < 2 ^ 64) by (change (CBS_len []) with 0; lia).
  assert (Hseal : ∀ room, chacha20_poly1305_seal_scatter stack key room nonce p [] ad n =
    if seal_ok room nonce p [] n then
      Some (ctr_xor (rfc_stream key nonce) p, take (Z.to_nat n) (calc_tag stack key nonce ad (ctr_xor (rfc_stream key nonce) p) []))
    else None).
  { intros room. rewrite seal_scatter_eq by done. rewrite app_nil_r. cbv zeta.
    rewrite take_ge, drop_ge by by rewrite (length_ctr_xor _ Hb). done. }
  rewrite open_gather_eq by done. unfold open_ok. split.
  - destruct (CBS_len nonce =? 12) eqn:E1; cbn [andb]; [|done]. destruct (Z.eqb_spec (CBS_len t) n) as [E2|]; cbn [andb]; [|done].
    destruct (CBS_len c <? 2 ^ 38 - 64) eqn:E3; [|done]. intros [=Ht Hp]. apply bool_decide_eq_true in Ht. subst p. exists n. rewrite Hseal.
    unfold seal_ok. rewrite (ctr_xor_involutive _ Hb). unfold CBS_len at 2. rewrite (length_ctr_xor _ Hb). fold (CBS_len c).
    rewrite E1, E3. change (CBS_len []) with 0. rewrite Z.add_0_r, Z.leb_refl. cbn [andb]. by rewrite <- Ht.
  - intros [room H]. rewrite Hseal in H. unfold seal_ok in H. destruct (CBS_len nonce =? 12); [|done].
    destruct (CBS_len p <? 2 ^ 38 - 64) eqn:E3; [|done]. destruct (_ <=? room); [|done]. cbn [andb] in H. injection H as <- <-.
    rewrite (ctr_xor_involutive _ Hb). unfold CBS_len at 1 2. rewrite (length_ctr_xor _ Hb), length_take, calc_tag_length. fold (CBS_len p).
    rewrite E3. replace (Z.of_nat (Nat.min (Z.to_nat n) 16)) with n by lia. rewrite Z.eqb_refl. cbn [andb]. by rewrite bool_decide_eq_true_2.
Qed.

Lemma open_gather_stack stack stack' key nonce inp in_tag ad n : length stack = 16%nat → length stack' = 16%nat → 0 < n <= 16 →
  chacha20_poly1305_open_gather stack key nonce inp in_tag ad n = chacha20_poly1305_open_gather stack' key nonce inp in_tag ad n.
Proof.
  intros Hs Hs' Hn. rewrite !open_gather_eq by done. unfold open_ok. destruct (_ && _ && _) eqn:E; [|done].
  rewrite !andb_true_iff, Z.ltb_lt in E. destruct E as [_ E].
  rewrite (calc_tag_stack stack stack'); [done|done|done|]. rewrite app_nil_r. lia.
Qed.

(** C13: sealing is the AEAD of RFC 8439.  The ciphertext is the input, and the
    extra input after it, xored with the ChaCha20 key stream from block 1 on;
    the tag is Poly1305 under the first half of block 0, over the additional
    data, the ciphertext, their padding and lengths (with the one exception
    stated for Poly1305, the accumulators that lose a carry).  Sealing fails
    exactly for a wrong nonce length, an input of 2^38 - 64 bytes or more, or
    too little room; opening accepts exactly the truncated tag and gives the
    decryption.  None of it depends on what the stack held. *)
Theorem chacha20_poly1305_is_rfc8439 (key nonce ad inp extra in_tag : list Z) (room tag_len : Z)
    (Htag : 0 < tag_len <= POLY1305_TAG_LEN) (Had : bytes_ok ad) (Hinp : bytes_ok inp) (Hextra : bytes_ok extra)
    (Hsz : CBS_len inp + CBS_len extra + tag_len < 2 ^ 64) :
  let ct := ctr_xor (rfc_stream key nonce) (inp ++ extra) in
  ∃ mac in_mac, is_mac key nonce ad ct mac ∧ is_mac key nonce ad inp in_mac ∧ ∀ stack, stack_ok stack →
    chacha20_poly1305_seal_scatter stack key room nonce inp extra ad tag_len =
      (if seal_ok room nonce inp extra tag_len
       then Some (take (length inp) ct, drop (length inp) ct ++ take (Z.to_nat tag_len) mac) else None) ∧
    chacha20_poly1305_open_gather stack key nonce inp in_tag ad tag_len =
      (if open_ok nonce inp in_tag tag_len
       then (bool_decide (in_tag = take (Z.to_nat tag_len) in_mac), Some (ctr_xor (rfc_stream key nonce) inp)) else (false, None)).
Proof.
  intros ct. pose proof (CBS_len_nonneg inp). pose proof (CBS_len_nonneg extra). pose proof (length_rfc_stream key nonce) as Hb.
  set (s0 := replicate 16 0). assert (Hs0 : stack_ok s0) by (split; [done|apply zeros_bytes]).
  assert (Hct : CBS_len ct = CBS_len inp + CBS_len extra).
  { unfold ct, CBS_len. rewrite (length_ctr_xor _ Hb), length_app. lia. }
  assert (Hctb : bytes_ok ct) by by apply ctr_xor_bytes, bytes_ok_cat.
  exists (calc_tag s0 key nonce ad (take (length inp) ct) (drop (length inp) ct)), (calc_tag s0 key nonce ad inp []). split; [|split].
  - rewrite <- (take_drop (length inp) ct) at 1. apply calc_tag_is_mac; rewrite ?take_drop; (done || lia).
  - rewrite <- (app_nil_r inp) at 1. apply calc_tag_is_mac; rewrite ?app_nil_r; (done || lia).
  - intros stack [Hs _]. unfold POLY1305_TAG_LEN in *. split.
    + rewrite seal_scatter_eq by lia. fold ct. cbv zeta.
      by rewrite (calc_tag_stack stack s0) by (rewrite ?take_drop; done || lia).
    + rewrite (open_gather_stack stack s0) by done. by apply open_gather_eq.
Qed.

Lemma chacha20_poly1305_is_rfc8439_witness :
  let key := seqZ 0 32 in let nonce := seqZ 0 12 in let ct := ctr_xor (rfc_stream key nonce) ([1; 2] ++ [3]) in
  ∃ mac in_mac, is_mac key nonce [9] ct mac ∧ is_mac key nonce [9] [1; 2] in_mac ∧ ∀ stack, stack_ok stack →
    chacha20_poly1305_seal_scatter stack key 17 nonce [1; 2] [3] [9] 16 = Some (take 2 ct, drop 2 ct ++ take 16 mac) ∧
    chacha20_poly1305_open_gather stack key nonce [1; 2] [4] [9] 16 = (false, None).
Proof.
  intros key nonce. refine (chacha20_poly1305_is_rfc8439 key nonce [9] [1; 2] [3] [4] 17 16 _ _ _ _ _);
    [done|by apply (bool_decide_unpack _)..|done].
Defined.
