(* ===== verification/ChachaAead.v ===== *)
(** The AEADs of [ChachaPoly] behind the AEAD interface of [Aead]: they keep
    its laws, and opening inverts sealing. *)
From S2P Require Import Prelude Radix Mem Cbs Words Poly1305 Chacha Aead ChachaPoly.

(** ** The laws of the interface *)
Definition chacha_limit : Z := 2 ^ 38 - 64.
Definition chacha_good (key : list Z) (n : Z) : Prop := 0 < n <= 16.

Lemma chacha_init_good key n st m : 0 <= n → aead_chacha20_poly1305_init key n = Some (st, m) → chacha_good st m.
Proof.
  intros Hn. unfold aead_chacha20_poly1305_init, chacha_good, POLY1305_TAG_LEN. cbv zeta.
  set (m' := if n =? 0 then 16 else n). assert (0 < m') by (unfold m'; destruct (Z.eqb_spec n 0); lia).
  destruct (Z.ltb_spec 16 m'); [done|]. destruct (negb _); [done|]. intros [= <- <-]. done.
Qed.

Lemma chacha_seal_length stack key n room nonce inp extra ad c t : 0 < n <= 16 → CBS_len extra < 2 ^ 63 →
  chacha20_poly1305_seal_scatter stack key room nonce inp extra ad n = Some (c, t) →
  CBS_len c = CBS_len inp ∧ CBS_len t = CBS_len extra + n ∧ CBS_len t <= room.
Proof.
  intros Hn He. rewrite seal_scatter_eq by lia. unfold seal_ok. destruct (CBS_len nonce =? 12); [|done]. destruct (CBS_len inp <? _); [|done].
  destruct (Z.leb_spec (n + CBS_len extra) room); [|done]. cbn [andb]. cbv zeta.
  pose proof (length_ctr_xor _ (length_rfc_stream key nonce) (inp ++ extra)) as Hl. rewrite length_app in Hl.
  set (ct := ctr_xor _ _) in *. clearbody ct. intros [= <- <-]. unfold CBS_len in *.
  rewrite length_app, !length_take, length_drop, calc_tag_length. lia.
Qed.

Lemma chacha_seal_some stack key n room nonce inp ad : 0 < n <= 16 →
  is_Some (chacha20_poly1305_seal_scatter stack key room nonce inp [] ad n) ↔ n <= room ∧ CBS_len nonce = 12 ∧ CBS_len inp < chacha_limit.
Proof.
  intros Hn. rewrite seal_scatter_eq by (change (CBS_len []) with 0; lia). unfold seal_ok, chacha_limit. change (CBS_len []) with 0. cbv zeta.
  destruct (Z.eqb_spec (CBS_len nonce) 12), (Z.ltb_spec (CBS_len inp) (2 ^ 38 - 64)), (Z.leb_spec (n + 0) room); cbn [andb];
    split; try (by intros [? [=]]); try (intros (? & ? & ?); exfalso; lia); intros _; (by eexists) || lia.
Qed.

Lemma derived_nonce_length nonce : CBS_len nonce = 24 → CBS_len (derived_nonce nonce) = 12.
Proof. unfold CBS_len, derived_nonce. rewrite length_app, length_take, length_drop, length_replicate. lia. Qed.

Lemma chacha_open_written stack key n nonce c t ad p : chacha20_poly1305_open_gather stack key nonce c t ad n = (true, p) → is_Some p.
Proof. unfold chacha20_poly1305_open_gather. repeat case_match; intros [= <-]; by eexists. Qed.

#[export] Instance chacha20_poly1305_laws stack : AeadLaws (aead_chacha20_poly1305 stack) chacha_good chacha_limit.
Proof.
  split; cbn [aead_chacha20_poly1305 init overhead open seal_scatter open_gather nonce_len].
  - intros f key n st m Hn [= <-]. by apply chacha_init_good.
  - done.
  - done.
  - intros st n Hg. exact Hg.
  - done.
  - intros st n room nonce inp extra ad c t. apply chacha_seal_length.
  - intros st n room nonce inp ad. apply chacha_seal_some.
  - eexists. split; [done|]. intros st n nonce c t ad p. apply open_inverts.
  - intros f st n nonce c t ad p _ [= <-]. apply chacha_open_written.
Qed.

#[export] Instance xchacha20_poly1305_laws stack : AeadLaws (aead_xchacha20_poly1305 stack) chacha_good chacha_limit.
Proof.
  split; cbn [aead_xchacha20_poly1305 init overhead open seal_scatter open_gather nonce_len];
    unfold aead_xchacha20_poly1305_seal_scatter, aead_xchacha20_poly1305_open_gather.
  - intros f key n st m Hn [= <-]. by apply chacha_init_good.
  - done.
  - done.
  - intros st n Hg. exact Hg.
  - done.
  - intros st n room nonce inp extra ad c t. destruct (negb _); [done|]. apply chacha_seal_length.
  - intros st n room nonce inp ad Hn. destruct (Z.eqb_spec (CBS_len nonce) 24) as [E|E]; cbn [negb].
    + rewrite chacha_seal_some by exact Hn. pose proof (derived_nonce_length nonce E). tauto.
    + split; [by intros []|]. by intros (_ & ? & _).
  - eexists. split; [done|]. intros st n nonce c t ad p Hn. cbv beta. destruct (negb _); [split; [done|by intros [? ?]]|]. by apply open_inverts.
  - intros f st n nonce c t ad p _ [= <-]. destruct (negb _); [done|]. apply chacha_open_written.
Qed.

(** The two tables, over the memory for the buffers. *)
Inductive chacha_aead : (list Z → EVP_AEAD (list Z)) → Prop :=
  | is_chacha : chacha_aead aead_chacha20_poly1305
  | is_xchacha : chacha_aead aead_xchacha20_poly1305.

Lemma chacha_laws aead stack : chacha_aead aead → AeadLaws (aead stack) chacha_good chacha_limit.
Proof. intros []; apply _. Qed.

Lemma chacha_ctx_init aead stack ctx0 key tag_len : chacha_aead aead → 0 <= tag_len →
  EVP_AEAD_CTX_init ctx0 (aead stack) key tag_len =
  Some (if (CBS_len key =? 32) && (tag_len <=? 16) then (true, mkCtx (Some (aead stack)) (Some key) (if tag_len =? 0 then 16 else tag_len))
        else (false, no_aead ctx0)).
Proof.
  intros Ha Ht. assert (Hf : init (aead stack) = Some aead_chacha20_poly1305_init ∧ key_len (aead stack) = 32) by by destruct Ha.
  destruct Hf as [Hf Hk]. unfold EVP_AEAD_CTX_init, EVP_AEAD_CTX_init_with_direction. rewrite Hf, Hk. cbn [mbind option_bind].
  unfold aead_chacha20_poly1305_init, POLY1305_TAG_LEN. destruct (CBS_len key =? 32); cbn [negb andb]; [|done].
  destruct (Z.eqb_spec tag_len 0) as [->|]; [done|].
  destruct (Z.ltb_spec 16 tag_len), (Z.leb_spec tag_len 16); try lia; done.
Qed.

(** The stack of the caller that opens does not matter. *)
Lemma chacha_open_stack aead stack stack' key n out nonce inp ad : chacha_aead aead → length stack = 16%nat → length stack' = 16%nat → 0 < n <= 16 →
  EVP_AEAD_CTX_open (mkCtx (Some (aead stack)) (Some key) n) out nonce inp ad =
  EVP_AEAD_CTX_open (mkCtx (Some (aead stack')) (Some key) n) out nonce inp ad.
Proof.
  intros Ha Hs Hs' Hn. unfold EVP_AEAD_CTX_open, EVP_AEAD_CTX_open_gather. destruct Ha;
    cbn [Aead.aead state Aead.tag_len mbind option_bind aead_chacha20_poly1305 aead_xchacha20_poly1305 open open_gather];
    unfold aead_chacha20_poly1305_open_gather, aead_xchacha20_poly1305_open_gather.
  - by rewrite (open_gather_stack stack stack').
  - destruct (negb (CBS_len nonce =? 24)); [done|]. by rewrite (open_gather_stack stack stack').
Qed.

(** C10: opening inverts sealing through the AEAD interface, for both AEADs.
    [EVP_AEAD_CTX_init] accepts keys of 32 bytes and tags of up to 16.  With
    such a context [EVP_AEAD_CTX_seal] succeeds exactly if the nonce has its
    length, the input is below the limit, the output has room and does not
    overlap the input at another address.  What it has written opens, with
    the same key, nonce and additional data, into any buffer with room for
    it.  [EVP_AEAD_CTX_open] returns 1 only on the sealing of the plaintext it
    returns.  All failures leave a length of 0 and zeros in the output. *)
Theorem chacha20_poly1305_open_inverts_seal aead (stack stack' key : list Z) (ctx0 : EVP_AEAD_CTX (list Z)) (tag_len : Z)
    (Haead : chacha_aead aead) (Hstack : length stack = 16%nat) (Hstack' : length stack' = 16%nat) (Htag : 0 <= tag_len) :
  ∃ ok ctx ctx', EVP_AEAD_CTX_init ctx0 (aead stack) key tag_len = Some (ok, ctx) ∧
    EVP_AEAD_CTX_init ctx0 (aead stack') key tag_len = Some (ok, ctx') ∧ ok = (CBS_len key =? 32) && (tag_len <=? 16) ∧
    (ok = true → let n := if tag_len =? 0 then 16 else tag_len in
     ∀ out out' inp nonce ad, region_ok out → region_ok out' → region_ok inp →
     (∃ done o len, EVP_AEAD_CTX_seal ctx out nonce inp ad = Some (done, o, len) ∧
        done = seal_allowed (aead stack) chacha_limit n out inp nonce ∧
        if done : bool then
          len = CBS_len (bytes inp) + n ∧
          (let sealed := mkRegion (addr out) (take (Z.to_nat len) o) in
           apart sealed out' → CBS_len (bytes inp) <= CBS_len (bytes out') →
           EVP_AEAD_CTX_open ctx' out' nonce sealed ad = Some (true, overwrite (bytes inp) (bytes out'), CBS_len (bytes inp)))
        else o = clear (bytes out) ∧ len = 0) ∧
     (∃ done o len, EVP_AEAD_CTX_open ctx out nonce inp ad = Some (done, o, len) ∧
        if done : bool then ∃ p c t room, o = overwrite p (bytes out) ∧ len = CBS_len p ∧ bytes inp = c ++ t ∧
          seal_scatter (aead stack) key n room nonce p [] ad = Some (c, t)
        else o = clear (bytes out) ∧ len = 0)).
Proof.
  rewrite !chacha_ctx_init by done. destruct ((CBS_len key =? 32) && (tag_len <=? 16)) eqn:E; [|by do 3 eexists; split_and!].
  apply andb_true_iff in E as [_ E]. apply Z.leb_le in E. set (n := if tag_len =? 0 then 16 else tag_len).
  assert (Hn : 0 < n <= 16) by (unfold n; destruct (Z.eqb_spec tag_len 0); lia). clearbody n. pose proof (chacha_laws aead stack Haead) as L.
  eexists true, _, _. split; [done|]. split; [done|]. split; [done|]. intros _. cbv zeta. intros out out' inp nonce ad Hout Hout' Hinp.
  assert (Hok : ctx_ok (aead stack) chacha_good (mkCtx (Some (aead stack)) (Some key) n)) by (split; [done|]; by exists key). split.
  - destruct (seal_then_open _ _ _ _ out out' inp nonce ad Hok Hout Hout' Hinp) as (ok & o & len & Es & Eok & Hs).
    exists ok, o, len. split; [exact Es|]. split; [exact Eok|]. destruct ok; [|exact Hs]. destruct Hs as [Hl Hs]. split; [exact Hl|].
    cbv zeta in Hs. intros Hap Hroom. rewrite <- (chacha_open_stack aead stack stack') by done. by apply Hs.
  - destruct (open_only_sealed _ _ _ _ out inp nonce ad Hok Hout Hinp) as (ok & o & len & Eo & Ho).
    exists ok, o, len. split; [exact Eo|]. destruct ok; [|exact Ho]. destruct Ho as (p & st & c & t & room & Hp & Hl & [= <-] & Hct & Hs).
    by exists p, c, t, room.
Qed.

(** A caller that seals two bytes in place. *)
Lemma chacha20_poly1305_open_inverts_seal_witness :
  let key := seqZ 0 32 in let nonce := seqZ 0 12 in let ad := [1] in
  let inp := mkRegion 4096 [7; 8] in let out := mkRegion 4096 (replicate 18 0) in let out' := mkRegion 8192 [0; 0; 5] in
  ∃ ok ctx ctx', EVP_AEAD_CTX_init (EVP_AEAD_CTX_zero) (aead_chacha20_poly1305 (replicate 16 0)) key 0 = Some (ok, ctx) ∧
    EVP_AEAD_CTX_init (EVP_AEAD_CTX_zero) (aead_chacha20_poly1305 (replicate 16 9)) key 0 = Some (ok, ctx') ∧ ok = true ∧
    ∃ o, EVP_AEAD_CTX_seal ctx out nonce inp ad = Some (true, o, 18) ∧
      EVP_AEAD_CTX_open ctx' out' nonce (mkRegion 4096 (take 18 o)) ad = Some (true, [7; 8; 5], 2).
Proof.
  intros key nonce ad inp out out'.
  destruct (chacha20_poly1305_open_inverts_seal aead_chacha20_poly1305 (replicate 16 0) (replicate 16 9) key EVP_AEAD_CTX_zero 0
    is_chacha eq_refl eq_refl (Z.le_refl 0)) as (ok & ctx & ctx' & E & E' & Hok & H).
  exists ok, ctx, ctx'. split; [exact E|]. split; [exact E'|]. split; [exact Hok|].
  destruct (H Hok out out' inp nonce ad) as [(done & o & len & Es & Hd & Hs) _]; [by vm_compute..|].
  change (done = true) in Hd. subst done. destruct Hs as [-> Hs]. exists o. split; [exact Es|].
  refine (Hs _ _); [|done]. unfold apart, check_alias, buffers_alias. cbn [addr bytes out out'].
  assert (Hlen : 0 <= CBS_len (take 18 o) <= 18) by (unfold CBS_len; rewrite length_take; lia).
  change (take (Z.to_nat (CBS_len (bytes inp) + (if 0 =? 0 then 16 else 0))) o) with (take 18 o). rewrite (wrap_small 64 (4096 + _)) by lia.
  by destruct (Z.ltb_spec 8192 (4096 + CBS_len (take 18 o))); [lia|].
Defined.
