(* ===== verification/Md32.v ===== *)
(** The collector of the 32-bit message digests,
    [crypto/fipsmodule/digest/md32_common.h]: it cuts a stream into blocks of
    64 bytes, hands them to a block function and pads the last one.

    The contents of a context are a function [ctx_of] of the bytes hashed so
    far, so that the theorems are equations. *)
From S2P Require Import Prelude Radix Cbs Words.

Definition CRYPTO_load_u32_be (p : list Z) : Z := CRYPTO_bswap4 (CRYPTO_load_u32_le p).
Definition CRYPTO_store_u32_be (v : Z) : list Z := CRYPTO_store_u32_le (CRYPTO_bswap4 v).

(** [struct <name>_state_st] *)
Record MD32_CTX := mkMd32 { h : list Z; Nl : Z; Nh : Z; data : list Z; num : nat }.

Definition md32_block_size : nat := 64.

Section collector.
(** [block_func(state, data, num_blocks)] *)
Context (block_func : list Z → list Z → nat → list Z).

(** The end of [crypto_md32_update], from [n = len / block_size] on. *)
Definition crypto_md32_blocks (ctx : MD32_CTX) (inp : list Z) : MD32_CTX :=
  let n := (length inp / md32_block_size)%nat in
  let '(ctx, inp) :=
    if (0 <? n)%nat then
      (mkMd32 (block_func (h ctx) inp n) (Nl ctx) (Nh ctx) (data ctx) (num ctx), drop (n * md32_block_size) inp)
    else (ctx, inp) in
  if negb (length inp =? 0)%nat then mkMd32 (h ctx) (Nl ctx) (Nh ctx) (list_inserts 0 inp (data ctx)) (length inp) else ctx.

Definition crypto_md32_update (ctx : MD32_CTX) (inp : list Z) : MD32_CTX :=
  let len := CBS_len inp in
  if len =? 0 then ctx
  else
    let l := Nl ctx ⊞[32] (u32 len ≪[32] 3) in
    let Nh' := if l <? Nl ctx then Nh ctx ⊞[32] 1 else Nh ctx in
    let Nh' := Nh' ⊞[32] u32 (len ≫ 29) in
    let n := num ctx in
    if negb (n =? 0)%nat then
      if (md32_block_size <=? length inp)%nat || (md32_block_size <=? length inp + n)%nat then
        let data' := list_inserts n (take (md32_block_size - n) inp) (data ctx) in
        let h' := block_func (h ctx) data' 1 in
        crypto_md32_blocks (mkMd32 h' l Nh' (replicate md32_block_size 0) 0) (drop (md32_block_size - n) inp)
      else mkMd32 (h ctx) l Nh' (list_inserts n inp (data ctx)) (n + length inp)
    else crypto_md32_blocks (mkMd32 (h ctx) l Nh' (data ctx) n) inp.

Definition crypto_md32_final (is_big_endian : bool) (ctx : MD32_CTX) : MD32_CTX :=
  let n := num ctx in
  let data' := <[n := 0x80]> (data ctx) in
  let n := S n in
  let '(h', data', n) :=
    if (md32_block_size - 8 <? n)%nat then
      let data' := list_inserts n (replicate (md32_block_size - n) 0) data' in
      (block_func (h ctx) data' 1, data', 0%nat)
    else (h ctx, data', n) in
  let data' := list_inserts n (replicate (md32_block_size - 8 - n) 0) data' in
  let data' :=
    if is_big_endian then
      list_inserts (md32_block_size - 4) (CRYPTO_store_u32_be (Nl ctx))
        (list_inserts (md32_block_size - 8) (CRYPTO_store_u32_be (Nh ctx)) data')
    else
      list_inserts (md32_block_size - 4) (CRYPTO_store_u32_le (Nh ctx))
        (list_inserts (md32_block_size - 8) (CRYPTO_store_u32_le (Nl ctx)) data') in
  mkMd32 (block_func h' data' 1) (Nl ctx) (Nh ctx) (replicate md32_block_size 0) 0.
End collector.

(** ** The construction of Merkle and Damgård *)

(** [n] blocks of [l], one after the other. *)
Fixpoint md_blocks (compress : list Z → list Z → list Z) (n : nat) (iv l : list Z) : list Z :=
  match n with
  | O => iv
  | S n => md_blocks compress n (compress iv (take 64 l)) (drop 64 l)
  end.

(** A one, zeros up to 8 bytes before the end of a block, the length in bits. *)
Definition md_padding (big_endian : bool) (len : nat) : list Z :=
  0x80 :: replicate (Z.to_nat ((55 - Z.of_nat len) mod 64)) 0 ++
  (let bits := (8 * Z.of_nat len) mod 2 ^ 64 in if big_endian then be_bytes 8 bits else num_to_le 8 bits).

Definition md_hash (compress : list Z → list Z → list Z) (iv : list Z) (big_endian : bool) (msg : list Z) : list Z :=
  let padded := msg ++ md_padding big_endian (length msg) in
  md_blocks compress (length padded / 64) iv padded.

(** The context of a digest that has taken [msg]. *)
Definition ctx_of (compress : list Z → list Z → list Z) (iv msg : list Z) : MD32_CTX :=
  let q := (length msg / 64)%nat in
  let bits := 8 * Z.of_nat (length msg) in
  mkMd32 (md_blocks compress q iv msg) (u32 bits) (u32 (bits / 2 ^ 32))
    (drop (64 * q) msg ++ replicate (64 - length msg mod 64) 0) (length msg mod 64).

(** What the collector asks of a block function. *)
Class BlockFunc (block_func : list Z → list Z → nat → list Z) (compress : list Z → list Z → list Z) : Prop :=
  block_func_spec : ∀ n iv l, (0 < n)%nat → (64 * n ≤ length l)%nat → block_func iv l n = md_blocks compress n iv l.

Lemma store_u32_be_bytes v : in_range 32 v → CRYPTO_store_u32_be v = be_bytes 4 v.
Proof. intros Hv. unfold CRYPTO_store_u32_be. rewrite store_u32_num. unfold num_to_le. by rewrite bytes_swap4, rev_involutive. Qed.

Lemma load_u32_be_val l : bytes_ok l → (4 ≤ length l)%nat → CRYPTO_load_u32_be l = be_val (take 4 l).
Proof.
  intros Hb Hl. unfold CRYPTO_load_u32_be. rewrite load_u32_num by done. unfold le_num.
  assert (H4 : length (take 4 l) = 4%nat) by (rewrite length_take; lia). pose proof (bytes_ok_take 4 l Hb) as Hb4.
  destruct (take 4 l) as [|a [|b [|c [|d [|? ?]]]]]; try done. do 4 (apply Forall_cons in Hb4 as [? Hb4]). by apply bswap4_bytes.
Qed.

Section proofs.
Context (block_func : list Z → list Z → nat → list Z) (compress : list Z → list Z → list Z) {B : BlockFunc block_func compress}.

Lemma md_blocks_add a b iv l : md_blocks compress (a + b) iv l = md_blocks compress b (md_blocks compress a iv l) (drop (64 * a) l).
Proof.
  revert iv l. induction a as [|a IH]; intros iv l; [done|]. cbn [Nat.add md_blocks]. rewrite IH, drop_drop. do 2 f_equal. lia.
Qed.

Lemma md_blocks_app n iv l r : (64 * n ≤ length l)%nat → md_blocks compress n iv (l ++ r) = md_blocks compress n iv l.
Proof.
  revert iv l. induction n as [|n IH]; intros iv l Hl; [done|]. cbn [md_blocks].
  rewrite take_app_le, drop_app_le by lia. apply IH. rewrite length_drop. lia.
Qed.

Lemma md_blocks_drop a b iv l : (64 * a ≤ length l)%nat → md_blocks compress b (md_blocks compress a iv l) (drop (64 * a) l) = md_blocks compress (a + b) iv l.
Proof. intros. by rewrite md_blocks_add. Qed.

Lemma div64 (n : nat) : (n = 64 * (n / 64) + n mod 64)%nat ∧ (n mod 64 < 64)%nat.
Proof. split; [apply Nat.div_mod_eq|apply Nat.mod_upper_bound; lia]. Qed.

Lemma inserts_zeros n (a inp : list Z) k : length a = n → (length inp ≤ k)%nat →
  list_inserts n inp (a ++ replicate k 0) = a ++ inp ++ replicate (k - length inp) 0.
Proof.
  intros <- Hk. rewrite list_inserts_fit by (rewrite length_app, length_replicate; lia).
  rewrite take_app_length, <- drop_drop, drop_app_length. by rewrite drop_replicate.
Qed.

(** The state of the context but for the counters. *)
Definition state_of (iv msg : list Z) (nl nh : Z) : MD32_CTX :=
  mkMd32 (md_blocks compress (length msg / 64) iv msg) nl nh
    (drop (64 * (length msg / 64)) msg ++ replicate (64 - length msg mod 64) 0) (length msg mod 64).

Lemma blocks_spec iv msg inp nl nh q : length msg = (64 * q)%nat →
  crypto_md32_blocks block_func (mkMd32 (md_blocks compress q iv msg) nl nh (replicate 64 0) 0) inp = state_of iv (msg ++ inp) nl nh.
Proof using B.
  intros Hq. unfold crypto_md32_blocks, state_of, md32_block_size. cbn [h Nl Nh data num].
  destruct (div64 (length inp)) as [Hi Hlt]. set (n := (length inp / 64)%nat) in *. set (r := (length inp mod 64)%nat) in *.
  assert (Ed : (length (msg ++ inp) / 64 = q + n)%nat).
  { rewrite length_app, Hq, Hi. replace (64 * q + (64 * n + r))%nat with (r + (q + n) * 64)%nat by lia. rewrite Nat.div_add, Nat.div_small by lia. done. }
  assert (Em : (length (msg ++ inp) mod 64 = r)%nat).
  { rewrite length_app, Hq, Hi. replace (64 * q + (64 * n + r))%nat with (r + (q + n) * 64)%nat by lia. rewrite Nat.Div0.mod_add. by apply Nat.mod_small. }
  rewrite Ed, Em. rewrite md_blocks_add, md_blocks_app by lia.
  replace (drop (64 * q) (msg ++ inp)) with inp by (rewrite <- Hq; by rewrite drop_app_length).
  replace (drop (64 * (q + n)) (msg ++ inp)) with (drop (64 * n) inp).
  2: { replace (64 * (q + n))%nat with (length msg + 64 * n)%nat by lia. by rewrite <- drop_drop, drop_app_length. }
  assert (Hd : (if (0 <? n)%nat then (mkMd32 (block_func (md_blocks compress q iv msg) inp n) nl nh (replicate 64 0) 0, drop (n * 64) inp)
     else (mkMd32 (md_blocks compress q iv msg) nl nh (replicate 64 0) 0, inp)) =
     (mkMd32 (md_blocks compress n (md_blocks compress q iv msg) inp) nl nh (replicate 64 0) 0, drop (64 * n) inp)).
  { destruct (Nat.ltb_spec 0 n) as [Hn|Hn].
    - rewrite (Nat.mul_comm n), block_func_spec by lia. done.
    - by replace n with 0%nat by lia. }
  rewrite Hd. cbn [h Nl Nh data num]. assert (Hr : length (drop (64 * n) inp) = r) by (rewrite length_drop; lia).
  destruct (Nat.eqb_spec (length (drop (64 * n) inp)) 0) as [E|E]; cbn [negb].
  - rewrite <- Hr, E. apply nil_length_inv in E. by rewrite E.
  - pose proof (inserts_zeros 0 [] (drop (64 * n) inp) 64 eq_refl) as Hz. cbn [app] in Hz. rewrite Hz, Hr by lia. done.
Qed.

Lemma counters nl nh b len : 0 <= len < 2 ^ 64 → 0 <= b → nl = u32 (8 * b) → nh = u32 (8 * b / 2 ^ 32) →
  let l := nl ⊞[32] (u32 len ≪[32] 3) in
  l = u32 (8 * (b + len)) ∧
  (if l <? nl then nh ⊞[32] 1 else nh) ⊞[32] u32 (len ≫ 29) = u32 (8 * (b + len) / 2 ^ 32).
Proof.
  intros Hlen Hb -> ->. cbv zeta. rewrite Z.shiftl_mul_pow2, Z.shiftr_div_pow2 by lia. unfold wrap.
  assert (E : len = 2 ^ 29 * (len / 2 ^ 29) + len mod 2 ^ 29) by (apply Z.div_mod; lia). set (q := len / 2 ^ 29) in *. set (r := len mod 2 ^ 29) in *.
  assert (Hr : 0 <= r < 2 ^ 29) by (apply Z.mod_pos_bound; lia).
  assert (E1 : (len mod 2 ^ 32 * 2 ^ 3) mod 2 ^ 32 = 8 * r).
  { rewrite Z.mul_mod_idemp_l by lia. rewrite E. symmetry. apply (Z.mod_unique_pos _ _ q); lia. }
  rewrite E1. set (m := 8 * b). assert (Hm : m = 2 ^ 32 * (m / 2 ^ 32) + m mod 2 ^ 32) by (apply Z.div_mod; lia).
  set (mq := m / 2 ^ 32) in *. set (mr := m mod 2 ^ 32) in *. assert (Hmr : 0 <= mr < 2 ^ 32) by (apply Z.mod_pos_bound; lia).
  replace (8 * (b + len)) with (2 ^ 32 * (mq + q) + (mr + 8 * r)) by lia. clearbody m mq mr q r. clear E E1 Hm.
  assert (G1 : (2 ^ 32 * (mq + q) + (mr + 8 * r)) mod 2 ^ 32 = (mr + 8 * r) mod 2 ^ 32).
  { rewrite Z.add_comm, (Z.mul_comm (2 ^ 32)). apply Z.mod_add. lia. }
  assert (G2 : (2 ^ 32 * (mq + q) + (mr + 8 * r)) / 2 ^ 32 = mq + q + (mr + 8 * r) / 2 ^ 32).
  { rewrite (Z.mul_comm (2 ^ 32)). by apply Z.div_add_l. }
  rewrite G1, G2. split; [done|]. destruct (Z.lt_ge_cases (mr + 8 * r) (2 ^ 32)) as [Hc|Hc].
  - rewrite (Z.mod_small (mr + 8 * r)), (Z.div_small (mr + 8 * r)) by lia. destruct (Z.ltb_spec (mr + 8 * r) mr); [lia|].
    rewrite Z.add_0_r. symmetry. apply Z.add_mod. lia.
  - replace ((mr + 8 * r) mod 2 ^ 32) with (mr + 8 * r - 2 ^ 32) by (apply (Z.mod_unique_pos _ _ 1); lia).
    replace ((mr + 8 * r) / 2 ^ 32) with 1 by (apply (Z.div_unique_pos _ _ _ (mr + 8 * r - 2 ^ 32)); lia).
    destruct (Z.ltb_spec (mr + 8 * r - 2 ^ 32) mr); [|lia].
    rewrite Z.add_mod_idemp_l, Z.add_mod_idemp_r, <- Z.add_assoc, Z.add_mod_idemp_l by lia. f_equal. lia.
Qed.

Lemma u32_range x : in_range 32 (u32 x).
Proof. by apply wrap_range. Qed.

(** Taking in more bytes. *)
Lemma md32_update_spec iv msg inp : CBS_len inp < 2 ^ 64 →
  crypto_md32_update block_func (ctx_of compress iv msg) inp = ctx_of compress iv (msg ++ inp).
Proof using B.
  intros Hsz. unfold crypto_md32_update. destruct (Z.eqb_spec (CBS_len inp) 0) as [E0|E0].
  { destruct inp; [by rewrite app_nil_r|done]. }
  destruct (div64 (length msg)) as [Hm Hlt]. set (q := (length msg / 64)%nat) in *. set (r := (length msg mod 64)%nat) in *.
  pose proof (counters (Nl (ctx_of compress iv msg)) (Nh (ctx_of compress iv msg)) (Z.of_nat (length msg)) (CBS_len inp)
    (conj (CBS_len_nonneg inp) Hsz) (Nat2Z.is_nonneg _) eq_refl eq_refl) as [Enl Enh].
  cbv zeta in Enl, Enh |- *. rewrite Enl in *. rewrite Enh. clear Enl Enh.
  replace (8 * (Z.of_nat (length msg) + CBS_len inp)) with (8 * Z.of_nat (length (msg ++ inp))) by (unfold CBS_len; rewrite length_app; lia).
  set (nl := u32 (8 * Z.of_nat (length (msg ++ inp)))). set (nh := u32 (8 * Z.of_nat (length (msg ++ inp)) / 2 ^ 32)).
  change (ctx_of compress iv (msg ++ inp)) with (state_of iv (msg ++ inp) nl nh). cbn [ctx_of h data num]. fold q r.
  assert (Htl : length (drop (64 * q) msg) = r) by (rewrite length_drop; lia).
  assert (Hli : (0 < length inp)%nat) by (unfold CBS_len in E0; lia). unfold md32_block_size.
  destruct (Nat.eqb_spec r 0) as [Er|Er]; cbn [negb].
  - rewrite Er in *. destruct (drop (64 * q) msg); [|done]. apply blocks_spec. lia.
  - rewrite orb_comm. destruct (Nat.leb_spec 64 (length inp + r)) as [Hf|Hf]; cbn [orb].
    + set (t := take (64 - r) inp). assert (Ht : length t = (64 - r)%nat) by (unfold t; rewrite length_take; lia).
      rewrite inserts_zeros by lia. rewrite Ht, Nat.sub_diag. change (replicate 0 0) with (@nil Z). rewrite app_nil_r.
      assert (Hb : length (drop (64 * q) msg ++ t) = 64%nat) by (rewrite length_app; lia).
      rewrite block_func_spec by lia.
      assert (Hmt : length (msg ++ t) = (64 * (q + 1))%nat) by (rewrite length_app; lia).
      replace (md_blocks compress 1 (md_blocks compress q iv msg) (drop (64 * q) msg ++ t)) with (md_blocks compress (q + 1) iv (msg ++ t))
        by (rewrite md_blocks_add, md_blocks_app, drop_app_le by lia; done).
      rewrite (blocks_spec iv (msg ++ t)) by done. unfold t. by rewrite <- app_assoc, take_drop.
    + destruct (Nat.leb_spec 64 (length inp)); [lia|]. rewrite inserts_zeros by lia. unfold state_of.
      assert (Ed : (length (msg ++ inp) / 64 = q)%nat) by (rewrite length_app; symmetry; apply (Nat.div_unique _ 64 q (r + length inp)); lia).
      assert (Em : (length (msg ++ inp) mod 64 = r + length inp)%nat) by (rewrite length_app; symmetry; apply (Nat.mod_unique _ 64 q); lia).
      rewrite Ed, Em, md_blocks_app, drop_app_le, <- app_assoc by lia. by replace (64 - r - length inp)%nat with (64 - (r + length inp))%nat by lia.
Qed.

(** The two words of the length. *)
Lemma length_words (be : bool) b : 0 <= b →
  (if be then CRYPTO_store_u32_be (u32 (b / 2 ^ 32)) ++ CRYPTO_store_u32_be (u32 b)
   else CRYPTO_store_u32_le (u32 b) ++ CRYPTO_store_u32_le (u32 (b / 2 ^ 32))) =
  (let bits := b mod 2 ^ 64 in if be then be_bytes 8 bits else num_to_le 8 bits).
Proof.
  intros Hb. cbv zeta. assert (E : num_to_le 8 (b mod 2 ^ 64) = num_to_le 4 b ++ num_to_le 4 (b / 2 ^ 32)).
  { change (2 ^ 64) with (256 ^ Z.of_nat 8). rewrite num_to_le_mod. exact (num_to_le_app 4 4 b). }
  destruct be.
  - rewrite !store_u32_be_bytes by apply u32_range. rewrite <- (rev_involutive (be_bytes 8 _)). fold (num_to_le 8 (b mod 2 ^ 64)).
    rewrite E, rev_app_distr. rewrite <- (num_to_le_mod 4 b), <- (num_to_le_mod 4 (b / 2 ^ 32)).
    unfold num_to_le. by rewrite !rev_involutive.
  - by rewrite E, !store_u32_wrap.
Qed.

Lemma put_length (be : bool) nl nh data : length data = 64%nat →
  (if be then list_inserts 60 (CRYPTO_store_u32_be nl) (list_inserts 56 (CRYPTO_store_u32_be nh) data)
   else list_inserts 60 (CRYPTO_store_u32_le nh) (list_inserts 56 (CRYPTO_store_u32_le nl) data)) =
  take 56 data ++ (if be then CRYPTO_store_u32_be nh ++ CRYPTO_store_u32_be nl else CRYPTO_store_u32_le nl ++ CRYPTO_store_u32_le nh).
Proof.
  intros Hl. assert (H4 : ∀ a b, length a = 4%nat → length b = 4%nat →
    list_inserts 60 b (list_inserts 56 a data) = take 56 data ++ a ++ b).
  { intros a b Ha Hb. rewrite list_inserts_fit by (rewrite length_inserts; lia). rewrite (list_inserts_fit 56) by lia. rewrite Ha, Hb.
    rewrite (drop_ge _ (60 + 4)) by (rewrite !length_app, length_take, length_drop; lia). rewrite app_nil_r, app_assoc.
    rewrite take_app_length' by (rewrite length_app, length_take; lia). by rewrite <- app_assoc. }
  by destruct be; apply H4.
Qed.

Lemma md32_final_spec iv be msg : h (crypto_md32_final block_func be (ctx_of compress iv msg)) = md_hash compress iv be msg.
Proof using B.
  unfold crypto_md32_final, md_hash, md_padding, md32_block_size. cbn [ctx_of h Nl Nh data num].
  change (64 - 4)%nat with 60%nat. change (64 - 8)%nat with 56%nat.
  destruct (div64 (length msg)) as [Hm Hlt]. set (q := (length msg / 64)%nat) in *. set (r := (length msg mod 64)%nat) in *.
  set (b := 8 * Z.of_nat (length msg)). rewrite <- length_words by lia.
  set (lb := if be then CRYPTO_store_u32_be (u32 (b / 2 ^ 32)) ++ CRYPTO_store_u32_be (u32 b)
             else CRYPTO_store_u32_le (u32 b) ++ CRYPTO_store_u32_le (u32 (b / 2 ^ 32))).
  assert (Hlb : length lb = 8%nat) by (unfold lb; by destruct be).
  set (tail := drop (64 * q) msg). assert (Ht : length tail = r) by (unfold tail; rewrite length_drop; lia).
  replace (<[r:=128]> (tail ++ replicate (64 - r) 0)) with ((tail ++ [128]) ++ replicate (63 - r) 0).
  2: { rewrite insert_app_r_alt, Ht, Nat.sub_diag by lia. replace (64 - r)%nat with (S (63 - r)) by lia. cbn. by rewrite <- app_assoc. }
  assert (Ht1 : length (tail ++ [128]) = S r) by (rewrite length_app, Ht; cbn [length]; lia).
  assert (Hz : ∀ k pad, length pad = (64 * (k - q) - r)%nat → (q < k)%nat → md_blocks compress (length (msg ++ pad) / 64) iv (msg ++ pad) =
    md_blocks compress (k - q) (md_blocks compress q iv msg) (tail ++ pad)).
  { intros k pad Hp Hk. replace (length (msg ++ pad) / 64)%nat with (q + (k - q))%nat.
    - rewrite md_blocks_add, md_blocks_app, drop_app_le by lia. done.
    - rewrite length_app. apply (Nat.div_unique _ 64 _ 0); lia. }
  destruct (Nat.ltb_spec 56 (S r)) as [Hr|Hr]; cbn [h].
  - rewrite inserts_zeros by (rewrite ?length_replicate; lia). rewrite length_replicate. replace (63 - r - (64 - S r))%nat with 0%nat by lia.
    cbn [replicate]. rewrite app_nil_r. rewrite put_length by (rewrite length_inserts, length_app, Ht1, length_replicate; lia). fold lb.
    rewrite list_inserts_fit by (rewrite length_app, Ht1, !length_replicate; lia). change (take 0 ?x) with (@nil Z). cbn [app].
    rewrite take_app_length' by (rewrite length_replicate; lia). change (56 - 0)%nat with 56%nat.
    replace (Z.to_nat ((55 - Z.of_nat (length msg)) mod 64)) with (64 - S r + 56)%nat.
    2: { replace ((55 - Z.of_nat (length msg)) mod 64) with (119 - Z.of_nat r); [lia|]. apply (Z.mod_unique_pos _ _ (- Z.of_nat q - 1)); lia. }
    rewrite (Hz (q + 2)%nat); [|cbn [length]; rewrite !length_app, length_replicate, Hlb; lia|lia].
    replace (q + 2 - q)%nat with 2%nat by lia.
    rewrite replicate_add. set (w := (tail ++ [128]) ++ replicate (64 - S r) 0).
    assert (Hw : length w = 64%nat) by (unfold w; rewrite length_app, Ht1, length_replicate; lia).
    replace (tail ++ 128 :: (replicate (64 - S r) 0 ++ replicate 56 0) ++ lb) with (w ++ replicate 56 0 ++ lb) by (unfold w; by rewrite <- !app_assoc).
    rewrite !block_func_spec by (rewrite ?length_app, ?length_replicate; lia). cbn [md_blocks].
    by rewrite (take_ge w), (take_app_length' w _ 64), (drop_app_length' w _ 64) by lia.
  - rewrite inserts_zeros by (rewrite ?length_replicate; lia). rewrite length_replicate.
    rewrite put_length by (rewrite !length_app, Ht, !length_replicate; cbn [length]; lia). fold lb.
    rewrite app_assoc, take_app_length' by (rewrite length_app, Ht1, length_replicate; lia).
    replace (Z.to_nat ((55 - Z.of_nat (length msg)) mod 64)) with (56 - S r)%nat.
    2: { replace ((55 - Z.of_nat (length msg)) mod 64) with (55 - Z.of_nat r); [lia|]. apply (Z.mod_unique_pos _ _ (- Z.of_nat q)); lia. }
    rewrite (Hz (q + 1)%nat); [|cbn [length]; rewrite !length_app, length_replicate, Hlb; lia|lia].
    replace (q + 1 - q)%nat with 1%nat by lia. rewrite block_func_spec by (rewrite ?length_app, ?Ht, ?length_replicate, ?Hlb; cbn [length]; lia).
    by rewrite <- !app_assoc.
Qed.
End proofs.

(** Block functions that agree on bytes, where [P] holds of the hash values. *)
Section ext.
Context (f g : list Z → list Z → list Z) (P : list Z → Prop).
Context (Hfg : ∀ H b, P H → bytes_ok b → length b = 64%nat → f H b = g H b ∧ P (g H b)).

Lemma md_blocks_ext n iv l : P iv → bytes_ok l → (64 * n ≤ length l)%nat → md_blocks f n iv l = md_blocks g n iv l ∧ P (md_blocks g n iv l).
Proof using Hfg.
  revert iv l. induction n as [|n IH]; intros iv l Hiv Hl Hn; [done|]. cbn [md_blocks].
  destruct (Hfg iv (take 64 l) Hiv) as [-> HP]; [by apply bytes_ok_take|rewrite length_take; lia|].
  apply IH; [done|by apply bytes_ok_drop|rewrite length_drop; lia].
Qed.

Lemma md_padding_bytes be len : bytes_ok (md_padding be len).
Proof.
  unfold md_padding. apply Forall_cons. split; [done|]. apply bytes_ok_cat; [apply Forall_replicate; lia|].
  cbv zeta. unfold num_to_le. destruct be; [|apply Forall_rev]; apply (digits_be_ok 256); lia.
Qed.

Lemma md_hash_ext iv be msg : P iv → bytes_ok msg → md_hash f iv be msg = md_hash g iv be msg ∧ P (md_hash g iv be msg).
Proof using Hfg.
  intros Hiv Hm. unfold md_hash. apply md_blocks_ext; [done|apply bytes_ok_cat; [done|apply md_padding_bytes]|apply Nat.Div0.mul_div_le].
Qed.
End ext.

(** Any number of pieces. *)
Lemma update_pieces block_func compress {B : BlockFunc block_func compress} iv msg pieces : Forall (λ d, CBS_len d < 2 ^ 64) pieces →
  foldl (crypto_md32_update block_func) (ctx_of compress iv msg) pieces = ctx_of compress iv (msg ++ concat pieces).
Proof.
  intros Hp. revert msg. induction Hp as [|d ds Hd _ IH]; intros msg; cbn [foldl concat]; [by rewrite app_nil_r|].
  by rewrite (md32_update_spec block_func compress), IH, app_assoc.
Qed.

Lemma concat_bytes ls : Forall bytes_ok ls → bytes_ok (concat ls).
Proof. induction 1; [constructor|by apply bytes_ok_cat]. Qed.

(** Hash values of [n] words. *)
Definition words_ok (n : nat) (H : list Z) : Prop := length H = n ∧ Forall (λ x, in_range 32 x) H.
