(* ===== verification/ShaSpec.v ===== *)
(** The secure hash standard FIPS 180-4 (SHA-1, SHA-224, SHA-256), as the
    document defines it: the message schedule is a list that grows, the working
    variables are a tuple. *)
From S2P Require Import Prelude Radix Md32.

(** ** Words of 32 bits *)
Definition ROTL (n x : Z) : Z := x ≪[32] n .| (x ≫ (32 - n)).
Definition ROTR (n x : Z) : Z := (x ≫ n) .| x ≪[32] (32 - n).
Definition SHR (n x : Z) : Z := x ≫ n.
Definition Ch (x y z : Z) : Z := (x .& y) .^ (Z.lnot x .& z).
Definition Parity (x y z : Z) : Z := (x .^ y) .^ z.
Definition Maj (x y z : Z) : Z := ((x .& y) .^ (x .& z)) .^ (y .& z).

(** The 16 words of a block. *)
Definition message_words (block : list Z) : list Z := (λ i, be_val (take 4 (drop (4 * i) block))) <$> seq 0 16.

(** [n] more words; word [t] is made of the words before it. *)
Fixpoint extend (g : list Z → nat → Z) (n : nat) (W : list Z) : list Z :=
  match n with
  | O => W
  | S n => extend g n (W ++ [g W (length W)])
  end.

Notation "W .[ t ]" := (nth t W 0) (at level 9, format "W .[ t ]").

(** ** SHA-1, 6.1.2 *)
Definition sha1_word (W : list Z) (t : nat) : Z := ROTL 1 (((W.[t - 3] .^ W.[t - 8]) .^ W.[t - 14]) .^ W.[t - 16]).
Definition sha1_schedule (M : list Z) : list Z := extend sha1_word 64 M.
Definition sha1_f (t : nat) : Z → Z → Z → Z :=
  if (t <? 20)%nat then Ch else if (t <? 40)%nat then Parity else if (t <? 60)%nat then Maj else Parity.
Definition sha1_K (t : nat) : Z :=
  if (t <? 20)%nat then 0x5a827999 else if (t <? 40)%nat then 0x6ed9eba1 else if (t <? 60)%nat then 0x8f1bbcdc else 0xca62c1d6.
Definition sha1_step (W : list Z) (v : Z * Z * Z * Z * Z) (t : nat) : Z * Z * Z * Z * Z :=
  let '(a, b, c, d, e) := v in
  (u32 (ROTL 5 a + sha1_f t b c d + e + sha1_K t + W.[t]), a, ROTL 30 b, c, d).
Definition sha1_compress (H block : list Z) : list Z :=
  let W := sha1_schedule (message_words block) in
  let '(a, b, c, d, e) := foldl (sha1_step W) (H.[0], H.[1], H.[2], H.[3], H.[4]) (seq 0 80) in
  [u32 (a + H.[0]); u32 (b + H.[1]); u32 (c + H.[2]); u32 (d + H.[3]); u32 (e + H.[4])].
Definition sha1_H0 : list Z := [0x67452301; 0xefcdab89; 0x98badcfe; 0x10325476; 0xc3d2e1f0].

(** The digest: the words of the last hash value, most significant byte first. *)
Definition digest (n : nat) (H : list Z) : list Z := concat (be_bytes 4 <$> take n H).
Definition fips_sha1 (msg : list Z) : list Z := digest 5 (md_hash sha1_compress sha1_H0 true msg).

(** ** SHA-256, 6.2.2, and SHA-224 *)
Definition Sigma_0 (x : Z) : Z := (ROTR 2 x .^ ROTR 13 x) .^ ROTR 22 x.
Definition Sigma_1 (x : Z) : Z := (ROTR 6 x .^ ROTR 11 x) .^ ROTR 25 x.
Definition sigma_0 (x : Z) : Z := (ROTR 7 x .^ ROTR 18 x) .^ SHR 3 x.
Definition sigma_1 (x : Z) : Z := (ROTR 17 x .^ ROTR 19 x) .^ SHR 10 x.

(** The first 32 bits of the fractional parts of the cube roots of the first
    64 primes. *)
Fixpoint primes_from (fuel n : nat) (p : Z) : list Z :=
  match fuel, n with
  | S fuel, S n' => if forallb (λ d, negb (p mod d =? 0)) (seqZ 2 (p - 2)) then p :: primes_from fuel n' (p + 1) else primes_from fuel n (p + 1)
  | _, _ => []
  end.
(** The integer cube root below [2 ^ bits], bit by bit. *)
Fixpoint cube_root (bits : nat) (acc x : Z) : Z :=
  match bits with
  | O => acc
  | S bits => let acc' := acc + 2 ^ Z.of_nat bits in cube_root bits (if acc' ^ 3 <=? x then acc' else acc) x
  end.
Definition sha256_K : list Z := (λ p, cube_root 36 0 (p * 2 ^ 96) mod 2 ^ 32) <$> primes_from 320 64 2.

Definition sha256_word (W : list Z) (t : nat) : Z := u32 (sigma_1 W.[t - 2] + W.[t - 7] + sigma_0 W.[t - 15] + W.[t - 16]).
Definition sha256_schedule (M : list Z) : list Z := extend sha256_word 48 M.
Definition sha256_step (W : list Z) (v : Z * Z * Z * Z * Z * Z * Z * Z) (t : nat) : Z * Z * Z * Z * Z * Z * Z * Z :=
  let '(a, b, c, d, e, f, g, h) := v in
  let T1 := h + Sigma_1 e + Ch e f g + sha256_K.[t] + W.[t] in
  let T2 := Sigma_0 a + Maj a b c in
  (u32 (T1 + T2), a, b, c, u32 (d + T1), e, f, g).
Definition sha256_compress (H block : list Z) : list Z :=
  let W := sha256_schedule (message_words block) in
  let '(a, b, c, d, e, f, g, h) := foldl (sha256_step W) (H.[0], H.[1], H.[2], H.[3], H.[4], H.[5], H.[6], H.[7]) (seq 0 64) in
  [u32 (a + H.[0]); u32 (b + H.[1]); u32 (c + H.[2]); u32 (d + H.[3]);
   u32 (e + H.[4]); u32 (f + H.[5]); u32 (g + H.[6]); u32 (h + H.[7])].
Definition sha256_H0 : list Z :=
  [0x6a09e667; 0xbb67ae85; 0x3c6ef372; 0xa54ff53a; 0x510e527f; 0x9b05688c; 0x1f83d9ab; 0x5be0cd19].
Definition sha224_H0 : list Z :=
  [0xc1059ed8; 0x367cd507; 0x3070dd17; 0xf70e5939; 0xffc00b31; 0x68581511; 0x64f98fa7; 0xbefa4fa4].
Definition fips_sha256 (msg : list Z) : list Z := digest 8 (md_hash sha256_compress sha256_H0 true msg).
Definition fips_sha224 (msg : list Z) : list Z := digest 7 (md_hash sha256_compress sha224_H0 true msg).

(** ** The schedule *)
Lemma extend_length g n W : length (extend g n W) = (length W + n)%nat.
Proof. revert W. induction n as [|n IH]; intros W; cbn [extend]; [lia|]. rewrite IH, length_app. cbn. lia. Qed.

Lemma extend_prefix g n W t : (t < length W)%nat → (extend g n W).[t] = W.[t].
Proof.
  revert W. induction n as [|n IH]; intros W Ht; [done|]. cbn [extend]. rewrite IH by (rewrite length_app; lia).
  by apply app_nth1.
Qed.

(** Each new word is the function of the whole schedule, when the function
    looks at earlier words only. *)
Lemma extend_nth g n W t : (∀ V V' t, (0 < t)%nat → (∀ i, (i < t)%nat → V.[i] = V'.[i]) → g V t = g V' t) →
  (0 < length W ≤ t)%nat → (t < length W + n)%nat → (extend g n W).[t] = g (extend g n W) t.
Proof.
  intros Hg. revert W. induction n as [|n IH]; intros W Ht Hn; [lia|]. cbn [extend].
  destruct (decide (t = length W)) as [->|Hne]; [|apply IH; rewrite length_app; cbn [length]; lia].
  rewrite extend_prefix by (rewrite length_app; cbn; lia). rewrite app_nth2, Nat.sub_diag by lia. cbn [nth].
  apply Hg; [lia|]. intros i Hi. rewrite extend_prefix by (rewrite length_app; lia). by rewrite app_nth1.
Qed.

Lemma sha1_schedule_nth M t : length M = 16%nat → (16 ≤ t < 80)%nat → (sha1_schedule M).[t] = sha1_word (sha1_schedule M) t.
Proof.
  intros HM Ht. apply extend_nth; [|rewrite HM; lia..]. intros V V' u Hu H. unfold sha1_word.
  by rewrite (H (u - 3)%nat), (H (u - 8)%nat), (H (u - 14)%nat), (H (u - 16)%nat) by lia.
Qed.

Lemma sha256_schedule_nth M t : length M = 16%nat → (16 ≤ t < 64)%nat → (sha256_schedule M).[t] = sha256_word (sha256_schedule M) t.
Proof.
  intros HM Ht. apply extend_nth; [|rewrite HM; lia..]. intros V V' u Hu H. unfold sha256_word.
  by rewrite (H (u - 2)%nat), (H (u - 7)%nat), (H (u - 15)%nat), (H (u - 16)%nat) by lia.
Qed.
