(* ===== verification/Sha1.v ===== *)
(** SHA-1 ([crypto/fipsmodule/sha/sha1.c.inc]) over the collector of [Md32], in
    the portable form of the build (OPENSSL_NO_ASM): the 80 unrolled rounds
    rotate the names of six registers and keep a window of 16 words of the
    message schedule.  The theorem relates them to FIPS 180-4. *)
From S2P Require Import Prelude Radix Cbs Words Chacha Md32 ShaSpec.

(** ** The block function

    The registers A to E and T, and X(0) to X(15). *)
#[local] Abbreviation A := 0%nat.
#[local] Abbreviation B := 1%nat.
#[local] Abbreviation C := 2%nat.
#[local] Abbreviation D := 3%nat.
#[local] Abbreviation E := 4%nat.
#[local] Abbreviation T := 5%nat.

Definition K_00_19 : Z := 0x5a827999.
Definition K_20_39 : Z := 0x6ed9eba1.
Definition K_40_59 : Z := 0x8f1bbcdc.
Definition K_60_79 : Z := 0xca62c1d6.

Definition F_00_19 (b c d : Z) : Z := ((c .^ d) .& b) .^ d.
Definition F_20_39 (b c d : Z) : Z := (b .^ c) .^ d.
Definition F_40_59 (b c d : Z) : Z := (b .& c) .| ((b .| c) .& d).
Definition F_60_79 (b c d : Z) : Z := F_20_39 b c d.

(** [Xupdate(a, ix, ia, ib, ic, id)] *)
Definition Xupdate (a ix ia ib ic id : nat) (s : list Z * list Z) : list Z * list Z :=
  let '(r, X) := s in
  let v := CRYPTO_rotl_u32 (((word X ia .^ word X ib) .^ word X ic) .^ word X id) 1 in
  (<[a := v]> r, <[ix := v]> X).

(** [(f) = x + (e) + k + CRYPTO_rotl_u32((a), 5) + F((b), (c), (d)); (b) = CRYPTO_rotl_u32((b), 30);] *)
Definition BODY (k : Z) (F : Z → Z → Z → Z) (a b c d e f : nat) (x : Z) (s : list Z * list Z) : list Z * list Z :=
  let '(r, X) := s in
  let r := <[f := u32 (x + word r e + k + CRYPTO_rotl_u32 (word r a) 5 + F (word r b) (word r c) (word r d))]> r in
  (<[b := CRYPTO_rotl_u32 (word r b) 30]> r, X).

Definition BODY_00_15 (a b c d e f xi : nat) (s : list Z * list Z) : list Z * list Z :=
  BODY K_00_19 F_00_19 a b c d e f (word (snd s) xi) s.
Definition BODY_16_19 (a b c d e f xi xa xb xc xd : nat) (s : list Z * list Z) : list Z * list Z :=
  let s := Xupdate f xi xa xb xc xd s in BODY K_00_19 F_00_19 a b c d e f (word (fst s) f) s.
Definition BODY_20_31 (a b c d e f xi xa xb xc xd : nat) (s : list Z * list Z) : list Z * list Z :=
  let s := Xupdate f xi xa xb xc xd s in BODY K_20_39 F_20_39 a b c d e f (word (fst s) f) s.
Definition BODY_32_39 (a b c d e f xa xb xc xd : nat) (s : list Z * list Z) : list Z * list Z :=
  let s := Xupdate f xa xa xb xc xd s in BODY K_20_39 F_20_39 a b c d e f (word (fst s) f) s.
Definition BODY_40_59 (a b c d e f xa xb xc xd : nat) (s : list Z * list Z) : list Z * list Z :=
  let s := Xupdate f xa xa xb xc xd s in BODY K_40_59 F_40_59 a b c d e f (word (fst s) f) s.
Definition BODY_60_79 (a b c d e f xa xb xc xd : nat) (s : list Z * list Z) : list Z * list Z :=
  let s := Xupdate f xa xa xb xc xd s in BODY K_60_79 F_60_79 a b c d e f (word (snd s) xa) s.

(** [X(i) = CRYPTO_load_u32_be(data); data += 4;] for the 16 words. *)
Definition load_message (data : list Z) : list Z := (λ i, CRYPTO_load_u32_be (drop (4 * i) data)) <$> seq 0 16.

Definition sha1_rounds (s : list Z * list Z) : list Z * list Z :=
  let s := BODY_00_15 A B C D E T 0 s in
  let s := BODY_00_15 T A B C D E 1 s in
  let s := BODY_00_15 E T A B C D 2 s in
  let s := BODY_00_15 D E T A B C 3 s in
  let s := BODY_00_15 C D E T A B 4 s in
  let s := BODY_00_15 B C D E T A 5 s in
  let s := BODY_00_15 A B C D E T 6 s in
  let s := BODY_00_15 T A B C D E 7 s in
  let s := BODY_00_15 E T A B C D 8 s in
  let s := BODY_00_15 D E T A B C 9 s in
  let s := BODY_00_15 C D E T A B 10 s in
  let s := BODY_00_15 B C D E T A 11 s in
  let s := BODY_00_15 A B C D E T 12 s in
  let s := BODY_00_15 T A B C D E 13 s in
  let s := BODY_00_15 E T A B C D 14 s in
  let s := BODY_00_15 D E T A B C 15 s in
  let s := BODY_16_19 C D E T A B 0 0 2 8 13 s in
  let s := BODY_16_19 B C D E T A 1 1 3 9 14 s in
  let s := BODY_16_19 A B C D E T 2 2 4 10 15 s in
  let s := BODY_16_19 T A B C D E 3 3 5 11 0 s in
  let s := BODY_20_31 E T A B C D 4 4 6 12 1 s in
  let s := BODY_20_31 D E T A B C 5 5 7 13 2 s in
  let s := BODY_20_31 C D E T A B 6 6 8 14 3 s in
  let s := BODY_20_31 B C D E T A 7 7 9 15 4 s in
  let s := BODY_20_31 A B C D E T 8 8 10 0 5 s in
  let s := BODY_20_31 T A B C D E 9 9 11 1 6 s in
  let s := BODY_20_31 E T A B C D 10 10 12 2 7 s in
  let s := BODY_20_31 D E T A B C 11 11 13 3 8 s in
  let s := BODY_20_31 C D E T A B 12 12 14 4 9 s in
  let s := BODY_20_31 B C D E T A 13 13 15 5 10 s in
  let s := BODY_20_31 A B C D E T 14 14 0 6 11 s in
  let s := BODY_20_31 T A B C D E 15 15 1 7 12 s in
  let s := BODY_32_39 E T A B C D 0 2 8 13 s in
  let s := BODY_32_39 D E T A B C 1 3 9 14 s in
  let s := BODY_32_39 C D E T A B 2 4 10 15 s in
  let s := BODY_32_39 B C D E T A 3 5 11 0 s in
  let s := BODY_32_39 A B C D E T 4 6 12 1 s in
  let s := BODY_32_39 T A B C D E 5 7 13 2 s in
  let s := BODY_32_39 E T A B C D 6 8 14 3 s in
  let s := BODY_32_39 D E T A B C 7 9 15 4 s in
  let s := BODY_40_59 C D E T A B 8 10 0 5 s in
  let s := BODY_40_59 B C D E T A 9 11 1 6 s in
  let s := BODY_40_59 A B C D E T 10 12 2 7 s in
  let s := BODY_40_59 T A B C D E 11 13 3 8 s in
  let s := BODY_40_59 E T A B C D 12 14 4 9 s in
  let s := BODY_40_59 D E T A B C 13 15 5 10 s in
  let s := BODY_40_59 C D E T A B 14 0 6 11 s in
  let s := BODY_40_59 B C D E T A 15 1 7 12 s in
  let s := BODY_40_59 A B C D E T 0 2 8 13 s in
  let s := BODY_40_59 T A B C D E 1 3 9 14 s in
  let s := BODY_40_59 E T A B C D 2 4 10 15 s in
  let s := BODY_40_59 D E T A B C 3 5 11 0 s in
  let s := BODY_40_59 C D E T A B 4 6 12 1 s in
  let s := BODY_40_59 B C D E T A 5 7 13 2 s in
  let s := BODY_40_59 A B C D E T 6 8 14 3 s in
  let s := BODY_40_59 T A B C D E 7 9 15 4 s in
  let s := BODY_40_59 E T A B C D 8 10 0 5 s in
  let s := BODY_40_59 D E T A B C 9 11 1 6 s in
  let s := BODY_40_59 C D E T A B 10 12 2 7 s in
  let s := BODY_40_59 B C D E T A 11 13 3 8 s in
  let s := BODY_60_79 A B C D E T 12 14 4 9 s in
  let s := BODY_60_79 T A B C D E 13 15 5 10 s in
  let s := BODY_60_79 E T A B C D 14 0 6 11 s in
  let s := BODY_60_79 D E T A B C 15 1 7 12 s in
  let s := BODY_60_79 C D E T A B 0 2 8 13 s in
  let s := BODY_60_79 B C D E T A 1 3 9 14 s in
  let s := BODY_60_79 A B C D E T 2 4 10 15 s in
  let s := BODY_60_79 T A B C D E 3 5 11 0 s in
  let s := BODY_60_79 E T A B C D 4 6 12 1 s in
  let s := BODY_60_79 D E T A B C 5 7 13 2 s in
  let s := BODY_60_79 C D E T A B 6 8 14 3 s in
  let s := BODY_60_79 B C D E T A 7 9 15 4 s in
  let s := BODY_60_79 A B C D E T 8 10 0 5 s in
  let s := BODY_60_79 T A B C D E 9 11 1 6 s in
  let s := BODY_60_79 E T A B C D 10 12 2 7 s in
  let s := BODY_60_79 D E T A B C 11 13 3 8 s in
  let s := BODY_60_79 C D E T A B 12 14 4 9 s in
  let s := BODY_60_79 B C D E T A 13 15 5 10 s in
  let s := BODY_60_79 A B C D E T 14 0 6 11 s in
  let s := BODY_60_79 T A B C D E 15 1 7 12 s in
  s.

(** A turn of the loop of [sha1_block_data_order_nohw]. *)
Definition sha1_block (state data : list Z) : list Z :=
  let '(r, _) := sha1_rounds (take 5 state ++ [0], load_message data) in
  [(word state 0 + word r E) .& 0xffffffff; (word state 1 + word r T) .& 0xffffffff; (word state 2 + word r A) .& 0xffffffff;
   (word state 3 + word r B) .& 0xffffffff; (word state 4 + word r C) .& 0xffffffff].

(** [for (;;) { ...; if (--num == 0) break; }], called with [num] positive. *)
Definition sha1_block_data_order (state data : list Z) (num : nat) : list Z := md_blocks sha1_block num state data.

(** ** The digest *)
Definition SHA1_Init : MD32_CTX :=
  mkMd32 [0x67452301; 0xefcdab89; 0x98badcfe; 0x10325476; 0xc3d2e1f0] 0 0 (replicate 64 0) 0.
Definition SHA1_Transform (c : MD32_CTX) (data : list Z) : MD32_CTX :=
  mkMd32 (sha1_block_data_order (h c) data 1) (Nl c) (Nh c) (Md32.data c) (num c).
Definition SHA1_Update (c : MD32_CTX) (data : list Z) : MD32_CTX := crypto_md32_update sha1_block_data_order c data.
Definition sha1_output_state (ctx : MD32_CTX) : list Z :=
  CRYPTO_store_u32_be (word (h ctx) 0) ++ CRYPTO_store_u32_be (word (h ctx) 1) ++ CRYPTO_store_u32_be (word (h ctx) 2) ++
  CRYPTO_store_u32_be (word (h ctx) 3) ++ CRYPTO_store_u32_be (word (h ctx) 4).
Definition SHA1_Final (c : MD32_CTX) : list Z := sha1_output_state (crypto_md32_final sha1_block_data_order true c).
Definition SHA1 (data : list Z) : list Z := SHA1_Final (SHA1_Update SHA1_Init data).

(** [abc] *)
Lemma sha1_example : SHA1 [97; 98; 99] = be_bytes 20 0xa9993e364706816aba3e25717850c26c9cd0d89d.
Proof. vm_compute. reflexivity. Qed.

(** ** The functions of FIPS 180-4 *)
Lemma F_00_19_Ch b c d : F_00_19 b c d = Ch b c d.
Proof.
  unfold F_00_19, Ch. apply Z.bits_inj'. intros i Hi. rewrite !Z.lxor_spec, !Z.land_spec, Z.lxor_spec, Z.lnot_spec by done. btauto.
Qed.

Lemma F_40_59_Maj b c d : F_40_59 b c d = Maj b c d.
Proof.
  unfold F_40_59, Maj. apply Z.bits_inj'. intros i Hi. rewrite !Z.lxor_spec, !Z.lor_spec, !Z.land_spec, Z.lor_spec. btauto.
Qed.

Lemma rotl_ROTL x : CRYPTO_rotl_u32 x 1 = ROTL 1 x ∧ CRYPTO_rotl_u32 x 5 = ROTL 5 x ∧ CRYPTO_rotl_u32 x 30 = ROTL 30 x.
Proof. done. Qed.

(** The rounds, with the names of the registers computed: [a] is register
    [6 - t mod 6]. *)
Definition reg (k j : nat) : nat := ((k + j) mod 6)%nat.
Definition role (t : nat) : nat := (6 - t mod 6)%nat.
Definition sha1_round (s : list Z * list Z) (t : nat) : list Z * list Z :=
  let k := role t in
  let x j := ((t + j) mod 16)%nat in
  if (t <? 16)%nat then BODY_00_15 (reg k 0) (reg k 1) (reg k 2) (reg k 3) (reg k 4) (reg k 5) t s
  else if (t <? 20)%nat then BODY_16_19 (reg k 0) (reg k 1) (reg k 2) (reg k 3) (reg k 4) (reg k 5) (x 0%nat) (x 0%nat) (x 2%nat) (x 8%nat) (x 13%nat) s
  else if (t <? 32)%nat then BODY_20_31 (reg k 0) (reg k 1) (reg k 2) (reg k 3) (reg k 4) (reg k 5) (x 0%nat) (x 0%nat) (x 2%nat) (x 8%nat) (x 13%nat) s
  else if (t <? 40)%nat then BODY_32_39 (reg k 0) (reg k 1) (reg k 2) (reg k 3) (reg k 4) (reg k 5) (x 0%nat) (x 2%nat) (x 8%nat) (x 13%nat) s
  else if (t <? 60)%nat then BODY_40_59 (reg k 0) (reg k 1) (reg k 2) (reg k 3) (reg k 4) (reg k 5) (x 0%nat) (x 2%nat) (x 8%nat) (x 13%nat) s
  else BODY_60_79 (reg k 0) (reg k 1) (reg k 2) (reg k 3) (reg k 4) (reg k 5) (x 0%nat) (x 2%nat) (x 8%nat) (x 13%nat) s.

Lemma sha1_rounds_fold s : sha1_rounds s = foldl sha1_round s (seq 0 80).
Proof.
  unfold sha1_rounds.
  cbv beta iota zeta delta [foldl seq sha1_round role reg Nat.ltb Nat.leb Nat.modulo Nat.divmod Nat.add Nat.sub snd fst]. reflexivity.
Qed.

(** The working variables in the registers. *)
Definition view6 (k : nat) (r : list Z) : Z * Z * Z * Z * Z :=
  (word r (reg k 0), word r (reg k 1), word r (reg k 2), word r (reg k 3), word r (reg k 4)).

Definition round_of (kk : Z) (F : Z → Z → Z → Z) (x : Z) (v : Z * Z * Z * Z * Z) : Z * Z * Z * Z * Z :=
  let '(a, b, c, d, e) := v in (u32 (ROTL 5 a + F b c d + e + kk + x), a, ROTL 30 b, c, d).

Lemma BODY_view kk F k x r X : (0 < k ≤ 6)%nat → length r = 6%nat →
  let s := BODY kk F (reg k 0) (reg k 1) (reg k 2) (reg k 3) (reg k 4) (reg k 5) x (r, X) in
  length (fst s) = 6%nat ∧ snd s = X ∧ view6 (reg k 5) (fst s) = round_of kk F x (view6 k r).
Proof.
  intros Hk Hr. do 6 (destruct r as [|? r]; [done|]). destruct r; [|done]. clear Hr.
  assert (Hc : k = 1%nat ∨ k = 2%nat ∨ k = 3%nat ∨ k = 4%nat ∨ k = 5%nat ∨ k = 6%nat) by lia.
  destruct Hc as [->|[->|[->|[->|[->| ->]]]]]; (split; [done|]); (split; [done|]);
    cbv [view6 round_of BODY reg Nat.modulo Nat.divmod Nat.add Nat.sub fst snd word nth insert list_insert];
    match goal with |- (?x, _, _, _, _) = (?y, _, _, _, _) => replace x with y; [reflexivity|] end;
    apply (f_equal u32); match goal with |- context [CRYPTO_rotl_u32 ?a 5] => change (CRYPTO_rotl_u32 a 5) with (ROTL 5 a) end; ring.
Qed.

(** The window of the schedule. *)
Definition window (X W : list Z) (t : nat) : Prop :=
  length X = 16%nat ∧ ∀ i, (i < t `max` 16)%nat → (t `max` 16 ≤ i + 16)%nat → word X (i mod 16) = W.[i].

Lemma window_le X W t : (S t ≤ 16)%nat → window X W t → window X W (S t).
Proof. unfold window. intros Ht. by replace (t `max` 16)%nat with (S t `max` 16)%nat by lia. Qed.

Lemma window_put X W t : (16 ≤ t)%nat → window X W t → window (<[(t mod 16)%nat := W.[t]]> X) W (S t).
Proof.
  intros Ht [Hl Hw]. split; [by rewrite length_insert|]. rewrite Nat.max_l in * by lia. intros i Hi Hi'. unfold word.
  destruct (decide (i = t)) as [->|Hne].
  - rewrite nth_lookup, list_lookup_insert_eq by (rewrite Hl; apply Nat.mod_upper_bound; lia). done.
  - rewrite nth_lookup, list_lookup_insert_ne, <- nth_lookup; [apply Hw; lia|].
    pose proof (Nat.div_mod_eq i 16). pose proof (Nat.div_mod_eq t 16). intros E. lia.
Qed.

Lemma window_get X W t j : (16 ≤ t)%nat → (j < 16)%nat → window X W t → word X ((t + j) mod 16) = W.[t + j - 16].
Proof.
  intros Ht Hj [_ Hw]. rewrite <- Hw by lia. f_equal. rewrite <- (Nat.Div0.mod_add (t + j - 16) 1 16). f_equal. lia.
Qed.

Lemma sha1_update_word M X t : length M = 16%nat → (16 ≤ t < 80)%nat → window X (sha1_schedule M) t →
  CRYPTO_rotl_u32 (((word X ((t + 0) mod 16) .^ word X ((t + 2) mod 16)) .^ word X ((t + 8) mod 16)) .^ word X ((t + 13) mod 16)) 1
  = (sha1_schedule M).[t].
Proof.
  intros HM Ht Hw. rewrite (proj1 (rotl_ROTL _)), sha1_schedule_nth by done.
  rewrite (window_get X (sha1_schedule M) t 0 ltac:(lia) ltac:(lia) Hw), (window_get X (sha1_schedule M) t 2 ltac:(lia) ltac:(lia) Hw),
    (window_get X (sha1_schedule M) t 8 ltac:(lia) ltac:(lia) Hw), (window_get X (sha1_schedule M) t 13 ltac:(lia) ltac:(lia) Hw).
  set (V := sha1_schedule M). clearbody V. unfold sha1_word.
  replace (t + 0 - 16)%nat with (t - 16)%nat by lia. replace (t + 2 - 16)%nat with (t - 14)%nat by lia.
  replace (t + 8 - 16)%nat with (t - 8)%nat by lia. replace (t + 13 - 16)%nat with (t - 3)%nat by lia.
  apply (f_equal (ROTL 1)), Z.bits_inj'. intros i Hi. rewrite !Z.lxor_spec. btauto.
Qed.

Lemma view_next t r : view6 (role (S t)) r = view6 (reg (role t) 5) r.
Proof.
  assert (E : ∀ j, reg (role (S t)) j = reg (reg (role t) 5) j); [|unfold view6; by rewrite !E].
  intros j. unfold reg, role. rewrite Nat.Div0.add_mod_idemp_l. replace (S t) with (t + 1)%nat by lia.
  pose proof (Nat.div_mod_eq t 6) as E. pose proof (Nat.mod_upper_bound t 6 ltac:(lia)) as Hm.
  destruct (decide (t mod 6 = 5)%nat) as [E5|E5].
  - replace ((t + 1) mod 6)%nat with 0%nat by (apply (Nat.mod_unique _ _ (t / 6 + 1)); lia). rewrite E5. f_equal.
  - replace ((t + 1) mod 6)%nat with (t mod 6 + 1)%nat by (apply (Nat.mod_unique _ _ (t / 6)); lia).
    rewrite <- (Nat.Div0.mod_add (6 - (t mod 6 + 1) + j) 1 6). f_equal. lia.
Qed.

Lemma word_insert (l : list Z) i v : (i < length l)%nat → word (<[i := v]> l) i = v.
Proof. intros H. unfold word. by rewrite nth_lookup, list_lookup_insert_eq. Qed.

Lemma reg_lt k j : (reg k j < 6)%nat.
Proof. apply Nat.mod_upper_bound. lia. Qed.

(** A round that updates the schedule. *)
Lemma update_round kk F M t r X : length M = 16%nat → (16 ≤ t < 80)%nat → length r = 6%nat → window X (sha1_schedule M) t →
  let k := role t in
  let xi := ((t + 0) mod 16)%nat in
  let s := Xupdate (reg k 5) xi xi ((t + 2) mod 16) ((t + 8) mod 16) ((t + 13) mod 16) (r, X) in
  let s' := BODY kk F (reg k 0) (reg k 1) (reg k 2) (reg k 3) (reg k 4) (reg k 5) ((sha1_schedule M).[t]) s in
  word (fst s) (reg k 5) = (sha1_schedule M).[t] ∧ word (snd s) xi = (sha1_schedule M).[t] ∧
  length (fst s') = 6%nat ∧ window (snd s') (sha1_schedule M) (S t) ∧
  view6 (role (S t)) (fst s') = round_of kk F ((sha1_schedule M).[t]) (view6 k r).
Proof.
  intros HM Ht Hr Hw k xi s s'. assert (Hk : (0 < k ≤ 6)%nat) by (unfold k, role; pose proof (Nat.mod_upper_bound t 6); lia).
  assert (Es : s = (<[reg k 5 := (sha1_schedule M).[t]]> r, <[(t mod 16)%nat := (sha1_schedule M).[t]]> X)).
  { unfold s, Xupdate, xi. rewrite (sha1_update_word M X t HM Ht Hw). by rewrite Nat.add_0_r. }
  destruct (BODY_view kk F k ((sha1_schedule M).[t]) (<[reg k 5 := (sha1_schedule M).[t]]> r) (<[(t mod 16)%nat := (sha1_schedule M).[t]]> X)) as (E1 & E2 & E3);
    [exact Hk|rewrite length_insert; exact Hr|]. unfold s'. rewrite Es. cbn [fst snd]. split; [apply word_insert; rewrite Hr; apply reg_lt|].
  split; [unfold xi; rewrite Nat.add_0_r; apply word_insert; destruct Hw as [-> _]; apply Nat.mod_upper_bound; lia|].
  split; [exact E1|]. split; [rewrite E2; apply window_put; [lia|exact Hw]|]. rewrite view_next. fold k. rewrite E3. f_equal.
  assert (Hne : ∀ j, (j < 5)%nat → reg k j ≠ reg k 5).
  { intros j Hj. unfold reg. assert (Hc : k = 1%nat ∨ k = 2%nat ∨ k = 3%nat ∨ k = 4%nat ∨ k = 5%nat ∨ k = 6%nat) by lia.
    assert (Hc' : j = 0%nat ∨ j = 1%nat ∨ j = 2%nat ∨ j = 3%nat ∨ j = 4%nat) by lia.
    clear - Hc Hc'. destruct Hc as [->|[->|[->|[->|[->| ->]]]]], Hc' as [->|[->|[->|[->| ->]]]]; done. }
  unfold view6, word. rewrite !nth_lookup, !list_lookup_insert_ne by (apply not_eq_sym, Hne; lia). done.
Qed.

Lemma sha1_step_round W v t : sha1_step W v t = round_of (sha1_K t) (sha1_f t) (W.[t]) v.
Proof. by destruct v as [[[[a b] c] d] e]. Qed.

Lemma round_of_ext kk F F' x v : (∀ b c d, F b c d = F' b c d) → round_of kk F x v = round_of kk F' x v.
Proof. intros HF. destruct v as [[[[a b] c] d] e]. unfold round_of. by rewrite HF. Qed.

(** One round of the code is one of the standard. *)
Lemma sha1_round_spec M t s : length M = 16%nat → (t < 80)%nat → length (fst s) = 6%nat → window (snd s) (sha1_schedule M) t →
  let s' := sha1_round s t in
  length (fst s') = 6%nat ∧ window (snd s') (sha1_schedule M) (S t) ∧
  view6 (role (S t)) (fst s') = sha1_step (sha1_schedule M) (view6 (role t) (fst s)) t.
Proof.
  destruct s as [r X]. cbn [fst snd]. intros HM Ht Hr Hw. rewrite sha1_step_round. cbv zeta. unfold sha1_round.
  destruct (Nat.ltb_spec t 16) as [H16|H16].
  - assert (Hk : (0 < role t ≤ 6)%nat) by (unfold role; pose proof (Nat.mod_upper_bound t 6); lia). unfold BODY_00_15. cbn [snd].
    assert (Hx : word X t = (sha1_schedule M).[t]).
    { destruct Hw as [_ Hw]. rewrite <- Hw by lia. by rewrite Nat.mod_small. }
    rewrite Hx. destruct (BODY_view K_00_19 F_00_19 (role t) ((sha1_schedule M).[t]) r X Hk Hr) as (E1 & E2 & E3).
    split; [exact E1|]. split; [rewrite E2; apply window_le; [lia|exact Hw]|]. rewrite view_next, E3.
    unfold sha1_f, sha1_K. destruct (Nat.ltb_spec t 20); [|lia]. apply round_of_ext, F_00_19_Ch.
  - assert (Hu : ∀ kk F, _) by exact (λ kk F, update_round kk F M t r X HM (conj H16 Ht) Hr Hw). cbv zeta in Hu.
    destruct (Nat.ltb_spec t 20); [|destruct (Nat.ltb_spec t 32); [|destruct (Nat.ltb_spec t 40); [|destruct (Nat.ltb_spec t 60)]]].
    + destruct (Hu K_00_19 F_00_19) as (Ef & _ & E1 & E2 & E3). unfold BODY_16_19. cbv zeta. rewrite Ef.
      split; [exact E1|]. split; [exact E2|]. rewrite E3. unfold sha1_f, sha1_K. destruct (Nat.ltb_spec t 20); [|lia]. apply round_of_ext, F_00_19_Ch.
    + destruct (Hu K_20_39 F_20_39) as (Ef & _ & E1 & E2 & E3). unfold BODY_20_31. cbv zeta. rewrite Ef.
      split; [exact E1|]. split; [exact E2|]. rewrite E3. unfold sha1_f, sha1_K. destruct (Nat.ltb_spec t 20), (Nat.ltb_spec t 40); (lia || done).
    + destruct (Hu K_20_39 F_20_39) as (Ef & _ & E1 & E2 & E3). unfold BODY_32_39. cbv zeta. rewrite Ef.
      split; [exact E1|]. split; [exact E2|]. rewrite E3. unfold sha1_f, sha1_K. destruct (Nat.ltb_spec t 20), (Nat.ltb_spec t 40); (lia || done).
    + destruct (Hu K_40_59 F_40_59) as (Ef & _ & E1 & E2 & E3). unfold BODY_40_59. cbv zeta. rewrite Ef.
      split; [exact E1|]. split; [exact E2|]. rewrite E3. unfold sha1_f, sha1_K.
      destruct (Nat.ltb_spec t 20), (Nat.ltb_spec t 40), (Nat.ltb_spec t 60); try lia. apply round_of_ext, F_40_59_Maj.
    + destruct (Hu K_60_79 F_60_79) as (_ & Ef & E1 & E2 & E3). unfold BODY_60_79. cbv zeta. rewrite Ef.
      split; [exact E1|]. split; [exact E2|]. rewrite E3. unfold sha1_f, sha1_K.
      destruct (Nat.ltb_spec t 20), (Nat.ltb_spec t 40), (Nat.ltb_spec t 60); (lia || done).
Qed.

Lemma load_message_spec data : bytes_ok data → length data = 64%nat → load_message data = message_words data.
Proof.
  intros Hb Hl. unfold load_message, message_words. apply list_fmap_ext. intros k i Hi%lookup_seq.
  apply load_u32_be_val; [by apply bytes_ok_drop|rewrite length_drop; lia].
Qed.

Lemma length_message_words data : length (message_words data) = 16%nat.
Proof. done. Qed.

Lemma window_start M W : length M = 16%nat → (∀ i, (i < 16)%nat → W.[i] = M.[i]) → window M W 0.
Proof. intros HM HW. split; [done|]. intros i Hi _. rewrite Nat.mod_small by lia. symmetry. apply HW. lia. Qed.

Lemma sha1_rounds_spec M r X : length M = 16%nat → length r = 6%nat → window X (sha1_schedule M) 0 →
  ∀ n, (n ≤ 80)%nat → let s := foldl sha1_round (r, X) (seq 0 n) in
  length (fst s) = 6%nat ∧ window (snd s) (sha1_schedule M) n ∧
  view6 (role n) (fst s) = foldl (sha1_step (sha1_schedule M)) (view6 (role 0) r) (seq 0 n).
Proof.
  intros HM Hr Hw n. induction n as [|n IH]; intros Hn; [done|]. cbv zeta in *. rewrite !seq_S, !foldl_app.
  destruct IH as (E1 & E2 & E3); [lia|]. cbn [foldl Nat.add]. rewrite <- E3. apply sha1_round_spec; [done|lia|done|done].
Qed.

Lemma land_u32 x : x .& 0xffffffff = u32 x.
Proof. apply (Z.land_ones x 32). lia. Qed.

Lemma sha1_block_compress state data : length state = 5%nat → bytes_ok data → length data = 64%nat →
  sha1_block state data = sha1_compress state data.
Proof.
  intros Hs Hb Hl. unfold sha1_block, sha1_compress. rewrite sha1_rounds_fold, load_message_spec by done.
  set (M := message_words data). assert (HM : length M = 16%nat) by done. clearbody M.
  destruct (sha1_rounds_spec M (take 5 state ++ [0]) M HM) with (n := 80%nat) as (E1 & E2 & E3).
  - rewrite length_app, length_take, Hs. done.
  - apply window_start; [done|]. intros i Hi. apply extend_prefix. lia.
  - lia.
  - do 6 (destruct state as [|? state]; try discriminate Hs). clear Hs. cbn [take app] in *. clear E1 E2. revert E3. cbv zeta.
    set (s80 := foldl sha1_round _ _). clearbody s80. destruct s80 as [r' X']. cbn [fst]. generalize (sha1_step (sha1_schedule M)). intros step.
    unfold view6 at 2. change (reg (role 0) 0) with 0%nat. change (reg (role 0) 1) with 1%nat. change (reg (role 0) 2) with 2%nat.
    change (reg (role 0) 3) with 3%nat. change (reg (role 0) 4) with 4%nat. cbn [word nth].
    generalize (seq 0 80). intros ts E3. rewrite <- E3. unfold view6. change (reg (role 80) 0) with E. change (reg (role 80) 1) with T.
    change (reg (role 80) 2) with A. change (reg (role 80) 3) with B. change (reg (role 80) 4) with C. cbv zeta. rewrite !land_u32.
    by rewrite !(Z.add_comm (word r' _)).
Qed.

#[export] Instance sha1_block_func : BlockFunc sha1_block_data_order sha1_block.
Proof. intros n iv l _ _. reflexivity. Qed.

Lemma sha1_compress_ok H b : words_ok 5 (sha1_compress H b).
Proof.
  unfold sha1_compress. cbv zeta. destruct (foldl _ _ _) as [[[[a b'] c] d] e]. split; [done|]. rewrite !Forall_cons.
  split_and!; try apply u32_range. constructor.
Qed.

Lemma sha1_hash_eq iv msg : words_ok 5 iv → bytes_ok msg →
  md_hash sha1_block iv true msg = md_hash sha1_compress iv true msg ∧ words_ok 5 (md_hash sha1_compress iv true msg).
Proof.
  apply md_hash_ext. intros H b [Hl _] Hb Hlb. split; [by apply sha1_block_compress|apply sha1_compress_ok].
Qed.

Lemma sha1_output_digest c : words_ok 5 (h c) → sha1_output_state c = digest 5 (h c).
Proof.
  intros [Hl Hr]. unfold sha1_output_state, digest. destruct c as [H nl nh d n]. cbn [h] in *.
  do 6 (destruct H as [|? H]; try discriminate Hl). rewrite !Forall_cons in Hr. destruct Hr as (H0 & H1 & H2 & H3 & H4 & _).
  cbn [word nth take fmap list_fmap concat]. rewrite !store_u32_be_bytes by assumption. by rewrite app_nil_r.
Qed.

(** SHA-1, however the message is cut, is that of FIPS 180-4. *)
Lemma SHA1_fips180 (pieces : list (list Z)) (Hb : Forall bytes_ok pieces) (Hl : Forall (λ d, CBS_len d < 2 ^ 64) pieces) :
  SHA1_Final (foldl SHA1_Update SHA1_Init pieces) = fips_sha1 (concat pieces).
Proof.
  change SHA1_Init with (ctx_of sha1_block sha1_H0 []). change SHA1_Update with (crypto_md32_update sha1_block_data_order).
  rewrite (update_pieces _ sha1_block) by done. cbn [app]. unfold SHA1_Final, fips_sha1.
  assert (Hm : bytes_ok (concat pieces)) by by apply concat_bytes.
  destruct (sha1_hash_eq sha1_H0 (concat pieces)) as [E HP]; [by split; [|apply (bool_decide_unpack _)]|done|].
  rewrite sha1_output_digest; rewrite (md32_final_spec _ sha1_block), E; done.
Qed.
