(* ===== verification/Sha256.v ===== *)
(** SHA-256 and SHA-224 ([crypto/fipsmodule/sha/sha256.c.inc]) over the collector
    of [Md32], in the portable form of the build.  As in [Sha1] the unrolled
    rounds rotate the names of the registers; the window of the schedule is the
    array [X].  The theorem relates them to FIPS 180-4, whose constants are
    computed from the primes they stand for. *)
From S2P Require Import Prelude Radix Cbs Words Chacha Md32 ShaSpec Sha1.

(** ** The block function

    The registers a to h, the array X and T1. *)
#[local] Abbreviation ra := 0%nat.
#[local] Abbreviation rb := 1%nat.
#[local] Abbreviation rc := 2%nat.
#[local] Abbreviation rd := 3%nat.
#[local] Abbreviation re := 4%nat.
#[local] Abbreviation rf := 5%nat.
#[local] Abbreviation rg := 6%nat.
#[local] Abbreviation rh := 7%nat.
Record rounds := mkRounds { regs : list Z; X : list Z; T1 : Z }.

(** The table, in the rows of the code. *)
Definition K256 : list Z :=
  concat [
     [0x428a2f98; 0x71374491; 0xb5c0fbcf; 0xe9b5dba5; 0x3956c25b];
     [0x59f111f1; 0x923f82a4; 0xab1c5ed5; 0xd807aa98; 0x12835b01];
     [0x243185be; 0x550c7dc3; 0x72be5d74; 0x80deb1fe; 0x9bdc06a7];
     [0xc19bf174; 0xe49b69c1; 0xefbe4786; 0x0fc19dc6; 0x240ca1cc];
     [0x2de92c6f; 0x4a7484aa; 0x5cb0a9dc; 0x76f988da; 0x983e5152];
     [0xa831c66d; 0xb00327c8; 0xbf597fc7; 0xc6e00bf3; 0xd5a79147];
     [0x06ca6351; 0x14292967; 0x27b70a85; 0x2e1b2138; 0x4d2c6dfc];
     [0x53380d13; 0x650a7354; 0x766a0abb; 0x81c2c92e; 0x92722c85];
     [0xa2bfe8a1; 0xa81a664b; 0xc24b8b70; 0xc76c51a3; 0xd192e819];
     [0xd6990624; 0xf40e3585; 0x106aa070; 0x19a4c116; 0x1e376c08];
     [0x2748774c; 0x34b0bcb5; 0x391c0cb3; 0x4ed8aa4a; 0x5b9cca4f];
     [0x682e6ff3; 0x748f82ee; 0x78a5636f; 0x84c87814; 0x8cc70208];
     [0x90befffa; 0xa4506ceb; 0xbef9a3f7; 0xc67178f2]].

Definition Sigma0 (x : Z) : Z := (CRYPTO_rotr_u32 x 2 .^ CRYPTO_rotr_u32 x 13) .^ CRYPTO_rotr_u32 x 22.
Definition Sigma1 (x : Z) : Z := (CRYPTO_rotr_u32 x 6 .^ CRYPTO_rotr_u32 x 11) .^ CRYPTO_rotr_u32 x 25.
Definition sigma0 (x : Z) : Z := (CRYPTO_rotr_u32 x 7 .^ CRYPTO_rotr_u32 x 18) .^ (x ≫ 3).
Definition sigma1 (x : Z) : Z := (CRYPTO_rotr_u32 x 17 .^ CRYPTO_rotr_u32 x 19) .^ (x ≫ 10).
(** [~x] of a word is [Z.lnot x] modulo 2^32, and meets a word under [&]. *)
Definition Ch256 (x y z : Z) : Z := (x .& y) .^ (Z.lnot x .& z).
Definition Maj256 (x y z : Z) : Z := ((x .& y) .^ (x .& z)) .^ (y .& z).

(** [T1 = X[i]] *)
Definition set_T1 (i : nat) (s : rounds) : rounds := mkRounds (regs s) (X s) (word (X s) i).

Definition ROUND_00_15 (i a b c d e f g h : nat) (s : rounds) : rounds :=
  let r := regs s in
  let T1 := T1 s ⊞[32] (word r h + Sigma1 (word r e) + Ch256 (word r e) (word r f) (word r g) + word K256 i) in
  let r := <[h := Sigma0 (word r a) ⊞[32] Maj256 (word r a) (word r b) (word r c)]> r in
  let r := <[d := word r d ⊞[32] T1]> r in
  let r := <[h := word r h ⊞[32] T1]> r in
  mkRounds r (X s) T1.

Definition ROUND_16_63 (i a b c d e f g h : nat) (s : rounds) : rounds :=
  let X' := X s in
  let s0 := word X' ((i + 1) mod 16) in
  let s0 := sigma0 s0 in
  let s1 := word X' ((i + 14) mod 16) in
  let s1 := sigma1 s1 in
  let v := word X' (i mod 16) ⊞[32] (s0 + s1 + word X' ((i + 9) mod 16)) in
  ROUND_00_15 i a b c d e f g h (mkRounds (regs s) (<[(i mod 16)%nat := v]> X') v).

(** The body of [for (i = 16; i < 64; i += 8)]. *)
Definition sha256_turn (s : rounds) (i : nat) : rounds :=
  let s := ROUND_16_63 (i + 0) ra rb rc rd re rf rg rh s in
  let s := ROUND_16_63 (i + 1) rh ra rb rc rd re rf rg s in
  let s := ROUND_16_63 (i + 2) rg rh ra rb rc rd re rf s in
  let s := ROUND_16_63 (i + 3) rf rg rh ra rb rc rd re s in
  let s := ROUND_16_63 (i + 4) re rf rg rh ra rb rc rd s in
  let s := ROUND_16_63 (i + 5) rd re rf rg rh ra rb rc s in
  let s := ROUND_16_63 (i + 6) rc rd re rf rg rh ra rb s in
  let s := ROUND_16_63 (i + 7) rb rc rd re rf rg rh ra s in
  s.
Definition sha256_rounds (s : rounds) : rounds :=
  let s := ROUND_00_15 0 ra rb rc rd re rf rg rh (set_T1 0 s) in
  let s := ROUND_00_15 1 rh ra rb rc rd re rf rg (set_T1 1 s) in
  let s := ROUND_00_15 2 rg rh ra rb rc rd re rf (set_T1 2 s) in
  let s := ROUND_00_15 3 rf rg rh ra rb rc rd re (set_T1 3 s) in
  let s := ROUND_00_15 4 re rf rg rh ra rb rc rd (set_T1 4 s) in
  let s := ROUND_00_15 5 rd re rf rg rh ra rb rc (set_T1 5 s) in
  let s := ROUND_00_15 6 rc rd re rf rg rh ra rb (set_T1 6 s) in
  let s := ROUND_00_15 7 rb rc rd re rf rg rh ra (set_T1 7 s) in
  let s := ROUND_00_15 8 ra rb rc rd re rf rg rh (set_T1 8 s) in
  let s := ROUND_00_15 9 rh ra rb rc rd re rf rg (set_T1 9 s) in
  let s := ROUND_00_15 10 rg rh ra rb rc rd re rf (set_T1 10 s) in
  let s := ROUND_00_15 11 rf rg rh ra rb rc rd re (set_T1 11 s) in
  let s := ROUND_00_15 12 re rf rg rh ra rb rc rd (set_T1 12 s) in
  let s := ROUND_00_15 13 rd re rf rg rh ra rb rc (set_T1 13 s) in
  let s := ROUND_00_15 14 rc rd re rf rg rh ra rb (set_T1 14 s) in
  let s := ROUND_00_15 15 rb rc rd re rf rg rh ra (set_T1 15 s) in
  foldl sha256_turn s [16; 24; 32; 40; 48; 56]%nat.

(** A turn of [while (num--)]. *)
Definition sha256_block (state data : list Z) : list Z :=
  let r := regs (sha256_rounds (mkRounds (take 8 state) (load_message data) 0)) in
  (λ i, word state i ⊞[32] word r i) <$> seq 0 8.
Definition sha256_block_data_order (state data : list Z) (num : nat) : list Z := md_blocks sha256_block num state data.

(** ** The digests *)
Definition SHA224_DIGEST_LENGTH : nat := 28.
Definition SHA256_DIGEST_LENGTH : nat := 32.

(** [struct sha256_state_st] *)
Record SHA256_CTX := mkSha256 { md32 : MD32_CTX; md_len : nat }.

Definition SHA224_Init : SHA256_CTX :=
  mkSha256 (mkMd32 [0xc1059ed8; 0x367cd507; 0x3070dd17; 0xf70e5939; 0xffc00b31; 0x68581511; 0x64f98fa7; 0xbefa4fa4] 0 0 (replicate 64 0) 0)
    SHA224_DIGEST_LENGTH.
Definition SHA256_Init : SHA256_CTX :=
  mkSha256 (mkMd32 [0x6a09e667; 0xbb67ae85; 0x3c6ef372; 0xa54ff53a; 0x510e527f; 0x9b05688c; 0x1f83d9ab; 0x5be0cd19] 0 0 (replicate 64 0) 0)
    SHA256_DIGEST_LENGTH.
Definition SHA256_Transform (c : SHA256_CTX) (data : list Z) : SHA256_CTX :=
  let m := md32 c in
  mkSha256 (mkMd32 (sha256_block_data_order (h m) data 1) (Nl m) (Nh m) (Md32.data m) (num m)) (md_len c).
Definition SHA256_TransformBlocks (state data : list Z) (num_blocks : nat) : list Z := sha256_block_data_order state data num_blocks.
Definition SHA256_Update (c : SHA256_CTX) (data : list Z) : SHA256_CTX :=
  mkSha256 (crypto_md32_update sha256_block_data_order (md32 c) data) (md_len c).
Definition SHA224_Update (ctx : SHA256_CTX) (data : list Z) : SHA256_CTX := SHA256_Update ctx data.

(** [None] is a return of 0. *)
Definition sha256_final_impl (md_len : nat) (c : SHA256_CTX) : option (list Z) :=
  let m := crypto_md32_final sha256_block_data_order true (md32 c) in
  if (SHA256_DIGEST_LENGTH <? md_len)%nat then None
  else
    let out_words := (md_len / 4)%nat in
    Some (concat ((λ i, CRYPTO_store_u32_be (word (h m) i)) <$> seq 0 out_words)).
Definition SHA256_Final (c : SHA256_CTX) : option (list Z) := sha256_final_impl (md_len c) c.
Definition SHA224_Final (ctx : SHA256_CTX) : option (list Z) := sha256_final_impl SHA224_DIGEST_LENGTH ctx.
Definition SHA256 (data : list Z) : option (list Z) := SHA256_Final (SHA256_Update SHA256_Init data).
Definition SHA224 (data : list Z) : option (list Z) := SHA224_Final (SHA224_Update SHA224_Init data).

(** [abc] *)
Lemma sha256_example :
  SHA256 [97; 98; 99] = Some (be_bytes 32 0xba7816bf8f01cfea414140de5dae2223b00361a396177a9cb410ff61f20015ad).
Proof. vm_compute. reflexivity. Qed.

Lemma K256_primes : K256 = sha256_K.
Proof. vm_compute. reflexivity. Qed.

(** ** The rounds, with the names of the registers computed *)
Definition reg8 (k j : nat) : nat := ((k + j) mod 8)%nat.
Definition role8 (t : nat) : nat := (8 - t mod 8)%nat.
Definition sha256_round (s : rounds) (t : nat) : rounds :=
  let k := role8 t in
  if (t <? 16)%nat then
    ROUND_00_15 t (reg8 k 0) (reg8 k 1) (reg8 k 2) (reg8 k 3) (reg8 k 4) (reg8 k 5) (reg8 k 6) (reg8 k 7) (set_T1 t s)
  else ROUND_16_63 t (reg8 k 0) (reg8 k 1) (reg8 k 2) (reg8 k 3) (reg8 k 4) (reg8 k 5) (reg8 k 6) (reg8 k 7) s.

Lemma sha256_rounds_fold s : sha256_rounds s = foldl sha256_round s (seq 0 64).
Proof.
  unfold sha256_rounds, sha256_turn.
  cbv beta iota zeta delta [foldl seq sha256_round role8 reg8 Nat.ltb Nat.leb Nat.modulo Nat.divmod Nat.add Nat.sub snd fst]. reflexivity.
Qed.

Definition view8 (k : nat) (r : list Z) : Z * Z * Z * Z * Z * Z * Z * Z :=
  (word r (reg8 k 0), word r (reg8 k 1), word r (reg8 k 2), word r (reg8 k 3), word r (reg8 k 4), word r (reg8 k 5), word r (reg8 k 6), word r (reg8 k 7)).

Lemma wrap_eq w x y : (x - y) mod 2 ^ w = 0 → 0 <= w → wrap w x = wrap w y.
Proof. intros H Hw. unfold wrap. replace x with (y + (x - y)) by ring. rewrite Z.add_mod, H, Z.add_0_r, Z.mod_mod by lia. done. Qed.

(** The new values of the registers d and h. *)
Lemma new_d d h S1 C K W : d ⊞[32] (W ⊞[32] (h + S1 + C + K)) = u32 (d + (h + S1 + C + K + W)).
Proof. unfold wrap. rewrite Z.add_mod_idemp_r by done. f_equal. ring. Qed.
Lemma new_h S0 M h S1 C K W : S0 ⊞[32] M ⊞[32] (W ⊞[32] (h + S1 + C + K)) = u32 (h + S1 + C + K + W + (S0 + M)).
Proof. unfold wrap. rewrite Z.add_mod_idemp_l, Z.add_mod_idemp_r by done. f_equal. ring. Qed.

Lemma ROUND_view t k W (s : rounds) : (0 < k ≤ 8)%nat → length (regs s) = 8%nat → T1 s = W.[t] →
  let s' := ROUND_00_15 t (reg8 k 0) (reg8 k 1) (reg8 k 2) (reg8 k 3) (reg8 k 4) (reg8 k 5) (reg8 k 6) (reg8 k 7) s in
  length (regs s') = 8%nat ∧ X s' = X s ∧ view8 (reg8 k 7) (regs s') = sha256_step W (view8 k (regs s)) t.
Proof.
  destruct s as [r X0 T0]. cbn [regs X T1]. intros Hk Hr ->. do 8 (destruct r as [|? r]; [discriminate Hr|]). destruct r; [|discriminate Hr]. clear Hr.
  assert (Hc : k = 1%nat ∨ k = 2%nat ∨ k = 3%nat ∨ k = 4%nat ∨ k = 5%nat ∨ k = 6%nat ∨ k = 7%nat ∨ k = 8%nat) by lia.
  unfold sha256_step, ROUND_00_15. cbn [regs X T1]. rewrite <- K256_primes. change (nth t K256 0) with (word K256 t). generalize (word K256 t) (nth t W 0). intros kk w.
  destruct Hc as [->|[->|[->|[->|[->|[->|[->| ->]]]]]]];
    cbv [view8 ROUND_00_15 reg8 Nat.modulo Nat.divmod Nat.add Nat.sub fst snd word nth insert list_insert regs X T1];
    rewrite new_h, new_d; (split; [reflexivity|]); (split; [reflexivity|]); reflexivity.
Qed.

Lemma view8_next t r : view8 (role8 (S t)) r = view8 (reg8 (role8 t) 7) r.
Proof.
  assert (E : ∀ j, reg8 (role8 (S t)) j = reg8 (reg8 (role8 t) 7) j); [|unfold view8; by rewrite !E].
  intros j. unfold reg8, role8. rewrite Nat.Div0.add_mod_idemp_l. replace (S t) with (t + 1)%nat by lia.
  pose proof (Nat.div_mod_eq t 8) as E. pose proof (Nat.mod_upper_bound t 8 ltac:(lia)) as Hm.
  destruct (decide (t mod 8 = 7)%nat) as [E7|E7].
  - replace ((t + 1) mod 8)%nat with 0%nat by (apply (Nat.mod_unique _ _ (t / 8 + 1)); lia). rewrite E7. f_equal.
  - replace ((t + 1) mod 8)%nat with (t mod 8 + 1)%nat by (apply (Nat.mod_unique _ _ (t / 8)); lia).
    rewrite <- (Nat.Div0.mod_add (8 - (t mod 8 + 1) + j) 1 8). f_equal. lia.
Qed.

Lemma sigma0_eq x : sigma0 x = sigma_0 x.
Proof. reflexivity. Qed.
Lemma sigma1_eq x : sigma1 x = sigma_1 x.
Proof. reflexivity. Qed.

Lemma update_sum a b c d : a ⊞[32] (b + c + d) = u32 (c + d + b + a).
Proof. apply (f_equal u32). ring. Qed.

Lemma sha256_update_word M V t : length M = 16%nat → (16 ≤ t < 64)%nat → window V (sha256_schedule M) t →
  word V (t mod 16) ⊞[32] (sigma0 (word V ((t + 1) mod 16)) + sigma1 (word V ((t + 14) mod 16)) + word V ((t + 9) mod 16)) = (sha256_schedule M).[t].
Proof.
  intros HM Ht Hw. rewrite sha256_schedule_nth by done. rewrite <- (Nat.add_0_r t) at 1.
  rewrite (window_get V (sha256_schedule M) t 0 ltac:(lia) ltac:(lia) Hw), (window_get V (sha256_schedule M) t 1 ltac:(lia) ltac:(lia) Hw),
    (window_get V (sha256_schedule M) t 9 ltac:(lia) ltac:(lia) Hw), (window_get V (sha256_schedule M) t 14 ltac:(lia) ltac:(lia) Hw).
  set (W := sha256_schedule M). clearbody W. unfold sha256_word.
  replace (t + 0 - 16)%nat with (t - 16)%nat by lia. replace (t + 1 - 16)%nat with (t - 15)%nat by lia.
  replace (t + 9 - 16)%nat with (t - 7)%nat by lia. replace (t + 14 - 16)%nat with (t - 2)%nat by lia.
  rewrite sigma0_eq, sigma1_eq. apply update_sum.
Qed.

Lemma sha256_schedule_prefix M i : (i < length M)%nat → (sha256_schedule M).[i] = M.[i].
Proof. apply extend_prefix. Qed.

#[local] Opaque sha256_K sha256_schedule sha256_step.

(** One round of the code is one of the standard. *)
Lemma sha256_round_spec M t s : length M = 16%nat → (t < 64)%nat → length (regs s) = 8%nat → window (X s) (sha256_schedule M) t →
  let s' := sha256_round s t in
  length (regs s') = 8%nat ∧ window (X s') (sha256_schedule M) (S t) ∧
  view8 (role8 (S t)) (regs s') = sha256_step (sha256_schedule M) (view8 (role8 t) (regs s)) t.
Proof.
  intros HM Ht Hr Hw. cbv zeta. unfold sha256_round.
  assert (Hk : (0 < role8 t ≤ 8)%nat) by (unfold role8; pose proof (Nat.mod_upper_bound t 8); lia). rewrite view8_next.
  destruct (Nat.ltb_spec t 16) as [H16|H16].
  - assert (Hx : word (X s) t = (sha256_schedule M).[t]).
    { destruct Hw as [_ Hw]. rewrite <- Hw by lia. by rewrite Nat.mod_small. }
    destruct (ROUND_view t (role8 t) (sha256_schedule M) (set_T1 t s) Hk Hr Hx) as (E1 & E2 & E3).
    split; [exact E1|]. split; [rewrite E2; apply window_le; [lia|exact Hw]|exact E3].
  - unfold ROUND_16_63. cbv zeta. rewrite (sha256_update_word M (X s) t HM (conj H16 Ht) Hw).
    destruct (ROUND_view t (role8 t) (sha256_schedule M) (mkRounds (regs s) (<[(t mod 16)%nat := (sha256_schedule M).[t]]> (X s)) (sha256_schedule M).[t])
      Hk Hr eq_refl) as (E1 & E2 & E3).
    split; [exact E1|]. split; [rewrite E2; apply window_put; [lia|exact Hw]|exact E3].
Qed.

Lemma sha256_rounds_spec M s : length M = 16%nat → length (regs s) = 8%nat → window (X s) (sha256_schedule M) 0 →
  ∀ n, (n ≤ 64)%nat → let s' := foldl sha256_round s (seq 0 n) in
  length (regs s') = 8%nat ∧ window (X s') (sha256_schedule M) n ∧
  view8 (role8 n) (regs s') = foldl (sha256_step (sha256_schedule M)) (view8 (role8 0) (regs s)) (seq 0 n).
Proof.
  intros HM Hr Hw n. induction n as [|n IH]; intros Hn; [done|]. cbv zeta in *. rewrite !seq_S, !foldl_app.
  destruct IH as (E1 & E2 & E3); [lia|]. cbn [foldl Nat.add]. rewrite <- E3. apply sha256_round_spec; [done|lia|done|done].
Qed.

Lemma sha256_block_compress state data : length state = 8%nat → bytes_ok data → length data = 64%nat →
  sha256_block state data = sha256_compress state data.
Proof.
  intros Hs Hb Hl. unfold sha256_block, sha256_compress. rewrite sha256_rounds_fold, load_message_spec by done.
  set (M := message_words data). assert (HM : length M = 16%nat) by done. clearbody M.
  destruct (sha256_rounds_spec M (mkRounds (take 8 state) M 0) HM) with (n := 64%nat) as (E1 & E2 & E3).
  - cbn [regs]. rewrite length_take, Hs. done.
  - apply window_start; [done|]. intros i Hi. cbn [X]. apply sha256_schedule_prefix. lia.
  - lia.
  - do 9 (destruct state as [|? state]; try discriminate Hs). clear Hs. cbn [take] in *. clear E1 E2. revert E3. cbv zeta.
    set (s64 := foldl sha256_round _ _). clearbody s64. destruct s64 as [r X' T']. cbn [regs]. generalize (sha256_step (sha256_schedule M)). intros step.
    unfold view8 at 2. change (reg8 (role8 0)) with (reg8 8). cbv [reg8 Nat.modulo Nat.divmod Nat.add Nat.sub fst snd]. cbn [word nth].
    generalize (seq 0 64). intros ts E3. rewrite <- E3. unfold view8. change (reg8 (role8 64)) with (reg8 8).
    cbv [reg8 Nat.modulo Nat.divmod Nat.add Nat.sub fst snd]. cbn [fmap list_fmap seq word nth]. by rewrite !(Z.add_comm (word r _)).
Qed.

#[export] Instance sha256_block_func : BlockFunc sha256_block_data_order sha256_block.
Proof. intros n iv l _ _. reflexivity. Qed.

Lemma sha256_compress_ok H b : words_ok 8 (sha256_compress H b).
Proof.
  unfold sha256_compress. cbv zeta. destruct (foldl _ _ _) as [[[[[[[a b'] c] d] e] f] g] h0]. split; [done|]. rewrite !Forall_cons.
  split_and!; try apply u32_range. constructor.
Qed.

Lemma sha256_hash_eq iv msg : words_ok 8 iv → bytes_ok msg →
  md_hash sha256_block iv true msg = md_hash sha256_compress iv true msg ∧ words_ok 8 (md_hash sha256_compress iv true msg).
Proof.
  apply md_hash_ext. intros H b [Hl _] Hb Hlb. split; [by apply sha256_block_compress|apply sha256_compress_ok].
Qed.

Lemma sha256_output n H : words_ok 8 H → (n ≤ 8)%nat →
  concat ((λ i, CRYPTO_store_u32_be (word H i)) <$> seq 0 n) = digest n H.
Proof.
  intros [Hl Hr] Hn. unfold digest. f_equal. apply list_eq. intros i. rewrite !list_lookup_fmap.
  destruct (decide (i < n)%nat) as [Hi|Hi].
  - rewrite lookup_seq_lt, lookup_take_lt by done. destruct (lookup_lt_is_Some_2 H i ltac:(lia)) as [x Hx]. rewrite Hx. cbn [fmap option_fmap option_map].
    unfold word. rewrite Nat.add_0_l, nth_lookup, Hx. cbn [default]. f_equal. apply store_u32_be_bytes. exact (Forall_lookup_1 _ _ _ _ Hr Hx).
  - rewrite lookup_seq_ge, lookup_take_ge by lia. done.
Qed.

(** The context after some updates. *)
Lemma SHA256_pieces iv len pieces : Forall (λ d, CBS_len d < 2 ^ 64) pieces →
  foldl SHA256_Update (mkSha256 (ctx_of sha256_block iv []) len) pieces = mkSha256 (ctx_of sha256_block iv (concat pieces)) len.
Proof.
  intros Hl. transitivity (mkSha256 (foldl (crypto_md32_update sha256_block_data_order) (ctx_of sha256_block iv []) pieces) len).
  - clear Hl. generalize (ctx_of sha256_block iv []). induction pieces as [|d ds IH]; intros c; [reflexivity|]. cbn [foldl]. apply IH.
  - by rewrite (update_pieces _ sha256_block).
Qed.

Lemma sha256_final_digest iv msg n len : words_ok 8 iv → bytes_ok msg → (n ≤ 8)%nat →
  sha256_final_impl (4 * n) (mkSha256 (ctx_of sha256_block iv msg) len) = Some (digest n (md_hash sha256_compress iv true msg)).
Proof.
  intros Hiv Hm Hn. destruct (sha256_hash_eq iv msg Hiv Hm) as [E HP]. unfold sha256_final_impl, SHA256_DIGEST_LENGTH. cbn [md32].
  destruct (Nat.ltb_spec 32 (4 * n)); [lia|]. rewrite (md32_final_spec _ sha256_block), E, Nat.mul_comm, Nat.div_mul by done. cbv zeta.
  by rewrite sha256_output.
Qed.

(** C40: the secure hash standard: SHA-1, SHA-224 and SHA-256 of a message that
    is given in any pieces are those of FIPS 180-4, for messages of any length
    (the bit counters wrap, as the standard is defined below 2^64 bits). *)
Theorem SHA_is_fips180 (pieces : list (list Z)) (Hb : Forall bytes_ok pieces) (Hl : Forall (λ d, CBS_len d < 2 ^ 64) pieces) :
  SHA1_Final (foldl SHA1_Update SHA1_Init pieces) = fips_sha1 (concat pieces) ∧
  SHA224_Final (foldl SHA224_Update SHA224_Init pieces) = Some (fips_sha224 (concat pieces)) ∧
  SHA256_Final (foldl SHA256_Update SHA256_Init pieces) = Some (fips_sha256 (concat pieces)).
Proof.
  assert (Hm : bytes_ok (concat pieces)) by by apply concat_bytes. split; [by apply SHA1_fips180|].
  unfold SHA224_Final, SHA256_Final, fips_sha224, fips_sha256. change SHA224_Update with SHA256_Update.
  change SHA224_Init with (mkSha256 (ctx_of sha256_block sha224_H0 []) 28). change SHA256_Init with (mkSha256 (ctx_of sha256_block sha256_H0 []) 32).
  rewrite !SHA256_pieces by exact Hl. cbn [md_len].
  split; [apply (sha256_final_digest sha224_H0 _ 7)|apply (sha256_final_digest sha256_H0 _ 8)];
    (exact Hm || lia || (split; [reflexivity|by apply (bool_decide_unpack _)])).
Qed.

Lemma SHA_is_fips180_witness :
  SHA1_Final (foldl SHA1_Update SHA1_Init [[97]; []; [98; 99]]) = fips_sha1 [97; 98; 99] ∧
  SHA224_Final (foldl SHA224_Update SHA224_Init [[97]; []; [98; 99]]) = Some (fips_sha224 [97; 98; 99]) ∧
  SHA256_Final (foldl SHA256_Update SHA256_Init [[97]; []; [98; 99]]) = Some (fips_sha256 [97; 98; 99]).
Proof.
  apply (SHA_is_fips180 [[97]; []; [98; 99]]); apply (bool_decide_unpack _); vm_compute; exact I.
Defined.
